(* ===== verification/_CoqProject ===== *)
-Q . S2P
Prelude.v
NandEcc.v
FatDate.v
Utf8.v
Rtime.v
Resource.v
Timer.v
Task.v
Creds.v
Process.v
Ctype.v
Vsprintf.v
Bootmem.v
StringLib.v
Pipe.v
Buddy.v
Boot.v
Sem.v
Locks.v
LockGrants.v
LockSteps.v
Rwsem.v
Rbtree.v
Vma.v
Munmap.v
Mmap.v
Mprotect.v
Mlock.v
MmLife.v
SigQueue.v
Signal.v
SigFrame.v
SigSuspend.v
