(* ===== verification/Prelude.v ===== *)
(** * A verification of parts of the Linux 2.4 kernel of the SIMpad

    The repository is the kernel of the Siemens SIMpad, a 32-bit ARM (StrongARM SA-1110) tablet:
    src/simpad-kernel/linux. Paths below are relative to that directory. The development models
    parts of it that carry their own logic and do not depend on a device: the memory allocators of
    boot and run time, the address spaces of processes, the I/O resource tree, the timer wheel, the
    credentials and process calls, signals, pipes, semaphores and file locks, and the routines of
    the library, of flash memory and of file systems that compute.

    ** The files

    - Prelude (this file): C operators, conversions to machine integers, records with updatable
      fields, the [outcome] of code that may hit BUG(), arrays, bit lemmas and tactics.
    - Bootmem: mm/bootmem.c, the bitmap allocator of one node. [bootmem_data] is the struct;
      [__alloc_bootmem_core], [reserve_bootmem_core], [free_bootmem_core] are the functions.
    - Buddy: mm/page_alloc.c, the buddy system of one zone: [__free_pages_ok], [expand],
      [rmqueue]. Pages are named by their index; a free list is a list of indices; the bitmap is a
      set of (order, pair).
    - Boot: [free_all_bootmem_core] of mm/bootmem.c, where the boot allocator hands its pages to the
      page allocator; the theorem joins the invariants of Bootmem and Buddy.
    - Resource: kernel/resource.c. A heap of [resource] records linked by parent, child and sibling
      addresses; the loops follow the pointers with the size of the heap as fuel.
    - Timer: kernel/timer.c, the five levels of the timer wheel, each list head as the list of its timers in
      order, cascading, and the run of the expired timers; the function of a timer is a fixed sequence of
      operations on the wheel.
    - Task: the process table and the fields of task_struct that the calls use, the state monad in
      which they are written, capable(), and kernel/user.c. It provides a weakest-precondition
      calculus for the calling task ([wp]).
    - Creds: kernel/sys.c and kernel/capability.c: user and group identities, supplementary groups,
      prctl, capget and capset.
    - Process: kernel/sys.c: priorities, process groups and sessions, resource limits, host names,
      notifier chains, reboot.
    - Pipe: fs/pipe.c: the circular buffer, the critical sections of readers and writers as
      functions, and their interleaving as a step relation with the queue of the sleepers.
    - Sem: ipc/sem.c: one set of System V semaphores. [try_atomic_semop] and [update_queue] are the
      functions; [semop_start] and [semop_resume] are the parts of sys_semop before and after a
      sleep; [semctl_main] and [sem_exit] complete the step relation. [run_ops] is the reference.
    - Locks, LockGrants, LockSteps: fs/locks.c, POSIX record locks of one inode. Locks has the code, with the
      structures of the locks in a heap that the list and the caller share, and the proof about the
      loop of posix_lock_file for lists in order; LockGrants has what the loop never does, for any
      list and any request; LockSteps has the calls as steps and the theorems.
    - Rwsem: lib/rwsem-spinlock.c, the semaphores for readers and writers that protect, among others,
      the address spaces; a critical section and each access of the waiting loop is a step.
    - Rbtree: lib/rbtree.c: nodes in a heap with parent pointers and colours; the proofs relate the
      heap to a functional tree and its contexts.
    - Vma: mm/mmap.c and include/linux/mm.h: the areas of an address space, [mm_struct], as a list
      and a red-black tree over one memory of areas; lookup, linking, merging. Calls into page
      tables, files and drivers are recorded in the field [calls]. [Mm s l] says that the list and
      the tree of [s] hold the areas [l]; [mapped_as s l x w] is the abstract view, what is mapped at
      the address [x]. The fuel of all walks is the number of tree nodes and one.
    - Munmap, Mmap: [do_munmap] with [unmap_fixup] and [free_pgtables]; [do_mmap_pgoff], the choice of
      an address, [sys_brk]. Mprotect, Mlock: mm/mprotect.c and mm/mlock.c. MmLife: fork
      ([dup_mmap] of kernel/fork.c), growth of the stack, exit.
    - SigQueue: include/linux/signal.h and the part of kernel/signal.c that works on the queues: sets of
      signals, queues of nodes on one heap with their tail pointers, [send_signal],
      [collect_signal], [rm_from_queue]. [Queues s qs] gives the contents of all queues. Signal: the
      rest of kernel/signal.c over that store, the process table of Task, the signal fields of the
      tasks and the shared handlers: sending, dequeuing, groups, threads, handlers, masks. [Inv] is the
      invariant, [posted] and [taken] say what sending and dequeuing do to a task and its queue.
    - SigFrame: arch/arm/kernel/signal.c: the registers and the memory of a process ([machine]), the
      frames on its stack, [handle_signal], the return from a handler, and [do_signal]; SigSuspend: the
      calls of that file that wait for a signal with another mask.
    - NandEcc: drivers/mtd/nand/nand_ecc.c. FatDate: the dates of fs/fat/misc.c. Rtime:
      fs/jffs2/compr_rtime.c. Utf8: the conversions of fs/nls/nls_base.c.
    - Ctype, Vsprintf, StringLib: lib/ctype.c, lib/vsprintf.c, lib/string.c.

    ** How code is modelled

    The target is the 32-bit ARM: [unsigned long] is u32, and wrap-around is written out. BUG() is
    the outcome [Bug], error returns are negative numbers as in the code, and pointers are the keys
    of finite maps. Loops are structural recursions where the code counts, and have fuel otherwise;
    the theorems show that the fuel that the definitions give is enough, or state for how much fuel
    they hold. Locks are not modelled; where processes interleave (Pipe, Sem, LockSteps,
    Rwsem, Signal) the unit of a step is a critical section. Functions that the code calls through
    pointers (timer functions, notifiers) are arguments of the model, and so are, in SigFrame and SigSuspend, the
    functions of other files that [do_signal] calls (schedule, core dumps, breakpoints). Access to user memory is an argument that says which part is
    accessible.

    ** What is shown

    - Memory: blocks that the boot allocator returns are disjoint, aligned and marked; the page
      allocator keeps the free lists and the map consistent, merges as far as possible, and refuses
      only when no aligned run is free; a page in use is refused with BUG(); the hand-over gives it
      exactly the unreserved pages and the bitmap, and none of a block that was handed out.
    - Address spaces: insertion and removal keep a red-black tree and its order; munmap, mmap, brk,
      mprotect, mlock and fork each do to the map of addresses exactly what they promise, on every
      path, and keep the list, the tree, the counts and the cache consistent; mmap also when the
      driver moves the area, with BUG() only when it is moved over another one; page tables are freed
      only where nothing is mapped; an exit, also after half a fork, gives back every area and file
      once.
    - Semaphores for readers and writers: exclusion, the order of arrival, and no lost wake-up.
    - Resources: a request succeeds exactly when the range is inside the root and free, and all
      operations keep the tree sorted and disjoint.
    - Timers: every timer runs at its tick, those of one slot in the order in which they were added, and
      the wheel catches up.
    - Credentials: a process without privileges stays confined to its own identities; dropping root
      by setuid is permanent; capset obeys its rules; failing calls change nothing.
    - Signals: the queues, sets, masks and flags stay consistent under all calls, so that no deliverable
      signal goes unnoticed; sending and dequeuing do exactly what their specification says; a task
      gets the ordinary signals once and the real-time ones in order and each; SIGKILL cannot be
      escaped, and a fatal signal ends the task at its next return to user mode; a handler returns
      with all registers and the mask restored.
    - Pipes: bytes come out in the order they went in; short writes are atomic; no wake-up is lost
      unless a buffer faults.
    - Semaphores: operations happen all or not at all; values and adjustments stay in range; SEM_UNDO
      gives back what was taken; no wake-up is lost unless an operation waits for zero and increases
      without decreasing.
    - File locks: whatever the requests, owners exclude each other, nobody gets what he did not ask for,
      and nobody else loses anything; a request changes exactly its bytes and its owner and keeps the
      list sorted and merged, unless an end at OFFSET_MAX makes the code overflow ([end_ok]); deadlocks
      are found exactly, and the search ends.
    - Codecs and library: round trips of the compressor, dates, UTF-8 and numbers; single bit errors
      corrected and double ones detected; output never beyond the buffer.
    - Several theorems record behaviour of the code that is surely not meant, next to the theorem
      about the case that works (for instance [allocate_resource_misses_gap],
      [setgroups_fault_joins_group_0], [pipe_lost_wakeup_on_fault],
      [lost_wakeup_after_increase], [unlock_leaves_lock], [brk_maps_kernel], [mmap_wraps_around],
      [mprotect_wraps_around], [fork_counts_uncopied], [rt_sigprocmask_invalid_how], [tkill_leaks],
      [nodefer_drops_sa_mask]).

    ** Not modelled

    Device drivers, the board files (register accesses), the network stacks, the page cache, page
    tables and page faults, swapping, mremap, the scheduler, the VFS, the other
    architectures, and code that only lists state under /proc. They consist of accesses to hardware
    or of state shared with all of them. Within the modelled files, the manifest says which functions
    are left out. *)
From stdpp Require Export base list gmap.
From Stdlib Require Export ZArith Lia Bool.
#[global] Open Scope Z_scope.

(** ** Notations for the C bit operators *)
Declare Scope c_scope.
Delimit Scope c_scope with C.
Infix ".&" := Z.land (at level 54, left associativity) : c_scope.
Infix ".|" := Z.lor (at level 58, left associativity) : c_scope.
Infix ".^" := Z.lxor (at level 56, left associativity) : c_scope.
Infix ".>>" := Z.shiftr (at level 52, left associativity) : c_scope.
Infix ".<<" := Z.shiftl (at level 52, left associativity) : c_scope.
#[global] Open Scope c_scope.

(** ** Machine integers: conversions of the 32-bit ARM target *)
Definition u8 (z : Z) : Z := z mod 256.
Definition u16 (z : Z) : Z := z mod 65536.
Definition u32 (z : Z) : Z := z mod 4294967296.
Definition u64 (z : Z) : Z := z mod 18446744073709551616.
Definition s8 (z : Z) : Z := (z + 128) mod 256 - 128.
Definition s16 (z : Z) : Z := (z + 32768) mod 65536 - 32768.
Definition s32 (z : Z) : Z := (z + 2147483648) mod 4294967296 - 2147483648.
Definition s64 (z : Z) : Z :=
  (z + 9223372036854775808) mod 18446744073709551616 - 9223372036854775808.

(** The truth value of an integer used as a condition. *)
Definition truth (z : Z) : bool := negb (z =? 0).

(** [if (c) x |= b;] *)
Definition or_if (c : bool) (x b : Z) : Z := if c then x .| b else x.

(** ** Records with updatable fields *)

(** [rebuild] puts a record together from its fields; the update of one field,
    written [r <| f := v |>], is derived from it. *)
Class Fields (R : Type) := rebuild : R -> R.
Class Update {R E : Type} (field : R -> E) := update : E -> R -> R.
Arguments update {R E} field {_} v r.

#[global] Hint Extern 1 (@Update ?R ?E ?field) =>
  (let g := constr:(fun r : R => @rebuild R _ r) in
   let g := eval lazy beta delta [rebuild] in g in
   let g := lazymatch g with fun r => ?h r => h | _ => g end in
   let g := eval unfold g in g in
   lazymatch eval pattern field in g with
   | ?u _ => exact (fun v => u (fun _ => v))
   end) : typeclass_instances.

Notation "r <| f := v |>" := (update f v r)
  (at level 1, left associativity, f at level 0, v at level 99, format "r <| f  :=  v |>").

(** ** Code that may hit BUG() *)
Inductive outcome (A : Type) : Type :=
| Ok (a : A)
| Bug.
Arguments Ok {A} a.
Arguments Bug {A}.

#[global] Instance outcome_ret : MRet outcome := fun A a => Ok a.
#[global] Instance outcome_bind : MBind outcome :=
  fun A B f m => match m with Ok a => f a | Bug => Bug end.

(** [if (c) BUG();] *)
Definition bug_on (c : bool) : outcome unit := if c then Bug else Ok tt.

(** ** Tactics *)
Ltac unfold_ints := unfold u8, u16, u32, u64, s8, s16, s32, s64 in *.
Ltac dm := Z.div_mod_to_equations; lia.

(** Case analysis on the boolean comparisons of the goal. *)
Ltac case_cmp :=
  match goal with
  | |- context [?a =? ?b] => destruct (Z.eqb_spec a b)
  | |- context [?a <? ?b] => destruct (Z.ltb_spec a b)
  | |- context [?a <=? ?b] => destruct (Z.leb_spec a b)
  end.

(** A closed decidable proposition, by evaluating its decision procedure. *)
Ltac decide_now := apply (bool_decide_unpack _); vm_compute; exact I.

(** Boolean comparisons of the hypotheses as propositions. *)
Ltac bool_hyps :=
  repeat match goal with
  | H : (_ && _)%bool = true |- _ => apply andb_true_iff in H as [? ?]
  | H : (_ || _)%bool = false |- _ => apply orb_false_iff in H as [? ?]
  | H : negb _ = true |- _ => apply negb_true_iff in H
  | H : negb _ = false |- _ => apply negb_false_iff in H
  | H : (_ =? _) = true |- _ => apply Z.eqb_eq in H
  | H : (_ =? _) = false |- _ => apply Z.eqb_neq in H
  | H : (_ <? _) = true |- _ => apply Z.ltb_lt in H
  | H : (_ <? _) = false |- _ => apply Z.ltb_ge in H
  | H : (_ <=? _) = true |- _ => apply Z.leb_le in H
  | H : (_ <=? _) = false |- _ => apply Z.leb_gt in H
  end.

(** A fact about every integer of a small range, decided by running it. *)
Fixpoint all_from (n : nat) (z : Z) (f : Z -> bool) : bool :=
  match n with
  | O => true
  | S n => f z && all_from n (z + 1) f
  end.

Definition all_below (n : Z) (f : Z -> bool) : bool := all_from (Z.to_nat n) 0 f.

Lemma all_from_spec n f : forall z x,
  all_from n z f = true -> z <= x < z + Z.of_nat n -> f x = true.
Proof.
  induction n as [|n IH]; intros z x H Hx; [lia|].
  cbn [all_from] in H. apply andb_true_iff in H as [H0 H].
  destruct (Z.eq_dec x z) as [->|]; [done|]. apply (IH (z + 1)); [done|lia].
Qed.

Lemma all_below_spec n f z : all_below n f = true -> 0 <= z < n -> f z = true.
Proof. intros H Hz. apply (all_from_spec _ _ _ _ H). lia. Qed.

(** ** Conversions *)
Create HintDb cint.
Create Rewrite HintDb cint.

Lemma u8_range z : 0 <= u8 z < 256.
Proof. unfold u8. apply Z.mod_pos_bound. lia. Qed.
Lemma u16_range z : 0 <= u16 z < 65536.
Proof. unfold u16. apply Z.mod_pos_bound. lia. Qed.
Lemma u32_range z : 0 <= u32 z < 4294967296.
Proof. unfold u32. apply Z.mod_pos_bound. lia. Qed.
Lemma s32_range z : -2147483648 <= s32 z < 2147483648.
Proof. unfold s32. pose proof (Z.mod_pos_bound (z + 2147483648) 4294967296). lia. Qed.
Lemma u8_id z : 0 <= z < 256 -> u8 z = z.
Proof. apply Z.mod_small. Qed.
Lemma u16_id z : 0 <= z < 65536 -> u16 z = z.
Proof. apply Z.mod_small. Qed.
Lemma u32_id z : 0 <= z < 4294967296 -> u32 z = z.
Proof. apply Z.mod_small. Qed.
Lemma s32_id z : -2147483648 <= z < 2147483648 -> s32 z = z.
Proof. intros. unfold s32. rewrite Z.mod_small; lia. Qed.
#[export] Hint Resolve u8_range u16_range u32_range s32_range : cint.
#[export] Hint Rewrite u8_id u16_id u32_id s32_id using lia : cint.

(** ** Bits *)
Lemma truth_testbit x n :
  0 <= n -> truth (x .& 2 ^ n) = Z.testbit x n.
Proof.
  intros Hn. unfold truth. destruct (Z.testbit x n) eqn:E.
  - apply negb_true_iff, Z.eqb_neq. intros H.
    apply (f_equal (fun z => Z.testbit z n)) in H.
    rewrite Z.land_spec, E, Z.pow2_bits_true, Z.bits_0 in H by lia. done.
  - apply negb_false_iff, Z.eqb_eq, Z.bits_inj'. intros m Hm.
    rewrite Z.land_spec, Z.bits_0. destruct (Z.eq_dec m n) as [->|].
    + by rewrite E.
    + rewrite Z.pow2_bits_false by lia. apply andb_false_r.
Qed.

Lemma or_if_spec c x b n :
  Z.testbit (or_if c x b) n = Z.testbit x n || (c && Z.testbit b n).
Proof. destruct c; cbn; [by rewrite Z.lor_spec | by rewrite orb_false_r]. Qed.

Lemma testbit_small x k n : 0 <= x < 2 ^ k -> k <= n -> Z.testbit x n = false.
Proof.
  intros Hx Hn. destruct (Z.eq_dec x 0) as [->|]; [apply Z.bits_0|].
  apply Z.bits_above_log2; [lia|].
  apply Z.log2_lt_pow2; [lia|].
  apply Z.lt_le_trans with (2 ^ k); [lia|]. apply Z.pow_le_mono_r; lia.
Qed.

(** Two k-bit integers that agree on their k bits are equal. *)
Lemma bits_ext k x y :
  0 <= x < 2 ^ k -> 0 <= y < 2 ^ k ->
  (forall n, 0 <= n < k -> Z.testbit x n = Z.testbit y n) -> x = y.
Proof.
  intros Hx Hy H. apply Z.bits_inj'. intros n Hn.
  destruct (Z_lt_le_dec n k); [apply H; lia|].
  by rewrite !(testbit_small _ k) by lia.
Qed.

Lemma u8_testbit x n : 0 <= n < 8 -> Z.testbit (u8 x) n = Z.testbit x n.
Proof. intros. unfold u8. change 256 with (2 ^ 8). apply Z.mod_pow2_bits_low; lia. Qed.

Lemma lxor_range k x y :
  0 <= k -> 0 <= x < 2 ^ k -> 0 <= y < 2 ^ k -> 0 <= x .^ y < 2 ^ k.
Proof.
  intros Hk Hx Hy. split; [apply Z.lxor_nonneg; lia|].
  assert (x .^ y = (x .^ y) mod 2 ^ k) as ->.
  { apply Z.bits_inj'. intros n Hn. destruct (Z_lt_le_dec n k).
    - by rewrite Z.mod_pow2_bits_low by lia.
    - rewrite Z.mod_pow2_bits_high by lia.
      by rewrite Z.lxor_spec, !(testbit_small _ k) by lia. }
  apply Z.mod_pos_bound. lia.
Qed.

Lemma lxor_cancel x y : x .^ (x .^ y) = y.
Proof. by rewrite <- Z.lxor_assoc, Z.lxor_nilpotent, Z.lxor_0_l. Qed.

Lemma u8_lxor x y : u8 (x .^ y) = u8 x .^ u8 y.
Proof.
  apply Z.bits_inj'. intros n Hn. rewrite Z.lxor_spec.
  unfold u8. change 256 with (2 ^ 8). destruct (Z_lt_le_dec n 8).
  - by rewrite !Z.mod_pow2_bits_low, Z.lxor_spec by lia.
  - by rewrite !Z.mod_pow2_bits_high by lia.
Qed.

Lemma u8_lnot x : u8 (Z.lnot x) = u8 x .^ 255.
Proof.
  rewrite <- Z.lxor_m1_r, u8_lxor. done.
Qed.

Definition is_byte (z : Z) : Prop := 0 <= z < 256.
Definition is_byteb (z : Z) : bool := (0 <=? z) && (z <? 256).

Lemma lxor_byte x y : is_byte x -> is_byte y -> is_byte (x .^ y).
Proof. apply (lxor_range 8). lia. Qed.
Lemma u8_byte x : is_byte (u8 x).
Proof. apply u8_range. Qed.
#[export] Hint Resolve lxor_byte u8_byte : cint.

(** Equality of bit expressions, bit by bit. *)
Ltac bitwise :=
  apply Z.bits_inj'; intros ? ?;
  repeat first [rewrite Z.bits_0 | rewrite Z.lxor_spec | rewrite Z.land_spec | rewrite Z.lor_spec
               | rewrite Z.ldiff_spec | rewrite Z.lnot_spec by lia];
  repeat match goal with |- context [Z.testbit ?a ?b] => destruct (Z.testbit a b) end;
  reflexivity.

Lemma land_lxor_distr_l x y z : (x .^ y) .& z = (x .& z) .^ (y .& z).
Proof. bitwise. Qed.

Lemma lxor_cancel_l x y : (x .^ y) .^ x = y.
Proof. by rewrite (Z.lxor_comm x y), Z.lxor_assoc, Z.lxor_nilpotent, Z.lxor_0_r. Qed.

Lemma lor_range k x y :
  0 <= k -> 0 <= x < 2 ^ k -> 0 <= y < 2 ^ k -> 0 <= x .| y < 2 ^ k.
Proof.
  intros Hk Hx Hy. split; [apply Z.lor_nonneg; lia|].
  replace (x .| y) with ((x .^ y) .^ (x .& y)) by bitwise.
  apply lxor_range; [done| |]; [by apply lxor_range|].
  split; [apply Z.land_nonneg; lia|].
  apply Z.le_lt_trans with x; [|lia]. apply Z.ldiff_le; [lia|].
  bitwise.
Qed.

Lemma or_if_byte c x b : is_byte x -> is_byte b -> is_byte (or_if c x b).
Proof. destruct c; cbn; [|done]. apply (lor_range 8). lia. Qed.
#[export] Hint Resolve or_if_byte : cint.

Lemma lxor_cancel_lr x y z : ((x .^ y) .^ z) .^ x = y .^ z.
Proof. bitwise. Qed.

Lemma lor_shift_add x y k : 0 <= k -> 0 <= y < 2 ^ k -> (x .<< k) .| y = x * 2 ^ k + y.
Proof.
  intros Hk Hy. rewrite <- Z.shiftl_mul_pow2 by done.
  assert ((x .<< k) .& y = 0) as H.
  { apply Z.bits_inj'. intros n Hn. rewrite Z.land_spec, Z.bits_0.
    destruct (Z_lt_le_dec n k).
    - rewrite Z.shiftl_spec_low by lia. done.
    - rewrite (testbit_small y k) by lia. apply andb_false_r. }
  rewrite <- Z.lxor_lor by done. symmetry. by apply Z.add_nocarry_lxor.
Qed.

(** ** Arrays of integers indexed by [Z] *)
Definition get (l : list Z) (i : Z) : Z := nth (Z.to_nat i) l 0.
Definition set_at (l : list Z) (i v : Z) : list Z := <[Z.to_nat i := v]> l.
Definition len (l : list Z) : Z := Z.of_nat (length l).

Lemma get_lookup l i x : 0 <= i -> l !! Z.to_nat i = Some x -> get l i = x.
Proof. intros Hi H. unfold get. rewrite nth_lookup, H. done. Qed.

Lemma lookup_get (l : list Z) i : 0 <= i < len l -> l !! Z.to_nat i = Some (get l i).
Proof.
  intros Hi. destruct (lookup_lt_is_Some_2 l (Z.to_nat i)) as [x Hx]; [unfold len in Hi; lia|].
  by rewrite Hx, (get_lookup l i x) by (done || lia).
Qed.

Lemma get_set_eq l i v : 0 <= i < len l -> get (set_at l i v) i = v.
Proof.
  intros Hi. apply get_lookup; [lia|]. apply list_lookup_insert_eq. unfold len in Hi. lia.
Qed.

Lemma get_set_ne l i j v : 0 <= i -> 0 <= j -> i <> j -> get (set_at l i v) j = get l j.
Proof.
  intros Hi Hj Hne. unfold get, set_at. rewrite !nth_lookup.
  by rewrite list_lookup_insert_ne by lia.
Qed.

Lemma len_set l i v : len (set_at l i v) = len l.
Proof. unfold len, set_at. by rewrite length_insert. Qed.

Lemma len_app l l' : len (l ++ l') = len l + len l'.
Proof. unfold len. rewrite length_app. lia. Qed.

Lemma get_app_l l l' i : 0 <= i < len l -> get (l ++ l') i = get l i.
Proof. intros Hi. unfold get. apply app_nth1. unfold len in Hi. lia. Qed.

(** The first [n] elements of an array and the one after them. *)
Lemma take_snoc l n : 0 <= n < len l ->
  take (Z.to_nat n) l ++ [get l n] = take (Z.to_nat (n + 1)) l.
Proof.
  intros Hn. replace (Z.to_nat (n + 1)) with (S (Z.to_nat n)) by lia.
  symmetry. apply take_S_r. by apply lookup_get.
Qed.

Lemma get_take l n i : 0 <= i < n -> get (take (Z.to_nat n) l) i = get l i.
Proof.
  intros Hi. unfold get. rewrite !nth_lookup, lookup_take.
  case_decide; [done|lia].
Qed.

Lemma len_take l n : 0 <= n <= len l -> len (take (Z.to_nat n) l) = n.
Proof. unfold len. rewrite length_take. lia. Qed.

Lemma Forall_get (P : Z -> Prop) l i : Forall P l -> 0 <= i < len l -> P (get l i).
Proof. intros Hl Hi. eapply Forall_lookup_1; [exact Hl|]. by apply lookup_get. Qed.
#[export] Hint Rewrite len_set len_app : cint.
