(* ===== verification/NandEcc.v ===== *)
(** drivers/mtd/nand/nand_ecc.c: the 3-byte Hamming code of a 256-byte NAND
    flash page, its table, its computation and the correction routine. *)
From S2P Require Import Prelude.

(** ** Model *)

(** [nand_ecc_precalc_table] *)
Definition nand_ecc_precalc_table : list Z := [
  0x00; 0x55; 0x56; 0x03; 0x59; 0x0c; 0x0f; 0x5a; 0x5a; 0x0f; 0x0c; 0x59; 0x03; 0x56; 0x55; 0x00;
  0x65; 0x30; 0x33; 0x66; 0x3c; 0x69; 0x6a; 0x3f; 0x3f; 0x6a; 0x69; 0x3c; 0x66; 0x33; 0x30; 0x65;
  0x66; 0x33; 0x30; 0x65; 0x3f; 0x6a; 0x69; 0x3c; 0x3c; 0x69; 0x6a; 0x3f; 0x65; 0x30; 0x33; 0x66;
  0x03; 0x56; 0x55; 0x00; 0x5a; 0x0f; 0x0c; 0x59; 0x59; 0x0c; 0x0f; 0x5a; 0x00; 0x55; 0x56; 0x03;
  0x69; 0x3c; 0x3f; 0x6a; 0x30; 0x65; 0x66; 0x33; 0x33; 0x66; 0x65; 0x30; 0x6a; 0x3f; 0x3c; 0x69;
  0x0c; 0x59; 0x5a; 0x0f; 0x55; 0x00; 0x03; 0x56; 0x56; 0x03; 0x00; 0x55; 0x0f; 0x5a; 0x59; 0x0c;
  0x0f; 0x5a; 0x59; 0x0c; 0x56; 0x03; 0x00; 0x55; 0x55; 0x00; 0x03; 0x56; 0x0c; 0x59; 0x5a; 0x0f;
  0x6a; 0x3f; 0x3c; 0x69; 0x33; 0x66; 0x65; 0x30; 0x30; 0x65; 0x66; 0x33; 0x69; 0x3c; 0x3f; 0x6a;
  0x6a; 0x3f; 0x3c; 0x69; 0x33; 0x66; 0x65; 0x30; 0x30; 0x65; 0x66; 0x33; 0x69; 0x3c; 0x3f; 0x6a;
  0x0f; 0x5a; 0x59; 0x0c; 0x56; 0x03; 0x00; 0x55; 0x55; 0x00; 0x03; 0x56; 0x0c; 0x59; 0x5a; 0x0f;
  0x0c; 0x59; 0x5a; 0x0f; 0x55; 0x00; 0x03; 0x56; 0x56; 0x03; 0x00; 0x55; 0x0f; 0x5a; 0x59; 0x0c;
  0x69; 0x3c; 0x3f; 0x6a; 0x30; 0x65; 0x66; 0x33; 0x33; 0x66; 0x65; 0x30; 0x6a; 0x3f; 0x3c; 0x69;
  0x03; 0x56; 0x55; 0x00; 0x5a; 0x0f; 0x0c; 0x59; 0x59; 0x0c; 0x0f; 0x5a; 0x00; 0x55; 0x56; 0x03;
  0x66; 0x33; 0x30; 0x65; 0x3f; 0x6a; 0x69; 0x3c; 0x3c; 0x69; 0x6a; 0x3f; 0x65; 0x30; 0x33; 0x66;
  0x65; 0x30; 0x33; 0x66; 0x3c; 0x69; 0x6a; 0x3f; 0x3f; 0x6a; 0x69; 0x3c; 0x66; 0x33; 0x30; 0x65;
  0x00; 0x55; 0x56; 0x03; 0x59; 0x0c; 0x0f; 0x5a; 0x5a; 0x0f; 0x0c; 0x59; 0x03; 0x56; 0x55; 0x00 ].

(** [ecc_code[3]] *)
Record ecc := Ecc { ecc0 : Z; ecc1 : Z; ecc2 : Z }.

(** One of the two four-round loops of [nand_trans_result]: the state is
    [(a, b, tmp)]. *)
Fixpoint trans_loop (n : nat) (reg2 reg3 a b tmp : Z) : Z * Z :=
  match n with
  | O => (a, tmp)
  | S n =>
      let tmp := or_if (truth (reg3 .& a)) tmp b in
      let b := b .>> 1 in
      let tmp := or_if (truth (reg2 .& a)) tmp b in
      let b := b .>> 1 in
      let a := a .>> 1 in
      trans_loop n reg2 reg3 a b tmp
  end.

(** [nand_trans_result]: the bytes stored in [ecc_code[0]] and [ecc_code[1]]. *)
Definition nand_trans_result (reg2 reg3 : Z) : Z * Z :=
  let '(a, tmp1) := trans_loop 4 reg2 reg3 0x80 0x80 0 in
  let '(a, tmp2) := trans_loop 4 reg2 reg3 a 0x80 0 in
  (tmp1, tmp2).

Definition precalc (d : Z) : Z := nth (Z.to_nat d) nand_ecc_precalc_table 0.

(** The loop of [nand_calculate_ecc] from index [j] on, over the bytes that
    are left, on the registers [(reg1, reg2, reg3)]. *)
Fixpoint ecc_loop (dat : list Z) (j reg1 reg2 reg3 : Z) : Z * Z * Z :=
  match dat with
  | [] => (reg1, reg2, reg3)
  | d :: rest =>
      let idx := precalc d in
      let reg1 := reg1 .^ (idx .& 0x3f) in
      if truth (idx .& 0x40)
      then ecc_loop rest (j + 1) reg1 (u8 (reg2 .^ Z.lnot (u8 j))) (reg3 .^ u8 j)
      else ecc_loop rest (j + 1) reg1 reg2 reg3
  end.

(** [nand_calculate_ecc] on a block of 256 bytes. *)
Definition nand_calculate_ecc (dat : list Z) : ecc :=
  let '(reg1, reg2, reg3) := ecc_loop (take 256 dat) 0 0 0 0 in
  let '(e0, e1) := nand_trans_result reg2 reg3 in
  Ecc (u8 (Z.lnot e0)) (u8 (Z.lnot e1)) (u8 ((Z.lnot reg1 .<< 2) .| 0x03)).

(** The loops of [nand_correct_data] that gather every second bit of [d]:
    [if (d & c) x |= a; c >>= 2; a >>= 1;]. *)
Fixpoint gather_loop (n : nat) (d c a x : Z) : Z * Z :=
  match n with
  | O => (a, x)
  | S n => gather_loop n d (c .>> 2) (a .>> 1) (or_if (truth (d .& c)) x a)
  end.

(** [while (d) { if (d & 1) ++i; d >>= 1; }] on a byte. *)
Fixpoint count_loop (n : nat) (d i : Z) : Z :=
  match n with
  | O => i
  | S n => if truth d
           then count_loop n (d .>> 1) (if truth (d .& 1) then i + 1 else i)
           else i
  end.

(** [nand_correct_data]: return value, corrected data, corrected [read_ecc]. *)
Definition nand_correct_data (dat : list Z) (read_ecc calc_ecc : ecc)
  : Z * list Z * ecc :=
  let d1 := ecc0 calc_ecc .^ ecc0 read_ecc in
  let d2 := ecc1 calc_ecc .^ ecc1 read_ecc in
  let d3 := ecc2 calc_ecc .^ ecc2 read_ecc in
  if (d1 .| d2 .| d3) =? 0 then (0, dat, read_ecc)
  else
    let a := (d1 .^ (d1 .>> 1)) .& 0x55 in
    let b := (d2 .^ (d2 .>> 1)) .& 0x55 in
    let c := (d3 .^ (d3 .>> 1)) .& 0x54 in
    if (a =? 0x55) && (b =? 0x55) && (c =? 0x54) then
      let '(a, add) := gather_loop 4 d1 0x80 0x80 0 in
      let '(_, add) := gather_loop 4 d2 0x80 a add in
      let '(_, bit) := gather_loop 3 d3 0x80 0x04 0 in
      let i := Z.to_nat add in
      (1, <[i := u8 (nth i dat 0 .^ (1 .<< bit))]> dat, read_ecc)
    else
      let i := count_loop 8 d3 (count_loop 8 d2 (count_loop 8 d1 0)) in
      if i =? 1 then (2, dat, calc_ecc)
      else (-1, dat, read_ecc).

(** ** Linearity of the code over exclusive or *)

Definition is_block (dat : list Z) : Prop :=
  length dat = 256%nat /\ Forall is_byte dat.

(** The page with bit [b] of byte [k] inverted. *)
Definition flip (dat : list Z) (k : nat) (b : Z) : list Z :=
  <[k := nth k dat 0 .^ 2 ^ b]> dat.

Definition xor3 (x y : Z * Z * Z) : Z * Z * Z :=
  let '(x1, x2, x3) := x in let '(y1, y2, y3) := y in
  (x1 .^ y1, x2 .^ y2, x3 .^ y3).

Definition xor_ecc (x y : ecc) : ecc :=
  Ecc (ecc0 x .^ ecc0 y) (ecc1 x .^ ecc1 y) (ecc2 x .^ ecc2 y).

Lemma precalc_flip d b :
  is_byte d -> 0 <= b < 8 -> precalc (d .^ 2 ^ b) = precalc d .^ precalc (2 ^ b).
Proof.
  intros Hd Hb.
  assert (H : all_below 8 (fun b => all_below 256 (fun d =>
    precalc (d .^ 2 ^ b) =? precalc d .^ precalc (2 ^ b))) = true)
    by (vm_compute; reflexivity).
  eapply all_below_spec in H; [|split; [apply Hb | apply Hb]].
  eapply all_below_spec in H; [|apply Hd]. by apply Z.eqb_eq in H.
Qed.

Lemma precalc_parity b : 0 <= b < 8 -> Z.testbit (precalc (2 ^ b)) 6 = true.
Proof.
  intros Hb.
  assert (H : all_below 8 (fun b => Z.testbit (precalc (2 ^ b)) 6) = true)
    by (vm_compute; reflexivity).
  exact (all_below_spec _ _ _ H Hb).
Qed.

Lemma ecc_loop_xor dat : forall j r1 r2 r3 x1 x2 x3,
  is_byte r2 -> is_byte x2 ->
  ecc_loop dat j (r1 .^ x1) (r2 .^ x2) (r3 .^ x3) =
  xor3 (ecc_loop dat j r1 r2 r3) (x1, x2, x3).
Proof.
  induction dat as [|d dat IH]; intros j r1 r2 r3 x1 x2 x3 Hr Hx; [done|]. cbn.
  assert (Hc : forall r x y, (r .^ x) .^ y = (r .^ y) .^ x)
    by (intros; rewrite !Z.lxor_assoc; f_equal; apply Z.lxor_comm).
  rewrite (Hc r1). destruct (truth _); [|by apply IH].
  rewrite (Hc r3), (Hc r2), u8_lxor, (u8_id x2) by apply Hx.
  apply IH; auto with cint.
Qed.

Lemma flip_head d dat b : flip (d :: dat) 0 b = (d .^ 2 ^ b) :: dat.
Proof. done. Qed.
Lemma flip_tail d dat k b : flip (d :: dat) (S k) b = d :: flip dat k b.
Proof. done. Qed.

Lemma ecc_loop_flip dat : forall k j r1 r2 r3 b,
  (k < length dat)%nat -> Forall is_byte dat -> is_byte r2 -> 0 <= b < 8 ->
  ecc_loop (flip dat k b) j r1 r2 r3 =
  xor3 (ecc_loop dat j r1 r2 r3)
    (precalc (2 ^ b) .& 0x3f, u8 (Z.lnot (u8 (j + Z.of_nat k))), u8 (j + Z.of_nat k)).
Proof.
  induction dat as [|d dat IH]; intros k j r1 r2 r3 b Hk Hdat Hr2 Hb; [cbn in Hk; lia|].
  inversion_clear Hdat as [|? ? Hd Hdat'].
  destruct k as [|k]; [rewrite flip_head | rewrite flip_tail]; cbn [ecc_loop].
  - change 0x40 with (2 ^ 6).
    rewrite Z.add_0_r, precalc_flip, !truth_testbit, Z.lxor_spec, precalc_parity by (done || lia).
    rewrite land_lxor_distr_l, <- Z.lxor_assoc.
    destruct (Z.testbit (precalc d) 6); cbn [xorb].
    + rewrite <- ecc_loop_xor by auto with cint. f_equal.
      * rewrite u8_lxor, Z.lxor_assoc, Z.lxor_nilpotent, Z.lxor_0_r.
        by rewrite u8_id by apply Hr2.
      * by rewrite Z.lxor_assoc, Z.lxor_nilpotent, Z.lxor_0_r.
    + rewrite <- ecc_loop_xor by auto with cint. f_equal.
      rewrite u8_lxor. by rewrite (u8_id r2) by apply Hr2.
  - cbn in Hk. replace (j + Z.of_nat (S k)) with (j + 1 + Z.of_nat k) by lia.
    destruct (truth _); apply IH; auto with cint; lia.
Qed.

(** The bits of the two bytes built by [nand_trans_result]. *)
Lemma trans_bits reg2 reg3 n :
  0 <= n < 8 ->
  Z.testbit (nand_trans_result reg2 reg3).1 n =
    Z.testbit (if Z.odd n then reg3 else reg2) (4 + n / 2) /\
  Z.testbit (nand_trans_result reg2 reg3).2 n =
    Z.testbit (if Z.odd n then reg3 else reg2) (n / 2).
Proof.
  intros Hn.
  assert (Hm : forall x m c, c = 2 ^ m -> 0 <= m -> truth (x .& c) = Z.testbit x m)
    by (intros ? ? ? ->; apply truth_testbit).
  cbn -[truth or_if Z.land].
  rewrite !(Hm _ 7 128), !(Hm _ 6 64), !(Hm _ 5 32), !(Hm _ 4 16),
    !(Hm _ 3 8), !(Hm _ 2 4), !(Hm _ 1 2), !(Hm _ 0 1) by (done || lia).
  assert (n = 0 \/ n = 1 \/ n = 2 \/ n = 3 \/ n = 4 \/ n = 5 \/ n = 6 \/ n = 7) as H by lia.
  destruct H as [-> | [-> | [-> | [-> | [-> | [-> | [-> | ->]]]]]]]; split;
    rewrite !or_if_spec; cbn;
    rewrite ?andb_false_r, ?andb_true_r, ?orb_false_r; done.
Qed.

Lemma trans_byte reg2 reg3 :
  is_byte (nand_trans_result reg2 reg3).1 /\ is_byte (nand_trans_result reg2 reg3).2.
Proof.
  cbn -[truth or_if Z.land].
  split; repeat (apply or_if_byte; [|split; done]); split; done.
Qed.

Lemma trans_xor r2 r3 x2 x3 :
  (nand_trans_result (r2 .^ x2) (r3 .^ x3)).1 =
    (nand_trans_result r2 r3).1 .^ (nand_trans_result x2 x3).1 /\
  (nand_trans_result (r2 .^ x2) (r3 .^ x3)).2 =
    (nand_trans_result r2 r3).2 .^ (nand_trans_result x2 x3).2.
Proof.
  pose proof (trans_byte (r2 .^ x2) (r3 .^ x3)) as [A1 A2].
  pose proof (trans_byte r2 r3) as [B1 B2]. pose proof (trans_byte x2 x3) as [C1 C2].
  split; apply (bits_ext 8); try exact A1; try exact A2; try (apply lxor_byte; done);
    intros n Hn; rewrite Z.lxor_spec;
    destruct (trans_bits (r2 .^ x2) (r3 .^ x3) n Hn) as [E1 E2];
    destruct (trans_bits r2 r3 n Hn) as [E3 E4];
    destruct (trans_bits x2 x3 n Hn) as [E5 E6];
    rewrite ?E1, ?E2, ?E3, ?E4, ?E5, ?E6; destruct (Z.odd n); apply Z.lxor_spec.
Qed.

(** The effect of inverting bit [b] of byte [k] on the code. *)
Definition syndrome (k b : Z) : ecc :=
  let t := nand_trans_result (u8 (Z.lnot k)) k in
  Ecc t.1 t.2 (u8 ((precalc (2 ^ b) .& 0x3f) .<< 2)).

Lemma third_byte_xor r x :
  u8 ((Z.lnot (r .^ x) .<< 2) .| 0x03) =
  u8 ((Z.lnot r .<< 2) .| 0x03) .^ u8 (x .<< 2).
Proof.
  apply (bits_ext 8); try (apply u8_byte || apply lxor_byte; apply u8_byte).
  intros n Hn. rewrite Z.lxor_spec, !u8_testbit, !Z.lor_spec, !Z.shiftl_spec by lia.
  destruct (Z_lt_le_dec n 2).
  - rewrite !(Z.testbit_neg_r _ (n - 2)) by lia.
    by assert (n = 0 \/ n = 1) as [-> | ->] by lia.
  - rewrite !Z.lnot_spec, Z.lxor_spec by lia.
    rewrite (testbit_small 3 2) by lia.
    destruct (Z.testbit r _), (Z.testbit x _); done.
Qed.

Lemma calculate_flip dat k b :
  is_block dat -> (k < 256)%nat -> 0 <= b < 8 ->
  nand_calculate_ecc (flip dat k b) =
  xor_ecc (nand_calculate_ecc dat) (syndrome (Z.of_nat k) b).
Proof.
  intros [Hlen Hdat] Hk Hb. unfold nand_calculate_ecc.
  rewrite !take_ge by (unfold flip; rewrite ?length_insert; lia).
  rewrite ecc_loop_flip by (done || lia || (unfold is_byte; lia)).
  destruct (ecc_loop dat 0 0 0 0) as [[r1 r2] r3]. cbn [xor3].
  rewrite Z.add_0_l, !(u8_id (Z.of_nat k)) by lia.
  pose proof (trans_xor r2 r3 (u8 (Z.lnot (Z.of_nat k))) (Z.of_nat k)) as [T1 T2].
  pose proof (trans_byte (u8 (Z.lnot (Z.of_nat k))) (Z.of_nat k)) as [B1 B2].
  unfold syndrome, xor_ecc.
  destruct (nand_trans_result (r2 .^ _) _) as [e0 e1].
  destruct (nand_trans_result r2 r3) as [f0 f1].
  destruct (nand_trans_result _ _) as [g0 g1]. cbn in *. subst.
  rewrite third_byte_xor, !u8_lnot, !u8_lxor, (u8_id g0), (u8_id g1) by done.
  f_equal; rewrite !Z.lxor_assoc; f_equal; apply Z.lxor_comm.
Qed.

(** What the correction routine reads off the syndrome of one inverted bit. *)
Definition locates (s : ecc) (k b : Z) : bool :=
  negb (ecc0 s .| ecc1 s .| ecc2 s =? 0) &&
  (((ecc0 s .^ (ecc0 s .>> 1)) .& 0x55 =? 0x55) &&
   ((ecc1 s .^ (ecc1 s .>> 1)) .& 0x55 =? 0x55) &&
   ((ecc2 s .^ (ecc2 s .>> 1)) .& 0x54 =? 0x54)) &&
  (let '(a, add) := gather_loop 4 (ecc0 s) 0x80 0x80 0 in
   (gather_loop 4 (ecc1 s) 0x80 a add).2 =? k) &&
  ((gather_loop 3 (ecc2 s) 0x80 0x04 0).2 =? b).

Lemma syndrome_locates k b :
  0 <= k < 256 -> 0 <= b < 8 -> locates (syndrome k b) k b = true.
Proof.
  intros Hk Hb.
  assert (H : all_below 8 (fun b => all_below 256 (fun k =>
    locates (syndrome k b) k b)) = true) by (vm_compute; reflexivity).
  eapply all_below_spec in H; [|apply Hb]. by eapply all_below_spec in H.
Qed.

Lemma flip_flip dat k b : flip (flip dat k b) k b = dat.
Proof.
  destruct (decide (k < length dat)%nat) as [Hk|Hk].
  - unfold flip. rewrite list_insert_insert_eq.
    apply list_insert_id'. intros _.
    rewrite !nth_lookup, list_lookup_insert_eq by done. cbn.
    rewrite Z.lxor_assoc, Z.lxor_nilpotent, Z.lxor_0_r.
    destruct (lookup_lt_is_Some_2 dat k Hk) as [x Hx]. by rewrite Hx.
  - unfold flip. by rewrite !list_insert_ge by (rewrite ?length_insert; lia).
Qed.

Lemma flip_block dat k b : is_block dat -> 0 <= b < 8 -> is_block (flip dat k b).
Proof.
  intros [Hlen Hdat] Hb. split; [by unfold flip; rewrite length_insert|].
  apply Forall_insert; [done|]. apply lxor_byte.
  - destruct (nth_in_or_default k dat 0) as [Hin| ->]; [|unfold is_byte; lia].
    by eapply List.Forall_forall in Hdat.
  - unfold is_byte. split; [lia|]. change 256 with (2 ^ 8). apply Z.pow_lt_mono_r; lia.
Qed.

(** ** Correction *)

Lemma count_loop_acc n : forall d i, count_loop n d i = i + count_loop n d 0.
Proof.
  induction n as [|n IH]; intros d i; cbn; [lia|].
  destruct (truth d); [|lia]. rewrite IH.
  destruct (truth (d .& 1)); [|lia]. rewrite (IH _ (0 + 1)). lia.
Qed.

(** A byte whose bit pairs are all 00 or 11 has an even number of ones. *)
Lemma count_paired x m :
  is_byte x -> (m = 0x55 \/ m = 0x54 /\ x .& 3 = 0) ->
  (x .^ (x .>> 1)) .& m = 0 -> Z.even (count_loop 8 x 0) = true.
Proof.
  intros Hx Hm H.
  assert (A : all_below 256 (fun x =>
    implb (((x .^ (x .>> 1)) .& 0x55 =? 0)
           || ((x .& 3 =? 0) && ((x .^ (x .>> 1)) .& 0x54 =? 0)))
      (Z.even (count_loop 8 x 0))) = true) by (vm_compute; reflexivity).
  eapply all_below_spec in A; [|exact Hx].
  destruct Hm as [-> | [-> H3]]; [|rewrite H3 in A]; rewrite H in A;
    cbn [Z.eqb andb orb implb] in A; [done|].
  by rewrite orb_true_r in A.
Qed.

Lemma xor_ecc_zero x y :
  ecc0 (xor_ecc x y) .| ecc1 (xor_ecc x y) .| ecc2 (xor_ecc x y) = 0 -> x = y.
Proof.
  destruct x, y. cbn. rewrite !Z.lor_eq_0_iff. intros [[H0 H1] H2].
  apply Z.lxor_eq in H0, H1, H2. by subst.
Qed.

Lemma syndrome_inj k b k' b' :
  0 <= k < 256 -> 0 <= b < 8 -> 0 <= k' < 256 -> 0 <= b' < 8 ->
  syndrome k b = syndrome k' b' -> k = k' /\ b = b'.
Proof.
  intros Hk Hb Hk' Hb' H.
  pose proof (syndrome_locates k b Hk Hb) as L.
  pose proof (syndrome_locates k' b' Hk' Hb') as L'. rewrite <- H in L'.
  unfold locates in L, L'. destruct (gather_loop 4 _ _ _ _) as [a add].
  bool_hyps. split; congruence.
Qed.

Definition pair_mask (s : ecc) : Z * Z * Z :=
  ((ecc0 s .^ (ecc0 s .>> 1)) .& 0x55, (ecc1 s .^ (ecc1 s .>> 1)) .& 0x55,
   (ecc2 s .^ (ecc2 s .>> 1)) .& 0x54).

Definition is_syndrome (s : ecc) : Prop :=
  is_byte (ecc0 s) /\ is_byte (ecc1 s) /\ is_byte (ecc2 s) /\ ecc2 s .& 3 = 0.

Lemma syndrome_is k b : 0 <= b < 8 -> is_syndrome (syndrome k b).
Proof.
  intros Hb. pose proof (trans_byte (u8 (Z.lnot k)) k) as [? ?].
  repeat split; try apply u8_byte; cbn; try (apply H || apply H0).
  assert (A : all_below 8 (fun b => u8 ((precalc (2 ^ b) .& 0x3f) .<< 2) .& 3 =? 0) = true)
    by (vm_compute; reflexivity).
  eapply all_below_spec in A; [|exact Hb]. by apply Z.eqb_eq in A.
Qed.

Lemma pair_mask_two k b k' b' :
  0 <= k < 256 -> 0 <= b < 8 -> 0 <= k' < 256 -> 0 <= b' < 8 ->
  pair_mask (xor_ecc (syndrome k b) (syndrome k' b')) = (0, 0, 0).
Proof.
  intros Hk Hb Hk' Hb'.
  pose proof (syndrome_locates k b Hk Hb) as L.
  pose proof (syndrome_locates k' b' Hk' Hb') as L'.
  unfold locates in L, L'. bool_hyps.
  assert (D : forall x y m, ((x .^ y) .^ ((x .^ y) .>> 1)) .& m =
    ((x .^ (x .>> 1)) .& m) .^ ((y .^ (y .>> 1)) .& m)).
  { intros. rewrite Z.shiftr_lxor. bitwise. }
  unfold pair_mask. cbn [xor_ecc ecc0 ecc1 ecc2]. rewrite !D.
  repeat match goal with H : _ .& _ = _ |- _ => rewrite H; clear H end. done.
Qed.

(** C37. A single inverted bit anywhere in the 256-byte page, at byte [k] bit
    [b], is found and repaired: with the code stored when the page was written
    and the code recomputed from the corrupted page, [nand_correct_data]
    returns 1 and restores the original page, leaving the stored code alone. *)
Theorem nand_single_bit_corrected dat k b :
  is_block dat -> (k < 256)%nat -> 0 <= b < 8 ->
  nand_correct_data (flip dat k b) (nand_calculate_ecc dat)
    (nand_calculate_ecc (flip dat k b)) = (1, dat, nand_calculate_ecc dat).
Proof.
  intros Hd Hk Hb. rewrite calculate_flip by done.
  pose proof (syndrome_locates (Z.of_nat k) b ltac:(lia) Hb) as L.
  generalize dependent (syndrome (Z.of_nat k) b). intros s L.
  unfold nand_correct_data, locates in *. cbn [xor_ecc ecc0 ecc1 ecc2].
  rewrite !lxor_cancel_l.
  apply andb_true_iff in L as [L Lb]. apply andb_true_iff in L as [L Lk].
  apply andb_true_iff in L as [Lz Lm]. apply negb_true_iff in Lz.
  rewrite Lz, Lm.
  destruct (gather_loop 4 (ecc0 s) _ _ _) as [a add].
  destruct (gather_loop 4 (ecc1 s) _ _ _) as [a' add'].
  destruct (gather_loop 3 _ _ _ _) as [a'' bit].
  cbn in Lk, Lb. bool_hyps. subst. rewrite Nat2Z.id, Z.shiftl_1_l.
  rewrite u8_id; [do 2 f_equal; apply flip_flip|].
  destruct (flip_block dat k b Hd Hb) as [Hl Hf].
  pose proof (flip_block _ k b (conj Hl Hf) Hb) as [_ Hff].
  eapply Forall_lookup in Hff; [exact Hff|].
  apply list_lookup_insert_eq. rewrite Hl. lia.
Qed.

(** Two distinct inverted bits of a page are never mistaken for a
    correctable error: the routine returns -1 and changes neither the page nor
    the stored code. *)
Theorem nand_double_bit_detected dat k b k' b' :
  is_block dat -> (k < 256)%nat -> 0 <= b < 8 -> (k' < 256)%nat -> 0 <= b' < 8 ->
  (k, b) <> (k', b') ->
  let bad := flip (flip dat k b) k' b' in
  nand_correct_data bad (nand_calculate_ecc dat) (nand_calculate_ecc bad) =
    (-1, bad, nand_calculate_ecc dat).
Proof.
  intros Hd Hk Hb Hk' Hb' Hne bad. subst bad.
  do 2 (rewrite calculate_flip by auto using flip_block).
  assert (0 <= Z.of_nat k < 256 /\ 0 <= Z.of_nat k' < 256) as [Pk Pk'] by lia.
  pose proof (pair_mask_two _ _ _ _ Pk Hb Pk' Hb') as Hm.
  pose proof (syndrome_is (Z.of_nat k) b Hb) as (A0 & A1 & A2 & A3).
  pose proof (syndrome_is (Z.of_nat k') b' Hb') as (B0 & B1 & B2 & B3).
  pose proof (fun E => syndrome_inj _ _ _ _ Pk Hb Pk' Hb' E) as Hinj.
  pose proof (xor_ecc_zero (syndrome (Z.of_nat k) b) (syndrome (Z.of_nat k') b')) as Hz.
  generalize dependent (syndrome (Z.of_nat k) b). intros s.
  generalize dependent (syndrome (Z.of_nat k') b'). intros s'. intros.
  unfold nand_correct_data. cbn [xor_ecc ecc0 ecc1 ecc2 pair_mask] in *.
  rewrite !lxor_cancel_lr.
  destruct (Z.eqb_spec (ecc0 s .^ ecc0 s' .| ecc1 s .^ ecc1 s' .| ecc2 s .^ ecc2 s') 0).
  { destruct Hinj; [by apply Hz|]. destruct Hne. f_equal; lia. }
  injection Hm as H0 H1 H2. rewrite H0. cbn [Z.eqb andb].
  rewrite (count_loop_acc 8 (ecc2 s .^ _)), (count_loop_acc 8 (ecc1 s .^ _)).
  assert (E : forall i, Z.even i = true -> (i =? 1) = false)
    by (intros i Hi; apply Z.eqb_neq; intros ->; done).
  rewrite E; [done|]. rewrite !Z.even_add.
  rewrite (count_paired (ecc0 s .^ _) 0x55), (count_paired (ecc1 s .^ _) 0x55),
    (count_paired (ecc2 s .^ _) 0x54); auto with cint.
  right. split; [done|]. by rewrite land_lxor_distr_l, A3, B3.
Qed.

Definition ecc_bit (i b : Z) : ecc :=
  Ecc (if i =? 0 then 2 ^ b else 0) (if i =? 1 then 2 ^ b else 0)
      (if i =? 2 then 2 ^ b else 0).

(** A single inverted bit of the stored code, in any of its three bytes, is
    recognised as such: the routine returns 2, leaves the page alone and
    replaces the stored code by the computed one. *)
Theorem nand_ecc_bit_corrected dat i b :
  0 <= i < 3 -> 0 <= b < 8 ->
  nand_correct_data dat (xor_ecc (nand_calculate_ecc dat) (ecc_bit i b))
    (nand_calculate_ecc dat) = (2, dat, nand_calculate_ecc dat).
Proof.
  intros Hi Hb. unfold nand_correct_data. cbn [xor_ecc ecc0 ecc1 ecc2].
  rewrite !lxor_cancel.
  assert (A : all_below 3 (fun i => all_below 8 (fun b =>
    let s := ecc_bit i b in
    negb (ecc0 s .| ecc1 s .| ecc2 s =? 0) &&
    negb (((ecc0 s .^ (ecc0 s .>> 1)) .& 0x55 =? 0x55) &&
     ((ecc1 s .^ (ecc1 s .>> 1)) .& 0x55 =? 0x55) &&
     ((ecc2 s .^ (ecc2 s .>> 1)) .& 0x54 =? 0x54)) &&
    (count_loop 8 (ecc2 s) (count_loop 8 (ecc1 s) (count_loop 8 (ecc0 s) 0)) =? 1))) = true)
    by (vm_compute; reflexivity).
  eapply all_below_spec in A; [|exact Hi]. eapply all_below_spec in A; [|exact Hb].
  cbn zeta in A. generalize dependent (ecc_bit i b). intros s A.
  apply andb_true_iff in A as [A ->]. apply andb_true_iff in A as [A1 A2].
  apply negb_true_iff in A1, A2. by rewrite A1, A2.
Qed.

(** ** Concrete runs *)

Definition page0 : list Z := map (fun i => Z.of_nat i) (seq 0 256).

Lemma page0_block : is_block page0.
Proof.
  split; [done|]. apply (bool_decide_unpack _). vm_compute. exact I.
Defined.

Lemma nand_single_bit_corrected_witness :
  nand_correct_data (flip page0 200 3) (nand_calculate_ecc page0)
    (nand_calculate_ecc (flip page0 200 3)) = (1, page0, nand_calculate_ecc page0).
Proof.
  apply (nand_single_bit_corrected page0 200 3); [apply page0_block | lia | lia].
Defined.

Lemma nand_double_bit_detected_witness :
  let bad := flip (flip page0 200 3) 17 3 in
  nand_correct_data bad (nand_calculate_ecc page0) (nand_calculate_ecc bad) =
    (-1, bad, nand_calculate_ecc page0).
Proof.
  apply (nand_double_bit_detected page0 200 3 17 3); [apply page0_block | lia.. | done].
Defined.

Lemma nand_ecc_bit_corrected_witness :
  nand_correct_data page0 (xor_ecc (nand_calculate_ecc page0) (ecc_bit 2 1))
    (nand_calculate_ecc page0) = (2, page0, nand_calculate_ecc page0).
Proof. apply (nand_ecc_bit_corrected page0 2 1); lia. Defined.
