(* ===== verification/FatDate.v ===== *)
(** fs/fat/misc.c: conversion between MS-DOS time/date pairs and UNIX time,
    the two functions every FAT directory entry goes through. *)
From S2P Require Import Prelude.

(** ** Model *)

(** [day_n]: linear day numbers of the first of each month of a non-leap year. *)
Definition day_n : list Z := [0;31;59;90;120;151;181;212;243;273;304;334;0;0;0;0].
Definition day_n_at (m : Z) : Z := nth (Z.to_nat m) day_n 0.

Definition bool_Z (b : bool) : Z := if b then 1 else 0.

(** [date_dos2unix]; [tz] is [sys_tz.tz_minuteswest]. The sum is computed in an
    [int], which wraps on the target. *)
Definition date_dos2unix (tz time date : Z) : Z :=
  let month := ((date .>> 5) - 1) .& 15 in
  let year := date .>> 9 in
  let secs := s32 ((time .& 31) * 2 + 60 * ((time .>> 5) .& 63) + (time .>> 11) * 3600
    + 86400 * ((date .& 31) - 1 + day_n_at month + Z.quot year 4 + year * 365
               - bool_Z (((year .& 3) =? 0) && (month <? 2)) + 3653)) in
  s32 (secs + tz * 60).

(** [for (month = 0; month < 12; month++) if (day_n[month] > nl_day) break;] *)
Fixpoint month_loop (n : nat) (month nl_day : Z) : Z :=
  match n with
  | O => month
  | S n => if month <? 12
           then if day_n_at month >? nl_day then month
                else month_loop n (month + 1) nl_day
           else month
  end.

(** [fat_date_unix2dos]: the pair stored in [*time] and [*date]. *)
Definition fat_date_unix2dos (tz unix_date : Z) : Z * Z :=
  let unix_date := s32 (unix_date - tz * 60) in
  let unix_date := if unix_date <? 315532800 then 315532800 else unix_date in
  let time := u16 (Z.quot (Z.rem unix_date 60) 2
                   + (Z.rem (Z.quot unix_date 60) 60 .<< 5)
                   + (Z.rem (Z.quot unix_date 3600) 24 .<< 11)) in
  let day := Z.quot unix_date 86400 - 3652 in
  let year := Z.quot day 365 in
  let year := if Z.quot (year + 3) 4 + 365 * year >? day then year - 1 else year in
  let day := day - (Z.quot (year + 3) 4 + 365 * year) in
  let '(nl_day, month) :=
    if (day =? 59) && negb (truth (year .& 3)) then (day, 2)
    else
      let nl_day := if truth (year .& 3) || (day <=? 59) then day else day - 1 in
      (nl_day, month_loop 13 0 nl_day) in
  let date := u16 (nl_day - day_n_at (month - 1) + 1 + (month .<< 5) + (year .<< 9)) in
  (time, date).

(** ** The two halves of the conversions *)

Definition time_of (r : Z) : Z :=
  u16 (Z.quot (Z.rem r 60) 2 + (Z.rem (Z.quot r 60) 60 .<< 5)
       + (Z.rem (Z.quot r 3600) 24 .<< 11)).

Definition date_of (q : Z) : Z := (fat_date_unix2dos 0 (q * 86400)).2.

Definition secs_of (time : Z) : Z :=
  (time .& 31) * 2 + 60 * ((time .>> 5) .& 63) + (time .>> 11) * 3600.

Definition days_of (date : Z) : Z :=
  let month := ((date .>> 5) - 1) .& 15 in
  let year := date .>> 9 in
  (date .& 31) - 1 + day_n_at month + Z.quot year 4 + year * 365
  - bool_Z (((year .& 3) =? 0) && (month <? 2)) + 3653.

Lemma dos2unix_split tz time date :
  date_dos2unix tz time date = s32 (s32 (secs_of time + 86400 * days_of date) + tz * 60).
Proof. done. Qed.

Lemma quot_rem_day q r :
  0 <= q -> 0 <= r < 86400 ->
  let u := q * 86400 + r in
  Z.quot u 86400 = q /\ Z.rem u 60 = Z.rem r 60 /\
  Z.rem (Z.quot u 60) 60 = Z.rem (Z.quot r 60) 60 /\
  Z.rem (Z.quot u 3600) 24 = Z.rem (Z.quot r 3600) 24.
Proof.
  intros Hq Hr u. subst u.
  rewrite !(Z.quot_div_nonneg _ 86400), !(Z.quot_div_nonneg _ 60), !(Z.quot_div_nonneg _ 3600) by lia.
  rewrite !Z.rem_mod_nonneg by (try apply Z.div_pos; lia).
  repeat split; dm.
Qed.

Lemma unix2dos_split tz q r :
  3652 <= q -> 0 <= r < 86400 -> q * 86400 + r < 2147483648 ->
  fat_date_unix2dos tz (q * 86400 + r + tz * 60) = (time_of r, date_of q).
Proof.
  intros Hq Hr Hmax. unfold date_of, fat_date_unix2dos.
  replace (q * 86400 + r + tz * 60 - tz * 60) with (q * 86400 + r) by lia.
  rewrite Z.mul_0_l, Z.sub_0_r, !s32_id by lia.
  destruct (Z.ltb_spec (q * 86400 + r) 315532800); [lia|].
  destruct (Z.ltb_spec (q * 86400) 315532800); [lia|].
  pose proof (quot_rem_day q r ltac:(lia) Hr) as (E1 & E2 & E3 & E4).
  rewrite E1, E2, E3, E4, Z.quot_mul by lia. fold (time_of r).
  cbv zeta. by destruct (_ && _).
Qed.

Lemma time_of_fields h m s :
  0 <= h < 24 -> 0 <= m < 60 -> 0 <= s < 60 ->
  time_of (h * 3600 + m * 60 + s) = s / 2 + m * 32 + h * 2048.
Proof.
  intros. set (r := h * 3600 + m * 60 + s). assert (Hr : 0 <= r) by lia.
  unfold time_of. rewrite !Z.shiftl_mul_pow2 by lia.
  rewrite (Z.quot_div_nonneg r 60), (Z.quot_div_nonneg r 3600), (Z.rem_mod_nonneg r) by lia.
  rewrite (Z.rem_mod_nonneg (r / 60)), (Z.rem_mod_nonneg (r / 3600)), Z.quot_div_nonneg by dm.
  assert (r mod 60 = s /\ (r / 60) mod 60 = m /\ (r / 3600) mod 24 = h) as (-> & -> & ->)
    by (subst r; dm).
  change (2 ^ 5) with 32; change (2 ^ 11) with 2048. apply u16_id. dm.
Qed.

Lemma secs_of_fields h m s :
  0 <= h < 24 -> 0 <= m < 60 -> 0 <= s < 30 ->
  secs_of (s + m * 32 + h * 2048) = h * 3600 + m * 60 + s * 2.
Proof.
  intros. unfold secs_of. change 31 with (Z.ones 5). change 63 with (Z.ones 6).
  rewrite !Z.land_ones, !Z.shiftr_div_pow2 by lia. cbn [Z.pow Z.pow_pos Pos.iter Z.mul].
  dm.
Qed.

Lemma secs_time_of r : 0 <= r < 86400 -> secs_of (time_of r) = r - r mod 2.
Proof.
  intros Hr.
  replace r with (r / 3600 * 3600 + r / 60 mod 60 * 60 + r mod 60) at 1 by dm.
  rewrite time_of_fields by dm. rewrite secs_of_fields by dm. dm.
Qed.

(** The year and the day of the year, and the month and day of the month read
    off the latter. *)
Definition leap (y : Z) : bool := negb (truth (y .& 3)).

Lemma leap_mod y : leap y = (y mod 4 =? 0).
Proof. unfold leap, truth. change 3 with (Z.ones 2). by rewrite Z.land_ones, negb_involutive. Qed.

Definition month_day (lp : bool) (d : Z) : Z * Z :=
  let '(nl_day, month) :=
    if (d =? 59) && lp then (d, 2)
    else let nl_day := if negb lp || (d <=? 59) then d else d - 1 in
         (nl_day, month_loop 13 0 nl_day) in
  (month, nl_day - day_n_at (month - 1) + 1).

Definition year_start (y : Z) : Z := (y + 3) / 4 + 365 * y.
Definition year_len (y : Z) : Z := if leap y then 366 else 365.

Lemma year_len_start y : year_start y + year_len y = year_start (y + 1).
Proof.
  unfold year_len, year_start. rewrite leap_mod.
  destruct (Z.eqb_spec (y mod 4) 0); dm.
Qed.

Lemma year_found y d :
  0 <= y <= 58 -> 0 <= d < year_len y ->
  let day := year_start y + d in
  (if year_start (day / 365) >? day then day / 365 - 1 else day / 365) = y.
Proof.
  intros Hy Hd day. pose proof (year_len_start y) as Hs.
  assert (Hl : year_len y <= 366) by (unfold year_len; destruct (leap y); lia).
  assert (day / 365 = y \/ day / 365 = y + 1) as [-> | ->]
    by (subst day; unfold year_start in *; dm).
  - destruct (Z.gtb_spec (year_start y) day); subst day; lia.
  - destruct (Z.gtb_spec (year_start (y + 1)) day); subst day; lia.
Qed.

Lemma date_of_year y d :
  0 <= y <= 58 -> 0 <= d < year_len y -> 3652 + year_start y + d <= 24855 ->
  date_of (3652 + year_start y + d) =
  u16 ((month_day (leap y) d).2 + ((month_day (leap y) d).1 .<< 5) + (y .<< 9)).
Proof.
  intros Hy Hd Hmax. pose proof (year_found y d Hy Hd) as Hf. cbv zeta in Hf.
  assert (H0 : 0 <= year_start y) by (unfold year_start; dm).
  unfold date_of, fat_date_unix2dos. cbv zeta.
  rewrite Z.mul_0_l, Z.sub_0_r, s32_id by lia.
  destruct (Z.ltb_spec ((3652 + year_start y + d) * 86400) 315532800); [lia|].
  rewrite Z.quot_mul by lia.
  replace (3652 + year_start y + d - 3652) with (year_start y + d) by lia.
  rewrite (Z.quot_div_nonneg (year_start y + d)) by lia.
  assert (0 <= (year_start y + d) / 365) by (apply Z.div_pos; lia).
  rewrite (Z.quot_div_nonneg ((year_start y + d) / 365 + 3)) by lia.
  fold (year_start ((year_start y + d) / 365)). rewrite Hf, (Z.quot_div_nonneg (y + 3)) by lia.
  fold (year_start y). replace (year_start y + d - year_start y) with d by lia.
  unfold month_day. rewrite <- (negb_involutive (truth (y .& 3))). fold (leap y).
  destruct (leap y); cbn [negb andb orb];
    destruct (d =? 59); cbn [andb orb negb fst snd]; done.
Qed.

(** The month table agrees with the decoder's day sum on every day of a year. *)
Lemma month_day_sound (lp : bool) d :
  0 <= d < (if lp then 366 else 365) ->
  let '(m, dom) := month_day lp d in
  1 <= m <= 12 /\ 1 <= dom <= 31 /\
  dom - 1 + day_n_at (m - 1) - bool_Z (lp && (m - 1 <? 2)) = d - bool_Z lp.
Proof.
  intros Hd.
  assert (A : forall lp : bool, all_below (if lp then 366 else 365) (fun d =>
    let '(m, dom) := month_day lp d in
    (1 <=? m) && (m <=? 12) && (1 <=? dom) && (dom <=? 31) &&
    (dom - 1 + day_n_at (m - 1) - bool_Z (lp && (m - 1 <? 2)) =? d - bool_Z lp)) = true)
    by (intros []; vm_compute; reflexivity).
  specialize (A lp). eapply all_below_spec in A; [|exact Hd].
  cbv beta in A. destruct (month_day lp d). bool_hyps. lia.
Qed.

Lemma date_fields y m dom :
  0 <= y < 128 -> 1 <= m <= 12 -> 1 <= dom <= 31 ->
  let date := u16 (dom + (m .<< 5) + (y .<< 9)) in
  date .>> 9 = y /\ ((date .>> 5) - 1) .& 15 = m - 1 /\ date .& 31 = dom.
Proof.
  intros. subst date. change 31 with (Z.ones 5). change 15 with (Z.ones 4).
  rewrite !Z.shiftl_mul_pow2, !Z.land_ones, !Z.shiftr_div_pow2 by lia.
  cbn [Z.pow Z.pow_pos Pos.iter Z.mul Pos.mul]. rewrite u16_id; repeat split; dm.
Qed.

Lemma days_of_year y d :
  0 <= y <= 58 -> 0 <= d < year_len y ->
  days_of (u16 ((month_day (leap y) d).2 + ((month_day (leap y) d).1 .<< 5) + (y .<< 9))) =
  3652 + year_start y + d.
Proof.
  intros Hy Hd. pose proof (month_day_sound (leap y) d Hd) as M.
  destruct (month_day (leap y) d) as [m dom]. destruct M as (Hm & Hdom & Hsum). cbn [fst snd].
  destruct (date_fields y m dom ltac:(lia) Hm Hdom) as (E1 & E2 & E3).
  unfold days_of. rewrite E1, E2, E3, Z.quot_div_nonneg by lia.
  assert (Hl : ((y .& 3) =? 0) = leap y) by (unfold leap, truth; by rewrite negb_involutive).
  rewrite Hl. pose proof (leap_mod y) as L. unfold year_start.
  destruct (leap y); cbn [bool_Z andb] in *; symmetry in L; bool_hyps; dm.
Qed.

Lemma days_split q :
  3652 <= q <= 24855 ->
  exists y d, 0 <= y <= 58 /\ 0 <= d < year_len y /\ q = 3652 + year_start y + d.
Proof.
  intros Hq.
  assert (H : exists y, 0 <= y <= 58 /\ year_start y <= q - 3652 < year_start (y + 1)).
  { destruct (Z_le_gt_dec (year_start ((q - 3652) / 365)) (q - 3652));
      [exists ((q - 3652) / 365) | exists ((q - 3652) / 365 - 1)];
      unfold year_start in *; dm. }
  destruct H as (y & Hy & Hs). rewrite <- year_len_start in Hs.
  exists y, (q - 3652 - year_start y). lia.
Qed.

Lemma days_date_of q : 3652 <= q <= 24855 -> days_of (date_of q) = q.
Proof.
  intros Hq. destruct (days_split q Hq) as (y & d & Hy & Hd & ->).
  rewrite date_of_year by lia. by apply days_of_year.
Qed.

(** A date of the DOS calendar from 1980 to the end of 2037, and a time of day
    at the two-second resolution of the format. *)
Definition month_len (year month : Z) : Z :=
  if month =? 2 then (if year mod 4 =? 0 then 29 else 28)
  else if (month =? 4) || (month =? 6) || (month =? 9) || (month =? 11) then 30 else 31.

Definition valid_date (date : Z) : bool :=
  let year := date / 512 in let month := date / 32 mod 16 in let day := date mod 32 in
  (0 <=? date) && (year <? 58) && (1 <=? month) && (month <=? 12) &&
  (1 <=? day) && (day <=? month_len year month).

Definition valid_time (time : Z) : bool :=
  (0 <=? time) && (time mod 32 <? 30) && (time / 32 mod 64 <? 60) && (time / 2048 <? 24).

(** Every day of every month is a day of the year that leads back to it. *)
Lemma month_day_complete (lp : bool) m dom :
  1 <= m <= 12 -> 1 <= dom <= month_len (if lp then 0 else 1) m ->
  let d := dom - 1 + day_n_at (m - 1) - bool_Z (lp && (m - 1 <? 2)) + bool_Z lp in
  0 <= d < (if lp then 366 else 365) /\ month_day lp d = (m, dom).
Proof.
  intros Hm Hdom d. subst d.
  assert (A : all_below 12 (fun m => all_below 31 (fun dom =>
    implb (dom + 1 <=? month_len (if lp then 0 else 1) (m + 1))
     (let d := dom + 1 - 1 + day_n_at (m + 1 - 1) - bool_Z (lp && (m + 1 - 1 <? 2)) + bool_Z lp in
      let '(m', dom') := month_day lp d in
      (0 <=? d) && (d <? (if lp then 366 else 365)) && (m' =? m + 1) && (dom' =? dom + 1)))) = true)
    by (destruct lp; vm_compute; reflexivity).
  eapply (all_below_spec _ _ (m - 1)) in A; [|lia].
  assert (dom <= 31) by (unfold month_len in Hdom; repeat (destruct (_ =? _) in Hdom; cbn in Hdom); lia).
  eapply (all_below_spec _ _ (dom - 1)) in A; [|lia]. cbv beta zeta in A.
  replace (m - 1 + 1) with m in A by lia. replace (dom - 1 + 1) with dom in A by lia.
  rewrite (proj2 (Z.leb_le dom _)) in A by apply Hdom. cbn [implb] in A.
  destruct (month_day _ _) as [m' dom']. bool_hyps. split; [lia | congruence].
Qed.

Lemma valid_date_days date :
  valid_date date = true ->
  date_of (days_of date) = date /\ 3652 <= days_of date <= 24836.
Proof.
  intros H. unfold valid_date in H. bool_hyps.
  set (y := date / 512) in *. set (m := date / 32 mod 16) in *. set (dom := date mod 32) in *.
  assert (Hy : 0 <= y < 58) by (subst y; dm).
  assert (Hl : month_len y m = month_len (if leap y then 0 else 1) m).
  { unfold month_len. rewrite leap_mod. destruct (y mod 4 =? 0); done. }
  assert (1 <= dom <= 31 /\ date = dom + (m .<< 5) + (y .<< 9)) as [Hdom Hdate].
  { split; [subst dom; dm|]. rewrite !Z.shiftl_mul_pow2 by lia. subst y m dom. dm. }
  destruct (month_day_complete (leap y) m dom ltac:(lia) ltac:(lia)) as [Hd E].
  cbv zeta in Hd, E. set (d := _ + _) in Hd, E. fold (year_len y) in Hd.
  assert (u16 date = date) as Hu
    by (apply u16_id; rewrite Hdate, !Z.shiftl_mul_pow2 by lia; change (2^5) with 32; change (2^9) with 512; lia).
  pose proof (days_of_year y d ltac:(lia) Hd) as D.
  rewrite E in D. cbn [fst snd] in D. rewrite <- Hdate, Hu in D. rewrite D.
  pose proof (year_len_start y).
  assert (0 <= year_start y /\ year_start (y + 1) <= 21185) as [? ?] by (unfold year_start; dm).
  split; [|lia].
  rewrite date_of_year by lia. rewrite E. cbn [fst snd]. by rewrite <- Hdate.
Qed.

Lemma valid_time_secs time :
  valid_time time = true ->
  time_of (secs_of time) = time /\ 0 <= secs_of time < 86400.
Proof.
  intros H. unfold valid_time in H. bool_hyps.
  replace time with (time mod 32 + time / 32 mod 64 * 32 + time / 2048 * 2048) by dm.
  rewrite secs_of_fields by dm. split; [|dm].
  rewrite time_of_fields by dm. dm.
Qed.

(** ** Round trips *)

(** Storing a UNIX time in a FAT directory entry and reading it back loses
    at most the odd second: for every time zone and every time from 1 January
    1980 (local) to the end of the 32-bit epoch. *)
Theorem fat_date_roundtrip tz t :
  315532800 <= t - tz * 60 < 2147483648 -> -2147483648 <= t - t mod 2 < 2147483648 ->
  let '(time, date) := fat_date_unix2dos tz t in
  date_dos2unix tz time date = t - t mod 2.
Proof.
  intros Hu Ht. set (u := t - tz * 60) in *.
  pose proof (Z.div_mod u 86400 ltac:(lia)) as E.
  pose proof (Z.mod_pos_bound u 86400 ltac:(lia)) as Hr.
  assert (3652 <= u / 86400 <= 24855) as Hq by (subst u; dm).
  pose proof (unix2dos_split tz (u / 86400) (u mod 86400)) as S.
  replace (u / 86400 * 86400 + u mod 86400 + tz * 60) with t in S by (subst u; lia).
  rewrite S by lia. rewrite dos2unix_split, secs_time_of, days_date_of by lia.
  assert ((u mod 86400) mod 2 = t mod 2) as -> by (subst u; dm).
  assert (0 <= t mod 2 < 2) by (apply Z.mod_pos_bound; lia).
  replace (u mod 86400 - t mod 2 + 86400 * (u / 86400)) with (u - t mod 2) by lia.
  rewrite (s32_id (u - _)) by lia.
  replace (u - t mod 2 + tz * 60) with (t - t mod 2) by (subst u; lia).
  by apply s32_id.
Qed.

(** Every date of the DOS calendar up to 2037, leap days included, with any
    time of day converts to UNIX time and back to the same pair. *)
Theorem dos_date_roundtrip tz time date :
  valid_time time = true -> valid_date date = true -> -720 <= tz <= 720 ->
  fat_date_unix2dos tz (date_dos2unix tz time date) = (time, date).
Proof.
  intros Ht Hd Htz.
  destruct (valid_time_secs time Ht) as [T1 T2].
  destruct (valid_date_days date Hd) as [D1 D2].
  rewrite dos2unix_split, (s32_id (secs_of time + _)), s32_id by lia.
  rewrite (Z.add_comm (secs_of time)), (Z.mul_comm 86400).
  rewrite unix2dos_split by lia. by rewrite T1, D1.
Qed.

(** A time before 1980 is stored as midnight of 1 January 1980. *)
Theorem fat_date_clamp tz t :
  -2147483648 <= t - tz * 60 < 315532800 -> fat_date_unix2dos tz t = (0, 33).
Proof.
  intros H. unfold fat_date_unix2dos. rewrite s32_id by lia.
  destruct (Z.ltb_spec (t - tz * 60) 315532800); [|lia]. done.
Qed.

Lemma fat_date_roundtrip_witness :
  let '(time, date) := fat_date_unix2dos (-60) 1078012801 in
  date_dos2unix (-60) time date = 1078012800.
Proof. apply (fat_date_roundtrip (-60) 1078012801); split; vm_compute; congruence. Defined.

(** 29 February 2004, 13:45:58 *)
Lemma dos_date_roundtrip_witness :
  let time := 29 + 45 * 32 + 13 * 2048 in let date := 29 + 2 * 32 + 24 * 512 in
  fat_date_unix2dos (-60) (date_dos2unix (-60) time date) = (time, date).
Proof. apply dos_date_roundtrip; [done | done | lia]. Defined.

Lemma fat_date_clamp_witness : fat_date_unix2dos 0 0 = (0, 33).
Proof. apply fat_date_clamp. lia. Defined.
