(* ===== verification/Utf8.v ===== *)
(** fs/nls/nls_base.c: the UTF-8 coder and decoder every filesystem with
    Unicode names goes through. A wide character is a [__u16]. *)
From S2P Require Import Prelude.

(** ** Model *)

(** [struct utf8_table] and its contents, without the terminating row. *)
Record utf8_row := Row { cmask : Z; cval : Z; shift : Z; lmask : Z; lval : Z }.

Definition utf8_table : list utf8_row := [
  Row 0x80 0x00 (0*6) 0x7F 0;
  Row 0xE0 0xC0 (1*6) 0x7FF 0x80;
  Row 0xF0 0xE0 (2*6) 0xFFFF 0x800;
  Row 0xF8 0xF0 (3*6) 0x1FFFFF 0x10000;
  Row 0xFC 0xF8 (4*6) 0x3FFFFFF 0x200000;
  Row 0xFE 0xFC (5*6) 0x7FFFFFFF 0x4000000 ].

(** The loop of [utf8_mbtowc] from table row [t] on; [s] holds the bytes after
    the last one read. [None] is a read outside [s]; otherwise the return value
    and what is stored in [*p], if anything. *)
Fixpoint mbtowc_loop (t : list utf8_row) (c0 l nc n : Z) (s : list Z)
  : option (Z * option Z) :=
  match t with
  | [] => Some (-1, None)
  | row :: t =>
      let nc := nc + 1 in
      if (c0 .& cmask row) =? cval row then
        let l := l .& lmask row in
        if l <? lval row then Some (-1, None) else Some (nc, Some (u16 l))
      else if n <=? nc then Some (-1, None)
      else match s with
           | [] => None
           | b :: s =>
               let c := (b .^ 0x80) .& 0xFF in
               if truth (c .& 0xC0) then Some (-1, None)
               else mbtowc_loop t c0 (s32 ((l .<< 6) .| c)) nc n s
           end
  end.

Definition utf8_mbtowc (s : list Z) (n : Z) : option (Z * option Z) :=
  match s with
  | [] => None
  | c0 :: s => mbtowc_loop utf8_table c0 c0 0 n s
  end.

(** [utf8_mbstowcs]: the wide characters stored at [pwcs]; the return value is
    their number. The loop removes at least one byte of [s] per round. *)
Fixpoint mbstowcs_loop (fuel : nat) (s : list Z) (n : Z) : option (list Z) :=
  match fuel with
  | O => None
  | S fuel =>
    match s with
    | [] => None
    | b :: rest =>
        if truth b && (0 <? n) then
          if truth (b .& 0x80) then
            match utf8_mbtowc s n with
            | None => None
            | Some (size, w) =>
                if size =? -1 then mbstowcs_loop fuel rest (n - 1)
                else ops ← mbstowcs_loop fuel (drop (Z.to_nat size) s) (n - size);
                     Some (default 0 w :: ops)
            end
          else ops ← mbstowcs_loop fuel rest n; Some (b :: ops)
        else Some []
    end
  end.

Definition utf8_mbstowcs (s : list Z) (n : Z) : option (list Z) :=
  mbstowcs_loop (length s) s n.

(** [while (c > 0) { c -= 6; s++; *s = 0x80 | ((l >> c) & 0x3F); }] *)
Fixpoint wctomb_tail (k : nat) (l c : Z) : list Z :=
  match k with
  | O => []
  | S k => if 0 <? c
           then let c := c - 6 in u8 (0x80 .| ((l .>> c) .& 0x3F)) :: wctomb_tail k l c
           else []
  end.

(** [utf8_wctomb] with a non-null [s]: return value and the bytes stored at
    [s]. *)
Fixpoint wctomb_loop (t : list utf8_row) (l nc maxlen : Z) : Z * list Z :=
  match t with
  | [] => (-1, [])
  | row :: t =>
      if truth maxlen then
        let nc := nc + 1 in
        if l <=? lmask row then
          (nc, u8 (cval row .| (l .>> shift row)) :: wctomb_tail 6 l (shift row))
        else wctomb_loop t l nc (maxlen - 1)
      else (-1, [])
  end.

Definition utf8_wctomb (wc maxlen : Z) : Z * list Z :=
  wctomb_loop utf8_table wc 0 maxlen.

(** [utf8_wcstombs]: the bytes stored at [s]; the return value is their
    number. [None] is a read past the end of [pwcs]. *)
Fixpoint utf8_wcstombs (pwcs : list Z) (maxlen : Z) : option (list Z) :=
  match pwcs with
  | [] => None
  | w :: rest =>
      if truth w && (0 <? maxlen) then
        if 0x7f <? w then
          let '(size, bs) := utf8_wctomb w maxlen in
          if size =? -1 then utf8_wcstombs rest (maxlen - 1)
          else ops ← utf8_wcstombs rest (maxlen - size); Some (bs ++ ops)
        else ops ← utf8_wcstombs rest maxlen; Some (u8 w :: ops)
      else Some []
  end.

(** ** One character *)

Definition wide (w : Z) : Prop := 0 <= w < 65536.

(** The encoding of a wide character, by length. *)
Lemma wctomb_1 w m : 0 <= w <= 0x7F -> 0 < m -> utf8_wctomb w m = (1, [w]).
Proof.
  intros Hw Hm. unfold utf8_wctomb. cbn [wctomb_loop utf8_table].
  unfold truth. rewrite (proj2 (Z.eqb_neq m 0)) by lia. cbn [negb lmask shift cval].
  destruct (Z.leb_spec w 0x7F); [|lia]. change (0 * 6) with 0.
  by rewrite Z.shiftr_0_r, Z.lor_0_l, u8_id by lia.
Qed.

Lemma wctomb_2 w m :
  0x80 <= w <= 0x7FF -> 2 <= m ->
  utf8_wctomb w m = (2, [0xC0 + w / 64; 0x80 + w mod 64]).
Proof.
  intros Hw Hm. unfold utf8_wctomb. cbn [wctomb_loop utf8_table].
  unfold truth. rewrite (proj2 (Z.eqb_neq m 0)), (proj2 (Z.eqb_neq (m - 1) 0)) by lia.
  cbn [negb lmask shift cval].
  destruct (Z.leb_spec w 0x7F); [lia|]. destruct (Z.leb_spec w 0x7FF); [|lia].
  cbn [wctomb_tail]. cbn [Z.mul Z.ltb Z.compare Z.sub Z.add Z.opp Z.pos_sub Pos.pred_double].
  change 0x3F with (Z.ones 6). change 0xC0 with (3 .<< 6). change 0x80 with (2 .<< 6).
  rewrite Z.land_ones, !Z.shiftr_div_pow2 by lia. cbn [Z.pow Z.pow_pos Pos.iter Z.mul Pos.mul].
  rewrite !(lor_shift_add _ _ 6) by (change (2 ^ 6) with 64; dm).
  rewrite !u8_id by (change (2 ^ 6) with 64; dm).
  rewrite Z.div_1_r. done.
Qed.

Lemma wctomb_3 w m :
  0x800 <= w <= 0xFFFF -> 3 <= m ->
  utf8_wctomb w m = (3, [0xE0 + w / 4096; 0x80 + w / 64 mod 64; 0x80 + w mod 64]).
Proof.
  intros Hw Hm. unfold utf8_wctomb. cbn [wctomb_loop utf8_table].
  unfold truth. rewrite (proj2 (Z.eqb_neq m 0)), (proj2 (Z.eqb_neq (m - 1) 0)),
    (proj2 (Z.eqb_neq (m - 1 - 1) 0)) by lia.
  cbn [negb lmask shift cval].
  destruct (Z.leb_spec w 0x7F); [lia|]. destruct (Z.leb_spec w 0x7FF); [lia|].
  destruct (Z.leb_spec w 0xFFFF); [|lia].
  cbn [wctomb_tail]. cbn [Z.mul Z.ltb Z.compare Z.sub Z.add Z.opp Z.pos_sub Pos.pred_double].
  change 0x3F with (Z.ones 6). change 0xE0 with (7 .<< 5). change 0x80 with (2 .<< 6).
  rewrite !Z.land_ones, !Z.shiftr_div_pow2 by lia. cbn [Z.pow Z.pow_pos Pos.iter Z.mul Pos.mul].
  rewrite !(lor_shift_add _ _ 6), (lor_shift_add _ _ 5) by
    (change (2 ^ 6) with 64; change (2 ^ 5) with 32; dm).
  rewrite !u8_id by (change (2 ^ 6) with 64; change (2 ^ 5) with 32; dm).
  rewrite Z.div_1_r. done.
Qed.

(** What the masks of the table say about a leading byte, and the test on a
    continuation byte. *)
Lemma lead_class c :
  is_byte c ->
  (c .& 0x80 =? 0x00) = (c <? 0x80) /\
  (c .& 0xE0 =? 0xC0) = ((0xC0 <=? c) && (c <? 0xE0)) /\
  (c .& 0xF0 =? 0xE0) = ((0xE0 <=? c) && (c <? 0xF0)) /\
  (c .& 0xF8 =? 0xF0) = ((0xF0 <=? c) && (c <? 0xF8)).
Proof.
  intros Hc.
  assert (A : all_below 256 (fun c =>
    eqb (c .& 0x80 =? 0x00) (c <? 0x80) &&
    eqb (c .& 0xE0 =? 0xC0) ((0xC0 <=? c) && (c <? 0xE0)) &&
    eqb (c .& 0xF0 =? 0xE0) ((0xE0 <=? c) && (c <? 0xF0)) &&
    eqb (c .& 0xF8 =? 0xF0) ((0xF0 <=? c) && (c <? 0xF8))) = true)
    by (vm_compute; reflexivity).
  eapply all_below_spec in A; [|exact Hc].
  repeat (apply andb_true_iff in A as [A ?]). by rewrite !eqb_true_iff in *.
Qed.

Lemma cont_class b :
  is_byte b ->
  truth ((b .^ 0x80) .& 0xFF .& 0xC0) = negb ((0x80 <=? b) && (b <? 0xC0)) /\
  (0x80 <= b < 0xC0 -> (b .^ 0x80) .& 0xFF = b - 0x80).
Proof.
  intros Hb.
  assert (A : all_below 256 (fun b =>
    eqb (truth ((b .^ 0x80) .& 0xFF .& 0xC0)) (negb ((0x80 <=? b) && (b <? 0xC0))) &&
    implb ((0x80 <=? b) && (b <? 0xC0)) ((b .^ 0x80) .& 0xFF =? b - 0x80)) = true)
    by (vm_compute; reflexivity).
  eapply all_below_spec in A; [|exact Hb].
  apply andb_true_iff in A as [A1 A2]. split; [by apply eqb_true_iff|].
  intros H. destruct (Z.leb_spec 0x80 b), (Z.ltb_spec b 0xC0); try lia.
Qed.

Lemma mbtowc_1 c s n : 0 <= c < 0x80 -> utf8_mbtowc (c :: s) n = Some (1, Some c).
Proof.
  intros Hc. cbn [utf8_mbtowc mbtowc_loop utf8_table cmask cval lmask lval].
  destruct (lead_class c) as (-> & _); [unfold is_byte; lia|].
  destruct (Z.ltb_spec c 0x80); [|lia].
  change 0x7F with (Z.ones 7). rewrite Z.land_ones, Z.mod_small by lia.
  destruct (Z.ltb_spec c 0); [lia|]. by rewrite u16_id by lia.
Qed.

(** One round of the decoder's loop past a row that does not match. *)
Lemma mbtowc_step row t c0 l nc n b s :
  (c0 .& cmask row =? cval row) = false -> nc + 1 < n -> 0x80 <= b < 0xC0 ->
  mbtowc_loop (row :: t) c0 l nc n (b :: s) =
  mbtowc_loop t c0 (s32 (l * 64 + (b - 0x80))) (nc + 1) n s.
Proof.
  intros Hrow Hn Hb. cbn [mbtowc_loop]. rewrite Hrow.
  destruct (Z.leb_spec n (nc + 1)); [lia|].
  destruct (cont_class b) as [-> Hc]; [unfold is_byte; lia|].
  rewrite (proj2 (Z.leb_le _ _)), (proj2 (Z.ltb_lt _ _)) by lia. cbn [andb negb].
  rewrite Hc, lor_shift_add by (done || (change (2 ^ 6) with 64; lia)). done.
Qed.

Ltac lead c :=
  let A := fresh in let B := fresh in let C := fresh in let D := fresh in
  destruct (lead_class c) as (A & B & C & D); [unfold is_byte; lia|];
  rewrite ?A, ?B, ?C, ?D; lia.

Lemma mbtowc_2 c b s n :
  0xC0 <= c < 0xE0 -> 0x80 <= b < 0xC0 -> 2 <= n ->
  utf8_mbtowc (c :: b :: s) n =
  let l := (c - 0xC0) * 64 + (b - 0x80) in
  Some (if l <? 0x80 then (-1, None) else (2, Some l)).
Proof.
  intros Hc Hb Hn. unfold utf8_mbtowc, utf8_table.
  rewrite mbtowc_step by (lia || (cbn [cmask cval]; lead c)).
  cbn [mbtowc_loop cmask cval lmask lval].
  destruct (lead_class c) as (_ & -> & _); [unfold is_byte; lia|].
  rewrite (proj2 (Z.leb_le _ _)), (proj2 (Z.ltb_lt _ _)) by lia. cbn [andb].
  rewrite s32_id by lia. change 0x7FF with (Z.ones 11). rewrite Z.land_ones by lia.
  assert ((c * 64 + (b - 0x80)) mod 2 ^ 11 = (c - 0xC0) * 64 + (b - 0x80)) as ->
    by (change (2 ^ 11) with 2048; dm).
  destruct (_ <? 0x80); [done|]. by rewrite u16_id by lia.
Qed.

Lemma mbtowc_3 c b b' s n :
  0xE0 <= c < 0xF0 -> 0x80 <= b < 0xC0 -> 0x80 <= b' < 0xC0 -> 3 <= n ->
  utf8_mbtowc (c :: b :: b' :: s) n =
  let l := (c - 0xE0) * 4096 + (b - 0x80) * 64 + (b' - 0x80) in
  Some (if l <? 0x800 then (-1, None) else (3, Some l)).
Proof.
  intros Hc Hb Hb' Hn. unfold utf8_mbtowc, utf8_table.
  do 2 rewrite mbtowc_step by (lia || (cbn [cmask cval]; lead c)).
  cbn [mbtowc_loop cmask cval lmask lval].
  destruct (lead_class c) as (_ & _ & -> & _); [unfold is_byte; lia|].
  rewrite (proj2 (Z.leb_le _ _)), (proj2 (Z.ltb_lt _ _)) by lia. cbn [andb].
  rewrite (s32_id (c * 64 + _)), s32_id by lia.
  change 0xFFFF with (Z.ones 16). rewrite Z.land_ones by lia.
  assert (((c * 64 + (b - 0x80)) * 64 + (b' - 0x80)) mod 2 ^ 16 =
    (c - 0xE0) * 4096 + (b - 0x80) * 64 + (b' - 0x80)) as ->
    by (change (2 ^ 16) with 65536; dm).
  destruct (_ <? 0x800); [done|]. by rewrite u16_id by lia.
Qed.

Lemma mbtowc_4 c b b' b'' s n :
  0xF0 <= c < 0xF8 -> 0x80 <= b < 0xC0 -> 0x80 <= b' < 0xC0 -> 0x80 <= b'' < 0xC0 -> 4 <= n ->
  utf8_mbtowc (c :: b :: b' :: b'' :: s) n =
  let l := (c - 0xF0) * 262144 + (b - 0x80) * 4096 + (b' - 0x80) * 64 + (b'' - 0x80) in
  Some (if l <? 0x10000 then (-1, None) else (4, Some (u16 l))).
Proof.
  intros Hc Hb Hb' Hb'' Hn. unfold utf8_mbtowc, utf8_table.
  do 3 rewrite mbtowc_step by (lia || (cbn [cmask cval]; lead c)).
  cbn [mbtowc_loop cmask cval lmask lval].
  destruct (lead_class c) as (_ & _ & _ & ->); [unfold is_byte; lia|].
  rewrite (proj2 (Z.leb_le _ _)), (proj2 (Z.ltb_lt _ _)) by lia. cbn [andb].
  rewrite (s32_id (c * 64 + _)), (s32_id ((c * 64 + _) * 64 + _)), s32_id by lia.
  change 0x1FFFFF with (Z.ones 21). rewrite Z.land_ones by lia.
  assert ((((c * 64 + (b - 0x80)) * 64 + (b' - 0x80)) * 64 + (b'' - 0x80)) mod 2 ^ 21 =
    (c - 0xF0) * 262144 + (b - 0x80) * 4096 + (b' - 0x80) * 64 + (b'' - 0x80)) as ->
    by (change (2 ^ 21) with 2097152; dm).
  by destruct (_ <? 0x10000).
Qed.

(** ** Theorems *)

Lemma wide_cases w (P : Prop) :
  wide w -> (0 <= w <= 0x7F -> P) -> (0x80 <= w <= 0x7FF -> P) ->
  (0x800 <= w <= 0xFFFF -> P) -> P.
Proof. unfold wide. intros H A B C. destruct (Z_le_gt_dec w 0x7F); [apply A; lia|].
  destruct (Z_le_gt_dec w 0x7FF); [apply B | apply C]; lia. Qed.

(** Decoding what the coder produced, whatever follows it. *)
Lemma utf8_decode_encode w m n rest :
  wide w -> 3 <= m -> 3 <= n ->
  let '(k, bs) := utf8_wctomb w m in
  Z.of_nat (length bs) = k /\ 1 <= k <= 3 /\ utf8_mbtowc (bs ++ rest) n = Some (k, Some w).
Proof.
  intros Hw Hm Hn. eapply (wide_cases w); [done | | |]; clear Hw; intros Hw.
  - rewrite wctomb_1 by lia. cbn [app length]. by rewrite mbtowc_1 by lia.
  - rewrite wctomb_2 by lia. cbn [app length]. rewrite mbtowc_2 by dm. cbv zeta.
    replace ((0xC0 + w / 64 - 0xC0) * 64 + (0x80 + w mod 64 - 0x80)) with w by dm.
    destruct (Z.ltb_spec w 0x80); [lia|done].
  - rewrite wctomb_3 by lia. cbn [app length]. rewrite mbtowc_3 by dm. cbv zeta.
    replace ((0xE0 + w / 4096 - 0xE0) * 4096 + (0x80 + w / 64 mod 64 - 0x80) * 64
      + (0x80 + w mod 64 - 0x80)) with w by dm.
    destruct (Z.ltb_spec w 0x800); [lia|done].
Qed.

(** Every 16-bit character survives [utf8_wctomb] followed by
    [utf8_mbtowc], whatever bytes follow it, and the decoder reports the number
    of bytes the coder wrote. *)
Theorem utf8_roundtrip w m n rest :
  wide w -> 3 <= m -> 3 <= n ->
  let '(k, bs) := utf8_wctomb w m in
  Z.of_nat (length bs) = k /\ utf8_mbtowc (bs ++ rest) n = Some (k, Some w).
Proof.
  intros Hw Hm Hn. pose proof (utf8_decode_encode w m n rest Hw Hm Hn) as H.
  destruct (utf8_wctomb w m). tauto.
Qed.

(** A success of the decoder within three bytes, by its leading byte. *)
Lemma mbtowc_success s n k w :
  Forall is_byte s -> utf8_mbtowc s n = Some (k, Some w) -> k <= 3 ->
  (exists c s', s = c :: s' /\ 0 <= c < 0x80) \/
  (exists c b s', s = c :: b :: s' /\ 0xC0 <= c < 0xE0 /\ 0x80 <= b < 0xC0 /\ 2 <= n) \/
  (exists c b b' s', s = c :: b :: b' :: s' /\ 0xE0 <= c < 0xF0 /\ 0x80 <= b < 0xC0 /\
     0x80 <= b' < 0xC0 /\ 3 <= n).
Proof.
  intros Hs H Hk. destruct s as [|c s]; [done|]. inversion_clear Hs as [|? ? Hc Hs'].
  unfold utf8_mbtowc, utf8_table in H. cbn [mbtowc_loop cmask cval lmask lval] in H.
  destruct (lead_class c Hc) as (L1 & L2 & L3 & _). rewrite L1, L2, L3 in H. clear L1 L2 L3.
  destruct (Z.ltb_spec c 0x80); [left; exists c, s; unfold is_byte in Hc; split; [done|lia]|].
  right. destruct (Z.leb_spec n (0 + 1)); [done|].
  destruct s as [|b s]; [done|]. inversion_clear Hs' as [|? ? Hb Hs''].
  destruct (cont_class b Hb) as [E _]. rewrite E in H. clear E.
  destruct (Z.leb_spec 0x80 b), (Z.ltb_spec b 0xC0); cbn [andb negb] in H; try done.
  destruct (Z.leb_spec 0xC0 c), (Z.ltb_spec c 0xE0); cbn [andb] in H;
    [left; exists c, b, s; split; [done|lia] | | | lia].
  all: destruct (Z.leb_spec n (0 + 1 + 1)); [done|].
  all: destruct s as [|b' s]; [done|]; inversion_clear Hs'' as [|? ? Hb' Hs'''].
  all: destruct (cont_class b' Hb') as [E _]; rewrite E in H; clear E.
  all: destruct (Z.leb_spec 0x80 b'), (Z.ltb_spec b' 0xC0); cbn [andb negb] in H; try done.
  all: destruct (Z.leb_spec 0xE0 c), (Z.ltb_spec c 0xF0); cbn [andb] in H; try lia.
  all: try (right; exists c, b, b', s; split; [done|lia]).
  all: exfalso; revert H; repeat (case_match; try done); intros [= <- _]; lia.
Qed.

(** The decoder accepts no overlong form: whenever it delivers a character
    of up to three bytes, those bytes are exactly what the coder writes for that
    character. *)
Theorem utf8_canonical s n k w m :
  Forall is_byte s -> utf8_mbtowc s n = Some (k, Some w) -> k <= 3 -> 3 <= m ->
  utf8_wctomb w m = (k, take (Z.to_nat k) s).
Proof.
  intros Hs H Hk Hm.
  destruct (mbtowc_success s n k w Hs H Hk) as
    [(c & s' & -> & Hc) | [(c & b & s' & -> & Hc & Hb & Hn)
     | (c & b & b' & s' & -> & Hc & Hb & Hb' & Hn)]].
  - rewrite mbtowc_1 in H by lia. injection H as <- <-. by rewrite wctomb_1 by lia.
  - rewrite mbtowc_2 in H by lia. cbv zeta in H.
    destruct (Z.ltb_spec ((c - 0xC0) * 64 + (b - 0x80)) 0x80); [done|].
    injection H as <- <-. rewrite wctomb_2 by lia.
    set (l := (c - 0xC0) * 64 + (b - 0x80)).
    assert (0xC0 + l / 64 = c /\ 0x80 + l mod 64 = b) as [-> ->] by (subst l; dm). done.
  - rewrite mbtowc_3 in H by lia. cbv zeta in H.
    destruct (Z.ltb_spec ((c - 0xE0) * 4096 + (b - 0x80) * 64 + (b' - 0x80)) 0x800); [done|].
    injection H as <- <-. rewrite wctomb_3 by lia.
    set (l := (c - 0xE0) * 4096 + (b - 0x80) * 64 + (b' - 0x80)).
    assert (0xE0 + l / 4096 = c /\ 0x80 + l / 64 mod 64 = b /\ 0x80 + l mod 64 = b')
      as (-> & -> & ->) by (subst l; dm). done.
Qed.

(** A character outside the 16-bit range is accepted and silently cut to its
    low 16 bits: a well-formed four-byte sequence reports success with the
    character modulo 65536. *)
Theorem utf8_supplementary_truncated l n s :
  0x10000 <= l < 0x110000 -> 4 <= n ->
  utf8_mbtowc ((0xF0 + l / 262144) :: (0x80 + l / 4096 mod 64) :: (0x80 + l / 64 mod 64)
               :: (0x80 + l mod 64) :: s) n = Some (4, Some (l mod 65536)).
Proof.
  intros Hl Hn. rewrite mbtowc_4 by dm. cbv zeta.
  replace ((0xF0 + l / 262144 - 0xF0) * 262144 + (0x80 + l / 4096 mod 64 - 0x80) * 4096
    + (0x80 + l / 64 mod 64 - 0x80) * 64 + (0x80 + l mod 64 - 0x80)) with l by dm.
  destruct (Z.ltb_spec l 0x10000); [lia|done].
Qed.

(** One round of [utf8_mbstowcs] over a plain character, and over the coded
    form of a character above 0x7f. *)
Lemma mbstowcs_ascii fuel w s n :
  0 < w <= 0x7F -> 0 < n ->
  mbstowcs_loop (S fuel) (w :: s) n = (ops ← mbstowcs_loop fuel s n; Some (w :: ops)).
Proof.
  intros Hw Hn. cbn [mbstowcs_loop].
  assert (truth w = true) as -> by (unfold truth; lia).
  rewrite (proj2 (Z.ltb_lt 0 n)) by lia. cbn [andb].
  destruct (lead_class w) as (L & _); [unfold is_byte; lia|].
  rewrite (proj2 (Z.ltb_lt w 0x80)) in L by lia. apply Z.eqb_eq in L. by rewrite L.
Qed.

Lemma high_bit c : 0x80 <= c < 256 -> truth c && truth (c .& 0x80) = true.
Proof.
  intros Hc.
  assert (A : all_below 256 (fun c => implb (0x80 <=? c) (truth c && truth (c .& 0x80))) = true)
    by (vm_compute; reflexivity).
  eapply (all_below_spec _ _ c) in A; [|lia]. cbv beta in A.
  by rewrite (proj2 (Z.leb_le 0x80 c)) in A by lia.
Qed.

Lemma mbstowcs_coded fuel w m s n :
  0x7F < w < 65536 -> 3 <= m -> 3 <= n ->
  let '(k, bs) := utf8_wctomb w m in
  1 <= k <= 3 /\ Z.of_nat (length bs) = k /\
  mbstowcs_loop (S fuel) (bs ++ s) n =
    (ops ← mbstowcs_loop fuel s (n - k); Some (w :: ops)).
Proof.
  intros Hw Hm Hn.
  pose proof (utf8_decode_encode w m n s ltac:(unfold wide; lia) Hm Hn) as D.
  assert (Hlead : exists b0 wb, (utf8_wctomb w m).2 = b0 :: wb /\ 0x80 <= b0 < 256).
  { destruct (Z_le_gt_dec w 0x7FF);
      [rewrite wctomb_2 by lia | rewrite wctomb_3 by lia]; eexists _, _; (split; [done|dm]). }
  destruct (utf8_wctomb w m) as [k bs]. destruct D as (Hk & Hk3 & D).
  destruct Hlead as (b0 & wb & E & Hb0). cbn [snd] in E. subst bs. cbn [app] in D.
  split; [done|]. split; [done|]. cbn [app mbstowcs_loop].
  destruct (andb_prop _ _ (high_bit b0 Hb0)) as [-> ->].
  rewrite (proj2 (Z.ltb_lt 0 n)) by lia. cbn [andb].
  rewrite D, (proj2 (Z.eqb_neq k (-1))) by lia.
  rewrite <- Hk at 1. rewrite Nat2Z.id. change (b0 :: wb ++ s) with ((b0 :: wb) ++ s).
  by rewrite drop_app_length.
Qed.

Lemma mbstowcs_encoded ws : forall m,
  Forall (fun w => 0 < w < 65536) ws -> 3 * Z.of_nat (length ws) <= m ->
  exists bs, utf8_wcstombs (ws ++ [0]) m = Some bs /\
    forall n fuel, 3 * Z.of_nat (length ws) <= n -> (length bs < fuel)%nat ->
      mbstowcs_loop fuel (bs ++ [0]) n = Some ws.
Proof.
  induction ws as [|w ws IH]; intros m Hws Hm.
  - exists []. split; [done|]. intros n [|fuel] _ Hf; [cbn in Hf; lia|done].
  - inversion_clear Hws as [|? ? Hw Hws']. cbn [length] in Hm.
    assert (truth w = true) as Tw by (unfold truth; lia).
    cbn [app utf8_wcstombs]. rewrite Tw, (proj2 (Z.ltb_lt 0 m)) by lia. cbn [andb].
    destruct (Z.ltb_spec 0x7f w).
    + pose proof (fun fuel s n => mbstowcs_coded fuel w m s n ltac:(lia) ltac:(lia)) as D.
      destruct (utf8_wctomb w m) as [k wb].
      destruct (D O [] 3 ltac:(lia)) as (Hk3 & Hk & _).
      destruct (IH (m - k) Hws' ltac:(lia)) as (bs & Ebs & Hbs).
      rewrite (proj2 (Z.eqb_neq k (-1))), Ebs by lia. exists (wb ++ bs). split; [done|].
      intros n [|fuel] Hn Hf; [lia|]. rewrite length_app in Hf. cbn [length] in Hn.
      rewrite <- app_assoc. destruct (D fuel (bs ++ [0]) n ltac:(lia)) as (_ & _ & ->).
      by rewrite Hbs by lia.
    + destruct (IH m Hws' ltac:(lia)) as (bs & Ebs & Hbs). rewrite Ebs.
      exists (u8 w :: bs). split; [done|]. rewrite u8_id by lia.
      intros n [|fuel] Hn Hf; [lia|]. cbn [app length] in *.
      rewrite mbstowcs_ascii by lia. by rewrite Hbs by lia.
Qed.

(** A whole wide string, coded by [utf8_wcstombs] into a buffer of three
    bytes per character and decoded by [utf8_mbstowcs], comes back unchanged. *)
Theorem utf8_string_roundtrip ws m n :
  Forall (fun w => 0 < w < 65536) ws ->
  3 * Z.of_nat (length ws) <= m -> 3 * Z.of_nat (length ws) <= n ->
  exists bs, utf8_wcstombs (ws ++ [0]) m = Some bs /\ utf8_mbstowcs (bs ++ [0]) n = Some ws.
Proof.
  intros Hws Hm Hn. destruct (mbstowcs_encoded ws m Hws Hm) as (bs & Ebs & Hbs).
  exists bs. split; [done|]. apply Hbs; [done|]. rewrite length_app. cbn. lia.
Qed.

(** [maxlen] does not bound what [utf8_wcstombs] writes: the branch for
    plain ASCII characters never counts them, so an ASCII name of any length is
    stored whole in a buffer of [maxlen] bytes. *)
Theorem utf8_wcstombs_ignores_maxlen ws m :
  Forall (fun w => 0 < w <= 0x7F) ws -> 0 < m ->
  utf8_wcstombs (ws ++ [0]) m = Some ws.
Proof.
  intros Hws Hm. induction Hws as [|w ws Hw Hws IH]; [done|].
  cbn [app utf8_wcstombs]. assert (truth w = true) as -> by (unfold truth; lia).
  rewrite (proj2 (Z.ltb_lt 0 m)), (proj2 (Z.ltb_ge 0x7f w)) by lia. cbn [andb].
  rewrite IH, u8_id by lia. done.
Qed.

(** ** Concrete runs *)

Lemma utf8_roundtrip_witness :
  let '(k, bs) := utf8_wctomb 0x20AC 3 in
  Z.of_nat (length bs) = k /\ utf8_mbtowc (bs ++ [65]) 4 = Some (k, Some 0x20AC).
Proof. apply (utf8_roundtrip 0x20AC 3 4 [65]); unfold wide; lia. Defined.

Lemma utf8_canonical_witness :
  utf8_wctomb 0xE9 6 = (2, [0xC3; 0xA9]).
Proof.
  apply (utf8_canonical [0xC3; 0xA9; 0x41] 3 2 0xE9 6);
    [repeat constructor; done | reflexivity | lia | lia].
Defined.

Lemma utf8_supplementary_truncated_witness :
  utf8_mbtowc [0xF0; 0x9F; 0x98; 0x80] 4 = Some (4, Some 0xF600).
Proof. apply (utf8_supplementary_truncated 0x1F600 4 []); lia. Defined.

Lemma utf8_string_roundtrip_witness :
  exists bs, utf8_wcstombs ([0x41; 0xE9; 0x20AC] ++ [0]) 9 = Some bs /\
    utf8_mbstowcs (bs ++ [0]) 9 = Some [0x41; 0xE9; 0x20AC].
Proof. apply utf8_string_roundtrip; [repeat constructor; lia | cbn; lia | cbn; lia]. Defined.

Lemma utf8_wcstombs_ignores_maxlen_witness :
  utf8_wcstombs ([0x61; 0x62; 0x63] ++ [0]) 1 = Some [0x61; 0x62; 0x63].
Proof. apply utf8_wcstombs_ignores_maxlen; [repeat constructor; lia | lia]. Defined.
