(* ===== verification/Rtime.v ===== *)
(** fs/jffs2/compr_rtime.c: the run-length coder and decoder of JFFS2 nodes. *)
From S2P Require Import Prelude.

(** ** Model *)

(** The inner loop of [rtime_compress], which extends the match between the
    data at [pos] and at [backpos]; the result is the final [runlen]. *)
Fixpoint run_loop (fuel : nat) (data_in : list Z) (sourcelen backpos pos runlen : Z) : Z :=
  match fuel with
  | O => runlen
  | S fuel =>
      if (backpos <? pos) && (pos <? sourcelen)
         && (get data_in pos =? get data_in backpos) && (runlen <? 255)
      then run_loop fuel data_in sourcelen (backpos + 1) (pos + 1) (runlen + 1)
      else runlen
  end.

(** The outer loop: the bytes stored from [cpage_out[outpos]] on, and the final
    [pos] and [outpos]. [*dstlen - 2] is an unsigned subtraction. *)
Fixpoint compress_loop (fuel : nat) (data_in : list Z) (sourcelen dstlen : Z)
  (positions : list Z) (pos outpos : Z) : list Z * Z * Z :=
  match fuel with
  | O => ([], pos, outpos)
  | S fuel =>
      if (pos <? sourcelen) && (outpos <=? u32 (dstlen - 2)) then
        let value := get data_in pos in
        let pos := pos + 1 in
        let backpos := get positions value in
        let positions := set_at positions value pos in
        let runlen := run_loop 256 data_in sourcelen backpos pos 0 in
        let '(out, pos', outpos') :=
          compress_loop fuel data_in sourcelen dstlen positions (pos + runlen) (outpos + 2) in
        (value :: u8 runlen :: out, pos', outpos')
      else ([], pos, outpos)
  end.

(** [memset(positions, 0, sizeof(positions))] *)
Definition positions0 : list Z := replicate 256 0.

(** [rtime_compress]: [None] for the return value -1, otherwise the bytes
    stored in [cpage_out] and the new [*sourcelen] and [*dstlen]. *)
Definition rtime_compress (data_in : list Z) (sourcelen dstlen : Z)
  : option (list Z * Z * Z) :=
  let '(out, pos, outpos) :=
    compress_loop (Z.to_nat sourcelen) data_in sourcelen dstlen positions0 0 0 in
  if pos <=? outpos then None else Some (out, pos, outpos).

(** [while (repeat) { cpage_out[outpos++] = cpage_out[backoffs++]; repeat--; }]
    on the bytes written so far. *)
Fixpoint copy_loop (repeat : nat) (out : list Z) (backoffs : Z) : list Z :=
  match repeat with
  | O => out
  | S repeat => copy_loop repeat (out ++ [get out backoffs]) (backoffs + 1)
  end.

(** The loop of [rtime_decompress]; [out] holds the [outpos] bytes written so
    far. [None] is a read past the end of the input. *)
Fixpoint decompress_loop (fuel : nat) (data_in : list Z) (destlen : Z)
  (positions out : list Z) : option (list Z) :=
  if len out <? destlen then
    match fuel, data_in with
    | S fuel, value :: rep :: data_in =>
        let out := out ++ [value] in
        let backoffs := get positions value in
        let outpos := len out in
        let positions := set_at positions value outpos in
        let out :=
          if truth rep then
            if outpos <=? backoffs + rep
            then copy_loop (Z.to_nat rep) out backoffs
            else out ++ take (Z.to_nat rep) (drop (Z.to_nat backoffs) out)
          else out in
        decompress_loop fuel data_in destlen positions out
    | _, _ => None
    end
  else Some out.

Definition rtime_decompress (data_in : list Z) (destlen : Z) : option (list Z) :=
  decompress_loop (length data_in) data_in destlen positions0 [].

(** ** The matcher *)

Lemma run_loop_spec fuel data sl : forall b p r,
  0 <= b -> 0 <= p -> 0 <= r <= 255 -> p <= sl ->
  let r' := run_loop fuel data sl b p r in
  r <= r' <= 255 /\ p + (r' - r) <= sl /\
  (forall i, 0 <= i < r' - r -> get data (p + i) = get data (b + i)).
Proof.
  induction fuel as [|fuel IH]; intros b p r Hb Hp Hr Hsl; cbn [run_loop];
    [split; [lia|]; split; lia|].
  destruct (_ && _) eqn:E; [|split; [lia|]; split; lia].
  bool_hyps. destruct (IH (b + 1) (p + 1) (r + 1)) as (I1 & I2 & I3); try lia.
  split; [lia|]. split; [lia|]. intros i Hi.
  destruct (Z.eq_dec i 0) as [->|]; [by rewrite !Z.add_0_r|].
  replace (p + i) with (p + 1 + (i - 1)) by lia.
  replace (b + i) with (b + 1 + (i - 1)) by lia. apply I3. lia.
Qed.

(** ** The copier *)

Lemma copy_loop_spec data : forall (n : nat) p b,
  0 <= b < p -> p + Z.of_nat n <= len data ->
  (forall i, 0 <= i < Z.of_nat n -> get data (p + i) = get data (b + i)) ->
  copy_loop n (take (Z.to_nat p) data) b = take (Z.to_nat (p + Z.of_nat n)) data.
Proof.
  induction n as [|n IH]; intros p b Hb Hlen Hrun; cbn [copy_loop];
    [by rewrite Z.add_0_r|].
  rewrite get_take by lia. specialize (Hrun 0 ltac:(lia)) as H0.
  rewrite !Z.add_0_r in H0. rewrite <- H0, take_snoc by lia.
  rewrite (IH (p + 1) (b + 1)) by (try lia; intros i Hi;
    replace (p + 1 + i) with (p + (i + 1)) by lia;
    replace (b + 1 + i) with (b + (i + 1)) by lia; apply Hrun; lia).
  do 2 f_equal. lia.
Qed.

(** When source and destination do not overlap, [memcpy] writes what the loop
    writes. *)
Lemma copy_memcpy : forall (n : nat) (out : list Z) b,
  0 <= b -> b + Z.of_nat n <= len out ->
  copy_loop n out b = out ++ take n (drop (Z.to_nat b) out).
Proof.
  induction n as [|n IH]; intros out b Hb Hlen; cbn [copy_loop].
  - by rewrite take_0, app_nil_r.
  - assert (len (out ++ [get out b]) = len out + 1) by apply len_app.
    rewrite IH by lia. rewrite <- app_assoc. f_equal.
    replace (Z.to_nat (b + 1)) with (S (Z.to_nat b)) by lia.
    assert (Hg : out !! Z.to_nat b = Some (get out b)) by (apply lookup_get; lia).
    rewrite (drop_S out _ _ Hg). cbn [take app]. f_equal.
    rewrite drop_app_le, take_app_le by (unfold len in Hlen; rewrite ?length_drop; lia). done.
Qed.

(** ** Round trip *)

Definition positions_ok (positions : list Z) (pos : Z) : Prop :=
  len positions = 256 /\ Forall (fun p => 0 <= p <= pos) positions.

Lemma positions_ok_step positions pos pos' value :
  positions_ok positions pos -> 0 <= pos -> is_byte value -> pos + 1 <= pos' ->
  positions_ok (set_at positions value (pos + 1)) pos'.
Proof.
  intros [Hl Hf] Hp Hv Hp'. split; [by rewrite len_set|].
  apply Forall_insert; [|lia]. eapply Forall_impl; [exact Hf|]. cbn. lia.
Qed.

Lemma compress_decompress data sl dl :
  Forall is_byte data -> sl <= len data ->
  forall fuel positions pos outpos,
  0 <= pos <= sl -> positions_ok positions pos ->
  let '(out, pos', outpos') := compress_loop fuel data sl dl positions pos outpos in
  pos <= pos' <= sl /\ outpos' = outpos + len out /\
  forall fuel' rest, (length out <= fuel')%nat ->
    decompress_loop fuel' (out ++ rest) pos' positions (take (Z.to_nat pos) data) =
    Some (take (Z.to_nat pos') data).
Proof.
  intros Hbytes Hsl. induction fuel as [|fuel IH]; intros positions pos outpos Hpos Hok.
  { cbn. split; [lia|]. split; [unfold len; cbn; lia|]. intros fuel' rest _.
    destruct fuel'; cbn; rewrite len_take, Z.ltb_irrefl by lia; done. }
  cbn [compress_loop]. destruct (_ && _) eqn:E.
  2:{ split; [lia|]. split; [unfold len; cbn; lia|]. intros fuel' rest _.
      destruct fuel'; cbn; rewrite len_take, Z.ltb_irrefl by lia; done. }
  bool_hyps. set (v := get data pos). set (b := get positions v).
  assert (Hv : is_byte v) by (apply Forall_get; [done|lia]).
  assert (Hb : 0 <= b <= pos)
    by (destruct Hok as [Hl Hf]; apply (Forall_get _ _ _ Hf); rewrite Hl; exact Hv).
  destruct (run_loop_spec 256 data sl b (pos + 1) 0) as (R1 & R2 & R3); try lia.
  set (r := run_loop 256 data sl b (pos + 1) 0) in *.
  specialize (IH (set_at positions v (pos + 1)) (pos + 1 + r) (outpos + 2) ltac:(lia)
    (positions_ok_step positions pos (pos + 1 + r) v Hok ltac:(lia) Hv ltac:(lia))).
  destruct (compress_loop fuel _ _ _ _ _ _) as [[out pos'] outpos'].
  destruct IH as (I1 & I2 & I3). rewrite u8_id by lia.
  split; [lia|]. split; [unfold len in *; cbn [length]; lia|].
  intros [|fuel'] rest Hf; cbn [length] in Hf; [lia|].
  cbn [decompress_loop app]. rewrite len_take by lia.
  rewrite (proj2 (Z.ltb_lt pos pos')) by lia. subst v.
  rewrite take_snoc, len_take by lia. fold b.
  rewrite <- (I3 fuel' rest) by lia. f_equal.
  destruct (truth r) eqn:Tr; [|unfold truth in Tr; bool_hyps; do 2 f_equal; lia].
  assert (C : copy_loop (Z.to_nat r) (take (Z.to_nat (pos + 1)) data) b =
    take (Z.to_nat (pos + 1 + r)) data).
  { rewrite copy_loop_spec by (try lia; intros i Hi; apply R3; lia). do 2 f_equal. lia. }
  destruct (Z.leb_spec (pos + 1) (b + r)); [exact C|].
  rewrite <- copy_memcpy by (rewrite ?len_take; lia). exact C.
Qed.

(** C39. What [rtime_compress] reports as compressed, [rtime_decompress]
    restores: with the consumed length it returns as [destlen], the decoder
    reproduces exactly that prefix of the data and reads nothing beyond the
    compressed bytes. *)
Theorem rtime_roundtrip data sl dl out sl' dl' :
  Forall is_byte data -> 0 <= sl <= len data ->
  rtime_compress data sl dl = Some (out, sl', dl') ->
  rtime_decompress out sl' = Some (take (Z.to_nat sl') data) /\ dl' = len out.
Proof.
  intros Hbytes Hsl. unfold rtime_compress.
  pose proof (compress_decompress data sl dl Hbytes ltac:(lia)
    (Z.to_nat sl) positions0 0 0 ltac:(lia)) as H.
  destruct (compress_loop _ _ _ _ _ _ _) as [[o p] op].
  destruct H as (H1 & H2 & H3).
  { split; [done|]. apply Forall_replicate. lia. }
  destruct (p <=? op); [done|]. intros [= <- <- <-]. split; [|lia].
  specialize (H3 (length o) [] ltac:(lia)). by rewrite app_nil_r in H3.
Qed.

(** A successful compression pays off and fits the output buffer: fewer
    bytes come out than went in, and at most [dstlen] of them. *)
Theorem rtime_compress_bounds data sl dl out sl' dl' :
  Forall is_byte data -> 0 <= sl <= len data -> 2 <= dl < 4294967296 ->
  rtime_compress data sl dl = Some (out, sl', dl') ->
  len out < sl' <= sl /\ len out <= dl.
Proof.
  intros Hbytes Hsl Hdl. unfold rtime_compress.
  assert (B : forall fuel positions pos outpos, outpos <= dl ->
    let '(o, _, outpos') := compress_loop fuel data sl dl positions pos outpos in outpos' <= dl).
  { induction fuel as [|fuel IH]; intros positions pos outpos Ho; [exact Ho|].
    cbn [compress_loop]. destruct (_ && _) eqn:E; [|exact Ho].
    bool_hyps. rewrite u32_id in * by lia.
    specialize (IH (set_at positions (get data pos) (pos + 1))
      (pos + 1 + run_loop 256 data sl (get positions (get data pos)) (pos + 1) 0)
      (outpos + 2) ltac:(lia)).
    by destruct (compress_loop _ _ _ _ _ _ _) as [[? ?] ?]. }
  specialize (B (Z.to_nat sl) positions0 0 0 ltac:(lia)).
  pose proof (compress_decompress data sl dl Hbytes ltac:(lia)
    (Z.to_nat sl) positions0 0 0 ltac:(lia)) as H.
  destruct (compress_loop _ _ _ _ _ _ _) as [[o p] op].
  destruct H as (H1 & H2 & _).
  { split; [done|]. apply Forall_replicate. lia. }
  destruct (Z.leb_spec p op); [done|]. intros [= <- <- <-]. lia.
Qed.

(** ** Concrete runs *)

Definition sample : list Z := [7; 7; 7; 7; 7; 7; 9; 7; 7; 7; 7].

Lemma rtime_roundtrip_witness :
  rtime_decompress [7; 5; 9; 4] 11 = Some (take (Z.to_nat 11) sample) /\
  4 = len [7; 5; 9; 4].
Proof.
  apply (rtime_roundtrip sample 11 100 [7; 5; 9; 4] 11 4);
    [decide_now | decide_now | reflexivity].
Defined.

Lemma rtime_compress_bounds_witness :
  len [7; 5; 9; 4] < 11 <= 11 /\ len [7; 5; 9; 4] <= 100.
Proof.
  apply (rtime_compress_bounds sample 11 100 [7; 5; 9; 4] 11 4);
    [decide_now | decide_now | lia | reflexivity].
Defined.
