(* ===== verification/Resource.v ===== *)
(** kernel/resource.c: the tree of address ranges (I/O ports and memory) that
    drivers claim. A node is a [struct resource] in a heap; pointers are
    integers, 0 is NULL. *)
From S2P Require Import Prelude.

(** ** Data *)

Record resource := Resource {
  name : Z; start : Z; end_ : Z; flags : Z;
  parent : Z; sibling : Z; child : Z }.

Definition set_sibling (p : Z) (r : resource) : resource :=
  Resource (name r) (start r) (end_ r) (flags r) (parent r) p (child r).
Definition set_child (p : Z) (r : resource) : resource :=
  Resource (name r) (start r) (end_ r) (flags r) (parent r) (sibling r) p.
Definition set_parent (p : Z) (r : resource) : resource :=
  Resource (name r) (start r) (end_ r) (flags r) p (sibling r) (child r).
Definition set_range (s e : Z) (r : resource) : resource :=
  Resource (name r) s e (flags r) (parent r) (sibling r) (child r).

Abbreviation heap := (gmap Z resource).

(** The places a [struct resource **] points to. *)
Inductive slot := Child (r : Z) | Sibling (r : Z).
Definition slot_node (p : slot) : Z := match p with Child r | Sibling r => r end.
Definition slot_get (p : slot) (r : resource) : Z :=
  match p with Child _ => child r | Sibling _ => sibling r end.
Definition slot_set (p : slot) (v : Z) (r : resource) : resource :=
  match p with Child _ => set_child v r | Sibling _ => set_sibling v r end.

(** [*p] and [*p = v] *)
Definition deref (h : heap) (p : slot) : option Z := slot_get p <$> h !! slot_node p.
Definition assign (h : heap) (p : slot) (v : Z) : heap := alter (slot_set p v) (slot_node p) h.

Definition EINVAL : Z := 22.
Definition EBUSY : Z := 16.
Definition IORESOURCE_BUSY : Z := 0x80000000.

(** ** Operations. [None] is an access through a pointer to no node; the loops
    get one unit of fuel per node of the heap. *)

(** The loop of [__request_resource]. *)
Fixpoint request_loop (fuel : nat) (h : heap) (p : slot) (root new s e : Z)
  : option (heap * Z) :=
  match fuel with
  | O => None
  | S fuel =>
      tmp ← deref h p;
      let link := assign (alter (set_sibling tmp) new h) p new in
      if tmp =? 0 then Some (alter (set_parent root) new link, 0)
      else
        t ← h !! tmp;
        if e <? start t then Some (alter (set_parent root) new link, 0)
        else if end_ t <? s then request_loop fuel h (Sibling tmp) root new s e
        else Some (h, tmp)
  end.

(** [__request_resource]: the new heap and the conflicting node, NULL if none. *)
Definition __request_resource (h : heap) (root new : Z) : option (heap * Z) :=
  n ← h !! new; r ← h !! root;
  if end_ n <? start n then Some (h, root)
  else if start n <? start r then Some (h, root)
  else if end_ r <? end_ n then Some (h, root)
  else request_loop (S (size h)) h (Child root) root new (start n) (end_ n).

Fixpoint release_loop (fuel : nat) (h : heap) (p : slot) (old : Z) : option (heap * Z) :=
  match fuel with
  | O => None
  | S fuel =>
      tmp ← deref h p;
      if tmp =? 0 then Some (h, - EINVAL)
      else if tmp =? old then
        t ← h !! tmp; Some (alter (set_parent 0) old (assign h p (sibling t)), 0)
      else release_loop fuel h (Sibling tmp) old
  end.

Definition __release_resource (h : heap) (old : Z) : option (heap * Z) :=
  o ← h !! old; release_loop (S (size h)) h (Child (parent o)) old.

Definition request_resource (h : heap) (root new : Z) : option (heap * Z) :=
  '(h, conflict) ← __request_resource h root new;
  Some (h, if truth conflict then - EBUSY else 0).

Definition release_resource (h : heap) (old : Z) : option (heap * Z) :=
  __release_resource h old.

(** [check_resource]; [tmp] is the address of the automatic variable, whose
    other members hold [junk]. *)
Definition check_resource (h : heap) (root s n : Z) (tmp : Z) (junk : resource)
  : option (heap * Z) :=
  let h := <[tmp := set_range s (u32 (s + n - 1)) junk]> h in
  '(h, conflict) ← __request_resource h root tmp;
  h ← (if conflict =? 0 then '(h, _) ← __release_resource h tmp; Some h else Some h);
  Some (delete tmp h, if truth conflict then - EBUSY else 0).

(** The alignment callback of [find_resource]: the new range it leaves. *)
Abbreviation align_fn := (option (Z -> Z -> Z -> Z * Z)).

Fixpoint find_loop (fuel : nat) (h : heap) (rend this st size mn mx align : Z)
  (alignf : align_fn) : option (Z * Z * Z) :=
  match fuel with
  | O => None
  | S fuel =>
      e ← (if truth this then start <$> h !! this else Some rend);
      let st := if st <? mn then mn else st in
      let e := if mx <? e then mx else e in
      let st := u32 (st + align - 1) .& u32 (Z.lnot (align - 1)) in
      let '(st, e) := match alignf with Some f => f st e size | None => (st, e) end in
      if (st <? e) && (size <=? u32 (u32 (e - st) + 1)) then Some (0, st, u32 (st + size - 1))
      else if this =? 0 then Some (- EBUSY, st, e)
      else t ← h !! this;
           find_loop fuel h rend (sibling t) (u32 (end_ t + 1)) size mn mx align alignf
  end.

(** [find_resource]: return value and the new [start] and [end]. *)
Definition find_resource (h : heap) (root sz mn mx align : Z) (alignf : align_fn)
  : option (Z * Z * Z) :=
  r ← h !! root;
  find_loop (S (size h)) h (end_ r) (child r) (start r) sz mn mx align alignf.

Definition allocate_resource (h : heap) (root new size mn mx align : Z) (alignf : align_fn)
  : option (heap * Z) :=
  '(err, s, e) ← find_resource h root size mn mx align alignf;
  let h := alter (set_range s e) new h in
  if 0 <=? err then
    '(h, conflict) ← __request_resource h root new;
    Some (h, if truth conflict then - EBUSY else err)
  else Some (h, err).

(** The loop of [__request_region]; the result is [res], NULL on failure, after
    [kfree]. *)
Fixpoint region_loop (fuel : nat) (h : heap) (par res : Z) : option (heap * Z) :=
  match fuel with
  | O => None
  | S fuel =>
      '(h', conflict) ← __request_resource h par res;
      if conflict =? 0 then Some (h', res)
      else if negb (conflict =? par) then
        c ← h' !! conflict;
        if negb (truth (flags c .& IORESOURCE_BUSY)) then region_loop fuel h' conflict res
        else Some (delete res h', 0)
      else Some (delete res h', 0)
  end.

(** [__request_region]; [res] is what [kmalloc] returned. *)
Definition __request_region (h : heap) (par s n nm : Z) (res : Z) : option (heap * Z) :=
  if res =? 0 then Some (h, 0)
  else
    let h := <[res := Resource nm s (u32 (s + n - 1)) IORESOURCE_BUSY 0 0 0]> h in
    region_loop (S (size h)) h par res.

Definition __check_region (h : heap) (par s n : Z) (res : Z) : option (heap * Z) :=
  '(h, r) ← __request_region h par s n 0 res;
  if r =? 0 then Some (h, - EBUSY)
  else '(h, _) ← release_resource h r; Some (delete r h, 0).

(** [__release_region]: the heap and whether the message "Trying to free
    nonexistent resource" is printed. *)
Fixpoint release_region_loop (fuel : nat) (h : heap) (p : slot) (s e : Z)
  : option (heap * bool) :=
  match fuel with
  | O => None
  | S fuel =>
      res ← deref h p;
      if res =? 0 then Some (h, true)
      else
        r ← h !! res;
        if (start r <=? s) && (e <=? end_ r) then
          if negb (truth (flags r .& IORESOURCE_BUSY))
          then release_region_loop fuel h (Child res) s e
          else if negb (start r =? s) || negb (end_ r =? e) then Some (h, true)
          else Some (delete res (assign h p (sibling r)), false)
        else release_region_loop fuel h (Sibling res) s e
  end.

Definition __release_region (h : heap) (par s n : Z) : option (heap * bool) :=
  release_region_loop (S (size h)) h (Child par) s (u32 (s + n - 1)).

(** ** Well-formed child lists *)

(** The nodes reached from [p] along the sibling links are [l]. *)
Fixpoint chain (h : heap) (p : Z) (l : list Z) : Prop :=
  match l with
  | [] => p = 0
  | x :: l => p = x /\ x <> 0 /\ exists r, h !! x = Some r /\ chain h (sibling r) l
  end.

(** Their ranges are proper, in increasing order, disjoint and within
    [[lo, hi]]. *)
Fixpoint ordered (h : heap) (lo hi : Z) (l : list Z) : Prop :=
  match l with
  | [] => True
  | x :: l => exists r, h !! x = Some r /\ lo <= start r <= end_ r /\ end_ r <= hi /\
                        ordered h (end_ r + 1) hi l
  end.

Definition tree_ok (h : heap) (root : Z) (l : list Z) : Prop :=
  exists r, h !! root = Some r /\ root <> 0 /\ chain h (child r) l /\
            NoDup (root :: l) /\ ordered h (start r) (end_ r) l.

Definition overlaps (r : resource) (s e : Z) : Prop := start r <= e /\ s <= end_ r.

Definition head0 (l : list Z) : Z := default 0 (head l).
(** The slot that holds the link to the node after [l]. *)
Definition slot_at (p : slot) (l : list Z) : slot :=
  match last l with None => p | Some x => Sibling x end.

Lemma slot_at_cons p x l : slot_at (Sibling x) l = slot_at p (x :: l).
Proof. unfold slot_at. rewrite last_cons. by destruct (last l). Qed.

Lemma slot_at_node p l : slot_node (slot_at p l) = slot_node p \/ slot_node (slot_at p l) ∈ l.
Proof.
  unfold slot_at. destruct (last l) as [x|] eqn:E; [right | by left].
  by apply last_Some_elem_of in E.
Qed.

Lemma chain_head h p l : chain h p l -> p = head0 l.
Proof. destruct l; cbn; [done|]. by intros [-> _]. Qed.

Lemma chain_nonzero h l x : forall p, chain h p l -> x ∈ l -> x <> 0.
Proof.
  induction l as [|y l IH]; [set_solver|]. intros p (-> & Hy & ry & _ & Hc) Hx.
  apply elem_of_cons in Hx as [->|Hx]; [done|]. by eapply IH.
Qed.

Lemma chain_dom h l : forall p, chain h p l -> Forall (fun x => x ∈ dom h) l.
Proof.
  induction l as [|x l IH]; cbn; [constructor|].
  intros p (_ & _ & r & Hr & Hc). constructor; [by apply elem_of_dom_2 in Hr | by eapply IH].
Qed.

Lemma chain_size h p l : chain h p l -> NoDup l -> (length l <= size h)%nat.
Proof.
  intros Hc Hnd. apply chain_dom in Hc. rewrite <- size_dom.
  rewrite <- (size_list_to_set (C := gset Z) l Hnd). apply subseteq_size.
  intros x Hx%elem_of_list_to_set. by eapply Forall_forall in Hc.
Qed.

(** Chains and orders depend only on the nodes they run through. *)
Lemma chain_frame h h' l : forall p,
  (forall x, x ∈ l -> h' !! x = h !! x) -> chain h p l -> chain h' p l.
Proof.
  induction l as [|x l IH]; cbn; [done|]. intros p Hf (-> & Hx & r & Hr & Hc).
  split; [done|]. split; [done|]. exists r. rewrite Hf by set_solver. split; [done|].
  apply IH; [set_solver|done].
Qed.

Definition same_data (h h' : heap) : Prop :=
  forall x r, h !! x = Some r -> exists r', h' !! x = Some r' /\
    start r' = start r /\ end_ r' = end_ r /\ flags r' = flags r /\ name r' = name r.

Lemma ordered_same h h' l : forall lo hi,
  same_data h h' -> ordered h lo hi l -> ordered h' lo hi l.
Proof.
  induction l as [|x l IH]; cbn; [done|]. intros lo hi Hs (r & Hr & H1 & H2 & H3).
  destruct (Hs x r Hr) as (r' & Hr' & E1 & E2 & _). exists r'. rewrite E1, E2. auto.
Qed.

Lemma ordered_lower h l lo lo' hi :
  lo' <= lo -> ordered h lo hi l -> ordered h lo' hi l.
Proof. destruct l; cbn; [done|]. intros H (r & ? & ? & ?). exists r. split; [done|]. split; [lia|done]. Qed.

Lemma ordered_app h l1 : forall l2 lo hi,
  ordered h lo hi (l1 ++ l2) -> ordered h lo hi l1 /\
  exists lo', lo <= lo' /\ ordered h lo' hi l2 /\
    (forall x r, x ∈ l1 -> h !! x = Some r -> end_ r < lo').
Proof.
  induction l1 as [|x l1 IH]; intros l2 lo hi H.
  - split; [done|]. exists lo. split; [lia|]. split; [done|]. intros ? ? Hx. by apply elem_of_nil in Hx.
  - destruct H as (r & Hr & H1 & H2 & H3). destruct (IH _ _ _ H3) as (I1 & lo' & I2 & I3 & I4).
    split; [by exists r|]. exists lo'. split; [lia|]. split; [done|].
    intros y ry Hy Hry. apply elem_of_cons in Hy as [->|Hy]; [|by eapply I4].
    simplify_eq. lia.
Qed.

(** Inserting a range between two parts of an ordered list. *)
Lemma ordered_insert h l1 : forall l2 lo hi new n,
  ordered h lo hi (l1 ++ l2) -> h !! new = Some n -> start n <= end_ n ->
  lo <= start n -> end_ n <= hi ->
  (forall x r, x ∈ l1 -> h !! x = Some r -> end_ r < start n) ->
  (forall x r, x ∈ l2 -> h !! x = Some r -> end_ n < start r) ->
  ordered h lo hi (l1 ++ new :: l2).
Proof.
  induction l1 as [|x l1 IH]; intros l2 lo hi new n Ho Hn Hse Hlo Hhi H1 H2; cbn.
  - exists n. split; [done|]. split; [lia|]. split; [done|].
    destruct l2 as [|y l2]; [done|]. destruct Ho as (r & Hr & A & B & C).
    exists r. specialize (H2 y r ltac:(left) Hr). split; [done|]. split; [lia|done].
  - destruct Ho as (r & Hr & A & B & C). exists r. split; [done|]. split; [done|]. split; [done|].
    pose proof (H1 x r ltac:(left) Hr).
    apply (IH _ _ _ _ n); try done; [lia|]. intros; eapply H1; [by right|done].
Qed.

(** ** Linking a node in *)

Definition link (h : heap) (p : slot) (root new next : Z) : heap :=
  alter (set_parent root) new (assign (alter (set_sibling next) new h) p new).

Lemma slot_set_data p v r :
  start (slot_set p v r) = start r /\ end_ (slot_set p v r) = end_ r /\
  flags (slot_set p v r) = flags r /\ name (slot_set p v r) = name r.
Proof. by destruct p. Qed.

Lemma slot_get_set p v r : slot_get p (slot_set p v r) = v.
Proof. by destruct p. Qed.

Lemma link_ne h p root new next q :
  q <> new -> q <> slot_node p -> link h p root new next !! q = h !! q.
Proof.
  intros H1 H2. unfold link, assign. by rewrite !lookup_alter_ne by congruence.
Qed.

Lemma link_new h p root new next n :
  h !! new = Some n -> slot_node p <> new ->
  link h p root new next !! new = Some (set_parent root (set_sibling next n)).
Proof.
  intros Hn Hp. unfold link, assign. rewrite lookup_alter_eq, lookup_alter_ne by done.
  by rewrite lookup_alter_eq, Hn.
Qed.

Lemma link_slot h p root new next :
  slot_node p <> new ->
  link h p root new next !! slot_node p = slot_set p new <$> h !! slot_node p.
Proof.
  intros Hp. unfold link, assign. rewrite lookup_alter_ne by congruence.
  by rewrite lookup_alter_eq, lookup_alter_ne by congruence.
Qed.

Lemma link_same h p root new next : same_data h (link h p root new next).
Proof.
  intros x r Hx. unfold link, assign.
  destruct (decide (x = new)) as [->|Hne].
  - rewrite lookup_alter_eq. destruct (decide (slot_node p = new)) as [->|].
    + rewrite lookup_alter_eq, lookup_alter_eq, Hx. cbn. eexists. split; [done|]. cbn.
      destruct (slot_set_data p new (set_sibling next r)) as (-> & -> & -> & ->). done.
    + rewrite lookup_alter_ne, lookup_alter_eq, Hx by done. by eexists.
  - rewrite lookup_alter_ne by done. destruct (decide (slot_node p = x)) as [<-|].
    + rewrite lookup_alter_eq, lookup_alter_ne, Hx by done. cbn. eexists. split; [done|].
      apply slot_set_data.
    + rewrite !lookup_alter_ne, Hx by done. by eexists.
Qed.

Lemma link_chain h root new n l2 : forall l1 p hd,
  h !! new = Some n -> new <> 0 -> deref h p = Some hd -> chain h hd (l1 ++ l2) ->
  NoDup (l1 ++ l2) -> new ∉ l1 ++ l2 -> slot_node p ∉ l1 ++ l2 -> slot_node p <> new ->
  let h' := link h (slot_at p l1) root new (head0 l2) in
  exists hd', deref h' p = Some hd' /\ chain h' hd' (l1 ++ new :: l2).
Proof.
  induction l1 as [|x l1 IH]; intros p hd Hn Hn0 Hp Hc Hnd Hnew Hpl Hpn h'.
  - cbn [slot_at last] in h'. exists new. split.
    + unfold deref. subst h'. unfold slot_at. cbn [last]. rewrite link_slot by done.
      unfold deref in Hp. destruct (h !! slot_node p); [|done]. cbn. by rewrite slot_get_set.
    + cbn. split; [done|]. split; [done|]. subst h'. unfold slot_at. cbn [last].
      eexists. split; [by apply link_new|]. cbn. cbn in Hc.
      rewrite <- (chain_head _ _ _ Hc). apply (chain_frame h); [|done].
      intros y Hy. apply link_ne; set_solver.
  - destruct Hc as (-> & Hx0 & r & Hr & Hc). cbn in Hnd. apply NoDup_cons in Hnd as [Hx Hnd].
    assert (x <> new) by set_solver.
    destruct (IH (Sibling x) (sibling r) Hn Hn0) as (hd' & I1 & I2); try done;
      [by unfold deref; cbn; rewrite Hr | set_solver | ].
    rewrite slot_at_cons with (p := p) in I1, I2. fold h' in I1, I2.
    exists x. split.
    + unfold deref in *. subst h'. rewrite link_ne; [done|done|].
      rewrite <- slot_at_cons. destruct (slot_at_node (Sibling x) l1) as [E|E]; cbn in E.
      * rewrite E. set_solver.
      * intros E'. rewrite <- E' in E. set_solver.
    + cbn. split; [done|]. split; [done|]. unfold deref in I1. cbn in I1.
      destruct (h' !! x) as [r'|]; [|done]. injection I1 as <-. by exists r'.
Qed.

(** ** Requesting a range *)

Lemma request_loop_spec h root new s e : forall l fuel p hd lo hi,
  deref h p = Some hd -> chain h hd l -> ordered h lo hi l -> s <= e ->
  (length l < fuel)%nat ->
  (exists x r, x ∈ l /\ h !! x = Some r /\ overlaps r s e /\
     request_loop fuel h p root new s e = Some (h, x)) \/
  (exists l1 l2, l = l1 ++ l2 /\
     (forall x r, x ∈ l1 -> h !! x = Some r -> end_ r < s) /\
     (forall x r, x ∈ l2 -> h !! x = Some r -> e < start r) /\
     request_loop fuel h p root new s e =
       Some (link h (slot_at p l1) root new (head0 l2), 0)).
Proof.
  induction l as [|x l IH]; intros fuel p hd lo hi Hp Hc Ho Hse Hf;
    (destruct fuel as [|fuel]; [lia|]); cbn [request_loop]; rewrite Hp; cbn [mbind option_bind].
  - cbn in Hc. subst hd. right. exists [], []. split; [done|].
    split; [set_solver|]. split; [set_solver|]. done.
  - destruct Hc as (-> & Hx0 & r & Hr & Hc). destruct Ho as (r' & Hr' & O1 & O2 & O3).
    simplify_eq. rewrite (proj2 (Z.eqb_neq x 0)), Hr by done. cbn [mbind option_bind].
    destruct (Z.ltb_spec e (start r)).
    { right. exists [], (x :: l). split; [done|]. split; [set_solver|]. split; [|done].
      intros y ry Hy Hry. apply elem_of_cons in Hy as [->|Hy]; [simplify_eq; lia|].
      destruct (ordered_app h [x] l (start r) hi) as (_ & lo' & A & B & C).
      { exists r. split; [done|]. split; [lia|done]. }
      assert (forall lo'' l', ordered h lo'' hi l' -> y ∈ l' -> lo'' <= start ry) as D.
      { clear -Hry. intros lo'' l'. revert lo''. induction l' as [|z l' IH]; intros lo'' Ho Hin;
          [set_solver|]. destruct Ho as (rz & Hrz & ? & ? & ?).
        apply elem_of_cons in Hin as [->|Hin]; [simplify_eq; lia|].
        assert (end_ rz + 1 <= start ry) by (by apply IH). lia. }
      pose proof (D _ _ O3 Hy). lia. }
    destruct (Z.ltb_spec (end_ r) s).
    2:{ left. exists x, r. split; [left|]. split; [done|]. split; [unfold overlaps; lia|done]. }
    destruct (IH fuel (Sibling x) (sibling r) (end_ r + 1) hi) as
      [(y & ry & Hy & Hry & Hov & E) | (l1 & l2 & -> & A & B & E)]; try done.
    { unfold deref. cbn. by rewrite Hr. }
    { cbn in Hf. lia. }
    + left. exists y, ry. split; [by right|done].
    + right. exists (x :: l1), l2. split; [done|]. split; [|split; [done|]].
      * intros y ry Hy Hry. apply elem_of_cons in Hy as [->|Hy]; [simplify_eq; lia|by eapply A].
      * by rewrite E, (slot_at_cons p).
Qed.

Lemma tree_link h root l1 l2 new n r :
  h !! root = Some r -> tree_ok h root (l1 ++ l2) -> new ∉ root :: l1 ++ l2 -> new <> 0 ->
  h !! new = Some n -> start n <= end_ n -> start r <= start n -> end_ n <= end_ r ->
  (forall x rx, x ∈ l1 -> h !! x = Some rx -> end_ rx < start n) ->
  (forall x rx, x ∈ l2 -> h !! x = Some rx -> end_ n < start rx) ->
  let h' := link h (slot_at (Child root) l1) root new (head0 l2) in
  tree_ok h' root (l1 ++ new :: l2) /\
  h' !! new = Some (set_parent root (set_sibling (head0 l2) n)).
Proof.
  intros Hr (r' & Hr' & Hroot & Hc & Hnd & Ho) Hnew Hn0 Hn Hse Hlo Hhi H1 H2 h'.
  simplify_eq. apply NoDup_cons in Hnd as [Hrl Hnd].
  destruct (link_chain h root new n l2 l1 (Child root) (child r)) as (hd' & Hd & Hc');
    try done; [by unfold deref; cbn; rewrite Hr | set_solver | set_solver |].
  fold h' in Hd, Hc'. split.
  - unfold deref in Hd. cbn in Hd. destruct (h' !! root) as [r'|] eqn:Er'; [|done].
    injection Hd as <-. exists r'. split; [done|]. split; [done|]. split; [done|]. split.
    { assert (new ∉ l1 ++ l2) by set_solver. apply NoDup_cons. split; [set_solver|].
      apply NoDup_app in Hnd as (N1 & N2 & N3). apply NoDup_app. split; [done|].
      split; [set_solver|]. apply NoDup_cons. split; [set_solver|done]. }
    destruct (link_same h (slot_at (Child root) l1) root new (head0 l2) root r Hr)
      as (r'' & Er'' & E1 & E2 & _). fold h' in Er''. simplify_eq. rewrite E1, E2.
    eapply ordered_same; [apply link_same|].
    by eapply ordered_insert.
  - apply link_new; [done|]. destruct (slot_at_node (Child root) l1) as [E|E]; cbn in E.
    + rewrite E. set_solver.
    + intros E'. rewrite E' in E. set_solver.
Qed.

(** The outcome of [__request_resource] on a well-formed tree. *)
Lemma request_cases h root l new n r :
  tree_ok h root l -> h !! root = Some r -> h !! new = Some n ->
  new ∉ root :: l -> new <> 0 ->
  (~ (start n <= end_ n /\ start r <= start n /\ end_ n <= end_ r) /\
     __request_resource h root new = Some (h, root)) \/
  (start n <= end_ n /\ start r <= start n /\ end_ n <= end_ r /\
   ((exists x rx, x ∈ l /\ h !! x = Some rx /\ overlaps rx (start n) (end_ n) /\
       x <> 0 /\ __request_resource h root new = Some (h, x)) \/
    (exists l1 l2, l = l1 ++ l2 /\
       (forall x rx, x ∈ l1 -> h !! x = Some rx -> end_ rx < start n) /\
       (forall x rx, x ∈ l2 -> h !! x = Some rx -> end_ n < start rx) /\
       __request_resource h root new =
         Some (link h (slot_at (Child root) l1) root new (head0 l2), 0)))).
Proof.
  intros Hok Hr Hn Hnew Hn0. unfold __request_resource. rewrite Hn, Hr. cbn [mbind option_bind].
  destruct (Z.ltb_spec (end_ n) (start n)); [left; split; [lia|done]|].
  destruct (Z.ltb_spec (start n) (start r)); [left; split; [lia|done]|].
  destruct (Z.ltb_spec (end_ r) (end_ n)); [left; split; [lia|done]|].
  right. split; [lia|]. split; [lia|]. split; [lia|].
  destruct Hok as (r' & Hr' & Hroot & Hc & Hnd & Ho).
  assert (r' = r) as -> by congruence.
  apply NoDup_cons in Hnd as [Hrl Hnd].
  destruct (request_loop_spec h root new (start n) (end_ n) l (S (size h)) (Child root)
    (child r) (start r) (end_ r)) as [(x & rx & Hx & Hrx & Hov & E) | ?]; try done; try lia.
  - unfold deref. cbn. by rewrite Hr.
  - pose proof (chain_size _ _ _ Hc Hnd). lia.
  - left. exists x, rx. split_and!; try done.
    by eapply chain_nonzero.
  - by right.
Qed.

(** C36. [request_resource] grants exactly the requests it should: on a
    well-formed tree it succeeds if and only if the range is proper, lies in the
    root's range and overlaps no child; a refused request returns -EBUSY and
    leaves the tree alone. *)
Theorem request_resource_decides h root l new n r :
  tree_ok h root l -> h !! root = Some r -> h !! new = Some n ->
  new ∉ root :: l -> new <> 0 ->
  exists h' ret, request_resource h root new = Some (h', ret) /\
    (ret = 0 \/ (ret = - EBUSY /\ h' = h)) /\
    (ret = 0 <-> (start n <= end_ n /\ start r <= start n /\ end_ n <= end_ r /\
       forall x rx, x ∈ l -> h !! x = Some rx -> ~ overlaps rx (start n) (end_ n))).
Proof.
  intros Hok Hr Hn Hnew Hn0. unfold request_resource.
  assert (Hroot : root <> 0) by (destruct Hok as (? & ? & ? & _); done).
  assert (T : forall x, x <> 0 -> truth x = true) by (intros; unfold truth; lia).
  destruct (request_cases h root l new n r Hok Hr Hn Hnew Hn0) as
    [[Hbad ->] | (A & B & C & [(x & rx & Hx & Hrx & Hov & Hx0 & ->)
                              | (l1 & l2 & -> & H1 & H2 & ->)])]; cbn [mbind option_bind].
  - exists h, (- EBUSY). rewrite T by done. split; [done|]. split; [by right|].
    split; [done|]. tauto.
  - exists h, (- EBUSY). rewrite T by done. split; [done|]. split; [by right|].
    split; [done|]. intros (_ & _ & _ & D). destruct (D x rx Hx Hrx Hov).
  - eexists _, 0. split; [done|]. split; [by left|]. split; [intros _|done].
    split_and!; try done. intros x rx Hx Hrx [O1 O2]. apply elem_of_app in Hx as [Hx|Hx].
    + pose proof (H1 x rx Hx Hrx). lia.
    + pose proof (H2 x rx Hx Hrx). lia.
Qed.

(** A granted request keeps the tree well formed: the children are the old
    ones with the new node inserted, still ordered, disjoint and inside the
    root, and the node's parent is the root. *)
Theorem request_resource_tree_ok h root l new n h' :
  tree_ok h root l -> h !! new = Some n -> new ∉ root :: l -> new <> 0 ->
  request_resource h root new = Some (h', 0) ->
  exists l1 l2 n', l = l1 ++ l2 /\ tree_ok h' root (l1 ++ new :: l2) /\
    h' !! new = Some n' /\ parent n' = root /\ start n' = start n /\ end_ n' = end_ n.
Proof.
  intros Hok Hn Hnew Hn0 E. pose proof Hok as (r & Hr & Hroot & _).
  unfold request_resource in E.
  assert (T : forall x, x <> 0 -> truth x = true) by (intros; unfold truth; lia).
  destruct (request_cases h root l new n r Hok Hr Hn Hnew Hn0) as
    [[Hbad H] | (A & B & C & [(x & rx & Hx & Hrx & Hov & Hx0 & H)
                             | (l1 & l2 & -> & H1 & H2 & H)])];
    rewrite H in E; cbn [mbind option_bind] in E;
    [rewrite T in E by done; done | rewrite T in E by done; done |].
  injection E as <-.
  destruct (tree_link h root l1 l2 new n r) as [K1 K2]; try done.
  exists l1, l2. eexists. by split_and!.
Qed.

(** ** Releasing a range *)

Definition unlink (h : heap) (p : slot) (old next : Z) : heap :=
  alter (set_parent 0) old (assign h p next).

Lemma unlink_ne h p old next q :
  q <> old -> q <> slot_node p -> unlink h p old next !! q = h !! q.
Proof. intros H1 H2. unfold unlink, assign. by rewrite !lookup_alter_ne by congruence. Qed.

Lemma unlink_slot h p old next :
  slot_node p <> old -> unlink h p old next !! slot_node p = slot_set p next <$> h !! slot_node p.
Proof.
  intros Hp. unfold unlink, assign. rewrite lookup_alter_ne by congruence. apply lookup_alter_eq.
Qed.

Lemma unlink_same h p old next : same_data h (unlink h p old next).
Proof.
  intros x r Hx. unfold unlink, assign. destruct (decide (x = old)) as [->|].
  - rewrite lookup_alter_eq. destruct (decide (slot_node p = old)) as [->|].
    + rewrite lookup_alter_eq, Hx. cbn. eexists. split; [done|]. apply (slot_set_data p).
    + rewrite lookup_alter_ne, Hx by done. by eexists.
  - rewrite lookup_alter_ne by done. destruct (decide (slot_node p = x)) as [<-|].
    + rewrite lookup_alter_eq, Hx. cbn. eexists. split; [done|]. apply slot_set_data.
    + rewrite !lookup_alter_ne, Hx by done. by eexists.
Qed.

Lemma unlink_chain h old l2 : forall l1 p hd,
  deref h p = Some hd -> chain h hd (l1 ++ old :: l2) -> NoDup (l1 ++ old :: l2) ->
  slot_node p ∉ l1 ++ old :: l2 ->
  let h' := unlink h (slot_at p l1) old (head0 l2) in
  exists hd', deref h' p = Some hd' /\ chain h' hd' (l1 ++ l2).
Proof.
  induction l1 as [|x l1 IH]; intros p hd Hp Hc Hnd Hpl h'.
  - destruct Hc as (-> & Hx0 & r & Hr & Hc). apply NoDup_cons in Hnd as [Ho Hnd].
    exists (head0 l2). subst h'. unfold slot_at. cbn [last]. split.
    + unfold deref in *. rewrite unlink_slot by set_solver.
      destruct (h !! slot_node p); [|done]. cbn. by rewrite slot_get_set.
    + cbn. rewrite <- (chain_head _ _ _ Hc). apply (chain_frame h); [|done].
      intros y Hy. apply unlink_ne; set_solver.
  - destruct Hc as (-> & Hx0 & r & Hr & Hc). cbn in Hnd. apply NoDup_cons in Hnd as [Hx Hnd].
    destruct (IH (Sibling x) (sibling r)) as (hd' & I1 & I2); try done;
      [by unfold deref; cbn; rewrite Hr|].
    rewrite slot_at_cons with (p := p) in I1, I2. fold h' in I1, I2. exists x. split.
    + unfold deref in *. subst h'. rewrite unlink_ne; [done|set_solver|].
      rewrite <- slot_at_cons. destruct (slot_at_node (Sibling x) l1) as [E|E]; cbn in E.
      * rewrite E. set_solver.
      * intros E'. rewrite <- E' in E. set_solver.
    + cbn. split; [done|]. split; [done|]. unfold deref in I1. cbn in I1.
      destruct (h' !! x) as [r'|]; [|done]. injection I1 as <-. by exists r'.
Qed.

Lemma release_loop_found h old l2 : forall l1 fuel p hd,
  deref h p = Some hd -> chain h hd (l1 ++ old :: l2) -> old ∉ l1 ->
  (length l1 < fuel)%nat ->
  release_loop fuel h p old = Some (unlink h (slot_at p l1) old (head0 l2), 0).
Proof.
  induction l1 as [|x l1 IH]; intros fuel p hd Hp Hc Ho Hf;
    (destruct fuel as [|fuel]; [lia|]); cbn [release_loop]; rewrite Hp; cbn [mbind option_bind];
    destruct Hc as (-> & Hx0 & r & Hr & Hc); rewrite (proj2 (Z.eqb_neq _ 0)) by done.
  - rewrite Z.eqb_refl, Hr. cbn. by rewrite (chain_head _ _ _ Hc).
  - rewrite (proj2 (Z.eqb_neq x old)) by set_solver.
    rewrite (IH fuel (Sibling x) (sibling r)); [by rewrite (slot_at_cons p)| |done|set_solver|cbn in Hf; lia].
    unfold deref. cbn. by rewrite Hr.
Qed.

Lemma release_loop_missing h old : forall l fuel p hd,
  deref h p = Some hd -> chain h hd l -> old ∉ l -> (length l < fuel)%nat ->
  release_loop fuel h p old = Some (h, - EINVAL).
Proof.
  induction l as [|x l IH]; intros fuel p hd Hp Hc Ho Hf;
    (destruct fuel as [|fuel]; [lia|]); cbn [release_loop]; rewrite Hp; cbn [mbind option_bind].
  - cbn in Hc. by subst hd.
  - destruct Hc as (-> & Hx0 & r & Hr & Hc). rewrite (proj2 (Z.eqb_neq x 0)) by done.
    rewrite (proj2 (Z.eqb_neq x old)) by set_solver.
    apply (IH fuel (Sibling x) (sibling r)); [|done|set_solver|cbn in Hf; lia].
    unfold deref. cbn. by rewrite Hr.
Qed.

Lemma release_child h root l1 l2 old o :
  tree_ok h root (l1 ++ old :: l2) -> h !! old = Some o -> parent o = root ->
  let h' := unlink h (slot_at (Child root) l1) old (head0 l2) in
  release_resource h old = Some (h', 0) /\ tree_ok h' root (l1 ++ l2).
Proof.
  intros (r & Hr & Hroot & Hc & Hnd & Ho) Hold Hp h'.
  apply NoDup_cons in Hnd as [Hrl Hnd]. split.
  - unfold release_resource, __release_resource. rewrite Hold. cbn [mbind option_bind].
    rewrite Hp. apply release_loop_found with (child r); [|done| |].
    + unfold deref. cbn. by rewrite Hr.
    + apply NoDup_app in Hnd as (_ & H & _). intros Hin. apply (H old Hin). left.
    + pose proof (chain_size _ _ _ Hc Hnd) as Hs. rewrite length_app in Hs. cbn in Hs. lia.
  - destruct (unlink_chain h old l2 l1 (Child root) (child r)) as (hd' & Hd & Hc'); try done.
    { unfold deref. cbn. by rewrite Hr. }
    fold h' in Hd, Hc'. unfold deref in Hd. cbn in Hd.
    destruct (h' !! root) as [r'|] eqn:Er'; [|done]. injection Hd as <-.
    destruct (unlink_same h (slot_at (Child root) l1) old (head0 l2) root r Hr)
      as (r'' & Er'' & E1 & E2 & _). fold h' in Er''.
    assert (r'' = r') as -> by congruence.
    exists r'. rewrite E1, E2. split_and!; try done.
    + apply NoDup_cons. split; [set_solver|].
      apply NoDup_app in Hnd as (N1 & N2 & N3). apply NoDup_cons in N3 as [_ N3].
      apply NoDup_app. split; [done|]. split; [set_solver|done].
    + apply ordered_same with h; [apply unlink_same|].
      clear -Ho. revert Ho. generalize (start r). induction l1 as [|x l1 IH]; intros lo Ho; cbn in *.
      * destruct Ho as (ro & _ & ? & _ & Ho). eapply ordered_lower; [|exact Ho]. lia.
      * destruct Ho as (rx & Hx & ? & ? & Ho). exists rx. split_and!; try (done || lia). by apply IH.
Qed.

(** [release_resource] takes exactly the given child out of its parent's
    list and keeps the tree well formed; a node that is not in the list of its
    recorded parent yields -EINVAL and nothing changes. *)
Theorem release_resource_tree_ok h root l old o :
  tree_ok h root l -> h !! old = Some o -> parent o = root ->
  ((old ∉ l) /\ release_resource h old = Some (h, - EINVAL)) \/
  (exists l1 l2 h', l = l1 ++ old :: l2 /\ release_resource h old = Some (h', 0) /\
     tree_ok h' root (l1 ++ l2)).
Proof.
  intros Hok Hold Hp. destruct (decide (old ∈ l)) as [Hin|Hin].
  - right. apply list_elem_of_split in Hin as (l1 & l2 & ->).
    destruct (release_child h root l1 l2 old o Hok Hold Hp) as [E1 E2].
    exists l1, l2. eexists. by split_and!.
  - left. split; [done|]. destruct Hok as (r & Hr & Hroot & Hc & Hnd & Ho).
    apply NoDup_cons in Hnd as [_ Hnd]. unfold release_resource, __release_resource.
    rewrite Hold. cbn [mbind option_bind]. rewrite Hp.
    apply release_loop_missing with l (child r); [|done|done|].
    + unfold deref. cbn. by rewrite Hr.
    + pose proof (chain_size _ _ _ Hc Hnd). lia.
Qed.

(** Releasing what was just requested restores every other node. *)
Lemma link_unlink h root l1 l2 new n hd x :
  h !! new = Some n -> new <> 0 -> new ∉ root :: l1 ++ l2 -> x <> new ->
  deref h (Child root) = Some hd -> chain h hd (l1 ++ l2) -> NoDup (root :: l1 ++ l2) ->
  unlink (link h (slot_at (Child root) l1) root new (head0 l2))
    (slot_at (Child root) l1) new (head0 l2) !! x = h !! x.
Proof.
  intros Hn Hn0 Hnew Hx Hd Hc Hnd.
  set (p := slot_at (Child root) l1).
  assert (Hpn : slot_node p <> new).
  { destruct (slot_at_node (Child root) l1) as [E|E]; fold p in E; cbn in E.
    - rewrite E. set_solver.
    - intros E'. rewrite E' in E. set_solver. }
  assert (Hold : deref h p = Some (head0 l2)).
  { subst p. clear Hpn Hx. revert Hd Hc. generalize (Child root) as q. clear Hnew Hnd.
    revert hd. induction l1 as [|y l1 IH]; intros hd q Hd Hc.
    - unfold slot_at. cbn [last]. cbn in Hc. by rewrite <- (chain_head _ _ _ Hc).
    - destruct Hc as (-> & _ & ry & Hry & Hc). rewrite <- slot_at_cons.
      apply (IH (sibling ry)); [|done]. unfold deref. cbn. by rewrite Hry. }
  destruct (decide (x = slot_node p)) as [->|].
  - rewrite unlink_slot, link_slot by done. unfold deref in Hold.
    destruct (h !! slot_node p) as [rp|]; [|done]. cbn in *. injection Hold as <-.
    f_equal. destruct p, rp; done.
  - by rewrite unlink_ne, link_ne.
Qed.

(** A node outside the tree can be stored without touching it. *)
Lemma tree_fresh h root l t nd :
  tree_ok h root l -> h !! t = None ->
  (t ∉ root :: l) /\ tree_ok (<[t := nd]> h) root l.
Proof.
  intros (r & Hr & Hroot & Hc & Hnd & Ho) Ht.
  assert (Hin : t ∉ root :: l).
  { intros H. apply elem_of_cons in H as [->|H]; [congruence|].
    apply chain_dom in Hc. eapply Forall_forall in Hc; [|done].
    apply elem_of_dom in Hc as [? Hc]. congruence. }
  split; [done|]. exists r. rewrite lookup_insert_ne by set_solver. split_and!; try done.
  - apply chain_frame with h; [|done]. intros x Hx. apply lookup_insert_ne. set_solver.
  - apply ordered_same with h; [|done]. intros x rx Hx. exists rx.
    rewrite lookup_insert_ne by congruence. done.
Qed.

(** [check_resource] only looks: whatever the other members of its
    temporary node hold, it returns 0 exactly when the range is proper, inside
    the root and free, and the tree is the same afterwards. *)
Theorem check_resource_pure h root l s n tmp junk r :
  tree_ok h root l -> h !! root = Some r -> h !! tmp = None -> tmp <> 0 ->
  let e := u32 (s + n - 1) in
  exists ret, check_resource h root s n tmp junk = Some (h, ret) /\
    (ret = 0 \/ ret = - EBUSY) /\
    (ret = 0 <-> (s <= e /\ start r <= s /\ e <= end_ r /\
       forall x rx, x ∈ l -> h !! x = Some rx -> ~ overlaps rx s e)).
Proof.
  intros Hok Hr Htmp Ht0 e. unfold check_resource. fold e.
  set (nd := set_range s e junk). set (h1 := <[tmp := nd]> h).
  assert (Hne : forall x rx, h !! x = Some rx -> x <> tmp) by congruence.
  destruct (tree_fresh h root l tmp nd Hok Htmp) as [Hin Hok1]. fold h1 in Hok1.
  assert (Hfr : forall x, x <> tmp -> h1 !! x = h !! x) by (intros; by apply lookup_insert_ne).
  assert (Hdel : delete tmp h1 = h) by (by apply delete_insert_id).
  assert (Hn1 : h1 !! tmp = Some nd) by apply lookup_insert_eq.
  assert (Hr1 : h1 !! root = Some r) by (rewrite Hfr by set_solver; done).
  assert (T : forall x, x <> 0 -> truth x = true /\ (x =? 0) = false) by (intros; unfold truth; lia).
  assert (Hroot : root <> 0) by (destruct Hok as (? & ? & ? & _); done).
  destruct (request_cases h1 root l tmp nd r Hok1 Hr1 Hn1 Hin Ht0) as
    [[Hbad ->] | (A & B & C & [(x & rx & Hx & Hrx & Hov & Hx0 & ->)
                              | (l1 & l2 & -> & H1 & H2 & ->)])]; cbn [mbind option_bind].
  - destruct (T root Hroot) as [-> ->]. cbn [mbind option_bind]. exists (- EBUSY). rewrite Hdel.
    split; [done|]. split; [by right|]. split; [done|]. cbn in Hbad. tauto.
  - destruct (T x Hx0) as [-> ->]. cbn [mbind option_bind]. exists (- EBUSY). rewrite Hdel.
    split; [done|]. split; [by right|]. split; [done|]. intros (_ & _ & _ & D).
    rewrite Hfr in Hrx by set_solver. destruct (D x rx Hx Hrx Hov).
  - change (0 =? 0) with true. cbn [truth negb].
    destruct (tree_link h1 root l1 l2 tmp nd r) as [K1 K2]; try done.
    destruct (release_child _ root l1 l2 tmp _ K1 K2 eq_refl) as [E _].
    unfold release_resource in E. cbn iota. rewrite E. cbn [mbind option_bind].
    exists 0. split; [|split; [by left|split; [intros _|done]]].
    + do 2 f_equal. rewrite <- Hdel. apply map_eq. intros x.
      destruct (decide (x = tmp)) as [->|Hx]; [by rewrite !lookup_delete_eq|].
      rewrite !lookup_delete_ne by done.
      destruct Hok1 as (r0 & Hr0 & _ & Hc & Hnd & _). eapply link_unlink; try done.
      unfold deref. cbn. by rewrite Hr0.
    + cbn in A, B, C. split_and!; try done. intros x rx Hx Hrx [O1 O2].
      rewrite <- Hfr in Hrx by (by eapply Hne).
      apply elem_of_app in Hx as [Hx|Hx];
        [pose proof (H1 x rx Hx Hrx) | pose proof (H2 x rx Hx Hrx)]; cbn in *; lia.
Qed.

(** ** Allocation *)

Lemma find_loop_range h rend size mn mx align : forall fuel this st err s e,
  find_loop fuel h rend this st size mn mx align None = Some (err, s, e) -> 0 <= err ->
  (exists x, s = u32 x .& u32 (Z.lnot (align - 1))) /\ e = u32 (s + size - 1).
Proof.
  induction fuel as [|fuel IH]; intros this st err s e H Herr; cbn [find_loop] in H; [done|].
  destruct (if truth this then _ else _) as [e0|]; [|done]. cbn [mbind option_bind] in H.
  destruct (_ && _).
  - injection H as <- <- <-. split; [by eexists|done].
  - destruct (this =? 0); [injection H as <- _ _; unfold EBUSY in Herr; lia|].
    destruct (h !! this); [|done]. by eapply IH.
Qed.

Lemma aligned_mask x k :
  0 <= k <= 32 -> (u32 x .& u32 (Z.lnot (2 ^ k - 1))) mod 2 ^ k = 0.
Proof.
  intros Hk. apply Z.bits_inj'. intros n Hn. rewrite Z.bits_0.
  destruct (Z_lt_le_dec n k); [|by rewrite Z.mod_pow2_bits_high by lia].
  rewrite Z.mod_pow2_bits_low, Z.land_spec by lia. unfold u32 at 2.
  change 4294967296 with (2 ^ 32). rewrite Z.mod_pow2_bits_low, Z.lnot_spec by lia.
  replace (2 ^ k - 1) with (Z.ones k) by (rewrite Z.ones_equiv; lia).
  rewrite Z.ones_spec_low by lia. apply andb_false_r.
Qed.

(** A successful [allocate_resource] (no alignment callback, power-of-two
    alignment) hands out an aligned range of exactly the requested size that
    lies in the root, and leaves a well-formed tree in which it is disjoint from
    every other child. *)
Theorem allocate_resource_sound h root l new n size mn mx k h' :
  tree_ok h root l -> h !! new = Some n -> new ∉ root :: l -> new <> 0 ->
  0 < size < 4294967296 -> 0 <= k <= 32 ->
  allocate_resource h root new size mn mx (2 ^ k) None = Some (h', 0) ->
  exists l1 l2 n', l = l1 ++ l2 /\ tree_ok h' root (l1 ++ new :: l2) /\ h' !! new = Some n' /\
    start n' mod 2 ^ k = 0 /\ end_ n' = start n' + size - 1.
Proof.
  intros Hok Hn Hnew Hn0 Hsize Hk H. unfold allocate_resource in H.
  destruct (find_resource _ _ _ _ _ _ _) as [[[err s] e]|] eqn:F; [|done]. cbn [mbind option_bind] in H.
  destruct (Z.leb_spec 0 err); [|injection H as _ ->; lia].
  unfold find_resource in F. destruct Hok as (r & Hr & Hroot & Hc & Hnd & Ho).
  rewrite Hr in F. cbn [mbind option_bind] in F.
  apply find_loop_range in F as [[x Hs] He]; [|done].
  set (h1 := alter (set_range s e) new h) in *.
  assert (Hfr : forall x, x <> new -> h1 !! x = h !! x) by (intros; by apply lookup_alter_ne).
  assert (Hok1 : tree_ok h1 root l).
  { exists r. rewrite Hfr by set_solver. split_and!; try done.
    - apply chain_frame with h; [|done]. intros y Hy. apply Hfr. set_solver.
    - clear -Ho Hfr Hnew. assert (Hl : forall y, y ∈ l -> h1 !! y = h !! y) by (intros; apply Hfr; set_solver).
      clear Hnew. revert Ho. generalize (start r).
      induction l as [|y l IH]; intros lo Ho; [done|]. destruct Ho as (ry & Hy & ? & ? & ?).
      exists ry. rewrite Hl by left. split_and!; try (done || lia). apply IH; [|done].
      intros z Hz. apply Hl. by right. }
  assert (Hn1 : h1 !! new = Some (set_range s e n)) by (unfold h1; by rewrite lookup_alter_eq, Hn).
  assert (Hr1 : h1 !! root = Some r) by (rewrite Hfr by set_solver; done).
  assert (T : forall x, x <> 0 -> truth x = true) by (intros; unfold truth; lia).
  destruct (request_cases h1 root l new (set_range s e n) r Hok1 Hr1 Hn1 Hnew Hn0) as
    [[_ E] | (A & B & C & [(y & ry & _ & _ & _ & Hy0 & E) | (l1 & l2 & -> & H1 & H2 & E)])];
    rewrite E in H; cbn [mbind option_bind] in H;
    [rewrite T in H by done; done | rewrite T in H by done; done |].
  injection H as <- ->. destruct (tree_link h1 root l1 l2 new _ r Hr1 Hok1 Hnew Hn0 Hn1 A B C H1 H2) as [K1 K2].
  exists l1, l2. eexists. split_and!; [done|done|exact K2| |]; cbn in A |- *.
  - rewrite Hs. by apply aligned_mask.
  - rewrite He in *. pose proof (u32_range x).
    assert (0 <= s < 4294967296).
    { rewrite Hs. split; [apply Z.land_nonneg; left; lia|].
      apply Z.le_lt_trans with (u32 x); [|lia]. apply Z.ldiff_le; [lia|]. bitwise. }
    unfold u32 in *. Z.div_mod_to_equations. nia.
Qed.

(** The bus of the next theorem: ports 0-99 with a driver on 9-49. *)
Definition bus : heap :=
  <[1 := Resource 0 0 99 0 0 0 2]> (<[2 := Resource 0 9 49 IORESOURCE_BUSY 1 0 0]>
  (<[3 := Resource 0 0 0 0 0 0 0]> ∅)).

(** [find_resource] takes the start of the next child as the end of the gap
    before it, although ranges are inclusive, so [allocate_resource] can choose
    a range that runs one past the gap and give up: on this bus a request for
    ten ports fails with -EBUSY while ports 50-59 are free. *)
Theorem allocate_resource_misses_gap :
  (snd <$> allocate_resource bus 1 3 10 0 99 1 None) = Some (- EBUSY) /\
  (snd <$> check_resource bus 1 50 10 4 (Resource 0 0 0 0 0 0 0)) = Some 0.
Proof. split; vm_compute; reflexivity. Qed.

(** ** Regions *)

Lemma slot_before h l1 l2 : forall p hd,
  deref h p = Some hd -> chain h hd (l1 ++ l2) -> deref h (slot_at p l1) = Some (head0 l2).
Proof.
  induction l1 as [|y l1 IH]; intros p hd Hd Hc.
  - unfold slot_at. cbn [last]. cbn in Hc. by rewrite <- (chain_head _ _ _ Hc).
  - destruct Hc as (-> & _ & ry & Hry & Hc). rewrite <- slot_at_cons.
    apply (IH _ (sibling ry)); [|done]. unfold deref. cbn. by rewrite Hry.
Qed.

Lemma release_region_walk h s e res r : forall l1 l2 fuel p hd,
  deref h p = Some hd -> chain h hd (l1 ++ res :: l2) -> h !! res = Some r ->
  start r = s -> end_ r = e -> s <= e -> truth (flags r .& IORESOURCE_BUSY) = true ->
  (forall x rx, x ∈ l1 -> h !! x = Some rx -> end_ rx < s) -> (length l1 < fuel)%nat ->
  release_region_loop fuel h p s e =
    Some (delete res (assign h (slot_at p l1) (sibling r)), false).
Proof.
  induction l1 as [|x l1 IH]; intros l2 fuel p hd Hd Hc Hr Hs He Hse Hb Hl Hf;
    (destruct fuel as [|fuel]; [lia|]); cbn [release_region_loop]; rewrite Hd;
    cbn [mbind option_bind]; destruct Hc as (-> & Hx0 & rx & Hx & Hc);
    rewrite (proj2 (Z.eqb_neq _ 0)), Hx by done; cbn [mbind option_bind].
  - assert (rx = r) as -> by congruence. rewrite Hs, He, !Z.leb_refl, !Z.eqb_refl, Hb. done.
  - pose proof (Hl x rx ltac:(left) Hx).
    rewrite (proj2 (Z.leb_gt e (end_ rx))), andb_false_r by lia.
    rewrite (IH l2 fuel (Sibling x) (sibling rx)); try done; [by rewrite (slot_at_cons p)| | |].
    + unfold deref. cbn. by rewrite Hx.
    + intros y ry Hy. apply Hl. by right.
    + cbn in Hf. lia.
Qed.

(** [request_region] and [release_region] are inverse: when no child of the
    parent overlaps the region, [__request_region] returns the node [kmalloc]
    supplied, and [__release_region] of the same region finds it again without a
    complaint and leaves the tree exactly as it was. *)
Theorem region_roundtrip h par l s n nm res r :
  tree_ok h par l -> h !! par = Some r -> h !! res = None -> res <> 0 ->
  let e := u32 (s + n - 1) in
  s <= e -> start r <= s -> e <= end_ r ->
  (forall x rx, x ∈ l -> h !! x = Some rx -> ~ overlaps rx s e) ->
  exists h', __request_region h par s n nm res = Some (h', res) /\
    __release_region h' par s n = Some (h, false).
Proof.
  intros Hok Hr Hres Hr0 e Hse Hlo Hhi Hfree. unfold __request_region.
  rewrite (proj2 (Z.eqb_neq res 0)) by done. fold e.
  set (nd := Resource nm s e IORESOURCE_BUSY 0 0 0). set (h1 := <[res := nd]> h).
  destruct (tree_fresh h par l res nd Hok Hres) as [Hin Hok1]. fold h1 in Hok1.
  assert (Hfr : forall x, x <> res -> h1 !! x = h !! x) by (intros; by apply lookup_insert_ne).
  assert (Hn1 : h1 !! res = Some nd) by apply lookup_insert_eq.
  assert (Hr1 : h1 !! par = Some r) by (rewrite Hfr by set_solver; done).
  cbn [region_loop].
  destruct (request_cases h1 par l res nd r Hok1 Hr1 Hn1 Hin Hr0) as
    [[Hbad _] | (A & B & C & [(x & rx & Hx & Hrx & Hov & _) | (l1 & l2 & -> & H1 & H2 & ->)])].
  { destruct Hbad. cbn. lia. }
  { rewrite Hfr in Hrx by set_solver. destruct (Hfree x rx Hx Hrx Hov). }
  cbn [mbind option_bind]. change (0 =? 0) with true. cbn iota.
  set (p := slot_at (Child par) l1). set (h2 := link h1 p par res (head0 l2)).
  exists h2. split; [done|].
  destruct (tree_link h1 par l1 l2 res nd r) as [K1 K2]; try done. fold p h2 in K1, K2.
  destruct K1 as (r2 & Hr2 & Hroot2 & Hc2 & Hnd2 & Ho2).
  unfold __release_region. fold e.
  destruct (ordered_app _ _ _ _ _ Ho2) as (_ & lo & _ & Hlo2 & Hl1).
  destruct Hlo2 as (r3 & Hr3 & Hlo3 & _). rewrite K2 in Hr3. injection Hr3 as <-. cbn in Hlo3.
  erewrite (release_region_walk h2 s e res _ l1 l2 (S (size h2)) (Child par) (child r2));
    [|by unfold deref; cbn; rewrite Hr2|done|exact K2|done..| |].
  - do 2 f_equal. cbn [sibling set_parent set_sibling]. apply map_eq. intros x.
    destruct (decide (x = res)) as [->|Hx]; [by rewrite lookup_delete_eq|].
    rewrite lookup_delete_ne by done.
    destruct Hok1 as (r0 & Hr0' & _ & Hc & Hnd & _).
    assert (Hd : deref h1 (Child par) = Some (child r0)) by (unfold deref; cbn; by rewrite Hr0').
    rewrite <- Hfr by done.
    rewrite <- (link_unlink h1 par l1 l2 res nd (child r0) x) by done. fold p h2.
    unfold unlink. by rewrite lookup_alter_ne.
  - intros x rx Hx Hrx. pose proof (Hl1 x rx Hx Hrx). lia.
  - apply NoDup_cons in Hnd2 as [_ Hnd2]. pose proof (chain_size _ _ _ Hc2 Hnd2) as Hs.
    rewrite length_app in Hs. cbn in Hs. lia.
Qed.

(** ** Concrete runs *)

Lemma bus_ok : tree_ok bus 1 [2].
Proof.
  eexists. split; [reflexivity|]. split; [done|]. split.
  - split; [done|]. split; [done|]. eexists. split; reflexivity.
  - split; [repeat constructor; set_solver|]. eexists. split; [reflexivity|].
    cbn. lia.
Qed.

(** The bus with node 3 asking for ports 50-59. *)
Definition bus50 : heap := alter (set_range 50 59) 3 bus.

Lemma bus50_ok : tree_ok bus50 1 [2].
Proof.
  eexists. split; [reflexivity|]. split; [done|]. split.
  - split; [done|]. split; [done|]. eexists. split; reflexivity.
  - split; [repeat constructor; set_solver|]. eexists. split; [reflexivity|].
    cbn. lia.
Qed.

Lemma bus50_free x rx :
  x ∈ [2] -> bus !! x = Some rx -> ~ overlaps rx 50 59.
Proof.
  intros Hx. apply list_elem_of_singleton in Hx as ->. intros H. vm_compute in H.
  injection H as <-. unfold overlaps. cbn. lia.
Qed.

Lemma request_resource_decides_witness :
  exists h' ret, request_resource bus50 1 3 = Some (h', ret) /\
    (ret = 0 \/ (ret = - EBUSY /\ h' = bus50)) /\
    (ret = 0 <-> (50 <= 59 /\ 0 <= 50 /\ 59 <= 99 /\
       forall x rx, x ∈ [2] -> bus50 !! x = Some rx -> ~ overlaps rx 50 59)).
Proof.
  apply (request_resource_decides bus50 1 [2] 3 (Resource 0 50 59 0 0 0 0) (Resource 0 0 99 0 0 0 2));
    [apply bus50_ok | reflexivity | reflexivity | set_solver | lia].
Defined.

Lemma request_resource_tree_ok_witness :
  exists l1 l2 n', [2] = l1 ++ l2 /\
    tree_ok (default ∅ (fst <$> request_resource bus50 1 3)) 1 (l1 ++ 3 :: l2) /\
    default ∅ (fst <$> request_resource bus50 1 3) !! 3 = Some n' /\
    parent n' = 1 /\ start n' = 50 /\ end_ n' = 59.
Proof.
  apply (request_resource_tree_ok bus50 1 [2] 3 (Resource 0 50 59 0 0 0 0));
    [apply bus50_ok | reflexivity | set_solver | lia | reflexivity].
Defined.

Lemma release_resource_tree_ok_witness :
  ((2 ∉ [2]) /\ release_resource bus 2 = Some (bus, - EINVAL)) \/
  (exists l1 l2 h', [2] = l1 ++ 2 :: l2 /\ release_resource bus 2 = Some (h', 0) /\
     tree_ok h' 1 (l1 ++ l2)).
Proof.
  apply (release_resource_tree_ok bus 1 [2] 2 (Resource 0 9 49 IORESOURCE_BUSY 1 0 0));
    [apply bus_ok | reflexivity | reflexivity].
Defined.

Lemma check_resource_pure_witness :
  exists ret, check_resource bus 1 50 10 4 (Resource 0 7 7 7 7 7 7) = Some (bus, ret) /\
    (ret = 0 \/ ret = - EBUSY) /\
    (ret = 0 <-> (50 <= 59 /\ 0 <= 50 /\ 59 <= 99 /\
       forall x rx, x ∈ [2] -> bus !! x = Some rx -> ~ overlaps rx 50 59)).
Proof.
  apply (check_resource_pure bus 1 [2] 50 10 4 (Resource 0 7 7 7 7 7 7) (Resource 0 0 99 0 0 0 2));
    [apply bus_ok | reflexivity | reflexivity | lia].
Defined.

Lemma allocate_resource_sound_witness :
  exists l1 l2 n', [2] = l1 ++ l2 /\
    tree_ok (default ∅ (fst <$> allocate_resource bus 1 3 16 0 99 (2 ^ 4) None)) 1 (l1 ++ 3 :: l2) /\
    default ∅ (fst <$> allocate_resource bus 1 3 16 0 99 (2 ^ 4) None) !! 3 = Some n' /\
    start n' mod 2 ^ 4 = 0 /\ end_ n' = start n' + 16 - 1.
Proof.
  apply (allocate_resource_sound bus 1 [2] 3 (Resource 0 0 0 0 0 0 0) 16 0 99 4);
    [apply bus_ok | reflexivity | set_solver | lia | lia | lia | vm_compute; reflexivity].
Defined.

Lemma region_roundtrip_witness :
  exists h', __request_region bus 1 50 10 0 4 = Some (h', 4) /\
    __release_region h' 1 50 10 = Some (bus, false).
Proof.
  apply (region_roundtrip bus 1 [2] 50 10 0 4 (Resource 0 0 99 0 0 0 2));
    [apply bus_ok | reflexivity | reflexivity | lia | decide_now | decide_now | decide_now | apply bus50_free].
Defined.
