(* ===== verification/Timer.v ===== *)
(** kernel/timer.c: the five-level timer wheel. A timer is named by an integer;
    a [list_head] is the list of the timers on it; timer_list.list.next is
    non-NULL exactly for the timers of [pending]. *)
From S2P Require Import Prelude.

(** ** Data *)

Definition TVN_BITS : Z := 6.
Definition TVR_BITS : Z := 8.
Definition TVN_SIZE : Z := 1 .<< TVN_BITS.
Definition TVR_SIZE : Z := 1 .<< TVR_BITS.
Definition TVN_MASK : Z := TVN_SIZE - 1.
Definition TVR_MASK : Z := TVR_SIZE - 1.

(** A [list_head]: slot [i] of [tvn], or the local list [queued] of
    [run_timer_list]. *)
Inductive place := Slot (n i : Z) | Queued.

Record wheel := Wheel {
  vec : gmap (Z * Z) (list Z);    (* tv<n>.vec[i]; a missing entry is an empty list *)
  index : gmap Z Z;               (* tv<n>.index *)
  timer_jiffies : Z;
  running : option (list Z);      (* the list run_timer_list_running points to *)
  expires : gmap Z Z;             (* timer->expires *)
  pending : gset Z }.

Definition with_vec v w := Wheel v (index w) (timer_jiffies w) (running w) (expires w) (pending w).
Definition with_index x w := Wheel (vec w) x (timer_jiffies w) (running w) (expires w) (pending w).
Definition with_jiffies j w := Wheel (vec w) (index w) j (running w) (expires w) (pending w).
Definition with_running r w := Wheel (vec w) (index w) (timer_jiffies w) r (expires w) (pending w).
Definition with_expires e w := Wheel (vec w) (index w) (timer_jiffies w) (running w) e (pending w).
Definition with_pending p w := Wheel (vec w) (index w) (timer_jiffies w) (running w) (expires w) p.

Definition slot (w : wheel) (k : Z * Z) : list Z := default [] (vec w !! k).
Definition idx (w : wheel) (n : Z) : Z := default 0 (index w !! n).
Definition exp_of (w : wheel) (t : Z) : Z := default 0 (expires w !! t).

(** [init_timervecs] on zeroed memory. *)
Definition init_timervecs : wheel := Wheel ∅ ∅ 0 None ∅ ∅.

(** [list_add(&timer->list, vec->prev)] and [list_del(&timer->list)] *)
Definition list_add_tail (t : Z) (p : place) (w : wheel) : wheel :=
  let w := with_pending ({[t]} ∪ pending w) w in
  match p with
  | Slot n i => with_vec (<[(n, i) := slot w (n, i) ++ [t]]> (vec w)) w
  | Queued => with_running ((fun l => l ++ [t]) <$> running w) w
  end.

Definition remove_timer (t : Z) (l : list Z) : list Z := filter (fun x => x <> t) l.

Definition list_del (t : Z) (w : wheel) : wheel :=
  with_running (remove_timer t <$> running w) (with_vec (remove_timer t <$> vec w) w).

(** ** Operations *)

(** The list chosen by [internal_add_timer]. *)
Definition choose_vec (w : wheel) (expires : Z) : place :=
  let idx_ := u32 (expires - timer_jiffies w) in
  match running w with
  | Some _ => Queued
  | None =>
    if idx_ <? TVR_SIZE then Slot 1 (expires .& TVR_MASK)
    else if idx_ <? (1 .<< (TVR_BITS + TVN_BITS)) then Slot 2 ((expires .>> TVR_BITS) .& TVN_MASK)
    else if idx_ <? (1 .<< (TVR_BITS + 2 * TVN_BITS)) then
      Slot 3 ((expires .>> (TVR_BITS + TVN_BITS)) .& TVN_MASK)
    else if idx_ <? (1 .<< (TVR_BITS + 3 * TVN_BITS)) then
      Slot 4 ((expires .>> (TVR_BITS + 2 * TVN_BITS)) .& TVN_MASK)
    else if s32 idx_ <? 0 then Slot 1 (idx w 1)
    else Slot 5 ((expires .>> (TVR_BITS + 3 * TVN_BITS)) .& TVN_MASK)
  end.

Definition internal_add_timer (w : wheel) (t : Z) : wheel :=
  list_add_tail t (choose_vec w (exp_of w t)) w.

Definition timer_pending (w : wheel) (t : Z) : bool := bool_decide (t ∈ pending w).

(** [add_timer]; a timer that is already pending only gives a message. *)
Definition add_timer (w : wheel) (t : Z) : wheel :=
  if timer_pending w t then w else internal_add_timer w t.

Definition detach_timer (w : wheel) (t : Z) : wheel * Z :=
  if timer_pending w t then (list_del t w, 1) else (w, 0).

Definition mod_timer (w : wheel) (t e : Z) : wheel * Z :=
  let w := with_expires (<[t := u32 e]> (expires w)) w in
  let '(w, ret) := detach_timer w t in
  (internal_add_timer w t, ret).

Definition clear_pending (t : Z) (w : wheel) : wheel := with_pending (pending w ∖ {[t]}) w.

Definition del_timer (w : wheel) (t : Z) : wheel * Z :=
  let '(w, ret) := detach_timer w t in (clear_pending t w, ret).

(** [curr->next], [None] for the list head. *)
Fixpoint next_of (t : Z) (l : list Z) : option Z :=
  match l with
  | [] => None
  | x :: l => if x =? t then head l else next_of t l
  end.

(** The loop of [cascade_timers]; [None] when it runs out of fuel. *)
Fixpoint cascade_loop (fuel : nat) (w : wheel) (k : Z * Z) (curr : option Z) : option wheel :=
  match curr with
  | None => Some w
  | Some t =>
      match fuel with
      | O => None
      | S fuel =>
          let next := next_of t (slot w k) in
          cascade_loop fuel (internal_add_timer (list_del t w) t) k next
      end
  end.

Definition cascade_timers (w : wheel) (n : Z) : option wheel :=
  let k := (n, idx w n) in
  w ← cascade_loop (length (slot w k)) w k (head (slot w k));
  let w := with_vec (<[k := []]> (vec w)) w in
  Some (with_index (<[n := (idx w n + 1) .& TVN_MASK]> (index w)) w).

(** [do cascade_timers(tvecs[n]); while (tvecs[n]->index == 1 && ++n < NOOF_TVECS)],
    with the levels [n], [n + 1], ... that are left. *)
Fixpoint cascade_levels (levels : list Z) (w : wheel) : option wheel :=
  match levels with
  | [] => Some w
  | n :: levels =>
      w ← cascade_timers w n;
      if idx w n =? 1 then cascade_levels levels w else Some w
  end.

(** What a timer function does to the wheel. *)
Inductive op := OpAdd (t e : Z) | OpMod (t e : Z) | OpDel (t : Z).

Definition run_op (w : wheel) (o : op) : wheel :=
  match o with
  | OpAdd t e =>
      if timer_pending w t then add_timer w t
      else add_timer (with_expires (<[t := u32 e]> (expires w)) w) t
  | OpMod t e => fst (mod_timer w t e)
  | OpDel t => fst (del_timer w t)
  end.

Section Run.
(** timer->function(timer->data), as the sequence of its wheel operations. *)
Context (fn : Z -> list op).

(** The [repeat:] loop: run the timers of [tv1.vec + tv1.index]. *)
Fixpoint run_slot (fuel : nat) (w : wheel) : option (wheel * list Z) :=
  match slot w (1, idx w 1) with
  | [] => Some (w, [])
  | t :: _ =>
      match fuel with
      | O => None
      | S fuel =>
          let w := clear_pending t (fst (detach_timer w t)) in
          let w := foldl run_op w (fn t) in
          '(w, fired) ← run_slot fuel w; Some (w, t :: fired)
      end
  end.

(** One round of the loop of [run_timer_list]: the wheel and the timers run. *)
Definition run_tick (w : wheel) : option (wheel * list Z) :=
  w ← (if idx w 1 =? 0 then cascade_levels [2; 3; 4; 5] w else Some w);
  let w := with_running (Some []) w in
  '(w, fired) ← run_slot (length (slot w (1, idx w 1))) w;
  let queued := default [] (running w) in
  let w := with_running None w in
  let w := with_jiffies (u32 (timer_jiffies w + 1)) w in
  let w := with_index (<[1 := (idx w 1 + 1) .& TVR_MASK]> (index w)) w in
  Some (foldl internal_add_timer w queued, fired).

Fixpoint run_timer_list (fuel : nat) (jiffies : Z) (w : wheel) : option (wheel * list (list Z)) :=
  if 0 <=? s32 (jiffies - timer_jiffies w) then
    match fuel with
    | O => None
    | S fuel =>
        '(w, fired) ← run_tick w;
        '(w, rest) ← run_timer_list fuel jiffies w; Some (w, fired :: rest)
    end
  else Some (w, []).
End Run.

(** ** The wheel invariant *)

(** Level [n] has [vsize n] slots of [unit_ n] ticks each. *)
Definition unit_ (n : Z) : Z :=
  if n =? 1 then 1 else if n =? 2 then 256 else if n =? 3 then 16384
  else if n =? 4 then 1048576 else 67108864.
Definition vsize (n : Z) : Z := if n =? 1 then 256 else 64.

(** The tick at which a timer is due, seen from tick [T]: its expiry, or [T]
    itself when that is already past. [T] counts ticks without wrapping. *)
Definition due (w : wheel) (T t : Z) : Z := T + Z.max 0 (s32 (exp_of w t - T)).

Definition queue (w : wheel) : list Z := default [] (running w).
Definition linked (w : wheel) (t : Z) : Prop := (exists k, t ∈ slot w k) \/ t ∈ queue w.

(** [C n] counts the slots of level [n] that have been cascaded, so the slots of
    level [n] hold the timers due in units [C n] to [C n + vsize n - 1]. *)
Definition located (w : wheel) (T : Z) (C : Z -> Z) (t n i : Z) : Prop :=
  1 <= n <= 5 /\ C n <= due w T t / unit_ n < C n + vsize n /\
  (due w T t / unit_ n) mod vsize n = i /\ (2 <= n -> 0 <= s32 (exp_of w t - T)).

Definition cursor_ok (T : Z) (C : Z -> Z) : Prop :=
  0 <= T /\ C 1 = T /\
  forall n, 2 <= n <= 5 -> C n = T / unit_ n + 1 \/ C n * unit_ n = T.

Record shape (w : wheel) (T : Z) (C : Z -> Z) : Prop := {
  sh_cursor : cursor_ok T C;
  sh_jiffies : timer_jiffies w = u32 T;
  sh_index : forall n, 1 <= n <= 5 -> idx w n = C n mod vsize n;
  sh_exp : forall t, 0 <= exp_of w t < 4294967296;
  sh_loc : forall n i t, t ∈ slot w (n, i) -> located w T C t n i;
  sh_nodup : forall k, NoDup (slot w k);
  sh_uniq : forall k k' t, t ∈ slot w k -> t ∈ slot w k' -> k = k';
  sh_queue : NoDup (queue w) /\ forall k t, t ∈ queue w -> t ∉ slot w k }.

Definition pending_ok (w : wheel) : Prop := forall t, t ∈ pending w <-> linked w t.

(** Between two ticks. *)
Definition ceil_cursor (T n : Z) : Z := (T + unit_ n - 1) / unit_ n.
Definition inv (w : wheel) (T : Z) : Prop :=
  shape w T (ceil_cursor T) /\ pending_ok w /\ running w = None.

Lemma level_cases n (P : Z -> Prop) :
  1 <= n <= 5 -> P 1 -> P 2 -> P 3 -> P 4 -> P 5 -> P n.
Proof.
  intros Hn. assert (n = 1 \/ n = 2 \/ n = 3 \/ n = 4 \/ n = 5) as H by lia.
  by destruct H as [-> | [-> | [-> | [-> | ->]]]].
Qed.

Lemma unit_pos n : 0 < unit_ n.
Proof. unfold unit_. repeat case_match; lia. Qed.

Lemma ceil_cursor_ok T : 0 <= T -> cursor_ok T (ceil_cursor T).
Proof.
  intros HT. split; [done|]. split.
  - unfold ceil_cursor. cbn. rewrite Z.div_1_r. lia.
  - intros n Hn. unfold ceil_cursor. revert Hn.
    assert (forall n, 1 <= n <= 5 ->
      (T + unit_ n - 1) / unit_ n = T / unit_ n + 1 \/ (T + unit_ n - 1) / unit_ n * unit_ n = T).
    { intros m Hm. pattern m. apply level_cases; [done|..]; cbn [unit_ Z.eqb Pos.eqb]; dm. }
    intros Hn. apply H. lia.
Qed.

Lemma s32_diff e T : 0 <= e < 4294967296 ->
  let d := u32 (e - u32 T) in
  (d < 2147483648 -> s32 (e - T) = d /\ e = (T + d) mod 4294967296) /\
  (2147483648 <= d -> s32 (e - T) < 0) /\ (s32 d < 0 <-> 2147483648 <= d).
Proof.
  intros He d. subst d. unfold u32, s32. repeat split; intros; dm.
Qed.

Lemma level_slot e k :
  (e .>> k) .& TVN_MASK = (e .>> k) mod 64 /\ e .& TVR_MASK = e mod 256.
Proof.
  change TVN_MASK with (Z.ones 6). change TVR_MASK with (Z.ones 8).
  by rewrite !Z.land_ones by lia.
Qed.

(** Where [internal_add_timer] puts a timer: at level 1, or at a level whose
    unit is not more than the time left. *)
Lemma choose_located w T C t :
  shape w T C -> running w = None ->
  exists n i, choose_vec w (exp_of w t) = Slot n i /\ located w T C t n i /\
    (n = 1 \/ unit_ n <= due w T t - T).
Proof.
  intros [(HT & HC1 & HC) Hj Hi He _ _ _ _] Hr.
  specialize (Hi 1 ltac:(lia)). specialize (He t).
  pose proof (HC 2 ltac:(lia)) as C2. pose proof (HC 3 ltac:(lia)) as C3.
  pose proof (HC 4 ltac:(lia)) as C4. pose proof (HC 5 ltac:(lia)) as C5. clear HC.
  unfold choose_vec, located, due. rewrite Hr, Hj.
  set (e := exp_of w t) in *. destruct (s32_diff e T He) as (Hnear & Hpast & Hsign).
  set (d := u32 (e - u32 T)) in *. pose proof (u32_range (e - u32 T)) as Hd. fold d in Hd.
  change TVR_SIZE with 256. change (1 .<< (TVR_BITS + TVN_BITS)) with 16384.
  change (1 .<< (TVR_BITS + 2 * TVN_BITS)) with 1048576.
  change (1 .<< (TVR_BITS + 3 * TVN_BITS)) with 67108864.
  change (TVR_BITS + 3 * TVN_BITS) with 26. change (TVR_BITS + 2 * TVN_BITS) with 20.
  change (TVR_BITS + TVN_BITS) with 14. change TVR_BITS with 8.
  rewrite !(proj1 (level_slot e _)), !(proj2 (level_slot e 0)), !Z.shiftr_div_pow2 by lia.
  change (2 ^ 8) with 256. change (2 ^ 14) with 16384. change (2 ^ 20) with 1048576.
  change (2 ^ 26) with 67108864.
  destruct (Z_lt_le_dec d 2147483648) as [Hlt|Hge].
  - destruct (Hnear Hlt) as [-> Ee]. clear Hnear Hpast. rewrite Z.max_r by lia.
    destruct (Z.ltb_spec d 256);
      [exists 1|destruct (Z.ltb_spec d 16384);
        [exists 2|destruct (Z.ltb_spec d 1048576);
          [exists 3|destruct (Z.ltb_spec d 67108864);
            [exists 4|destruct (Z.ltb_spec (s32 d) 0); [lia|exists 5]]]]];
      eexists; (split; [reflexivity|]); cbn [unit_ vsize Z.eqb Pos.eqb] in *;
      (split; [|lia]); (split; [lia|]); split; [dm|split; [dm|lia]|dm|split; [dm|lia]|dm|split; [dm|lia]|dm|split; [dm|lia]|dm|split; [dm|lia]].
  - specialize (Hpast Hge). destruct (Z.ltb_spec d 256); [lia|].
    destruct (Z.ltb_spec d 16384); [lia|]. destruct (Z.ltb_spec d 1048576); [lia|].
    destruct (Z.ltb_spec d 67108864); [lia|]. destruct (Z.ltb_spec (s32 d) 0); [|lia].
    exists 1. eexists. split; [reflexivity|]. cbn [unit_ vsize Z.eqb Pos.eqb] in *.
    rewrite Z.max_l, Z.add_0_r, Z.div_1_r by lia. split; [|lia].
    split; [lia|]. split; [lia|]. split; [by rewrite Hi, HC1|lia].
Qed.

(** ** Lists of the wheel under insertion and removal *)

Lemma slot_add t n i w k :
  slot (list_add_tail t (Slot n i) w) k =
  if decide (k = (n, i)) then slot w k ++ [t] else slot w k.
Proof.
  unfold list_add_tail, slot. cbn. case_decide as H.
  - by rewrite H, lookup_insert_eq.
  - by rewrite lookup_insert_ne.
Qed.

Lemma slot_del t w k : slot (list_del t w) k = remove_timer t (slot w k).
Proof. unfold list_del, slot. cbn. rewrite lookup_fmap. by destruct (vec w !! k). Qed.

Lemma queue_del t w : queue (list_del t w) = remove_timer t (queue w).
Proof. unfold list_del, queue. cbn. by destruct (running w). Qed.

Lemma elem_of_remove t x l : x ∈ remove_timer t l <-> x <> t /\ x ∈ l.
Proof. unfold remove_timer. by rewrite list_elem_of_filter. Qed.

Lemma remove_notin t l : t ∉ l -> remove_timer t l = l.
Proof.
  unfold remove_timer. induction l as [|x l IH]; [done|].
  intros H. apply not_elem_of_cons in H as [H1 H2].
  rewrite filter_cons_True by done. by rewrite IH.
Qed.

Lemma remove_head t l : NoDup (t :: l) -> remove_timer t (t :: l) = l.
Proof.
  intros H. apply NoDup_cons in H as [H _]. unfold remove_timer.
  rewrite filter_cons_False by (intros ?; done). by apply remove_notin.
Qed.

Lemma linked_del t w x : linked (list_del t w) x <-> linked w x /\ x <> t.
Proof.
  unfold linked. rewrite queue_del, elem_of_remove. setoid_rewrite slot_del.
  setoid_rewrite elem_of_remove. naive_solver.
Qed.

Lemma linked_slot t n i w x :
  linked (list_add_tail t (Slot n i) w) x <-> x = t \/ linked w x.
Proof.
  unfold linked. change (queue (list_add_tail t (Slot n i) w)) with (queue w).
  setoid_rewrite slot_add. split.
  - intros [[k Hk]|]; [|by auto]. case_decide; [|by eauto].
    apply elem_of_app in Hk as [|Hk%list_elem_of_singleton]; eauto.
  - intros [->|[[k Hk]|]]; [..|by auto]; left.
    + exists (n, i). rewrite decide_True by done. set_solver.
    + exists k. case_decide; set_solver.
Qed.

Lemma linked_queued t w x :
  is_Some (running w) -> linked (list_add_tail t Queued w) x <-> x = t \/ linked w x.
Proof.
  intros [l Hl]. unfold linked, queue, list_add_tail, slot. cbn. rewrite Hl. cbn.
  rewrite elem_of_app, list_elem_of_singleton. naive_solver.
Qed.

Lemma shape_del w T C t : shape w T C -> shape (list_del t w) T C.
Proof.
  intros [Hc Hj Hi He Hl Hn Hu [Hq Hd]]. split; [done..| | | |].
  - intros n i x. rewrite slot_del, elem_of_remove. intros [_ H]. by apply Hl.
  - intros k. rewrite slot_del. apply NoDup_filter, Hn.
  - intros k k' x. rewrite !slot_del, !elem_of_remove. intros [_ H] [_ H']. by eapply Hu.
  - rewrite queue_del. split; [by apply NoDup_filter|].
    intros k x. rewrite slot_del, !elem_of_remove. intros [_ H] [_ H']. by eapply Hd.
Qed.

Lemma NoDup_snoc (l : list Z) t : NoDup l -> t ∉ l -> NoDup (l ++ [t]).
Proof. intros. apply NoDup_app. split; [done|]. split; [set_solver|apply NoDup_singleton]. Qed.

Lemma shape_slot w T C t n i :
  shape w T C -> ~ linked w t -> located w T C t n i ->
  shape (list_add_tail t (Slot n i) w) T C.
Proof.
  intros [Hc Hj Hi He Hl Hn Hu [Hq Hd]] Ht Hloc.
  assert (forall k, t ∉ slot w k) as Hs by (intros k ?; apply Ht; left; by exists k).
  split; [done..| | | |].
  - intros m j x. rewrite slot_add. case_decide as E; [|by apply Hl].
    injection E as -> ->. rewrite elem_of_app, list_elem_of_singleton.
    intros [H| ->]; [by apply Hl|done].
  - intros k. rewrite slot_add. case_decide; [|done]. by apply NoDup_snoc.
  - intros k k' x. rewrite !slot_add.
    assert (forall k, x ∈ slot w k -> x <> t) as Hx by (intros ? ? ->; by eapply Hs).
    do 2 case_decide; subst; [done|..]; rewrite ?elem_of_app, ?list_elem_of_singleton;
      naive_solver.
  - split; [done|]. intros k x Hx. rewrite slot_add.
    assert (x <> t) by (intros ->; apply Ht; by right).
    case_decide; [|by apply Hd]. rewrite elem_of_app, list_elem_of_singleton.
    intros [H'|]; [by eapply Hd|done].
Qed.

Lemma shape_queued w T C t :
  shape w T C -> ~ linked w t -> shape (list_add_tail t Queued w) T C.
Proof.
  intros [Hc Hj Hi He Hl Hn Hu [Hq Hd]] Ht. split; [done..|].
  unfold queue, list_add_tail in *. cbn. destruct (running w) as [l|] eqn:E; cbn in *; [|done].
  assert (t ∉ l) by (intros ?; apply Ht; right; unfold queue; by rewrite E).
  split; [by apply NoDup_snoc|]. intros k x. unfold slot. cbn.
  rewrite elem_of_app, list_elem_of_singleton. intros [H'| ->]; [by apply Hd|].
  intros ?. apply Ht. left. by exists k.
Qed.

(** [internal_add_timer] on a timer that is on no list. *)
Lemma internal_add_ok w T C t :
  shape w T C -> ~ linked w t ->
  shape (internal_add_timer w t) T C /\
  forall x, linked (internal_add_timer w t) x <-> x = t \/ linked w x.
Proof.
  intros Hs Ht. unfold internal_add_timer.
  destruct (running w) as [l|] eqn:E.
  - assert (choose_vec w (exp_of w t) = Queued) as -> by (unfold choose_vec; by rewrite E).
    split; [by apply shape_queued|]. intros x. apply linked_queued. by rewrite E.
  - destruct (choose_located w T C t Hs E) as (n & i & -> & Hloc & _).
    split; [by apply shape_slot|]. intros x. apply linked_slot.
Qed.

Lemma shape_expires w T C t e :
  shape w T C -> ~ linked w t -> shape (with_expires (<[t := u32 e]> (expires w)) w) T C.
Proof.
  intros [Hc Hj Hi He Hl Hn Hu Hq] Ht.
  set (w' := with_expires _ w).
  assert (forall x, x <> t -> exp_of w' x = exp_of w x) as Hx.
  { intros x Hne. unfold exp_of, w'. cbn. by rewrite lookup_insert_ne. }
  split; [done..| | |done|done|done].
  - intros x. destruct (decide (x = t)) as [->|]; [|rewrite Hx; auto].
    unfold exp_of, w'. cbn. rewrite lookup_insert_eq. cbn. apply u32_range.
  - intros n i x H. assert (x <> t) by (intros ->; apply Ht; left; by eexists).
    specialize (Hl n i x H). unfold located, due in *. by rewrite !Hx.
Qed.

(** ** The three entry points *)

Definition live (w : wheel) (T : Z) (C : Z -> Z) : Prop := shape w T C /\ pending_ok w.

Lemma shape_pending w T C p : shape w T C -> shape (with_pending p w) T C.
Proof. intros []. by split. Qed.

Lemma not_linked w t : pending_ok w -> t ∉ pending w -> ~ linked w t.
Proof. intros Hp Ht ?. by apply Ht, Hp. Qed.

Lemma internal_add_pending w t x :
  x ∈ pending (internal_add_timer w t) <-> x = t \/ x ∈ pending w.
Proof.
  unfold internal_add_timer, list_add_tail.
  destruct (choose_vec w (exp_of w t)); cbn; set_solver.
Qed.

Lemma internal_add_frame w t :
  expires (internal_add_timer w t) = expires w /\
  (is_Some (running (internal_add_timer w t)) <-> is_Some (running w)).
Proof.
  unfold internal_add_timer, list_add_tail.
  destruct (choose_vec w (exp_of w t)); cbn; [done|]. by rewrite fmap_is_Some.
Qed.

Lemma internal_add_live w T C t :
  live w T C -> t ∉ pending w -> live (internal_add_timer w t) T C.
Proof.
  intros [Hs Hp] Ht. destruct (internal_add_ok w T C t Hs) as [Hs' Hl]; [by apply not_linked|].
  split; [done|]. intros x. rewrite internal_add_pending, Hl, (Hp x). done.
Qed.

Lemma del_timer_live w T C t : live w T C -> live (fst (del_timer w t)) T C.
Proof.
  intros [Hs Hp]. unfold del_timer, detach_timer, timer_pending.
  case_bool_decide as Ht; cbn.
  - split; [by apply shape_pending, shape_del|]. intros x. cbn.
    change (linked (clear_pending t (list_del t w)) x) with (linked (list_del t w) x).
    rewrite linked_del, <- (Hp x). set_solver.
  - split; [by apply shape_pending|]. intros x. cbn.
    change (linked (clear_pending t w) x) with (linked w x). rewrite <- (Hp x). set_solver.
Qed.

Lemma expires_live w T C t e :
  live w T C -> t ∉ pending w -> live (with_expires (<[t := u32 e]> (expires w)) w) T C.
Proof. intros [Hs Hp] Ht. split; [|done]. apply shape_expires; [done|by apply not_linked]. Qed.

(** [mod_timer] is a removal, a new expiry and an insertion. *)
Lemma mod_timer_step w t e :
  let w' := fst (del_timer w t) in
  let v := with_expires (<[t := u32 e]> (expires w')) w' in
  exists u, fst (mod_timer w t e) = internal_add_timer u t /\
    with_pending ∅ u = with_pending ∅ v /\ forall x, x = t \/ (x ∈ pending u <-> x ∈ pending v).
Proof.
  unfold del_timer, mod_timer, detach_timer, timer_pending. cbn [pending with_expires].
  case_bool_decide as Ht; cbn [fst]; eexists; (split; [reflexivity|]); (split; [reflexivity|]);
    intros x; destruct (decide (x = t)); [by left|right|by left|right]; cbn; set_solver.
Qed.

Lemma mod_timer_live w T C t e : live w T C -> live (fst (mod_timer w t e)) T C.
Proof.
  intros Hlive. destruct (mod_timer_step w t e) as (u & -> & Hu & Hp).
  set (w' := fst (del_timer w t)) in *. assert (live w' T C) as Hd by by apply del_timer_live.
  assert (t ∉ pending w') as Ht.
  { unfold w', del_timer. destruct (detach_timer w t). cbn. set_solver. }
  apply (expires_live w' T C t e) in Hd as [Hs Hpok]; [|done].
  set (v := with_expires _ _) in *.
  assert (shape u T C) as Hsu.
  { apply (shape_pending _ _ _ (pending u)) in Hs. apply (f_equal (with_pending (pending u))) in Hu.
    revert Hs. cbn in *. destruct u; cbn in *. by injection Hu as -> -> -> -> ->. }
  assert (forall x, linked u x <-> linked v x) as Hlk.
  { intros x. change (linked (with_pending ∅ u) x <-> linked (with_pending ∅ v) x). by rewrite Hu. }
  destruct (internal_add_ok u T C t Hsu) as [Hs' Hl'].
  { rewrite Hlk. apply not_linked; [done|]. exact Ht. }
  split; [done|]. intros x. rewrite internal_add_pending, Hl', Hlk, <- (Hpok x).
  destruct (Hp x); intuition.
Qed.

Lemma run_op_live w T C o : live w T C -> live (run_op w o) T C.
Proof.
  intros H. destruct o as [t e|t e|t]; cbn; [|by apply mod_timer_live|by apply del_timer_live].
  unfold add_timer. destruct (timer_pending w t) eqn:E; [done|].
  apply bool_decide_eq_false_1 in E.
  replace (timer_pending _ t) with false
    by (symmetry; by apply bool_decide_eq_false_2).
  apply internal_add_live; [by apply expires_live|done].
Qed.

(** *** What the operations leave alone while a tick runs *)

Definition touches (o : op) : list Z :=
  match o with OpAdd _ _ => [] | OpMod t _ => [t] | OpDel t => [t] end.

Definition removes (dead l : list Z) : list Z := filter (fun x => x ∉ dead) l.

Lemma removes_nil l : removes [] l = l.
Proof.
  unfold removes. induction l; [done|]. rewrite filter_cons_True by set_solver. by f_equal.
Qed.

Lemma removes_app a b l : removes b (removes a l) = removes (a ++ b) l.
Proof.
  unfold removes. rewrite list_filter_filter. apply list_filter_iff. intros x. set_solver.
Qed.

Lemma removes_one t l : removes [t] l = remove_timer t l.
Proof. unfold removes, remove_timer. apply list_filter_iff. set_solver. Qed.

Lemma elem_of_removes x dead l : x ∈ removes dead l <-> (x ∉ dead) /\ x ∈ l.
Proof. unfold removes. by rewrite list_elem_of_filter. Qed.

Lemma queued_slots w t k :
  is_Some (running w) -> slot (internal_add_timer w t) k = slot w k.
Proof.
  intros [l E]. unfold internal_add_timer, choose_vec. rewrite E. done.
Qed.

(** While [run_timer_list_running] is set, an operation removes the timers it
    deletes or modifies from their slots and puts nothing into a slot. *)
Lemma run_op_running w T C o :
  live w T C -> is_Some (running w) ->
  is_Some (running (run_op w o)) /\
  (forall k, slot (run_op w o) k = removes (touches o) (slot w k)) /\
  (forall x, x ∈ pending w -> x ∉ touches o ->
     x ∈ pending (run_op w o) /\ exp_of (run_op w o) x = exp_of w x).
Proof.
  intros [Hs Hp] Hr.
  assert (forall t k, t ∉ pending w -> remove_timer t (slot w k) = slot w k) as Hskip.
  { intros t k Ht. apply remove_notin. intros ?. apply Ht, Hp. left. by eexists. }
  destruct o as [t e|t e|t]; cbn [run_op touches].
  - unfold add_timer. destruct (timer_pending w t) eqn:E.
    { by setoid_rewrite removes_nil. }
    apply bool_decide_eq_false_1 in E.
    replace (timer_pending _ t) with false by (symmetry; by apply bool_decide_eq_false_2).
    destruct (internal_add_frame (with_expires (<[t:=u32 e]> (expires w)) w) t) as [He Hrun].
    split; [by apply Hrun|]. split.
    + intros k. rewrite queued_slots by done. by rewrite removes_nil.
    + intros x Hx _. rewrite internal_add_pending. split; [by right|].
      unfold exp_of. rewrite He. cbn. by rewrite lookup_insert_ne by (intros ->; done).
  - unfold mod_timer, detach_timer, timer_pending. cbn [pending with_expires].
    setoid_rewrite removes_one.
    case_bool_decide as Ht; cbn [fst].
    + set (u := list_del t _). assert (is_Some (running u)) as Hu by by apply fmap_is_Some.
      destruct (internal_add_frame u t) as [He Hrun]. split; [by apply Hrun|]. split.
      * intros k. rewrite queued_slots by done. unfold u. by rewrite slot_del.
      * intros x Hx Hne. rewrite internal_add_pending. split; [by right|].
        unfold exp_of. rewrite He. cbn. rewrite lookup_insert_ne by set_solver. done.
    + set (u := with_expires _ w).
      destruct (internal_add_frame u t) as [He Hrun]. split; [by apply Hrun|]. split.
      * intros k. rewrite queued_slots by done. by rewrite Hskip.
      * intros x Hx Hne. rewrite internal_add_pending. split; [by right|].
        unfold exp_of. rewrite He. cbn. rewrite lookup_insert_ne by set_solver. done.
  - unfold del_timer, detach_timer, timer_pending. setoid_rewrite removes_one.
    case_bool_decide as Ht; cbn [fst].
    + split; [by apply fmap_is_Some|]. split; [intros k; apply slot_del|].
      intros x Hx Hne. cbn. split; [set_solver|done].
    + split; [done|]. split; [intros k; by rewrite Hskip|].
      intros x Hx Hne. cbn. split; [set_solver|done].
Qed.

Lemma run_ops_running T C ops : forall w,
  live w T C -> is_Some (running w) ->
  live (foldl run_op w ops) T C /\ is_Some (running (foldl run_op w ops)) /\
  (forall k, slot (foldl run_op w ops) k = removes (ops ≫= touches) (slot w k)) /\
  (forall x, x ∈ pending w -> x ∉ (ops ≫= touches) ->
     x ∈ pending (foldl run_op w ops) /\ exp_of (foldl run_op w ops) x = exp_of w x).
Proof.
  induction ops as [|o ops IH]; intros w Hl Hr.
  - cbn. setoid_rewrite removes_nil. auto.
  - destruct (run_op_running w T C o Hl Hr) as (Hr1 & Hs1 & Hp1).
    destruct (IH (run_op w o)) as (Hl2 & Hr2 & Hs2 & Hp2);
      [by apply run_op_live|done|]. cbn [foldl].
    split; [done|]. split; [done|]. split.
    + intros k. rewrite Hs2, Hs1, removes_app. done.
    + intros x Hx Hn. cbn in Hn. apply not_elem_of_app in Hn as [Hn1 Hn2].
      destruct (Hp1 x Hx Hn1) as [Hx1 <-]. by apply Hp2.
Qed.

(** ** One tick *)

(** What a tick should run: the due timers in order, except those that the
    function of an earlier one has deleted or modified. *)
Fixpoint fire_spec (fn : Z -> list op) (dead l : list Z) : list Z :=
  match l with
  | [] => []
  | t :: l =>
      if bool_decide (t ∈ dead) then fire_spec fn dead l
      else t :: fire_spec fn ((fn t ≫= touches) ++ dead) l
  end.

Lemma fire_spec_removes fn l : forall a dead,
  fire_spec fn (a ++ dead) l = fire_spec fn a (removes dead l).
Proof.
  unfold removes. induction l as [|t l IH]; intros a dead; [done|]. cbn [fire_spec].
  destruct (decide (t ∈ dead)).
  - rewrite filter_cons_False by (intros H; by apply H). rewrite bool_decide_true by set_solver.
    apply IH.
  - rewrite filter_cons_True by done. cbn [fire_spec].
    case_bool_decide as H; case_bool_decide as H'; [|set_solver..|].
    + apply IH.
    + by rewrite app_assoc, IH.
Qed.

(** The timers whose expiry or queueing a list of fired timers may change. *)
Definition touched (fn : Z -> list op) (fired : list Z) : list Z :=
  fired ≫= (fun t => fn t ≫= touches).

Lemma run_slot_ok fn T C : forall fuel w,
  live w T C -> is_Some (running w) ->
  (length (slot w (1, T mod 256)%Z) <= fuel)%nat ->
  exists w', run_slot fn fuel w = Some (w', fire_spec fn [] (slot w (1, T mod 256))) /\
    live w' T C /\ is_Some (running w') /\ slot w' (1, T mod 256) = [] /\
    forall x, x ∈ pending w -> x ∉ slot w (1, T mod 256) ->
      x ∉ touched fn (fire_spec fn [] (slot w (1, T mod 256))) ->
      x ∈ pending w' /\ exp_of w' x = exp_of w x.
Proof.
  induction fuel as [|fuel IH]; intros w Hl Hr Hf;
    pose proof (sh_index _ _ _ (proj1 Hl) 1 ltac:(lia)) as Hi;
    rewrite (proj1 (proj2 (sh_cursor _ _ _ (proj1 Hl)))) in Hi; change (vsize 1) with 256 in Hi;
    destruct (slot w (1, T mod 256)) as [|t l] eqn:E; cbn [run_slot]; rewrite Hi, E.
  1, 3: by exists w.
  { cbn in Hf. lia. }
  set (w1 := clear_pending t _).
  assert (w1 = fst (del_timer w t)) as Hw1 by (unfold w1, del_timer; by destruct (detach_timer w t)).
  assert (live w1 T C) as Hl1 by (rewrite Hw1; by apply del_timer_live).
  assert (t ∈ pending w) as Ht by (apply (proj2 Hl); left; exists (1, T mod 256); rewrite E; left).
  pose proof (run_op_running w T C (OpDel t) Hl Hr) as (Hr1 & Hs1 & Hp1).
  cbn [run_op] in Hr1, Hs1, Hp1. rewrite <- Hw1 in Hr1, Hs1, Hp1.
  assert (slot w1 (1, T mod 256) = l) as E1.
  { rewrite Hs1, E. cbn [touches]. rewrite removes_one. apply remove_head.
    rewrite <- E. apply (sh_nodup _ _ _ (proj1 Hl)). }
  destruct (run_ops_running T C (fn t) w1 Hl1 Hr1) as (Hl2 & Hr2 & Hs2 & Hp2).
  set (w2 := foldl run_op w1 (fn t)) in *.
  specialize (Hs2 (1, T mod 256)). rewrite E1 in Hs2.
  destruct (IH w2 Hl2 Hr2) as (w' & Hrun & Hl' & Hr' & Hs' & Hp').
  { rewrite Hs2. unfold removes. etransitivity; [apply length_filter|]. cbn in Hf. lia. }
  exists w'. rewrite Hrun. cbn [mbind option_bind fire_spec].
  rewrite bool_decide_false, fire_spec_removes, removes_nil by set_solver.
  rewrite Hs2 in *. rewrite <- fire_spec_removes in *. cbn [app] in *.
  do 4 (split; [done|]). intros x Hx Hnx Hn.
  unfold touched in Hn. cbn in Hn. apply not_elem_of_app in Hn as [Hn1 Hn2].
  apply not_elem_of_cons in Hnx as [Hne Hnl].
  destruct (Hp1 x Hx) as [Hx1 <-]; [set_solver|]. destruct (Hp2 x Hx1 Hn1) as [Hx2 <-].
  apply Hp'; [done| |done]. rewrite elem_of_removes. tauto.
Qed.

(** ** Cascading *)

(** A timer in the slot at the cursor of level [n] is due within [unit_ n] ticks
    and so moves to a lower level. *)
Lemma cascade_target w T C t n m i :
  shape w T C -> 2 <= n <= 5 -> C n * unit_ n = T ->
  t ∈ slot w (n, C n mod 64) -> (m = 1 \/ unit_ m <= due w T t - T) -> (m, i) <> (n, C n mod 64).
Proof.
  intros Hs Hn Hc Ht Hm E. injection E as -> ->.
  destruct (sh_loc _ _ _ Hs _ _ _ Ht) as (_ & Hb & Hmod & _).
  destruct Hm as [->|Hm]; [lia|].
  assert (vsize n = 64) as Hv by (unfold vsize; by destruct (Z.eqb_spec n 1); [lia|]).
  rewrite Hv in *. pose proof (unit_pos n).
  assert (due w T t / unit_ n = C n) by (revert Hb Hmod; clear; dm).
  pose proof (Z.div_mod (due w T t) (unit_ n)). pose proof (Z.mod_pos_bound (due w T t) (unit_ n)).
  nia.
Qed.

(** The timers of a list that are due at tick [T], in the order of the list. *)
Definition due_in (w : wheel) (T : Z) (k : Z * Z) : list Z := filter (fun x => due w T x = T) (slot w k).
Lemma filter_due w w' T (l : list Z) : expires w' = expires w -> filter (fun x => due w' T x = T) l = filter (fun x => due w T x = T) l.
Proof. intros He. apply list_filter_iff. intros x. unfold due, exp_of. by rewrite He. Qed.
Lemma due_in_same w w' T k : expires w' = expires w -> slot w' k = slot w k -> due_in w' T k = due_in w T k.
Proof. intros He Hk. unfold due_in. by rewrite Hk, (filter_due w). Qed.

(** A timer that moves from a list to where [internal_add_timer] puts it goes behind the timers of the
    tick when it is due; the other lists keep the timers that are due. *)
Lemma due_in_moved w T C t m i k : shape w T C -> running w = None -> t ∉ slot w k ->
  choose_vec w (exp_of w t) = Slot m i -> located w T C t m i -> (m = 1 \/ unit_ m <= due w T t - T) ->
  due_in (internal_add_timer w t) T k =
    due_in w T k ++ (if decide (k = (1, T mod 256) /\ due w T t = T) then [t] else []).
Proof.
  intros Hs Hr Hk Hch (_ & _ & Hi & _) Hm. unfold due_in, internal_add_timer. rewrite Hch, slot_add.
  rewrite (filter_due w) by done. pose proof (unit_pos m). destruct (decide (due w T t = T)) as [Hd|Hd].
  - destruct Hm as [->|Hm]; [|lia]. rewrite Hd in Hi. change (unit_ 1) with 1 in Hi. change (vsize 1) with 256 in Hi. rewrite Z.div_1_r in Hi. subst i.
    destruct (decide (k = (1, T mod 256))) as [->|Hne].
    + rewrite decide_True by done. rewrite filter_app. f_equal. by rewrite filter_cons_True.
    + rewrite decide_False by tauto. by rewrite app_nil_r.
  - rewrite (decide_False (P := _ /\ _)) by tauto. rewrite app_nil_r. case_decide; [|done]. rewrite filter_app, filter_cons_False by done. apply app_nil_r.
Qed.

Lemma cascade_loop_ok n T C l : forall w,
  shape w T C -> running w = None -> 2 <= n <= 5 -> C n * unit_ n = T ->
  slot w (n, C n mod 64) = l ->
  exists w', cascade_loop (length l) w (n, C n mod 64) (head l) = Some w' /\
    shape w' T C /\ running w' = None /\ slot w' (n, C n mod 64) = [] /\
    expires w' = expires w /\
    (forall x, linked w' x <-> linked w x) /\
    (forall x, x ∈ pending w' <-> x ∈ pending w \/ x ∈ l) /\
    index w' = index w /\
    (forall k, k <> (n, C n mod 64) -> due_in w' T k =
       due_in w T k ++ (if decide (k = (1, T mod 256)) then filter (fun x => due w T x = T) l else [])).
Proof.
  induction l as [|t l IH]; intros w Hs Hr Hn Hc E.
  { exists w. repeat (split; [done|]). split; [set_solver|]. split; [done|]. intros k _. destruct (decide _); by rewrite app_nil_r. }
  assert (t ∈ slot w (n, C n mod 64)) as Ht by (rewrite E; left).
  pose proof (sh_nodup _ _ _ Hs (n, C n mod 64)) as Hnd. rewrite E in Hnd.
  cbn [cascade_loop length head]. rewrite E. cbn [next_of]. rewrite Z.eqb_refl.
  set (w1 := list_del t w). assert (shape w1 T C) as Hs1 by by apply shape_del.
  assert (running w1 = None) as Hr1 by (unfold w1; cbn; by rewrite Hr).
  assert (~ linked w1 t) as Hl1 by (unfold w1; rewrite linked_del; tauto).
  destruct (internal_add_ok w1 T C t Hs1 Hl1) as [Hs2 Hl2].
  destruct (internal_add_frame w1 t) as [He2 Hr2].
  destruct (choose_located w1 T C t Hs1 Hr1) as (m & i & Hch & Hloc & Hm).
  pose proof (cascade_target w T C t n m i Hs Hn Hc Ht Hm) as Hne.
  destruct (IH (internal_add_timer w1 t)) as (w' & Hrun & Hs' & Hr' & Hsl & He & Hl & Hp & Hix & Hdue);
    [done| |done|done| |].
  - destruct (running (internal_add_timer w1 t)) eqn:Er; [|done].
    destruct (proj1 Hr2) as [? H]; [done|]. by rewrite Hr1 in H.
  - unfold internal_add_timer. rewrite Hch, slot_add, decide_False by done.
    unfold w1. rewrite slot_del, E. by apply remove_head.
  - exists w'. rewrite Hrun. do 4 (split; [done|]). split; [by rewrite He, He2|]. split.
    + intros x. rewrite Hl, Hl2. unfold w1. rewrite linked_del.
      destruct (decide (x = t)) as [->|]; [|tauto].
      split; [|by left]. intros _. left. by eexists.
    + split; [intros x; rewrite Hp, internal_add_pending; set_solver|]. split.
      { rewrite Hix. unfold internal_add_timer. by rewrite Hch. }
      intros k Hk. rewrite Hdue by done. assert (Hout : t ∉ slot w k) by (intros H; apply Hk; exact (sh_uniq _ _ _ Hs _ _ _ H Ht)).
      rewrite (due_in_moved w1 T C t m i k) by (try done; unfold w1; rewrite slot_del, elem_of_remove; tauto).
      rewrite (due_in_same w w1) by (try done; unfold w1; rewrite slot_del; by apply remove_notin).
      rewrite <- app_assoc, (filter_due w), filter_cons by (by rewrite He2). f_equal. change (due w1 T t) with (due w T t).
      destruct (decide (k = (1, T mod 256))) as [Hk1|Hk1]; [|by rewrite decide_False by tauto].
      destruct (decide (due w T t = T)); [by rewrite decide_True|by rewrite decide_False by tauto].
Qed.

Definition bump (C : Z -> Z) (n m : Z) : Z := if m =? n then C m + 1 else C m.

(** The due timers of level [n] go behind those of the tick, the other levels keep theirs. *)
Definition moves (w w' : wheel) (T n : Z) : Prop :=
  due_in w' T (1, T mod 256) = due_in w T (1, T mod 256) ++ due_in w T (n, idx w n) /\
  forall m, 2 <= m <= 5 -> m <> n -> due_in w' T (m, idx w' m) = due_in w T (m, idx w m).

Lemma cascade_timers_ok w T C n :
  live w T C -> running w = None -> 2 <= n <= 5 -> C n * unit_ n = T ->
  exists w', cascade_timers w n = Some w' /\ live w' T (bump C n) /\ running w' = None /\
    expires w' = expires w /\ (forall x, x ∈ pending w' <-> x ∈ pending w) /\ moves w w' T n.
Proof.
  intros [Hs Hpok] Hr Hn Hc. unfold cascade_timers.
  assert (vsize n = 64) as Hv by (unfold vsize; by destruct (Z.eqb_spec n 1); [lia|]).
  rewrite (sh_index _ _ _ Hs n), Hv by lia.
  destruct (cascade_loop_ok n T C _ w Hs Hr Hn Hc eq_refl)
    as (w1 & -> & Hs1 & Hr1 & Hsl & He & Hl & Hp & Hix & Hdue).
  cbn [mbind option_bind]. eexists. split; [reflexivity|].
  set (w2 := with_index _ _).
  assert (forall k, slot w2 k = slot w1 k) as Hk.
  { intros k. unfold w2, slot at 1. cbn. destruct (decide (k = (n, C n mod 64))) as [->|].
    - by rewrite lookup_insert_eq, Hsl.
    - by rewrite lookup_insert_ne. }
  assert (forall x, x ∈ pending w1 <-> x ∈ pending w) as Hp1.
  { intros x. rewrite Hp. split; [|by left]. intros [|H]; [done|]. apply Hpok. left. by eexists. }
  assert (forall k, k <> (n, C n mod 64) -> due_in w2 T k = due_in w T k ++
    (if decide (k = (1, T mod 256)) then due_in w T (n, C n mod 64) else [])) as Hd2.
  { intros k Hne. by rewrite (due_in_same w1), Hdue by done. }
  assert (idx w n = C n mod 64) as Hin by (rewrite (sh_index _ _ _ Hs n), Hv by lia; done).
  split; [split|split; [done|split; [done|split; [exact Hp1|split]]]].
  - destruct Hs1 as [(HT & HC1 & HC) Hj Hi Hx Hloc Hnd Hu [Hq Hd]]. split.
    + split; [done|]. split; [unfold bump; destruct (Z.eqb_spec 1 n); lia|].
      intros m Hm. unfold bump. destruct (Z.eqb_spec m n) as [->|]; [|by apply HC].
      left. rewrite <- Hc, Z.div_mul by (pose proof (unit_pos n); lia). lia.
    + done.
    + intros m Hm. unfold w2, idx, bump. cbn. destruct (Z.eqb_spec m n) as [->|].
      * rewrite lookup_insert_eq. cbn. change (default 0 (index w1 !! n)) with (idx w1 n).
        rewrite (Hi n) by lia. change TVN_MASK with (Z.ones 6). rewrite Z.land_ones by lia.
        rewrite Hv. change (2 ^ 6) with 64. dm.
      * rewrite lookup_insert_ne by done. by apply Hi.
    + done.
    + intros m i x. rewrite Hk. intros Hx1. pose proof (Hloc m i x Hx1) as (H1 & H2 & H3 & H4).
      split; [done|]. change (due w2 T x) with (due w1 T x). change (exp_of w2 x) with (exp_of w1 x).
      split; [|done]. unfold bump. destruct (Z.eqb_spec m n) as [->|]; [|done].
      enough (due w1 T x / unit_ n <> C n) by lia. intros Heq. rewrite Heq, Hv in H3. subst i.
      rewrite Hsl in Hx1. set_solver.
    + intros k. by rewrite Hk.
    + intros k k' x. rewrite !Hk. apply Hu.
    + split; [done|]. intros k x. rewrite Hk. apply Hd.
  - intros x. change (pending w2) with (pending w1). rewrite Hp1, (Hpok x), <- (Hl x).
    unfold linked. change (queue w2) with (queue w1). by setoid_rewrite Hk.
  - rewrite Hin, Hd2 by (intros [= ]; lia). by rewrite decide_True.
  - intros m Hm Hne. assert (idx w2 m = idx w m) as -> by (unfold w2, idx; cbn; rewrite lookup_insert_ne by done; by rewrite Hix).
    rewrite Hd2 by congruence. rewrite decide_False by (intros [= ]; lia). apply app_nil_r.
Qed.

(** [C] after the cascades of tick [T]. *)
Definition past_cursor (T : Z) (C : Z -> Z) : Prop :=
  C 1 = T /\ forall n, 2 <= n <= 5 -> C n = T / unit_ n + 1.

(** Levels below [n] have been cascaded, [T] is at the start of a slot of level [n]. *)
Definition at_level (T : Z) (C : Z -> Z) (n : Z) : Prop :=
  C 1 = T /\ T mod unit_ n = 0 /\ forall m, 2 <= m <= 5 ->
    C m = if m <? n then T / unit_ m + 1 else ceil_cursor T m.

Lemma unit_next n : 2 <= n < 5 -> unit_ (n + 1) = 64 * unit_ n.
Proof.
  intros Hn. assert (n = 2 \/ n = 3 \/ n = 4) as H by lia. by destruct H as [-> | [-> | ->]].
Qed.

Lemma ceil_cursor_cases T n :
  (T mod unit_ n = 0 -> ceil_cursor T n * unit_ n = T /\ ceil_cursor T n = T / unit_ n) /\
  (T mod unit_ n <> 0 -> ceil_cursor T n = T / unit_ n + 1).
Proof.
  pose proof (unit_pos n). unfold ceil_cursor. set (u := unit_ n) in *.
  pose proof (Z.div_mod T u ltac:(lia)). pose proof (Z.mod_pos_bound T u ltac:(lia)).
  split; intros.
  - assert ((T + u - 1) / u = T / u) as -> by (symmetry; apply Z.div_unique with (u - 1); lia). lia.
  - symmetry. apply Z.div_unique with (T mod u - 1); lia.
Qed.

Lemma multiple_up T n m : 2 <= n < m -> m <= 5 -> T mod unit_ m = 0 -> T mod unit_ (n + 1) = 0.
Proof.
  intros Hn Hm. destruct (Z.eq_dec (n + 1) m) as [->|]; [done|].
  assert (n = 2 /\ (m = 4 \/ m = 5) \/ n = 3 /\ m = 5) as Hc by lia.
  destruct Hc as [[-> [-> | ->]]|[-> ->]];
    change (unit_ (2 + 1)) with 16384; change (unit_ (3 + 1)) with 1048576;
    change (unit_ 4) with 1048576; change (unit_ 5) with 67108864; dm.
Qed.

Definition cascaded (w w' : wheel) (T : Z) (C' : Z -> Z) : Prop :=
  live w' T C' /\ running w' = None /\ expires w' = expires w /\
  forall x, x ∈ pending w' <-> x ∈ pending w.

Lemma cascade_step w T C n :
  live w T C -> running w = None -> 2 <= n <= 5 -> at_level T C n ->
  exists w' C', cascade_timers w n = Some w' /\ cascaded w w' T C' /\ moves w w' T n /\
    (if idx w' n =? 1 then n < 5 -> at_level T C' (n + 1) else past_cursor T C') /\
    (n = 5 -> past_cursor T C').
Proof.
  intros Hl Hr Hn (HC1 & Hm & HC).
  destruct (ceil_cursor_cases T n) as [Hce _]. destruct (Hce Hm) as [Hce1 Hce2]. clear Hce.
  assert (C n = ceil_cursor T n) as Hcn by (rewrite HC by lia; by rewrite Z.ltb_irrefl).
  destruct (cascade_timers_ok w T C n Hl Hr Hn ltac:(lia)) as (w' & -> & Hl' & Hr' & He & Hp & Hmv).
  exists w', (bump C n). split; [done|]. split; [done|]. split; [done|].
  assert (bump C n 1 = T) as HC1' by (unfold bump; destruct (Z.eqb_spec 1 n); lia).
  rewrite (sh_index _ _ _ (proj1 Hl') n) by lia.
  replace (vsize n) with 64 by (unfold vsize; by destruct (Z.eqb_spec n 1); [lia|]).
  assert (forall m, 2 <= m <= 5 -> m <= n \/ T mod unit_ m <> 0 ->
    bump C n m = T / unit_ m + 1) as Hpast.
  { intros m Hm5 Hcase. unfold bump. destruct (Z.eqb_spec m n) as [->|]; [lia|].
    rewrite HC by lia. destruct (Z.ltb_spec m n); [done|].
    apply ceil_cursor_cases. destruct Hcase; [lia|done]. }
  unfold bump at 1. rewrite Z.eqb_refl.
  assert ((C n + 1) mod 64 = 1 <-> C n mod 64 = 0) as Hone by dm.
  split.
  - destruct (Z.eqb_spec ((C n + 1) mod 64) 1) as [H1|H1].
    + intros Hlt. split; [done|]. split.
      * rewrite unit_next by lia. apply Hone in H1. pose proof (unit_pos n).
        apply Z.mod_divide; [lia|]. apply Z.mod_divide in H1 as [q Hq]; [|lia].
        exists q. lia.
      * intros m Hm5. destruct (Z.ltb_spec m (n + 1)); [apply Hpast; lia|].
        unfold bump. destruct (Z.eqb_spec m n); [lia|]. rewrite HC by lia.
        by destruct (Z.ltb_spec m n); [lia|].
    + split; [done|]. intros m Hm5. apply Hpast; [done|].
      destruct (Z_le_gt_dec m n); [by left|right]. intros Hz. apply H1, Hone.
      apply (multiple_up T n m) in Hz; [|lia..]. rewrite unit_next in Hz by lia.
      pose proof (unit_pos n). apply Z.mod_divide in Hz as [q Hq]; [|lia].
      assert (C n = q * 64) as -> by nia. by rewrite Z.mod_mul.
  - intros ->. split; [done|]. intros m Hm5. apply Hpast; lia.
Qed.

Lemma cascaded_trans w1 w2 w3 T C2 C3 :
  cascaded w1 w2 T C2 -> cascaded w2 w3 T C3 -> cascaded w1 w3 T C3.
Proof.
  intros (_ & _ & He & Hp) (Hl & Hr & He' & Hp').
  split; [done|]. split; [done|]. split; [by rewrite He', He|].
  intros x. by rewrite Hp', Hp.
Qed.

(** Once the cascades are done, no timer that is due is left above level 1. *)
Lemma due_in_past w T C m i : shape w T C -> past_cursor T C -> 2 <= m <= 5 -> due_in w T (m, i) = [].
Proof.
  intros Hs [_ HC] Hm. apply list.elem_of_nil_inv. intros x. unfold due_in. rewrite list_elem_of_filter. intros [Hd Hx].
  destruct (sh_loc _ _ _ Hs _ _ _ Hx) as (_ & Hb & _). rewrite Hd, HC in Hb by done. lia.
Qed.

(** The timers that are due, level by level from [n] on. *)
Definition due_levels (w : wheel) (T n : Z) (k : nat) : list Z :=
  concat (map (fun i => due_in w T (n + Z.of_nat i, idx w (n + Z.of_nat i))) (seq 0 k)).
Lemma due_levels_cons w T n k : due_levels w T n (S k) = due_in w T (n, idx w n) ++ due_levels w T (n + 1) k.
Proof.
  unfold due_levels. cbn [seq map concat]. rewrite Z.add_0_r. f_equal. rewrite <- seq_shift, map_map. f_equal.
  apply map_ext. intros i. by replace (n + Z.of_nat (S i)) with (n + 1 + Z.of_nat i) by lia.
Qed.
Lemma due_levels_same w w' T k : forall n, (forall m, n <= m < n + Z.of_nat k -> due_in w' T (m, idx w' m) = due_in w T (m, idx w m)) ->
  due_levels w' T n k = due_levels w T n k.
Proof. induction k as [|k IH]; intros n H; [done|]. rewrite !due_levels_cons, H by lia. f_equal. apply IH. intros m Hm. apply H. lia. Qed.
Lemma due_levels_past w T C k : forall n, shape w T C -> past_cursor T C -> 2 <= n -> n + Z.of_nat k <= 6 -> due_levels w T n k = [].
Proof. induction k as [|k IH]; intros n Hs Hp Hn Hk; [done|]. rewrite due_levels_cons, (due_in_past w T C), IH by (done || lia). done. Qed.

Lemma cascade_levels_ok k : forall n w T C,
  live w T C -> running w = None -> 2 <= n <= 5 -> at_level T C n -> n + Z.of_nat k = 5 ->
  exists w' C', cascade_levels (map (fun i => n + Z.of_nat i) (seq 0 (S k))) w = Some w' /\
    cascaded w w' T C' /\ past_cursor T C' /\
    due_in w' T (1, T mod 256) = due_in w T (1, T mod 256) ++ due_levels w T n (S k).
Proof.
  induction k as [|k IH]; intros n w T C Hl Hr Hn Hat Hk;
    destruct (cascade_step w T C n Hl Hr Hn Hat) as (w1 & C1 & H1 & Hc1 & [Hmv Hoth] & Hidx & H5);
    [change (seq 0 1) with [0%nat] | change (seq 0 (S (S k))) with (0%nat :: seq 1 (S k))];
    cbn [map cascade_levels]; rewrite Z.add_0_r, H1; cbn [mbind option_bind].
  - exists w1, C1. split; [by destruct (idx w1 n =? 1)|]. split; [done|]. split; [apply H5; lia|].
    rewrite Hmv, due_levels_cons. unfold due_levels. cbn. by rewrite app_nil_r.
  - assert (due_levels w1 T (n + 1) (S k) = due_levels w T (n + 1) (S k)) as Hsame
      by (apply due_levels_same; intros m Hm; apply Hoth; lia).
    destruct Hc1 as (Hl1 & Hr1 & Hex). destruct (idx w1 n =? 1).
    2:{ exists w1, C1. do 3 (split; [done|]). rewrite Hmv, due_levels_cons, <- Hsame, (due_levels_past w1 T C1) by (apply Hl1 || done || lia).
        by rewrite app_nil_r. }
    destruct (IH (n + 1) w1 T C1) as (w' & C' & H' & Hc' & Hpast & Hd);
      [done|done|lia|apply Hidx; lia|lia|].
    exists w', C'. split; [|split; [by eapply cascaded_trans|split; [done|by rewrite Hd, Hmv, Hsame, (due_levels_cons w T n), app_assoc]]].
    rewrite <- H'. f_equal. rewrite <- seq_shift, map_map. apply map_ext. lia.
Qed.

(** ** The tick as a whole *)

Lemma requeue_ok T C l : forall w,
  shape w T C -> running w = None -> NoDup l -> (forall x, x ∈ l -> ~ linked w x) ->
  let w' := foldl internal_add_timer w l in
  shape w' T C /\ running w' = None /\ expires w' = expires w /\
  (forall x, linked w' x <-> x ∈ l \/ linked w x) /\
  (forall x, x ∈ pending w' <-> x ∈ l \/ x ∈ pending w).
Proof.
  induction l as [|t l IH]; intros w Hs Hr Hnd Hl; cbn [foldl].
  { do 3 (split; [done|]). split; intros x; set_solver. }
  apply NoDup_cons in Hnd as [Ht Hnd].
  destruct (internal_add_ok w T C t Hs) as [Hs1 Hl1]; [apply Hl; left|].
  destruct (internal_add_frame w t) as [He1 Hr1].
  destruct (IH (internal_add_timer w t)) as (Hs' & Hr' & He' & Hl' & Hp'); [done| |done| |].
  - destruct (running (internal_add_timer w t)) eqn:E; [|done].
    destruct (proj1 Hr1) as [? H]; [done|]. by rewrite Hr in H.
  - intros x Hx. rewrite Hl1. intros [-> |H]; [done|]. by apply (Hl x); [right|].
  - do 2 (split; [done|]). split; [by rewrite He', He1|]. split; intros x.
    + rewrite Hl', Hl1. set_solver.
    + rewrite Hp', internal_add_pending. set_solver.
Qed.

(** The deadline of a timer that is not due at [T] is the same one tick later. *)
Lemma due_next w T t : due w T t <> T -> due w (T + 1) t = due w T t /\ 0 <= s32 (exp_of w t - (T + 1)).
Proof.
  unfold due. set (e := exp_of w t). intros H. assert (0 < s32 (e - T)) by lia.
  assert (s32 (e - (T + 1)) = s32 (e - T) - 1) as -> by (unfold s32 in *; dm). lia.
Qed.

(** The step to the next tick, once the slot of this tick is empty. *)
Definition next_tick (w : wheel) : wheel :=
  let w := with_running None w in
  let w := with_jiffies (u32 (timer_jiffies w + 1)) w in
  with_index (<[1 := (idx w 1 + 1) .& TVR_MASK]> (index w)) w.

Lemma next_tick_late w T C n i x :
  shape w T C -> past_cursor T C -> slot w (1, T mod 256) = [] ->
  x ∈ slot w (n, i) -> due w T x <> T.
Proof.
  intros Hs [HC1 HC] He Hx Hd. destruct (sh_loc _ _ _ Hs _ _ _ Hx) as (Hn & Hb & Hi & _).
  rewrite Hd in *. destruct (Z.eq_dec n 1) as [->|].
  - cbn in Hi. rewrite Z.div_1_r in Hi. rewrite Hi in He. rewrite He in Hx. set_solver.
  - rewrite HC in Hb by lia. lia.
Qed.

Lemma ceil_cursor_next T n : ceil_cursor (T + 1) n = T / unit_ n + 1.
Proof.
  unfold ceil_cursor. pose proof (unit_pos n). replace (T + 1 + unit_ n - 1) with (T + 1 * unit_ n) by lia.
  by rewrite Z.div_add by lia.
Qed.

Lemma next_tick_shape w T C :
  shape w T C -> past_cursor T C -> slot w (1, T mod 256) = [] ->
  shape (next_tick w) (T + 1) (ceil_cursor (T + 1)).
Proof.
  intros Hs Hpc He. pose proof (next_tick_late w T C) as Hlate.
  pose proof Hs as [(HT & HC1 & HC) Hj Hi Hx Hloc Hnd Hu [Hq Hd]]. destruct Hpc as [_ Hpc].
  assert (forall n, 2 <= n <= 5 -> ceil_cursor (T + 1) n = C n) as Hceil
    by (intros; rewrite ceil_cursor_next; symmetry; by apply Hpc).
  assert (ceil_cursor (T + 1) 1 = T + 1) as Hc1
    by (rewrite ceil_cursor_next; cbn; by rewrite Z.div_1_r).
  split.
  - apply ceil_cursor_ok. lia.
  - cbn. rewrite Hj. unfold u32. by rewrite Zplus_mod_idemp_l.
  - intros n Hn. unfold next_tick, idx. cbn. destruct (Z.eq_dec n 1) as [->|].
    + rewrite lookup_insert_eq, Hc1. cbn. change (default 0 (index w !! 1)) with (idx w 1).
      rewrite (Hi 1), HC1 by lia. change TVR_MASK with (Z.ones 8). rewrite Z.land_ones by lia.
      change (vsize 1) with 256. change (2 ^ 8) with 256. dm.
    + rewrite lookup_insert_ne by done. change (default 0 (index w !! n)) with (idx w n).
      rewrite Hceil by lia. apply Hi. lia.
  - done.
  - intros n i x Hin. change (x ∈ slot w (n, i)) in Hin.
    pose proof (Hlate n i x Hs (conj HC1 Hpc) He Hin) as Hne.
    destruct (Hloc n i x Hin) as (H1 & H2 & H3 & H4). destruct (due_next w T x Hne) as [Hdn Hpos].
    unfold located. change (due (next_tick w)) with (due w). change (exp_of (next_tick w)) with (exp_of w).
    rewrite Hdn. split; [done|]. split; [|by split].
    destruct (Z.eq_dec n 1) as [->|]; [|by rewrite Hceil by lia].
    rewrite Hc1. cbn in *. rewrite Z.div_1_r in *. lia.
  - done.
  - done.
  - cbn. split; [apply NoDup_nil_2|]. intros k x H. set_solver.
Qed.

Lemma run_tick_unfold fn w :
  run_tick fn w =
  (w1 ← (if idx w 1 =? 0 then cascade_levels [2; 3; 4; 5] w else Some w);
   let w1 := with_running (Some []) w1 in
   '(w2, fired) ← run_slot fn (length (slot w1 (1, idx w1 1))) w1;
   Some (foldl internal_add_timer (next_tick w2) (queue w2), fired)).
Proof. done. Qed.

(** The cascades of a tick, if it has any. *)
Lemma tick_cascade w T :
  inv w T -> exists w1 C1,
    (if idx w 1 =? 0 then cascade_levels [2; 3; 4; 5] w else Some w) = Some w1 /\
    cascaded w w1 T C1 /\ past_cursor T C1 /\
    due_in w1 T (1, T mod 256) = due_in w T (1, T mod 256) ++ due_levels w T 2 4.
Proof.
  intros (Hs & Hp & Hr). pose proof (sh_cursor _ _ _ Hs) as (HT & HC1 & _).
  rewrite (sh_index _ _ _ Hs 1), HC1 by lia. change (vsize 1) with 256.
  destruct (Z.eqb_spec (T mod 256) 0) as [Hz|Hz].
  - apply (cascade_levels_ok 3 2 w T (ceil_cursor T)); [done|done|lia| |lia].
    split; [done|]. split; [done|]. intros m Hm. by destruct (Z.ltb_spec m 2); [lia|].
  - assert (past_cursor T (ceil_cursor T)) as Hpast; [|exists w, (ceil_cursor T); do 3 (split; [done|]);
      by rewrite (due_levels_past w T (ceil_cursor T)), app_nil_r by (done || lia)].
    split; [done|]. intros n Hn. apply ceil_cursor_cases. intros Hu. apply Hz. revert Hu.
    assert (n = 2 \/ n = 3 \/ n = 4 \/ n = 5) as H by lia.
    destruct H as [-> |[-> |[-> | ->]]]; cbn [unit_ Z.eqb Pos.eqb]; dm.
Qed.

(** The slot of tick [T] at level 1 holds the timers due at [T]. *)
Lemma slot_due w T C t :
  live w T C -> past_cursor T C -> running w = None ->
  t ∈ slot w (1, T mod 256) <-> t ∈ pending w /\ due w T t = T.
Proof.
  intros [Hs Hp] [HC1 HC] Hr. rewrite (Hp t). split.
  - intros Ht. split; [left; by eexists|].
    destruct (sh_loc _ _ _ Hs _ _ _ Ht) as (_ & Hb & Hi & _). rewrite HC1 in Hb. cbn in *.
    rewrite Z.div_1_r in *. revert Hb Hi. dm.
  - intros [[[[n i] Ht]|Ht] Hd]; [|unfold queue in Ht; rewrite Hr in Ht; set_solver].
    destruct (sh_loc _ _ _ Hs _ _ _ Ht) as (Hn & Hb & Hi & _). rewrite Hd in *.
    destruct (Z.eq_dec n 1) as [->|]; [|rewrite HC in Hb by lia; lia].
    cbn in Hi. rewrite Z.div_1_r in Hi. by rewrite Hi.
Qed.

(** The timers that are due at tick [T], in the order in which they run: those of the slot of the tick,
    then those of levels 2 to 5 at their cursors, each in the order of its list. *)
Definition due_order (w : wheel) (T : Z) : list Z := due_levels w T 1 5.

Lemma run_tick_ok fn w T :
  inv w T -> let l := due_order w T in exists w',
    run_tick fn w = Some (w', fire_spec fn [] l) /\
    NoDup l /\ (forall t, t ∈ l <-> t ∈ pending w /\ due w T t = T) /\
    inv w' (T + 1) /\
    forall t, t ∈ pending w -> due w T t <> T -> t ∉ touched fn (fire_spec fn [] l) ->
      t ∈ pending w' /\ due w' (T + 1) t = due w T t.
Proof.
  intros Hinv. destruct (tick_cascade w T Hinv) as (w1 & C1 & Hc & (Hl1 & Hr1 & He1 & Hp1) & Hpc & Hord).
  assert (forall x, due w1 T x = due w T x) as Hdue by (intros; unfold due, exp_of; by rewrite He1).
  assert (due_order w T = slot w1 (1, T mod 256)) as Hl.
  { unfold due_order. rewrite due_levels_cons. pose proof (sh_index _ _ _ (proj1 Hinv) 1 ltac:(lia)) as ->.
    rewrite (proj1 (proj2 (sh_cursor _ _ _ (proj1 Hinv)))). change (vsize 1) with 256. change (1 + 1) with 2. rewrite <- Hord. unfold due_in.
    assert (forall x, x ∈ slot w1 (1, T mod 256) -> due w1 T x = T) as Hall by (intros x Hx; by apply (slot_due w1 T C1) in Hx as [_ ?]).
    induction (slot w1 (1, T mod 256)) as [|x l IH]; [done|]. rewrite filter_cons_True by (apply Hall; left). f_equal. apply IH. intros y Hy. apply Hall. by right. }
  rewrite Hl. intros l. subst l. set (l := slot w1 (1, T mod 256)).
  assert (forall t, t ∈ l <-> t ∈ pending w /\ due w T t = T) as Hlin
    by (intros; unfold l; by rewrite (slot_due w1 T C1), Hp1, Hdue).
  rewrite run_tick_unfold, Hc. cbn [mbind option_bind].
  set (w2 := with_running (Some []) w1).
  assert (live w2 T C1) as Hl2.
  { destruct Hl1 as [Hs Hp]. split.
    - destruct Hs. split; try done. cbn. split; [apply NoDup_nil_2|]. intros ? ? H. set_solver.
    - intros x. rewrite (Hp x : x ∈ pending w2 <-> _). unfold linked, queue. by rewrite Hr1. }
  assert (idx w2 1 = T mod 256) as ->
    by (rewrite (sh_index _ _ _ (proj1 Hl2) 1), (proj1 Hpc) by lia; done).
  destruct (run_slot_ok fn T C1 (length (slot w2 (1, T mod 256))) w2 Hl2)
    as (w3 & -> & [Hs3 Hp3] & Hr3 & He3 & Hk3); [done|done|].
  cbn [mbind option_bind]. change (slot w2 (1, T mod 256)) with l in *.
  destruct (requeue_ok (T + 1) (ceil_cursor (T + 1)) (queue w3) (next_tick w3))
    as (Hs' & Hr' & He' & Hlk & Hpk); [by eapply next_tick_shape|done|by apply sh_queue in Hs3 as []| |].
  { intros x Hx [[k Hk]|H]; [|by apply not_elem_of_nil in H].
    by apply (proj2 (sh_queue _ _ _ Hs3) k x). }
  exists (foldl internal_add_timer (next_tick w3) (queue w3)).
  split; [done|]. split; [apply (sh_nodup _ _ _ (proj1 Hl1))|]. split; [done|].
  split; [split; [done|split; [|done]]|].
  - intros x. rewrite Hpk, Hlk. change (pending (next_tick w3)) with (pending w3).
    rewrite (Hp3 x). unfold linked. change (queue (next_tick w3)) with ([] : list Z).
    assert (x ∉ ([] : list Z)) by apply not_elem_of_nil.
    change (slot (next_tick w3)) with (slot w3). tauto.
  - intros t Ht Hd Hn. destruct (Hk3 t) as [Hp Hx]; [by apply Hp1| |done|].
    { rewrite Hlin. tauto. }
    split; [apply Hpk; by right|].
    assert (exp_of (foldl internal_add_timer (next_tick w3) (queue w3)) t = exp_of w t) as Hexp.
    { unfold exp_of. rewrite He'. change (exp_of w3 t = exp_of w t). rewrite Hx.
      unfold exp_of. change (expires w2) with (expires w1). by rewrite He1. }
    unfold due at 1. rewrite Hexp. by apply due_next.
Qed.

(** ** Theorems *)

Lemma init_inv : inv init_timervecs 0.
Proof.
  split; [|split; [|done]].
  - split; try done.
    + by apply ceil_cursor_ok.
    + intros n Hn. pattern n. by apply level_cases.
    + intros n i t H. by apply not_elem_of_nil in H.
    + intros k. apply NoDup_nil_2.
    + intros k k' t H. by apply not_elem_of_nil in H.
    + split; [apply NoDup_nil_2|]. intros k t H. by apply not_elem_of_nil in H.
  - intros t. split; [set_solver|]. intros [[k H]|H]; by apply not_elem_of_nil in H.
Qed.

Lemma run_op_inv w T o : inv w T -> inv (run_op w o) T.
Proof.
  intros (Hs & Hp & Hr). destruct (run_op_live w T (ceil_cursor T) o (conj Hs Hp)) as [Hs' Hp'].
  split; [done|]. split; [done|]. clear Hs' Hp'.
  assert (forall v u, running v = None -> running (internal_add_timer v u) = None) as Hadd.
  { intros v u Hv. destruct (internal_add_frame v u) as [_ H].
    destruct (running (internal_add_timer v u)) eqn:E; [|done].
    destruct (proj1 H) as [? H']; [done|]. by rewrite Hv in H'. }
  destruct o as [t e|t e|t]; cbn;
    unfold add_timer, mod_timer, del_timer, detach_timer;
    repeat (case_match; cbn); simplify_eq; try apply Hadd; cbn; by rewrite ?Hr.
Qed.

Lemma run_timer_list_step fn jiffies T w fuel :
  inv w T ->
  (T <= jiffies < T + 2147483648 ->
   run_timer_list fn (S fuel) (u32 jiffies) w =
     ('(w1, fired) ← run_tick fn w;
      '(w2, rest) ← run_timer_list fn fuel (u32 jiffies) w1; Some (w2, fired :: rest))) /\
  (jiffies = T - 1 -> run_timer_list fn fuel (u32 jiffies) w = Some (w, [])).
Proof.
  intros (Hs & _). pose proof (sh_jiffies _ _ _ Hs) as Hj.
  destruct fuel as [|fuel]; split; intros H; cbn [run_timer_list]; rewrite Hj;
    destruct (Z.leb_spec 0 (s32 (u32 jiffies - u32 T))); try reflexivity;
    unfold s32, u32 in *; dm.
Qed.

Lemma run_add w t e : t ∉ pending w -> run_op w (OpAdd t e) = internal_add_timer (with_expires (<[t := u32 e]> (expires w)) w) t.
Proof. intros Ht. cbn [run_op]. unfold add_timer, timer_pending. cbn [pending with_expires]. by rewrite bool_decide_false. Qed.
(** Two timers with the same expiry that are added one after the other are neighbours on one list. *)
Lemma added_in_order w T x y e : inv w T -> x <> y -> x ∉ pending w -> y ∉ pending w ->
  exists k, slot (run_op (run_op w (OpAdd x e)) (OpAdd y e)) k = slot w k ++ [x; y].
Proof.
  intros (Hs & Hp & Hr) Hne Hx Hy. rewrite (run_add w) by done.
  set (w1 := with_expires (<[x := u32 e]> (expires w)) w). set (w2 := internal_add_timer w1 x).
  rewrite (run_add w2) by (unfold w2; rewrite internal_add_pending; intros [->|?]; done).
  set (w3 := with_expires (<[y := u32 e]> (expires w2)) w2).
  assert (exp_of w1 x = u32 e) as E1 by (unfold exp_of, w1; cbn; by rewrite lookup_insert_eq).
  assert (exp_of w3 y = u32 e) as E3 by (unfold exp_of, w3; cbn; by rewrite lookup_insert_eq).
  destruct (choose_located w1 T (ceil_cursor T) x) as (n & i & Hch & _); [apply shape_expires; [done|by apply not_linked]|done|]. rewrite E1 in Hch.
  assert (choose_vec w3 (u32 e) = Slot n i) as Hch3.
  { rewrite <- Hch. unfold w3, w2, internal_add_timer. rewrite E1, Hch. done. }
  exists (n, i). unfold internal_add_timer at 1. rewrite E3, Hch3, slot_add, decide_True by done.
  change (slot w3 (n, i)) with (slot w2 (n, i)). unfold w2, internal_add_timer. rewrite E1, Hch, slot_add, decide_True by done. by rewrite <- app_assoc.
Qed.

(** C2. One tick of [run_timer_list] at tick [T], started from a well-formed wheel:
    it always completes; the functions it runs are exactly those of the timers
    pending and due at [T] (none early, none late), except timers that an earlier function of the
    same tick deleted or modified; they run in the order [due_order]: first the timers of the
    slot of the tick, then those that the cascades of this tick bring down from levels 2 to 5, level
    by level, each list from its front to its end. New timers go to the end: two timers
    added one after the other with the same expiry are on one list in this order. The wheel is
    again well-formed for tick [T + 1]; and every other pending timer keeps its deadline. *)
Theorem run_tick_exact fn w T :
  inv w T -> let l := due_order w T in
  (exists w', run_tick fn w = Some (w', fire_spec fn [] l) /\
    NoDup l /\ (forall t, t ∈ l <-> t ∈ pending w /\ due w T t = T) /\
    inv w' (T + 1) /\
    forall t, t ∈ pending w -> due w T t <> T -> t ∉ touched fn (fire_spec fn [] l) ->
      t ∈ pending w' /\ due w' (T + 1) t = due w T t) /\
  forall x y e, x <> y -> x ∉ pending w -> y ∉ pending w ->
    exists k, slot (run_op (run_op w (OpAdd x e)) (OpAdd y e)) k = slot w k ++ [x; y].
Proof. intros Hinv l. split; [by apply run_tick_ok|]. intros x y e. by apply (added_in_order w T). Qed.

Definition rearm (t : Z) : list op := if t =? 7 then [OpMod 7 300; OpDel 9] else [].

(** Two timers for tick 256, in the second level until then, and one that the first of them deletes. *)
Definition far : list op := [OpAdd 8 256; OpAdd 7 256; OpAdd 9 256].
Definition far_wheel : wheel :=
  match run_timer_list rearm 256 255 (foldl run_op init_timervecs far) with Some (w, _) => w | None => init_timervecs end.
Lemma far_inv : inv far_wheel 256.
Proof.
  assert (forall n w T, inv w T -> Z.of_nat n <= 256 -> T + Z.of_nat n = 256 ->
    exists w', inv w' 256 /\ exists r, run_timer_list rearm n 255 w = Some (w', r)) as H.
  { induction n as [|n IH]; intros w T Hw Hn HT.
    - exists w. replace T with 256 in Hw by lia. split; [done|]. exists []. apply (run_timer_list_step rearm 255 256 w 0 Hw). lia.
    - pose proof (proj1 (run_timer_list_step rearm 255 T w n Hw)) as Hs. change (u32 255) with 255 in Hs. rewrite Hs by lia.
      destruct (run_tick_ok rearm w T Hw) as (w1 & -> & _ & _ & Hw1 & _). destruct (IH w1 (T + 1) Hw1 ltac:(lia) ltac:(lia)) as (w' & Hw' & r & Hr).
      exists w'. split; [done|]. cbn [mbind option_bind]. rewrite Hr. by eexists. }
  destruct (H 256%nat (foldl run_op init_timervecs far) 0) as (w' & Hw' & r & Hr); [repeat apply run_op_inv; apply init_inv|lia|lia|].
  unfold far_wheel. by rewrite Hr.
Qed.

Lemma run_tick_exact_witness :
  exists w', run_tick rearm far_wheel = Some (w', [8; 7]) /\ inv w' 257 /\ due_order far_wheel 256 = [8; 7; 9].
Proof.
  destruct (run_tick_exact rearm far_wheel 256 far_inv) as [(w' & H & _ & _ & Hi & _) _].
  assert (due_order far_wheel 256 = [8; 7; 9]) as E by (vm_compute; reflexivity). rewrite E in H.
  exists w'. split; [exact H|]. by split.
Defined.

(** [add_timer], [mod_timer] and [del_timer] keep the wheel well-formed; afterwards
    the timer is pending with deadline [max(expires, now)] (for [del_timer]: not pending), every
    other timer is as before, and [mod_timer] and [del_timer] return 1 exactly for a timer
    that was pending. *)
Theorem timer_calls w T t e :
  inv w T ->
  let w1 := fst (mod_timer w t e) in let w2 := fst (del_timer w t) in
  let w3 := run_op w (OpAdd t e) in
  let deadline := T + Z.max 0 (s32 (e - T)) in
  inv w1 T /\ inv w2 T /\ inv w3 T /\
  (forall x, x ∈ pending w1 <-> x = t \/ x ∈ pending w) /\ due w1 T t = deadline /\
  (forall x, x ∈ pending w2 <-> x <> t /\ x ∈ pending w) /\
  (forall x, x ∈ pending w3 <-> x = t \/ x ∈ pending w) /\
  (t ∉ pending w -> due w3 T t = deadline) /\ (t ∈ pending w -> w3 = w) /\
  (forall x, x <> t -> due w1 T x = due w T x /\ due w2 T x = due w T x /\ due w3 T x = due w T x) /\
  snd (mod_timer w t e) = (if timer_pending w t then 1 else 0) /\
  snd (del_timer w t) = (if timer_pending w t then 1 else 0).
Proof.
  intros Hinv w1 w2 w3 deadline.
  split; [apply (run_op_inv w T (OpMod t e) Hinv)|].
  split; [apply (run_op_inv w T (OpDel t) Hinv)|].
  split; [apply (run_op_inv w T (OpAdd t e) Hinv)|].
  assert (s32 (u32 e - T) = s32 (e - T)) as Hu by (unfold s32, u32; dm).
  assert (forall v x, due (internal_add_timer v t) T x = due v T x) as Hadd.
  { intros v x. unfold due, exp_of. by rewrite (proj1 (internal_add_frame v t)). }
  set (we := with_expires (<[t := u32 e]> (expires w)) w).
  assert (due we T t = deadline) as Ht.
  { unfold due, deadline, exp_of, we. cbn. rewrite lookup_insert_eq. cbn. by rewrite Hu. }
  assert (forall x, x <> t -> due we T x = due w T x) as Hx.
  { intros x Hne. unfold due, exp_of, we. cbn. by rewrite lookup_insert_ne. }
  unfold w1, w2, w3, mod_timer, del_timer, run_op, add_timer, detach_timer, timer_pending.
  fold we. change (pending we) with (pending w).
  case_bool_decide as Hp; cbn [fst snd];
    repeat setoid_rewrite internal_add_pending; repeat setoid_rewrite Hadd.
  - change (due (list_del t we)) with (due we).
    change (due (clear_pending t (list_del t w))) with (due w). cbn.
    repeat split; try set_solver; try done; try (by apply Hx).
  - change (due (clear_pending t w)) with (due w). cbn.
    repeat split; try set_solver; try done; try (by apply Hx).
Qed.

Lemma timer_calls_witness :
  due (fst (mod_timer init_timervecs 5 1000)) 0 5 = 1000 /\
  due (fst (mod_timer init_timervecs 5 4294967290)) 0 5 = 0.
Proof.
  split.
  - exact (proj1 (proj2 (proj2 (proj2 (proj2 (timer_calls init_timervecs 0 5 1000 init_inv)))))).
  - exact (proj1 (proj2 (proj2 (proj2 (proj2 (timer_calls init_timervecs 0 5 4294967290 init_inv)))))).
Defined.

(** C1. [run_timer_list] catches up: started at tick [T], at or up to 2^31 ticks behind
    [jiffies], it returns, having run one round for every tick up to and including
    [jiffies]; a pending timer that no timer function deletes or modifies is run in the round
    of its deadline and in no earlier one, and if its deadline lies beyond [jiffies] it is
    still pending with the same deadline. *)
Theorem run_timer_list_catches_up fn jiffies n : forall w T,
  inv w T -> jiffies = T + Z.of_nat n - 1 -> Z.of_nat n <= 2147483648 ->
  exists w' rounds, run_timer_list fn n (u32 jiffies) w = Some (w', rounds) /\
    inv w' (jiffies + 1) /\ length rounds = n /\
    forall t, t ∈ pending w -> (forall x, t ∉ touched fn [x]) ->
      (forall i fired, rounds !! i = Some fired -> T + Z.of_nat i < due w T t -> t ∉ fired) /\
      (due w T t <= jiffies ->
         exists fired, rounds !! Z.to_nat (due w T t - T) = Some fired /\ t ∈ fired) /\
      (jiffies < due w T t -> t ∈ pending w' /\ due w' (jiffies + 1) t = due w T t).
Proof.
  induction n as [|n IH]; intros w T Hinv Hj Hn.
  - exists w, []. rewrite (proj2 (run_timer_list_step fn jiffies T w 0 Hinv)) by lia.
    replace (jiffies + 1) with T by lia. do 3 (split; [done|]).
    intros t Ht _. split; [done|]. split; [unfold due; lia|done].
  - rewrite (proj1 (run_timer_list_step fn jiffies T w n Hinv)) by lia.
    destruct (run_tick_ok fn w T Hinv) as (w1 & -> & Hnd & Hl & Hinv1 & Hkeep). generalize dependent (due_order w T). intros l Hnd Hl Hkeep.
    destruct (IH w1 (T + 1) Hinv1 ltac:(lia) ltac:(lia)) as (w' & rounds & Hrun & Hinv' & Hlen & Hall).
    cbn [mbind option_bind]. rewrite Hrun. cbn [mbind option_bind].
    exists w', (fire_spec fn [] l :: rounds). split; [done|]. split; [done|].
    split; [cbn; lia|]. intros t Ht Hu.
    assert (forall dead, (forall x, x ∈ dead -> x <> t) -> t ∈ fire_spec fn dead l <-> t ∈ l) as Hfs.
    { clear -Hu. induction l as [|y l IH]; intros dead Hd; [done|]. cbn [fire_spec].
      case_bool_decide as Hy.
      - rewrite IH by done. rewrite elem_of_cons. split; [by right|].
        intros [-> |]; [by destruct (Hd y)|done].
      - rewrite !elem_of_cons, IH; [done|]. intros x [Hx|Hx]%elem_of_app ->; [|by eapply Hd].
        apply (Hu y). unfold touched. cbn. by rewrite app_nil_r. }
    specialize (Hfs [] ltac:(intros x Hx; by apply not_elem_of_nil in Hx)). rewrite Hl in Hfs.
    destruct (Z.eq_dec (due w T t) T) as [Hd|Hd].
    + split; [intros i fired _; lia|]. split; [|lia]. intros _.
      exists (fire_spec fn [] l). rewrite Hd, Z.sub_diag. split; [done|]. by apply Hfs.
    + assert (T < due w T t) by (unfold due in *; lia).
      destruct (Hkeep t Ht Hd) as [Ht1 Hd1].
      { intros H'. unfold touched in H'. apply list_elem_of_bind in H' as (x & Hx & _).
        apply (Hu x). unfold touched. cbn. by rewrite app_nil_r. }
      destruct (Hall t Ht1 Hu) as (Hearly & Hon & Hlate). rewrite Hd1 in *.
      split; [|split; [|done]].
      * intros [|i] fired; cbn; [intros [= <-] _; rewrite Hfs; tauto|].
        intros Hi Hlt. apply (Hearly i fired Hi). lia.
      * intros Hle. destruct (Hon Hle) as (fired & Hi & Hin). exists fired. split; [|done].
        replace (Z.to_nat (due w T t - T)) with (S (Z.to_nat (due w T t - (T + 1)))) by lia. done.
Qed.

Lemma run_timer_list_catches_up_witness :
  exists w' rounds,
    run_timer_list rearm 3 2 (run_op init_timervecs (OpAdd 4 2)) = Some (w', rounds) /\
    (exists fired, rounds !! 2%nat = Some fired /\ 4 ∈ fired).
Proof.
  destruct (run_timer_list_catches_up rearm 2 3 (run_op init_timervecs (OpAdd 4 2)) 0)
    as (w' & rounds & H & _ & _ & Hall); [apply run_op_inv, init_inv|reflexivity|lia|].
  exists w', rounds. split; [exact H|].
  destruct (Hall 4) as (_ & Hon & _).
  - decide_now.
  - intros x. unfold touched, rearm. cbn. destruct (x =? 7); decide_now.
  - apply Hon. vm_compute. discriminate.
Defined.
