(* ===== verification/Task.v ===== *)
(** The process table and the parts of it that kernel/sys.c, kernel/capability.c
    and kernel/user.c read and write (include/linux/sched.h), the state monad in
    which the system calls are written, [capable], and the cache of per-user
    structures of kernel/user.c. *)
From S2P Require Import Prelude.

(** ** Errors (include/asm-arm/errno.h) *)
Definition EPERM : Z := 1.
Definition ENOENT : Z := 2.
Definition ESRCH : Z := 3.
Definition EAGAIN : Z := 11.
Definition EACCES : Z := 13.
Definition EFAULT : Z := 14.
Definition EINVAL : Z := 22.

(** ** Data *)

(** A task is named by its pid. *)
Record task := Task {
  pgrp : Z; session : Z; leader : bool; did_exec : bool;
  p_pptr : Z; p_opptr : Z;
  tty : option Z; tty_old_pgrp : Z;
  nice : Z;
  uid : Z; euid : Z; suid : Z; fsuid : Z;
  gid : Z; egid : Z; sgid : Z; fsgid : Z;
  ngroups : Z; groups : list Z;
  cap_effective : Z; cap_inheritable : Z; cap_permitted : Z;
  keep_capabilities : bool;
  superpriv : bool;              (* PF_SUPERPRIV in flags *)
  rlim : list (Z * Z);           (* rlim_cur, rlim_max *)
  pdeath_signal : Z;
  task_dumpable : bool;
  user : Z;                      (* the address of the user_struct *)
  mm : Z; fs : Z }.              (* shared between threads *)

#[global] Instance task_fields : Fields task := fun t =>
  Task (pgrp t) (session t) (leader t) (did_exec t) (p_pptr t) (p_opptr t) (tty t)
    (tty_old_pgrp t) (nice t) (uid t) (euid t) (suid t) (fsuid t) (gid t) (egid t) (sgid t)
    (fsgid t) (ngroups t) (groups t) (cap_effective t) (cap_inheritable t) (cap_permitted t)
    (keep_capabilities t) (superpriv t) (rlim t) (pdeath_signal t) (task_dumpable t) (user t)
    (mm t) (fs t).

Record user_struct := User { u_uid : Z; count : Z; processes : Z; files : Z }.
#[global] Instance user_fields : Fields user_struct := fun u =>
  User (u_uid u) (count u) (processes u) (files u).

Record system := System {
  tasks : gmap Z task;
  task_list : list Z;            (* the order of for_each_task *)
  current : Z;
  dumpable : gmap Z Z;           (* mm->dumpable *)
  umask : gmap Z Z;              (* fs->umask *)
  users : gmap Z user_struct;    (* by address *)
  uidhash_table : gmap Z (list Z);
  securebits : Z;
  nodename : list Z; domainname : list Z;
  C_A_D : Z }.
#[global] Instance system_fields : Fields system := fun s =>
  System (tasks s) (task_list s) (current s) (dumpable s) (umask s) (users s) (uidhash_table s)
    (securebits s) (nodename s) (domainname s) (C_A_D s).

Definition no_task : task :=
  Task 0 0 false false 0 0 None 0 0 0 0 0 0 0 0 0 0 0 [] 0 0 0 false false [] 0 false 0 0 0.

(** ** The state monad *)
Definition M (A : Type) : Type := system -> A * system.
#[global] Instance M_ret : MRet M := fun A a s => (a, s).
#[global] Instance M_bind : MBind M := fun A B f m s => let '(a, s') := m s in f a s'.

Definition gets {A} (f : system -> A) : M A := fun s => (f s, s).
Definition modify (f : system -> system) : M unit := fun s => (tt, f s).

Definition task_at (s : system) (p : Z) : task := default no_task (tasks s !! p).
Definition cur (s : system) : task := task_at s (current s).
Definition set_task (p : Z) (f : task -> task) (s : system) : system :=
  s <| tasks := <[p := f (task_at s p)]> (tasks s) |>.
Definition set_cur (f : task -> task) : M unit := modify (fun s => set_task (current s) f s).

(** [for_each_task] *)
Fixpoint for_tasks {A} (f : Z -> A -> M A) (ps : list Z) (a : A) : M A :=
  match ps with
  | [] => mret a
  | p :: ps => a ← f p a; for_tasks f ps a
  end.
Definition for_each_task {A} (f : Z -> A -> M A) (a : A) : M A :=
  ps ← gets task_list; for_tasks f ps a.

Definition find_task_by_pid (pid : Z) : M (option Z) :=
  gets (fun s => (fun _ => pid) <$> tasks s !! pid).

(** ** Capabilities (include/linux/capability.h, include/linux/sched.h) *)
Definition CAP_SETGID : Z := 6.
Definition CAP_SETUID : Z := 7.
Definition CAP_SETPCAP : Z := 8.
Definition CAP_SYS_ADMIN : Z := 21.
Definition CAP_SYS_BOOT : Z := 22.
Definition CAP_SYS_NICE : Z := 23.
Definition CAP_SYS_RESOURCE : Z := 24.
Definition CAP_FS_MASK : Z := 31.

Definition cap_raised (c flag : Z) : bool := truth (c .& (1 .<< flag)).
Definition cap_issubset (a b : Z) : bool := negb (truth (a .& Z.lnot b)).
Definition cap_combine (a b : Z) : Z := a .| b.

Definition capable (cap : Z) : M bool :=
  t ← gets cur;
  if cap_raised (cap_effective t) cap then
    _ ← set_cur (fun t => t <| superpriv := true |>); mret true
  else mret false.

(** The condition [c && !capable(cap)]. *)
Definition refused (c : bool) (cap : Z) : M bool :=
  if c then ok ← capable cap; mret (negb ok) else mret false.

(** [current->mm->dumpable = 0;] under a condition *)
Definition clear_dumpable (c : bool) : M unit :=
  if c then modify (fun s => s <| dumpable := <[mm (cur s) := 0]> (dumpable s) |>) else mret tt.

(** The default of [securebits]; SECURE_NO_SETUID_FIXUP is bit 2. *)
Definition SECURE_NO_SETUID_FIXUP : Z := 2.
Definition SECUREBITS_DEFAULT : Z := 0.
Definition issecure (x : Z) : M bool :=
  gets (fun s =>
    if truth ((1 .<< (x + 1)) .& SECUREBITS_DEFAULT) then truth ((1 .<< x) .& SECUREBITS_DEFAULT)
    else truth ((1 .<< x) .& securebits s)).

(** ** The user cache (kernel/user.c) *)
Definition UIDHASH_BITS : Z := 8.
Definition UIDHASH_SZ : Z := 1 .<< UIDHASH_BITS.
Definition UIDHASH_MASK : Z := UIDHASH_SZ - 1.
Definition uidhashfn (uid : Z) : Z := ((uid .>> UIDHASH_BITS) .^ uid) .& UIDHASH_MASK.

Definition chain (s : system) (h : Z) : list Z := default [] (uidhash_table s !! h).
Definition user_at (s : system) (a : Z) : user_struct := default (User 0 0 0 0) (users s !! a).
Definition set_users (a : Z) (f : user_struct -> user_struct) (s : system) : system :=
  s <| users := <[a := f (user_at s a)]> (users s) |>.

Definition uid_hash_insert (up h : Z) (s : system) : system :=
  s <| uidhash_table := <[h := up :: chain s h]> (uidhash_table s) |>.
Definition uid_hash_remove (up : Z) (s : system) : system :=
  s <| uidhash_table := (fun l => filter (fun a => a <> up) l) <$> uidhash_table s |>.

(** The chain is walked to the structure of [uid], whose count is raised. *)
Fixpoint hash_walk (uid : Z) (l : list Z) (s : system) : option Z * system :=
  match l with
  | [] => (None, s)
  | up :: l =>
      if negb (u_uid (user_at s up) =? uid) then hash_walk uid l s
      else (Some up, set_users up (fun u => u <| count := count u + 1 |>) s)
  end.
Definition uid_hash_find (uid h : Z) : M (option Z) := fun s => hash_walk uid (chain s h) s.

(** [free_uid]; the memory of a structure whose count drops to 0 is given back. *)
Definition free_uid (up : Z) : M unit := fun s =>
  let s := set_users up (fun u => u <| count := count u - 1 |>) s in
  if count (user_at s up) =? 0 then
    let s := uid_hash_remove up s in (tt, s <| users := delete up (users s) |>)
  else (tt, s).

Section Alloc.
(** The slab allocator (mm/slab.c): the address of the new structure, or [None]. It may
    sleep, and what other tasks do meanwhile is part of the action. *)
Context (kmem_cache_alloc : M (option Z)).

Definition alloc_uid (uid : Z) : M (option Z) :=
  let hashent := uidhashfn uid in
  up ← uid_hash_find uid hashent;
  match up with
  | Some up => mret (Some up)
  | None =>
      new ← kmem_cache_alloc;
      match new with
      | None => mret None
      | Some new =>
          _ ← modify (fun s => s <| users := <[new := User uid 1 0 0]> (users s) |>);
          up ← uid_hash_find uid hashent;
          match up with
          | Some up => _ ← modify (fun s => s <| users := delete new (users s) |>); mret (Some up)
          | None => _ ← modify (uid_hash_insert new hashent); mret (Some new)
          end
      end
  end.
End Alloc.

(** ** Access to user memory (include/asm-arm/uaccess.h) *)

(** [put_user]: the result and the value stored, for a pointer that is writable or not. *)
Definition put_user (ok : bool) (v : Z) : Z * option Z :=
  if ok then (0, Some v) else (- EFAULT, None).

(** [copy_from_user(dst, src, n)] with [src] the readable elements at the user address: what is
    left to copy, and [dst] afterwards. The part that could not be read is zeroed. *)
Definition copy_from_user (dst src : list Z) (n : Z) : Z * list Z :=
  let got := take (Z.to_nat n) src in
  let rest := n - len got in
  (rest, got ++ replicate (Z.to_nat rest) 0 ++ drop (Z.to_nat n) dst).

(** ** Reasoning about the calling task *)

(** What a call leaves alone: which task runs, and the security settings. *)
Definition same_frame (s s' : system) : Prop :=
  current s' = current s /\ securebits s' = securebits s.

(** [wp sb m Q t]: run with security settings [sb] by a task whose record is [t], [m] ends with a
    result and a record of the calling task that satisfy [Q]. *)
Definition wp (sb : Z) {A} (m : M A) (Q : A -> task -> Prop) (t : task) : Prop :=
  forall s, cur s = t -> securebits s = sb ->
    same_frame s (snd (m s)) /\ Q (fst (m s)) (cur (snd (m s))).

Section Wp.
Context {sb : Z}.

Lemma wp_use {A} (m : M A) Q s :
  securebits s = sb -> wp sb m Q (cur s) ->
  Q (fst (m s)) (cur (snd (m s))) /\ same_frame s (snd (m s)).
Proof. intros Hs H. by destruct (H s eq_refl Hs). Qed.

Lemma wp_mono {A} (m : M A) (Q R : A -> task -> Prop) t :
  (forall a u, Q a u -> R a u) -> wp sb m Q t -> wp sb m R t.
Proof. intros H Hw s Hs Hb. destruct (Hw s Hs Hb). auto. Qed.

Lemma wp_ret {A} (a : A) (Q : A -> task -> Prop) t : Q a t -> wp sb (mret a) Q t.
Proof. intros H s <- _. done. Qed.

Lemma wp_bind {A B} (m : M A) (f : A -> M B) Q t :
  wp sb m (fun a u => wp sb (f a) Q u) t -> wp sb (m ≫= f) Q t.
Proof.
  intros H s Hs Hb. destruct (H s Hs Hb) as [[H1 H1'] H2]. unfold mbind, M_bind, same_frame in *.
  destruct (m s) as [a s1]. cbn in *. destruct (H2 s1 eq_refl) as [[H3 H4] H5]; [congruence|].
  split; [split; congruence|done].
Qed.

Lemma wp_cur {A} (f : task -> A) (Q : A -> task -> Prop) t :
  Q (f t) t -> wp sb (gets (fun s => f (cur s))) Q t.
Proof. intros H s <- _. done. Qed.

Lemma wp_get_cur (Q : task -> task -> Prop) t : Q t t -> wp sb (gets cur) Q t.
Proof. intros H s <- _. done. Qed.

Lemma wp_gets {A} (f : system -> A) (Q : A -> task -> Prop) t :
  (forall a, Q a t) -> wp sb (gets f) Q t.
Proof. intros H s <- _. split; [done|]. apply H. Qed.

Lemma task_at_set s p f q :
  task_at (set_task p f s) q = if decide (q = p) then f (task_at s p) else task_at s q.
Proof.
  unfold task_at, set_task. cbn. case_decide as H.
  - by rewrite H, lookup_insert_eq.
  - by rewrite lookup_insert_ne.
Qed.

Lemma cur_set_task s f : cur (set_task (current s) f s) = f (cur s).
Proof. unfold cur. cbn [current set_task]. by rewrite task_at_set, decide_True. Qed.

Lemma wp_set_cur f (Q : unit -> task -> Prop) t : Q tt (f t) -> wp sb (set_cur f) Q t.
Proof. intros H s <- _. split; [done|]. cbn. by rewrite cur_set_task. Qed.

Lemma wp_modify f (Q : unit -> task -> Prop) t :
  (forall s, tasks (f s) = tasks s /\ same_frame s (f s)) -> Q tt t -> wp sb (modify f) Q t.
Proof.
  intros Hf H s <- _. destruct (Hf s) as [H1 H2]. split; [done|]. cbn. unfold cur, task_at.
  by rewrite H1, (proj1 H2).
Qed.

Lemma wp_clear_dumpable c (Q : unit -> task -> Prop) t : Q tt t -> wp sb (clear_dumpable c) Q t.
Proof. intros H. destruct c; cbn; [by apply wp_modify|by apply wp_ret]. Qed.

Lemma wp_capable cap (Q : bool -> task -> Prop) t :
  (cap_raised (cap_effective t) cap = true -> Q true (t <| superpriv := true |>)) ->
  (cap_raised (cap_effective t) cap = false -> Q false t) ->
  wp sb (capable cap) Q t.
Proof.
  intros H1 H2. apply wp_bind, wp_get_cur.
  destruct (cap_raised (cap_effective t) cap); [|by apply wp_ret, H2].
  apply wp_bind, wp_set_cur, wp_ret. by apply H1.
Qed.

Lemma wp_refused c cap (Q : bool -> task -> Prop) t :
  (c = false \/ cap_raised (cap_effective t) cap = true ->
     Q false t /\ Q false (t <| superpriv := true |>)) ->
  (c = true -> cap_raised (cap_effective t) cap = false -> Q true t) ->
  wp sb (refused c cap) Q t.
Proof.
  intros H1 H2. destruct c; cbn; [|apply wp_ret, H1; auto].
  apply wp_bind, wp_capable; intros; apply wp_ret; [by apply H1; right|by apply H2].
Qed.

Lemma wp_capable_no cap (Q : bool -> task -> Prop) t :
  cap_raised (cap_effective t) cap = false -> Q false t -> wp sb (capable cap) Q t.
Proof. intros. apply wp_capable; [congruence|done]. Qed.

Lemma wp_refused_no c cap (Q : bool -> task -> Prop) t :
  cap_raised (cap_effective t) cap = false -> (c = false -> Q false t) -> (c = true -> Q true t) ->
  wp sb (refused c cap) Q t.
Proof.
  intros H H1 H2. destruct c; cbn; [|by apply wp_ret, H1].
  apply wp_bind, wp_capable_no; [done|]. by apply wp_ret, H2.
Qed.

Lemma wp_or_capable c cap (Q : bool -> task -> Prop) t :
  (c = true \/ cap_raised (cap_effective t) cap = true ->
     Q true t /\ Q true (t <| superpriv := true |>)) ->
  (c = false -> cap_raised (cap_effective t) cap = false -> Q false t) ->
  wp sb (if c then mret true else capable cap) Q t.
Proof.
  intros H1 H2. destruct c; [apply wp_ret, H1; auto|].
  apply wp_capable; intros; [by apply H1; right|by apply H2].
Qed.

End Wp.

(** Steps through a call. *)
Ltac wp_walk :=
  repeat first
    [ apply wp_ret | apply wp_bind | apply wp_get_cur | apply wp_clear_dumpable | apply wp_set_cur
    | apply wp_capable; intros | apply wp_refused; intros; [split|]
    | match goal with |- wp _ (if ?b then _ else _) _ _ => destruct b end ].

(** *** Capability sets *)

Lemma cap_issubset_spec a b :
  cap_issubset a b = true <-> forall i, 0 <= i -> Z.testbit a i = true -> Z.testbit b i = true.
Proof.
  unfold cap_issubset, truth. rewrite negb_involutive, Z.eqb_eq. split.
  - intros H i Hi Ha. apply (f_equal (fun z => Z.testbit z i)) in H.
    rewrite Z.land_spec, Z.lnot_spec, Ha, Z.bits_0 in H by done.
    by destruct (Z.testbit b i).
  - intros H. apply Z.bits_inj'. intros i Hi. rewrite Z.land_spec, Z.lnot_spec, Z.bits_0 by done.
    specialize (H i Hi). destruct (Z.testbit a i), (Z.testbit b i); try done. by discriminate H.
Qed.

Lemma cap_issubset_refl a : cap_issubset a a = true.
Proof. by apply cap_issubset_spec. Qed.
Lemma cap_issubset_0 a : cap_issubset 0 a = true.
Proof. apply cap_issubset_spec. intros i _ H. by rewrite Z.bits_0 in H. Qed.
Lemma cap_issubset_trans a b c :
  cap_issubset a b = true -> cap_issubset b c = true -> cap_issubset a c = true.
Proof. rewrite !cap_issubset_spec. auto. Qed.
Lemma cap_combine_idem a : cap_combine a a = a.
Proof. apply Z.lor_diag. Qed.

Lemma cap_raised_spec c k : 0 <= k -> cap_raised c k = Z.testbit c k.
Proof.
  intros Hk. unfold cap_raised. rewrite Z.shiftl_1_l. by apply truth_testbit.
Qed.

Lemma cap_raised_mono a b k :
  0 <= k -> cap_issubset a b = true -> cap_raised b k = false -> cap_raised a k = false.
Proof.
  intros Hk Hs. rewrite !cap_raised_spec by done. rewrite cap_issubset_spec in Hs.
  specialize (Hs k Hk). by destruct (Z.testbit a k); [rewrite Hs|].
Qed.
#[export] Hint Resolve cap_issubset_refl cap_issubset_0 cap_issubset_trans : cint.
