(* ===== verification/Creds.v ===== *)
(** kernel/sys.c: the calls that change user and group ids, the supplementary
    groups and prctl; kernel/capability.c: the capability calls. *)
From S2P Require Import Prelude Task.

(** (uid_t) -1, (gid_t) -1 *)
Definition NOID : Z := 4294967295.
Definition given (id : Z) : bool := negb (id =? NOID).

(** ** Group ids *)

Definition sys_setregid (rgid egid_ : Z) : M Z :=
  c ← gets cur;
  let old_rgid := gid c in
  let old_egid := egid c in
  denied ← refused (given rgid && negb ((old_rgid =? rgid) || (egid c =? rgid))) CAP_SETGID;
  if (denied : bool) then mret (- EPERM) else
  let new_rgid := if given rgid then rgid else old_rgid in
  denied ← refused (given egid_ &&
    negb ((old_rgid =? egid_) || (egid c =? egid_) || (sgid c =? egid_))) CAP_SETGID;
  if (denied : bool) then mret (- EPERM) else
  let new_egid := if given egid_ then egid_ else old_egid in
  _ ← clear_dumpable (negb (new_egid =? old_egid));
  _ ← set_cur (fun t =>
    if given rgid || (given egid_ && negb (egid_ =? old_rgid)) then t <| sgid := new_egid |> else t);
  _ ← set_cur (fun t => t <| fsgid := new_egid |> <| egid := new_egid |> <| gid := new_rgid |>);
  mret 0.

Definition sys_setgid (gid_ : Z) : M Z :=
  c ← gets cur;
  let old_egid := egid c in
  ok ← capable CAP_SETGID;
  if (ok : bool) then
    _ ← clear_dumpable (negb (old_egid =? gid_));
    _ ← set_cur (fun t => t <| fsgid := gid_ |> <| sgid := gid_ |> <| egid := gid_ |> <| gid := gid_ |>);
    mret 0
  else if (gid_ =? gid c) || (gid_ =? sgid c) then
    _ ← clear_dumpable (negb (old_egid =? gid_));
    _ ← set_cur (fun t => t <| fsgid := gid_ |> <| egid := gid_ |>);
    mret 0
  else mret (- EPERM).

(** ** User ids *)

Definition cap_emulate_setxuid (old_ruid old_euid old_suid : Z) : M unit :=
  _ ← set_cur (fun t =>
    if ((old_ruid =? 0) || (old_euid =? 0) || (old_suid =? 0)) &&
       (negb (uid t =? 0) && negb (euid t =? 0) && negb (suid t =? 0)) &&
       negb (keep_capabilities t)
    then t <| cap_permitted := 0 |> <| cap_effective := 0 |> else t);
  _ ← set_cur (fun t =>
    if (old_euid =? 0) && negb (euid t =? 0) then t <| cap_effective := 0 |> else t);
  set_cur (fun t =>
    if negb (old_euid =? 0) && (euid t =? 0) then t <| cap_effective := cap_permitted t |> else t).

(** [if (!issecure(SECURE_NO_SETUID_FIXUP)) cap_emulate_setxuid(...);] *)
Definition setuid_fixup (old_ruid old_euid old_suid : Z) : M unit :=
  secure ← issecure SECURE_NO_SETUID_FIXUP;
  if (secure : bool) then mret tt else cap_emulate_setxuid old_ruid old_euid old_suid.

Section SetUser.
Context (kmem_cache_alloc : M (option Z)).

Definition set_user (new_ruid : Z) (dumpclear : bool) : M Z :=
  new_user ← alloc_uid kmem_cache_alloc new_ruid;
  match new_user with
  | None => mret (- EAGAIN)
  | Some new_user =>
      old_user ← gets (fun s => user (cur s));
      _ ← modify (set_users old_user (fun u => u <| processes := processes u - 1 |>));
      _ ← modify (set_users new_user (fun u => u <| processes := processes u + 1 |>));
      _ ← clear_dumpable dumpclear;
      _ ← set_cur (fun t => t <| uid := new_ruid |> <| user := new_user |>);
      _ ← free_uid old_user;
      mret 0
  end.

(** [set_user] when the real uid changes *)
Definition change_user (c : bool) (new_ruid : Z) (dumpclear : bool) : M Z :=
  if c then set_user new_ruid dumpclear else mret 0.

Definition sys_setreuid (ruid euid_ : Z) : M Z :=
  c ← gets cur;
  let old_ruid := uid c in
  let old_euid := euid c in
  let old_suid := suid c in
  let new_ruid := if given ruid then ruid else old_ruid in
  denied ← refused (given ruid && (negb (old_ruid =? ruid) && negb (euid c =? ruid))) CAP_SETUID;
  if (denied : bool) then mret (- EPERM) else
  let new_euid := if given euid_ then euid_ else old_euid in
  denied ← refused (given euid_ && (negb (old_ruid =? euid_) && negb (euid c =? euid_) &&
    negb (suid c =? euid_))) CAP_SETUID;
  if (denied : bool) then mret (- EPERM) else
  r ← change_user (negb (new_ruid =? old_ruid)) new_ruid (negb (new_euid =? old_euid));
  if r <? 0 then mret (- EAGAIN) else
  _ ← clear_dumpable (negb (new_euid =? old_euid));
  _ ← set_cur (fun t => t <| euid := new_euid |> <| fsuid := new_euid |>);
  _ ← set_cur (fun t =>
    if given ruid || (given euid_ && negb (euid_ =? old_ruid)) then t <| suid := euid t |> else t);
  _ ← set_cur (fun t => t <| fsuid := euid t |>);
  _ ← setuid_fixup old_ruid old_euid old_suid;
  mret 0.

Definition sys_setuid (uid_ : Z) : M Z :=
  c ← gets cur;
  let old_euid := euid c in
  let old_ruid := uid c in
  let old_suid := suid c in
  ok ← capable CAP_SETUID;
  if negb (ok : bool) && (negb (uid_ =? uid c) && negb (uid_ =? old_suid)) then mret (- EPERM) else
  r ← change_user (ok && negb (uid_ =? old_ruid)) uid_ (negb (old_euid =? uid_));
  if r <? 0 then mret (- EAGAIN) else
  let new_suid := if ok : bool then uid_ else old_suid in
  _ ← clear_dumpable (negb (old_euid =? uid_));
  _ ← set_cur (fun t => t <| euid := uid_ |> <| fsuid := uid_ |>);
  _ ← set_cur (fun t => t <| suid := new_suid |>);
  _ ← setuid_fixup old_ruid old_euid old_suid;
  mret 0.

Definition sys_setresuid (ruid euid_ suid_ : Z) : M Z :=
  c ← gets cur;
  let old_ruid := uid c in
  let old_euid := euid c in
  let old_suid := suid c in
  ok ← capable CAP_SETUID;
  let foreign id := given id && negb (id =? uid c) && negb (id =? euid c) && negb (id =? suid c) in
  if negb (ok : bool) && (foreign ruid || foreign euid_ || foreign suid_) then mret (- EPERM) else
  r ← change_user (given ruid && negb (ruid =? uid c)) ruid (negb (euid_ =? euid c));
  if r <? 0 then mret (- EAGAIN) else
  _ ← clear_dumpable (given euid_ && negb (euid_ =? old_euid));
  _ ← set_cur (fun t => if given euid_ then t <| euid := euid_ |> else t);
  _ ← set_cur (fun t => t <| fsuid := euid t |>);
  _ ← set_cur (fun t => if given suid_ then t <| suid := suid_ |> else t);
  _ ← setuid_fixup old_ruid old_euid old_suid;
  mret 0.
End SetUser.

(** The three values are stored one after the other until a store fails. *)
Definition put_three (v1 v2 v3 : Z) (p1 p2 p3 : bool) : Z * list (option Z) :=
  let '(r, o1) := put_user p1 v1 in
  if truth r then (r, [o1; None; None]) else
  let '(r, o2) := put_user p2 v2 in
  if truth r then (r, [o1; o2; None]) else
  let '(r, o3) := put_user p3 v3 in (r, [o1; o2; o3]).

Definition sys_getresuid (p1 p2 p3 : bool) : M (Z * list (option Z)) :=
  gets (fun s => put_three (uid (cur s)) (euid (cur s)) (suid (cur s)) p1 p2 p3).

Definition sys_setresgid (rgid egid_ sgid_ : Z) : M Z :=
  c ← gets cur;
  ok ← capable CAP_SETGID;
  let foreign id := given id && negb (id =? gid c) && negb (id =? egid c) && negb (id =? sgid c) in
  if negb (ok : bool) && (foreign rgid || foreign egid_ || foreign sgid_) then mret (- EPERM) else
  _ ← clear_dumpable (given egid_ && negb (egid_ =? egid c));
  _ ← set_cur (fun t => if given egid_ then t <| egid := egid_ |> else t);
  _ ← set_cur (fun t => t <| fsgid := egid t |>);
  _ ← set_cur (fun t => if given rgid then t <| gid := rgid |> else t);
  _ ← set_cur (fun t => if given sgid_ then t <| sgid := sgid_ |> else t);
  mret 0.

Definition sys_getresgid (p1 p2 p3 : bool) : M (Z * list (option Z)) :=
  gets (fun s => put_three (gid (cur s)) (egid (cur s)) (sgid (cur s)) p1 p2 p3).

(** The condition of an [if] whose last disjunct is [capable(cap)]. *)
Definition or_capable (c : bool) (cap : Z) : M bool := if c then mret true else capable cap.

Definition sys_setfsuid (uid_ : Z) : M Z :=
  c ← gets cur;
  let old_fsuid := fsuid c in
  ok ← or_capable ((uid_ =? uid c) || (uid_ =? euid c) || (uid_ =? suid c) || (uid_ =? fsuid c))
         CAP_SETUID;
  _ ← clear_dumpable (ok && negb (uid_ =? old_fsuid));
  _ ← set_cur (fun t => if ok : bool then t <| fsuid := uid_ |> else t);
  secure ← issecure SECURE_NO_SETUID_FIXUP;
  _ ← (if (secure : bool) then mret tt else
       _ ← set_cur (fun t =>
         if (old_fsuid =? 0) && negb (fsuid t =? 0)
         then t <| cap_effective := cap_effective t .& Z.lnot CAP_FS_MASK |> else t);
       set_cur (fun t =>
         if negb (old_fsuid =? 0) && (fsuid t =? 0)
         then t <| cap_effective := cap_effective t .| (cap_permitted t .& CAP_FS_MASK) |> else t));
  mret (s32 old_fsuid).

Definition sys_setfsgid (gid_ : Z) : M Z :=
  c ← gets cur;
  let old_fsgid := fsgid c in
  ok ← or_capable ((gid_ =? gid c) || (gid_ =? egid c) || (gid_ =? sgid c) || (gid_ =? fsgid c))
         CAP_SETGID;
  _ ← clear_dumpable (ok && negb (gid_ =? old_fsgid));
  _ ← set_cur (fun t => if ok : bool then t <| fsgid := gid_ |> else t);
  mret (s32 old_fsgid).

(** ** Supplementary groups *)
Definition NGROUPS : Z := 32.

(** The result and what is copied to the user; [ok]: the buffer is writable. *)
Definition sys_getgroups (gidsetsize : Z) (ok : bool) : M (Z * option (list Z)) :=
  if gidsetsize <? 0 then mret (- EINVAL, None) else
  c ← gets cur;
  let i := ngroups c in
  if truth gidsetsize then
    if gidsetsize <? i then mret (- EINVAL, None)
    else if negb ok then mret (- EFAULT, None)
    else mret (i, Some (take (Z.to_nat i) (groups c)))
  else mret (i, None).

(** [grouplist]: the readable part of the user's list. *)
Definition sys_setgroups (gidsetsize : Z) (grouplist : list Z) : M Z :=
  ok ← capable CAP_SETGID;
  if negb ok then mret (- EPERM) else
  if NGROUPS <? u32 gidsetsize then mret (- EINVAL) else
  c ← gets cur;
  let copy := copy_from_user (groups c) grouplist gidsetsize in
  _ ← set_cur (fun t => t <| groups := snd copy |>);
  if truth (fst copy) then mret (- EFAULT) else
  _ ← set_cur (fun t => t <| ngroups := gidsetsize |>);
  mret 0.

Fixpoint member_loop (i : nat) (groups : list Z) (grp : Z) : Z :=
  match i with
  | O => 0
  | S i =>
      if hd 0 groups =? grp then 1 else member_loop i (tl groups) grp
  end.
Definition supplemental_group_member (grp : Z) (t : task) : Z :=
  if truth (ngroups t) then member_loop (Z.to_nat (ngroups t)) (groups t) grp else 0.

Definition in_group_p (grp : Z) (t : task) : Z :=
  if negb (grp =? fsgid t) then supplemental_group_member grp t else 1.
Definition in_egroup_p (grp : Z) (t : task) : Z :=
  if negb (grp =? egid t) then supplemental_group_member grp t else 1.

(** ** prctl *)
Definition PR_SET_PDEATHSIG : Z := 1.
Definition PR_GET_PDEATHSIG : Z := 2.
Definition PR_GET_DUMPABLE : Z := 3.
Definition PR_SET_DUMPABLE : Z := 4.
Definition PR_GET_KEEPCAPS : Z := 7.
Definition PR_SET_KEEPCAPS : Z := 8.
Definition NSIG : Z := 64.

Definition is_dumpable (s : system) : bool :=
  task_dumpable (cur s) && truth (default 0 (dumpable s !! mm (cur s))).

(** The result and what PR_GET_PDEATHSIG stores through [arg2] ([ok]: it is writable). The
    unaligned-access and FPU-emulation options are not supported on ARM. *)
Definition sys_prctl (option_ arg2 : Z) (ok : bool) : M (Z * option Z) :=
  if option_ =? PR_SET_PDEATHSIG then
    let sig := s32 arg2 in
    if (sig <? 0) || (NSIG <? sig) then mret (- EINVAL, None) else
    _ ← set_cur (fun t => t <| pdeath_signal := sig |>); mret (0, None)
  else if option_ =? PR_GET_PDEATHSIG then
    gets (fun s => put_user ok (pdeath_signal (cur s)))
  else if option_ =? PR_GET_DUMPABLE then
    gets (fun s => (if is_dumpable s then 1 else 0, None))
  else if option_ =? PR_SET_DUMPABLE then
    if negb (arg2 =? 0) && negb (arg2 =? 1) then mret (- EINVAL, None) else
    _ ← modify (fun s =>
      if is_dumpable s then s <| dumpable := <[mm (cur s) := arg2]> (dumpable s) |> else s);
    mret (0, None)
  else if option_ =? PR_GET_KEEPCAPS then
    gets (fun s => (if keep_capabilities (cur s) then 1 else 0, None))
  else if option_ =? PR_SET_KEEPCAPS then
    if negb (arg2 =? 0) && negb (arg2 =? 1) then mret (- EINVAL, None) else
    _ ← set_cur (fun t => t <| keep_capabilities := truth arg2 |>); mret (0, None)
  else mret (- EINVAL, None).

(** ** Capabilities *)
Definition LINUX_CAPABILITY_VERSION : Z := 429392688.

(** The header and the data at the user's addresses; [None] where reading faults,
    [wr]: the version can be written back. *)
Record cap_header := Header { hd_version : option Z; hd_pid : option Z; hd_wr : bool }.
Record cap_data := CapData { cd_effective : Z; cd_inheritable : Z; cd_permitted : Z }.

Definition sys_capget (h : cap_header) (ok : bool) : M (Z * option cap_data) :=
  match hd_version h with
  | None => mret (- EFAULT, None)
  | Some version =>
    if negb (version =? LINUX_CAPABILITY_VERSION) then
      mret (if hd_wr h then - EINVAL else - EFAULT, None)
    else match hd_pid h with
    | None => mret (- EFAULT, None)
    | Some pid =>
      if pid <? 0 then mret (- EINVAL, None) else
      me ← gets current;
      target ← (if truth pid && negb (pid =? me) then find_task_by_pid pid else mret (Some me));
      match target with
      | None => mret (- ESRCH, None)
      | Some target =>
        t ← gets (fun s => task_at s target);
        if negb ok then mret (- EFAULT, None)
        else mret (0, Some (CapData (cap_effective t) (cap_inheritable t) (cap_permitted t)))
      end
    end
  end.

Definition set_caps (d : cap_data) (t : task) : task :=
  t <| cap_effective := cd_effective d |> <| cap_inheritable := cd_inheritable d |>
    <| cap_permitted := cd_permitted d |>.

Definition cap_set_pg (pgrp_ : Z) (d : cap_data) : M unit :=
  for_each_task (fun target _ s =>
    if negb (pgrp (task_at s target) =? pgrp_) then (tt, s)
    else (tt, set_task target (set_caps d) s)) tt.

Definition cap_set_all (d : cap_data) : M unit :=
  for_each_task (fun target _ s =>
    if (target =? current s) || (target =? 1) then (tt, s)
    else (tt, set_task target (set_caps d) s)) tt.

(** The checks against the target's and the caller's sets, and the assignment. *)
Definition capset_apply (pid target : Z) (d : cap_data) : M Z :=
  t ← gets (fun s => task_at s target);
  c ← gets cur;
  if negb (cap_issubset (cd_inheritable d) (cap_combine (cap_inheritable t) (cap_permitted c)))
  then mret (- EPERM)
  else if negb (cap_issubset (cd_permitted d) (cap_combine (cap_permitted t) (cap_permitted c)))
  then mret (- EPERM)
  else if negb (cap_issubset (cd_effective d) (cd_permitted d)) then mret (- EPERM)
  else
    _ ← (if pid <? 0 then if pid =? -1 then cap_set_all d else cap_set_pg (- pid) d
         else modify (set_task target (set_caps d)));
    mret 0.

(** The target is looked up. *)
Definition capset_pid (pid : Z) (d : cap_data) : M Z :=
  me ← gets current;
  target ← (if (0 <? pid) && negb (pid =? me) then find_task_by_pid pid else mret (Some me));
  match target with
  | None => mret (- ESRCH)
  | Some target => capset_apply pid target d
  end.

Definition sys_capset (h : cap_header) (data : option cap_data) : M Z :=
  match hd_version h with
  | None => mret (- EFAULT)
  | Some version =>
    if negb (version =? LINUX_CAPABILITY_VERSION) then
      mret (if hd_wr h then - EINVAL else - EFAULT)
    else match hd_pid h with
    | None => mret (- EFAULT)
    | Some pid =>
      denied ← refused (truth pid) CAP_SETPCAP;
      if (denied : bool) then mret (- EPERM) else
      match data with
      | None => mret (- EFAULT)
      | Some d => capset_pid pid d
      end
    end
  end.

(** ** The calls of a process *)

Inductive call :=
| Setreuid (ruid euid : Z) | Setuid (uid : Z) | Setresuid (ruid euid suid : Z) | Setfsuid (uid : Z)
| Setregid (rgid egid : Z) | Setgid (gid : Z) | Setresgid (rgid egid sgid : Z) | Setfsgid (gid : Z)
| Setgroups (n : Z) (l : list Z) | Prctl (option arg2 : Z) (ok : bool)
| Capset (h : cap_header) (d : option cap_data).

Section Calls.
Context (kmem_cache_alloc : M (option Z)).

Definition run_call (c : call) : M Z :=
  match c with
  | Setreuid r e => sys_setreuid kmem_cache_alloc r e
  | Setuid u => sys_setuid kmem_cache_alloc u
  | Setresuid r e s => sys_setresuid kmem_cache_alloc r e s
  | Setfsuid u => sys_setfsuid u
  | Setregid r e => sys_setregid r e
  | Setgid g => sys_setgid g
  | Setresgid r e s => sys_setresgid r e s
  | Setfsgid g => sys_setfsgid g
  | Setgroups n l => sys_setgroups n l
  | Prctl o a ok => r ← sys_prctl o a ok; mret (fst r)
  | Capset h d => sys_capset h d
  end.

Fixpoint run_calls (cs : list call) (s : system) : system :=
  match cs with
  | [] => s
  | c :: cs => run_calls cs (snd (run_call c s))
  end.

(** The allocator does not touch the record of the task that calls it. *)
Hypothesis alloc_frame : forall s,
  same_frame s (snd (kmem_cache_alloc s)) /\ cur (snd (kmem_cache_alloc s)) = cur s.
Context {sb : Z}.

Lemma wp_frame {A} (m : M A) (Q : A -> task -> Prop) t :
  (forall s, same_frame s (snd (m s)) /\ cur (snd (m s)) = cur s) ->
  (forall a, Q a t) -> wp sb m Q t.
Proof. intros Hm H s <- _. destruct (Hm s) as [H1 H2]. rewrite H2. auto. Qed.

Lemma hash_walk_frame u l : forall s,
  same_frame s (snd (hash_walk u l s)) /\ cur (snd (hash_walk u l s)) = cur s.
Proof. induction l as [|x l IH]; intros s; cbn; [done|]. case_match; [apply IH|done]. Qed.

Lemma wp_alloc_uid u (Q : option Z -> task -> Prop) t :
  (forall a, Q a t) -> wp sb (alloc_uid kmem_cache_alloc u) Q t.
Proof.
  intros H. apply wp_bind, wp_frame; [intros; apply hash_walk_frame|].
  intros [a|]; [by apply wp_ret|]. apply wp_bind, wp_frame; [apply alloc_frame|].
  intros [n|]; [|by apply wp_ret]. apply wp_bind, wp_modify; [done|].
  apply wp_bind, wp_frame; [intros; apply hash_walk_frame|].
  intros [b|]; apply wp_bind, wp_modify; (done || by apply wp_ret).
Qed.

Lemma wp_free_uid u (Q : unit -> task -> Prop) t : Q tt t -> wp sb (free_uid u) Q t.
Proof. intros H s <- _. unfold free_uid. case_match; done. Qed.

(** [change_user] fails and changes nothing, or sets the real uid. *)
Lemma wp_change_user c r d (Q : Z -> task -> Prop) t :
  (c = true -> Q (- EAGAIN) t /\ forall a, Q 0 (t <| uid := r |> <| user := a |>)) ->
  (c = false -> Q 0 t) ->
  wp sb (change_user kmem_cache_alloc c r d) Q t.
Proof.
  intros H1 H2. destruct c; cbn; [|by apply wp_ret, H2]. destruct (H1 eq_refl) as [Hf Hok].
  apply wp_bind, wp_alloc_uid. intros [a|]; [|by apply wp_ret].
  apply wp_bind, (wp_cur user). apply wp_bind, wp_modify; [done|].
  apply wp_bind, wp_modify; [done|]. apply wp_bind, wp_clear_dumpable.
  apply wp_bind, wp_set_cur. apply wp_bind, wp_free_uid. apply wp_ret, Hok.
Qed.

Lemma wp_issecure x (Q : bool -> task -> Prop) t : (forall b, Q b t) -> wp sb (issecure x) Q t.
Proof. apply wp_gets. Qed.

(** *** Confinement *)

(** The user ids lie in [I], the permitted capabilities in [P], the effective ones
    among the permitted ones. *)
Record confined (I : list Z) (P : Z) (t : task) : Prop := {
  cf_uid : uid t ∈ I; cf_euid : euid t ∈ I; cf_suid : suid t ∈ I; cf_fsuid : fsuid t ∈ I;
  cf_perm : cap_issubset (cap_permitted t) P = true;
  cf_eff : cap_issubset (cap_effective t) (cap_permitted t) = true }.

Lemma wp_fixup I P r e s (Q : unit -> task -> Prop) t :
  confined I P t -> (forall u, confined I P u -> Q tt u) -> wp sb (setuid_fixup r e s) Q t.
Proof.
  intros Ht HQ. apply wp_bind, wp_issecure. intros [|]; [by apply wp_ret, HQ|].
  apply wp_bind, wp_set_cur. apply wp_bind, wp_set_cur. apply wp_set_cur. apply HQ.
  destruct Ht. repeat case_match; split; cbn in *; auto using cap_issubset_0, cap_issubset_refl.
Qed.

Lemma confined_no_cap I P t cap :
  0 <= cap -> confined I P t -> cap_raised P cap = false -> cap_raised (cap_effective t) cap = false.
Proof.
  intros Hc [] HP. eapply cap_raised_mono; [done| |exact HP]. eauto with cint.
Qed.

Lemma superpriv_confined I P t : confined I P t -> confined I P (t <| superpriv := true |>).
Proof. intros []. by split. Qed.

Lemma given_in (I : list Z) id old :
  old ∈ I -> (given id = true -> id ∈ I) -> (if given id then id else old) ∈ I.
Proof. destruct (given id); auto. Qed.

Ltac solve_ids :=
  repeat match goal with
  | H : (_ || _)%bool = true |- _ => apply orb_true_iff in H
  | H : (_ && _)%bool = false |- _ => apply andb_false_iff in H
  | H : _ /\ _ |- _ => destruct H
  | H : _ \/ _ |- _ => destruct H
  end; bool_hyps; subst; try done; auto.

(** The part of [sys_setreuid] after the checks and [set_user]. *)
Lemma wp_setreuid_tail I P c1 c2 new_euid r e s u :
  confined I P u -> new_euid ∈ I ->
  wp sb (_ ← clear_dumpable c1;
      _ ← set_cur (fun t => t <| euid := new_euid |> <| fsuid := new_euid |>);
      _ ← set_cur (fun t => if c2 : bool then t <| suid := euid t |> else t);
      _ ← set_cur (fun t => t <| fsuid := euid t |>);
      _ ← setuid_fixup r e s; mret 0) (fun _ => confined I P) u.
Proof.
  intros Hu He. apply wp_bind, wp_clear_dumpable, wp_bind, wp_set_cur, wp_bind, wp_set_cur,
    wp_bind, wp_set_cur, wp_bind, (wp_fixup I P).
  - destruct Hu, c2; by split.
  - intros v Hv. by apply wp_ret.
Qed.

Lemma setreuid_confined I P r e t :
  confined I P t -> cap_raised P CAP_SETUID = false ->
  wp sb (sys_setreuid kmem_cache_alloc r e) (fun _ => confined I P) t.
Proof.
  intros Ht HP. pose proof (confined_no_cap I P t CAP_SETUID ltac:(done) Ht HP) as Hno.
  apply wp_bind, wp_get_cur, wp_bind, wp_refused_no; [done| |intros; by apply wp_ret].
  intros Hr. apply wp_bind, wp_refused_no; [done| |intros; by apply wp_ret]. intros He.
  assert ((if given r then r else uid t) ∈ I) as HrI.
  { apply given_in; [apply Ht|]. intros Hg. rewrite Hg in Hr. cbn in Hr. destruct Ht. solve_ids. }
  assert ((if given e then e else euid t) ∈ I) as HeI.
  { apply given_in; [apply Ht|]. intros Hg. rewrite Hg in He. cbn in He. destruct Ht. solve_ids. }
  apply wp_bind, wp_change_user.
  - intros _. split; [by apply wp_ret|]. intros a. apply (wp_setreuid_tail I P); [|done].
    destruct Ht. by split.
  - intros _. by apply (wp_setreuid_tail I P).
Qed.

Lemma setuid_confined I P u t :
  confined I P t -> cap_raised P CAP_SETUID = false ->
  wp sb (sys_setuid kmem_cache_alloc u) (fun _ => confined I P) t.
Proof.
  intros Ht HP. pose proof (confined_no_cap I P t CAP_SETUID ltac:(done) Ht HP) as Hno.
  apply wp_bind, wp_get_cur, wp_bind, wp_capable_no; [done|]. cbn [negb andb].
  destruct (negb (u =? uid t) && negb (u =? suid t)) eqn:E; [by apply wp_ret|].
  assert (u ∈ I) as Hu by (destruct Ht; solve_ids).
  apply wp_bind, wp_ret, wp_bind, wp_clear_dumpable, wp_bind, wp_set_cur, wp_bind, wp_set_cur,
    wp_bind, (wp_fixup I P); [destruct Ht; by split|]. intros v Hv. by apply wp_ret.
Qed.

Lemma setresuid_confined I P r e s t :
  confined I P t -> cap_raised P CAP_SETUID = false ->
  wp sb (sys_setresuid kmem_cache_alloc r e s) (fun _ => confined I P) t.
Proof.
  intros Ht HP. pose proof (confined_no_cap I P t CAP_SETUID ltac:(done) Ht HP) as Hno.
  apply wp_bind, wp_get_cur, wp_bind, wp_capable_no; [done|]. cbn [negb andb].
  destruct (_ || _) eqn:E; [by apply wp_ret|]. bool_hyps. cbv beta in *.
  assert (forall id, given id && negb (id =? uid t) && negb (id =? euid t) && negb (id =? suid t)
            = false -> given id = true -> id ∈ I) as Hin
    by (intros id Hid Hg; rewrite Hg in Hid; destruct Ht; solve_ids).
  repeat match goal with
  | H : given ?id && _ && _ && _ = false |- _ => pose proof (Hin id H); clear H
  end. clear Hin.
  assert (forall v, confined I P v ->
    wp sb (_ ← clear_dumpable (given e && negb (e =? euid t));
        _ ← set_cur (fun t => if given e then t <| euid := e |> else t);
        _ ← set_cur (fun t => t <| fsuid := euid t |>);
        _ ← set_cur (fun t => if given s then t <| suid := s |> else t);
        _ ← setuid_fixup (uid t) (euid t) (suid t); mret 0) (fun _ => confined I P) v) as Htail.
  { intros v Hv. apply wp_bind, wp_clear_dumpable, wp_bind, wp_set_cur, wp_bind, wp_set_cur,
      wp_bind, wp_set_cur, wp_bind, (wp_fixup I P); [|intros; by apply wp_ret].
    destruct Hv. destruct (given e) eqn:Ee, (given s) eqn:Es; split; cbn; auto. }
  apply wp_bind, wp_change_user; intros Hc.
  - split; [by apply wp_ret|]. intros a. apply Htail. apply andb_true_iff in Hc as [Hg _].
    destruct Ht. split; cbn; auto.
  - by apply Htail.
Qed.

Lemma setfsuid_confined I P u t :
  confined I P t -> cap_raised P CAP_SETUID = false ->
  wp sb (sys_setfsuid u) (fun _ => confined I P) t.
Proof.
  intros Ht HP. pose proof (confined_no_cap I P t CAP_SETUID ltac:(done) Ht HP) as Hno.
  assert (forall v (ok : bool), confined I P v -> (ok = true -> u ∈ I) ->
    wp sb (_ ← clear_dumpable (ok && negb (u =? fsuid t));
        _ ← set_cur (fun t => if ok : bool then t <| fsuid := u |> else t);
        secure ← issecure SECURE_NO_SETUID_FIXUP;
        _ ← (if (secure : bool) then mret tt else
             _ ← set_cur (fun t0 => if (fsuid t =? 0) && negb (fsuid t0 =? 0)
               then t0 <| cap_effective := cap_effective t0 .& Z.lnot CAP_FS_MASK |> else t0);
             set_cur (fun t0 => if negb (fsuid t =? 0) && (fsuid t0 =? 0)
               then t0 <| cap_effective := cap_effective t0 .| (cap_permitted t0 .& CAP_FS_MASK) |>
               else t0));
        mret (s32 (fsuid t))) (fun _ => confined I P) v) as Htail.
  { intros v ok Hv Hok. apply wp_bind, wp_clear_dumpable, wp_bind, wp_set_cur, wp_bind, wp_issecure.
    intros secure. apply wp_bind.
    assert (confined I P (if ok then v <| fsuid := u |> else v)) as Hv'
      by (destruct Hv, ok; split; cbn; auto).
    destruct secure; [by apply wp_ret, wp_ret|].
    apply wp_bind, wp_set_cur, wp_set_cur, wp_ret. revert Hv'. cbv beta.
    generalize (if ok then v <| fsuid := u |> else v). intros x [].
    repeat case_match; split; cbn; auto; rewrite cap_issubset_spec in *;
      intros i Hi; rewrite ?Z.lor_spec, ?Z.land_spec; intros Hb;
      repeat (apply orb_true_iff in Hb as [Hb|Hb] || apply andb_true_iff in Hb as [Hb ?]); auto. }
  apply wp_bind, wp_get_cur. unfold or_capable. apply wp_bind.
  destruct (_ || _) eqn:E.
  - apply wp_ret, (Htail t true); [done|]. intros _. destruct Ht. solve_ids.
  - apply wp_capable_no; [done|]. by apply (Htail t false).
Qed.

(** *** Calls that leave the user ids and the capabilities alone *)

Definition same_uids (t u : task) : Prop :=
  uid u = uid t /\ euid u = euid t /\ suid u = suid t /\ fsuid u = fsuid t /\
  cap_effective u = cap_effective t /\ cap_permitted u = cap_permitted t.

Lemma same_confined I P t u : same_uids t u -> confined I P t -> confined I P u.
Proof. intros (H1 & H2 & H3 & H4 & H5 & H6) []. split; congruence. Qed.

Lemma gid_calls_same t :
  (forall r e, wp sb (sys_setregid r e) (fun _ => same_uids t) t) /\
  (forall g, wp sb (sys_setgid g) (fun _ => same_uids t) t) /\
  (forall r e s, wp sb (sys_setresgid r e s) (fun _ => same_uids t) t) /\
  (forall g, wp sb (sys_setfsgid g) (fun _ => same_uids t) t) /\
  (forall n l, wp sb (sys_setgroups n l) (fun _ => same_uids t) t).
Proof.
  unfold sys_setregid, sys_setgid, sys_setresgid, sys_setfsgid, or_capable, sys_setgroups.
  refine (conj _ (conj _ (conj _ (conj _ _)))); intros; wp_walk; cbn; repeat case_match; done.
Qed.

Lemma prctl_same o a ok t : wp sb (sys_prctl o a ok) (fun _ => same_uids t) t.
Proof.
  unfold sys_prctl. wp_walk; try done; try (by apply wp_gets).
  apply wp_modify; [intros s; by case_match|by apply wp_ret].
Qed.

(** *** Capability calls *)

Lemma for_tasks_cur (f : Z -> unit -> M unit) (R : task -> Prop) :
  (forall p s, R (cur s) -> same_frame s (snd (f p tt s)) /\ R (cur (snd (f p tt s)))) ->
  forall ps s, R (cur s) ->
    same_frame s (snd (for_tasks f ps tt s)) /\ R (cur (snd (for_tasks f ps tt s))).
Proof.
  intros Hf ps. induction ps as [|p ps IH]; intros s Hs; [done|].
  cbn [for_tasks]. unfold mbind, M_bind. destruct (Hf p s Hs) as [H1 H2].
  destruct (f p tt s) as [[] s1]. cbn in *. destruct (IH s1 H2) as [H3 H4].
  split; [|done]. unfold same_frame in *. intuition congruence.
Qed.

Lemma set_task_cur s p f : cur (set_task p f s) = if p =? current s then f (cur s) else cur s.
Proof.
  destruct (Z.eqb_spec p (current s)) as [->|Hne]; [apply cur_set_task|].
  unfold cur, task_at, set_task. cbn. by rewrite lookup_insert_ne.
Qed.

Lemma set_caps_confined I P d t :
  confined I P t -> cap_issubset (cd_permitted d) (cap_permitted t) = true ->
  cap_issubset (cd_effective d) (cd_permitted d) = true -> confined I P (set_caps d t).
Proof. intros [] H1 H2. split; cbn; eauto with cint. Qed.

Lemma capset_apply_cur I P pid target d s :
  confined I P (cur s) -> (target <> current s -> 0 <= pid) ->
  let s' := snd (capset_apply pid target d s) in
  same_frame s s' /\ confined I P (cur s').
Proof.
  intros Ht Hpid. unfold capset_apply, gets, mbind, M_bind.
  destruct (negb _); [done|]. destruct (negb (cap_issubset (cd_permitted d) _)) eqn:E2; [done|].
  destruct (negb (cap_issubset (cd_effective d) _)) eqn:E3; [done|].
  apply negb_false_iff in E2, E3.
  destruct (Z.ltb_spec pid 0) as [Hneg|Hneg].
  - assert (target = current s) as -> by (destruct (Z.eq_dec target (current s)); [done|lia]).
    change (task_at s (current s)) with (cur s) in E2. rewrite cap_combine_idem in E2.
    set (R := fun u => confined I P u /\ cap_issubset (cd_permitted d) (cap_permitted u) = true).
    assert (forall p u, R (cur u) -> same_frame u (set_task p (set_caps d) u) /\
      R (cur (set_task p (set_caps d) u))) as Hset.
    { intros p u [H1 H2]. split; [done|]. rewrite set_task_cur. case_match; [|done].
      split; [by apply set_caps_confined|]. cbn. apply cap_issubset_refl. }
    assert (forall (f : Z -> unit -> M unit),
      (forall p u, f p tt u = (tt, u) \/ f p tt u = (tt, set_task p (set_caps d) u)) ->
      let s' := snd (for_each_task f tt s) in same_frame s s' /\ confined I P (cur s')) as Hloop.
    { intros f Hf. destruct (for_tasks_cur f R) with (ps := task_list s) (s := s) as [H1 [H2 _]].
      - intros p u Hu. destruct (Hf p u) as [-> | ->]; [done|by apply Hset].
      - done.
      - by split. }
    assert (forall m : M unit, (let '(_, s') := m s in (mret 0 : M Z) s') = (0, snd (m s))) as Hm
      by (intros m; by destruct (m s)).
    destruct (pid =? -1); rewrite Hm; apply Hloop; intros p u; case_match; auto.
  - cbn. rewrite set_task_cur. split; [done|].
    destruct (Z.eqb_spec target (current s)) as [->|]; [|done].
    change (task_at s (current s)) with (cur s) in E2. rewrite cap_combine_idem in E2.
    by apply set_caps_confined.
Qed.

(** The effective set of the caller stays within its permitted set, and the permitted set does not
    grow, whatever target [sys_capset] is given. *)
Lemma capset_confined I P h d t :
  confined I P t -> wp sb (sys_capset h d) (fun _ => confined I P) t.
Proof.
  intros Ht. unfold sys_capset. destruct (hd_version h); [|by apply wp_ret].
  destruct (negb _); [by apply wp_ret|]. destruct (hd_pid h) as [pid|]; [|by apply wp_ret].
  assert (forall u, confined I P u ->
    wp sb (match d with None => mret (- EFAULT) | Some d => capset_pid pid d end)
      (fun _ => confined I P) u) as Hd.
  { intros u Hu. destruct d as [d|]; [|by apply wp_ret]. intros s <- _.
    unfold capset_pid, gets, mbind, M_bind, find_task_by_pid.
    destruct ((0 <? pid) && negb (pid =? current s)) eqn:E.
    - cbn. destruct (tasks s !! pid); cbn; [|done]. apply capset_apply_cur; [done|]. bool_hyps. lia.
    - cbn. by apply capset_apply_cur. }
  apply wp_bind, wp_refused; [|intros; by apply wp_ret].
  intros _. split; apply Hd; [done|by apply superpriv_confined].
Qed.

Lemma run_call_confined I P c t :
  confined I P t -> cap_raised P CAP_SETUID = false -> wp sb (run_call c) (fun _ => confined I P) t.
Proof.
  intros Ht HP. pose proof (gid_calls_same t) as (G1 & G2 & G3 & G4 & G5).
  assert (forall (m : M Z), wp sb m (fun _ => same_uids t) t -> wp sb m (fun _ => confined I P) t) as Hsame
    by (intros m; apply wp_mono; intros _ u Hu; by eapply same_confined).
  destruct c; cbn [run_call]; auto using setreuid_confined, setuid_confined, setresuid_confined,
    setfsuid_confined, capset_confined.
  apply Hsame, wp_bind. eapply wp_mono; [|apply prctl_same]. intros. by apply wp_ret.
Qed.
End Calls.

(** ** Theorems *)

(** What is assumed of the slab allocator: it leaves the record of the task that calls it alone. *)
Definition frames_caller (alloc : M (option Z)) : Prop := forall s,
  same_frame s (snd (alloc s)) /\ cur (snd (alloc s)) = cur s.

Lemma run_calls_confined alloc I P cs : frames_caller alloc ->
  cap_raised P CAP_SETUID = false -> forall s,
  confined I P (cur s) -> confined I P (cur (run_calls alloc cs s)).
Proof.
  intros Ha HP. induction cs as [|c cs IH]; intros s Hs; cbn [run_calls]; [done|].
  apply IH. by destruct (wp_use (run_call alloc c) (fun _ => confined I P) s eq_refl
    (run_call_confined alloc Ha I P c (cur s) Hs HP)).
Qed.

(** C25. Confinement: a process whose permitted capabilities lie in [P] without CAP_SETUID, whose
    effective capabilities are among the permitted ones and whose four user ids lie in [I] can
    make any sequence of set*uid, set*gid, setgroups, prctl and capset calls, with any arguments:
    its user ids stay in [I], its permitted set stays in [P], and its effective set stays
    within its permitted set. *)
Theorem unprivileged_stays_confined alloc I P cs s :
  frames_caller alloc -> cap_raised P CAP_SETUID = false ->
  confined I P (cur s) -> confined I P (cur (run_calls alloc cs s)).
Proof. intros Ha HP Hs. by apply run_calls_confined. Qed.

(** An allocator that hands out a fresh address, and a process of user 500 with saved uid 0 and
    one capability. *)
Definition alloc_fresh : M (option Z) := fun s => (Some (1 + Z.of_nat (size (users s))), s).
Definition demo_task : task :=
  no_task <| uid := 500 |> <| euid := 500 |> <| suid := 0 |> <| fsuid := 500 |>
    <| cap_permitted := 1 |>.
Definition demo_system : system :=
  System {[7 := demo_task]} [7] 7 ∅ ∅ {[0 := User 500 1 1 0]} {[245 := [0]]} 0 [] [] 1.

Lemma unprivileged_stays_confined_witness :
  let s := run_calls alloc_fresh [Setuid 0; Setreuid 1000 NOID; Setfsuid 0] demo_system in
  confined [0; 500] 1 (cur s) /\ euid (cur s) = 0.
Proof.
  split; [|vm_compute; reflexivity]. apply unprivileged_stays_confined.
  - intros s. done.
  - reflexivity.
  - split; (decide_now || reflexivity).
Defined.

(** [setuid(u)] by a privileged process *)
Lemma setuid_privileged alloc u sb t :
  frames_caller alloc -> truth ((1 .<< SECURE_NO_SETUID_FIXUP) .& sb) = false ->
  cap_raised (cap_effective t) CAP_SETUID = true -> keep_capabilities t = false ->
  (uid t = 0 \/ euid t = 0 \/ suid t = 0) -> u <> 0 ->
  wp sb (sys_setuid alloc u) (fun r t' => 0 <= r -> confined [u] 0 t') t.
Proof.
  intros Ha Hsb Hcap Hk Hroot Hu. apply wp_bind, wp_get_cur, wp_bind, wp_capable; [|congruence].
  intros _. cbn [negb andb].
  assert (forall v, uid v = u -> keep_capabilities v = false ->
    wp sb (_ ← clear_dumpable (negb (euid t =? u));
      _ ← set_cur (fun t => t <| euid := u |> <| fsuid := u |>);
      _ ← set_cur (fun t => t <| suid := u |>);
      _ ← setuid_fixup (uid t) (euid t) (suid t); mret 0)
      (fun r t' => 0 <= r -> confined [u] 0 t') v) as Htail.
  { intros v Hv Hkv. apply wp_bind, wp_clear_dumpable, wp_bind, wp_set_cur, wp_bind, wp_set_cur,
      wp_bind. intros s Hs Hb. unfold setuid_fixup, issecure, gets, mbind, M_bind. rewrite Hb.
    cbn [Z.add truth Z.land Z.eqb negb SECUREBITS_DEFAULT] in *.
    change (truth ((1 .<< (SECURE_NO_SETUID_FIXUP + 1)) .& 0)) with false. cbv iota. rewrite Hsb.
    revert s Hs Hb. change (wp sb (cap_emulate_setxuid (uid t) (euid t) (suid t))
      (fun _ u0 => wp sb (mret 0) (fun r t' => 0 <= r -> confined [u] 0 t') u0)
      (v <| euid := u |> <| fsuid := u |> <| suid := u |>)).
    apply wp_bind, wp_set_cur, wp_bind, wp_set_cur, wp_set_cur, wp_ret. intros _.
    assert (forall b, ((uid t =? 0) || (euid t =? 0) || (suid t =? 0)) && b = b) as Hor.
    { intros b. destruct Hroot as [-> |[-> | ->]]; cbn; by rewrite ?orb_true_r. }
    cbn. rewrite Hv, Hkv, (proj2 (Z.eqb_neq u 0) Hu), Hor. cbn.
    assert (u ∈ [u]) by set_solver.
    destruct (euid t =? 0); split; cbn; rewrite ?(proj2 (Z.eqb_neq u 0) Hu); cbn; by rewrite ?Hv. }
  apply wp_bind, wp_change_user; [done| |].
  - intros _. split; [apply wp_ret; unfold EAGAIN; lia|]. intros a. by apply Htail.
  - intros Hc. apply Htail; [|done]. apply negb_false_iff, Z.eqb_eq in Hc. done.
Qed.

(** C26. Dropping root with [setuid] is permanent: when a process that has CAP_SETUID, has uid 0
    among its ids and does not keep capabilities calls [setuid(u)] with [u <> 0] and it succeeds,
    then after any further calls its four user ids are all [u] and it has no capabilities. *)
Theorem setuid_drop_is_permanent alloc u s cs :
  frames_caller alloc -> truth ((1 .<< SECURE_NO_SETUID_FIXUP) .& securebits s) = false ->
  cap_raised (cap_effective (cur s)) CAP_SETUID = true -> keep_capabilities (cur s) = false ->
  (uid (cur s) = 0 \/ euid (cur s) = 0 \/ suid (cur s) = 0) -> u <> 0 ->
  fst (sys_setuid alloc u s) = 0 ->
  let t := cur (run_calls alloc cs (snd (sys_setuid alloc u s))) in
  uid t = u /\ euid t = u /\ suid t = u /\ fsuid t = u /\ cap_permitted t = 0 /\ cap_effective t = 0.
Proof.
  intros Ha Hsb Hcap Hk Hroot Hu H0 t.
  destruct (wp_use (sys_setuid alloc u) _ s eq_refl
    (setuid_privileged alloc u (securebits s) (cur s) Ha Hsb Hcap Hk Hroot Hu)) as [Hc _].
  rewrite H0 in Hc. specialize (Hc ltac:(lia)).
  apply (run_calls_confined alloc [u] 0 cs Ha eq_refl) in Hc. fold t in Hc.
  assert (forall x, cap_issubset x 0 = true -> x = 0) as Hz.
  { unfold cap_issubset, truth. intros x Hx. apply negb_true_iff, negb_false_iff, Z.eqb_eq in Hx.
    change (Z.lnot 0) with (-1) in Hx. by rewrite Z.land_m1_r in Hx. }
  destruct Hc as [H1 H2 H3 H4 H5 H6]. apply Hz in H5. rewrite H5 in *. apply Hz in H6.
  apply list_elem_of_singleton in H1, H2, H3, H4. by repeat split.
Qed.

Definition root_system : system :=
  System {[7 := no_task <| cap_effective := 4294967039 |> <| cap_permitted := 4294967039 |>]} [7] 7 ∅ ∅
    {[0 := User 0 2 1 0]} {[0 := [0]]} 0 [] [] 1.

Lemma setuid_drop_is_permanent_witness :
  euid (cur (run_calls alloc_fresh [Setresuid 0 0 0; Setuid 0] (snd (sys_setuid alloc_fresh 500 root_system))))
    = 500 /\ uid (cur root_system) = 0.
Proof.
  split; [|reflexivity].
  apply (setuid_drop_is_permanent alloc_fresh 500 root_system [Setresuid 0 0 0; Setuid 0]);
    try (vm_compute; reflexivity); [intros s; done|left; reflexivity|lia].
Defined.

(** The credentials, without the flag that says that a privilege was used. *)
Definition unpriv (t : task) : task := t <| superpriv := false |>.

(** A user- or group-id call that returns an error has changed nothing in the calling task
    but the flag that records the use of a privilege. *)
Theorem failed_setid_changes_nothing alloc c s :
  frames_caller alloc ->
  match c with
  | Setreuid _ _ | Setuid _ | Setresuid _ _ _ | Setregid _ _ | Setgid _ | Setresgid _ _ _ => True
  | _ => False
  end ->
  fst (run_call alloc c s) < 0 ->
  unpriv (cur (snd (run_call alloc c s))) = unpriv (cur s).
Proof.
  intros Ha Hc. apply (wp_use (run_call alloc c)
    (fun r t => r < 0 -> unpriv t = unpriv (cur s)) s eq_refl).
  assert (forall (Q : unit -> task -> Prop) r e su v, (forall u, Q tt u) ->
    wp (securebits s) (setuid_fixup r e su) Q v) as Hfix.
  { intros Q r e su v HQ. apply wp_bind, wp_issecure. intros [|]; wp_walk; apply HQ. }
  destruct c; try done; cbn [run_call];
    unfold sys_setreuid, sys_setuid, sys_setresuid, sys_setregid, sys_setgid, sys_setresgid;
    repeat first
      [ apply wp_ret | apply Hfix; intros | apply wp_bind | apply wp_get_cur
      | apply wp_clear_dumpable | apply wp_set_cur
      | apply wp_change_user; [done|intros _; split; [|intros a]|intros _]
      | apply wp_capable; intros | apply wp_refused; intros; [split|]
      | match goal with |- wp _ (if ?b then _ else _) _ _ => destruct b eqn:? end ];
    intros; try lia; try done.
Qed.

Lemma failed_setid_changes_nothing_witness :
  fst (run_call alloc_fresh (Setresuid 500 1000 500) demo_system) = - EPERM /\
  unpriv (cur (snd (run_call alloc_fresh (Setresuid 500 1000 500) demo_system))) = unpriv demo_task.
Proof.
  split; [vm_compute; reflexivity|].
  apply (failed_setid_changes_nothing alloc_fresh (Setresuid 500 1000 500) demo_system).
  - intros s. done.
  - exact I.
  - vm_compute. reflexivity.
Defined.

(** [setuid_fixup] and the ids *)
Lemma wp_fixup_ids sb r e s (Q : unit -> task -> Prop) t :
  (forall u, uid u = uid t -> euid u = euid t -> suid u = suid t -> fsuid u = fsuid t -> Q tt u) ->
  wp sb (setuid_fixup r e s) Q t.
Proof.
  intros HQ. apply wp_bind, wp_issecure. intros [|]; [by apply wp_ret, HQ|].
  apply wp_bind, wp_set_cur, wp_bind, wp_set_cur, wp_set_cur, HQ; repeat case_match; done.
Qed.

Lemma setresuid_ids alloc sb r e s t : frames_caller alloc ->
  wp sb (sys_setresuid alloc r e s) (fun res t' => res = 0 ->
    uid t' = (if given r then r else uid t) /\ euid t' = (if given e then e else euid t) /\
    suid t' = (if given s then s else suid t) /\ fsuid t' = euid t') t.
Proof.
  intros Ha. apply wp_bind, wp_get_cur, wp_bind.
  assert (forall (ok : bool) v, uid v = uid t -> euid v = euid t -> suid v = suid t ->
    wp sb (if negb ok && ((given r && negb (r =? uid t) && negb (r =? euid t) && negb (r =? suid t)) ||
                       (given e && negb (e =? uid t) && negb (e =? euid t) && negb (e =? suid t)) ||
                       (given s && negb (s =? uid t) && negb (s =? euid t) && negb (s =? suid t)))
        then mret (- EPERM) else
        r0 ← change_user alloc (given r && negb (r =? uid t)) r (negb (e =? euid t));
        if r0 <? 0 then mret (- EAGAIN) else
        _ ← clear_dumpable (given e && negb (e =? euid t));
        _ ← set_cur (fun t => if given e then t <| euid := e |> else t);
        _ ← set_cur (fun t => t <| fsuid := euid t |>);
        _ ← set_cur (fun t => if given s then t <| suid := s |> else t);
        _ ← setuid_fixup (uid t) (euid t) (suid t); mret 0)
      (fun res t' => res = 0 ->
         uid t' = (if given r then r else uid t) /\ euid t' = (if given e then e else euid t) /\
         suid t' = (if given s then s else suid t) /\ fsuid t' = euid t') v) as Hv.
  2: { apply wp_capable; intros _; by apply Hv. }
  intros ok v H1 H2 H3. destruct (_ && _); [by apply wp_ret|].
  apply wp_bind, wp_change_user; [done|..].
  - intros Hc. apply andb_true_iff in Hc as [-> _]. split; [by apply wp_ret|]. intros a.
    apply wp_bind, wp_clear_dumpable, wp_bind, wp_set_cur, wp_bind, wp_set_cur, wp_bind, wp_set_cur,
      wp_bind, wp_fixup_ids.
    intros u Hu1 Hu2 Hu3 Hu4. apply wp_ret. intros _. rewrite Hu1, Hu2, Hu3, Hu4.
    destruct (given e), (given s); cbn; auto.
  - intros Hc.
    apply wp_bind, wp_clear_dumpable, wp_bind, wp_set_cur, wp_bind, wp_set_cur, wp_bind, wp_set_cur,
      wp_bind, wp_fixup_ids.
    intros u Hu1 Hu2 Hu3 Hu4. apply wp_ret. intros _. rewrite Hu1, Hu2, Hu3, Hu4.
    assert (uid v = if given r then r else uid t) as Hr.
    { destruct (given r); [|done]. apply andb_false_iff in Hc as [|Hc]; [done|]. bool_hyps. congruence. }
    destruct (given e), (given s); cbn; auto.
Qed.

(** [setresuid] that returns 0 has set exactly the ids it was given, the others are
    unchanged, and the file-system uid follows the effective uid; without CAP_SETUID it succeeds or
    runs out of memory if every id given is one of the three current ones, and otherwise is refused. *)
Theorem setresuid_exact alloc r e su s :
  frames_caller alloc ->
  let t := cur s in let t' := cur (snd (sys_setresuid alloc r e su s)) in
  let res := fst (sys_setresuid alloc r e su s) in
  (res = 0 ->
     uid t' = (if given r then r else uid t) /\ euid t' = (if given e then e else euid t) /\
     suid t' = (if given su then su else suid t) /\ fsuid t' = euid t') /\
  (cap_raised (cap_effective t) CAP_SETUID = false ->
     ((res = 0 \/ res = - EAGAIN) <->
        forall id, id ∈ [r; e; su] -> given id = true -> id ∈ [uid t; euid t; suid t]) /\
     (res = 0 \/ res = - EAGAIN \/ res = - EPERM)).
Proof.
  intros Ha t t' res.
  split; [by destruct (wp_use _ _ s eq_refl (setresuid_ids alloc (securebits s) r e su (cur s) Ha))|].
  intros Hno. set (foreign id := given id && negb (id =? uid t) && negb (id =? euid t) && negb (id =? suid t)).
  assert (forall id, foreign id = false <-> (given id = true -> id ∈ [uid t; euid t; suid t])) as Hf.
  { intros id. unfold foreign. rewrite !elem_of_cons, elem_of_nil.
    destruct (given id), (Z.eqb_spec id (uid t)), (Z.eqb_spec id (euid t)), (Z.eqb_spec id (suid t));
      cbn; naive_solver. }
  assert ((forall id, id ∈ [r; e; su] -> given id = true -> id ∈ [uid t; euid t; suid t]) <->
          foreign r || foreign e || foreign su = false) as ->.
  { rewrite !orb_false_iff, !Hf. setoid_rewrite elem_of_cons. setoid_rewrite elem_of_cons.
    setoid_rewrite list_elem_of_singleton. naive_solver. }
  apply (wp_use (sys_setresuid alloc r e su) (fun x _ =>
    ((x = 0 \/ x = - EAGAIN) <-> foreign r || foreign e || foreign su = false) /\
    (x = 0 \/ x = - EAGAIN \/ x = - EPERM)) s eq_refl).
  apply wp_bind, wp_get_cur, wp_bind, wp_capable_no; [done|]. cbn [negb andb].
  fold t. fold (foreign r) (foreign e) (foreign su).
  destruct (foreign r || foreign e || foreign su); [apply wp_ret; unfold EPERM, EAGAIN; intuition lia|].
  apply wp_bind, wp_change_user; [done|intros _; split; [apply wp_ret; intuition|intros a]|intros _];
    apply wp_bind, wp_clear_dumpable, wp_bind, wp_set_cur, wp_bind, wp_set_cur, wp_bind, wp_set_cur,
      wp_bind, wp_fixup_ids; intros; apply wp_ret; intuition.
Qed.

Lemma setresuid_exact_witness :
  let t' := cur (snd (sys_setresuid alloc_fresh NOID 0 500 demo_system)) in
  euid t' = 0 /\ suid t' = 500 /\ uid t' = 500.
Proof.
  destruct (setresuid_exact alloc_fresh NOID 0 500 demo_system) as [H _]; [intros s; done|].
  destruct H as (H1 & H2 & H3 & _); [vm_compute; reflexivity|].
  split; [exact H2|split; [exact H3|exact H1]].
Defined.

(** *** Groups *)

Lemma member_loop_spec i grp : forall l,
  (i <= length l)%nat -> member_loop i l grp = if bool_decide (grp ∈ take i l) then 1 else 0.
Proof.
  induction i as [|i IH]; intros l Hl; [done|]. destruct l as [|x l]; cbn in *; [lia|].
  destruct (Z.eqb_spec x grp) as [->|Hne].
  - rewrite bool_decide_true by (left). done.
  - rewrite IH by lia. apply (f_equal (fun b : bool => if b then 1 else 0)).
    apply bool_decide_ext. rewrite elem_of_cons. intuition congruence.
Qed.

(** The group table of a task is an array of NGROUPS entries. *)
Definition groups_ok (t : task) : Prop := len (groups t) = NGROUPS /\ 0 <= ngroups t <= NGROUPS.

(** Group membership and its round trip: [setgroups] with a readable list of [n] groups
    succeeds for a process with CAP_SETGID, keeps the table well-formed, [getgroups] then returns
    exactly that list, and [in_group_p] and [in_egroup_p] hold for exactly the listed groups and
    the file-system (effective) gid. *)
Theorem setgroups_getgroups s n l :
  groups_ok (cur s) -> cap_raised (cap_effective (cur s)) CAP_SETGID = true ->
  0 <= n <= NGROUPS -> n <= len l ->
  let s' := snd (sys_setgroups n l s) in let t' := cur s' in
  let l' := take (Z.to_nat n) l in
  fst (sys_setgroups n l s) = 0 /\ groups_ok t' /\
  (forall size, n <= size -> 0 < size -> sys_getgroups size true s' = ((n, Some l'), s')) /\
  (forall g, in_group_p g t' = (if bool_decide (g = fsgid t' \/ g ∈ l') then 1 else 0)) /\
  (forall g, in_egroup_p g t' = (if bool_decide (g = egid t' \/ g ∈ l') then 1 else 0)).
Proof.
  intros [Hlen Hng] Hcap Hn Hl s' t' l'. pose proof (len_take l n ltac:(lia) : len l' = n) as Hl'.
  assert (fst (sys_setgroups n l s) = 0 /\ exists rest, len (l' ++ rest) = NGROUPS /\
    groups t' = l' ++ rest /\ ngroups t' = n) as (H0 & rest & Hlr & Hgr & Hnt).
  { apply (wp_use (sys_setgroups n l) (fun r t => r = 0 /\ exists rest, len (l' ++ rest) = NGROUPS /\
      groups t = l' ++ rest /\ ngroups t = n) s eq_refl).
    apply wp_bind, wp_capable; [|congruence]. intros _. cbn [negb].
    rewrite u32_id by (unfold NGROUPS in Hn; lia). destruct (Z.ltb_spec NGROUPS n); [lia|].
    apply wp_bind, wp_get_cur, wp_bind, wp_set_cur.
    assert (copy_from_user (groups ((cur s) <| superpriv := true |>)) l n =
      (0, l' ++ drop (Z.to_nat n) (groups (cur s)))) as ->.
    { unfold copy_from_user. fold l'. rewrite Hl'.
      by rewrite Z.sub_diag. }
    cbn [fst snd truth Z.eqb negb]. apply wp_bind, wp_set_cur, wp_ret. split; [done|].
    eexists. split; [|done]. rewrite len_app, Hl'.
    unfold len in *. rewrite length_drop. lia. }
  assert (take (Z.to_nat n) (groups t') = l') as Htk.
  { rewrite Hgr. apply take_app_length'. unfold l', len in *. rewrite length_take. lia. }
  assert (forall g, supplemental_group_member g t' = if bool_decide (g ∈ l') then 1 else 0) as Hm.
  { intros g. unfold supplemental_group_member. rewrite Hnt, <- Htk. unfold truth.
    destruct (Z.eqb_spec n 0) as [->|]; cbn [negb]; [by rewrite bool_decide_false by set_solver|].
    apply member_loop_spec. rewrite Hgr. unfold len in *. lia. }
  split; [done|]. split; [split; [by rewrite Hgr|lia]|]. split.
  - intros size Hs Hpos. unfold sys_getgroups, gets, mbind, M_bind.
    destruct (Z.ltb_spec size 0); [lia|]. cbn. fold t'. rewrite Hnt, Htk.
    unfold truth. destruct (Z.eqb_spec size 0); [lia|]. cbn. by destruct (Z.ltb_spec size n); [lia|].
  - split; intros g; [unfold in_group_p|unfold in_egroup_p]; rewrite Hm;
      [destruct (Z.eqb_spec g (fsgid t'))|destruct (Z.eqb_spec g (egid t'))]; cbn;
      repeat case_bool_decide; intuition congruence.
Qed.

Lemma setgroups_getgroups_witness :
  let s := root_system <| tasks := {[7 := no_task <| cap_effective := 4294967039 |>
             <| groups := replicate 32 0 |>]} |> in
  in_group_p 20 (cur (snd (sys_setgroups 2 [10; 20] s))) = 1 /\
  in_group_p 30 (cur (snd (sys_setgroups 2 [10; 20] s))) = 0.
Proof.
  intros s.
  destruct (setgroups_getgroups s 2 [10; 20]) as (_ & _ & _ & H & _);
    [split; [reflexivity|vm_compute; split; discriminate]|vm_compute; reflexivity|
     vm_compute; split; discriminate|vm_compute; discriminate|].
  split; [exact (H 20)|exact (H 30)].
Defined.

(** A [setgroups] call that fails with EFAULT is not harmless: the groups it could not
    read are overwritten with 0, so the process afterwards belongs to group 0. *)
Theorem setgroups_fault_joins_group_0 :
  let s := root_system <| tasks := {[7 := no_task <| cap_effective := 4294967039 |> <| egid := 100 |>
             <| fsgid := 100 |> <| ngroups := 2 |> <| groups := [10; 20] ++ replicate 30 0 |>]} |> in
  fst (sys_setgroups 2 [] s) = - EFAULT /\
  in_group_p 0 (cur s) = 0 /\ in_group_p 0 (cur (snd (sys_setgroups 2 [] s))) = 1.
Proof. vm_compute. auto. Qed.

(** *** Capability calls *)

Lemma capset_apply_one pid target d s :
  0 <= pid -> fst (capset_apply pid target d s) = 0 ->
  let t := task_at s target in
  cap_issubset (cd_inheritable d) (cap_combine (cap_inheritable t) (cap_permitted (cur s))) = true /\
  cap_issubset (cd_permitted d) (cap_combine (cap_permitted t) (cap_permitted (cur s))) = true /\
  cap_issubset (cd_effective d) (cd_permitted d) = true /\
  snd (capset_apply pid target d s) = set_task target (set_caps d) s.
Proof.
  intros Hpid. unfold capset_apply, gets, mbind, M_bind.
  destruct (cap_issubset (cd_inheritable d) _) eqn:E1; cbn [negb]; [|discriminate].
  destruct (cap_issubset (cd_permitted d) _) eqn:E2; cbn [negb]; [|discriminate].
  destruct (cap_issubset (cd_effective d) _) eqn:E3; cbn [negb]; [|discriminate].
  by destruct (Z.ltb_spec pid 0); [lia|].
Qed.

(** The rules of [capset] for one target (a pid or, with 0, the caller): when it returns 0, the
    inheritable and permitted capabilities it adds come from the caller's permitted set, the new
    effective set is within the new permitted set, the target has exactly the sets given, and
    every other task's record is unchanged up to the privilege-used flag. *)
Theorem capset_rules pid wr d s :
  0 <= pid ->
  let h := Header (Some LINUX_CAPABILITY_VERSION) (Some pid) wr in
  let s' := snd (sys_capset h (Some d) s) in
  let target := if pid =? 0 then current s else pid in
  fst (sys_capset h (Some d) s) = 0 ->
  let t := task_at s target in let t' := task_at s' target in
  cap_issubset (cap_inheritable t') (cap_combine (cap_inheritable t) (cap_permitted (cur s))) = true /\
  cap_issubset (cap_permitted t') (cap_combine (cap_permitted t) (cap_permitted (cur s))) = true /\
  cap_issubset (cap_effective t') (cap_permitted t') = true /\
  unpriv t' = unpriv (set_caps d t) /\
  forall q, q <> target -> unpriv (task_at s' q) = unpriv (task_at s q).
Proof.
  intros Hpid h s' target. subst s'.
  assert (forall v, current v = current s -> tasks v = tasks s \/
      tasks v = <[current s := (cur s) <| superpriv := true |>]> (tasks s) ->
    let r := capset_pid pid d v in fst r = 0 ->
    let t := task_at s target in let t' := task_at (snd r) target in
    cap_issubset (cap_inheritable t') (cap_combine (cap_inheritable t) (cap_permitted (cur s))) = true /\
    cap_issubset (cap_permitted t') (cap_combine (cap_permitted t) (cap_permitted (cur s))) = true /\
    cap_issubset (cap_effective t') (cap_permitted t') = true /\
    unpriv t' = unpriv (set_caps d t) /\
    forall q, q <> target -> unpriv (task_at (snd r) q) = unpriv (task_at s q)) as Hv.
  { intros v Hcv Htv r Hr0.
    assert (forall q, exists b, task_at v q = (task_at s q) <| superpriv := b |>) as Hat.
    { intros q. unfold task_at at 1. destruct Htv as [-> | ->].
      - exists (superpriv (task_at s q)). fold (task_at s q). by destruct (task_at s q).
      - destruct (decide (q = current s)) as [->|].
        + rewrite lookup_insert_eq. by exists true.
        + rewrite lookup_insert_ne by done. exists (superpriv (task_at s q)). fold (task_at s q).
          by destruct (task_at s q). }
    assert (r = capset_apply pid target d v) as Hr.
    { revert Hr0. unfold r, capset_pid, gets, mbind, M_bind, find_task_by_pid, target. rewrite Hcv.
      destruct (Z.eqb_spec pid 0) as [->|]; [done|]. destruct (Z.ltb_spec 0 pid); [|lia].
      destruct (Z.eqb_spec pid (current s)) as [->|]; [done|]. cbn.
      by destruct (tasks v !! pid). }
    rewrite Hr in *. destruct (capset_apply_one pid target d v Hpid Hr0) as (H1 & H2 & H3 & ->).
    destruct (Hat target) as [b Hb]. destruct (Hat (current s)) as [b' Hb'].
    unfold cur in H1, H2. rewrite Hcv in H1, H2. rewrite Hb, Hb' in H1, H2. cbn in H1, H2.
    rewrite task_at_set, decide_True, Hb by done. do 3 (split; [done|]). split; [done|].
    intros q Hq. rewrite task_at_set, decide_False by done. by destruct (Hat q) as [c ->]. }
  unfold sys_capset. cbn [h hd_version hd_pid]. rewrite Z.eqb_refl. cbn [negb].
  unfold refused, capable, mbind, M_bind, gets. destruct (truth pid); [|by apply (Hv s); [|left]].
  destruct (cap_raised _ _); cbn; [|unfold EPERM; lia].
  apply (Hv (set_task (current s) _ s)); [done|by right].
Qed.

Lemma capset_rules_witness :
  let h := Header (Some LINUX_CAPABILITY_VERSION) (Some 0) true in
  fst (sys_capset h (Some (CapData 1 0 1)) demo_system) = 0 /\
  cap_issubset (cap_effective (cur (snd (sys_capset h (Some (CapData 1 0 1)) demo_system))))
    (cap_permitted (cur (snd (sys_capset h (Some (CapData 1 0 1)) demo_system)))) = true.
Proof.
  split; [vm_compute; reflexivity|].
  apply (capset_rules 0 true (CapData 1 0 1) demo_system); [lia|vm_compute; reflexivity].
Defined.

(** For the targets -1 (everyone) and -pgrp the rule "any raised inheritable capabilities must
    be a subset of the caller's permitted ones" is not enforced: the check uses the caller's own
    inheritable set, and another task receives a capability that is neither in its own
    inheritable set nor in the caller's permitted set. *)
Theorem capset_all_breaks_inheritable_rule :
  let caller := no_task <| cap_effective := 256 |> <| cap_permitted := 256 |> <| cap_inheritable := 4 |> in
  let s := System {[7 := caller; 9 := no_task]} [7; 9] 7 ∅ ∅ ∅ ∅ 0 [] [] 1 in
  let h := Header (Some LINUX_CAPABILITY_VERSION) (Some (-1)) true in
  let s' := snd (sys_capset h (Some (CapData 0 4 0)) s) in
  fst (sys_capset h (Some (CapData 0 4 0)) s) = 0 /\
  cap_issubset (cap_inheritable (task_at s' 9))
    (cap_combine (cap_inheritable (task_at s 9)) (cap_permitted caller)) = false.
Proof. vm_compute. auto. Qed.
