(* ===== verification/Process.v ===== *)
(** kernel/sys.c: priorities, process groups and sessions, resource limits, the
    host name, notifier chains and reboot. *)
From S2P Require Import Prelude Task.

(** ** Priorities *)
Definition PRIO_PROCESS : Z := 0.
Definition PRIO_PGRP : Z := 1.
Definition PRIO_USER : Z := 2.

Definition proc_sel (p which who : Z) (s : system) : bool :=
  let t := task_at s p in
  if truth p then
    if which =? PRIO_PROCESS then
      if negb (truth who) && (p =? current s) then true else p =? who
    else if which =? PRIO_PGRP then
      pgrp t =? (if negb (truth who) then pgrp (cur s) else who)
    else if which =? PRIO_USER then
      uid t =? u32 (if negb (truth who) then uid (cur s) else who)
    else false
  else false.

(** One round of the loop of [sys_setpriority]; the accumulator is [error]. *)
Definition setpriority_one (which who niceval p error : Z) : M Z :=
  selected ← gets (proc_sel p which who);
  if negb selected then mret error else
  t ← gets (fun s => task_at s p);
  c ← gets cur;
  denied ← refused (negb (uid t =? euid c) && negb (uid t =? uid c)) CAP_SYS_NICE;
  if (denied : bool) then mret (- EPERM) else
  let error := if error =? - ESRCH then 0 else error in
  denied ← refused (niceval <? nice t) CAP_SYS_NICE;
  if (denied : bool) then mret (- EACCES) else
  _ ← modify (set_task p (fun t => t <| nice := niceval |>));
  mret error.

Definition sys_setpriority (which who niceval : Z) : M Z :=
  if (2 <? which) || (which <? 0) then mret (- EINVAL) else
  let niceval := if niceval <? -20 then -20 else niceval in
  let niceval := if 19 <? niceval then 19 else niceval in
  for_each_task (setpriority_one which who niceval) (- ESRCH).

Definition sys_getpriority (which who : Z) : M Z :=
  if (2 <? which) || (which <? 0) then mret (- EINVAL) else
  for_each_task (fun p retval =>
    selected ← gets (proc_sel p which who);
    if negb selected then mret retval else
    niceval ← gets (fun s => 20 - nice (task_at s p));
    mret (if retval <? niceval then niceval else retval)) (- ESRCH).

(** ** Process groups and sessions *)

Definition group_in_session (s : system) (pgid session_ : Z) : bool :=
  existsb (fun q => (pgrp (task_at s q) =? pgid) && (session (task_at s q) =? session_)) (task_list s).

Definition sys_setpgid (pid_ pgid_ : Z) : M Z :=
  me ← gets current;
  let pid := if negb (truth pid_) then me else pid_ in
  let pgid := if negb (truth pgid_) then pid else pgid_ in
  if pgid <? 0 then mret (- EINVAL) else
  found ← find_task_by_pid pid;
  match found with
  | None => mret (- ESRCH)
  | Some p =>
      t ← gets (fun s => task_at s p);
      c ← gets cur;
      let child := (p_pptr t =? me) || (p_opptr t =? me) in
      if child && negb (session t =? session c) then mret (- EPERM)
      else if child && did_exec t then mret (- EACCES)
      else if negb child && negb (p =? me) then mret (- ESRCH)
      else if leader t then mret (- EPERM)
      else
        ok ← (if negb (pgid =? pid) then gets (fun s => group_in_session s pgid (session c))
              else mret true);
        if negb ok then mret (- EPERM) else
        _ ← modify (set_task p (fun t => t <| pgrp := pgid |>));
        mret 0
  end.

Definition sys_getpgid (pid : Z) : M Z :=
  if negb (truth pid) then gets (fun s => pgrp (cur s)) else
  found ← find_task_by_pid pid;
  match found with
  | None => mret (- ESRCH)
  | Some p => gets (fun s => pgrp (task_at s p))
  end.

Definition sys_getpgrp : M Z := gets (fun s => pgrp (cur s)).

Definition sys_getsid (pid : Z) : M Z :=
  if negb (truth pid) then gets (fun s => session (cur s)) else
  found ← find_task_by_pid pid;
  match found with
  | None => mret (- ESRCH)
  | Some p => gets (fun s => session (task_at s p))
  end.

Definition sys_setsid : M Z :=
  me ← gets current;
  used ← gets (fun s => existsb (fun q => pgrp (task_at s q) =? me) (task_list s));
  if (used : bool) then mret (- EPERM) else
  _ ← set_cur (fun t => t <| leader := true |> <| pgrp := me |> <| session := me |> <| tty := None |>
                        <| tty_old_pgrp := 0 |>);
  gets (fun s => pgrp (cur s)).

(** ** Resource limits *)
Definition RLIM_NLIMITS : Z := 11.
Definition RLIMIT_NOFILE : Z := 7.
Definition NR_OPEN : Z := 1048576.

Definition limit (t : task) (resource : Z) : Z * Z := nth (Z.to_nat resource) (rlim t) (0, 0).

(** The result and what is copied out; [ok]: the user's pointer is writable. *)
Definition sys_getrlimit (resource : Z) (ok : bool) : M (Z * option (Z * Z)) :=
  if RLIM_NLIMITS <=? resource then mret (- EINVAL, None)
  else gets (fun s => if ok then (0, Some (limit (cur s) resource)) else (- EFAULT, None)).

Definition sys_old_getrlimit (resource : Z) (ok : bool) : M (Z * option (Z * Z)) :=
  if RLIM_NLIMITS <=? resource then mret (- EINVAL, None) else
  x ← gets (fun s => limit (cur s) resource);
  let cut v := if 2147483647 <? v then 2147483647 else v in
  mret (if ok then (0, Some (cut (fst x), cut (snd x))) else (- EFAULT, None)).

(** [rlim_]: the limits at the user's address, [None] when it faults. *)
Definition sys_setrlimit (resource : Z) (rlim_ : option (Z * Z)) : M Z :=
  if RLIM_NLIMITS <=? resource then mret (- EINVAL) else
  match rlim_ with
  | None => mret (- EFAULT)
  | Some (new_cur, new_max) =>
      old ← gets (fun s => limit (cur s) resource);
      denied ← refused ((snd old <? new_cur) || (snd old <? new_max)) CAP_SYS_RESOURCE;
      if (denied : bool) then mret (- EPERM) else
      if (resource =? RLIMIT_NOFILE) && ((NR_OPEN <? new_cur) || (NR_OPEN <? new_max))
      then mret (- EPERM) else
      _ ← set_cur (fun t => t <| rlim := <[Z.to_nat resource := (new_cur, new_max)]> (rlim t) |>);
      mret 0
  end.

Definition S_IRWXUGO : Z := 511.
Definition sys_umask (mask : Z) : M Z :=
  old ← gets (fun s => default 0 (umask s !! fs (cur s)));
  _ ← modify (fun s => s <| umask := <[fs (cur s) := mask .& S_IRWXUGO]> (umask s) |>);
  mret old.

(** ** Host and domain name *)
Definition NEW_UTS_LEN : Z := 64.

Definition set_name (field : system -> list Z) (store : list Z -> system -> system)
    (name : list Z) (len_ : Z) : M Z :=
  ok ← capable CAP_SYS_ADMIN;
  if negb ok then mret (- EPERM) else
  if (len_ <? 0) || (NEW_UTS_LEN <? len_) then mret (- EINVAL) else
  old ← gets field;
  let copy := copy_from_user old name len_ in
  _ ← modify (store (snd copy));
  if truth (fst copy) then mret (- EFAULT) else
  _ ← modify (store (set_at (snd copy) len_ 0));
  mret 0.

Definition sys_sethostname : list Z -> Z -> M Z := set_name nodename (fun v s => s <| nodename := v |>).
Definition sys_setdomainname : list Z -> Z -> M Z := set_name domainname (fun v s => s <| domainname := v |>).

(** The bytes of a string before its terminator. *)
Fixpoint cstring (l : list Z) : list Z :=
  match l with
  | [] => []
  | c :: l => if c =? 0 then [] else c :: cstring l
  end.

Definition sys_gethostname (len_ : Z) (ok : bool) : M (Z * option (list Z)) :=
  if len_ <? 0 then mret (- EINVAL, None) else
  gets (fun s =>
    let i := 1 + len (cstring (nodename s)) in
    let i := if len_ <? i then len_ else i in
    if ok then (0, Some (take (Z.to_nat i) (nodename s))) else (- EFAULT, None)).

(** ** Notifier chains *)

(** A [notifier_block], named by its address. *)
Record notifier := Notifier { n_addr : Z; priority : Z }.
#[global] Instance notifier_eq_dec : EqDecision notifier.
Proof. solve_decision. Defined.

Definition NOTIFY_DONE : Z := 0.
Definition NOTIFY_STOP_MASK : Z := 32768.

Fixpoint notifier_chain_register (l : list notifier) (n : notifier) : list notifier :=
  match l with
  | [] => [n]
  | m :: l' => if priority m <? priority n then n :: l else m :: notifier_chain_register l' n
  end.

Fixpoint notifier_chain_unregister (l : list notifier) (n : notifier) : list notifier * Z :=
  match l with
  | [] => ([], - ENOENT)
  | m :: l' =>
      if n_addr m =? n_addr n then (l', 0)
      else let '(l'', r) := notifier_chain_unregister l' n in (m :: l'', r)
  end.

(** [ret] is the value of the last function called; [call] gives what each function returns. The
    second component lists the functions called. *)
Fixpoint call_loop (call : notifier -> Z) (ret : Z) (l : list notifier) : Z * list notifier :=
  match l with
  | [] => (ret, [])
  | nb :: l =>
      let ret := call nb in
      if truth (ret .& NOTIFY_STOP_MASK) then (ret, [nb])
      else let '(r, called) := call_loop call ret l in (r, nb :: called)
  end.
Definition notifier_call_chain (call : notifier -> Z) (l : list notifier) : Z * list notifier :=
  call_loop call NOTIFY_DONE l.

(** ** Reboot *)

(** What the call does to the machine, in order. *)
Inductive event :=
| Notified (val : Z) (called : list notifier)
| Machine_restart (cmd : option (list Z)) | Machine_halt | Machine_power_off | Do_exit
| Schedule_deferred_cad | Kill_proc (pid sig : Z).

Definition LINUX_REBOOT_MAGIC1 : Z := 4276215469.
Definition LINUX_REBOOT_MAGIC2 : Z := 672274793.
Definition LINUX_REBOOT_MAGIC2A : Z := 85072278.
Definition LINUX_REBOOT_MAGIC2B : Z := 369367448.
Definition LINUX_REBOOT_CMD_RESTART : Z := 19088743.
Definition LINUX_REBOOT_CMD_HALT : Z := 3454992675.
Definition LINUX_REBOOT_CMD_CAD_ON : Z := 2309737967.
Definition LINUX_REBOOT_CMD_CAD_OFF : Z := 0.
Definition LINUX_REBOOT_CMD_POWER_OFF : Z := 1126301404.
Definition LINUX_REBOOT_CMD_RESTART2 : Z := 2712847316.
Definition SYS_RESTART : Z := 1.
Definition SYS_HALT : Z := 2.
Definition SYS_POWER_OFF : Z := 3.
Definition SIGINT : Z := 2.

Section Reboot.
(** The registered notifiers and what they return for an event. *)
Context (reboot_notifier_list : list notifier) (call : Z -> notifier -> Z).

Definition notify (val : Z) : event :=
  Notified val (snd (notifier_call_chain (call val) reboot_notifier_list)).

(** [arg]: the command string for RESTART2, [None] when it cannot be read. *)
Definition sys_reboot (magic1 magic2 cmd : Z) (arg : option (list Z)) : M (Z * list event) :=
  denied ← refused true CAP_SYS_BOOT;
  if (denied : bool) then mret (- EPERM, []) else
  if negb (u32 magic1 =? LINUX_REBOOT_MAGIC1) ||
     (negb (magic2 =? LINUX_REBOOT_MAGIC2) && negb (magic2 =? LINUX_REBOOT_MAGIC2A) &&
      negb (magic2 =? LINUX_REBOOT_MAGIC2B))
  then mret (- EINVAL, []) else
  if cmd =? LINUX_REBOOT_CMD_RESTART then mret (0, [notify SYS_RESTART; Machine_restart None])
  else if cmd =? LINUX_REBOOT_CMD_CAD_ON then _ ← modify (fun s => s <| C_A_D := 1 |>); mret (0, [])
  else if cmd =? LINUX_REBOOT_CMD_CAD_OFF then _ ← modify (fun s => s <| C_A_D := 0 |>); mret (0, [])
  else if cmd =? LINUX_REBOOT_CMD_HALT then mret (0, [notify SYS_HALT; Machine_halt; Do_exit])
  else if cmd =? LINUX_REBOOT_CMD_POWER_OFF then
    mret (0, [notify SYS_POWER_OFF; Machine_power_off; Do_exit])
  else if cmd =? LINUX_REBOOT_CMD_RESTART2 then
    match arg with
    | None => mret (- EFAULT, [])
    | Some buffer => mret (0, [notify SYS_RESTART; Machine_restart (Some (take 255 (cstring buffer)))])
    end
  else mret (- EINVAL, []).

Definition deferred_cad : list event := [notify SYS_RESTART; Machine_restart None].

Definition cad_pid : Z := 1.
Definition ctrl_alt_del : M (list event) :=
  gets (fun s => if truth (C_A_D s) then [Schedule_deferred_cad] else [Kill_proc cad_pid SIGINT]).
End Reboot.

(** ** Sessions: the invariant *)

(** The processes of a group belong to one session, that of the process whose pid names
    the group if it is still there; a session leader leads its own group and session. *)
Record sessions_ok (s : system) : Prop := {
  so_list : forall p, p ∈ task_list s <-> is_Some (tasks s !! p);
  so_cur : current s ∈ task_list s;
  so_group : forall p q, p ∈ task_list s -> q ∈ task_list s ->
    pgrp (task_at s p) = pgrp (task_at s q) -> session (task_at s p) = session (task_at s q);
  so_owner : forall p q, p ∈ task_list s -> q ∈ task_list s ->
    pgrp (task_at s p) = q -> session (task_at s p) = session (task_at s q);
  so_leader : forall p, p ∈ task_list s -> leader (task_at s p) = true ->
    pgrp (task_at s p) = p /\ session (task_at s p) = p }.

Lemma existsb_false_forall {A} (f : A -> bool) l :
  existsb f l = false <-> forall x, x ∈ l -> f x = false.
Proof.
  induction l as [|y l IH]; cbn; [set_solver|]. rewrite orb_false_iff, IH. set_solver.
Qed.

Lemma group_in_session_spec s pgid ses : group_in_session s pgid ses = true ->
  exists q, q ∈ task_list s /\ pgrp (task_at s q) = pgid /\ session (task_at s q) = ses.
Proof.
  intros H. apply existsb_exists in H as (q & Hq & H). bool_hyps. exists q.
  split; [by apply list_elem_of_In|auto].
Qed.

(** A task [p] of session [ses] joins a group of that session, or the group of its own pid. *)
Lemma join_group_ok s p pgid :
  sessions_ok s -> p ∈ task_list s -> leader (task_at s p) = false ->
  (pgid = p \/ exists q, q ∈ task_list s /\ pgrp (task_at s q) = pgid /\
                 session (task_at s q) = session (task_at s p)) ->
  sessions_ok (set_task p (fun t => t <| pgrp := pgid |>) s).
Proof.
  intros [Hl Hc Hg Ho Hld] Hp Hlead Hpg.
  assert (forall q, session (task_at (set_task p (fun t => t <| pgrp := pgid |>) s) q) = session (task_at s q))
    as Hs by (intros q; rewrite task_at_set; by case_decide; subst).
  assert (forall q, pgrp (task_at (set_task p (fun t => t <| pgrp := pgid |>) s) q) =
    if decide (q = p) then pgid else pgrp (task_at s q)) as Hpgrp
    by (intros q; rewrite task_at_set; by case_decide).
  assert (forall q, q ∈ task_list s -> pgrp (task_at s q) = pgid ->
    session (task_at s q) = session (task_at s p)) as Hin.
  { intros q Hq Hqp. destruct Hpg as [-> |(r & Hr & Hrp & <-)]; [by apply Ho|].
    apply Hg; congruence. }
  split; cbn [task_list set_task].
  - intros q. rewrite Hl. cbn. destruct (decide (q = p)) as [->|].
    + rewrite lookup_insert_eq. split; [done|]. intros _. by apply Hl.
    + by rewrite lookup_insert_ne.
  - done.
  - intros q r Hq Hr. rewrite !Hs, !Hpgrp. do 2 case_decide; subst; intros E; auto.
    symmetry. by apply Hin.
  - intros q r Hq Hr. rewrite !Hs, Hpgrp. case_decide as E; subst; [|by apply Ho].
    intros <-. destruct Hpg as [-> |(x & Hx & Hxp & <-)]; [done|]. by apply Ho.
  - intros q Hq. rewrite Hs, Hpgrp, task_at_set. case_decide as E; [|by apply Hld].
    subst q. cbn. congruence.
Qed.

Lemma setsid_ok s :
  sessions_ok s ->
  (forall q, q ∈ task_list s -> pgrp (task_at s q) <> current s) ->
  sessions_ok (set_task (current s) (fun t => t <| leader := true |> <| pgrp := current s |>
    <| session := current s |> <| tty := None |> <| tty_old_pgrp := 0 |>) s).
Proof.
  intros [Hl Hc Hg Ho Hld] Hfree. set (f := fun t : task => _).
  assert (forall q, session (task_at (set_task (current s) f s) q) =
    if decide (q = current s) then current s else session (task_at s q)) as Hs
    by (intros q; rewrite task_at_set; by case_decide).
  assert (forall q, pgrp (task_at (set_task (current s) f s) q) =
    if decide (q = current s) then current s else pgrp (task_at s q)) as Hp
    by (intros q; rewrite task_at_set; by case_decide).
  split; cbn [task_list set_task].
  - intros q. rewrite Hl. cbn. destruct (decide (q = current s)) as [->|].
    + rewrite lookup_insert_eq. split; [done|]. intros _. by apply Hl.
    + by rewrite lookup_insert_ne.
  - done.
  - intros q r Hq Hr. rewrite !Hs, !Hp. do 2 case_decide; subst; intros E; auto.
    + by destruct (Hfree r Hr).
    + by destruct (Hfree q Hq).
  - intros q r Hq Hr. rewrite !Hs, Hp. case_decide; intros E.
    + by rewrite decide_True by congruence.
    + rewrite decide_False by (intros ->; by destruct (Hfree q Hq)). by apply Ho.
  - intros q Hq. rewrite Hs, Hp, task_at_set. case_decide; [done|by apply Hld].
Qed.

(** ** Theorems *)

(** [setpgid] and [setsid] keep process groups inside sessions: if every group lies in one
    session (the session of the process that names it, while it exists) and every session leader
    leads its own group and session, then so it is after the call, whatever its arguments and
    result. *)
Theorem sessions_preserved s pid pgid :
  sessions_ok s ->
  sessions_ok (snd (sys_setpgid pid pgid s)) /\ sessions_ok (snd (sys_setsid s)).
Proof.
  intros Hs. split.
  - unfold sys_setpgid, gets, mbind, M_bind, find_task_by_pid.
    set (p := if negb (truth pid) then current s else pid).
    set (g := if negb (truth pgid) then p else pgid).
    destruct (g <? 0); [done|]. cbn. destruct (tasks s !! p) eqn:Ep; [|done]. cbn.
    assert (p ∈ task_list s) as Hp by (apply (so_list _ Hs); by eexists).
    set (child := _ || _).
    destruct (child && negb (session (task_at s p) =? session (cur s))) eqn:E1; [done|].
    destruct (child && did_exec (task_at s p)); [done|].
    destruct (negb child && negb (p =? current s)) eqn:E2; [done|].
    destruct (leader (task_at s p)) eqn:E3; [done|].
    assert (session (task_at s p) = session (cur s)) as Hses.
    { destruct child; cbn in *; bool_hyps; [done|]. by rewrite E2. }
    destruct (Z.eqb_spec g p) as [Hgp|Hgp]; cbn.
    + apply join_group_ok; auto.
    + destruct (group_in_session s g (session (cur s))) eqn:E4; cbn; [|done].
      apply join_group_ok; auto. right. rewrite Hses. by apply group_in_session_spec.
  - unfold sys_setsid, gets, mbind, M_bind. destruct (existsb _ _) eqn:E; [done|].
    apply setsid_ok; [done|]. intros q Hq. rewrite existsb_false_forall in E.
    specialize (E q Hq). bool_hyps. done.
Qed.

Definition job_task (g ses : Z) (lead : bool) (parent : Z) : task :=
  no_task <| pgrp := g |> <| session := ses |> <| leader := lead |> <| p_pptr := parent |>.
Definition job_system : system :=
  System {[5 := job_task 5 5 true 1; 6 := job_task 5 5 false 5]} [5; 6] 6 ∅ ∅ ∅ ∅ 0 [] [] 1.

Lemma job_system_ok : sessions_ok job_system.
Proof.
  assert (forall p, p ∈ task_list job_system <-> p = 5 \/ p = 6) as Hin
    by (intros p; cbn; rewrite elem_of_cons, list_elem_of_singleton; done).
  split; try (setoid_rewrite Hin).
  - intros p. unfold job_system. cbn [tasks]. split.
    + intros [-> | ->]; vm_compute; eauto.
    + intros [t Ht]. apply lookup_insert_Some in Ht as [[? _]|[_ Ht]]; [auto|].
      apply lookup_singleton_Some in Ht as [? _]. auto.
  - by right.
  - intros p q [-> | ->] [-> | ->]; vm_compute; auto.
  - intros p q [-> | ->] [-> | ->]; vm_compute; auto.
  - intros p [-> | ->]; vm_compute; auto; discriminate.
Qed.

Lemma sessions_preserved_witness :
  sessions_ok (snd (sys_setpgid 0 0 job_system)) /\ pgrp (cur (snd (sys_setpgid 0 0 job_system))) = 6.
Proof.
  split; [exact (proj1 (sessions_preserved job_system 0 0 job_system_ok))|vm_compute; reflexivity].
Defined.

(** *** Priorities *)

(** A task without its nice value and the privilege-used flag. *)
Definition unnice (t : task) : task := t <| nice := 0 |> <| superpriv := false |>.
Definition same_but_nice (s s' : system) : Prop :=
  current s' = current s /\ task_list s' = task_list s /\
  forall p, unnice (task_at s' p) = unnice (task_at s p).

(** May the caller set the nice value of [p] to [n]? 0, or the error. *)
Definition verdict (s : system) (n p : Z) : Z :=
  let cap := cap_raised (cap_effective (cur s)) CAP_SYS_NICE in
  let t := task_at s p in
  if negb (uid t =? euid (cur s)) && negb (uid t =? uid (cur s)) && negb cap then - EPERM
  else if (n <? nice t) && negb cap then - EACCES else 0.

Lemma unnice_fields t u : unnice t = unnice u ->
  uid t = uid u /\ euid t = euid u /\ pgrp t = pgrp u /\ cap_effective t = cap_effective u.
Proof.
  intros H. pose proof (f_equal uid H). pose proof (f_equal euid H). pose proof (f_equal pgrp H).
  pose proof (f_equal cap_effective H). done.
Qed.

Lemma proc_sel_same s s' p which who :
  same_but_nice s s' -> proc_sel p which who s' = proc_sel p which who s.
Proof.
  intros (Hc & _ & Ht). unfold proc_sel, cur. rewrite Hc.
  destruct (unnice_fields _ _ (Ht p)) as (-> & _ & -> & _).
  destruct (unnice_fields _ _ (Ht (current s))) as (-> & _ & -> & _). done.
Qed.

Lemma verdict_same s s' n p :
  same_but_nice s s' -> nice (task_at s' p) = nice (task_at s p) -> verdict s' n p = verdict s n p.
Proof.
  intros (Hc & _ & Ht) Hn. unfold verdict, cur. rewrite Hc, Hn.
  destruct (unnice_fields _ _ (Ht p)) as (-> & _).
  destruct (unnice_fields _ _ (Ht (current s))) as (-> & -> & _ & ->). done.
Qed.

Lemma same_but_nice_trans s1 s2 s3 :
  same_but_nice s1 s2 -> same_but_nice s2 s3 -> same_but_nice s1 s3.
Proof.
  intros (H1 & H2 & H3) (H4 & H5 & H6). split; [congruence|]. split; [congruence|].
  intros p. by rewrite H6.
Qed.

Lemma refused_state c cap s :
  let r := refused c cap s in
  fst r = c && negb (cap_raised (cap_effective (cur s)) cap) /\
  same_but_nice s (snd r) /\ forall p, nice (task_at (snd r) p) = nice (task_at s p).
Proof.
  unfold refused, capable, set_cur, modify, gets, mbind, M_bind. destruct c; [|done].
  destruct (cap_raised _ _); [|done]. cbv beta iota zeta delta [fst snd mret M_ret].
  split; [done|]. split; [split; [done|split; [done|]]|]; intros p; rewrite task_at_set;
    case_decide; subst; done.
Qed.

Lemma setpriority_one_ok which who n p err s :
  let r := setpriority_one which who n p err s in
  let sel := proc_sel p which who s in
  let v := verdict s n p in
  same_but_nice s (snd r) /\
  (forall q, nice (task_at (snd r) q) =
     if decide (q = p) then if sel && (v =? 0) then n else nice (task_at s q) else nice (task_at s q)) /\
  fst r = if sel then (if v =? 0 then if err =? - ESRCH then 0 else err else v) else err.
Proof.
  unfold setpriority_one. cbv zeta. unfold gets, mbind, M_bind.
  destruct (proc_sel p which who s) eqn:Esel; cbn [negb]; [|by split; [|split; [intros; case_decide|]]].
  destruct (refused_state (negb (uid (task_at s p) =? euid (cur s)) && negb (uid (task_at s p) =? uid (cur s)))
    CAP_SYS_NICE s) as (H1 & H2 & H3).
  destruct (refused _ CAP_SYS_NICE s) as [d1 s1]. cbn [fst snd] in *. unfold verdict.
  rewrite <- H1. destruct d1.
  { cbn. split; [done|]. split; [|done]. intros q. rewrite H3. by case_decide. }
  destruct (refused_state (n <? nice (task_at s p)) CAP_SYS_NICE s1) as (H4 & H5 & H6).
  destruct (refused _ CAP_SYS_NICE s1) as [d2 s2]. cbn [fst snd] in *.
  assert (cap_effective (cur s1) = cap_effective (cur s)) as Hcap.
  { unfold cur. rewrite (proj1 H2). by apply unnice_fields, H2. }
  rewrite Hcap in H4. rewrite <- H4. pose proof (same_but_nice_trans _ _ _ H2 H5) as H25.
  destruct d2; cbn.
  { split; [done|]. split; [|done]. intros q. rewrite H6, H3. by case_decide. }
  split; [|split; [|done]].
  - destruct H25 as (Ha & Hb & Hc). split; [done|]. split; [done|]. intros q. rewrite task_at_set.
    case_decide; subst; apply Hc.
  - intros q. rewrite task_at_set. case_decide; [done|]. by rewrite H6, H3.
Qed.

Definition fold_verdicts (s : system) (which who n err : Z) (ps : list Z) : Z :=
  foldl (fun err p => if proc_sel p which who s then
    (if verdict s n p =? 0 then if err =? - ESRCH then 0 else err else verdict s n p) else err) err ps.

Lemma setpriority_loop which who n ps : forall err s,
  NoDup ps ->
  let r := for_tasks (setpriority_one which who n) ps err s in
  same_but_nice s (snd r) /\
  (forall q, nice (task_at (snd r) q) =
     if bool_decide (q ∈ ps) && proc_sel q which who s && (verdict s n q =? 0)
     then n else nice (task_at s q)) /\
  fst r = fold_verdicts s which who n err ps.
Proof.
  induction ps as [|p ps IH]; intros err s Hnd; [by repeat split|].
  apply NoDup_cons in Hnd as [Hp Hnd]. cbn [for_tasks]. unfold mbind, M_bind. cbv zeta.
  destruct (setpriority_one_ok which who n p err s) as (H1 & H2 & H3).
  destruct (setpriority_one which who n p err s) as [e1 s1]. cbn [fst snd] in *.
  destruct (IH e1 s1 Hnd) as (H4 & H5 & H6).
  assert (forall q, q <> p -> verdict s1 n q = verdict s n q) as Hv.
  { intros q Hq. apply verdict_same; [done|]. by rewrite H2, decide_False. }
  split; [by eapply same_but_nice_trans|]. split.
  - intros q. rewrite H5, (proc_sel_same s s1) by done. destruct (decide (q = p)) as [->|Hq].
    + rewrite (bool_decide_false (p ∈ ps)), (bool_decide_true (p ∈ p :: ps)), H2, decide_True by set_solver.
      cbn. done.
    + rewrite Hv, H2, decide_False by done.
      assert (bool_decide (q ∈ p :: ps) = bool_decide (q ∈ ps)) as ->
        by (apply bool_decide_ext; set_solver). done.
  - rewrite H6. unfold fold_verdicts. cbn [foldl]. rewrite H3. clear -Hp Hv H1.
    generalize (if proc_sel p which who s then
      (if verdict s n p =? 0 then if err =? - ESRCH then 0 else err else verdict s n p) else err).
    revert Hp. induction ps as [|q ps IH]; intros Hp e; [done|]. cbn [foldl].
    rewrite (proc_sel_same s s1), Hv by set_solver. apply IH. set_solver.
Qed.

Lemma verdict_cases s n p : verdict s n p = 0 \/ verdict s n p = - EPERM \/ verdict s n p = - EACCES.
Proof. unfold verdict. repeat case_match; auto. Qed.

(** The result of the loop: 0 when every selected task may be changed and there is one. *)
Lemma fold_verdicts_spec s which who n ps : forall err,
  let sel p := p ∈ ps /\ proc_sel p which who s = true in
  let r := fold_verdicts s which who n err ps in
  ((forall p, sel p -> verdict s n p = 0) ->
     r = if bool_decide (Exists (fun p => proc_sel p which who s = true) ps) && (err =? - ESRCH) then 0 else err) /\
  ((exists p, sel p /\ verdict s n p <> 0) -> r = - EPERM \/ r = - EACCES).
Proof.
  unfold fold_verdicts. induction ps as [|q ps IH]; intros err; cbn [foldl].
  { split; [intros _; by case_bool_decide as H; [inversion H|]|]. intros (p & [H _] & _). set_solver. }
  destruct (IH (if proc_sel q which who s then
      (if verdict s n q =? 0 then if err =? - ESRCH then 0 else err else verdict s n q) else err)) as [IH1 IH2].
  clear IH. split.
  - intros H. rewrite IH1 by (intros p [Hp1 Hp2]; apply H; split; [by right|done]).
    assert (proc_sel q which who s = true -> verdict s n q = 0) as Hq by (intros; apply H; split; [left|done]).
    destruct (proc_sel q which who s) eqn:Eq.
    + rewrite Hq by done. cbn. rewrite (bool_decide_true (Exists _ (q :: ps))) by (by left). cbn.
      destruct (Z.eqb_spec err (- ESRCH)) as [->|]; [by rewrite andb_false_r|].
      destruct (Z.eqb_spec err (- ESRCH)); [done|]. by rewrite andb_false_r.
    + assert (bool_decide (Exists (fun p => proc_sel p which who s = true) (q :: ps)) =
        bool_decide (Exists (fun p => proc_sel p which who s = true) ps)) as ->; [|done].
      apply bool_decide_ext. rewrite Exists_cons, Eq. intuition congruence.
  - intros (p & [Hp Hsel] & Hv).
    destruct (decide (Exists (fun p => proc_sel p which who s = true /\ verdict s n p <> 0) ps)) as [Hx|Hx].
    { apply Exists_exists in Hx as (x & Hx1 & Hx2 & Hx3). apply IH2. by exists x. }
    assert (forall x, x ∈ ps -> proc_sel x which who s = true -> verdict s n x = 0) as Hall.
    { intros x Hx1 Hx2. destruct (Z.eq_dec (verdict s n x) 0); [done|]. destruct Hx.
      apply Exists_exists. by exists x. }
    rewrite IH1 by (intros x []; by apply Hall).
    apply elem_of_cons in Hp as [-> |Hp]; [|by destruct Hv; apply Hall].
    rewrite Hsel. destruct (verdict_cases s n q) as [|[E|E]]; [done|..]; rewrite E; cbn;
      rewrite andb_false_r; auto.
Qed.

Definition clamp_nice (n : Z) : Z := Z.max (-20) (Z.min 19 n).

(** [setpriority] gives exactly the selected tasks that the caller may change the requested nice
    value, clamped to [-20, 19], and changes nothing else about any task (up to the
    privilege-used flag). A task may be changed by its owner (real or effective uid) or with
    CAP_SYS_NICE, and only with CAP_SYS_NICE can a nice value be lowered. The result is -ESRCH when
    nothing is selected, 0 when every selected task was changed, and otherwise -EPERM or -EACCES. *)
Theorem setpriority_exact which who niceval s :
  0 <= which <= 2 -> NoDup (task_list s) ->
  let n := clamp_nice niceval in
  let s' := snd (sys_setpriority which who niceval s) in
  let r := fst (sys_setpriority which who niceval s) in
  let selected p := p ∈ task_list s /\ proc_sel p which who s = true in
  same_but_nice s s' /\
  (forall p, nice (task_at s' p) =
     if bool_decide (p ∈ task_list s) && proc_sel p which who s && (verdict s n p =? 0)
     then n else nice (task_at s p)) /\
  ((forall p, ~ selected p) -> r = - ESRCH) /\
  ((exists p, selected p) -> (forall p, selected p -> verdict s n p = 0) -> r = 0) /\
  ((exists p, selected p /\ verdict s n p <> 0) -> r = - EPERM \/ r = - EACCES).
Proof.
  intros Hw Hnd n s' r selected.
  assert (sys_setpriority which who niceval s =
    for_tasks (setpriority_one which who n) (task_list s) (- ESRCH) s) as Heq.
  { unfold sys_setpriority. destruct (Z.ltb_spec 2 which), (Z.ltb_spec which 0); try lia.
    cbn [orb]. unfold for_each_task, gets, mbind, M_bind. f_equal.
    f_equal. unfold n, clamp_nice.
    destruct (Z.ltb_spec niceval (-20)); case_cmp; lia. }
  destruct (setpriority_loop which who n (task_list s) (- ESRCH) s Hnd) as (H1 & H2 & H3).
  rewrite <- Heq in *. split; [done|]. split; [done|]. unfold r. rewrite H3.
  destruct (fold_verdicts_spec s which who n (task_list s) (- ESRCH)) as [Hok Hbad].
  split; [|split; [|by apply Hbad]].
  - intros Hnone. rewrite Hok by (intros p Hp; by destruct (Hnone p)).
    rewrite bool_decide_false; [done|]. intros Hx. apply Exists_exists in Hx as (x & Hx1 & Hx2).
    by apply (Hnone x).
  - intros (p & Hp1 & Hp2) Hall. rewrite Hok by done. rewrite bool_decide_true; [done|].
    apply Exists_exists. by exists p.
Qed.

Lemma setpriority_exact_witness :
  (nice (task_at (snd (sys_setpriority PRIO_PGRP 5 100 job_system)) 5) = 19) /\
  fst (sys_setpriority PRIO_PGRP 5 100 job_system) = 0.
Proof.
  destruct (setpriority_exact PRIO_PGRP 5 100 job_system) as (_ & Hn & _ & Hr & _);
    [unfold PRIO_PGRP; lia|apply (bool_decide_unpack _); vm_compute; exact I|].
  split; [rewrite Hn; vm_compute; reflexivity|apply Hr].
  - exists 5. split; [decide_now|vm_compute; reflexivity].
  - intros p [Hp _]. apply elem_of_cons in Hp as [-> |Hp]; [vm_compute; reflexivity|].
    apply list_elem_of_singleton in Hp as ->. vm_compute. reflexivity.
Defined.

(** *** Resource limits *)

(** [setrlimit] without CAP_SYS_RESOURCE never raises a hard limit: whatever it is given, no
    limit of the caller has a larger maximum afterwards; a call that returns 0 stores exactly the
    given pair, which [getrlimit] then returns, and a call that fails changes no limit. *)
Theorem setrlimit_never_raises resource r s :
  cap_raised (cap_effective (cur s)) CAP_SYS_RESOURCE = false ->
  0 <= resource -> length (rlim (cur s)) = Z.to_nat RLIM_NLIMITS ->
  let s' := snd (sys_setrlimit resource r s) in
  let res := fst (sys_setrlimit resource r s) in
  (forall k, snd (limit (cur s') k) <= snd (limit (cur s) k)) /\
  (res = 0 -> fst (sys_getrlimit resource true s') = (0, r)) /\
  (res <> 0 -> rlim (cur s') = rlim (cur s)).
Proof.
  intros Hno Hr Hlen s' res.
  assert ((res = 0 /\ exists c m, r = Some (c, m) /\ resource < RLIM_NLIMITS /\
             m <= snd (limit (cur s) resource) /\
             rlim (cur s') = <[Z.to_nat resource := (c, m)]> (rlim (cur s))) \/
          (res <> 0 /\ rlim (cur s') = rlim (cur s))) as H.
  { apply (wp_use (sys_setrlimit resource r) (fun x t =>
      (x = 0 /\ exists c m, r = Some (c, m) /\ resource < RLIM_NLIMITS /\
         m <= snd (limit (cur s) resource) /\ rlim t = <[Z.to_nat resource := (c, m)]> (rlim (cur s))) \/
      (x <> 0 /\ rlim t = rlim (cur s))) s eq_refl).
    unfold sys_setrlimit. destruct (Z.leb_spec RLIM_NLIMITS resource); [by apply wp_ret; right|].
    destruct r as [[c m]|]; [|by apply wp_ret; right].
    apply wp_bind, (wp_cur (fun t => limit t resource)), wp_bind, wp_refused_no; [done| |].
    - intros Hb. bool_hyps. destruct (_ && _); [by apply wp_ret; right|].
      apply wp_bind, wp_set_cur, wp_ret. left. split; [done|]. by exists c, m.
    - intros _. by apply wp_ret; right. }
  assert (forall k p, limit (cur s) resource = p -> rlim (cur s') = rlim (cur s) ->
    limit (cur s') k = limit (cur s) k) as Hsame by (intros k p _ E; unfold limit; by rewrite E).
  destruct H as [(H0 & c & m & -> & Hlt & Hm & E)|(H0 & E)].
  - split; [|split; [intros _|done]].
    + intros k. unfold limit. rewrite E. rewrite !nth_lookup.
      destruct (decide (Z.to_nat k = Z.to_nat resource)) as [->|Hne].
      * rewrite list_lookup_insert_eq by (rewrite Hlen; unfold RLIM_NLIMITS in *; lia). cbn.
        unfold limit in Hm. by rewrite nth_lookup in Hm.
      * by rewrite list_lookup_insert_ne.
    + unfold sys_getrlimit, gets. destruct (Z.leb_spec RLIM_NLIMITS resource); [lia|]. cbn.
      unfold limit. rewrite E, nth_lookup, list_lookup_insert_eq; [done|].
      rewrite Hlen. unfold RLIM_NLIMITS in *. lia.
  - split; [|split; [done|done]]. intros k. by rewrite (Hsame k _ eq_refl E).
Qed.

Definition limits_task : task := no_task <| rlim := replicate 11 (100, 200) |>.
Definition limits_system : system := System {[7 := limits_task]} [7] 7 ∅ ∅ ∅ ∅ 0 [] [] 1.

Lemma setrlimit_never_raises_witness :
  fst (sys_getrlimit 3 true (snd (sys_setrlimit 3 (Some (150, 180)) limits_system))) = (0, Some (150, 180)).
Proof.
  apply (setrlimit_never_raises 3 (Some (150, 180)) limits_system);
    try (vm_compute; reflexivity). lia.
Defined.

(** A soft limit above the hard limit is accepted: [setrlimit] only compares the new values
    with the old maximum, not with each other. *)
Theorem setrlimit_accepts_soft_above_hard :
  let s' := snd (sys_setrlimit 3 (Some (150, 20)) limits_system) in
  fst (sys_setrlimit 3 (Some (150, 20)) limits_system) = 0 /\ limit (cur s') 3 = (150, 20).
Proof. vm_compute. auto. Qed.

(** *** Notifier chains *)

(** Higher priorities come first. *)
Definition chain_sorted (l : list notifier) : Prop :=
  forall i j m n, l !! i = Some m -> l !! j = Some n -> (i < j)%nat -> priority n <= priority m.

Lemma register_split l n :
  exists l1 l2, l = l1 ++ l2 /\ notifier_chain_register l n = l1 ++ n :: l2 /\
    Forall (fun m => priority n <= priority m) l1 /\
    match l2 with [] => True | m :: _ => priority m < priority n end.
Proof.
  induction l as [|m l (l1 & l2 & -> & E & H1 & H2)]; cbn.
  - exists [], []. auto.
  - destruct (Z.ltb_spec (priority m) (priority n)).
    + exists [], (m :: l1 ++ l2). auto.
    + exists (m :: l1), l2. rewrite E. auto.
Qed.

Lemma chain_sorted_cons m l : chain_sorted (m :: l) <-> Forall (fun n => priority n <= priority m) l /\ chain_sorted l.
Proof.
  split.
  - intros H. split.
    + apply Forall_lookup_2. intros i n Hi. by apply (H 0%nat (S i) m n); [..|lia].
    + intros i j a b Hi Hj Hij. by apply (H (S i) (S j) a b); [..|lia].
  - intros [Hall Hs] [|i] [|j] a b; cbn; intros Hi Hj Hij; try lia; simplify_eq.
    + by apply (Forall_lookup_1 _ _ _ _ Hall Hj).
    + apply (Hs i j a b Hi Hj). lia.
Qed.

Lemma chain_sorted_insert l1 n l2 :
  chain_sorted (l1 ++ l2) -> Forall (fun m => priority n <= priority m) l1 ->
  match l2 with [] => True | m :: _ => priority m < priority n end ->
  chain_sorted (l1 ++ n :: l2).
Proof.
  induction l1 as [|m l1 IH]; cbn; intros Hs H1 H2.
  - apply chain_sorted_cons. split; [|done]. destruct l2 as [|m l2]; [done|].
    apply chain_sorted_cons in Hs as [Hs _]. constructor; [lia|].
    eapply Forall_impl; [exact Hs|]. cbn. lia.
  - apply chain_sorted_cons in Hs as [Hm Hs]. apply Forall_cons in H1 as [Hn H1].
    apply chain_sorted_cons. split; [|by apply IH].
    apply Forall_app in Hm as [Hm1 Hm2]. apply Forall_app. split; [done|]. by constructor.
Qed.

Lemma unregister_app l1 n l2 :
  Forall (fun m => n_addr m <> n_addr n) l1 ->
  notifier_chain_unregister (l1 ++ n :: l2) n = (l1 ++ l2, 0).
Proof.
  induction l1 as [|m l1 IH]; cbn; intros H; [by rewrite Z.eqb_refl|].
  apply Forall_cons in H as [Hm H]. rewrite IH by done. by destruct (Z.eqb_spec (n_addr m) (n_addr n)).
Qed.

Lemma call_loop_spec call d l : forall ret, l <> [] ->
  let r := call_loop call ret l in
  let stops m := truth (call m .& NOTIFY_STOP_MASK) in
  exists rest, l = snd r ++ rest /\ (rest <> [] -> stops (List.last (snd r) d) = true) /\
    fst r = call (List.last (snd r) d) /\ Forall (fun m => stops m = false) (removelast (snd r)).
Proof.
  induction l as [|nb l IH]; intros ret Hl; [done|]. cbn [call_loop].
  destruct (truth (call nb .& NOTIFY_STOP_MASK)) eqn:E; [by exists l|].
  destruct l as [|x l]; [by exists []|].
  destruct (IH (call nb) ltac:(done)) as (rest & H1 & H2 & H3 & H4).
  destruct (call_loop call (call nb) (x :: l)) as [r called] eqn:Ec. cbn [fst snd] in *.
  destruct called as [|y called].
  { cbn [call_loop] in Ec. repeat case_match; simplify_eq. }
  exists rest. cbn [app]. split; [by rewrite H1|]. split; [done|]. split; [done|].
  change (removelast (nb :: y :: called)) with (nb :: removelast (y :: called)). by constructor.
Qed.

(** A notifier chain is kept in order of descending priority, a new entry going behind the
    entries of equal priority; unregistering a notifier restores the chain from before its
    registration; and calling the chain runs its functions in that order up to and
    including the first that asks to stop, whose value is the result. *)
Theorem notifier_chain_correct l n call :
  chain_sorted l -> Forall (fun m => n_addr m <> n_addr n) l ->
  let l' := notifier_chain_register l n in
  chain_sorted l' /\ notifier_chain_unregister l' n = (l, 0) /\
  (exists l1 l2, l = l1 ++ l2 /\ l' = l1 ++ n :: l2 /\
     (forall m, m ∈ l -> priority m = priority n -> m ∈ l1)) /\
  let stops m := truth (call m .& NOTIFY_STOP_MASK) in
  exists rest, l' = snd (notifier_call_chain call l') ++ rest /\
    (rest <> [] -> stops (List.last (snd (notifier_call_chain call l')) n) = true) /\
    fst (notifier_call_chain call l') = call (List.last (snd (notifier_call_chain call l')) n) /\
    Forall (fun m => stops m = false) (removelast (snd (notifier_call_chain call l'))).
Proof.
  intros Hs Hne l'. destruct (register_split l n) as (l1 & l2 & -> & E & H1 & H2).
  apply Forall_app in Hne as [Hne1 Hne2]. unfold l'. rewrite E.
  split; [by apply chain_sorted_insert|]. split; [by apply unregister_app|]. split.
  { exists l1, l2. split; [done|]. split; [done|]. intros m Hm Hp.
    apply elem_of_app in Hm as [|Hm]; [done|]. exfalso.
    destruct l2 as [|m2 l2]; [set_solver|].
    enough (priority m <= priority m2) by lia.
    apply elem_of_cons in Hm as [-> |Hm]; [lia|].
    assert (chain_sorted (m2 :: l2)) as Hs2.
    { clear -Hs. induction l1 as [|x l1 IH]; [done|]. apply IH. by apply chain_sorted_cons in Hs as []. }
    apply chain_sorted_cons in Hs2 as [Hs2 _]. rewrite Forall_forall in Hs2. by apply Hs2. }
  apply call_loop_spec. by destruct l1.
Qed.

Lemma notifier_chain_correct_witness :
  notifier_chain_register [Notifier 1 5; Notifier 2 0] (Notifier 3 5) =
    [Notifier 1 5; Notifier 3 5; Notifier 2 0] /\
  fst (notifier_chain_unregister (notifier_chain_register [Notifier 1 5; Notifier 2 0] (Notifier 3 5))
    (Notifier 3 5)) = [Notifier 1 5; Notifier 2 0].
Proof.
  split; [vm_compute; reflexivity|].
  destruct (notifier_chain_correct [Notifier 1 5; Notifier 2 0] (Notifier 3 5) (fun _ => 0)) as (_ & H & _).
  - apply chain_sorted_cons. split; [repeat constructor; cbn; lia|].
    apply chain_sorted_cons. split; [constructor|]. intros i j m n H. by rewrite lookup_nil in H.
  - repeat constructor; cbn; lia.
  - by rewrite H.
Defined.
