(* ===== verification/Ctype.v ===== *)
(** lib/ctype.c and include/linux/ctype.h: character classes; and C string
    literals as lists of bytes. *)
From S2P Require Import Prelude.
From Stdlib Require Ascii String.
Export Ascii.AsciiSyntax String.StringSyntax.

(** A character constant and the bytes of a string literal. *)
Definition ch (a : Ascii.ascii) : Z := Z.of_N (Ascii.N_of_ascii a).
Fixpoint bytes (s : String.string) : list Z :=
  match s with
  | String.EmptyString => []
  | String.String a s => ch a :: bytes s
  end.
#[global] Arguments ch a%_char_scope.
#[global] Arguments bytes s%_string_scope.

Definition CT_U : Z := 1.
Definition CT_L : Z := 2.
Definition CT_D : Z := 4.
Definition CT_S : Z := 32.
Definition CT_X : Z := 64.

Definition ctype : list Z :=
  [8; 8; 8; 8; 8; 8; 8; 8; 8; 40; 40; 40; 40; 40; 8; 8;
   8; 8; 8; 8; 8; 8; 8; 8; 8; 8; 8; 8; 8; 8; 8; 8;
   160; 16; 16; 16; 16; 16; 16; 16; 16; 16; 16; 16; 16; 16; 16; 16;
   4; 4; 4; 4; 4; 4; 4; 4; 4; 4; 16; 16; 16; 16; 16; 16;
   16; 65; 65; 65; 65; 65; 65; 1; 1; 1; 1; 1; 1; 1; 1; 1;
   1; 1; 1; 1; 1; 1; 1; 1; 1; 1; 1; 16; 16; 16; 16; 16;
   16; 66; 66; 66; 66; 66; 66; 2; 2; 2; 2; 2; 2; 2; 2; 2;
   2; 2; 2; 2; 2; 2; 2; 2; 2; 2; 2; 16; 16; 16; 16; 8;
   0; 0; 0; 0; 0; 0; 0; 0; 0; 0; 0; 0; 0; 0; 0; 0;
   0; 0; 0; 0; 0; 0; 0; 0; 0; 0; 0; 0; 0; 0; 0; 0;
   160; 16; 16; 16; 16; 16; 16; 16; 16; 16; 16; 16; 16; 16; 16; 16;
   16; 16; 16; 16; 16; 16; 16; 16; 16; 16; 16; 16; 16; 16; 16; 16;
   1; 1; 1; 1; 1; 1; 1; 1; 1; 1; 1; 1; 1; 1; 1; 1;
   1; 1; 1; 1; 1; 1; 1; 16; 1; 1; 1; 1; 1; 1; 1; 2;
   2; 2; 2; 2; 2; 2; 2; 2; 2; 2; 2; 2; 2; 2; 2; 2;
   2; 2; 2; 2; 2; 2; 2; 16; 2; 2; 2; 2; 2; 2; 2; 2].

Definition ismask (c : Z) : Z := get ctype (u8 c).
Definition isdigit (c : Z) : bool := truth (ismask c .& CT_D).
Definition islower (c : Z) : bool := truth (ismask c .& CT_L).
Definition isupper (c : Z) : bool := truth (ismask c .& CT_U).
Definition isspace (c : Z) : bool := truth (ismask c .& CT_S).
Definition isxdigit (c : Z) : bool := truth (ismask c .& (CT_D .| CT_X)).

Definition tolower (c : Z) : Z := if isupper c then u8 (c - (ch "A" - ch "a")) else c.
Definition toupper (c : Z) : Z := if islower c then u8 (c - (ch "a" - ch "A")) else c.

(** The character that [*p] reads, 0 at the end of a string. *)
Definition peek (s : list Z) : Z := hd 0 s.

(** [strnlen] of a string of non-zero bytes *)
Definition strnlen (s : list Z) (count : Z) : Z := Z.min (len s) count.

(** The classes on the characters that number parsing meets. *)
Lemma isdigit_spec c : 0 <= c < 256 -> isdigit c = (48 <=? c) && (c <=? 57).
Proof.
  intros Hc. apply (all_below_spec 256 (fun c => Bool.eqb (isdigit c) ((48 <=? c) && (c <=? 57)))) in Hc;
    [|vm_compute; reflexivity]. by apply eqb_prop in Hc.
Qed.

Lemma isxdigit_spec c : 0 <= c < 256 ->
  isxdigit c = ((48 <=? c) && (c <=? 57)) || ((65 <=? c) && (c <=? 70)) || ((97 <=? c) && (c <=? 102)).
Proof.
  intros Hc. apply (all_below_spec 256 (fun c => Bool.eqb (isxdigit c)
    (((48 <=? c) && (c <=? 57)) || ((65 <=? c) && (c <=? 70)) || ((97 <=? c) && (c <=? 102))))) in Hc;
    [|vm_compute; reflexivity]. by apply eqb_prop in Hc.
Qed.
