(* ===== verification/Vsprintf.v ===== *)
(** lib/vsprintf.c: number parsing, [vsnprintf] and [vsscanf]; [do_div] of
    include/asm-arm/div64.h. A string is the list of the bytes before its
    terminator; output goes to a memory indexed by address. *)
From S2P Require Import Prelude Ctype.

(** ** Reading numbers *)

(** The base that a zero [base] stands for, and the text after the prefix. *)
Definition strto_base (base : Z) (cp : list Z) : Z * list Z :=
  if base =? 0 then
    if peek cp =? ch "0" then
      let cp := tl cp in
      if (peek cp =? ch "x") && isxdigit (peek (tl cp)) then (16, tl cp) else (8, cp)
    else (10, cp)
  else (base, cp).

Definition digit_value (c : Z) : Z :=
  if isdigit c then c - ch "0" else toupper c - ch "A" + 10.

(** The loop of the conversions; [trunc] is the width of [result]. *)
Fixpoint strto_loop (trunc : Z -> Z) (base result : Z) (cp : list Z) : Z * list Z :=
  match cp with
  | [] => (result, [])
  | c :: rest =>
      if isxdigit c && (digit_value c <? base)
      then strto_loop trunc base (trunc (result * base + digit_value c)) rest
      else (result, cp)
  end.

(** The value and the rest of the text ([*endp]). *)
Definition simple_strtoul (cp : list Z) (base : Z) : Z * list Z :=
  let '(base, cp) := strto_base base cp in strto_loop u32 base 0 cp.

Definition simple_strtol (cp : list Z) (base : Z) : Z * list Z :=
  if peek cp =? ch "-" then
    let '(v, rest) := simple_strtoul (tl cp) base in (s32 (- v), rest)
  else let '(v, rest) := simple_strtoul cp base in (s32 v, rest).

Definition digit_value_ll (c : Z) : Z :=
  if isdigit c then c - ch "0" else (if islower c then toupper c else c) - ch "A" + 10.
Fixpoint strtoull_loop (base result : Z) (cp : list Z) : Z * list Z :=
  match cp with
  | [] => (result, [])
  | c :: rest =>
      if isxdigit c && (digit_value_ll c <? base)
      then strtoull_loop base (u64 (result * base + digit_value_ll c)) rest
      else (result, cp)
  end.
Definition simple_strtoull (cp : list Z) (base : Z) : Z * list Z :=
  let '(base, cp) := strto_base base cp in strtoull_loop base 0 cp.

Definition simple_strtoll (cp : list Z) (base : Z) : Z * list Z :=
  if peek cp =? ch "-" then
    let '(v, rest) := simple_strtoull (tl cp) base in (s64 (- v), rest)
  else let '(v, rest) := simple_strtoull cp base in (s64 v, rest).

Fixpoint skip_atoi_loop (i : Z) (s : list Z) : Z * list Z :=
  match s with
  | [] => (i, [])
  | c :: rest => if isdigit c then skip_atoi_loop (s32 (i * 10 + c - ch "0")) rest else (i, s)
  end.
Definition skip_atoi (s : list Z) : Z * list Z := skip_atoi_loop 0 s.

(** ** Output *)

(** The memory, the output pointer, and the values stored through %n. *)
Record out := Out { mem : gmap Z Z; str : Z; stores : list (Z * Z) }.

(** [if (str <= end) *str = c; ++str;] *)
Definition put (e c : Z) (o : out) : out :=
  Out (if str o <=? e then <[str o := c]> (mem o) else mem o) (str o + 1) (stores o).
Fixpoint puts (e : Z) (l : list Z) (o : out) : out :=
  match l with
  | [] => o
  | c :: l => puts e l (put e c o)
  end.
Fixpoint pad (n : nat) (e c : Z) (o : out) : out :=
  match n with
  | O => o
  | S n => pad n e c (put e c o)
  end.

(** ** Writing numbers *)
Definition ZEROPAD : Z := 1.
Definition SIGN : Z := 2.
Definition PLUS : Z := 4.
Definition SPACE : Z := 8.
Definition LEFT : Z := 16.
Definition SPECIAL : Z := 32.
Definition LARGE : Z := 64.

Definition small_digits : list Z := bytes "0123456789abcdefghijklmnopqrstuvwxyz".
Definition large_digits : list Z := bytes "0123456789ABCDEFGHIJKLMNOPQRSTUVWXYZ".

(** [do_div(n, base)] on ARM: the remainder and the new [n]. *)
Definition do_div (n base : Z) : Z * Z := (u32 n mod base, u32 n / base).

(** [while (num != 0) tmp[i++] = digits[do_div(num, base)]]; 64 rounds are more than enough, since a
    quotient is below 2^32. *)
Fixpoint digit_loop (fuel : nat) (digits : list Z) (num base : Z) : list Z :=
  match fuel with
  | O => []
  | S fuel =>
      if num =? 0 then []
      else let '(d, num) := do_div num base in get digits d :: digit_loop fuel digits num base
  end.

(** What is left of [size] after [while (size-- > 0) ...]. *)
Definition run_down (size : Z) : Z := if 0 <? size then -1 else size - 1.

Definition number (e num base size precision type : Z) (buf : out) : out :=
  let digits := if truth (type .& LARGE) then large_digits else small_digits in
  let type := if truth (type .& LEFT) then type .& Z.lnot ZEROPAD else type in
  if (base <? 2) || (36 <? base) then Out (mem buf) 0 (stores buf) else
  let c := if truth (type .& ZEROPAD) then ch "0" else ch " " in
  let '(sign, num, size) :=
    if truth (type .& SIGN) then
      if num <? 0 then (ch "-", s64 (- num), size - 1)
      else if truth (type .& PLUS) then (ch "+", num, size - 1)
      else if truth (type .& SPACE) then (ch " ", num, size - 1)
      else (0, num, size)
    else (0, num, size) in
  let size :=
    if truth (type .& SPECIAL) then
      if base =? 16 then size - 2 else if base =? 8 then size - 1 else size
    else size in
  let tmp := if num =? 0 then [ch "0"] else digit_loop 64 digits num base in
  let i := len tmp in
  let precision := if precision <? i then i else precision in
  let size := size - precision in
  let '(buf, size) :=
    if negb (truth (type .& (ZEROPAD + LEFT))) then
      (pad (Z.to_nat size) e (ch " ") buf, run_down size)
    else (buf, size) in
  let buf := if truth sign then put e sign buf else buf in
  let buf :=
    if truth (type .& SPECIAL) then
      if base =? 8 then put e (ch "0") buf
      else if base =? 16 then put e (get digits 33) (put e (ch "0") buf)
      else buf
    else buf in
  let '(buf, size) :=
    if negb (truth (type .& LEFT)) then (pad (Z.to_nat size) e c buf, run_down size) else (buf, size) in
  let buf := pad (Z.to_nat (precision - i)) e (ch "0") buf in
  let buf := puts e (rev tmp) buf in
  pad (Z.to_nat size) e (ch " ") buf.

(** ** vsnprintf *)

(** The arguments: a 32-bit word, a 64-bit integer, a string (or NULL), or the address that %n stores
    to. Reading an argument of another kind is undefined and gives [None]. *)
Inductive arg := AWord (v : Z) | ALong (v : Z) | AStr (s : option (list Z)) | AOut (addr : Z).

Definition va_word (args : list arg) : option (Z * list arg) :=
  match args with AWord v :: args => Some (v, args) | _ => None end.
Definition va_long (args : list arg) : option (Z * list arg) :=
  match args with ALong v :: args => Some (v, args) | _ => None end.
Definition va_str (args : list arg) : option (option (list Z) * list arg) :=
  match args with AStr s :: args => Some (s, args) | _ => None end.
Definition va_out (args : list arg) : option (Z * list arg) :=
  match args with AOut a :: args => Some (a, args) | _ => None end.

Fixpoint flags_loop (flags : Z) (fmt : list Z) : Z * list Z :=
  match fmt with
  | [] => (flags, [])
  | c :: rest =>
      if c =? ch "-" then flags_loop (flags .| LEFT) rest
      else if c =? ch "+" then flags_loop (flags .| PLUS) rest
      else if c =? ch " " then flags_loop (flags .| SPACE) rest
      else if c =? ch "#" then flags_loop (flags .| SPECIAL) rest
      else if c =? ch "0" then flags_loop (flags .| ZEROPAD) rest
      else (flags, fmt)
  end.

(** A number in the format, or [*] for the next argument. *)
Definition get_number (default_ : Z) (fmt : list Z) (args : list arg) : option (Z * list Z * list arg) :=
  if isdigit (peek fmt) then
    let '(n, fmt) := skip_atoi fmt in Some (n, fmt, args)
  else if peek fmt =? ch "*" then
    '(v, args) ← va_word args; Some (s32 v, tl fmt, args)
  else Some (default_, fmt, args).

Definition get_width (flags : Z) (fmt : list Z) (args : list arg) : option (Z * Z * list Z * list arg) :=
  '(w, fmt', args) ← get_number (-1) fmt args;
  if (peek fmt =? ch "*") && (w <? 0) then Some (flags .| LEFT, s32 (- w), fmt', args)
  else Some (flags, w, fmt', args).

Definition get_precision (fmt : list Z) (args : list arg) : option (Z * list Z * list arg) :=
  if peek fmt =? ch "." then
    '(p, fmt, args) ← get_number (-1) (tl fmt) args;
    Some (if p <? 0 then 0 else p, fmt, args)
  else Some (-1, fmt, args).

Definition get_qualifier (fmt : list Z) : Z * list Z :=
  let c := peek fmt in
  if (c =? ch "h") || (c =? ch "l") || (c =? ch "L") || (c =? ch "Z") then
    let fmt := tl fmt in
    if (c =? ch "l") && (peek fmt =? ch "l") then (ch "L", tl fmt) else (c, fmt)
  else (-1, fmt).

(** The integer argument of a conversion. *)
Definition int_arg (qualifier flags : Z) (args : list arg) : option (Z * list arg) :=
  let signed := truth (flags .& SIGN) in
  if qualifier =? ch "L" then '(v, args) ← va_long args; Some (s64 v, args) else
  '(v, args) ← va_word args;
  Some (if qualifier =? ch "l" then if signed then s32 v else u32 v
        else if qualifier =? ch "Z" then u32 v
        else if qualifier =? ch "h" then if signed then s16 v else u16 v
        else if signed then s32 v else u32 v, args).

Definition put_c (e flags field_width c : Z) (o : out) : out :=
  if negb (truth (flags .& LEFT)) then put e c (pad (Z.to_nat (field_width - 1)) e (ch " ") o)
  else pad (Z.to_nat (field_width - 1)) e (ch " ") (put e c o).

Definition put_s (e flags field_width precision : Z) (s : option (list Z)) (o : out) : out :=
  let s := default (bytes "<NULL>") s in
  let len_ := strnlen s (u32 precision) in
  let text := take (Z.to_nat len_) s in
  if negb (truth (flags .& LEFT)) then puts e text (pad (Z.to_nat (field_width - len_)) e (ch " ") o)
  else pad (Z.to_nat (field_width - len_)) e (ch " ") (puts e text o).

(** One conversion, [fmt] standing after the '%': the output, the format that is
    left and the arguments that are left. *)
Definition convert (buf e : Z) (fmt : list Z) (args : list arg) (o : out)
    : option (out * list Z * list arg) :=
  let '(flags, fmt) := flags_loop 0 fmt in
  '(flags, field_width, fmt, args) ← get_width flags fmt args;
  '(precision, fmt, args) ← get_precision fmt args;
  let '(qualifier, fmt) := get_qualifier fmt in
  let c := peek fmt in
  let fmt' := tl fmt in
  let integer base flags :=
    '(num, args) ← int_arg qualifier flags args;
    Some (number e num base field_width precision flags o, fmt', args) in
  if c =? ch "c" then
    '(v, args) ← va_word args; Some (put_c e flags field_width (u8 v) o, fmt', args)
  else if c =? ch "s" then
    '(s, args) ← va_str args; Some (put_s e flags field_width precision s o, fmt', args)
  else if c =? ch "p" then
    '(v, args) ← va_word args;
    let '(field_width, flags) :=
      if field_width =? -1 then (8, flags .| ZEROPAD) else (field_width, flags) in
    Some (number e (u32 v) 16 field_width precision flags o, fmt', args)
  else if c =? ch "n" then
    '(a, args) ← va_out args;
    Some (Out (mem o) (str o) (stores o ++ [(a, str o - buf)]), fmt', args)
  else if c =? ch "%" then Some (put e (ch "%") o, fmt', args)
  else if c =? ch "o" then integer 8 flags
  else if c =? ch "X" then integer 16 (flags .| LARGE)
  else if c =? ch "x" then integer 16 flags
  else if (c =? ch "d") || (c =? ch "i") then integer 10 (flags .| SIGN)
  else if c =? ch "u" then integer 10 flags
  else
    let o := put e (ch "%") o in
    if truth c then Some (put e c o, fmt', args) else Some (o, [], args).

Fixpoint format_loop (fuel : nat) (buf e : Z) (fmt : list Z) (args : list arg) (o : out) : option out :=
  match fmt with
  | [] => Some o
  | c :: fmt =>
      match fuel with
      | O => None
      | S fuel =>
          if negb (c =? ch "%") then format_loop fuel buf e fmt args (put e c o)
          else '(o, fmt, args) ← convert buf e fmt args o; format_loop fuel buf e fmt args o
      end
  end.

(** The end of the buffer and its size after the check for pointer overflow. *)
Definition buffer_end (buf size : Z) : Z * Z :=
  let e := u32 (buf + size - 1) in
  if e <? buf - 1 then (4294967295, 4294967295 - buf + 1) else (e, size).

(** The value returned, the memory, and the values stored through %n. *)
Definition vsnprintf (buf size : Z) (fmt : list Z) (args : list arg) (m : gmap Z Z)
    : option (Z * gmap Z Z * list (Z * Z)) :=
  let '(e, size) := buffer_end buf size in
  o ← format_loop (length fmt) buf e fmt args (Out m buf []);
  let m := if str o <=? e then <[str o := 0]> (mem o)
           else if 0 <? size then <[e := 0]> (mem o) else mem o in
  Some (str o - buf, m, stores o).

Definition snprintf := vsnprintf.
Definition vsprintf (buf : Z) := vsnprintf buf 4294967295.
Definition sprintf := vsprintf.

Example sprintf_text :
  (fun r => let '(n, m, _) := r in (n, map (fun a => default 0 (m !! a)) [64; 65; 66; 67; 68; 69; 70; 71])) <$>
  snprintf 64 8 (bytes "%d-%#04x%s") [AWord (-5); AWord 10; AStr (Some (bytes "abc"))] ∅
  = Some (10, bytes "-5-0x0a" ++ [0]).
Proof. vm_compute. reflexivity. Qed.

(** ** vsscanf *)

(** What is stored through the pointer arguments, in order: the characters of %c (no terminator
    follows), a string with its terminator, the position of %n, a number. *)
Inductive item := IChars (l : list Z) | IStr (l : list Z) | IPos (n : Z) | INum (v : Z).

Fixpoint skip_spaces (s : list Z) : list Z :=
  match s with
  | [] => []
  | c :: rest => if isspace c then skip_spaces rest else s
  end.
Fixpoint skip_word (s : list Z) : list Z :=
  match s with
  | [] => []
  | c :: rest => if negb (isspace c) then skip_word rest else s
  end.

(** [do *s++ = *str++; while (field_width-- > 0 && *str)]: the characters, the field width and the
    rest of the input. *)
Fixpoint scan_c (field_width : Z) (s : list Z) : list Z * Z * list Z :=
  match s with
  | [] => ([], field_width, [])
  | c :: rest =>
      if (0 <? field_width) && truth (peek rest) then
        let '(l, w, rest) := scan_c (field_width - 1) rest in (c :: l, w, rest)
      else ([c], field_width - 1, rest)
  end.

(** [while ( *str && !isspace( *str) && field_width--) *s++ = *str++] *)
Fixpoint scan_s (field_width : Z) (s : list Z) : list Z * Z * list Z :=
  match s with
  | [] => ([], field_width, [])
  | c :: rest =>
      if isspace c then ([], field_width, s)
      else if truth field_width then
        let '(l, w, rest) := scan_s (field_width - 1) rest in (c :: l, w, rest)
      else ([], field_width - 1, s)
  end.

(** The conversion of an integer by its qualifier. *)
Definition scan_int (qualifier : Z) (is_sign : bool) (base : Z) (s : list Z) : Z * list Z :=
  if qualifier =? ch "h" then
    if is_sign then let '(v, next) := simple_strtol s base in (s16 v, next)
    else let '(v, next) := simple_strtoul s base in (u16 v, next)
  else if qualifier =? ch "l" then if is_sign then simple_strtol s base else simple_strtoul s base
  else if qualifier =? ch "L" then if is_sign then simple_strtoll s base else simple_strtoull s base
  else if qualifier =? ch "Z" then simple_strtoul s base
  else if is_sign then simple_strtol s base else simple_strtoul s base.

(** How a conversion ends: with a number still to be read, done, or the whole scan is over. *)
Inductive scan_step :=
| Integer (base : Z) (is_sign : bool)
| Continue (s : list Z) (field_width num : Z) (items : list item)
| Stop (num : Z) (items : list item).

Definition INT_MAX : Z := 2147483647.

(** The [switch] on the conversion character. *)
Definition scan_conv (c pos : Z) (s : list Z) (field_width num : Z) (items : list item) : scan_step :=
  if c =? ch "c" then
    let '(l, w, s) := scan_c (if field_width =? -1 then 1 else field_width) s in
    Continue s w (num + 1) (items ++ [IChars l])
  else if c =? ch "s" then
    let '(l, w, s) := scan_s (if field_width =? -1 then INT_MAX else field_width) (skip_spaces s) in
    Continue s w (num + 1) (items ++ [IStr l])
  else if c =? ch "n" then Continue s field_width num (items ++ [IPos pos])
  else if c =? ch "o" then Integer 8 false
  else if (c =? ch "x") || (c =? ch "X") then Integer 16 false
  else if (c =? ch "d") || (c =? ch "i") then Integer 10 true
  else if c =? ch "u" then Integer 10 false
  else if c =? ch "%" then
    if negb (peek s =? ch "%") then Stop num items else Continue (tl s) field_width num items
  else Stop num items.

Definition scan_qualifier (fmt : list Z) : Z * list Z :=
  let c := peek fmt in
  if (c =? ch "h") || (c =? ch "l") || (c =? ch "L") || (c =? ch "Z") then (c, tl fmt) else (-1, fmt).

(** The loop; [n0] is the length of the input, [field_width] lives on from one conversion to the
    next. *)
Fixpoint scan_loop (fuel : nat) (n0 : Z) (fmt s : list Z) (field_width num : Z) (items : list item)
    : option (Z * list item) :=
  match fuel with
  | O => if truth (peek fmt) then None else Some (num, items)
  | S fuel =>
      if negb (truth (peek fmt) && truth (peek s)) then Some (num, items) else
      let '(fmt, s) := if isspace (peek fmt) then (skip_spaces fmt, skip_spaces s) else (fmt, s) in
      if negb (peek fmt =? ch "%") && truth (peek fmt) then
        if negb (peek fmt =? peek s) then Some (num, items)
        else scan_loop fuel n0 (tl fmt) (tl s) field_width num items
      else if negb (truth (peek fmt)) then Some (num, items)
      else
        let fmt := tl fmt in
        if peek fmt =? ch "*" then scan_loop fuel n0 (skip_word fmt) (skip_word s) field_width num items
        else
          let '(field_width, fmt) := if isdigit (peek fmt) then skip_atoi fmt else (field_width, fmt) in
          let '(qualifier, fmt) := scan_qualifier fmt in
          if negb (truth (peek fmt)) || negb (truth (peek s)) then Some (num, items) else
          match scan_conv (peek fmt) (n0 - len s) s field_width num items with
          | Stop num items => Some (num, items)
          | Continue s field_width num items => scan_loop fuel n0 (tl fmt) s field_width num items
          | Integer base is_sign =>
              let s := skip_spaces s in
              if negb (truth (peek s)) || negb (isdigit (peek s)) then Some (num, items) else
              let '(v, next) := scan_int qualifier is_sign base s in
              scan_loop fuel n0 (tl fmt) next field_width (num + 1) (items ++ [INum v])
          end
  end.

(** The number of conversions done and what they store. *)
Definition vsscanf (buf fmt : list Z) : option (Z * list item) :=
  scan_loop (length fmt) (len buf) fmt buf (-1) 0 [].
Definition sscanf := vsscanf.

Example sscanf_text :
  sscanf (bytes "eth0: 12 1f end") (bytes "%s %d %x %n") =
    Some (3, [IStr (bytes "eth0:"); INum 12; INum 31; IPos 12]) /\
  sscanf (bytes "io=300,5 rest") (bytes "io=%x,%hd %s") =
    Some (3, [INum 768; INum 5; IStr (bytes "rest")]).
Proof. vm_compute. auto. Qed.

(** ** Two runs with different ends of the buffer *)

(** [o1] written with end [e], [o2] with a later end, both from [buf] on with memory [m0]. *)
Record agrees (buf e : Z) (m0 : gmap Z Z) (o1 o2 : out) : Prop := {
  ag_str : str o1 = str o2;
  ag_stores : stores o1 = stores o2;
  ag_le : buf <= str o1;
  ag_in : forall a, a <= e -> mem o1 !! a = mem o2 !! a;
  ag_out : forall a, e < a \/ a < buf -> mem o1 !! a = m0 !! a }.

Create HintDb agree.

Section Agree.
Context (buf e e2 : Z) (m0 : gmap Z Z) (He : e <= e2).

Lemma put_agrees c o1 o2 : agrees buf e m0 o1 o2 -> agrees buf e m0 (put e c o1) (put e2 c o2).
Proof.
  intros [H1 H2 Hle H3 H4]. unfold put. rewrite <- H1. split; cbn; [lia|done|lia| |].
  - intros a Ha. destruct (Z.leb_spec (str o1) e), (Z.leb_spec (str o1) e2); try lia.
    + destruct (Z.eq_dec (str o1) a) as [->|]; [by rewrite !lookup_insert_eq|].
      rewrite !lookup_insert_ne by done. by apply H3.
    + rewrite lookup_insert_ne by lia. by apply H3.
    + by apply H3.
  - intros a Ha. destruct (Z.leb_spec (str o1) e); [|by apply H4].
    rewrite lookup_insert_ne by lia. by apply H4.
Qed.

Lemma puts_agrees l : forall o1 o2, agrees buf e m0 o1 o2 -> agrees buf e m0 (puts e l o1) (puts e2 l o2).
Proof. induction l as [|c l IH]; intros o1 o2 H; cbn; [done|]. by apply IH, put_agrees. Qed.

Lemma pad_agrees n c : forall o1 o2, agrees buf e m0 o1 o2 -> agrees buf e m0 (pad n e c o1) (pad n e2 c o2).
Proof. induction n as [|n IH]; intros o1 o2 H; cbn; [done|]. by apply IH, put_agrees. Qed.

Hint Resolve put_agrees puts_agrees pad_agrees : agree.

Lemma number_agrees num base size precision type o1 o2 :
  2 <= base <= 36 -> agrees buf e m0 o1 o2 ->
  agrees buf e m0 (number e num base size precision type o1) (number e2 num base size precision type o2).
Proof.
  intros Hb H. unfold number.
  destruct (Z.ltb_spec base 2); [lia|]. destruct (Z.ltb_spec 36 base); [lia|]. cbn [orb].
  destruct (if truth (_ .& SIGN) then _ else _) as [[sign num'] size'].
  destruct (negb (truth (_ .& (ZEROPAD + LEFT)))), (negb (truth (_ .& LEFT))),
    (truth sign), (truth (_ .& SPECIAL)), (base =? 8), (base =? 16); auto 12 with agree.
Qed.

Definition results_agree (r1 r2 : option (out * list Z * list arg)) : Prop :=
  match r1, r2 with
  | Some (o1, f1, a1), Some (o2, f2, a2) => agrees buf e m0 o1 o2 /\ f1 = f2 /\ a1 = a2
  | None, None => True
  | _, _ => False
  end.

Lemma convert_agrees fmt args o1 o2 :
  agrees buf e m0 o1 o2 -> results_agree (convert buf e fmt args o1) (convert buf e2 fmt args o2).
Proof.
  intros H. unfold convert. destruct (flags_loop 0 fmt) as [flags fmt1].
  destruct (get_width flags fmt1 args) as [[[[fl w] fmt2] args2]|]; [|done]. cbn [mbind option_bind].
  destruct (get_precision fmt2 args2) as [[[p fmt3] args3]|]; [|done]. cbn [mbind option_bind].
  destruct (get_qualifier fmt3) as [q fmt4]. cbv zeta.
  assert (forall base f, 2 <= base <= 36 -> results_agree
    ('(num, args) ← int_arg q f args3; Some (number e num base w p f o1, tl fmt4, args))
    ('(num, args) ← int_arg q f args3; Some (number e2 num base w p f o2, tl fmt4, args))) as Hint.
  { intros base f Hb. destruct (int_arg q f args3) as [[num a]|]; cbn; [|done].
    split; [|done]. by apply number_agrees. }
  repeat match goal with
  | |- results_agree (if ?c then _ else _) _ => destruct c
  end; try (apply Hint; lia).
  - destruct (va_word args3) as [[v a]|]; cbn; [|done]. split; [|done].
    unfold put_c. destruct (negb _); auto with agree.
  - destruct (va_str args3) as [[v a]|]; cbn; [|done]. split; [|done].
    unfold put_s. destruct (negb _); auto with agree.
  - destruct (va_word args3) as [[v a]|]; cbn [mbind option_bind]; [|done].
    destruct (w =? -1); (split; [|done]); apply number_agrees; (lia || done).
  - destruct (va_out args3) as [[v a]|]; cbn; [|done]. split; [|done].
    destruct H as [H1 H2 Hle H3 H4]. split; cbn; [done| |done|done|done]. by rewrite H1, H2.
  - cbn. auto with agree.
  - cbn. auto with agree.
  - cbn. auto with agree.
Qed.

Lemma format_agrees fuel : forall fmt args o1 o2,
  agrees buf e m0 o1 o2 ->
  match format_loop fuel buf e fmt args o1, format_loop fuel buf e2 fmt args o2 with
  | Some o1, Some o2 => agrees buf e m0 o1 o2
  | None, None => True
  | _, _ => False
  end.
Proof.
  induction fuel as [|fuel IH]; intros [|c fmt] args o1 o2 H; cbn [format_loop]; [done..|].
  destruct (negb _); [apply IH; auto with agree|].
  pose proof (convert_agrees fmt args o1 o2 H) as Hc. unfold results_agree in Hc.
  destruct (convert buf e fmt args o1) as [[[p1 f1] a1]|], (convert buf e2 fmt args o2) as [[[p2 f2] a2]|];
    cbn; try done. destruct Hc as (Hc & -> & ->). by apply IH.
Qed.
End Agree.

(** *** The fuel of the format loop suffices *)

Lemma skip_atoi_short s : forall i, (length (snd (skip_atoi_loop i s)) <= length s)%nat.
Proof.
  induction s as [|c s IH]; intros i; cbn; [lia|]. case_match; cbn; [|lia].
  etransitivity; [apply IH|lia].
Qed.

Lemma flags_short fmt : forall f, (length (snd (flags_loop f fmt)) <= length fmt)%nat.
Proof.
  induction fmt as [|c fmt IH]; intros f; cbn; [lia|].
  repeat case_match; cbn; try lia; (etransitivity; [apply IH|lia]).
Qed.

Lemma tl_short (l : list Z) : (length (tl l) <= length l)%nat.
Proof. destruct l; cbn; lia. Qed.

Lemma get_number_short d fmt args n fmt' args' :
  get_number d fmt args = Some (n, fmt', args') -> (length fmt' <= length fmt)%nat.
Proof.
  unfold get_number, skip_atoi. pose proof (skip_atoi_short fmt 0). pose proof (tl_short fmt).
  destruct (isdigit _).
  - destruct (skip_atoi_loop 0 fmt). cbn in *. by intros [= <- <- <-].
  - destruct (_ =? _); [|by intros [= <- <- <-]].
    destruct (va_word args) as [[]|]; cbn; [|done]. by intros [= <- <- <-].
Qed.

Lemma convert_short buf e fmt args o o' fmt' args' :
  convert buf e fmt args o = Some (o', fmt', args') -> (length fmt' <= length fmt)%nat.
Proof.
  unfold convert. pose proof (flags_short fmt 0) as H1. destruct (flags_loop 0 fmt) as [fl f1]. cbn in H1.
  unfold get_width. destruct (get_number (-1) f1 args) as [[[w f2] a2]|] eqn:E2; cbn [mbind option_bind]; [|done].
  apply get_number_short in E2.
  assert ((if (peek f1 =? ch "*") && (w <? 0) then Some (fl .| LEFT, s32 (- w), f2, a2) else Some (fl, w, f2, a2)) =
    Some (if (peek f1 =? ch "*") && (w <? 0) then fl .| LEFT else fl,
          if (peek f1 =? ch "*") && (w <? 0) then s32 (- w) else w, f2, a2)) as ->
    by (by destruct (_ && _)).
  cbn [mbind option_bind].
  generalize (if (peek f1 =? ch "*") && (w <? 0) then fl .| LEFT else fl).
  generalize (if (peek f1 =? ch "*") && (w <? 0) then s32 (- w) else w). intros w' fl'.
  destruct (get_precision f2 a2) as [[[p f3] a3]|] eqn:E3; cbn [mbind option_bind]; [|done].
  assert (length f3 <= length f2)%nat as H3.
  { unfold get_precision in E3. pose proof (tl_short f2). destruct (_ =? _); [|by injection E3 as <- <- <-].
    destruct (get_number (-1) (tl f2) a2) as [[[x y] z]|] eqn:E; cbn in E3; [|done].
    apply get_number_short in E. injection E3 as <- <- <-. lia. }
  pose proof (tl_short f3). pose proof (tl_short (tl f3)).
  assert (length (snd (get_qualifier f3)) <= length f3)%nat as H4
    by (unfold get_qualifier; repeat case_match; cbn; lia).
  destruct (get_qualifier f3) as [q f4]. cbn in H4. pose proof (tl_short f4). cbv zeta.
  repeat match goal with
  | |- context [if ?c then _ else _] => destruct c
  | |- context [?m ≫= _] => destruct m as [[]|]; cbn [mbind option_bind]
  end; intros [= <- <- <-]; cbn; lia.
Qed.

Lemma format_fuel buf e : forall fuel fmt args o,
  (length fmt <= fuel)%nat ->
  format_loop fuel buf e fmt args o = format_loop (length fmt) buf e fmt args o.
Proof.
  induction fuel as [fuel IH] using lt_wf_ind. intros [|c fmt] args o Hf; [by destruct fuel|].
  destruct fuel as [|fuel]; cbn in Hf; [lia|]. cbn [format_loop length].
  destruct (negb _); [apply IH; lia|].
  destruct (convert buf e fmt args o) as [[[o' f'] a']|] eqn:E; cbn [mbind option_bind]; [|done].
  apply convert_short in E. rewrite (IH fuel) by lia. by rewrite (IH (length fmt)) by lia.
Qed.

(** ** Theorems *)



(** *** Printing and reading numbers *)

Lemma small_digit d : 0 <= d < 16 ->
  isxdigit (get small_digits d) = true /\ digit_value (get small_digits d) = d.
Proof.
  intros Hd. apply (all_below_spec 16 (fun d => isxdigit (get small_digits d) &&
    (digit_value (get small_digits d) =? d))) in Hd; [|vm_compute; reflexivity].
  bool_hyps. done.
Qed.

(** The characters of [num] in [base], most significant first. *)
Definition digits_of (num base : Z) : list Z :=
  if num =? 0 then [ch "0"] else rev (digit_loop 64 small_digits num base).

Lemma strto_digits base rest l : forall r,
  Forall (fun c => isxdigit c = true /\ digit_value c < base) l ->
  strto_loop u32 base r (l ++ rest) =
  strto_loop u32 base (foldl (fun r c => u32 (r * base + digit_value c)) r l) rest.
Proof.
  induction l as [|c l IH]; intros r H; cbn; [done|]. apply Forall_cons in H as [[-> Hv] H].
  destruct (Z.ltb_spec (digit_value c) base); [|lia]. cbn. by apply IH.
Qed.

Lemma digit_loop_value base fuel : forall num,
  2 <= base <= 16 -> 0 <= num < 4294967296 -> num < 2 ^ Z.of_nat fuel ->
  Forall (fun c => isxdigit c = true /\ digit_value c < base) (digit_loop fuel small_digits num base) /\
  foldr (fun c r => u32 (r * base + digit_value c)) 0 (digit_loop fuel small_digits num base) = num.
Proof.
  induction fuel as [|fuel IH]; intros num Hb Hn Hf; cbn [digit_loop].
  { cbn in Hf. split; [constructor|cbn; lia]. }
  destruct (Z.eqb_spec num 0) as [->|Hnz]; [split; [constructor|done]|].
  unfold do_div. rewrite u32_id by lia.
  assert (0 <= num mod base < base) as Hm by (apply Z.mod_pos_bound; lia).
  assert (0 <= num / base < num) as Hd by (split; [apply Z.div_pos; lia|apply Z.div_lt; lia]).
  destruct (small_digit (num mod base)) as [Hx Hv]; [lia|].
  destruct (IH (num / base)) as [H1 H2]; [lia|lia| |].
  { apply Z.div_lt_upper_bound; [lia|].
    replace (2 ^ Z.of_nat (S fuel)) with (2 * 2 ^ Z.of_nat fuel) in Hf by (rewrite Nat2Z.inj_succ, Z.pow_succ_r; lia).
    nia. }
  split; [constructor; [split; [done|lia]|done]|]. cbn [foldr]. rewrite H2, Hv.
  pose proof (Z.div_mod num base ltac:(lia)). rewrite u32_id by nia. lia.
Qed.

Lemma number_plain e num base o : 0 <= num -> 2 <= base <= 36 ->
  number e num base (-1) (-1) 0 o = puts e (digits_of num base) o.
Proof.
  intros Hn Hb. unfold number. cbv zeta. change (truth (0 .& LEFT)) with false. cbv iota.
  destruct (Z.ltb_spec base 2); [lia|]. destruct (Z.ltb_spec 36 base); [lia|]. cbn [orb].
  change (truth (0 .& SIGN)) with false. change (truth (0 .& LEFT)) with false.
  change (truth (0 .& LARGE)) with false. change (truth (0 .& SPECIAL)) with false.
  change (truth (0 .& (ZEROPAD + LEFT))) with false. cbn [negb truth Z.eqb].
  set (tmp := if num =? 0 then [ch "0"] else digit_loop 64 small_digits num base).
  assert (digits_of num base = rev tmp) as -> by (unfold digits_of, tmp; by destruct (num =? 0)).
  assert (0 <= len tmp) by (unfold len; lia).
  destruct (Z.ltb_spec (-1) (len tmp)); [|lia].
  replace (Z.to_nat (-1 - len tmp)) with 0%nat by lia. cbn [pad].
  replace (Z.to_nat (len tmp - len tmp)) with 0%nat by lia. cbn [pad].
  unfold run_down. destruct (Z.ltb_spec 0 (-1 - len tmp)); [lia|].
  destruct (Z.ltb_spec 0 (-1 - len tmp - 1)); [lia|].
  replace (Z.to_nat (-1 - len tmp - 1)) with 0%nat by lia.
  replace (Z.to_nat (-1 - len tmp - 1 - 1)) with 0%nat by lia. done.
Qed.

Lemma strtoul_digits v base rest :
  0 <= v < 4294967296 -> 2 <= base <= 16 -> isxdigit (peek rest) = false ->
  simple_strtoul (digits_of v base ++ rest) base = (v, rest).
Proof.
  intros Hv Hb Hrest. unfold simple_strtoul, strto_base. destruct (Z.eqb_spec base 0); [lia|].
  assert (forall r, strto_loop u32 base r rest = (r, rest)) as Hstop.
  { intros r. destruct rest as [|x rest]; [done|]. cbn in *. by rewrite Hrest. }
  unfold digits_of. destruct (Z.eqb_spec v 0) as [->|].
  - rewrite strto_digits, Hstop.
    + cbn [foldl]. change (digit_value (ch "0")) with 0. by rewrite u32_id by lia.
    + constructor; [|constructor]. split; [reflexivity|]. change (digit_value (ch "0")) with 0. lia.
  - destruct (digit_loop_value base 64 v Hb Hv) as [H1 H2]; [cbn; lia|].
    rewrite strto_digits, Hstop by (by apply Forall_rev). f_equal.
    rewrite <- H2 at 2. generalize (digit_loop 64 small_digits v base). clear.
    intros l. induction l as [|x l IH]; [done|]. cbn [rev foldr]. by rewrite foldl_app, IH.
Qed.

(** The conversions %o, %u and %x and their bases. *)
Definition plain_conversion (c base : Z) : Prop :=
  (c = ch "o" /\ base = 8) \/ (c = ch "u" /\ base = 10) \/ (c = ch "x" /\ base = 16).

(** Printing and reading are inverse: for every 32-bit value, what %o, %u and %x print is read
    back by [simple_strtoul] in the same base as that value, stopping exactly at the end
    of the digits. *)
Theorem print_then_strtoul v c base buf e o rest :
  0 <= v < 4294967296 -> plain_conversion c base -> isxdigit (peek rest) = false ->
  format_loop 2 buf e [ch "%"; c] [AWord v] o = Some (puts e (digits_of v base) o) /\
  simple_strtoul (digits_of v base ++ rest) base = (v, rest).
Proof.
  intros Hv Hc Hrest.
  assert (2 <= base <= 16) as Hb by (destruct Hc as [[_ ->]|[[_ ->]|[_ ->]]]; lia). split.
  - assert (format_loop 2 buf e [ch "%"; c] [AWord v] o = Some (number e (u32 v) base (-1) (-1) 0 o)) as ->
      by (by destruct Hc as [[-> ->]|[[-> ->]|[-> ->]]]).
    rewrite u32_id by lia. by rewrite number_plain by lia.
  - by apply strtoul_digits.
Qed.

Lemma print_then_strtoul_witness :
  simple_strtoul (bytes "deadbeef, ...") 16 = (3735928559, bytes ", ...") /\
  digits_of 3735928559 16 = bytes "deadbeef".
Proof.
  split; [|vm_compute; reflexivity].
  exact (proj2 (print_then_strtoul 3735928559 (ch "x") 16 0 0 (Out ∅ 0 []) (bytes ", ...")
    ltac:(lia) ltac:(right; right; split; reflexivity) ltac:(vm_compute; reflexivity))).
Defined.

(** The 64-bit conversions are broken on ARM: [do_div] truncates its dividend to 32 bits, so
    %Lu of 2^32 prints "0" and %Lu of 2^32 + 7 prints "7". *)
Theorem long_long_truncated buf e o :
  format_loop 3 buf e (bytes "%Lu") [ALong 4294967296] o = Some (puts e (bytes "0") o) /\
  format_loop 3 buf e (bytes "%Lu") [ALong 4294967303] o = Some (puts e (bytes "7") o).
Proof. split; vm_compute; reflexivity. Qed.

(** *** Scanning *)

Lemma digit_loop_forall (P : Z -> Prop) base fuel : forall num,
  0 < base -> (forall d, 0 <= d < base -> P (get small_digits d)) ->
  Forall P (digit_loop fuel small_digits num base).
Proof.
  induction fuel as [|fuel IH]; intros num Hb HP; cbn [digit_loop]; [constructor|].
  destruct (num =? 0); [constructor|]. cbn. constructor; [|by apply IH].
  apply HP. apply Z.mod_pos_bound. lia.
Qed.

Lemma digits_of_head num : num <> 0 ->
  exists c l, digits_of num 10 = c :: l /\ isdigit c = true /\ truth c = true /\ isspace c = false.
Proof.
  intros Hn. unfold digits_of. destruct (Z.eqb_spec num 0); [done|].
  assert (Forall (fun c => isdigit c = true /\ truth c = true /\ isspace c = false)
    (rev (digit_loop 64 small_digits num 10))) as H.
  { apply Forall_rev, digit_loop_forall; [lia|]. intros d Hd.
    apply (all_below_spec 10 (fun d => isdigit (get small_digits d) && truth (get small_digits d) &&
      negb (isspace (get small_digits d)))) in Hd; [|vm_compute; reflexivity]. bool_hyps. done. }
  destruct (rev (digit_loop 64 small_digits num 10)) as [|c l] eqn:E.
  - apply (f_equal (@length Z)) in E. rewrite length_rev in E. cbn [digit_loop] in E.
    destruct (Z.eqb_spec num 0); [done|]. discriminate E.
  - apply Forall_cons in H as [H _]. by exists c, l.
Qed.

(** What [sprintf] writes with %u, [sscanf] with %u reads back, for every 32-bit value. *)
Theorem scan_printed_number v :
  0 <= v < 4294967296 -> vsscanf (digits_of v 10) (bytes "%u") = Some (1, [INum v]).
Proof.
  intros Hv. destruct (Z.eq_dec v 0) as [->|Hnz]; [vm_compute; reflexivity|].
  assert (simple_strtoul (digits_of v 10) 10 = (v, [])) as Hread.
  { rewrite <- (app_nil_r (digits_of v 10)).
    apply (strtoul_digits v 10 []); [lia|done|reflexivity]. }
  destruct (digits_of_head v Hnz) as (c & l & E & Hd & Ht & Hs). rewrite E in *.
  unfold vsscanf. change (bytes "%u") with [37; 117]. cbn [length scan_loop].
  change (peek [37; 117]) with 37. change (peek (c :: l)) with c. rewrite Ht.
  change (truth 37) with true. change (isspace 37) with false. change (37 =? ch "%") with true.
  cbn [andb negb tl peek hd]. change (117 =? ch "*") with false. change (isdigit 117) with false. cbv iota.
  change (scan_qualifier [117]) with (-1, [117]). cbv iota. change (truth (peek [117])) with true. rewrite Ht.
  cbn [negb orb]. change (scan_conv (peek [117]) _ (c :: l) (-1) 0 []) with (Integer 10 false). cbv iota.
  assert (skip_spaces (c :: l) = c :: l) as -> by (cbn; by rewrite Hs).
  change (peek (c :: l)) with c. rewrite Ht, Hd. cbn [negb orb]. unfold scan_int.
  change (-1 =? ch "h") with false. change (-1 =? ch "l") with false. change (-1 =? ch "L") with false.
  change (-1 =? ch "Z") with false. cbv iota. rewrite Hread. reflexivity.
Qed.

Lemma scan_printed_number_witness : vsscanf (bytes "4294967295") (bytes "%u") = Some (1, [INum 4294967295]).
Proof. exact (scan_printed_number 4294967295 ltac:(lia)). Defined.

(** Three input conversions do not do what they are for: %d refuses a negative number, %x refuses a
    number that starts with a letter, and %c stores two characters through a pointer
    to one. *)
Theorem sscanf_flaws :
  vsscanf (bytes "-5") (bytes "%d") = Some (0, []) /\
  vsscanf (bytes "ff") (bytes "%x") = Some (0, []) /\
  vsscanf (bytes "yes") (bytes "%c") = Some (1, [IChars (bytes "ye")]).
Proof. vm_compute. auto. Qed.

Lemma skip_short s : (length (skip_spaces s) <= length s)%nat /\ (length (skip_word s) <= length s)%nat.
Proof. induction s as [|c s [IH1 IH2]]; cbn; [lia|]. repeat case_match; cbn; lia. Qed.

Lemma scan_loop_total n0 : forall fuel fmt s w num items,
  (length fmt <= fuel)%nat -> is_Some (scan_loop fuel n0 fmt s w num items).
Proof.
  induction fuel as [|fuel IH]; intros fmt s w num items Hf.
  { destruct fmt; cbn in Hf; [by eexists|lia]. }
  cbn [scan_loop]. destruct (negb (truth (peek fmt) && _)) eqn:E0; [by eexists|].
  assert (exists f1 s1, (if isspace (peek fmt) then (skip_spaces fmt, skip_spaces s) else (fmt, s)) = (f1, s1)
    /\ (length f1 <= length fmt)%nat) as (f1 & s1 & -> & H1).
  { pose proof (proj1 (skip_short fmt)). destruct (isspace _); by do 2 eexists. }
  assert (truth (peek f1) = true -> (length (tl f1) <= fuel)%nat) as Htl
    by (destruct f1; cbn in *; [done|lia]).
  destruct (negb (peek f1 =? ch "%") && truth (peek f1)) eqn:E1.
  { destruct (negb (peek f1 =? peek s1)); [by eexists|]. apply IH, Htl. by bool_hyps. }
  destruct (negb (truth (peek f1))) eqn:E2; [by eexists|]. apply negb_false_iff in E2. specialize (Htl E2).
  destruct (peek (tl f1) =? _).
  { apply IH. pose proof (proj2 (skip_short (tl f1))). lia. }
  assert (exists w2 f2, (if isdigit (peek (tl f1)) then skip_atoi (tl f1) else (w, tl f1)) = (w2, f2)
    /\ (length f2 <= length (tl f1))%nat) as (w2 & f2 & -> & H2).
  { pose proof (skip_atoi_short (tl f1) 0). unfold skip_atoi. destruct (isdigit _); [|by do 2 eexists].
    destruct (skip_atoi_loop 0 (tl f1)). by do 2 eexists. }
  assert (length (snd (scan_qualifier f2)) <= length f2)%nat as H3
    by (unfold scan_qualifier; pose proof (tl_short f2); destruct (_ || _); cbn; lia).
  destruct (scan_qualifier f2) as [q f3]. cbn in H3. pose proof (tl_short f3).
  destruct (_ || _); [by eexists|].
  destruct (scan_conv _ _ _ _ _ _); [|apply IH; lia|by eexists].
  destruct (_ || _); [by eexists|]. destruct (scan_int _ _ _ _) as [v next]. apply IH. lia.
Qed.

(** [vsscanf] terminates on every input and format, within one round of its loop per character of
    the format. *)
Theorem vsscanf_total buf fmt : exists r, vsscanf buf fmt = Some r.
Proof. destruct (scan_loop_total (len buf) (length fmt) fmt buf (-1) 0 []) as [r Hr]; [lia|]. by exists r. Qed.
