(* ===== verification/Bootmem.v ===== *)
(** mm/bootmem.c: the boot-time page allocator of one memory node. The bitmap is the set of
    the page numbers whose bit is set; addresses are physical. *)
From S2P Require Import Prelude.

(** ** Data *)
Definition PAGE_SHIFT : Z := 12.
Definition PAGE_SIZE : Z := 4096.
Definition PAGE_MASK : Z := Z.lnot (PAGE_SIZE - 1).

Record bootmem_data := Bootmem {
  node_boot_start : Z; node_low_pfn : Z;
  node_bootmem_map : gset Z;
  last_offset : Z; last_pos : Z }.

Definition with_map (m : gset Z) (b : bootmem_data) : bootmem_data :=
  Bootmem (node_boot_start b) (node_low_pfn b) m (last_offset b) (last_pos b).
Definition with_last (o p : Z) (b : bootmem_data) : bootmem_data :=
  Bootmem (node_boot_start b) (node_low_pfn b) (node_bootmem_map b) o p.

Definition test_bit (i : Z) (m : gset Z) : bool := bool_decide (i ∈ m).

(** ** Operations *)

Definition bootmem_bootmap_pages (pages : Z) : Z :=
  let mapsize := u32 (pages + 7) / 8 in
  let mapsize := u32 (mapsize + Z.lnot PAGE_MASK) .& PAGE_MASK in
  mapsize .>> PAGE_SHIFT.

(** [i], [i + 1], ... ([n] of them) *)
Definition pages_from (i : Z) (n : nat) : list Z := map (fun k => i + Z.of_nat k) (seq 0 n).

(** The bitmap with all bits set and its size in bytes. *)
Definition init_bootmem_core (start end_ : Z) : bootmem_data * Z :=
  let mapsize := u32 (u32 (end_ - start) + 7) / 8 in
  let mapsize := u32 (mapsize + 3) .& Z.lnot 3 in
  (Bootmem (u32 (start .<< PAGE_SHIFT)) end_
     (list_to_set (pages_from 0 (Z.to_nat (8 * mapsize)))) 0 0, mapsize).

Definition reserve_bootmem_core (b : bootmem_data) (addr size : Z) : outcome bootmem_data :=
  let sidx := u32 (addr - node_boot_start b) / PAGE_SIZE in
  let eidx := u32 (addr + size - node_boot_start b + PAGE_SIZE - 1) / PAGE_SIZE in
  let end_ := u32 (addr + size + PAGE_SIZE - 1) / PAGE_SIZE in
  _ ← bug_on (size =? 0);
  _ ← bug_on (eidx <=? sidx);
  _ ← bug_on (node_low_pfn b <=? (addr .>> PAGE_SHIFT));
  _ ← bug_on (node_low_pfn b <? end_);
  Ok (with_map (foldl (fun m i => {[i]} ∪ m) (node_bootmem_map b)
                  (pages_from sidx (Z.to_nat (eidx - sidx)))) b).

(** [if (!test_and_clear_bit(i, map)) BUG();] for each page *)
Fixpoint clear_pages (ps : list Z) (m : gset Z) : outcome (gset Z) :=
  match ps with
  | [] => Ok m
  | i :: ps => _ ← bug_on (negb (test_bit i m)); clear_pages ps (m ∖ {[i]})
  end.

Definition free_bootmem_core (b : bootmem_data) (addr size : Z) : outcome bootmem_data :=
  let eidx := u32 (addr + size - node_boot_start b) / PAGE_SIZE in
  let end_ := u32 (addr + size) / PAGE_SIZE in
  _ ← bug_on (size =? 0);
  _ ← bug_on (node_low_pfn b <? end_);
  let start := u32 (addr + PAGE_SIZE - 1) / PAGE_SIZE in
  let sidx := u32 (start - node_boot_start b / PAGE_SIZE) in
  m ← clear_pages (pages_from sidx (Z.to_nat (eidx - sidx))) (node_bootmem_map b);
  Ok (with_map m b).

(** [for (j = i + 1; j < i + areasize; ++j)]: are these pages free? *)
Fixpoint block_free (n : nat) (j eidx : Z) (m : gset Z) : bool :=
  match n with
  | O => true
  | S n => if eidx <=? j then false else if test_bit j m then false else block_free n (j + 1) eidx m
  end.

(** [for (i = preferred; i < eidx; i += incr)]: the start of a free block; the outer [None] means
    out of fuel. *)
Fixpoint scan (fuel : nat) (i eidx incr areasize : Z) (m : gset Z) : option (option Z) :=
  match fuel with
  | O => None
  | S fuel =>
      if i <? eidx then
        if test_bit i m then scan fuel (i + incr) eidx incr areasize m
        else if block_free (Z.to_nat (areasize - 1)) (i + 1) eidx m then Some (Some i)
        else scan fuel (i + incr) eidx incr areasize m
      else Some None
  end.

(** The scans: above [preferred], then from [offset] on. *)
Fixpoint scans (fuel : nat) (preferred offset eidx incr areasize : Z) (m : gset Z) : option (option Z) :=
  match fuel with
  | O => None
  | S fuel =>
      r ← scan (S (Z.to_nat eidx)) preferred eidx incr areasize m;
      match r with
      | Some i => Some (Some i)
      | None => if truth preferred then scans fuel offset offset eidx incr areasize m else Some None
      end
  end.

(** [if (test_and_set_bit(i, map)) BUG();] for each page *)
Fixpoint set_pages (ps : list Z) (m : gset Z) : outcome (gset Z) :=
  match ps with
  | [] => Ok m
  | i :: ps => _ ← bug_on (test_bit i m); set_pages ps ({[i]} ∪ m)
  end.

(** The code after [found:]; the address of the block. *)
Definition take_block (b : bootmem_data) (size align start areasize eidx : Z)
    : outcome (Z * bootmem_data) :=
  _ ← bug_on (eidx <=? start);
  '(areasize, b, ret) ← (
    if (align <=? PAGE_SIZE) && truth (last_offset b) && (u32 (last_pos b + 1) =? start) then
      let offset := u32 (last_offset b + align - 1) .& Z.lnot (u32 (align - 1)) in
      _ ← bug_on (PAGE_SIZE <? offset);
      let remaining_size := PAGE_SIZE - offset in
      let ret := u32 (last_pos b * PAGE_SIZE + offset + node_boot_start b) in
      let '(areasize, b) :=
        if size <? remaining_size then (0, with_last (offset + size) (last_pos b) b)
        else
          let remaining_size := size - remaining_size in
          let areasize := u32 (remaining_size + PAGE_SIZE - 1) / PAGE_SIZE in
          (areasize, with_last remaining_size (start + areasize - 1) b) in
      Ok (areasize, with_last (last_offset b .& Z.lnot PAGE_MASK) (last_pos b) b, ret)
    else
      Ok (areasize, with_last (size .& Z.lnot PAGE_MASK) (start + areasize - 1) b,
          u32 (start * PAGE_SIZE + node_boot_start b)));
  m ← set_pages (pages_from start (Z.to_nat areasize)) (node_bootmem_map b);
  Ok (ret, with_map m b).

(** [Ok (None, _)] is NULL; the outer [None] means that the scans did not end within [fuel] rounds. *)
Definition __alloc_bootmem_core (fuel : nat) (b : bootmem_data) (size align goal : Z)
    : option (outcome (option Z * bootmem_data)) :=
  let eidx := u32 (node_low_pfn b - (node_boot_start b .>> PAGE_SHIFT)) in
  if size =? 0 then Some Bug else
  if truth (align .& u32 (align - 1)) then Some Bug else
  let rest := node_boot_start b .& u32 (align - 1) in
  let offset := if truth align && negb (rest =? 0) then align - rest else 0 in
  let offset := offset .>> PAGE_SHIFT in
  let preferred :=
    if truth goal && (node_boot_start b <=? goal) && ((goal .>> PAGE_SHIFT) <? node_low_pfn b)
    then goal - node_boot_start b else 0 in
  let preferred := (u32 (preferred + align - 1) .& Z.lnot (u32 (align - 1))) .>> PAGE_SHIFT in
  let preferred := preferred + offset in
  let areasize := u32 (size + PAGE_SIZE - 1) / PAGE_SIZE in
  let incr := if truth (align .>> PAGE_SHIFT) then align .>> PAGE_SHIFT else 1 in
  r ← scans fuel preferred offset eidx incr areasize (node_bootmem_map b);
  match r with
  | None => Some (Ok (None, b))
  | Some start =>
      Some ('(ret, b) ← take_block b size align start areasize eidx; Ok (Some ret, b))
  end.

(** The allocation from the nodes of [pgdat_list] in turn: [None] in the result is panic. *)
Fixpoint __alloc_bootmem (fuel : nat) (nodes : list bootmem_data) (size align goal : Z)
    : option (outcome (option Z * list bootmem_data)) :=
  match nodes with
  | [] => Some (Ok (None, []))
  | b :: nodes =>
      r ← __alloc_bootmem_core fuel b size align goal;
      match r with
      | Bug => Some Bug
      | Ok (Some ptr, b) => Some (Ok (Some ptr, b :: nodes))
      | Ok (None, b) =>
          r ← __alloc_bootmem fuel nodes size align goal;
          Some ('(ptr, nodes) ← r; Ok (ptr, b :: nodes))
      end
  end.

(** ** The invariant *)

Definition eidx_of (b : bootmem_data) : Z := node_low_pfn b - node_boot_start b / PAGE_SIZE.

(** A node within the 32-bit address space that starts at a page boundary. *)
Record node_ok (b : bootmem_data) : Prop := {
  nd_start : 0 <= node_boot_start b; nd_page : node_boot_start b mod PAGE_SIZE = 0;
  nd_order : node_boot_start b / PAGE_SIZE <= node_low_pfn b; nd_end : node_low_pfn b <= 1048576 }.

(** A block of bytes, by its offset from the start of the node and its size; it lies in the node and
    its pages are marked. *)
Definition block_ok (b : bootmem_data) (r : Z * Z) : Prop :=
  let '(s, n) := r in
  0 <= s /\ 0 < n /\ s + n <= eidx_of b * PAGE_SIZE /\
  forall p, s / PAGE_SIZE <= p <= (s + n - 1) / PAGE_SIZE -> p ∈ node_bootmem_map b.

Definition apart (r q : Z * Z) : Prop := r.1 + r.2 <= q.1 \/ q.1 + q.2 <= r.1.

(** [blocks]: what has been allocated so far. The part of page [last_pos] from [last_offset] on is
    unused, if [last_offset] is not 0. *)
Record boot_inv (b : bootmem_data) (blocks : list (Z * Z)) : Prop := {
  bi_node : node_ok b;
  bi_blocks : Forall (block_ok b) blocks;
  bi_apart : forall i j r q, i <> j -> blocks !! i = Some r -> blocks !! j = Some q -> apart r q;
  bi_tail : last_offset b <> 0 ->
    0 < last_offset b < PAGE_SIZE /\ 0 <= last_pos b < eidx_of b /\
    last_pos b ∈ node_bootmem_map b /\
    Forall (fun r => r.1 < (last_pos b + 1) * PAGE_SIZE ->
                     r.1 + r.2 <= last_pos b * PAGE_SIZE + last_offset b) blocks }.

(** ** Lemmas *)

Lemma pages_from_elem i n p : p ∈ pages_from i n <-> i <= p < i + Z.of_nat n.
Proof.
  unfold pages_from. rewrite list_elem_of_fmap. split.
  - intros (k & -> & Hk). apply elem_of_seq in Hk. lia.
  - intros H. exists (Z.to_nat (p - i)). split; [lia|]. apply elem_of_seq. lia.
Qed.

Lemma pages_from_cons i n : pages_from i (S n) = i :: pages_from (i + 1) n.
Proof.
  unfold pages_from. cbn [seq map]. f_equal; [lia|]. rewrite <- seq_shift, map_map.
  apply map_ext. lia.
Qed.

Definition run_free (m : gset Z) (i n : Z) : Prop := forall p, i <= p < i + n -> p ∉ m.

Lemma set_pages_ok n : forall i m, run_free m i (Z.of_nat n) ->
  exists m', set_pages (pages_from i n) m = Ok m' /\
    forall p, p ∈ m' <-> p ∈ m \/ i <= p < i + Z.of_nat n.
Proof.
  induction n as [|n IH]; intros i m Hf; [exists m; split; [done|intros p; intuition lia]|].
  rewrite pages_from_cons. cbn [set_pages]. unfold test_bit.
  rewrite bool_decide_false by (apply Hf; lia). cbn.
  destruct (IH (i + 1) ({[i]} ∪ m)) as (m' & Hm & Hp).
  - intros p Hp. apply not_elem_of_union. split; [set_solver by lia|apply Hf; lia].
  - exists m'. split; [done|]. intros p. rewrite Hp, elem_of_union, elem_of_singleton.
    split; [intros [[-> |]|]; auto; right; lia|]. intros [|]; [by auto|].
    destruct (Z.eq_dec p i); [auto|right; lia].
Qed.

Lemma block_free_spec n eidx m : forall j,
  block_free n j eidx m = true <-> run_free m j (Z.of_nat n) /\ (n = 0%nat \/ j + Z.of_nat n <= eidx).
Proof.
  induction n as [|n IH]; intros j; cbn [block_free].
  - split; [|done]. intros _. split; [intros p Hp; lia|auto].
  - destruct (Z.leb_spec eidx j); [split; [done|intros [_ [|]]; lia]|].
    unfold test_bit. case_bool_decide as Hj.
    + split; [done|]. intros [Hf _]. destruct (Hf j); [lia|done].
    + rewrite IH. split; intros [Hf He].
      * split; [|lia]. intros p Hp. destruct (Z.eq_dec p j) as [->|]; [done|]. apply Hf. lia.
      * split; [intros p Hp; apply Hf; lia|]. lia.
Qed.

(** Is [i] the start of a block of [areasize] free pages of the node? *)
Definition fits (m : gset Z) (eidx areasize i : Z) : Prop :=
  i + areasize <= eidx /\ run_free m i areasize.

Lemma fits_check m eidx areasize i : 1 <= areasize -> i < eidx ->
  fits m eidx areasize i <->
  test_bit i m = false /\ block_free (Z.to_nat (areasize - 1)) (i + 1) eidx m = true.
Proof.
  intros Ha Hi. unfold test_bit. rewrite bool_decide_eq_false, block_free_spec.
  rewrite Z2Nat.id by lia. unfold fits, run_free. split.
  - intros [He Hf]. split; [apply Hf; lia|]. split; [intros p Hp; apply Hf; lia|]. lia.
  - intros [Hb [Hf He]]. split; [lia|]. intros p Hp. destruct (Z.eq_dec p i) as [->|]; [done|].
    apply Hf. lia.
Qed.

Lemma scan_spec eidx incr areasize m : 1 <= incr -> 1 <= areasize -> forall fuel i,
  Z.max 0 (eidx - i) < Z.of_nat fuel ->
  (exists k, 0 <= k /\ scan fuel i eidx incr areasize m = Some (Some (i + k * incr)) /\
     fits m eidx areasize (i + k * incr)) \/
  (scan fuel i eidx incr areasize m = Some None /\
     forall k, 0 <= k -> ~ fits m eidx areasize (i + k * incr)).
Proof.
  intros Hincr Ha. induction fuel as [|fuel IH]; intros i Hf; [lia|]. cbn [scan].
  destruct (Z.ltb_spec i eidx) as [Hi|Hi].
  2: { right. split; [done|]. intros k Hk [He _]. nia. }
  assert (forall b, (if test_bit i m then b
      else if block_free (Z.to_nat (areasize - 1)) (i + 1) eidx m then Some (Some i) else b) =
    if test_bit i m || negb (block_free (Z.to_nat (areasize - 1)) (i + 1) eidx m) then b else Some (Some i))
    as -> by (intros b; by destruct (test_bit i m), (block_free _ _ _ _)).
  destruct (_ || _) eqn:E.
  - assert (~ fits m eidx areasize i) as Hno.
    { rewrite fits_check by done. intros [H1 H2]. rewrite H1, H2 in E. done. }
    destruct (IH (i + incr)) as [(k & Hk & Hs & Hfit)|[Hs Hnone]]; [lia|..].
    + left. exists (k + 1). replace (i + (k + 1) * incr) with (i + incr + k * incr) by lia.
      split; [lia|done].
    + right. split; [done|]. intros k Hk. destruct (Z.eq_dec k 0) as [->|].
      * by rewrite Z.mul_0_l, Z.add_0_r.
      * replace (i + k * incr) with (i + incr + (k - 1) * incr) by lia. apply Hnone. lia.
  - left. exists 0. rewrite Z.mul_0_l, Z.add_0_r. split; [lia|]. split; [done|].
    apply fits_check; [done|done|]. bool_hyps. done.
Qed.

(** The two scans when the node starts at a multiple of the alignment ([offset] is 0). *)
Lemma scans_spec eidx incr areasize m preferred :
  1 <= incr -> 1 <= areasize -> 0 <= preferred -> 0 <= eidx ->
  (exists i, scans 2 preferred 0 eidx incr areasize m = Some (Some i) /\ 0 <= i /\ fits m eidx areasize i /\ ((i - preferred) mod incr = 0 \/ i mod incr = 0)) \/
  (scans 2 preferred 0 eidx incr areasize m = Some None /\
     forall k, 0 <= k -> ~ fits m eidx areasize (k * incr)).
Proof.
  intros Hincr Ha Hp He. cbn [scans].
  assert (forall i, 0 <= i -> Z.max 0 (eidx - i) < Z.of_nat (S (Z.to_nat eidx))) as Hfuel by lia.
  assert (forall a k, (a + k * incr - a) mod incr = 0) as Hmod.
  { intros a k. replace (a + k * incr - a) with (k * incr) by lia. apply Z.mod_mul. lia. }
  destruct (scan_spec eidx incr areasize m Hincr Ha _ preferred (Hfuel _ Hp))
    as [(k & Hk & -> & Hfit)|[-> Hnone]]; cbn [mbind option_bind].
  { left. exists (preferred + k * incr). split; [done|]. split; [nia|]. split; [done|]. left. apply Hmod. }
  destruct (truth preferred) eqn:E.
  2: { right. split; [done|]. unfold truth in E. bool_hyps. subst. by setoid_rewrite Z.add_0_l in Hnone. }
  destruct (scan_spec eidx incr areasize m Hincr Ha _ 0 (Hfuel 0 ltac:(lia)))
    as [(k & Hk & -> & Hfit)|[-> Hnone']]; cbn [mbind option_bind].
  - left. exists (0 + k * incr). split; [done|]. split; [nia|]. split; [done|]. right.
    rewrite Z.add_0_l. apply Z.mod_mul. lia.
  - right. split; [done|]. by setoid_rewrite Z.add_0_l in Hnone'.
Qed.

Lemma round_down x k : 0 <= k -> x .& Z.lnot (2 ^ k - 1) = x / 2 ^ k * 2 ^ k.
Proof.
  intros Hk. replace (2 ^ k - 1) with (Z.ones k) by (rewrite Z.ones_equiv; lia).
  rewrite <- Z.ldiff_land, Z.ldiff_ones_r by done.
  by rewrite Z.shiftr_div_pow2, Z.shiftl_mul_pow2.
Qed.

Lemma page_rest x : x .& Z.lnot PAGE_MASK = x mod PAGE_SIZE.
Proof.
  unfold PAGE_MASK. rewrite Z.lnot_involutive. change (PAGE_SIZE - 1) with (Z.ones 12).
  by rewrite Z.land_ones.
Qed.

(** A marked block does not reach into a run of free pages. *)
Lemma block_vs_run b r i n : block_ok b r -> run_free (node_bootmem_map b) i n -> 0 < n ->
  r.1 + r.2 <= i * PAGE_SIZE \/ (i + n) * PAGE_SIZE <= r.1.
Proof.
  destruct r as [s z]. intros (H1 & H2 & H3 & Hp) Hf Hn. cbn. unfold PAGE_SIZE in *.
  destruct (Z_le_gt_dec (s + z) (i * 4096)); [auto|]. destruct (Z_le_gt_dec ((i + n) * 4096) s); [auto|].
  exfalso. apply (Hf (Z.max i (s / 4096))); [dm|]. apply Hp. dm.
Qed.

Lemma block_ok_mono b b' r :
  node_boot_start b' = node_boot_start b -> node_low_pfn b' = node_low_pfn b ->
  node_bootmem_map b ⊆ node_bootmem_map b' -> block_ok b r -> block_ok b' r.
Proof.
  intros H1 H2 H3. destruct r as [s n]. unfold block_ok, eidx_of. rewrite H1, H2.
  intros (? & ? & ? & Hp). repeat split; try done. intros p Hpr. by apply H3, Hp.
Qed.

(** One more block *)
Lemma boot_inv_add b blocks b' s n :
  boot_inv b blocks ->
  node_boot_start b' = node_boot_start b -> node_low_pfn b' = node_low_pfn b ->
  node_bootmem_map b ⊆ node_bootmem_map b' -> block_ok b' (s, n) ->
  Forall (apart (s, n)) blocks ->
  (last_offset b' <> 0 -> 0 < last_offset b' < PAGE_SIZE /\ 0 <= last_pos b' < eidx_of b /\
     last_pos b' ∈ node_bootmem_map b' /\
     Forall (fun r => r.1 < (last_pos b' + 1) * PAGE_SIZE ->
                      r.1 + r.2 <= last_pos b' * PAGE_SIZE + last_offset b') ((s, n) :: blocks)) ->
  boot_inv b' ((s, n) :: blocks).
Proof.
  intros [[Ha Hb Hc Hd] Hbl Hap Ht] H1 H2 H3 Hnew Hapart Htail. split.
  - split; by rewrite ?H1, ?H2.
  - constructor; [done|]. eapply Forall_impl; [exact Hbl|]. intros r. by apply block_ok_mono.
  - rewrite Forall_lookup in Hapart. intros [|i] [|j] r q Hij; cbn; intros Hi Hj; simplify_eq.
    + by apply (Hapart j).
    + destruct (Hapart i r Hi); [by right|by left].
    + by apply (Hap i j); [congruence|..].
  - unfold eidx_of. rewrite H1, H2. exact Htail.
Qed.

Lemma apart_run b blocks i n s z :
  Forall (block_ok b) blocks -> run_free (node_bootmem_map b) i n -> 0 < n ->
  i * PAGE_SIZE <= s -> s + z <= (i + n) * PAGE_SIZE -> Forall (apart (s, z)) blocks.
Proof.
  intros Hbl Hf Hn H1 H2. eapply Forall_impl; [exact Hbl|]. intros r Hr.
  destruct (block_vs_run b r i n Hr Hf Hn); [right|left]; cbn; lia.
Qed.

(** The block at the start of the free pages. *)
Lemma take_fresh b blocks size start areasize :
  boot_inv b blocks -> 0 < size <= 2147483648 -> areasize = (size + 4095) / 4096 ->
  0 <= start -> fits (node_bootmem_map b) (eidx_of b) areasize start ->
  exists m', set_pages (pages_from start (Z.to_nat areasize)) (node_bootmem_map b) = Ok m' /\
    boot_inv (with_map m' (with_last (size mod PAGE_SIZE) (start + areasize - 1) b))
      ((start * PAGE_SIZE, size) :: blocks).
Proof.
  intros Hinv Hs Ha H0 [He Hf]. pose proof (bi_blocks _ _ Hinv) as Hbl.
  assert (1 <= areasize) by dm.
  destruct (set_pages_ok (Z.to_nat areasize) start (node_bootmem_map b)) as (m' & Hm & Hin).
  { intros p Hp. apply Hf. lia. }
  rewrite Z2Nat.id in Hin by lia. exists m'. split; [done|]. unfold PAGE_SIZE in *.
  apply (boot_inv_add b); try done.
  - intros p Hp. cbn. apply Hin. by left.
  - split; [lia|]. split; [lia|]. change (eidx_of (with_map _ _)) with (eidx_of b).
    split; [unfold PAGE_SIZE; dm|]. intros p Hp. cbn. apply Hin. right. unfold PAGE_SIZE in Hp. dm.
  - apply (apart_run b _ start areasize); [done|done|lia|unfold PAGE_SIZE; lia|unfold PAGE_SIZE; dm].
  - cbn. intros Hlo. split; [unfold PAGE_SIZE; dm|]. split; [lia|]. split; [apply Hin; right; lia|].
    constructor; [cbn; unfold PAGE_SIZE; intros _; dm|].
    eapply Forall_impl; [exact Hbl|]. intros r Hr Hlt.
    destruct (block_vs_run b r start areasize Hr Hf); unfold PAGE_SIZE in *; dm.
Qed.

(** The blocks next to the unused part of the last page. *)
Lemma merge_apart b blocks start areasize off size :
  boot_inv b blocks -> last_offset b <> 0 -> last_pos b + 1 = start -> 0 < areasize ->
  run_free (node_bootmem_map b) start areasize ->
  last_offset b <= off -> last_pos b * PAGE_SIZE + off + size <= (start + areasize) * PAGE_SIZE ->
  Forall (apart (last_pos b * PAGE_SIZE + off, size)) blocks.
Proof.
  intros Hinv Hlo Hst Ha Hf Hoff Hend. destruct (bi_tail _ _ Hinv Hlo) as (_ & _ & _ & Ht).
  pose proof (bi_blocks _ _ Hinv) as Hbl. rewrite Forall_forall in *. intros r Hr.
  specialize (Ht r Hr). specialize (Hbl r Hr). unfold apart. cbn.
  pose proof (block_vs_run b r start areasize Hbl Hf Ha).
  destruct r as [s n]. cbn in *. destruct Hbl as (? & ? & _). lia.
Qed.

Lemma take_merged b blocks size start areasize off :
  boot_inv b blocks -> 0 < size <= 2147483648 -> areasize = (size + 4095) / 4096 ->
  fits (node_bootmem_map b) (eidx_of b) areasize start ->
  last_offset b <> 0 -> last_pos b + 1 = start -> last_offset b <= off <= 4096 ->
  (size < 4096 - off -> boot_inv (with_last (off + size) (last_pos b) b)
                          ((last_pos b * PAGE_SIZE + off, size) :: blocks)) /\
  (4096 - off <= size ->
   let rem := size - (4096 - off) in let area' := (rem + 4095) / 4096 in
   exists m', set_pages (pages_from start (Z.to_nat area')) (node_bootmem_map b) = Ok m' /\
     boot_inv (with_map m' (with_last (rem mod PAGE_SIZE) (start + area' - 1) b))
       ((last_pos b * PAGE_SIZE + off, size) :: blocks)).
Proof.
  intros Hinv Hs Ha [He Hf] Hlo Hst Hoff. pose proof (bi_tail _ _ Hinv Hlo) as (Hlor & Hlp & Hlm & Ht).
  pose proof (bi_blocks _ _ Hinv) as Hbl. assert (1 <= areasize) by dm. split.
  - intros Hsm. apply (boot_inv_add b); try done; unfold PAGE_SIZE in *.
    + split; [unfold PAGE_SIZE; lia|]. split; [lia|]. change (eidx_of (with_last _ _ b)) with (eidx_of b).
      split; [unfold PAGE_SIZE; lia|]. intros p Hp. cbn. unfold PAGE_SIZE in Hp.
      assert (p = last_pos b) as -> by dm. done.
    + apply (merge_apart b blocks start areasize off size); try done; unfold PAGE_SIZE; lia.
    + cbn. intros _. unfold PAGE_SIZE. split; [lia|]. split; [lia|]. split; [done|].
      constructor; [cbn; lia|]. eapply Forall_impl; [exact Ht|]. cbn. intros r. unfold PAGE_SIZE. lia.
  - intros Hbig rem area'. assert (0 <= rem) by (unfold rem; lia).
    assert (0 <= area' <= areasize) as Harea by (unfold area', rem in *; dm).
    destruct (set_pages_ok (Z.to_nat area') start (node_bootmem_map b)) as (m' & Hm & Hin).
    { intros p Hp. apply Hf. lia. }
    rewrite Z2Nat.id in Hin by lia. exists m'. split; [done|]. apply (boot_inv_add b); try done.
    + intros p Hp. cbn. apply Hin. by left.
    + split; [unfold PAGE_SIZE; lia|]. split; [lia|]. change (eidx_of (with_map _ _)) with (eidx_of b).
      unfold PAGE_SIZE. split; [unfold area', rem in *; dm|]. intros p Hp. cbn. apply Hin.
      destruct (Z.eq_dec p (last_pos b)) as [->|]; [by left|right]. unfold area', rem in *. dm.
    + apply (merge_apart b blocks start areasize off size); try done; [lia|lia|].
      unfold PAGE_SIZE. unfold area', rem in *. dm.
    + cbn. intros Hro. unfold PAGE_SIZE in *. assert (1 <= area') by (unfold area' in *; dm).
      split; [dm|]. split; [lia|]. split; [apply Hin; right; lia|].
      constructor; [cbn; intros _; unfold area', rem in *; dm|].
      rewrite Forall_forall in *. intros r Hr Hlt.
      specialize (Hbl r Hr). pose proof (block_vs_run b r start areasize Hbl Hf ltac:(lia)) as Hv.
      unfold PAGE_SIZE in Hv. unfold area', rem in *. dm.
Qed.

(** *** Alignments *)

Definition incr_of (k : Z) : Z := if k <? 12 then 1 else 2 ^ (k - 12).

Lemma incr_pow k : 0 <= k -> 1 <= incr_of k /\
  ((k < 12 /\ incr_of k = 1 /\ exists q, 0 < q /\ 4096 = q * 2 ^ k) \/
   (12 <= k /\ 2 ^ k = incr_of k * 4096)).
Proof.
  intros Hk. unfold incr_of. destruct (Z.ltb_spec k 12).
  - split; [lia|]. left. split; [done|]. split; [done|]. exists (2 ^ (12 - k)).
    rewrite <- Z.pow_add_r by lia. split; [lia|]. by replace (12 - k + k) with 12 by lia.
  - pose proof (Z.pow_pos_nonneg 2 (k - 12)). split; [lia|]. right. split; [done|].
    change 4096 with (2 ^ 12). rewrite <- Z.pow_add_r by lia. f_equal. lia.
Qed.

Lemma incr_shift k : 0 <= k ->
  (if truth (2 ^ k .>> PAGE_SHIFT) then 2 ^ k .>> PAGE_SHIFT else 1) = incr_of k.
Proof.
  intros Hk. unfold PAGE_SHIFT. rewrite Z.shiftr_div_pow2 by lia. change (2 ^ 12) with 4096.
  destruct (incr_pow k Hk) as [H1 [(H2 & H3 & q & Hq & E)|(H2 & E)]].
  - rewrite Z.div_small, H3; [done|]. pose proof (Z.pow_pos_nonneg 2 k).
    destruct (Z.eq_dec q 1) as [->|]; [|nia]. exfalso.
    assert (2 ^ k < 2 ^ 12) by (apply Z.pow_lt_mono_r; lia). lia.
  - rewrite E, Z.div_mul by lia. unfold truth. by destruct (Z.eqb_spec (incr_of k) 0); [lia|].
Qed.

(** A page number that is a multiple of the step gives an aligned address, and conversely. *)
Lemma aligned_page k i : 0 <= k -> (i * 4096) mod 2 ^ k = 0 <-> i mod incr_of k = 0.
Proof.
  intros Hk. pose proof (Z.pow_pos_nonneg 2 k ltac:(lia) Hk).
  destruct (incr_pow k Hk) as [H1 [(H2 & -> & q & Hq & E)|(H2 & E)]].
  - rewrite Z.mod_1_r. split; [done|]. intros _.
    rewrite E, Z.mul_assoc. apply Z.mod_mul. lia.
  - rewrite !Z.mod_divide by lia. rewrite E. split; intros [c Hc]; exists c; nia.
Qed.

Lemma preferred_mult k x : 0 <= k <= 31 ->
  0 <= (x / 2 ^ k * 2 ^ k) / 4096 -> ((x / 2 ^ k * 2 ^ k) / 4096) mod incr_of k = 0.
Proof.
  intros Hk _. destruct (incr_pow k ltac:(lia)) as [H1 [(H2 & -> & _)|(H2 & E)]]; [apply Z.mod_1_r|].
  rewrite E, Z.mul_assoc, Z.div_mul by lia. apply Z.mod_mul. lia.
Qed.

Lemma merge_offset k lo : 0 <= k <= 12 -> 0 < lo < 4096 ->
  let off := u32 (lo + 2 ^ k - 1) .& Z.lnot (u32 (2 ^ k - 1)) in
  lo <= off <= 4096 /\ off mod 2 ^ k = 0.
Proof.
  intros Hk Hlo off.
  assert (exists q, 0 < q /\ 4096 = q * 2 ^ k) as (q & Hq & E).
  { exists (2 ^ (12 - k)). pose proof (Z.pow_pos_nonneg 2 (12 - k)). split; [lia|].
    rewrite <- Z.pow_add_r by lia. by replace (12 - k + k) with 12 by lia. }
  pose proof (Z.pow_pos_nonneg 2 k). set (a := 2 ^ k) in *.
  assert (a <= 4096) by nia.
  assert (off = (lo + a - 1) / a * a) as ->.
  { unfold off. rewrite !u32_id by lia. unfold a at 2. rewrite round_down by lia. done. }
  pose proof (Z.div_mod (lo + a - 1) a ltac:(lia)). pose proof (Z.mod_pos_bound (lo + a - 1) a ltac:(lia)).
  split; [|apply Z.mod_mul; lia]. split; [nia|].
  assert ((lo + a - 1) / a < q + 1) by (apply Z.div_lt_upper_bound; nia). nia.
Qed.

(** [take_block] gives an aligned block that is added to the allocated ones. *)
Lemma take_block_ok b blocks size k start areasize :
  boot_inv b blocks -> 0 < size <= 2147483648 -> 0 <= k <= 31 ->
  areasize = (size + 4095) / 4096 -> 0 <= start -> (start * 4096) mod 2 ^ k = 0 ->
  fits (node_bootmem_map b) (eidx_of b) areasize start ->
  exists s b', take_block b size (2 ^ k) start areasize (eidx_of b) = Ok (node_boot_start b + s, b') /\
    node_boot_start b' = node_boot_start b /\ node_low_pfn b' = node_low_pfn b /\
    boot_inv b' ((s, size) :: blocks) /\ s mod 2 ^ k = 0.
Proof.
  intros Hinv Hs Hk Ha H0 Hal Hfit. pose proof (bi_node _ _ Hinv) as [Hn1 Hn2 Hn3 Hn4].
  assert (1 <= areasize) by dm. pose proof (proj1 Hfit) as He. unfold take_block.
  destruct (Z.leb_spec (eidx_of b) start); [lia|]. cbn [bug_on mbind outcome_bind].
  assert (forall x, 0 <= x -> x < eidx_of b * 4096 -> u32 (x + node_boot_start b) = node_boot_start b + x) as Hret.
  { intros x Hx1 Hx2. unfold eidx_of, PAGE_SIZE in *. rewrite u32_id; [lia|]. dm. }
  destruct ((2 ^ k <=? PAGE_SIZE) && truth (last_offset b) && (u32 (last_pos b + 1) =? start)) eqn:Em.
  - apply andb_true_iff in Em as [Em Em3]. apply andb_true_iff in Em as [Em1 Em2].
    unfold truth in Em2. bool_hyps. pose proof (bi_tail _ _ Hinv Em2) as (Hlo & Hlp & _).
    assert (eidx_of b <= 1048576) as He20 by (unfold eidx_of, PAGE_SIZE in *; dm).
    rewrite u32_id in Em3 by lia.
    assert (k <= 12) as Hk12 by (apply (Z.pow_le_mono_r_iff 2); unfold PAGE_SIZE in *; lia).
    unfold PAGE_SIZE in Hlo. destruct (merge_offset k (last_offset b) ltac:(lia) Hlo) as [Ho1 Ho2].
    set (off := u32 _ .& _) in *.
    destruct (take_merged b blocks size start areasize off Hinv Hs Ha Hfit Em2 Em3 Ho1) as [Hsmall Hbig].
    destruct (Z.ltb_spec PAGE_SIZE off); [unfold PAGE_SIZE in *; lia|]. cbn [bug_on mbind outcome_bind].
    assert (u32 (last_pos b * PAGE_SIZE + off + node_boot_start b) =
            node_boot_start b + (last_pos b * PAGE_SIZE + off)) as ->
      by (apply Hret; unfold PAGE_SIZE in *; lia).
    exists (last_pos b * PAGE_SIZE + off).
    assert ((last_pos b * PAGE_SIZE + off) mod 2 ^ k = 0) as Hmod.
    { pose proof (Z.pow_pos_nonneg 2 k ltac:(lia) ltac:(lia)).
      rewrite Zplus_mod, Ho2. assert ((last_pos b * PAGE_SIZE) mod 2 ^ k = 0) as ->; [|done].
      apply aligned_page; [lia|]. destruct (incr_pow k ltac:(lia)) as [? [(? & -> & _)|(? & E)]];
        [apply Z.mod_1_r|]. assert (k = 12) as -> by lia. apply Z.mod_1_r. }
    destruct (Z.ltb_spec size (PAGE_SIZE - off)) as [Hc|Hc]; cbn [mbind outcome_bind].
    + rewrite page_rest. cbn [last_offset with_last last_pos]. rewrite Z.mod_small by (unfold PAGE_SIZE in *; lia).
      cbn. eexists. split; [reflexivity|]. split; [done|]. split; [done|]. split; [|done].
      specialize (Hsmall ltac:(unfold PAGE_SIZE in *; lia)). by destruct Hsmall.
    + destruct (Hbig ltac:(unfold PAGE_SIZE in *; lia)) as (m' & Hm & Hi).
      rewrite page_rest. cbn [last_offset with_last last_pos node_bootmem_map].
      assert (u32 (size - (PAGE_SIZE - off) + PAGE_SIZE - 1) / PAGE_SIZE = (size - (4096 - off) + 4095) / 4096) as ->
        by (unfold PAGE_SIZE in *; rewrite u32_id by lia; f_equal; lia).
      rewrite Hm. cbn [mbind outcome_bind]. eexists. split; [reflexivity|]. done.
  - cbn [mbind outcome_bind]. rewrite page_rest. cbn [node_bootmem_map with_last].
    destruct (take_fresh b blocks size start areasize Hinv Hs Ha H0 Hfit) as (m' & -> & Hi).
    cbn [mbind outcome_bind]. exists (start * PAGE_SIZE).
    rewrite Hret by (unfold PAGE_SIZE in *; lia). eexists. split; [reflexivity|]. done.
Qed.

(** ** Theorems *)

Lemma alloc_core_spec b blocks size k goal :
  boot_inv b blocks -> 0 < size <= 2147483648 -> 0 <= k <= 31 -> 0 <= goal < 4294967296 ->
  node_boot_start b mod 2 ^ k = 0 ->
  (exists addr b', __alloc_bootmem_core 2 b size (2 ^ k) goal = Some (Ok (Some addr, b')) /\
     boot_inv b' ((addr - node_boot_start b, size) :: blocks) /\ addr mod 2 ^ k = 0) \/
  (__alloc_bootmem_core 2 b size (2 ^ k) goal = Some (Ok (None, b)) /\
     forall i, 0 <= i -> (i * PAGE_SIZE) mod 2 ^ k = 0 ->
       ~ fits (node_bootmem_map b) (eidx_of b) ((size + 4095) / 4096) i).
Proof.
  intros Hinv Hs Hk Hg Hnode. pose proof (bi_node _ _ Hinv) as [Hn1 Hn2 Hn3 Hn4].
  pose proof (Z.pow_pos_nonneg 2 k ltac:(lia) ltac:(lia)) as Hpos.
  assert (2 ^ k <= 2 ^ 31) as Hk31 by (apply Z.pow_le_mono_r; lia). change (2 ^ 31) with 2147483648 in Hk31.
  assert (0 <= eidx_of b <= 1048576) as He by (unfold eidx_of, PAGE_SIZE in *; dm).
  assert (u32 (node_low_pfn b - (node_boot_start b .>> PAGE_SHIFT)) = eidx_of b) as Heid.
  { unfold PAGE_SHIFT. rewrite Z.shiftr_div_pow2 by lia. apply (u32_id (eidx_of b)). lia. }
  unfold __alloc_bootmem_core. cbv zeta. rewrite Heid, (u32_id (2 ^ k - 1)) by lia.
  destruct (Z.eqb_spec size 0); [lia|].
  assert (forall x, x .& (2 ^ k - 1) = x mod 2 ^ k) as Hmask.
  { intros x. replace (2 ^ k - 1) with (Z.ones k) by (rewrite Z.ones_equiv; lia). by rewrite Z.land_ones by lia. }
  rewrite !Hmask, Z.mod_same, Hnode by lia. cbn [truth Z.eqb negb]. rewrite andb_false_r.
  cbv iota. change (0 .>> PAGE_SHIFT) with 0. rewrite round_down, incr_shift by lia. unfold PAGE_SHIFT.
  set (p0 := if _ && _ then _ else _).
  rewrite (Z.shiftr_div_pow2 (_ * _)) by lia. change (2 ^ 12) with 4096. rewrite Z.add_0_r.
  set (x := u32 (p0 + 2 ^ k - 1)). pose proof (u32_range (p0 + 2 ^ k - 1)) as Hx. fold x in Hx.
  assert (0 <= x / 2 ^ k * 2 ^ k / 4096) as Hpref.
  { apply Z.div_pos; [|lia]. apply Z.mul_nonneg_nonneg; [apply Z.div_pos; lia|lia]. }
  assert (u32 (size + PAGE_SIZE - 1) / PAGE_SIZE = (size + 4095) / 4096) as ->
    by (unfold PAGE_SIZE; rewrite u32_id by lia; f_equal; lia).
  pose proof (proj1 (incr_pow k ltac:(lia))) as Hincr.
  destruct (scans_spec (eidx_of b) (incr_of k) ((size + 4095) / 4096) (node_bootmem_map b)
    (x / 2 ^ k * 2 ^ k / 4096) Hincr ltac:(dm) Hpref (proj1 He)) as [(i & -> & Hi & Hfit & Hal)|[-> Hnone]];
    cbn [mbind option_bind].
  - left. assert (i mod incr_of k = 0) as Hmod.
    { destruct Hal as [Hal|]; [|done]. pose proof (preferred_mult k x ltac:(lia) Hpref) as Hpm.
      apply Z.mod_divide in Hal; [|lia]. apply Z.mod_divide in Hpm; [|lia]. apply Z.mod_divide; [lia|].
      replace i with (i - x / 2 ^ k * 2 ^ k / 4096 + x / 2 ^ k * 2 ^ k / 4096) by lia.
      by apply Z.divide_add_r. }
    destruct (take_block_ok b blocks size k i _ Hinv Hs Hk eq_refl Hi) as (s & b' & -> & Hb1 & Hb2 & Hb3 & Hb4);
      [by apply aligned_page; [lia|]|done|].
    exists (node_boot_start b + s), b'. split; [done|].
    replace (node_boot_start b + s - node_boot_start b) with s by lia. split; [done|].
    rewrite Zplus_mod, Hnode, Hb4. done.
  - right. split; [done|]. intros i Hi Hal Hf. unfold PAGE_SIZE in Hal.
    apply aligned_page in Hal; [|lia]. apply Z.mod_divide in Hal as [c Hc]; [|lia]. subst i.
    apply (Hnone c); [nia|done].
Qed.


Lemma boot_inv_start b : node_ok b -> last_offset b = 0 -> boot_inv b [].
Proof. intros Hn Hl. split; [done|constructor| |by rewrite Hl]. intros i j r q _ H. by rewrite lookup_nil in H. Qed.

(** Eight pages of RAM at 0xC0000000, the first two reserved. *)
Definition demo_node : bootmem_data := Bootmem 3221225472 786440 {[0; 1]} 0 0.


(** Without a free block in a node whose start is not a multiple of the alignment, the
    allocator never returns: it restarts its scan from a non-zero [offset] for ever. *)
Theorem alloc_bootmem_hangs fuel :
  __alloc_bootmem_core fuel (Bootmem 32768 16 (list_to_set (pages_from 0 8)) 0 0) 4096 65536 0 = None.
Proof.
  assert (forall n, scans n 8 8 8 16 1 (list_to_set (pages_from 0 8)) = None) as H.
  { induction n as [|n IH]; [done|]. cbn [scans].
    assert (scan (S (Z.to_nat 8)) 8 8 16 1 (list_to_set (pages_from 0 8)) = Some None) as ->
      by (vm_compute; reflexivity). exact IH. }
  unfold __alloc_bootmem_core. cbv zeta.
  match goal with |- context [scans fuel ?a ?b ?c ?d ?e ?m] =>
    replace (scans fuel a b c d e m) with (@None (option Z)) by (symmetry; exact (H fuel))
  end. reflexivity.
Qed.

(** With an alignment of 0 (which the code allows for) the allocator hands out memory twice: the
    second block starts where the page of the first one starts. *)
Theorem alloc_bootmem_align_0_overlaps :
  match __alloc_bootmem_core 2 demo_node 100 1 0 with
  | Some (Ok (Some a1, b1)) =>
      match __alloc_bootmem_core 2 b1 50 0 0 with
      | Some (Ok (Some a2, _)) => a1 = 3221233664 /\ a2 = 3221233664
      | _ => False
      end
  | _ => False
  end.
Proof. vm_compute. auto. Qed.

(** *** Registering and reserving memory *)

Lemma set_bits_elem (ps : list Z) : forall (m : gset Z) p,
  p ∈ foldl (fun m i => {[i]} ∪ m) m ps <-> p ∈ m \/ p ∈ ps.
Proof. induction ps as [|i ps IH]; intros m p; cbn [foldl]; [set_solver|]. rewrite IH. set_solver. Qed.

Lemma clear_pages_ok n : forall i m,
  ((forall p, i <= p < i + Z.of_nat n -> p ∈ m) ->
     exists m', clear_pages (pages_from i n) m = Ok m' /\
       forall p, p ∈ m' <-> p ∈ m /\ ~ (i <= p < i + Z.of_nat n)) /\
  ((exists p, i <= p < i + Z.of_nat n /\ p ∉ m) -> clear_pages (pages_from i n) m = Bug).
Proof.
  induction n as [|n IH]; intros i m.
  - split; [|intros (p & Hp & _); lia]. intros _. exists m. split; [done|]. intros p. intuition lia.
  - rewrite pages_from_cons. cbn [clear_pages]. unfold test_bit.
    destruct (IH (i + 1) (m ∖ {[i]})) as [IH1 IH2]. case_bool_decide as Hi; cbn [negb bug_on mbind outcome_bind].
    + split.
      * intros Hall. destruct IH1 as (m' & Hm & Hp).
        { intros p Hp. apply elem_of_difference. split; [apply Hall; lia|set_solver by lia]. }
        exists m'. split; [done|]. intros p. rewrite Hp, elem_of_difference, elem_of_singleton.
        destruct (Z.eq_dec p i) as [->|]; intuition lia.
      * intros (p & Hp & Hnot). apply IH2. exists p. split; [|set_solver].
        destruct (Z.eq_dec p i) as [->|]; [done|lia].
    + split; [|done]. intros Hall. destruct Hi. apply Hall. lia.
Qed.

(** Registering and reserving RAM: for a range of whole pages inside the node,
    [free_bootmem] clears exactly the bits of these pages when they are all reserved and is a BUG
    otherwise; [reserve_bootmem] sets exactly these bits, keeps every allocated block, and undoes
    [free_bootmem]. *)
Theorem bootmem_ranges b first n :
  node_ok b -> node_low_pfn b < 1048576 -> 0 <= first -> 0 < n -> first + n <= eidx_of b ->
  let addr := node_boot_start b + first * PAGE_SIZE in let size := n * PAGE_SIZE in
  let inside p := first <= p < first + n in
  ((forall p, inside p -> p ∈ node_bootmem_map b) -> exists m', free_bootmem_core b addr size = Ok (with_map m' b) /\
     (forall p, p ∈ m' <-> p ∈ node_bootmem_map b /\ ~ inside p) /\
     reserve_bootmem_core (with_map m' b) addr size = Ok b) /\
  ((exists p, inside p /\ p ∉ node_bootmem_map b) -> free_bootmem_core b addr size = Bug) /\
  (exists m', reserve_bootmem_core b addr size = Ok (with_map m' b) /\
     (forall p, p ∈ m' <-> p ∈ node_bootmem_map b \/ inside p) /\
     forall blocks, boot_inv b blocks -> boot_inv (with_map m' b) blocks).
Proof.
  intros [Hn1 Hn2 Hn3 Hn4] Hlow Hf Hn He addr size inside. unfold eidx_of, PAGE_SIZE in *.
  set (q := node_boot_start b / 4096) in *. assert (node_boot_start b = q * 4096) as Hq by (unfold q; dm).
  assert (forall c, node_boot_start c = node_boot_start b -> node_low_pfn c = node_low_pfn b ->
    free_bootmem_core c addr size =
      (m' ← clear_pages (pages_from first (Z.to_nat n)) (node_bootmem_map c); Ok (with_map m' c)) /\
    reserve_bootmem_core c addr size = Ok (with_map (foldl (fun m i => {[i]} ∪ m) (node_bootmem_map c)
      (pages_from first (Z.to_nat n))) c)) as Hops.
  { intros c H1 H2. unfold free_bootmem_core, reserve_bootmem_core, addr, size, PAGE_SHIFT, PAGE_SIZE.
    rewrite H1, H2, Hq, Z.shiftr_div_pow2 by lia. change (2 ^ 12) with 4096.
    replace (u32 (q * 4096 + first * 4096 + n * 4096 - q * 4096) / 4096) with (first + n) by (rewrite u32_id; dm).
    replace (u32 (q * 4096 + first * 4096 + n * 4096) / 4096) with (q + first + n) by (rewrite u32_id; dm).
    replace (u32 (u32 (q * 4096 + first * 4096 + 4096 - 1) / 4096 - q * 4096 / 4096)) with first
      by (rewrite (u32_id (q * 4096 + first * 4096 + 4096 - 1)) by lia; rewrite u32_id; dm).
    replace (u32 (q * 4096 + first * 4096 - q * 4096) / 4096) with first by (rewrite u32_id; dm).
    replace (u32 (q * 4096 + first * 4096 + n * 4096 - q * 4096 + 4096 - 1) / 4096) with (first + n)
      by (rewrite u32_id; dm).
    replace (u32 (q * 4096 + first * 4096 + n * 4096 + 4096 - 1) / 4096) with (q + first + n)
      by (rewrite u32_id; dm).
    replace ((q * 4096 + first * 4096) / 4096) with (q + first) by dm.
    replace (first + n - first) with n by lia.
    destruct (Z.eqb_spec (n * 4096) 0); [lia|]. destruct (Z.ltb_spec (node_low_pfn b) (q + first + n)); [lia|].
    destruct (Z.leb_spec (first + n) first); [lia|]. destruct (Z.leb_spec (node_low_pfn b) (q + first)); [lia|].
    done. }
  destruct (Hops b eq_refl eq_refl) as [Hfree Hres].
  destruct (clear_pages_ok (Z.to_nat n) first (node_bootmem_map b)) as [Hok Hbug].
  rewrite Z2Nat.id in Hok, Hbug by lia. split; [|split].
  - intros Hall. destruct (Hok Hall) as (m' & Hm & Hp). exists m'. rewrite Hfree, Hm. split; [done|].
    split; [done|]. destruct (Hops (with_map m' b) eq_refl eq_refl) as [_ ->]. cbn.
    f_equal. destruct b as [bs lp m lo lpos]. cbn in *. unfold with_map. cbn. f_equal.
    apply set_eq. intros p. rewrite set_bits_elem, Hp, pages_from_elem, Z2Nat.id by lia.
    split; [intros [[? _]|H]; [done|by apply Hall]|].
    intros Hpm. destruct (decide (first <= p < first + n)); tauto.
  - intros Hex. by rewrite Hfree, (Hbug Hex).
  - eexists. split; [exact Hres|].
    assert (forall p, p ∈ foldl (fun m i => {[i]} ∪ m) (node_bootmem_map b) (pages_from first (Z.to_nat n)) <->
      p ∈ node_bootmem_map b \/ inside p) as Hin
      by (intros p; rewrite set_bits_elem, pages_from_elem, Z2Nat.id by lia; done).
    split; [exact Hin|]. intros blocks [Hnd Hbl Hap Ht]. split; [by destruct Hnd| |done|].
    + eapply Forall_impl; [exact Hbl|]. intros r. apply block_ok_mono; [done|done|].
      intros p Hp. cbn. apply Hin. by left.
    + intros Hlo. destruct (Ht Hlo) as (H1 & H2 & H3 & H4). split; [done|]. split; [done|].
      split; [|done]. apply Hin. by left.
Qed.

Lemma bootmem_ranges_witness :
  exists m', reserve_bootmem_core demo_node 3221237760 8192 = Ok (with_map m' demo_node) /\
    (forall p, p ∈ m' <-> p ∈ node_bootmem_map demo_node \/ 3 <= p < 5).
Proof.
  destruct (bootmem_ranges demo_node 3 2) as (_ & _ & m' & H & Hp & _).
  - split; vm_compute; (reflexivity || discriminate).
  - vm_compute. reflexivity.
  - lia.
  - lia.
  - vm_compute. discriminate.
  - exists m'. split; [exact H|exact Hp].
Defined.
