(* ===== verification/StringLib.v ===== *)
(** lib/string.c: the portable string and memory routines, on a byte-addressed memory. A loop that runs
    to the end of a string takes fuel; [None] means that the fuel ran out. [char] is
    unsigned on ARM. *)
From S2P Require Import Prelude Ctype.

Definition memory : Type := Z -> Z.
Definition store (m : memory) (a v : Z) : memory := fun x => if x =? a then v else m x.

(** ** Memory areas *)

Fixpoint memset (m : memory) (s c : Z) (count : nat) : memory :=
  match count with
  | O => m
  | S count => memset (store m s (u8 c)) (s + 1) c count
  end.

(** [while (count--) *tmp++ = *s++] *)
Fixpoint copy_up (m : memory) (tmp s : Z) (count : nat) : memory :=
  match count with
  | O => m
  | S count => copy_up (store m tmp (m s)) (tmp + 1) (s + 1) count
  end.

(** [while (count--) *--tmp = *--s] *)
Fixpoint copy_down (m : memory) (tmp s : Z) (count : nat) : memory :=
  match count with
  | O => m
  | S count => copy_down (store m (tmp - 1) (m (s - 1))) (tmp - 1) (s - 1) count
  end.

Definition bcopy (m : memory) (src dest : Z) (count : nat) : memory := copy_up m dest src count.
Definition memcpy (m : memory) (dest src : Z) (count : nat) : memory := copy_up m dest src count.
Definition memmove (m : memory) (dest src : Z) (count : nat) : memory :=
  if dest <=? src then copy_up m dest src count
  else copy_down m (dest + Z.of_nat count) (src + Z.of_nat count) count.

Fixpoint memcmp (m : memory) (cs ct : Z) (count : nat) : Z :=
  match count with
  | O => 0
  | S count =>
      let res := m cs - m ct in
      if truth res then res else memcmp m (cs + 1) (ct + 1) count
  end.

Fixpoint memscan (m : memory) (addr c : Z) (size : nat) : Z :=
  match size with
  | O => addr
  | S size => if m addr =? c then addr else memscan m (addr + 1) c size
  end.

(** [None] is NULL. *)
Fixpoint memchr (m : memory) (s c : Z) (n : nat) : option Z :=
  match n with
  | O => None
  | S n => if u8 c =? m s then Some s else memchr m (s + 1) c n
  end.

(** ** Strings *)

Fixpoint strnicmp_loop (m : memory) (s1 s2 : Z) (len : nat) (c1 c2 : Z) : Z :=
  match len with
  | O => c1 - c2
  | S len =>
      let c1 := m s1 in
      let c2 := m s2 in
      if negb (truth c1) || negb (truth c2) then c1 - c2
      else if c1 =? c2 then strnicmp_loop m (s1 + 1) (s2 + 1) len c1 c2
      else
        let c1 := tolower c1 in
        let c2 := tolower c2 in
        if negb (c1 =? c2) then c1 - c2 else strnicmp_loop m (s1 + 1) (s2 + 1) len c1 c2
  end.
Definition strnicmp (m : memory) (s1 s2 : Z) (len : nat) : Z := strnicmp_loop m s1 s2 len 0 0.

Fixpoint strcpy (fuel : nat) (m : memory) (dest src : Z) : option memory :=
  match fuel with
  | O => None
  | S fuel =>
      let c := m src in
      let m := store m dest c in
      if truth c then strcpy fuel m (dest + 1) (src + 1) else Some m
  end.

Fixpoint strncpy (m : memory) (dest src : Z) (count : nat) : memory :=
  match count with
  | O => m
  | S count =>
      let c := m src in
      let m := store m dest c in
      if truth c then strncpy m (dest + 1) (src + 1) count else m
  end.

(** The address of the terminator. *)
Fixpoint find_end (fuel : nat) (m : memory) (s : Z) : option Z :=
  match fuel with
  | O => None
  | S fuel => if truth (m s) then find_end fuel m (s + 1) else Some s
  end.

Definition strlen (fuel : nat) (m : memory) (s : Z) : option Z :=
  sc ← find_end fuel m s; Some (sc - s).

Fixpoint strnlen_loop (m : memory) (sc : Z) (count : nat) : Z :=
  match count with
  | O => sc
  | S count => if truth (m sc) then strnlen_loop m (sc + 1) count else sc
  end.
Definition strnlen (m : memory) (s : Z) (count : nat) : Z := strnlen_loop m s count - s.

Definition strcat (fuel : nat) (m : memory) (dest src : Z) : option memory :=
  d ← find_end fuel m dest; strcpy fuel m d src.

Fixpoint strncat_loop (m : memory) (dest src : Z) (count : nat) : memory :=
  match count with
  | O => store m dest 0
  | S count =>
      let c := m src in
      let m := store m dest c in
      if truth c then strncat_loop m (dest + 1) (src + 1) count else m
  end.
Definition strncat (fuel : nat) (m : memory) (dest src : Z) (count : nat) : option memory :=
  match count with
  | O => Some m
  | S _ => d ← find_end fuel m dest; Some (strncat_loop m d src count)
  end.

(** The difference is kept in a [signed char]. *)
Fixpoint strcmp (fuel : nat) (m : memory) (cs ct : Z) : option Z :=
  match fuel with
  | O => None
  | S fuel =>
      let res := s8 (m cs - m ct) in
      if truth res || negb (truth (m cs)) then Some res else strcmp fuel m (cs + 1) (ct + 1)
  end.

Fixpoint strncmp_loop (m : memory) (cs ct res : Z) (count : nat) : Z :=
  match count with
  | O => res
  | S count =>
      let res := s8 (m cs - m ct) in
      if truth res || negb (truth (m cs)) then res else strncmp_loop m (cs + 1) (ct + 1) res count
  end.
Definition strncmp (m : memory) (cs ct : Z) (count : nat) : Z := strncmp_loop m cs ct 0 count.

(** [Some None] is NULL. *)
Fixpoint strchr (fuel : nat) (m : memory) (s c : Z) : option (option Z) :=
  match fuel with
  | O => None
  | S fuel =>
      if negb (truth (m s)) then Some None
      else if m s =? u8 c then Some (Some s) else strchr fuel m (s + 1) c
  end.

(** [do if ( *p == (char)c) return p; while (--p >= s)] *)
Fixpoint strrchr_loop (n : nat) (m : memory) (s p c : Z) : option Z :=
  match n with
  | O => None
  | S n => if m p =? u8 c then Some p else if s <=? p - 1 then strrchr_loop n m s (p - 1) c else None
  end.
Definition strrchr (fuel : nat) (m : memory) (s c : Z) : option (option Z) :=
  l ← strlen fuel m s; Some (strrchr_loop (S (Z.to_nat l)) m s (s + l) c).

(** Is [c] one of the characters of the string at [a]? *)
Definition in_set (fuel : nat) (m : memory) (a c : Z) : option bool :=
  (fun r => bool_decide (is_Some r)) <$> strchr fuel m a c.

Fixpoint strspn_loop (fuel : nat) (m : memory) (p accept count : Z) : option Z :=
  match fuel with
  | O => None
  | S fuel' =>
      if negb (truth (m p)) then Some count else
      hit ← in_set fuel m accept (m p);
      if (hit : bool) then strspn_loop fuel' m (p + 1) accept (count + 1) else Some count
  end.
Definition strspn (fuel : nat) (m : memory) (s accept : Z) : option Z := strspn_loop fuel m s accept 0.

Fixpoint strpbrk (fuel : nat) (m : memory) (cs ct : Z) : option (option Z) :=
  match fuel with
  | O => None
  | S fuel' =>
      if negb (truth (m cs)) then Some None else
      hit ← in_set fuel m ct (m cs);
      if (hit : bool) then Some (Some cs) else strpbrk fuel' m (cs + 1) ct
  end.

(** The token, the new [*s] and the memory; [None] stands for the NULL pointer. *)
Definition strsep (fuel : nat) (m : memory) (s : option Z) (ct : Z)
    : option (option Z * option Z * memory) :=
  match s with
  | None => Some (None, None, m)
  | Some sbegin =>
      e ← strpbrk fuel m sbegin ct;
      match e with
      | Some e => Some (Some sbegin, Some (e + 1), store m e 0)
      | None => Some (Some sbegin, None, m)
      end
  end.

(** [saved] is [___strtok]. *)
Definition strtok (fuel : nat) (m : memory) (saved s : option Z) (ct : Z)
    : option (option Z * option Z * memory) :=
  match (match s with Some s => Some s | None => saved end) with
  | None => Some (None, saved, m)
  | Some sbegin =>
      n ← strspn fuel m sbegin ct;
      let sbegin := sbegin + n in
      if negb (truth (m sbegin)) then Some (None, None, m) else
      e ← strpbrk fuel m sbegin ct;
      match e with
      | Some e => if truth (m e) then Some (Some sbegin, Some (e + 1), store m e 0)
                  else Some (Some sbegin, Some e, m)
      | None => Some (Some sbegin, None, m)
      end
  end.

(** [while (l1 >= l2)] with [n] = the number of rounds left *)
Fixpoint strstr_loop (n : nat) (m : memory) (s1 s2 : Z) (l2 : nat) : option Z :=
  match n with
  | O => None
  | S n => if negb (truth (memcmp m s1 s2 l2)) then Some s1 else strstr_loop n m (s1 + 1) s2 l2
  end.
Definition strstr (fuel : nat) (m : memory) (s1 s2 : Z) : option (option Z) :=
  l2 ← strlen fuel m s2;
  if negb (truth l2) then Some (Some s1) else
  l1 ← strlen fuel m s1;
  Some (strstr_loop (Z.to_nat (l1 - l2 + 1)) m s1 s2 (Z.to_nat l2)).

(** ** Copying *)

Lemma copy_up_spec count : forall m dest src a,
  dest <= src \/ src + Z.of_nat count <= dest ->
  copy_up m dest src count a =
  if (dest <=? a) && (a <? dest + Z.of_nat count) then m (a - dest + src) else m a.
Proof.
  induction count as [|n IH]; intros m dest src a H; cbn [copy_up].
  - destruct (Z.leb_spec dest a), (Z.ltb_spec a (dest + Z.of_nat 0)); try lia; done.
  - rewrite IH by lia. unfold store.
    destruct (Z.leb_spec (dest + 1) a), (Z.ltb_spec a (dest + 1 + Z.of_nat n)),
      (Z.leb_spec dest a), (Z.ltb_spec a (dest + Z.of_nat (S n))); cbn [andb]; try lia.
    + destruct (Z.eqb_spec (a - (dest + 1) + (src + 1)) dest); [lia|]. f_equal. lia.
    + by destruct (Z.eqb_spec a dest); [lia|].
    + destruct (Z.eqb_spec a dest); [|lia]. f_equal. lia.
    + by destruct (Z.eqb_spec a dest); [lia|].
Qed.

Lemma copy_down_spec count : forall m dest src a,
  src <= dest ->
  copy_down m (dest + Z.of_nat count) (src + Z.of_nat count) count a =
  if (dest <=? a) && (a <? dest + Z.of_nat count) then m (a - dest + src) else m a.
Proof.
  induction count as [|n IH]; intros m dest src a H; cbn [copy_down].
  - destruct (Z.leb_spec dest a), (Z.ltb_spec a (dest + Z.of_nat 0)); try lia; done.
  - replace (dest + Z.of_nat (S n) - 1) with (dest + Z.of_nat n) by lia.
    replace (src + Z.of_nat (S n) - 1) with (src + Z.of_nat n) by lia. rewrite IH by lia. unfold store.
    destruct (Z.leb_spec dest a), (Z.ltb_spec a (dest + Z.of_nat n)), (Z.ltb_spec a (dest + Z.of_nat (S n)));
      cbn [andb]; try lia.
    + by destruct (Z.eqb_spec (a - dest + src) (dest + Z.of_nat n)); [lia|].
    + destruct (Z.eqb_spec a (dest + Z.of_nat n)); [|lia]. f_equal. lia.
    + by destruct (Z.eqb_spec a (dest + Z.of_nat n)); [lia|].
    + by destruct (Z.eqb_spec a (dest + Z.of_nat n)); [lia|].
Qed.

(** [memmove] copies correctly however the areas overlap: afterwards the destination holds what
    the source held before, and every other byte is unchanged. [memcpy] and [bcopy] do the
    same unless the destination starts inside the source. *)
Theorem memmove_correct m dest src count a :
  let copied := if (dest <=? a) && (a <? dest + Z.of_nat count) then m (a - dest + src) else m a in
  memmove m dest src count a = copied /\
  (dest <= src \/ src + Z.of_nat count <= dest ->
     memcpy m dest src count a = copied /\ bcopy m src dest count a = copied).
Proof.
  intros copied. split.
  - unfold memmove. destruct (Z.leb_spec dest src); [by apply copy_up_spec; left|].
    apply copy_down_spec. lia.
  - intros H. unfold memcpy, bcopy. by rewrite copy_up_spec.
Qed.

Lemma memmove_correct_witness :
  memmove (fun x => x) 2 0 5 6 = 4 /\ memcpy (fun x => x) 0 2 5 4 = 6.
Proof.
  split; [exact (proj1 (memmove_correct (fun x => x) 2 0 5 6))|].
  exact (proj1 (proj2 (memmove_correct (fun x => x) 0 2 5 4) (or_introl (Z.le_0_2)))).
Defined.

(** ** Strings in memory *)

(** The string [l] (non-zero bytes) lies at [a]. *)
Fixpoint is_str (m : memory) (a : Z) (l : list Z) : Prop :=
  match l with
  | [] => m a = 0
  | c :: l => m a = c /\ 0 < c < 256 /\ is_str m (a + 1) l
  end.

Lemma truth_pos c : 0 < c -> truth c = true.
Proof. intros H. unfold truth. by destruct (Z.eqb_spec c 0); [lia|]. Qed.

Lemma find_end_str l : forall fuel m a, is_str m a l -> (length l < fuel)%nat ->
  find_end fuel m a = Some (a + len l).
Proof.
  induction l as [|c l IH]; intros [|fuel] m a H Hf; cbn in Hf; try lia; cbn [find_end is_str] in *.
  - rewrite H. cbn. f_equal. unfold len. cbn. lia.
  - destruct H as (-> & Hc & H). rewrite truth_pos by lia. rewrite (IH fuel) by (done || lia).
    f_equal. unfold len. cbn [length]. lia.
Qed.

Lemma s8_zero d : -256 < d < 256 -> s8 d = 0 <-> d = 0.
Proof. unfold s8. intros. split; [|intros ->; done]. dm. Qed.

(** Comparison of strings as sequences of unsigned bytes. *)
Fixpoint lex (l1 l2 : list Z) : Z :=
  match l1, l2 with
  | [], [] => 0
  | [], _ => -1
  | _, [] => 1
  | c :: l1, d :: l2 => if c =? d then lex l1 l2 else if c <? d then -1 else 1
  end.

Lemma strcmp_spec l1 : forall fuel m cs ct l2,
  is_str m cs l1 -> is_str m ct l2 -> (length l1 < fuel)%nat ->
  exists r, strcmp fuel m cs ct = Some r /\ (r = 0 <-> l1 = l2) /\
    (Forall (fun c => c < 128) l1 -> Forall (fun c => c < 128) l2 -> Z.sgn r = lex l1 l2).
Proof.
  induction l1 as [|c l1 IH]; intros [|fuel] m cs ct l2 H1 H2 Hf; cbn in Hf; try lia;
    cbn [strcmp]; destruct l2 as [|d l2]; cbn [is_str] in H1, H2.
  - rewrite H1, H2. cbn. exists 0. done.
  - destruct H2 as (Hd & Hr & _). rewrite H1, Hd. rewrite orb_true_r.
    exists (s8 (0 - d)). split; [done|]. split; [rewrite s8_zero by lia; split; [lia|done]|].
    intros _ Hb. apply Forall_cons in Hb as [Hb _]. cbn [lex].
    assert (s8 (0 - d) = - d) as -> by (unfold s8; rewrite Z.mod_small; lia). lia.
  - destruct H1 as (Hc & Hr & _). rewrite Hc, H2.
    exists (s8 (c - 0)). unfold truth at 1. destruct (Z.eqb_spec (s8 (c - 0)) 0) as [E|E].
    { rewrite s8_zero in E by lia. lia. }
    split; [done|]. split; [split; [done|discriminate]|]. intros Hb _. apply Forall_cons in Hb as [Hb _]. cbn [lex].
    assert (s8 (c - 0) = c) as -> by (unfold s8; rewrite Z.mod_small; lia). lia.
  - destruct H1 as (Hc & Hcr & H1), H2 as (Hd & Hdr & H2). rewrite Hc, Hd, (truth_pos c) by lia. cbn [negb].
    rewrite orb_false_r. unfold truth. destruct (Z.eqb_spec (s8 (c - d)) 0) as [E|E]; cbn [negb].
    + rewrite s8_zero in E by lia. assert (c = d) as <- by lia.
      destruct (IH fuel m (cs + 1) (ct + 1) l2 H1 H2 ltac:(lia)) as (r & Hr & Hz & Hs).
      exists r. split; [done|]. split; [rewrite Hz; split; [by intros ->|by intros [= ->]]|].
      intros Hb1 Hb2. apply Forall_cons in Hb1 as [_ Hb1]. apply Forall_cons in Hb2 as [_ Hb2].
      cbn. rewrite Z.eqb_refl. by apply Hs.
    + exists (s8 (c - d)). split; [done|]. split; [split; [done|]|].
      { intros H. injection H as Hcd _. destruct E. by rewrite Hcd, Z.sub_diag. }
      intros Hb1 Hb2. apply Forall_cons in Hb1 as [Hb1 _]. apply Forall_cons in Hb2 as [Hb2 _]. cbn [lex].
      assert (s8 (c - d) = c - d) as -> by (unfold s8; rewrite Z.mod_small; lia).
      destruct (Z.eqb_spec c d); [destruct E; apply s8_zero; lia|].
      destruct (Z.ltb_spec c d); lia.
Qed.

(** [strcmp] ends on every pair of strings and returns 0 exactly for equal ones; for 7-bit
    strings the sign of its result is their lexicographic order. *)
Theorem strcmp_correct fuel m cs ct l1 l2 :
  is_str m cs l1 -> is_str m ct l2 -> (length l1 < fuel)%nat ->
  exists r, strcmp fuel m cs ct = Some r /\ (r = 0 <-> l1 = l2) /\
    (Forall (fun c => c < 128) l1 -> Forall (fun c => c < 128) l2 -> Z.sgn r = lex l1 l2).
Proof. apply strcmp_spec. Qed.

(** A memory that holds "abc" at 0 and "abd" at 8. *)
Definition two_strings : memory := fun a => get (bytes "abc" ++ [0; 0; 0; 0; 0] ++ bytes "abd") a.

Lemma strcmp_correct_witness : exists r, strcmp 8 two_strings 0 8 = Some r /\ Z.sgn r = -1.
Proof.
  destruct (strcmp_correct 8 two_strings 0 8 (bytes "abc") (bytes "abd")) as (r & H & _ & Hs).
  - vm_compute. repeat split; reflexivity.
  - vm_compute. repeat split; reflexivity.
  - vm_compute. lia.
  - exists r. split; [exact H|]. apply Hs; repeat constructor.
Defined.

(** Beyond 7 bits the sign of [strcmp] is not the order of the bytes: the difference is
    truncated to a [signed char], so the string of byte 1 compares greater than that of byte 255. *)
Theorem strcmp_8bit_order :
  let m : memory := fun a => get [1; 0; 0; 0; 255; 0] a in
  strcmp 8 m 0 4 = Some 2 /\ lex [1] [255] = -1.
Proof. vm_compute. auto. Qed.

(** *** Searching *)

Lemma memcmp_str l2 : forall l1 m s1 s2,
  is_str m s1 l1 -> is_str m s2 l2 -> (length l2 <= length l1)%nat ->
  memcmp m s1 s2 (length l2) = 0 <-> take (length l2) l1 = l2.
Proof.
  induction l2 as [|d l2 IH]; intros l1 m s1 s2 H1 H2 Hl; [done|].
  destruct l1 as [|c l1]; cbn in Hl; [lia|]. cbn [is_str] in *.
  destruct H1 as (Hc & Hcr & H1), H2 as (Hd & Hdr & H2). cbn [memcmp length take]. rewrite Hc, Hd.
  unfold truth. destruct (Z.eqb_spec (c - d) 0) as [E|E]; cbn [negb].
  - rewrite (IH l1) by (done || lia). assert (c = d) as -> by lia.
    split; [intros Ht; by f_equal|intros Ht; by injection Ht].
  - split; [lia|]. intros Ht. injection Ht as Hcd _. lia.
Qed.

(** [l2] occurs in [l1] at index [j]. *)
Definition occurs (l1 l2 : list Z) (j : nat) : Prop := take (length l2) (drop j l1) = l2.

Lemma occurs_short l1 l2 j : occurs l1 l2 j -> (length l2 <= length l1 - j)%nat.
Proof.
  intros H. apply (f_equal (@length Z)) in H. rewrite length_take, length_drop in H. lia.
Qed.

Lemma strstr_loop_spec l2 m s2 : is_str m s2 l2 -> forall n l1 s1,
  is_str m s1 l1 -> (0 < length l2)%nat ->
  Z.of_nat n = Z.max 0 (Z.of_nat (length l1) - Z.of_nat (length l2) + 1) ->
  match strstr_loop n m s1 s2 (length l2) with
  | Some p => exists i : nat, p = s1 + Z.of_nat i /\ occurs l1 l2 i /\ forall j, (j < i)%nat -> ~ occurs l1 l2 j
  | None => forall j, ~ occurs l1 l2 j
  end.
Proof.
  intros H2. induction n as [|n IH]; intros l1 s1 H1 Hpos Hn; cbn [strstr_loop].
  { intros j Hj. apply occurs_short in Hj. lia. }
  assert (length l2 <= length l1)%nat as Hle by lia.
  pose proof (memcmp_str l2 l1 m s1 s2 H1 H2 Hle) as Hcmp. unfold truth.
  destruct (Z.eqb_spec (memcmp m s1 s2 (length l2)) 0) as [E|E]; cbn [negb].
  - exists 0%nat. split; [lia|]. split; [by apply Hcmp|]. intros j Hj. lia.
  - destruct l1 as [|c l1]; [cbn in Hle; lia|]. cbn [is_str] in H1. destruct H1 as (_ & _ & H1).
    specialize (IH l1 (s1 + 1) H1 Hpos ltac:(cbn [length] in *; lia)).
    assert (~ occurs (c :: l1) l2 0) as H0 by (intros H; apply E, Hcmp; exact H).
    destruct (strstr_loop n m (s1 + 1) s2 (length l2)) as [p|].
    + destruct IH as (i & -> & Hi & Hmin). exists (S i). split; [lia|]. split; [done|].
      intros [|j] Hj; [done|]. apply (Hmin j). lia.
    + intros [|j]; [done|]. apply (IH j).
Qed.

(** [strstr] ends on every pair of strings and returns the address of the first occurrence
    of the second in the first, or NULL when there is none. *)
Theorem strstr_correct fuel m s1 s2 l1 l2 :
  is_str m s1 l1 -> is_str m s2 l2 -> (length l1 < fuel)%nat -> (length l2 < fuel)%nat ->
  exists r, strstr fuel m s1 s2 = Some r /\
  match r with
  | Some p => exists i : nat, p = s1 + Z.of_nat i /\ occurs l1 l2 i /\ forall j, (j < i)%nat -> ~ occurs l1 l2 j
  | None => forall j, ~ occurs l1 l2 j
  end.
Proof.
  intros H1 H2 Hf1 Hf2. unfold strstr, strlen.
  rewrite (find_end_str l2 fuel m s2 H2 Hf2), (find_end_str l1 fuel m s1 H1 Hf1). cbn [mbind option_bind].
  replace (s2 + len l2 - s2) with (len l2) by lia. replace (s1 + len l1 - s1) with (len l1) by lia.
  destruct l2 as [|d l2].
  { exists (Some s1). split; [done|]. exists 0%nat. split; [lia|]. split; [done|]. intros j Hj. lia. }
  rewrite truth_pos by (unfold len; cbn [length]; lia). cbn [negb].
  eexists. split; [reflexivity|]. unfold len. rewrite Nat2Z.id.
  apply (strstr_loop_spec (d :: l2) m s2 H2); [done|cbn; lia|]. lia.
Qed.

Lemma strstr_correct_witness :
  exists p, strstr 20 (fun a => get (bytes "console=ttySA0" ++ [0; 0] ++ bytes "tty") a) 0 16 = Some (Some p) /\ p = 8.
Proof.
  destruct (strstr_correct 20 (fun a => get (bytes "console=ttySA0" ++ [0; 0] ++ bytes "tty") a) 0 16
    (bytes "console=ttySA0") (bytes "tty")) as (r & H & _).
  - vm_compute. repeat split; reflexivity.
  - vm_compute. repeat split; reflexivity.
  - vm_compute. lia.
  - vm_compute. lia.
  - assert (r = Some 8) as -> by (vm_compute in H; by injection H). exists 8. split; [exact H|reflexivity].
Defined.
