(* ===== verification/Pipe.v ===== *)
(** Pipes (fs/pipe.c, include/linux/pipe_fs_i.h): a page of memory used as a circular buffer, the
    readers and writers that sleep on it, and the wake-ups between them.

    All the code that touches a pipe runs with the semaphore PIPE_SEM held, and gives it up only in
    [pipe_wait] and on return. A call is therefore a sequence of critical sections: the one that
    starts it ([pipe_read], [pipe_write]) and one for each time it is woken up ([read_resume],
    [write_resume]). Each is a function; it ends with [Returned] or [Blocked]. The interleaving of
    the sections of several processes is the relation [step] at the end of the file. *)
From S2P Require Import Prelude Task.

Definition EBADF : Z := 9.
Definition ENOTTY : Z := 25.
Definition ESPIPE : Z := 29.
Definition EPIPE : Z := 32.
Definition ERESTARTSYS : Z := 512.

(** ** Data *)
Definition PIPE_SIZE : Z := 4096.
Definition PIPE_BUF : Z := 4096.

Record pipe_inode_info := Pipe {
  base : list Z; plen : Z; start : Z;
  readers : Z; writers : Z;
  waiting_readers : Z; waiting_writers : Z;
  r_counter : Z; w_counter : Z }.
#[global] Instance pipe_fields : Fields pipe_inode_info := fun p =>
  Pipe (base p) (plen p) (start p) (readers p) (writers p) (waiting_readers p) (waiting_writers p)
    (r_counter p) (w_counter p).

Definition PIPE_EMPTY (p : pipe_inode_info) : bool := plen p =? 0.
Definition PIPE_FREE (p : pipe_inode_info) : Z := u32 (PIPE_SIZE - plen p).
Definition PIPE_END (p : pipe_inode_info) : Z := u32 (start p + plen p) .& (PIPE_SIZE - 1).
Definition PIPE_MAX_RCHUNK (p : pipe_inode_info) : Z := u32 (PIPE_SIZE - start p).
Definition PIPE_MAX_WCHUNK (p : pipe_inode_info) : Z := u32 (PIPE_SIZE - PIPE_END p).

(** [n] bytes of the page from [pos], and the page with [data] stored at [pos]. *)
Definition segment (b : list Z) (pos n : Z) : list Z := take (Z.to_nat n) (drop (Z.to_nat pos) b).
Definition store (b : list Z) (pos : Z) (data : list Z) : list Z :=
  take (Z.to_nat pos) b ++ data ++ drop (Z.to_nat (pos + len data)) b.

(** The two places where a writer sleeps: for the room of an atomic write, and for any room. *)
Inductive wphase := WaitSpace | WaitRoom.

(** A call in progress. The user's buffer of a read has [r_room] writable bytes, and [r_out] is
    what the first [r_read] of them hold; the user's buffer of a write has the readable bytes
    [w_buf], and [w_phase] is where it sleeps, if it does. *)
Record rcall := RCall { r_nonblock : bool; r_room : Z; r_count : Z; r_read : Z; r_out : list Z }.
#[global] Instance rcall_fields : Fields rcall := fun c =>
  RCall (r_nonblock c) (r_room c) (r_count c) (r_read c) (r_out c).
Record wcall := WCall {
  w_nonblock : bool; w_buf : list Z; w_count : Z; w_written : Z; w_phase : wphase }.
#[global] Instance wcall_fields : Fields wcall := fun c =>
  WCall (w_nonblock c) (w_buf c) (w_count c) (w_written c) (w_phase c).

(** How a critical section ends: the call returns, or the process sleeps in [pipe_wait].
    [Bugged] is BUG(), and [Spinning] that a loop did not end within its bound. *)
Inductive verdict := Returned (ret : Z) | Blocked | Bugged | Spinning.

(** The pipe and the call after a critical section; whether it woke up the sleepers and whether it
    sent SIGPIPE. *)
Record result (C : Type) := Result {
  res_pipe : pipe_inode_info; res_call : C; res_verdict : verdict;
  res_wake : bool; res_sigpipe : bool }.
Arguments Result {C}. Arguments res_pipe {C}. Arguments res_call {C}. Arguments res_verdict {C}.
Arguments res_wake {C}. Arguments res_sigpipe {C}.

(** ** Reading *)

(** [out: up(PIPE_SEM); if (read) ret = read; return ret;] *)
Definition read_out (p : pipe_inode_info) (c : rcall) (ret : Z) (wake : bool) : result rcall :=
  Result p c (Returned (if truth (r_read c) then r_read c else ret)) wake false.

(** The loop that copies what is available; [false] is a fault of [copy_to_user]. *)
Fixpoint read_loop (fuel : nat) (p : pipe_inode_info) (c : rcall)
    : option (bool * pipe_inode_info * rcall) :=
  match fuel with
  | O => None
  | S fuel =>
      if (0 <? r_count c) && truth (plen p) then
        let size := plen p in
        let chars := PIPE_MAX_RCHUNK p in
        let chars := if r_count c <? chars then r_count c else chars in
        let chars := if size <? chars then size else chars in
        if r_room c <? r_read c + chars then Some (false, p, c)
        else
          let data := segment (base p) (start p) chars in
          let c := c <| r_read := s32 (r_read c + chars) |> <| r_out := r_out c ++ data |> in
          let p := p <| start := u32 (start p + chars) |> in
          let p := p <| start := start p .& (PIPE_SIZE - 1) |> in
          let p := p <| plen := u32 (plen p - chars) |> in
          let c := c <| r_count := u32 (r_count c - chars) |> in
          read_loop fuel p c
      else Some (true, p, c)
  end.

(** [PIPE_WAITING_READERS++; pipe_wait(inode);] *)
Definition read_sleep (p : pipe_inode_info) (c : rcall) (wake : bool) : result rcall :=
  Result (p <| waiting_readers := u32 (waiting_readers p + 1) |>) c Blocked wake false.

Definition do_more_read (p : pipe_inode_info) (c : rcall) (wake : bool) : result rcall :=
  if negb (truth (writers p)) then read_out p c 0 wake
  else if r_nonblock c then read_out p c (- EAGAIN) wake
  else read_sleep p c wake.

(** From "Read what data is available" on. A chunk ends at the end of the page, so that the loop
    runs its body at most twice. *)
Definition read_available (p : pipe_inode_info) (c : rcall) : result rcall :=
  match read_loop 3 p c with
  | None => Result p c Spinning false false
  | Some (false, p, c) => read_out p c (- EFAULT) false
  | Some (true, p, c) =>
      let p := if negb (truth (plen p)) then p <| start := 0 |> else p in
      if truth (r_count c) && truth (waiting_writers p) && negb (r_nonblock c) then
        if negb (PIPE_EMPTY p) then Result p c Bugged true false
        else do_more_read p c true
      else read_out p c (r_read c) true
  end.

(** [seek]: [ppos != &filp->f_pos]; [intr]: [down_interruptible] was interrupted. *)
Definition pipe_read (seek intr nonblock : bool) (room count : Z) (p : pipe_inode_info)
    : result rcall :=
  let c := RCall nonblock room count 0 [] in
  if seek then read_out p c (- ESPIPE) false
  else if count =? 0 then read_out p c 0 false
  else if intr then read_out p c (- ERESTARTSYS) false
  else if PIPE_EMPTY p then do_more_read p c false
  else read_available p c.

(** What a reader does when [pipe_wait] returns. *)
Definition read_resume (signal_pending : bool) (p : pipe_inode_info) (c : rcall) : result rcall :=
  let p := p <| waiting_readers := u32 (waiting_readers p - 1) |> in
  if signal_pending then read_out p c (- ERESTARTSYS) false
  else if negb (PIPE_EMPTY p) then read_available p c
  else if negb (truth (writers p)) then read_out p c 0 false
  else read_sleep p c false.

(** ** Writing *)

Definition write_out (p : pipe_inode_info) (c : wcall) (ret : Z) (wake : bool) : result wcall :=
  Result p c (Returned (if truth (w_written c) then w_written c else ret)) wake false.

Definition sigpipe (p : pipe_inode_info) (c : wcall) (ret : Z) : result wcall :=
  if truth (w_written c) then write_out p c ret false
  else Result p c (Returned (- EPIPE)) false true.

(** [PIPE_WAITING_WRITERS++; pipe_wait(inode);] *)
Definition write_sleep (ph : wphase) (p : pipe_inode_info) (c : wcall) (wake : bool)
    : result wcall :=
  Result (p <| waiting_writers := u32 (waiting_writers p + 1) |>) (c <| w_phase := ph |>)
    Blocked wake false.

(** Where the copying loop stops: everything is written, [copy_from_user] faulted, or the pipe is
    full. *)
Inductive wstop := AllWritten | Faulted | Full.

Fixpoint write_loop (fuel : nat) (p : pipe_inode_info) (c : wcall)
    : option (wstop * pipe_inode_info * wcall) :=
  match fuel with
  | O => None
  | S fuel =>
      if 0 <? w_count c then
        let chars := PIPE_MAX_WCHUNK p in
        let space := PIPE_FREE p in
        if negb (space =? 0) then
          let chars := if w_count c <? chars then w_count c else chars in
          let chars := if space <? chars then space else chars in
          let '(rest, data) := copy_from_user (segment (base p) (PIPE_END p) chars)
                                 (drop (Z.to_nat (w_written c)) (w_buf c)) chars in
          let p := p <| base := store (base p) (PIPE_END p) data |> in
          if truth rest then Some (Faulted, p, c)
          else
            let c := c <| w_written := s32 (w_written c + chars) |> in
            let p := p <| plen := u32 (plen p + chars) |> in
            let c := c <| w_count := u32 (w_count c - chars) |> in
            write_loop fuel p c
        else Some (Full, p, c)
      else Some (AllWritten, p, c)
  end.

(** From "Copy into available space" on. A chunk ends at the end of the page, so that the loop
    copies at most twice before it stops. *)
Definition write_available (p : pipe_inode_info) (c : wcall) : result wcall :=
  match write_loop 3 p c with
  | None => Result p c Spinning false false
  | Some (Faulted, p, c) => write_out p c (- EFAULT) false
  | Some (AllWritten, p, c) => write_out p c (- EFAULT) true
  | Some (Full, p, c) =>
      if w_nonblock c then write_out p c (w_written c) true
      else write_sleep WaitRoom p c true
  end.

(** [free = (count <= PIPE_BUF ? count : 1)]; the loop [while (PIPE_FREE < free)]. *)
Definition needed (count : Z) : Z := if count <=? PIPE_BUF then count else 1.

Definition wait_space (p : pipe_inode_info) (c : wcall) : result wcall :=
  if PIPE_FREE p <? needed (w_count c) then write_sleep WaitSpace p c false else write_available p c.

Definition pipe_write (seek intr nonblock : bool) (buf : list Z) (count : Z)
    (p : pipe_inode_info) : result wcall :=
  let c := WCall nonblock buf count 0 WaitSpace in
  if seek then write_out p c (- ESPIPE) false
  else if count =? 0 then write_out p c 0 false
  else if intr then write_out p c (- ERESTARTSYS) false
  else if negb (truth (readers p)) then sigpipe p c (- ERESTARTSYS)
  else if nonblock then
    if PIPE_FREE p <? needed count then write_out p c (- EAGAIN) false
    else write_available p c
  else wait_space p c.

(** What a writer does when [pipe_wait] returns. *)
Definition write_resume (signal_pending : bool) (p : pipe_inode_info) (c : wcall) : result wcall :=
  let p := p <| waiting_writers := u32 (waiting_writers p - 1) |> in
  match w_phase c with
  | WaitSpace =>
      if signal_pending then write_out p c (- ERESTARTSYS) false
      else if negb (truth (readers p)) then sigpipe p c (- ERESTARTSYS)
      else wait_space p c
  | WaitRoom =>
      if signal_pending then write_out p c (w_written c) false
      else if negb (truth (readers p)) then sigpipe p c (w_written c)
      else if negb (truth (PIPE_FREE p)) then write_sleep WaitRoom p c true
      else write_available p c
  end.

(** ** The other file operations *)
Definition bad_pipe_r : Z := - EBADF.
Definition bad_pipe_w : Z := - EBADF.

Definition FIONREAD : Z := 0x541B.
Definition pipe_ioctl (cmd : Z) (arg_ok : bool) (p : pipe_inode_info) : Z * option Z :=
  if cmd =? FIONREAD then put_user arg_ok (s32 (plen p)) else (- EINVAL, None).

Definition POLLIN : Z := 1.
Definition POLLOUT : Z := 4.
Definition POLLERR : Z := 8.
Definition POLLHUP : Z := 16.
Definition POLLRDNORM : Z := 64.
Definition POLLWRNORM : Z := 256.

Definition pipe_poll (f_version : Z) (p : pipe_inode_info) : Z :=
  let mask := POLLIN .| POLLRDNORM in
  let mask := if PIPE_EMPTY p then POLLOUT .| POLLWRNORM else mask in
  let mask := or_if (negb (truth (writers p)) && negb (f_version =? w_counter p)) mask POLLHUP in
  or_if (negb (truth (readers p))) mask POLLERR.

(** The pipe afterwards, [None] when it is freed, and whether the sleepers are woken up. *)
Definition pipe_release (decr decw : Z) (p : pipe_inode_info) : option pipe_inode_info * bool :=
  let p := p <| readers := u32 (readers p - decr) |> in
  let p := p <| writers := u32 (writers p - decw) |> in
  if negb (truth (readers p)) && negb (truth (writers p)) then (None, false)
  else (Some p, true).

Definition FMODE_READ : Z := 1.
Definition FMODE_WRITE : Z := 2.
Definition pipe_read_release : pipe_inode_info -> option pipe_inode_info * bool :=
  pipe_release 1 0.
Definition pipe_write_release : pipe_inode_info -> option pipe_inode_info * bool :=
  pipe_release 0 1.
Definition pipe_rdwr_release (f_mode : Z) : pipe_inode_info -> option pipe_inode_info * bool :=
  pipe_release (Z.b2z (truth (f_mode .& FMODE_READ))) (Z.b2z (truth (f_mode .& FMODE_WRITE))).

Definition pipe_read_open (p : pipe_inode_info) : pipe_inode_info :=
  p <| readers := u32 (readers p + 1) |>.
Definition pipe_write_open (p : pipe_inode_info) : pipe_inode_info :=
  p <| writers := u32 (writers p + 1) |>.
Definition pipe_rdwr_open (f_mode : Z) (p : pipe_inode_info) : pipe_inode_info :=
  let p := if truth (f_mode .& FMODE_READ) then pipe_read_open p else p in
  if truth (f_mode .& FMODE_WRITE) then pipe_write_open p else p.

(** [page]: what [__get_free_page] returned, with the bytes it holds; [info]: [kmalloc] succeeded. *)
Definition pipe_new (page : option (list Z)) (info : bool) : option pipe_inode_info :=
  match page with
  | None => None
  | Some page => if info then Some (Pipe page 0 0 0 0 0 0 1 1) else None
  end.

(** The pipe of [do_pipe]: one file to read, one to write. *)
Definition get_pipe_inode (inode : bool) (page : option (list Z)) (info : bool)
    : option pipe_inode_info :=
  if inode then
    p ← pipe_new page info;
    Some ((p <| readers := 1 |>) <| writers := 1 |>)
  else None.

(** ** The pipe system call *)

(** What [do_pipe] holds: the files, the inode, its pipe, and the descriptors. *)
Inductive holding := Filp (n : Z) | Inode | PipeMem | Fd (fd : Z) | Dentry.
#[global] Instance holding_eq_dec : EqDecision holding.
Proof. solve_decision. Defined.

Definition ENFILE : Z := 23.
Definition ENOMEM : Z := 12.

(** Give one thing back. *)
Definition put (x : holding) (h : list holding) : list holding := filter (fun y => y <> x) h.

Definition no_files (error : Z) (h : list holding) : Z * list holding := (error, h).
Definition close_f1 (error : Z) (h : list holding) := no_files error (put (Filp 1) h).
Definition close_f12 (error : Z) (h : list holding) := close_f1 error (put (Filp 2) h).
Definition close_f12_inode (error : Z) (h : list holding) :=
  close_f12 error (put Inode (put PipeMem h)).
Definition close_f12_inode_i (i error : Z) (h : list holding) :=
  close_f12_inode error (put (Fd i) h).
Definition close_f12_inode_i_j (i j error : Z) (h : list holding) :=
  close_f12_inode_i i error (put (Fd j) h).

(** The result with what is held on return, the two descriptors, and the pipe. [f1], [f2] and
    [dentry] tell whether [get_empty_filp] and [d_alloc] succeed; [pipe] is the result of
    [get_pipe_inode], and [fd1], [fd2] those of [get_unused_fd]. *)
Definition do_pipe (f1 f2 : bool) (pipe : option pipe_inode_info) (fd1 fd2 : Z) (dentry : bool)
    : Z * list holding * option (Z * Z * pipe_inode_info) :=
  let error := - ENFILE in
  if negb f1 then (no_files error [], None) else
  let h := [Filp 1] in
  if negb f2 then (close_f1 error h, None) else
  let h := Filp 2 :: h in
  match pipe with
  | None => (close_f12 error h, None)
  | Some p =>
      let h := PipeMem :: Inode :: h in
      let error := fd1 in
      if error <? 0 then (close_f12_inode error h, None) else
      let i := error in
      let h := Fd i :: h in
      let error := fd2 in
      if error <? 0 then (close_f12_inode_i i error h, None) else
      let j := error in
      let h := Fd j :: h in
      let error := - ENOMEM in
      if negb dentry then (close_f12_inode_i_j i j error h, None) else
      (0, Dentry :: h, Some (i, j, p))
  end.

(** ** The contents of a pipe *)
Definition contents (p : pipe_inode_info) : list Z :=
  (fun i => get (base p) ((start p + i) mod PIPE_SIZE)) <$> seqZ 0 (plen p).

Record pipe_ok (p : pipe_inode_info) : Prop := {
  ok_base : len (base p) = PIPE_SIZE;
  ok_len : 0 <= plen p <= PIPE_SIZE;
  ok_start : 0 <= start p < PIPE_SIZE;
  ok_readers : 0 <= readers p < 2 ^ 32;
  ok_writers : 0 <= writers p < 2 ^ 32 }.

Definition rcall_ok (c : rcall) : Prop :=
  0 <= r_read c /\ 0 <= r_count c /\ r_read c + r_count c < 2 ^ 31 /\ r_read c = len (r_out c).
Definition wcall_ok (c : wcall) : Prop :=
  0 <= w_written c /\ 0 <= w_count c /\ w_written c + w_count c < 2 ^ 31.

(** The fields that the copying loops leave alone. *)
Definition same_ends (p p' : pipe_inode_info) : Prop :=
  readers p' = readers p /\ writers p' = writers p /\
  waiting_readers p' = waiting_readers p /\ waiting_writers p' = waiting_writers p /\
  r_counter p' = r_counter p /\ w_counter p' = w_counter p.

Lemma mask_mod x : x .& (PIPE_SIZE - 1) = x mod PIPE_SIZE.
Proof. change (PIPE_SIZE - 1) with (Z.ones 12). by rewrite Z.land_ones. Qed.

Lemma segment_seqZ b pos n : 0 <= pos -> 0 <= n -> pos + n <= len b ->
  segment b pos n = (fun i => get b (pos + i)) <$> seqZ 0 n.
Proof.
  intros Hp Hn Hl. unfold segment, len in *. apply list_eq_same_length with (n := Z.to_nat n).
  - rewrite length_fmap, length_seqZ. lia.
  - rewrite length_take, length_drop. lia.
  - intros i x y Hi Hx Hy.
    rewrite lookup_take_lt, lookup_drop in Hx by done.
    rewrite list_lookup_fmap, lookup_seqZ_lt in Hy by lia. cbn in Hy. injection Hy as <-.
    symmetry. apply get_lookup; [lia|]. rewrite <- Hx. f_equal. lia.
Qed.

Lemma len_segment b pos n : 0 <= pos -> 0 <= n -> pos + n <= len b -> len (segment b pos n) = n.
Proof. intros. unfold segment, len in *. rewrite length_take, length_drop. lia. Qed.

Lemma len_store b pos data : 0 <= pos -> pos + len data <= len b -> len (store b pos data) = len b.
Proof. intros. unfold store, len in *. rewrite !length_app, length_take, length_drop. lia. Qed.

Lemma get_store_out b pos data i : 0 <= pos -> pos + len data <= len b -> 0 <= i ->
  (i < pos \/ pos + len data <= i) -> get (store b pos data) i = get b i.
Proof.
  intros Hp Hl Hi Ho. unfold store, len, get in *. rewrite !nth_lookup. f_equal.
  destruct Ho.
  - rewrite lookup_app_l by (rewrite length_take; lia). by rewrite lookup_take_lt by lia.
  - rewrite !lookup_app_r by (rewrite ?length_take; lia).
    rewrite lookup_drop, length_take. f_equal. lia.
Qed.

Lemma get_store_in b pos data i : 0 <= pos -> pos + len data <= len b -> 0 <= i < len data ->
  get (store b pos data) (pos + i) = get data i.
Proof.
  intros Hp Hl Hi. unfold store, len, get in *. rewrite !nth_lookup. f_equal.
  rewrite lookup_app_r by (rewrite length_take; lia). rewrite length_take, lookup_app_l by lia.
  f_equal. lia.
Qed.

Lemma list_seqZ (l : list Z) : l = get l <$> seqZ 0 (len l).
Proof.
  transitivity (segment l 0 (len l)).
  - unfold segment, len. rewrite drop_0, take_ge; [done|lia].
  - apply segment_seqZ; unfold len; lia.
Qed.

Lemma len_contents p : pipe_ok p -> len (contents p) = plen p.
Proof. intros [_ ? _ _ _]. unfold len, contents. rewrite length_fmap, length_seqZ. lia. Qed.

(** Taking a chunk out of the page takes it off the front of the contents. *)
Lemma read_chunk p chars : pipe_ok p -> 0 <= chars <= plen p -> chars <= PIPE_SIZE - start p ->
  contents p = segment (base p) (start p) chars ++
    contents ((p <| start := (start p + chars) mod PIPE_SIZE |>) <| plen := plen p - chars |>).
Proof.
  intros [Hb Hl Hs _ _] Hc Hm. unfold contents. cbn [base start plen update].
  replace (plen p) with (chars + (plen p - chars)) at 1 by lia.
  rewrite seqZ_app, fmap_app by lia. f_equal.
  - rewrite segment_seqZ by lia. apply list_fmap_ext. intros k i Hi.
    apply lookup_seqZ in Hi as [-> Hi]. f_equal. apply Z.mod_small. unfold PIPE_SIZE in *. lia.
  - rewrite Z.add_0_l. rewrite <- (Z.add_0_r chars) at 1. rewrite <- fmap_add_seqZ, <- list_fmap_compose.
    apply list_fmap_ext. intros k i Hi. cbn. f_equal.
    rewrite Zplus_mod_idemp_l. f_equal. lia.
Qed.

(** Storing a chunk behind the contents adds it to them. *)
Lemma write_chunk p data : pipe_ok p ->
  len data <= PIPE_SIZE - plen p -> len data <= PIPE_SIZE - PIPE_END p ->
  contents ((p <| base := store (base p) (PIPE_END p) data |>) <| plen := plen p + len data |>) =
  contents p ++ data.
Proof.
  intros [Hb Hl Hs _ _] Hc Hm. unfold contents. cbn [base start plen update].
  assert (0 <= len data) as Hd by (unfold len; lia).
  assert (PIPE_END p = (start p + plen p) mod PIPE_SIZE) as He.
  { unfold PIPE_END. rewrite mask_mod, u32_id; [done|]. unfold PIPE_SIZE in *. lia. }
  assert (0 <= PIPE_END p < PIPE_SIZE) as He'.
  { rewrite He. apply Z.mod_pos_bound. done. }
  rewrite seqZ_app, fmap_app by lia. f_equal.
  - apply list_fmap_ext. intros k i Hi. apply lookup_seqZ in Hi as [-> Hi].
    apply get_store_out; [lia|lia|apply Z.mod_pos_bound; done|].
    rewrite He in *. unfold PIPE_SIZE in *. dm.
  - rewrite (list_seqZ data) at 2. rewrite Z.add_0_l. rewrite <- (Z.add_0_r (plen p)) at 1.
    rewrite <- fmap_add_seqZ, <- list_fmap_compose.
    apply list_fmap_ext. intros k i Hi. apply lookup_seqZ in Hi as [-> Hi]. cbn.
    rewrite <- (get_store_in (base p) (PIPE_END p) data) by lia. f_equal.
    rewrite He in *. unfold PIPE_SIZE in *. dm.
Qed.

(** A fault in the middle of a chunk only touches free memory. *)
Lemma write_scratch p data : pipe_ok p ->
  len data <= PIPE_SIZE - plen p -> len data <= PIPE_SIZE - PIPE_END p ->
  contents (p <| base := store (base p) (PIPE_END p) data |>) = contents p.
Proof.
  intros Hp Hc Hm. pose proof (write_chunk p data Hp Hc Hm) as H.
  apply (f_equal (take (length (contents p)))) in H. rewrite take_app_length in H.
  rewrite <- H. unfold contents. cbn [base start plen update].
  destruct Hp as [Hb Hl Hs _ _]. unfold len in *.
  rewrite length_fmap, length_seqZ, <- fmap_take. f_equal.
  rewrite seqZ_app by lia. rewrite take_app_le by (rewrite length_seqZ; lia).
  rewrite take_ge; [done|]. rewrite length_seqZ. lia.
Qed.

(** ** The copying loops *)

(** [took p c p' c']: the call [c] took bytes off the front of the pipe and appended them to the
    user's buffer. *)
Record took (p : pipe_inode_info) (c : rcall) (p' : pipe_inode_info) (c' : rcall) : Prop := {
  took_pipe : pipe_ok p';
  took_call : rcall_ok c';
  took_ends : same_ends p p';
  took_nonblock : r_nonblock c' = r_nonblock c;
  took_room : r_room c' = r_room c;
  took_count : r_read c' + r_count c' = r_read c + r_count c;
  took_data : exists data, contents p = data ++ contents p' /\ r_out c' = r_out c ++ data }.

(** [gave p c p' c']: the call [c] appended the next bytes of the user's buffer to the pipe. *)
Record gave (p : pipe_inode_info) (c : wcall) (p' : pipe_inode_info) (c' : wcall) : Prop := {
  gave_pipe : pipe_ok p';
  gave_call : wcall_ok c';
  gave_ends : same_ends p p';
  gave_nonblock : w_nonblock c' = w_nonblock c;
  gave_buf : w_buf c' = w_buf c;
  gave_count : w_written c' + w_count c' = w_written c + w_count c;
  gave_le : w_written c <= w_written c';
  gave_data : contents p' = contents p ++ segment (w_buf c) (w_written c) (w_written c' - w_written c);
  gave_readable : w_written c = w_written c' \/ w_written c' <= len (w_buf c) }.

Lemma same_ends_refl p : same_ends p p.
Proof. done. Qed.
Lemma same_ends_trans p1 p2 p3 : same_ends p1 p2 -> same_ends p2 p3 -> same_ends p1 p3.
Proof. unfold same_ends. intuition congruence. Qed.

Lemma took_refl p c : pipe_ok p -> rcall_ok c -> took p c p c.
Proof. intros. split; try done. exists []. by rewrite app_nil_r. Qed.

Lemma took_trans p1 c1 p2 c2 p3 c3 : took p1 c1 p2 c2 -> took p2 c2 p3 c3 -> took p1 c1 p3 c3.
Proof.
  intros [H1 H2 H3 H4 H5 H6 (d & H7 & H8)] [K1 K2 K3 K4 K5 K6 (e & K7 & K8)].
  split; try congruence; [by eapply same_ends_trans|].
  exists (d ++ e). by rewrite H7, K7, K8, H8, !app_assoc.
Qed.

Lemma segment_0 b pos : segment b pos 0 = [].
Proof. done. Qed.

Lemma segment_app b pos n m : 0 <= pos -> 0 <= n -> 0 <= m ->
  segment b pos n ++ segment b (pos + n) m = segment b pos (n + m).
Proof.
  intros. unfold segment. rewrite !Z2Nat.inj_add by lia.
  rewrite <- drop_drop. by rewrite take_take_drop.
Qed.

Lemma gave_refl p c : pipe_ok p -> wcall_ok c -> gave p c p c.
Proof. intros. split; try done; [by rewrite Z.sub_diag, segment_0, app_nil_r|by left]. Qed.

Lemma gave_trans p1 c1 p2 c2 p3 c3 : 0 <= w_written c1 ->
  gave p1 c1 p2 c2 -> gave p2 c2 p3 c3 -> gave p1 c1 p3 c3.
Proof.
  intros H0 [H1 H2 H3 H4 H5 H6 H7 H8 H9] [K1 K2 K3 K4 K5 K6 K7 K8 K9].
  split; try congruence; try lia; [by eapply same_ends_trans| |].
  - rewrite K8, H8, H5, <- app_assoc. f_equal.
    replace (w_written c2) with (w_written c1 + (w_written c2 - w_written c1)) at 2 by lia.
    rewrite segment_app by lia. f_equal. lia.
  - rewrite H5 in K9. lia.
Qed.

(** One turn of the reading loop. *)
Lemma read_turn p c chars : pipe_ok p -> rcall_ok c ->
  0 <= chars <= r_count c -> chars <= plen p -> chars <= PIPE_SIZE - start p ->
  took p c
    ((p <| start := (start p + chars) mod PIPE_SIZE |>) <| plen := plen p - chars |>)
    (((c <| r_read := r_read c + chars |>)
         <| r_out := r_out c ++ segment (base p) (start p) chars |>)
         <| r_count := r_count c - chars |>).
Proof.
  intros Hp (Hc1 & Hc2 & Hc3 & Hc4) H1 H2 H3. pose proof Hp as [Hb Hl Hs Hr Hw].
  split; try done; cbn.
  - split; cbn; try done; [lia|apply Z.mod_pos_bound; done].
  - unfold rcall_ok. cbn. rewrite len_app, len_segment by lia. lia.
  - lia.
  - eexists. split; [apply (read_chunk p chars); (done || lia)|done].
Qed.

Definition read_turns (p : pipe_inode_info) (c : rcall) (fuel : nat) : Prop :=
  (3 <= fuel)%nat \/
  (2 <= fuel)%nat /\ Z.min (r_count c) (plen p) <= PIPE_SIZE - start p \/
  (1 <= fuel)%nat /\ Z.min (r_count c) (plen p) = 0.

Lemma truth_spec z : truth z = true <-> z <> 0.
Proof. unfold truth. rewrite negb_true_iff, Z.eqb_neq. done. Qed.

(** The loop ends with nothing left to read or nothing left to give, or at a fault. *)
Lemma read_loop_spec fuel : forall p c, pipe_ok p -> rcall_ok c -> read_turns p c fuel ->
  exists ok p' c', read_loop fuel p c = Some (ok, p', c') /\ took p c p' c' /\
    if (ok : bool) then r_count c' = 0 \/ plen p' = 0 else r_room c < r_read c + r_count c.
Proof.
  induction fuel as [|fuel IH]; intros p c Hp Hc Hf; [unfold read_turns in Hf; lia|].
  cbn [read_loop]. pose proof Hp as [Hb Hl Hs Hr Hw]. pose proof Hc as (Hc1 & Hc2 & Hc3 & Hc4).
  destruct ((0 <? r_count c) && truth (plen p)) eqn:E; cycle 1.
  { exists true, p, c. split; [done|]. split; [by apply took_refl|].
    apply andb_false_iff in E as [E|E]; [bool_hyps; lia|].
    right. unfold truth in E. by bool_hyps. }
  apply andb_true_iff in E as [E1 E2]. bool_hyps. apply truth_spec in E2.
  assert (PIPE_MAX_RCHUNK p = PIPE_SIZE - start p) as Hm.
  { unfold PIPE_MAX_RCHUNK. rewrite u32_id; [done|]. unfold PIPE_SIZE in *. lia. }
  set (chars := if plen p <? _ then _ else _).
  assert (chars = Z.min (plen p) (Z.min (r_count c) (PIPE_SIZE - start p))) as Hch.
  { unfold chars. rewrite Hm. destruct (Z.ltb_spec (r_count c) (PIPE_SIZE - start p)); case_cmp; lia. }
  clearbody chars. cbv zeta.
  case_cmp.
  { exists false, p, c. split; [done|]. split; [by apply took_refl|]. lia. }
  pose proof (read_turn p c chars Hp Hc ltac:(lia) ltac:(lia) ltac:(lia)) as Ht.
  pose proof Ht as [Hp' Hc' _ _ _ _ _].
  cbn [update start plen base r_read r_count r_out].
  rewrite mask_mod, s32_id, !u32_id by (unfold PIPE_SIZE in *; lia).
  destruct (IH _ _ Hp' Hc') as (ok & p' & c' & Hrun & Ht' & Hend).
  { unfold read_turns in *. cbn. rewrite Hch. unfold PIPE_SIZE in *. dm. }
  exists ok, p', c'. split; [exact Hrun|]. split; [by eapply took_trans|].
  destruct ok; [done|]. cbn in Hend. lia.
Qed.

(** One turn of the writing loop. *)
Lemma write_turn p c chars data : pipe_ok p -> wcall_ok c ->
  data = segment (w_buf c) (w_written c) chars -> len data = chars ->
  0 < chars <= w_count c -> chars <= PIPE_SIZE - plen p -> chars <= PIPE_SIZE - PIPE_END p ->
  gave p c
    ((p <| base := store (base p) (PIPE_END p) data |>) <| plen := plen p + chars |>)
    ((c <| w_written := w_written c + chars |>) <| w_count := w_count c - chars |>).
Proof.
  intros Hp (Hc1 & Hc2 & Hc3) Hd Hlen H1 H2 H3. pose proof Hp as [Hb Hl Hs Hr Hw].
  assert (0 <= PIPE_END p) as He by (unfold PIPE_END; rewrite mask_mod; by apply Z.mod_pos_bound).
  split; try done; cbn.
  - split; cbn; try done; [rewrite len_store; lia|lia].
  - unfold wcall_ok. cbn. lia.
  - lia.
  - lia.
  - replace (w_written c + chars - w_written c) with chars by lia. rewrite <- Hd.
    rewrite <- Hlen. apply (write_chunk p data); (done || lia).
  - right. rewrite Hd in Hlen. unfold segment, len in *. rewrite length_take, length_drop in Hlen. lia.
Qed.

(** A fault leaves the contents alone. *)
Lemma fault_turn p c data : pipe_ok p -> wcall_ok c ->
  len data <= PIPE_SIZE - plen p -> len data <= PIPE_SIZE - PIPE_END p ->
  gave p c (p <| base := store (base p) (PIPE_END p) data |>) c.
Proof.
  intros Hp Hc H1 H2. pose proof Hp as [Hb Hl Hs Hr Hw].
  assert (0 <= PIPE_END p) as He by (unfold PIPE_END; rewrite mask_mod; by apply Z.mod_pos_bound).
  split; try done.
  - split; cbn; try done. rewrite len_store; lia.
  - rewrite write_scratch by done. by rewrite Z.sub_diag, segment_0, app_nil_r.
  - by left.
Qed.

Definition write_turns (p : pipe_inode_info) (c : wcall) (fuel : nat) : Prop :=
  let m := Z.min (w_count c) (PIPE_SIZE - plen p) in
  (3 <= fuel)%nat \/ (2 <= fuel)%nat /\ m <= PIPE_SIZE - PIPE_END p \/ (1 <= fuel)%nat /\ m = 0.

(** What [copy_from_user] leaves in the page, and when it faults. *)
Lemma copy_from_user_spec dst src n : 0 <= n -> len dst = n ->
  let '(rest, data) := copy_from_user dst src n in
  len data = n /\ if truth rest then len src < n else n <= len src /\ data = take (Z.to_nat n) src.
Proof.
  intros Hn Hd. unfold copy_from_user. unfold truth, len in *.
  rewrite (drop_ge dst), app_nil_r by lia. rewrite length_app, length_replicate, length_take.
  case_cmp; cbn; [|lia].
  split; [lia|]. split; [lia|]. rewrite e. apply app_nil_r.
Qed.

Lemma pipe_end p : pipe_ok p -> PIPE_END p = (start p + plen p) mod PIPE_SIZE.
Proof.
  intros [Hb Hl Hs _ _]. unfold PIPE_END. rewrite mask_mod, u32_id; [done|].
  unfold PIPE_SIZE in *. lia.
Qed.
Lemma pipe_end_range p : pipe_ok p -> 0 <= PIPE_END p < PIPE_SIZE.
Proof. intros Hp. rewrite (pipe_end p Hp). by apply Z.mod_pos_bound. Qed.
Lemma pipe_free p : pipe_ok p -> PIPE_FREE p = PIPE_SIZE - plen p.
Proof. intros [Hb Hl Hs _ _]. unfold PIPE_FREE. apply u32_id. unfold PIPE_SIZE in *. lia. Qed.

(** The loop ends with everything written, the pipe full, or at a fault; a fault needs a buffer
    that is not readable to its end. *)
Lemma write_loop_spec fuel : forall p c, pipe_ok p -> wcall_ok c -> write_turns p c fuel ->
  exists st p' c', write_loop fuel p c = Some (st, p', c') /\ gave p c p' c' /\
    match st with
    | AllWritten => w_count c' = 0
    | Full => plen p' = PIPE_SIZE /\ 0 < w_count c'
    | Faulted => len (w_buf c) < w_written c + w_count c
    end.
Proof.
  induction fuel as [|fuel IH]; intros p c Hp Hc Hf; [unfold write_turns in Hf; lia|].
  cbn [write_loop]. pose proof Hp as [Hb Hl Hs Hr Hw]. pose proof Hc as (Hc1 & Hc2 & Hc3).
  pose proof (pipe_end_range p Hp) as He. rewrite (pipe_free p Hp).
  assert (PIPE_MAX_WCHUNK p = PIPE_SIZE - PIPE_END p) as ->.
  { unfold PIPE_MAX_WCHUNK. apply u32_id. unfold PIPE_SIZE in *. lia. }
  destruct (Z.ltb_spec 0 (w_count c)); cycle 1.
  { exists AllWritten, p, c. split; [done|]. split; [by apply gave_refl|lia]. }
  destruct (Z.eqb_spec (PIPE_SIZE - plen p) 0); cbn [negb].
  { exists Full, p, c. split; [done|]. split; [by apply gave_refl|lia]. }
  set (chars := if PIPE_SIZE - plen p <? _ then _ else _).
  assert (chars = Z.min (PIPE_SIZE - plen p) (Z.min (w_count c) (PIPE_SIZE - PIPE_END p))) as Hch.
  { unfold chars. destruct (Z.ltb_spec (w_count c) (PIPE_SIZE - PIPE_END p)); case_cmp; lia. }
  clearbody chars. cbv zeta.
  pose proof (copy_from_user_spec (segment (base p) (PIPE_END p) chars)
    (drop (Z.to_nat (w_written c)) (w_buf c)) chars ltac:(lia) ltac:(apply len_segment; lia)) as Hcp.
  destruct copy_from_user as [rest data]. destruct Hcp as [Hlen Hcp]. destruct (truth rest).
  { eexists Faulted, _, c. split; [done|]. split; [|unfold len in *; rewrite length_drop in Hcp; lia].
    apply fault_turn; (done || lia). }
  destruct Hcp as [Hn Hd].
  pose proof (write_turn p c chars data Hp Hc Hd Hlen ltac:(lia) ltac:(lia) ltac:(lia)) as Ht.
  pose proof Ht as [Hp' Hc' _ _ _ _ _ _ _].
  cbn [update start plen base w_written w_count].
  rewrite s32_id, !u32_id by (unfold PIPE_SIZE in *; lia).
  destruct (IH _ _ Hp' Hc') as (st & p' & c' & Hrun & Ht' & Hend).
  { unfold write_turns in *. rewrite (pipe_end _ Hp'). rewrite (pipe_end p Hp) in *. cbn.
    unfold PIPE_SIZE in *. dm. }
  exists st, p', c'. split; [exact Hrun|]. split; [by eapply gave_trans|].
  destruct st; [done| |done]. cbn in Hend. lia.
Qed.

(** ** Critical sections *)

(** A section of a read that starts in [p] with the call [c]. It takes a prefix of the contents and
    hands it to the user, and then sleeps in an empty pipe that still has writers, or returns the
    number of bytes of the whole call. Unless the user's buffer faults, it wakes up the sleepers
    when it has taken anything. *)
Definition read_post (p : pipe_inode_info) (c : rcall) (r : result rcall) : Prop :=
  exists p', took p c p' (res_call r) /\
    (res_wake r = true \/ plen p' = plen p \/ r_room c < r_read c + r_count c) /\
    match res_verdict r with
    | Returned ret =>
        res_pipe r = p' /\ (ret = r_read (res_call r) \/ r_read (res_call r) = 0 /\ ret <= 0)
    | Blocked =>
        res_pipe r = p' <| waiting_readers := u32 (waiting_readers p' + 1) |> /\
        plen p' = 0 /\ writers p' <> 0 /\ r_nonblock c = false
    | _ => False
    end.

(** The same for a write: bytes of the user's buffer are appended to the contents, and a writer
    sleeps in a pipe that has readers but not the room that it needs. *)
Definition write_room (ph : wphase) (count : Z) : Z :=
  match ph with WaitSpace => needed count | WaitRoom => 1 end.

Definition phase_ok (c : wcall) : Prop :=
  match w_phase c with
  | WaitSpace => w_written c = 0
  | WaitRoom => 0 < w_written c
  end /\ 0 < w_count c.

Definition write_post (p : pipe_inode_info) (c : wcall) (r : result wcall) : Prop :=
  exists p', gave p c p' (res_call r) /\
    (res_wake r = true \/ plen p' = plen p \/ len (w_buf c) < w_written c + w_count c) /\
    match res_verdict r with
    | Returned ret =>
        res_pipe r = p' /\
        (ret = w_written (res_call r) \/ w_written (res_call r) = 0 /\ ret <= 0)
    | Blocked =>
        res_pipe r = p' <| waiting_writers := u32 (waiting_writers p' + 1) |> /\
        PIPE_SIZE - plen p' < write_room (w_phase (res_call r)) (w_count (res_call r)) /\
        readers p' <> 0 /\ w_nonblock c = false /\ phase_ok (res_call r)
    | _ => False
    end.

Lemma truth_false z : truth z = false <-> z = 0.
Proof. unfold truth. rewrite negb_false_iff, Z.eqb_eq. done. Qed.

Lemma read_out_post p c p' c' ret wake : took p c p' c' -> ret <= 0 \/ ret = r_read c' ->
  (wake = true \/ plen p' = plen p \/ r_room c < r_read c + r_count c) ->
  read_post p c (read_out p' c' ret wake).
Proof.
  intros H Hr Hw. exists p'. split; [done|]. split; [done|]. cbn. split; [done|].
  destruct (truth (r_read c')) eqn:E; [by left|]. apply truth_false in E. lia.
Qed.

Lemma read_sleep_post p c p' c' wake : took p c p' c' ->
  plen p' = 0 -> writers p' <> 0 -> r_nonblock c = false ->
  (wake = true \/ plen p' = plen p \/ r_room c < r_read c + r_count c) ->
  read_post p c (read_sleep p' c' wake).
Proof. intros H H1 H2 H3 Hw. exists p'. done. Qed.

Lemma do_more_read_post p c p' c' wake : took p c p' c' -> plen p' = 0 ->
  (wake = true \/ plen p' = plen p \/ r_room c < r_read c + r_count c) ->
  read_post p c (do_more_read p' c' wake).
Proof.
  intros H H1 Hw. unfold do_more_read. destruct (truth (writers p')) eqn:E; cbn [negb].
  - apply truth_spec in E. destruct (r_nonblock c') eqn:En.
    + apply read_out_post; [done|by left|done].
    + apply read_sleep_post; try done. by rewrite <- (took_nonblock _ _ _ _ H).
  - apply read_out_post; [done|by left|done].
Qed.

(** The reset of [start] in an empty pipe. *)
Lemma took_reset p c p' c' : took p c p' c' -> plen p' = 0 -> took p c (p' <| start := 0 |>) c'.
Proof.
  intros [H1 H2 H3 H4 H5 H6 (d & H7 & H8)] H0. destruct H1 as [? ? ? ? ?].
  split; try done.
  exists d. split; [|done]. rewrite H7. unfold contents. cbn [plen start base update]. by rewrite H0.
Qed.

Lemma read_available_post p c : pipe_ok p -> rcall_ok c -> read_post p c (read_available p c).
Proof.
  intros Hp Hc. unfold read_available.
  destruct (read_loop_spec 3 p c Hp Hc) as (ok & p1 & c' & -> & Ht & Hend); [by left|].
  destruct ok; cycle 1.
  { apply read_out_post; [done|by left|by right; right]. }
  set (p2 := if negb (truth (plen p1)) then _ else _).
  assert (took p c p2 c' /\ plen p2 = plen p1) as [Ht2 Hpl].
  { unfold p2. destruct (truth (plen p1)) eqn:E; [done|]. apply truth_false in E.
    split; [by apply took_reset|done]. }
  clearbody p2.
  destruct (truth (r_count c') && truth (waiting_writers p2) && negb (r_nonblock c')) eqn:E.
  - bool_hyps. apply truth_spec in H.
    unfold PIPE_EMPTY. rewrite (proj2 (Z.eqb_eq _ _)) by lia.
    apply do_more_read_post; [done|lia|by left].
  - apply read_out_post; [done|by right|by left].
Qed.

(** Every section of a read meets its contract. *)
Lemma pipe_read_post seek intr nonblock room count p :
  pipe_ok p -> 0 <= count < 2 ^ 31 ->
  read_post p (RCall nonblock room count 0 []) (pipe_read seek intr nonblock room count p).
Proof.
  intros Hp Hn. unfold pipe_read.
  assert (rcall_ok (RCall nonblock room count 0 [])) as Hc by (unfold rcall_ok, len; cbn; lia).
  pose proof (took_refl p _ Hp Hc) as Hr.
  destruct seek; [apply read_out_post; auto; left; done|].
  case_cmp; [apply read_out_post; auto|].
  destruct intr; [apply read_out_post; auto; left; done|].
  unfold PIPE_EMPTY. case_cmp; [apply do_more_read_post; auto|by apply read_available_post].
Qed.

Lemma read_resume_post signal p c : pipe_ok p -> rcall_ok c -> r_nonblock c = false ->
  read_post (p <| waiting_readers := u32 (waiting_readers p - 1) |>) c (read_resume signal p c).
Proof.
  intros Hp Hc Hn. unfold read_resume. cbv zeta. set (p0 := p <| waiting_readers := _ |>).
  assert (pipe_ok p0) as Hp0 by (destruct Hp; by split). clearbody p0.
  pose proof (took_refl p0 c Hp0 Hc) as Hr.
  destruct signal; [apply read_out_post; auto; left; done|].
  unfold PIPE_EMPTY. case_cmp; cbn [negb]; [|by apply read_available_post].
  destruct (truth (writers p0)) eqn:E; cbn [negb].
  - apply truth_spec in E. by apply read_sleep_post; auto.
  - apply read_out_post; auto. left; done.
Qed.

Lemma write_out_post p c p' c' ret wake : gave p c p' c' -> ret <= 0 \/ ret = w_written c' ->
  (wake = true \/ plen p' = plen p \/ len (w_buf c) < w_written c + w_count c) ->
  write_post p c (write_out p' c' ret wake).
Proof.
  intros H Hr Hw. exists p'. split; [done|]. split; [done|]. cbn. split; [done|].
  destruct (truth (w_written c')) eqn:E; [by left|]. apply truth_false in E. lia.
Qed.

Lemma sigpipe_post p c ret : pipe_ok p -> wcall_ok c ->
  ret <= 0 \/ ret = w_written c -> write_post p c (sigpipe p c ret).
Proof.
  intros Hp Hc Hr. unfold sigpipe. pose proof (gave_refl p c Hp Hc).
  destruct (truth (w_written c)) eqn:E; [apply write_out_post; auto|].
  apply truth_false in E. exists p. split; [done|]. split; [by right; left|]. cbn.
  split; [done|]. right. done.
Qed.

Lemma gave_phase p c p' c' ph : gave p c p' c' -> gave p c p' (c' <| w_phase := ph |>).
Proof. intros [H1 H2 H3 H4 H5 H6 H7 H8 H9]. by split. Qed.

Lemma write_sleep_post ph p c p' c' wake : gave p c p' c' ->
  PIPE_SIZE - plen p' < write_room ph (w_count c') -> readers p' <> 0 -> w_nonblock c = false ->
  phase_ok (c' <| w_phase := ph |>) ->
  (wake = true \/ plen p' = plen p \/ len (w_buf c) < w_written c + w_count c) ->
  write_post p c (write_sleep ph p' c' wake).
Proof. intros H H1 H2 H3 H4 Hw. exists p'. split; [by apply gave_phase|done]. Qed.

(** The length of the pipe counts what was written. *)
Lemma gave_plen p c p' c' : pipe_ok p -> 0 <= w_written c -> gave p c p' c' ->
  plen p' = plen p + (w_written c' - w_written c).
Proof.
  intros Hp Hw [H1 H2 H3 H4 H5 H6 H7 H8 H9].
  rewrite <- (len_contents p), <- (len_contents p'), H8, len_app by done. f_equal.
  destruct H9 as [->|H9]; [by rewrite Z.sub_diag, segment_0|]. rewrite len_segment; lia.
Qed.

Lemma write_available_post p c : pipe_ok p -> wcall_ok c -> readers p <> 0 ->
  0 < w_count c -> plen p < PIPE_SIZE -> write_post p c (write_available p c).
Proof.
  intros Hp Hc Hr Hn Hroom. unfold write_available.
  destruct (write_loop_spec 3 p c Hp Hc) as (st & p' & c' & -> & Hg & Hend); [by left|].
  pose proof Hc as (Hc1 & _). pose proof (gave_plen p c p' c' Hp Hc1 Hg) as Hpl.
  destruct st.
  - apply write_out_post; [done|by left|by left].
  - apply write_out_post; [done|by left|by right; right].
  - rewrite (gave_nonblock _ _ _ _ Hg). destruct (w_nonblock c) eqn:En.
    + apply write_out_post; [done|by right|by left].
    + pose proof (gave_ends _ _ _ _ Hg) as (Hrd & _).
      apply write_sleep_post; try done; cbn; [lia|congruence| |by left].
      unfold phase_ok. cbn. lia.
Qed.

Lemma needed_pos n : 0 < n -> 0 < needed n.
Proof. unfold needed. case_cmp; lia. Qed.

Lemma wait_space_post p c : pipe_ok p -> wcall_ok c -> readers p <> 0 -> w_nonblock c = false ->
  0 < w_count c -> w_written c = 0 -> write_post p c (wait_space p c).
Proof.
  intros Hp Hc Hr Hb Hn Hw. unfold wait_space. rewrite (pipe_free p Hp).
  pose proof (needed_pos _ Hn). case_cmp.
  - apply write_sleep_post; auto using gave_refl. by split.
  - apply write_available_post; (done || lia).
Qed.

Lemma pipe_write_post seek intr nonblock buf count p :
  pipe_ok p -> 0 <= count < 2 ^ 31 ->
  write_post p (WCall nonblock buf count 0 WaitSpace)
    (pipe_write seek intr nonblock buf count p).
Proof.
  intros Hp Hn. unfold pipe_write. set (c := WCall _ _ _ _ _).
  assert (wcall_ok c) as Hc by (unfold wcall_ok; cbn; lia).
  pose proof (gave_refl p c Hp Hc) as Hr. cbv zeta.
  destruct seek; [apply write_out_post; auto; left; done|].
  case_cmp; [apply write_out_post; auto|].
  destruct intr; [apply write_out_post; auto; left; done|].
  destruct (truth (readers p)) eqn:E; cbn [negb]; [|apply sigpipe_post; auto; left; done].
  apply truth_spec in E. destruct nonblock; [|apply wait_space_post; cbn; (done || lia)].
  rewrite (pipe_free p Hp). pose proof (needed_pos count ltac:(lia)).
  case_cmp; [apply write_out_post; auto; left; done|].
  apply write_available_post; cbn; (done || lia).
Qed.

Lemma write_resume_post signal p c : pipe_ok p -> wcall_ok c -> w_nonblock c = false ->
  phase_ok c ->
  write_post (p <| waiting_writers := u32 (waiting_writers p - 1) |>) c (write_resume signal p c).
Proof.
  intros Hp Hc Hb [Hph Hn]. unfold write_resume. cbv zeta. set (p0 := p <| waiting_writers := _ |>).
  assert (pipe_ok p0) as Hp0 by (destruct Hp; by split). clearbody p0.
  pose proof (gave_refl p0 c Hp0 Hc) as Hr.
  destruct (w_phase c) eqn:Eph.
  - destruct signal; [apply write_out_post; auto; left; done|].
    destruct (truth (readers p0)) eqn:E; cbn [negb]; [|apply sigpipe_post; auto; left; done].
    apply truth_spec in E. by apply wait_space_post.
  - destruct signal; [apply write_out_post; auto|].
    destruct (truth (readers p0)) eqn:E; cbn [negb]; [|apply sigpipe_post; auto].
    apply truth_spec in E. rewrite (pipe_free p0 Hp0). unfold truth. case_cmp; cbn [negb].
    + apply write_sleep_post; auto; cbn; [lia|]. by split.
    + apply write_available_post; try done. destruct Hp0. lia.
Qed.

(** ** Processes sharing a pipe *)

(** A process asleep in [pipe_wait], and whether it has been woken up since. *)
Inductive sleeper :=
| SReader (c : rcall) (awake : bool)
| SWriter (c : wcall) (awake : bool).

Definition set_awake (s : sleeper) : sleeper :=
  match s with SReader c _ => SReader c true | SWriter c _ => SWriter c true end.

(** [wake_up_interruptible(PIPE_WAIT)]: the sleepers are not exclusive, all are woken up. *)
Definition wake_up (wake : bool) (l : list sleeper) : list sleeper :=
  if wake then set_awake <$> l else l.

(** The pipe, its wait queue, and the history: the bytes the writers were told are written, and
    those the readers were given. *)
Record world := World {
  the_pipe : pipe_inode_info; queue : list sleeper; sent : list Z; received : list Z }.

Definition after_read (w : world) (l : list sleeper) (c : rcall) (r : result rcall) : world :=
  World (res_pipe r)
    (wake_up (res_wake r) l ++
     match res_verdict r with Blocked => [SReader (res_call r) false] | _ => [] end)
    (sent w) (received w ++ drop (length (r_out c)) (r_out (res_call r))).

Definition after_write (w : world) (l : list sleeper) (c : wcall) (r : result wcall) : world :=
  World (res_pipe r)
    (wake_up (res_wake r) l ++
     match res_verdict r with Blocked => [SWriter (res_call r) false] | _ => [] end)
    (sent w ++ segment (w_buf c) (w_written c) (w_written (res_call r) - w_written c))
    (received w).

(** One critical section of one process. With [mapped] set, the buffers of the calls are accessible
    over their whole length. A signal makes a sleeper runnable; whether one is pending when it runs
    is [signal]. *)
Inductive step (mapped : bool) (w : world) : world -> Prop :=
| step_read seek intr nonblock room count :
    0 <= count < 2 ^ 31 -> (mapped = true -> count <= room) ->
    step mapped w (after_read w (queue w) (RCall nonblock room count 0 [])
                     (pipe_read seek intr nonblock room count (the_pipe w)))
| step_write seek intr nonblock buf count :
    0 <= count < 2 ^ 31 -> (mapped = true -> count <= len buf) ->
    step mapped w (after_write w (queue w) (WCall nonblock buf count 0 WaitSpace)
                     (pipe_write seek intr nonblock buf count (the_pipe w)))
| step_read_resume signal l1 c l2 :
    queue w = l1 ++ SReader c true :: l2 ->
    step mapped w (after_read w (l1 ++ l2) c (read_resume signal (the_pipe w) c))
| step_write_resume signal l1 c l2 :
    queue w = l1 ++ SWriter c true :: l2 ->
    step mapped w (after_write w (l1 ++ l2) c (write_resume signal (the_pipe w) c))
| step_signal l1 s l2 :
    queue w = l1 ++ s :: l2 ->
    step mapped w (World (the_pipe w) (l1 ++ set_awake s :: l2) (sent w) (received w))
| step_open f_mode :
    readers (the_pipe w) + 1 < 2 ^ 32 -> writers (the_pipe w) + 1 < 2 ^ 32 ->
    step mapped w (World (pipe_rdwr_open f_mode (the_pipe w)) (queue w) (sent w) (received w))
| step_release f_mode p wake :
    pipe_rdwr_release f_mode (the_pipe w) = (Some p, wake) ->
    step mapped w (World p (wake_up wake (queue w)) (sent w) (received w)).

Inductive reachable (mapped : bool) (w0 : world) : world -> Prop :=
| reach_start : reachable mapped w0 w0
| reach_step w w' : reachable mapped w0 w -> step mapped w w' -> reachable mapped w0 w'.

(** A new pipe that nobody waits on. *)
Definition fresh (page : list Z) (w : world) : Prop :=
  len page = PIPE_SIZE /\
  exists p, get_pipe_inode true (Some page) true = Some p /\ w = World p [] [] [].

(** *** The invariant *)

(** A sleeper that nobody woke up has nothing to do: there is nothing to read but somebody may
    still write, or not the room that is needed but somebody may still read. *)
Definition rightly_asleep (p : pipe_inode_info) (s : sleeper) : Prop :=
  match s with
  | SReader _ false => plen p = 0 /\ writers p <> 0
  | SWriter c false =>
      PIPE_SIZE - plen p < write_room (w_phase c) (w_count c) /\ readers p <> 0
  | _ => True
  end.

Definition sleeper_ok (mapped : bool) (s : sleeper) : Prop :=
  match s with
  | SReader c _ => rcall_ok c /\ r_nonblock c = false /\
      (mapped = true -> r_read c + r_count c <= r_room c)
  | SWriter c _ => wcall_ok c /\ w_nonblock c = false /\ phase_ok c /\
      (mapped = true -> w_written c + w_count c <= len (w_buf c))
  end.

Definition is_reader (s : sleeper) : bool := match s with SReader _ _ => true | _ => false end.
Definition num_readers (l : list sleeper) : Z :=
  Z.of_nat (length (filter (fun s => is_reader s = true) l)).
Definition num_writers (l : list sleeper) : Z :=
  Z.of_nat (length (filter (fun s => is_reader s = false) l)).

Record world_ok (mapped : bool) (w : world) : Prop := {
  wo_pipe : pipe_ok (the_pipe w);
  wo_sleepers : Forall (sleeper_ok mapped) (queue w);
  wo_fifo : sent w = received w ++ contents (the_pipe w);
  wo_readers : waiting_readers (the_pipe w) = u32 (num_readers (queue w));
  wo_writers : waiting_writers (the_pipe w) = u32 (num_writers (queue w));
  wo_asleep : mapped = true -> Forall (rightly_asleep (the_pipe w)) (queue w) }.

Lemma num_readers_app l l' : num_readers (l ++ l') = num_readers l + num_readers l'.
Proof. unfold num_readers. rewrite filter_app, length_app. lia. Qed.
Lemma num_writers_app l l' : num_writers (l ++ l') = num_writers l + num_writers l'.
Proof. unfold num_writers. rewrite filter_app, length_app. lia. Qed.

Lemma num_readers_cons s l :
  num_readers (s :: l) = (if is_reader s then 1 else 0) + num_readers l.
Proof. unfold num_readers. rewrite filter_cons. destruct s; case_decide; cbn in *; (done || lia). Qed.
Lemma num_writers_cons s l :
  num_writers (s :: l) = (if is_reader s then 0 else 1) + num_writers l.
Proof. unfold num_writers. rewrite filter_cons. destruct s; case_decide; cbn in *; (done || lia). Qed.

Lemma wake_up_counts wake l :
  num_readers (wake_up wake l) = num_readers l /\ num_writers (wake_up wake l) = num_writers l.
Proof.
  destruct wake; [|done]. cbn. induction l as [|s l IH]; [done|].
  cbn [fmap list_fmap]. rewrite !num_readers_cons, !num_writers_cons.
  destruct IH as [-> ->]. by destruct s.
Qed.

Lemma wake_up_ok mapped wake l :
  Forall (sleeper_ok mapped) l -> Forall (sleeper_ok mapped) (wake_up wake l).
Proof.
  destruct wake; [|done]. intros H. apply Forall_fmap. eapply Forall_impl; [done|].
  by intros [c a|c a] ?.
Qed.

(** Whoever is still asleep is rightly so, after a wake-up or when nothing that matters changed. *)
Lemma wake_up_asleep wake p p' l :
  wake = true \/
    plen p' = plen p /\ (readers p <> 0 -> readers p' <> 0) /\ (writers p <> 0 -> writers p' <> 0) ->
  Forall (rightly_asleep p) l -> Forall (rightly_asleep p') (wake_up wake l).
Proof.
  intros H Hl. destruct wake; cbn.
  - apply Forall_fmap. eapply Forall_impl; [done|]. by intros [c a|c a] _.
  - destruct H as [|(H1 & H2 & H3)]; [done|]. eapply Forall_impl; [done|].
    intros [c []|c []]; cbn; try done; rewrite H1; naive_solver.
Qed.

(** *** Preservation *)

Lemma after_read_ok mapped w l c r p :
  pipe_ok p -> rcall_ok c -> (mapped = true -> r_read c + r_count c <= r_room c) ->
  read_post p c r ->
  contents p = contents (the_pipe w) -> plen p = plen (the_pipe w) ->
  readers p = readers (the_pipe w) -> writers p = writers (the_pipe w) ->
  waiting_readers p = u32 (num_readers l) -> waiting_writers p = u32 (num_writers l) ->
  Forall (sleeper_ok mapped) l ->
  (mapped = true -> Forall (rightly_asleep (the_pipe w)) l) ->
  sent w = received w ++ contents (the_pipe w) ->
  world_ok mapped (after_read w l c r).
Proof.
  intros Hp Hc Hm (p' & Ht & Hwake & Hv) Ec El Er Ew Hr Hw Hl Ha Hf.
  pose proof Ht as [Tp Tc (T1 & T2 & T3 & T4 & _) Tn Tr Tt (d & Td & To)].
  destruct (wake_up_counts (res_wake r) l) as [Nr Nw].
  assert (contents p' = contents (res_pipe r) /\ plen p' = plen (res_pipe r) /\
    readers p' = readers (res_pipe r) /\ writers p' = writers (res_pipe r) /\
    pipe_ok (res_pipe r)) as (Kc & Kl & Kr & Kw & Kp).
  { destruct (res_verdict r); try done; destruct Hv as [-> _]; [done|].
    repeat split; try done; apply Tp. }
  split; cbn [after_read the_pipe queue sent received].
  - done.
  - apply Forall_app. split; [by apply wake_up_ok|].
    destruct (res_verdict r); [by constructor| |done..].
    constructor; [|by constructor]. destruct Hv as (_ & _ & _ & Hn).
    split; [done|]. split; [congruence|]. intros E. specialize (Hm E). lia.
  - rewrite Hf, <- Ec, Td, To, drop_app_length, Kc. by rewrite app_assoc.
  - rewrite num_readers_app, Nr. destruct (res_verdict r); try done; destruct Hv as [-> _]; cbn.
    + by rewrite T3, Hr, Z.add_0_r.
    + rewrite T3, Hr. apply Zplus_mod_idemp_l.
  - rewrite num_writers_app, Nw. destruct (res_verdict r); try done; destruct Hv as [-> _]; cbn;
      by rewrite T4, Hw, Z.add_0_r.
  - intros E. specialize (Hm E). apply Forall_app. split.
    + apply (wake_up_asleep _ (the_pipe w)); [|auto].
      destruct Hwake as [Hwk|[Hwk|]]; [by left| |lia].
      right. rewrite <- Kl, <- Kr, <- Kw, T1, T2. split; [congruence|]. split; congruence.
    + destruct (res_verdict r); [by constructor| |done..].
      constructor; [|by constructor]. cbn. rewrite <- Kl, <- Kw. tauto.
Qed.

Lemma after_write_ok mapped w l c r p :
  pipe_ok p -> wcall_ok c -> (mapped = true -> w_written c + w_count c <= len (w_buf c)) ->
  write_post p c r ->
  contents p = contents (the_pipe w) -> plen p = plen (the_pipe w) ->
  readers p = readers (the_pipe w) -> writers p = writers (the_pipe w) ->
  waiting_readers p = u32 (num_readers l) -> waiting_writers p = u32 (num_writers l) ->
  Forall (sleeper_ok mapped) l ->
  (mapped = true -> Forall (rightly_asleep (the_pipe w)) l) ->
  sent w = received w ++ contents (the_pipe w) ->
  world_ok mapped (after_write w l c r).
Proof.
  intros Hp Hc Hm (p' & Ht & Hwake & Hv) Ec El Er Ew Hr Hw Hl Ha Hf.
  pose proof Ht as [Tp Tc (T1 & T2 & T3 & T4 & _) Tn Tb Tt Tle Td _].
  destruct (wake_up_counts (res_wake r) l) as [Nr Nw].
  assert (contents p' = contents (res_pipe r) /\ plen p' = plen (res_pipe r) /\
    readers p' = readers (res_pipe r) /\ writers p' = writers (res_pipe r) /\
    pipe_ok (res_pipe r)) as (Kc & Kl & Kr & Kw & Kp).
  { destruct (res_verdict r); try done; destruct Hv as [-> _]; [done|].
    repeat split; try done; apply Tp. }
  split; cbn [after_write the_pipe queue sent received].
  - done.
  - apply Forall_app. split; [by apply wake_up_ok|].
    destruct (res_verdict r); [by constructor| |done..].
    constructor; [|by constructor]. destruct Hv as (_ & _ & _ & Hn & Hph).
    split; [done|]. split; [congruence|]. split; [done|]. intros E. specialize (Hm E).
    rewrite Tb. lia.
  - rewrite Hf, <- Kc, Td, Ec. by rewrite app_assoc.
  - rewrite num_readers_app, Nr. destruct (res_verdict r); try done; destruct Hv as [-> _]; cbn;
      by rewrite T3, Hr, Z.add_0_r.
  - rewrite num_writers_app, Nw. destruct (res_verdict r); try done; destruct Hv as [-> _]; cbn.
    + by rewrite T4, Hw, Z.add_0_r.
    + rewrite T4, Hw. apply Zplus_mod_idemp_l.
  - intros E. specialize (Hm E). apply Forall_app. split.
    + apply (wake_up_asleep _ (the_pipe w)); [|auto].
      destruct Hwake as [Hwk|[Hwk|]]; [by left| |lia].
      right. rewrite <- Kl, <- Kr, <- Kw, T1, T2. split; [congruence|]. split; congruence.
    + destruct (res_verdict r); [by constructor| |done..].
      constructor; [|by constructor]. cbn. rewrite <- Kl, <- Kr. tauto.
Qed.

(** Taking a sleeper off the queue. *)
Lemma queue_split mapped p l1 s l2 :
  Forall (sleeper_ok mapped) (l1 ++ s :: l2) ->
  (mapped = true -> Forall (rightly_asleep p) (l1 ++ s :: l2)) ->
  sleeper_ok mapped s /\ Forall (sleeper_ok mapped) (l1 ++ l2) /\
  (mapped = true -> Forall (rightly_asleep p) (l1 ++ l2)) /\
  num_readers (l1 ++ s :: l2) = (if is_reader s then 1 else 0) + num_readers (l1 ++ l2) /\
  num_writers (l1 ++ s :: l2) = (if is_reader s then 0 else 1) + num_writers (l1 ++ l2).
Proof.
  intros H1 H2. rewrite !num_readers_app, !num_writers_app, num_readers_cons, num_writers_cons.
  rewrite Forall_app, Forall_cons in H1. destruct H1 as (H1 & H3 & H4).
  rewrite Forall_app. split_and!; [done|done|done| |lia|lia].
  intros E. specialize (H2 E). rewrite Forall_app, Forall_cons in H2. rewrite Forall_app. tauto.
Qed.

Lemma u32_pred n : u32 (u32 (1 + n) - 1) = u32 n.
Proof. unfold u32. rewrite Zminus_mod_idemp_l. f_equal. lia. Qed.

Lemma step_read_resume_ok mapped w signal l1 c l2 :
  world_ok mapped w -> queue w = l1 ++ SReader c true :: l2 ->
  world_ok mapped (after_read w (l1 ++ l2) c (read_resume signal (the_pipe w) c)).
Proof.
  intros [Hp Hs Hf Hr Hw Ha] Hq. rewrite Hq in Hs, Hr, Hw, Ha.
  destruct (queue_split _ _ _ _ _ Hs Ha) as ((Hc & Hn & Hm) & Hs' & Ha' & Nr & Nw).
  rewrite Nr in Hr. rewrite Nw in Hw. cbn [is_reader] in *.
  eapply after_read_ok; [|done|done|by apply read_resume_post|..]; try done.
  - destruct Hp. by split.
  - cbn. by rewrite Hr, u32_pred.
Qed.

Lemma step_write_resume_ok mapped w signal l1 c l2 :
  world_ok mapped w -> queue w = l1 ++ SWriter c true :: l2 ->
  world_ok mapped (after_write w (l1 ++ l2) c (write_resume signal (the_pipe w) c)).
Proof.
  intros [Hp Hs Hf Hr Hw Ha] Hq. rewrite Hq in Hs, Hr, Hw, Ha.
  destruct (queue_split _ _ _ _ _ Hs Ha) as ((Hc & Hn & Hph & Hm) & Hs' & Ha' & Nr & Nw).
  rewrite Nr in Hr. rewrite Nw in Hw. cbn [is_reader] in *.
  eapply after_write_ok; [|done|done|by apply write_resume_post|..]; try done.
  - destruct Hp. by split.
  - cbn. by rewrite Hw, u32_pred.
Qed.

Lemma step_signal_ok mapped w l1 s l2 :
  world_ok mapped w -> queue w = l1 ++ s :: l2 ->
  world_ok mapped (World (the_pipe w) (l1 ++ set_awake s :: l2) (sent w) (received w)).
Proof.
  intros [Hp Hs Hf Hr Hw Ha] Hq. rewrite Hq in Hs, Hr, Hw, Ha.
  rewrite num_readers_app, num_readers_cons in Hr. rewrite num_writers_app, num_writers_cons in Hw.
  split; cbn [the_pipe queue sent received]; try done.
  - rewrite Forall_app, Forall_cons in Hs |- *. by destruct s.
  - rewrite num_readers_app, num_readers_cons. by destruct s.
  - rewrite num_writers_app, num_writers_cons. by destruct s.
  - intros E. specialize (Ha E). rewrite Forall_app, Forall_cons in Ha |- *.
    destruct Ha as (? & _ & ?). split_and!; [done|by destruct s|done].
Qed.

(** Opening and releasing files: nothing but the counts of files changes. *)
Lemma ends_ok mapped w p wake :
  world_ok mapped w ->
  base p = base (the_pipe w) -> plen p = plen (the_pipe w) -> start p = start (the_pipe w) ->
  waiting_readers p = waiting_readers (the_pipe w) ->
  waiting_writers p = waiting_writers (the_pipe w) ->
  0 <= readers p < 2 ^ 32 -> 0 <= writers p < 2 ^ 32 ->
  wake = true \/ (readers (the_pipe w) <> 0 -> readers p <> 0) /\
                 (writers (the_pipe w) <> 0 -> writers p <> 0) ->
  world_ok mapped (World p (wake_up wake (queue w)) (sent w) (received w)).
Proof.
  intros [Hp Hs Hf Hr Hw Ha] E1 E2 E3 E4 E5 E6 E7 E8.
  destruct (wake_up_counts wake (queue w)) as [Nr Nw].
  split; cbn [the_pipe queue sent received].
  - destruct Hp. split; congruence || done.
  - by apply wake_up_ok.
  - rewrite Hf. unfold contents. by rewrite E1, E2, E3.
  - by rewrite E4, Nr.
  - by rewrite E5, Nw.
  - intros E. eapply wake_up_asleep; [|by apply Ha]. intuition.
Qed.

(** An open adds at most one reader and one writer. *)
Lemma pipe_rdwr_open_adds f_mode p : pipe_ok p ->
  readers p + 1 < 2 ^ 32 -> writers p + 1 < 2 ^ 32 ->
  exists a b, 0 <= a <= 1 /\ 0 <= b <= 1 /\
    pipe_rdwr_open f_mode p = (p <| readers := readers p + a |>) <| writers := writers p + b |>.
Proof.
  intros [_ _ _ Hr Hw] H1 H2. exists (Z.b2z (truth (f_mode .& FMODE_READ))), (Z.b2z (truth (f_mode .& FMODE_WRITE))).
  split; [destruct truth; cbn; lia|]. split; [destruct (truth (f_mode .& FMODE_WRITE)); cbn; lia|].
  unfold pipe_rdwr_open, pipe_read_open, pipe_write_open. destruct p.
  destruct (truth (f_mode .& FMODE_READ)), (truth (f_mode .& FMODE_WRITE)); cbn in *;
    rewrite ?u32_id, ?Z.add_0_r by lia; done.
Qed.

Lemma step_ok mapped w w' : world_ok mapped w -> step mapped w w' -> world_ok mapped w'.
Proof.
  intros Hw Hstep. pose proof Hw as [Hp Hs Hf Hr Hwr Ha].
  destruct Hstep as [seek intr nb room count Hc Hm|seek intr nb buf count Hc Hm| | | |f H1 H2|f p wake H].
  - eapply after_read_ok; [done| |done|by apply pipe_read_post|..]; try done.
    unfold rcall_ok, len. cbn. lia.
  - eapply after_write_ok; [done| |done|by apply pipe_write_post|..]; try done.
  - by apply step_read_resume_ok.
  - by apply step_write_resume_ok.
  - by apply step_signal_ok.
  - destruct (pipe_rdwr_open_adds f (the_pipe w) Hp H1 H2) as (a & b & Ha' & Hb' & ->).
    destruct Hp. apply (ends_ok mapped w _ false Hw); try done; cbn; lia.
  - unfold pipe_rdwr_release, pipe_release in H.
    destruct (_ && _) in H; simplify_eq. apply ends_ok; try done; cbn; auto using u32_range.
Qed.

Lemma reachable_ok mapped page w0 w :
  fresh page w0 -> reachable mapped w0 w -> world_ok mapped w.
Proof.
  intros (Hpage & p & Hp & ->) H. induction H as [|w w' H IH Hs]; [|by eapply step_ok].
  cbn in Hp. by simplify_eq.
Qed.

(** ** What a pipe guarantees *)

(** C3. A pipe is a queue of bytes: whatever calls run on it and however they interleave, sleep,
    are interrupted or fault, the bytes that the writers were told are written are those that the
    readers received followed by those in the buffer, in order, none lost and none twice; and the
    buffer never holds more than PIPE_SIZE. *)
Theorem pipe_fifo mapped page w0 w :
  fresh page w0 -> reachable mapped w0 w ->
  sent w = received w ++ contents (the_pipe w) /\ len (contents (the_pipe w)) <= PIPE_SIZE.
Proof.
  intros Hf Hr. destruct (reachable_ok _ _ _ _ Hf Hr) as [Hp _ H _ _ _].
  split; [done|]. rewrite len_contents by done. apply Hp.
Qed.

Definition zero_page : list Z := replicate 4096 0.
Definition world0 : world :=
  World (Pipe zero_page 0 0 1 1 0 0 1 1) [] [] [].
Lemma world0_fresh : fresh zero_page world0.
Proof. split; [done|]. by eexists. Qed.

(** A writer sends five bytes, a reader takes three of them. *)
Definition world1 : world :=
  after_write world0 (queue world0) (WCall false [10; 20; 30; 40; 50] 5 0 WaitSpace)
    (pipe_write false false false [10; 20; 30; 40; 50] 5 (the_pipe world0)).
Definition world2 : world :=
  after_read world1 (queue world1) (RCall false 3 3 0 [])
    (pipe_read false false false 3 3 (the_pipe world1)).
Lemma world2_reachable : reachable true world0 world2.
Proof.
  eapply reach_step; [eapply reach_step; [constructor|]|].
  - apply (step_write true world0 false false false [10; 20; 30; 40; 50] 5); done.
  - apply (step_read true world1 false false false 3 3); done.
Qed.

Lemma pipe_fifo_witness :
  received world2 = [10; 20; 30] /\ sent world2 = received world2 ++ contents (the_pipe world2).
Proof.
  split; [vm_compute; reflexivity|].
  exact (proj1 (pipe_fifo true zero_page world0 world2 world0_fresh world2_reachable)).
Defined.

(** C4. No wake-up is lost: as long as the buffers that user programs pass are accessible, a
    process that sleeps on a pipe and has not been woken up cannot go on (a reader: the pipe is
    empty and has a writer; a writer: the room it needs is not there and the pipe has a reader).
    The counts of waiting readers and writers are those of the sleepers. *)
Theorem pipe_no_lost_wakeup page w0 w :
  fresh page w0 -> reachable true w0 w ->
  Forall (rightly_asleep (the_pipe w)) (queue w) /\
  waiting_readers (the_pipe w) = u32 (num_readers (queue w)) /\
  waiting_writers (the_pipe w) = u32 (num_writers (queue w)).
Proof. intros Hf Hr. destruct (reachable_ok _ _ _ _ Hf Hr) as [_ _ _ H1 H2 H]. auto. Qed.

(** A reader falls asleep on the empty pipe; a write wakes it up. *)
Definition world3 : world :=
  after_read world0 (queue world0) (RCall false 3 3 0 [])
    (pipe_read false false false 3 3 (the_pipe world0)).
Lemma world3_reachable : reachable true world0 world3.
Proof.
  eapply reach_step; [constructor|]. apply (step_read true world0 false false false 3 3); done.
Qed.
Lemma pipe_no_lost_wakeup_witness :
  queue world3 = [SReader (RCall false 3 3 0 []) false] /\
  Forall (rightly_asleep (the_pipe world3)) (queue world3).
Proof.
  split; [vm_compute; reflexivity|].
  exact (proj1 (pipe_no_lost_wakeup zero_page world0 world3 world0_fresh world3_reachable)).
Defined.

(** The verdict of a read of [count] bytes that finds [p]. *)
Definition read_verdict (nonblock : bool) (count : Z) (p : pipe_inode_info) : verdict :=
  let n := Z.min count (plen p) in
  if plen p =? 0 then
    if writers p =? 0 then Returned 0 else if nonblock then Returned (- EAGAIN) else Blocked
  else if (n <? count) && truth (waiting_writers p) && negb nonblock then
    if writers p =? 0 then Returned n else Blocked
  else Returned n.

Lemma read_loop_all p c : pipe_ok p -> rcall_ok c -> r_out c = [] -> r_count c <= r_room c ->
  let n := Z.min (r_count c) (plen p) in
  exists p' c', read_loop 3 p c = Some (true, p', c') /\ took p c p' c' /\
    r_out c' = take (Z.to_nat n) (contents p) /\ contents p' = drop (Z.to_nat n) (contents p) /\
    r_read c' = n /\ r_count c' = r_count c - n /\ plen p' = plen p - n.
Proof.
  intros Hp Hc Ho Hroom n.
  destruct (read_loop_spec 3 p c Hp Hc) as (ok & p' & c' & -> & Ht & Hend); [by left|].
  pose proof Hc as (Hc1 & Hc2 & Hc3 & Hc4). rewrite Ho in Hc4. unfold len in Hc4. cbn in Hc4.
  destruct ok; [|lia]. exists p', c'. split; [done|]. split; [done|].
  destruct Ht as [H1 (K1 & K2 & K3 & K4) H3 H4 H5 H6 (d & H7 & H8)].
  rewrite Ho in H8. cbn in H8. rewrite H8 in *.
  pose proof (len_contents p Hp) as L. pose proof (len_contents p' H1) as L'.
  destruct Hp as [_ Hl _ _ _]. destruct H1 as [_ Hl' _ _ _].
  rewrite H7, len_app in L. assert (len d = n) as Hd by lia.
  rewrite <- Hd, H7. unfold len at 1 2. rewrite Nat2Z.id, take_app_length, drop_app_length.
  split_and!; try done; lia.
Qed.

(** A read from the start of the call, exactly: it gives the user the first
    [min(count, PIPE_LEN)] bytes of the pipe and removes them; on an empty pipe it returns 0 when
    there is no writer, -EAGAIN when it may not block, and sleeps otherwise; it goes on waiting
    after a short read only when there are writers waiting for the room. It never hits BUG() and
    its loop ends. *)
Theorem pipe_read_exact p nonblock room count :
  pipe_ok p -> 0 < count < 2 ^ 31 -> count <= room ->
  let r := pipe_read false false nonblock room count p in
  let n := Z.to_nat (Z.min count (plen p)) in
  r_out (res_call r) = take n (contents p) /\
  contents (res_pipe r) = drop n (contents p) /\
  res_verdict r = read_verdict nonblock count p.
Proof.
  intros Hp Hn Hroom. cbv zeta. unfold pipe_read, read_verdict.
  rewrite (proj2 (Z.eqb_neq count 0)) by lia. unfold PIPE_EMPTY. set (c := RCall _ _ _ _ _).
  pose proof Hp as [_ Hl _ _ _].
  destruct (Z.eqb_spec (plen p) 0) as [E|E].
  { unfold do_more_read. assert (contents p = []) as -> by (unfold contents; by rewrite E).
    rewrite take_nil, drop_nil. assert (forall ct, ct = [] -> ct = drop 0 (@nil Z)) by done.
    unfold truth. repeat case_cmp; cbn [negb]; try destruct nonblock; cbn;
      split_and!; try done; unfold contents; cbn; by rewrite E. }
  assert (rcall_ok c) as Hc by (unfold rcall_ok, len; cbn; lia).
  destruct (read_loop_all p c Hp Hc eq_refl Hroom) as (p' & c' & Hrun & Ht & Ho & Hct & Hr & Hcnt & Hpl).
  cbn [r_count c] in *. unfold read_available. rewrite Hrun.
  set (p2 := if negb _ then _ else _).
  assert (contents p2 = contents p' /\ plen p2 = plen p' /\ writers p2 = writers p /\
          waiting_writers p2 = waiting_writers p) as (C1 & C2 & C3 & C4).
  { pose proof (took_ends _ _ _ _ Ht) as (_ & ? & _ & ? & _).
    unfold p2. destruct (truth (plen p')) eqn:Ez; [done|]. apply truth_false in Ez.
    cbn. split_and!; try done. unfold contents. cbn. by rewrite Ez. }
  clearbody p2. rewrite C4, (took_nonblock _ _ _ _ Ht). cbn [r_nonblock c].
  assert (truth (r_count c') = (Z.min count (plen p) <? count)) as ->.
  { unfold truth. rewrite Hcnt. repeat case_cmp; (done || lia). }
  assert (truth (r_read c') = true) as Hrd by (apply truth_spec; lia).
  destruct (_ && _ && negb nonblock) eqn:Eb.
  - bool_hyps. subst nonblock. unfold PIPE_EMPTY. rewrite (proj2 (Z.eqb_eq (plen p2) 0)) by lia. cbn [negb].
    unfold do_more_read. rewrite C3. change (truth (writers p)) with (negb (writers p =? 0)). rewrite (took_nonblock _ _ _ _ Ht). cbn [c r_nonblock].
    case_cmp; cbn [negb read_out read_sleep res_call res_pipe res_verdict].
    + rewrite Hrd. split_and!; congruence.
    + split_and!; [congruence|by rewrite <- Hct, <- C1|done].
  - cbn. rewrite Hrd. split_and!; congruence.
Qed.

Lemma pipe_read_exact_witness :
  let p := the_pipe world1 in
  let r := pipe_read false false false 3 3 p in
  pipe_ok p /\ res_verdict r = Returned 3 /\ r_out (res_call r) = take 3 (contents p).
Proof.
  assert (pipe_ok (the_pipe world1)) as H.
  { split; vm_compute; repeat split; discriminate. }
  split; [exact H|]. split; [vm_compute; reflexivity|].
  exact (proj1 (pipe_read_exact (the_pipe world1) false 3 3 H ltac:(lia) ltac:(lia))).
Defined.

(** An atomic write: everything is appended in one piece, or nothing is and the call has failed or
    sleeps before its first byte. *)
Definition all_or_nothing (p : pipe_inode_info) (buf : list Z) (count : Z) (r : result wcall)
    : Prop :=
  res_verdict r = Returned count /\
    contents (res_pipe r) = contents p ++ take (Z.to_nat count) buf \/
  contents (res_pipe r) = contents p /\
    ((exists e, res_verdict r = Returned e /\ e < 0) \/
     res_verdict r = Blocked /\ w_count (res_call r) = count /\ w_buf (res_call r) = buf /\
       w_written (res_call r) = 0 /\ w_phase (res_call r) = WaitSpace).

Section Atomic.
Context (p : pipe_inode_info) (buf : list Z) (count : Z).
Hypothesis Hp : pipe_ok p.
Hypothesis Hcount : 0 < count <= PIPE_BUF.
Hypothesis Hbuf : count <= len buf.

Lemma write_available_atomic nonblock ph :
  count <= PIPE_SIZE - plen p ->
  let r := write_available p (WCall nonblock buf count 0 ph) in
  res_verdict r = Returned count /\
  contents (res_pipe r) = contents p ++ take (Z.to_nat count) buf.
Proof.
  intros Hroom. unfold write_available. set (c := WCall _ _ _ _ _).
  assert (wcall_ok c) as Hc by (unfold wcall_ok, PIPE_BUF in *; cbn; lia).
  destruct (write_loop_spec 3 p c Hp Hc) as (st & p' & c' & -> & Hg & Hend); [by left|].
  pose proof (gave_plen p c p' c' Hp ltac:(done) Hg) as Hpl.
  pose proof (gave_count _ _ _ _ Hg) as Ht. pose proof (gave_data _ _ _ _ Hg) as Hd.
  cbn in Hpl, Ht, Hd, Hend. destruct st; [|lia|lia].
  assert (w_written c' = count) as Hw by lia. rewrite Hw, Z.sub_0_r in Hd.
  cbn. rewrite (proj2 (truth_spec _)) by lia. by rewrite Hw, Hd.
Qed.

Lemma write_failed c e wake : w_written c = 0 -> e < 0 ->
  all_or_nothing p buf count (write_out p c e wake).
Proof.
  intros Hw He. right. split; [done|]. left. exists e. split; [|done]. cbn. by rewrite Hw.
Qed.

Lemma wait_space_atomic :
  all_or_nothing p buf count (wait_space p (WCall false buf count 0 WaitSpace)).
Proof.
  unfold wait_space, needed. rewrite (pipe_free p Hp). cbn [w_count].
  rewrite (proj2 (Z.leb_le count PIPE_BUF)) by lia. case_cmp.
  - right. split; [done|]. by right.
  - left. apply write_available_atomic. lia.
Qed.

Lemma sigpipe_atomic nonblock ph ret :
  all_or_nothing p buf count (sigpipe p (WCall nonblock buf count 0 ph) ret).
Proof. right. split; [done|]. left. by exists (- EPIPE). Qed.
End Atomic.

(** Writes of at most PIPE_BUF bytes are atomic: in every critical section of the call, from
    its start or after a sleep, the whole buffer is appended in one piece and the call returns
    [count], or nothing is appended. With a reader and enough room, the write succeeds at once. *)
Theorem pipe_write_atomic p buf count nonblock signal :
  pipe_ok p -> 0 < count <= PIPE_BUF -> count <= len buf ->
  all_or_nothing p buf count (pipe_write false false nonblock buf count p) /\
  all_or_nothing p buf count (write_resume signal p (WCall false buf count 0 WaitSpace)) /\
  (readers p <> 0 -> count <= PIPE_SIZE - plen p ->
   res_verdict (pipe_write false false nonblock buf count p) = Returned count).
Proof.
  intros Hp Hcount Hbuf. unfold pipe_write, write_resume.
  rewrite (proj2 (Z.eqb_neq count 0)) by lia. cbn [w_phase].
  assert (pipe_ok (p <| waiting_writers := u32 (waiting_writers p - 1) |>)) as Hq
    by (destruct Hp; by split).
  split_and!.
  - destruct (truth (readers p)); cbn [negb]; [|apply sigpipe_atomic].
    destruct nonblock; [|by apply wait_space_atomic].
    unfold needed. rewrite (pipe_free p Hp), (proj2 (Z.leb_le count PIPE_BUF)) by lia.
    case_cmp; [by apply write_failed|left; apply write_available_atomic; (done || lia)].
  - change (all_or_nothing p) with
      (all_or_nothing (p <| waiting_writers := u32 (waiting_writers p - 1) |>)).
    destruct signal; [by apply write_failed|].
    destruct (truth _); cbn [negb]; [|apply sigpipe_atomic]. by apply wait_space_atomic.
  - intros Hr Hroom. rewrite (proj2 (truth_spec _) Hr). cbn [negb]. unfold wait_space, needed.
    rewrite (pipe_free p Hp). cbn [w_count]. rewrite (proj2 (Z.leb_le count PIPE_BUF)) by lia.
    rewrite (proj2 (Z.ltb_ge _ _)) by lia.
    destruct nonblock; by apply write_available_atomic.
Qed.

Lemma pipe_write_atomic_witness :
  let p := the_pipe world2 in
  pipe_ok p /\ all_or_nothing p [1; 2; 3] 3 (pipe_write false false true [1; 2; 3] 3 p).
Proof.
  assert (pipe_ok (the_pipe world2)) as H.
  { split; vm_compute; repeat split; discriminate. }
  split; [exact H|].
  exact (proj1 (pipe_write_atomic (the_pipe world2) [1; 2; 3] 3 true false H
    ltac:(unfold PIPE_BUF; lia) ltac:(done))).
Defined.

(** ** A wake-up that is lost *)

(** The run: the pipe is filled, 1000 bytes are read and written again, so that the contents wrap
    around the end of the page; another writer then sleeps for room; and a reader asks for 4000
    bytes with a buffer of which only 3500 are accessible. *)
Definition run_write (w : world) (n : Z) : world :=
  let buf := replicate (Z.to_nat n) 7 in
  after_write w (queue w) (WCall false buf n 0 WaitSpace)
    (pipe_write false false false buf n (the_pipe w)).
Definition run_read (w : world) (room n : Z) : world :=
  after_read w (queue w) (RCall false room n 0 [])
    (pipe_read false false false room n (the_pipe w)).
Definition faulty_run : world :=
  run_read (run_write (run_write (run_read (run_write world0 4096) 1000 1000) 1000) 1) 3500 4000.

Lemma run_write_reaches w0 w n :
  reachable false w0 w -> 0 <= n < 2 ^ 31 -> reachable false w0 (run_write w n).
Proof. intros Hw Hn. eapply reach_step; [exact Hw|]. by apply step_write. Qed.
Lemma run_read_reaches w0 w room n :
  reachable false w0 w -> 0 <= n < 2 ^ 31 -> reachable false w0 (run_read w room n).
Proof. intros Hw Hn. eapply reach_step; [exact Hw|]. by apply step_read. Qed.

(** The wake-up of [pipe_read] is skipped when the second of its two copies faults: the reader has
    taken 3096 bytes, a writer sleeps for the room of one byte, and nobody wakes it up. *)
Theorem pipe_lost_wakeup_on_fault :
  reachable false world0 faulty_run /\
  PIPE_FREE (the_pipe faulty_run) = 3096 /\
  queue faulty_run = [SWriter (WCall false [7] 1 0 WaitSpace) false].
Proof.
  split; [|split; vm_compute; reflexivity].
  unfold faulty_run. apply run_read_reaches; [|done]. do 2 (apply run_write_reaches; [|done]).
  apply run_read_reaches; [|done]. apply run_write_reaches; [|done]. constructor.
Qed.

(** [do_pipe] returns the two descriptors and a pipe, or an error after giving back everything it
    had taken. *)
Theorem do_pipe_no_leak f1 f2 pipe fd1 fd2 dentry :
  let '(ret, held, out) := do_pipe f1 f2 pipe fd1 fd2 dentry in
  ret < 0 /\ held = [] /\ out = None \/
  ret = 0 /\ (exists p, pipe = Some p /\ out = Some (fd1, fd2, p)) /\
    held = [Dentry; Fd fd2; Fd fd1; PipeMem; Inode; Filp 2; Filp 1].
Proof.
  unfold do_pipe, close_f12_inode_i_j, close_f12_inode_i, close_f12_inode, close_f12, close_f1,
    no_files, put.
  destruct f1, f2; [|by left..]. destruct pipe as [p|]; [|by left].
  case_cmp; [by left|]. case_cmp; [|destruct dentry].
  1, 3: left; split_and!; [done| |done]; repeat (rewrite filter_cons; case_decide; try done).
  right. split_and!; try done. by exists p.
Qed.
