(* ===== verification/Buddy.v ===== *)
(** The page allocator (mm/page_alloc.c, include/linux/mmzone.h): the buddy system of one zone.

    Pages are named by their index in [zone_mem_map]. A zone has a list of free blocks and a bitmap
    for each order; the bitmap has one bit for each pair of blocks. *)
From S2P Require Import Prelude.

(** ** Data *)
Definition MAX_ORDER : Z := 10.

(** The fields of [struct page] that the allocator looks at. *)
Record page := Page {
  PageLRU : bool; buffers : bool; mapping : bool; PageLocked : bool; PageActive : bool;
  PageReferenced : bool; PageDirty : bool; PageReserved : bool;
  page_count : Z; page_index : Z }.
#[global] Instance page_fields : Fields page := fun p =>
  Page (PageLRU p) (buffers p) (mapping p) (PageLocked p) (PageActive p) (PageReferenced p)
    (PageDirty p) (PageReserved p) (page_count p) (page_index p).

(** [free_list z o] is [free_area[o].free_list], first entry first; [(o, k)] is in [map] when bit
    [k] of [free_area[o].map] is set. *)
Record zone := Zone {
  size : Z; free_pages : Z;
  free_list : Z -> list Z;
  map : gset (Z * Z) }.
#[global] Instance zone_fields : Fields zone := fun z =>
  Zone (size z) (free_pages z) (free_list z) (map z).

(** The zone, its pages, the counts of pages on the LRU lists, and what the running task keeps for
    itself: the flag PF_FREE_PAGES and its list of local pages. *)
Record memory := Memory {
  the_zone : zone; mem_map : Z -> page;
  nr_active_pages : Z; nr_inactive_pages : Z;
  PF_FREE_PAGES : bool; in_interrupt : bool;
  local_pages : list Z; nr_local_pages : Z }.
#[global] Instance memory_fields : Fields memory := fun m =>
  Memory (the_zone m) (mem_map m) (nr_active_pages m) (nr_inactive_pages m) (PF_FREE_PAGES m)
    (in_interrupt m) (local_pages m) (nr_local_pages m).

Definition set_page (i : Z) (f : page -> page) (m : memory) : memory :=
  m <| mem_map := fun j => if j =? i then f (mem_map m i) else mem_map m j |>.

(** The debugging check; a page of the model is one of this zone when its index is in range. *)
Definition BAD_RANGE (z : zone) (i : Z) : bool := (size z <=? i) || (i <? 0).

Definition VALID_PAGE (z : zone) (i : Z) : bool := i <? size z.

(** ** Lists and bits *)
Definition set_list (o : Z) (l : list Z) (z : zone) : zone :=
  z <| free_list := fun o' => if o' =? o then l else free_list z o' |>.

Definition list_add (i o : Z) (z : zone) : zone := set_list o (i :: free_list z o) z.

Definition orders : list Z := [0; 1; 2; 3; 4; 5; 6; 7; 8; 9].

(** [list_del(&page->list)]: the entry leaves the list it is on. On a page that is on no list the
    code would write through stray pointers; that is [Bug] here. *)
Definition list_del (i : Z) (z : zone) : outcome zone :=
  match filter (fun o => i ∈ free_list z o) orders with
  | o :: _ => Ok (set_list o (filter (fun j => j <> i) (free_list z o)) z)
  | [] => Bug
  end.

Definition change_bit (o k : Z) (z : zone) : zone :=
  z <| map := if bool_decide ((o, k) ∈ map z) then map z ∖ {[(o, k)]} else map z ∪ {[(o, k)]} |>.

Definition MARK_USED (index order : Z) (z : zone) : zone :=
  change_bit order (index .>> (1 + order)) z.

(** ** Freeing *)

(** The loop with [n] areas from [area] to the last: [area >= free_area + MAX_ORDER] is [n = 0]. *)
Fixpoint free_loop (n : nat) (z : zone) (page_idx mask index : Z) : outcome (zone * Z * Z) :=
  let area := MAX_ORDER - Z.of_nat n in
  if truth (u32 (mask + (1 .<< (MAX_ORDER - 1)))) then
    match n with
    | O => Bug
    | S n =>
        let old := bool_decide ((area, index) ∈ map z) in
        let z := change_bit area index z in
        if negb old then Ok (z, page_idx, area)
        else
          let buddy1 := page_idx .^ u32 (- mask) in
          let buddy2 := page_idx in
          _ ← bug_on (BAD_RANGE z buddy1);
          _ ← bug_on (BAD_RANGE z buddy2);
          z ← list_del buddy1 z;
          let mask := u32 (mask .<< 1) in
          free_loop n z (page_idx .& mask) mask (index .>> 1)
    end
  else Ok (z, page_idx, area).

(** [back_local_freelist] *)
Definition free_to_zone (page_idx order : Z) (z : zone) : outcome zone :=
  let mask := u32 (4294967295 .<< order) in
  _ ← bug_on (truth (page_idx .& Z.lnot mask));
  let index := page_idx .>> (1 + order) in
  let z := z <| free_pages := u32 (free_pages z - mask) |> in
  '(z, page_idx, area) ← free_loop (Z.to_nat (MAX_ORDER - order)) z page_idx mask index;
  Ok (list_add page_idx area z).

(** [lru_cache_del] (mm/swap.c) *)
Definition lru_cache_del (i : Z) (m : memory) : memory :=
  if PageLRU (mem_map m i) then
    let m := set_page i (fun p => p <| PageLRU := false |>) m in
    if PageActive (mem_map m i) then
      let m := set_page i (fun p => p <| PageActive := false |>) m in
      m <| nr_active_pages := nr_active_pages m - 1 |>
    else m <| nr_inactive_pages := nr_inactive_pages m - 1 |>
  else m.

Definition __free_pages_ok (i order : Z) (m : memory) : outcome memory :=
  let m := if PageLRU (mem_map m i) then lru_cache_del i m else m in
  _ ← bug_on (buffers (mem_map m i));
  _ ← bug_on (mapping (mem_map m i));
  _ ← bug_on (negb (VALID_PAGE (the_zone m) i));
  _ ← bug_on (PageLocked (mem_map m i));
  _ ← bug_on (PageActive (mem_map m i));
  let m := set_page i (fun p => p <| PageReferenced := false |> <| PageDirty := false |>) m in
  if PF_FREE_PAGES m && negb (truth (nr_local_pages m)) && negb (in_interrupt m) then
    let m := m <| local_pages := i :: local_pages m |> in
    let m := set_page i (fun p => p <| page_index := order |>) m in
    Ok (m <| nr_local_pages := nr_local_pages m + 1 |>)
  else
    z ← free_to_zone i order (the_zone m);
    Ok (m <| the_zone := z |>).

(** [__free_pages]: [put_page_testzero] drops a reference and tells whether it was the last. *)
Definition __free_pages (i order : Z) (m : memory) : outcome memory :=
  if PageReserved (mem_map m i) then Ok m
  else
    let m := set_page i (fun p => p <| page_count := s32 (page_count p - 1) |>) m in
    if page_count (mem_map m i) =? 0 then __free_pages_ok i order m else Ok m.

(** ** Allocating *)

(** The loop [while (high > low)], [n] rounds of it. *)
Fixpoint expand (n : nat) (z : zone) (page index high size : Z) : outcome (zone * Z) :=
  match n with
  | O => _ ← bug_on (BAD_RANGE z page); Ok (z, page)
  | S n =>
      _ ← bug_on (BAD_RANGE z page);
      let high := high - 1 in
      let size := size .>> 1 in
      let z := list_add page high z in
      let z := MARK_USED index high z in
      expand n z (page + size) (index + size) high size
  end.

(** The loop over the areas from [curr_order] on, [n] of them. *)
Fixpoint rmqueue_loop (n : nat) (z : zone) (order : Z) : outcome (zone * option Z) :=
  match n with
  | O => Ok (z, None)
  | S n =>
      let curr_order := MAX_ORDER - Z.of_nat (S n) in
      match free_list z curr_order with
      | page :: _ =>
          _ ← bug_on (BAD_RANGE z page);
          z ← list_del page z;
          let index := page in
          let z := if negb (curr_order =? MAX_ORDER - 1) then MARK_USED index curr_order z else z in
          let z := z <| free_pages := u32 (free_pages z - (1 .<< order)) |> in
          '(z, page) ← expand (Z.to_nat (curr_order - order)) z page index curr_order
                         (1 .<< curr_order);
          Ok (z, Some page)
      | [] => rmqueue_loop n z order
      end
  end.

(** [rmqueue] for an order below MAX_ORDER. *)
Definition rmqueue (order : Z) (m : memory) : outcome (memory * option Z) :=
  '(z, page) ← rmqueue_loop (Z.to_nat (MAX_ORDER - order)) (the_zone m) order;
  let m := m <| the_zone := z |> in
  match page with
  | None => Ok (m, None)
  | Some i =>
      let m := set_page i (fun p => p <| page_count := 1 |>) m in
      _ ← bug_on (BAD_RANGE z i);
      _ ← bug_on (PageLRU (mem_map m i));
      _ ← bug_on (PageActive (mem_map m i));
      Ok (m, Some i)
  end.

(** ** The invariant *)

(** A block is its first page and its order. *)
Definition block : Type := Z * Z.
Definition last_of (b : block) : Z := fst b + 2 ^ snd b.
Definition inside (x : Z) (b : block) : Prop := fst b <= x < last_of b.
Definition apart (b c : block) : Prop := last_of b <= fst c \/ last_of c <= fst b.
Definition fits (n : Z) (b : block) : Prop :=
  0 <= snd b < MAX_ORDER /\ 0 <= fst b /\ fst b mod 2 ^ snd b = 0 /\ last_of b <= n.
Definition is_free (z : zone) (b : block) : Prop := fst b ∈ free_list z (snd b).

(** The buddy of a block, its pair, and the two blocks of a pair. *)
Definition buddy (b : block) : block := (fst b .^ 2 ^ snd b, snd b).
Definition pair_of (b : block) : Z * Z := (snd b, fst b / 2 ^ (snd b + 1)).
Definition left_of (o k : Z) : block := (2 * k * 2 ^ o, o).
Definition right_of (o k : Z) : block := ((2 * k + 1) * 2 ^ o, o).

(** [inv z A]: the blocks of the free lists and the allocated blocks [A] are aligned and cover the
    zone without overlap; a bit of the map tells whether one block of its pair is on the free
    list, and never are both. *)
Record inv (z : zone) (A : gset block) : Prop := {
  inv_nodup o : NoDup (free_list z o);
  inv_fits b : is_free z b \/ b ∈ A -> fits (size z) b;
  inv_free b c : is_free z b -> is_free z c -> b <> c -> apart b c;
  inv_mixed b c : is_free z b -> c ∈ A -> apart b c;
  inv_alloc b c : b ∈ A -> c ∈ A -> b <> c -> apart b c;
  inv_cover x : 0 <= x < size z -> exists b, (is_free z b \/ b ∈ A) /\ inside x b;
  inv_bits o k : 0 <= o < MAX_ORDER - 1 ->
    (o, k) ∈ map z <-> is_free z (left_of o k) \/ is_free z (right_of o k);
  inv_pairs o k : 0 <= o < MAX_ORDER - 1 ->
    ~ (is_free z (left_of o k) /\ is_free z (right_of o k)) }.

(** The pages on the free lists. *)
Definition free_count (z : zone) : Z :=
  foldr (fun o n => 2 ^ o * Z.of_nat (length (free_list z o)) + n) 0 orders.

(** ** Blocks *)
Lemma pow2_pos o : 0 <= o -> 0 < 2 ^ o.
Proof. intros. apply Z.pow_pos_nonneg; lia. Qed.
Lemma pow2_S o : 0 <= o -> 2 ^ (o + 1) = 2 * 2 ^ o.
Proof. intros. rewrite Z.pow_add_r by lia. lia. Qed.

Lemma inside_head b : 0 <= snd b -> inside (fst b) b.
Proof. intros. pose proof (pow2_pos (snd b)). unfold inside, last_of. lia. Qed.

Lemma apart_sym b c : apart b c -> apart c b.
Proof. unfold apart. tauto. Qed.

Lemma apart_no_page b c x : apart b c -> inside x b -> inside x c -> False.
Proof. unfold apart, inside. lia. Qed.

Lemma no_page_apart b c : 0 <= snd b -> 0 <= snd c ->
  (forall x, inside x b -> inside x c -> False) -> apart b c.
Proof.
  intros Hb Hc H. unfold apart. pose proof (pow2_pos (snd b) Hb). pose proof (pow2_pos (snd c) Hc).
  destruct (Z_le_gt_dec (last_of b) (fst c)); [by left|].
  destruct (Z_le_gt_dec (last_of c) (fst b)); [by right|].
  destruct (H (Z.max (fst b) (fst c))); unfold inside, last_of in *; lia.
Qed.

Lemma apart_irrefl b : 0 <= snd b -> ~ apart b b.
Proof. intros Hb H. eapply apart_no_page; [done|by apply inside_head..]. Qed.

(** An aligned block is the left or the right one of its pair. *)
Lemma block_side b : 0 <= snd b -> fst b mod 2 ^ snd b = 0 ->
  exists k, pair_of b = (snd b, k) /\ (b = left_of (snd b) k \/ b = right_of (snd b) k).
Proof.
  intros Ho Hm. destruct b as [i o]. unfold pair_of, left_of, right_of in *. cbn in *.
  pose proof (pow2_pos o Ho). exists (i / 2 ^ (o + 1)). split; [done|].
  rewrite pow2_S by done. apply Z.mod_divide in Hm as [m ->]; [|lia].
  replace (m * 2 ^ o / (2 * 2 ^ o)) with (m / 2) by (rewrite Z.div_mul_cancel_r; lia).
  destruct (Z.eq_dec (m mod 2) 0).
  - left. do 2 f_equal. dm.
  - right. do 2 f_equal. dm.
Qed.

Lemma pair_left o k : 0 <= o -> pair_of (left_of o k) = (o, k).
Proof.
  intros Ho. unfold pair_of, left_of. cbn. f_equal. rewrite pow2_S by done.
  pose proof (pow2_pos o Ho).
  replace (2 * k * 2 ^ o) with (k * (2 * 2 ^ o)) by lia. apply Z.div_mul. lia.
Qed.
Lemma pair_right o k : 0 <= o -> pair_of (right_of o k) = (o, k).
Proof.
  intros Ho. unfold pair_of, right_of. cbn. f_equal. rewrite pow2_S by done.
  pose proof (pow2_pos o Ho). symmetry. apply (Z.div_unique _ _ _ (2 ^ o)); lia.
Qed.

Lemma lxor_even k : 0 <= k -> (2 * k) .^ 1 = 2 * k + 1.
Proof. by destruct k. Qed.
Lemma lxor_odd k : 0 <= k -> (2 * k + 1) .^ 1 = 2 * k.
Proof. by destruct k. Qed.
Lemma lxor_scale m o : 0 <= o -> (m * 2 ^ o) .^ 2 ^ o = (m .^ 1) * 2 ^ o.
Proof.
  intros Ho. rewrite <- (Z.mul_1_l (2 ^ o)) at 2.
  by rewrite <- !Z.shiftl_mul_pow2, Z.shiftl_lxor by done.
Qed.

Lemma buddy_left o k : 0 <= o -> 0 <= k -> buddy (left_of o k) = right_of o k.
Proof. intros. unfold buddy, left_of, right_of. cbn. by rewrite lxor_scale, lxor_even. Qed.
Lemma buddy_right o k : 0 <= o -> 0 <= k -> buddy (right_of o k) = left_of o k.
Proof. intros. unfold buddy, left_of, right_of. cbn. by rewrite lxor_scale, lxor_odd. Qed.
Lemma left_right o k : 0 <= o -> left_of o k <> right_of o k.
Proof. intros Ho [=H]. pose proof (pow2_pos o Ho). nia. Qed.

Lemma buddy_other b o k : b = left_of o k \/ b = right_of o k -> 0 <= o -> 0 <= fst b ->
  b = left_of o k /\ buddy b = right_of o k \/ b = right_of o k /\ buddy b = left_of o k.
Proof.
  intros Hb Ho Hi. pose proof (pow2_pos o Ho).
  destruct Hb as [-> | ->]; cbn in Hi.
  - left. split; [done|]. apply buddy_left; [done|nia].
  - right. split; [done|]. apply buddy_right; [done|nia].
Qed.

(** ** Moving blocks between the lists and the allocated set *)

(** The map after the bit of the pair of [b] is inverted; the last order has no bits. *)
Definition bits_after (z z' : zone) (b : block) : Prop := forall p,
  p ∈ map z' <-> if decide (p = pair_of b /\ snd b < MAX_ORDER - 1) then p ∉ map z else p ∈ map z.

Section Moves.
Context {z z' : zone} {A : gset block} {b : block}.
Hypothesis Hsize : size z' = size z.
Hypothesis Hnodup : forall o, NoDup (free_list z' o).
Hypothesis Hbits : bits_after z z' b.

(** The side conditions on a pair of another block, or of the block itself. *)
Lemma bits_other o k : b <> left_of o k -> b <> right_of o k ->
  0 <= snd b -> fst b mod 2 ^ snd b = 0 -> (o, k) ∈ map z' <-> (o, k) ∈ map z.
Proof.
  intros H1 H2 Ho Hm. rewrite (Hbits (o, k)). case_decide as Hd; [|done].
  destruct Hd as [Hd _]. destruct (block_side b Ho Hm) as (k' & Hk & [Hb|Hb]);
    rewrite Hk in Hd; simplify_eq; done.
Qed.

Lemma bits_own o k : b = left_of o k \/ b = right_of o k -> 0 <= o < MAX_ORDER - 1 ->
  (o, k) ∈ map z' <-> (o, k) ∉ map z.
Proof.
  intros Hb Ho. rewrite (Hbits (o, k)). case_decide as Hd; [done|].
  destruct Hd. destruct Hb as [->| ->]; [rewrite pair_left by lia|rewrite pair_right by lia];
    (split; [done|cbn; lia]).
Qed.

(** An allocated block goes on its free list; its buddy is not free. *)
Lemma inv_add :
  inv z ({[b]} ∪ A) -> b ∉ A ->
  (forall c, is_free z' c <-> c = b \/ is_free z c) ->
  (snd b < MAX_ORDER - 1 -> ~ is_free z (buddy b)) -> inv z' A.
Proof.
  intros [I1 I2 I3 I4 I5 I6 I7 I8] HA Hfree Hbud.
  assert (fits (size z) b) as (Ho & Hi & Hm & _) by (apply I2; set_solver).
  assert (~ is_free z b) as Hnf.
  { intros H. apply (apart_irrefl b); [lia|]. apply I4; [done|set_solver]. }
  assert (forall c, is_free z c -> apart b c) as Hb.
  { intros c Hc. apply apart_sym, I4; [done|set_solver]. }
  split.
  - done.
  - intros c. rewrite Hfree, Hsize. intros H. apply I2. set_solver.
  - intros c d. rewrite !Hfree. intros [->|Hc] [->|Hd] Hne; [done|auto|apply apart_sym; auto|auto].
  - intros c d. rewrite Hfree. intros [->|Hc] Hd; [|apply I4; set_solver].
    apply I5; [set_solver..|]. intros ->. done.
  - intros c d Hc Hd. apply I5; set_solver.
  - intros x. rewrite Hsize. intros Hx. destruct (I6 x Hx) as (c & Hc & Hin). exists c.
    split; [|done]. rewrite Hfree. set_solver.
  - intros o k Hok. rewrite !Hfree.
    destruct (decide (b = left_of o k \/ b = right_of o k)) as [Hs|Hs].
    + rewrite bits_own by done. rewrite I7 by done.
      assert (snd b = o) as Eo by (by destruct Hs as [-> | ->]). rewrite Eo in Hbud.
      destruct (buddy_other b o k Hs ltac:(lia) Hi) as [[E1 E2]|[E1 E2]];
        rewrite E2 in Hbud; rewrite <- E1; naive_solver lia.
    + rewrite bits_other by (tauto || lia). rewrite I7 by done. naive_solver.
  - intros o k Hok. rewrite !Hfree. intros [Hl Hr].
    pose proof (left_right o k ltac:(lia)).
    destruct Hl as [Hl|Hl], Hr as [Hr|Hr].
    + congruence.
    + apply Hbud; [rewrite <- Hl; cbn; lia|]. 
      destruct (buddy_other b o k ltac:(auto) ltac:(lia) Hi) as [[_ ->]|[E _]]; [done|congruence].
    + apply Hbud; [rewrite <- Hr; cbn; lia|]. 
      destruct (buddy_other b o k ltac:(auto) ltac:(lia) Hi) as [[E _]|[_ ->]]; [congruence|done].
    + by apply (I8 o k).
Qed.

(** A free block leaves its list and is allocated. *)
Lemma inv_remove :
  inv z A -> is_free z b -> (forall c, is_free z' c <-> c <> b /\ is_free z c) ->
  inv z' ({[b]} ∪ A).
Proof.
  intros [I1 I2 I3 I4 I5 I6 I7 I8] Hb Hfree.
  assert (fits (size z) b) as (Ho & Hi & Hm & _) by auto.
  split.
  - done.
  - intros c. rewrite Hfree, Hsize. intros H. apply I2. set_solver.
  - intros c d. rewrite !Hfree. intros [? ?] [? ?] ?. auto.
  - intros c d. rewrite Hfree. intros [Hne Hc] Hd. apply elem_of_union in Hd as [Hd|Hd]; [|auto].
    apply elem_of_singleton in Hd as ->. auto.
  - intros c d Hc Hd Hne. apply elem_of_union in Hc as [Hc|Hc], Hd as [Hd|Hd];
      rewrite ?elem_of_singleton in *; subst; auto using apart_sym; done.
  - intros x. rewrite Hsize. intros Hx. destruct (I6 x Hx) as (c & Hc & Hin). exists c.
    split; [|done]. rewrite Hfree. destruct (decide (c = b)); set_solver.
  - intros o k Hok. rewrite !Hfree.
    destruct (decide (b = left_of o k \/ b = right_of o k)) as [Hs|Hs].
    + rewrite bits_own by done. rewrite I7 by done. pose proof (I8 o k Hok) as Hp.
      destruct Hs as [E|E]; rewrite <- E in *; tauto.
    + rewrite bits_other by (tauto || lia). rewrite I7 by done.
      assert (left_of o k <> b /\ right_of o k <> b) as [? ?] by (split; intros ?; subst; tauto).
      tauto.
  - intros o k Hok. rewrite !Hfree. intros [[_ Hl] [_ Hr]]. by apply (I8 o k).
Qed.
End Moves.

(** The allocated blocks may be cut differently, as long as they are the same pages. *)
Lemma inv_regroup z A B C :
  inv z (B ∪ A) -> B ## A ->
  (forall x c, c ∈ C -> inside x c -> exists b, b ∈ B /\ inside x b) ->
  (forall x b, b ∈ B -> inside x b -> exists c, c ∈ C /\ inside x c) ->
  (forall c, c ∈ C -> fits (size z) c) ->
  (forall c d, c ∈ C -> d ∈ C -> c <> d -> apart c d) ->
  inv z (C ∪ A).
Proof.
  intros [I1 I2 I3 I4 I5 I6 I7 I8] HBA HCB HBC HC Hap.
  assert (forall c d, c ∈ C -> (forall b, b ∈ B -> apart b d) -> 0 <= snd d -> apart c d) as Hcut.
  { intros c d Hc Hd Hd0. destruct (HC c Hc) as (? & _). apply no_page_apart; [lia|done|].
    intros x Hxc Hxd. destruct (HCB x c Hc Hxc) as (b & Hb & Hxb).
    eapply apart_no_page; [by apply (Hd b)|done..]. }
  split; try done.
  - intros b [Hb|Hb]; [auto|]. apply elem_of_union in Hb as [Hb|Hb]; [auto|]. apply I2. set_solver.
  - intros b c Hb Hc. apply elem_of_union in Hc as [Hc|Hc]; [|apply I4; set_solver].
    destruct (I2 b) as (? & _); [by left|]. apply apart_sym, Hcut; [done| |lia].
    intros d Hd. apply apart_sym, I4; set_solver.
  - assert (forall c a, c ∈ C -> a ∈ A -> apart c a) as Hca.
    { intros c a Hc Ha. destruct (I2 a) as (? & _); [set_solver|]. apply Hcut; [done| |lia].
      intros d Hd. apply I5; set_solver. }
    intros b c Hb Hc Hne. apply elem_of_union in Hb as [Hb|Hb], Hc as [Hc|Hc]; auto.
    + apply apart_sym. auto.
    + apply I5; set_solver.
  - intros x Hx. destruct (I6 x Hx) as (b & [Hb|Hb] & Hin); [by exists b; auto|].
    apply elem_of_union in Hb as [Hb|Hb]; [|exists b; set_solver].
    destruct (HBC x b Hb Hin) as (c & Hc & Hxc). exists c. set_solver.
Qed.

(** A block of order [o + 1] and its halves. *)
Definition lower (b : block) : block := (fst b, snd b - 1).
Definition upper (b : block) : block := (fst b + 2 ^ (snd b - 1), snd b - 1).

Lemma halves_fit n b : fits n b -> 0 < snd b -> fits n (lower b) /\ fits n (upper b).
Proof.
  intros (H1 & H2 & H3 & H4) Ho. destruct b as [i o]. unfold lower, upper, fits, last_of in *. cbn in *.
  pose proof (pow2_pos (o - 1) ltac:(lia)). pose proof (pow2_S (o - 1) ltac:(lia)) as E.
  rewrite Z.sub_add in E. rewrite E in *.
  apply Z.mod_divide in H3 as [m ->]; [|lia].
  split; (split; [lia|]; split; [nia|]; split; [|lia]).
  - replace (m * (2 * 2 ^ (o - 1))) with (2 * m * 2 ^ (o - 1)) by lia. apply Z.mod_mul. lia.
  - replace (m * (2 * 2 ^ (o - 1)) + 2 ^ (o - 1)) with ((2 * m + 1) * 2 ^ (o - 1)) by lia.
    apply Z.mod_mul. lia.
Qed.

Lemma halves_pages b x : 0 < snd b -> inside x b <-> inside x (lower b) \/ inside x (upper b).
Proof.
  intros Ho. destruct b as [i o]. unfold inside, lower, upper, last_of. cbn.
  pose proof (pow2_pos (o - 1) ltac:(cbn in Ho; lia)).
  pose proof (pow2_S (o - 1) ltac:(cbn in Ho; lia)) as E. rewrite Z.sub_add in E. lia.
Qed.

Lemma halves_apart b : 0 < snd b -> apart (lower b) (upper b).
Proof. intros. unfold apart, lower, upper, last_of. cbn. lia. Qed.
Lemma halves_ne b : 0 < snd b -> lower b <> upper b.
Proof. intros H [=E]. pose proof (pow2_pos (snd b - 1)). lia. Qed.

Lemma inv_split z A b : inv z ({[b]} ∪ A) -> b ∉ A -> 0 < snd b ->
  inv z ({[lower b; upper b]} ∪ A).
Proof.
  intros Hi Hb Ho. destruct (halves_fit (size z) b) as [F1 F2]; [|done|].
  { apply (inv_fits _ _ Hi). set_solver. }
  apply (inv_regroup z A {[b]}); [done|set_solver| | | |].
  - intros x c Hc Hx. exists b. split; [set_solver|]. apply halves_pages; [done|]. set_solver.
  - intros x c Hc Hx. apply elem_of_singleton in Hc as ->.
    rewrite halves_pages in Hx by done.
    destruct Hx as [Hx|Hx]; eexists; (split; [|exact Hx]); set_solver.
  - set_solver.
  - intros c d Hc Hd Hne. pose proof (halves_apart b Ho). pose proof (apart_sym _ _ H). set_solver.
Qed.

Lemma inv_merge z A b : inv z ({[lower b; upper b]} ∪ A) -> {[lower b; upper b]} ## A -> 0 < snd b ->
  fits (size z) b -> inv z ({[b]} ∪ A).
Proof.
  intros Hi Hb Ho Hf. apply (inv_regroup z A {[lower b; upper b]}); [done|done| | | |].
  - intros x c Hc Hx. apply elem_of_singleton in Hc as ->.
    rewrite halves_pages in Hx by done.
    destruct Hx as [Hx|Hx]; eexists; (split; [|exact Hx]); set_solver.
  - intros x c Hc Hx. exists b. split; [set_solver|]. apply halves_pages; [done|]. set_solver.
  - set_solver.
  - set_solver.
Qed.

(** ** The operations on lists and bits *)

Lemma is_free_set_list o l z c :
  is_free (set_list o l z) c <-> if decide (snd c = o) then fst c ∈ l else is_free z c.
Proof.
  unfold is_free, set_list. cbn. destruct (Z.eqb_spec (snd c) o); case_decide; done.
Qed.

Lemma is_free_add i o z c : is_free (list_add i o z) c <-> c = (i, o) \/ is_free z c.
Proof.
  unfold list_add. rewrite is_free_set_list. destruct c as [j o']. cbn. case_decide as E.
  - subst. rewrite elem_of_cons. unfold is_free. cbn. split; [intros [->|?]; auto|].
    intros [[=->]|?]; auto.
  - split; [auto|]. intros [[=]|?]; [done|done].
Qed.

Lemma nodup_add i o z : (forall o, NoDup (free_list z o)) -> ~ is_free z (i, o) ->
  forall o', NoDup (free_list (list_add i o z) o').
Proof.
  intros H Hi o'. unfold list_add, set_list. cbn. case_cmp; [|done]. constructor; [|done].
  exact Hi.
Qed.

Lemma orders_spec o : o ∈ orders <-> 0 <= o < MAX_ORDER.
Proof. unfold orders, MAX_ORDER. rewrite !elem_of_cons, elem_of_nil. lia. Qed.

(** The zone after [list_del] of a free block. *)
Definition dropped (b : block) (z : zone) : zone :=
  set_list (snd b) (filter (fun j => j <> fst b) (free_list z (snd b))) z.

Lemma list_del_spec z b : is_free z b -> 0 <= snd b < MAX_ORDER ->
  (forall o, is_free z (fst b, o) -> o = snd b) -> list_del (fst b) z = Ok (dropped b z).
Proof.
  intros Hb Ho Hu. unfold list_del, dropped.
  destruct (filter (fun o => fst b ∈ free_list z o) orders) as [|o l] eqn:E.
  - exfalso. assert (snd b ∈ filter (fun o => fst b ∈ free_list z o) orders) as H.
    { apply list_elem_of_filter. split; [done|]. by apply orders_spec. }
    rewrite E in H. by apply elem_of_nil in H.
  - assert (o ∈ filter (fun o => fst b ∈ free_list z o) orders) as H.
    { rewrite E. by left. }
    apply list_elem_of_filter in H as [H _]. by rewrite (Hu o H).
Qed.

Lemma is_free_dropped b z c : is_free (dropped b z) c <-> c <> b /\ is_free z c.
Proof.
  unfold dropped. rewrite is_free_set_list. destruct b as [i o], c as [j o']. cbn.
  case_decide as E; [subst|naive_solver].
  rewrite list_elem_of_filter. unfold is_free. cbn. naive_solver.
Qed.

Lemma nodup_dropped b z : (forall o, NoDup (free_list z o)) ->
  forall o, NoDup (free_list (dropped b z) o).
Proof.
  intros H o. unfold dropped, set_list. cbn. case_cmp; [|done]. by apply NoDup_filter.
Qed.

Lemma change_bit_after z b : snd b < MAX_ORDER - 1 ->
  bits_after z (change_bit (snd b) (fst b / 2 ^ (snd b + 1)) z) b.
Proof.
  intros Ho p. unfold change_bit, pair_of. cbn [map update].
  case_decide as Hd.
  - destruct Hd as [-> _]. case_bool_decide; set_solver.
  - assert (p <> (snd b, fst b / 2 ^ (snd b + 1))) by tauto. case_bool_decide; set_solver.
Qed.

(** Counting the free pages. *)
Lemma free_count_set o l z : 0 <= o < MAX_ORDER ->
  free_count (set_list o l z) =
  free_count z + 2 ^ o * (Z.of_nat (length l) - Z.of_nat (length (free_list z o))).
Proof.
  intros Ho. assert (o ∈ orders) as H by (by apply orders_spec).
  unfold free_count, orders in *. rewrite !elem_of_cons, elem_of_nil in H.
  destruct H as [->|[->|[->|[->|[->|[->|[->|[->|[->|[->|[]]]]]]]]]]]; cbn; lia.
Qed.

Lemma free_count_add i o z : 0 <= o < MAX_ORDER ->
  free_count (list_add i o z) = free_count z + 2 ^ o.
Proof. intros Ho. unfold list_add. rewrite free_count_set by done. cbn [length]. lia. Qed.

Lemma filter_ne_id (i : Z) (l : list Z) : i ∉ l -> filter (fun j => j <> i) l = l.
Proof.
  induction l as [|j l IH]; intros Hi; [done|]. apply not_elem_of_cons in Hi as [Hj Hi].
  rewrite filter_cons. case_decide; [by rewrite IH|done].
Qed.

Lemma length_filter_ne (i : Z) l : NoDup l -> i ∈ l ->
  S (length (filter (fun j => j <> i) l)) = length l.
Proof.
  induction l as [|j l IH]; intros Hn Hi; [by apply elem_of_nil in Hi|].
  apply NoDup_cons in Hn as [Hj Hn]. rewrite filter_cons. case_decide as E.
  - cbn. f_equal. apply IH; [done|]. apply elem_of_cons in Hi as [->|]; [done|done].
  - cbn. f_equal. subst.
    by rewrite filter_ne_id.
Qed.

Lemma free_count_dropped b z : 0 <= snd b < MAX_ORDER -> NoDup (free_list z (snd b)) ->
  is_free z b -> free_count (dropped b z) = free_count z - 2 ^ snd b.
Proof.
  intros Ho Hn Hb. unfold dropped. rewrite free_count_set by done.
  rewrite <- (length_filter_ne (fst b) (free_list z (snd b))) by done. lia.
Qed.

(** ** The steps of the algorithms *)

(** A free block starts where no other free block starts. *)
Lemma free_unique z A b o : inv z A -> is_free z b -> is_free z (fst b, o) -> o = snd b.
Proof.
  intros Hi Hb Hc. destruct (decide (o = snd b)) as [|Hne]; [done|]. exfalso.
  destruct (inv_fits _ _ Hi b) as ((? & _) & _); [by left|].
  destruct (inv_fits _ _ Hi (fst b, o)) as ((? & _) & _); [by left|].
  apply (apart_no_page b (fst b, o) (fst b)).
  - apply (inv_free _ _ Hi); [done..|]. destruct b. cbn in *. congruence.
  - by apply inside_head.
  - by apply (inside_head (fst b, o)).
Qed.

(** An allocated block is not free, and not part of another one. *)
Lemma taken_not_free z A b : inv z A -> b ∈ A -> ~ is_free z b.
Proof.
  intros Hi Hb Hf. destruct (inv_fits _ _ Hi b) as ((? & _) & _); [by right|].
  apply (apart_irrefl b); [done|]. by apply (inv_mixed _ _ Hi).
Qed.

(** The map of the order [o] is inverted at the pair of [b], unless it is the last order. *)
Definition toggled (b : block) (z : zone) : zone :=
  if snd b =? MAX_ORDER - 1 then z else change_bit (snd b) (fst b / 2 ^ (snd b + 1)) z.

Lemma toggled_after z b : 0 <= snd b < MAX_ORDER -> bits_after z (toggled b z) b.
Proof.
  intros Ho. unfold toggled. case_cmp; [|apply change_bit_after; lia].
  intros p. case_decide; [lia|done].
Qed.
Lemma toggled_keeps z b :
  size (toggled b z) = size z /\ free_list (toggled b z) = free_list z /\
  free_pages (toggled b z) = free_pages z /\ free_count (toggled b z) = free_count z.
Proof. unfold toggled. by case_cmp. Qed.

Lemma bits_after_ext z z1 z2 b : map z2 = map z1 -> bits_after z z1 b -> bits_after z z2 b.
Proof. intros E H p. rewrite E. apply H. Qed.

(** Taking a block off its list. *)
Lemma take_step z A b : inv z A -> is_free z b ->
  list_del (fst b) (toggled b z) = Ok (dropped b (toggled b z)) /\
  inv (dropped b (toggled b z)) ({[b]} ∪ A) /\
  free_count (dropped b (toggled b z)) = free_count z - 2 ^ snd b.
Proof.
  intros Hi Hb. destruct (inv_fits _ _ Hi b) as (Ho & _); [by left|].
  destruct (toggled_keeps z b) as (E1 & E2 & E3 & E4).
  assert (forall c, is_free (toggled b z) c <-> is_free z c) as Ef.
  { intros c. unfold is_free. by rewrite E2. }
  split; [|split].
  - apply list_del_spec; [by apply Ef|done|]. intros o. rewrite Ef. by apply (free_unique z A).
  - apply (inv_remove (z := z)); [done| | |done|done|].
    + apply nodup_dropped. rewrite E2. apply (inv_nodup _ _ Hi).
    + eapply bits_after_ext; [|by apply toggled_after]. done.
    + intros c. rewrite is_free_dropped, Ef. done.
  - rewrite free_count_dropped; [by rewrite E4|done| |by apply Ef].
    rewrite E2. apply (inv_nodup _ _ Hi).
Qed.

(** Putting a block on its list. *)
Lemma put_step z A b : inv z ({[b]} ∪ A) -> b ∉ A ->
  (snd b < MAX_ORDER - 1 -> ~ is_free z (buddy b)) ->
  inv (list_add (fst b) (snd b) (toggled b z)) A /\
  free_count (list_add (fst b) (snd b) (toggled b z)) = free_count z + 2 ^ snd b.
Proof.
  intros Hi Hb Hbud. destruct (inv_fits _ _ Hi b) as (Ho & _); [set_solver|].
  destruct (toggled_keeps z b) as (E1 & E2 & E3 & E4).
  assert (forall c, is_free (toggled b z) c <-> is_free z c) as Ef.
  { intros c. unfold is_free. by rewrite E2. }
  split; [|by rewrite free_count_add, E4].
  apply (inv_add (z := z) (b := b)); try done.
  - apply nodup_add; [rewrite E2; apply (inv_nodup _ _ Hi)|]. rewrite Ef, <- surjective_pairing.
    apply (taken_not_free z _ b Hi). set_solver.
  - eapply bits_after_ext; [|by apply toggled_after]. done.
  - intros c. rewrite is_free_add, Ef, <- surjective_pairing. done.
Qed.

(** ** The arithmetic of the masks *)

(** [(~0UL) << o] *)
Definition mask_of (o : Z) : Z := 2 ^ 32 - 2 ^ o.

Lemma order_cases o : 0 <= o < MAX_ORDER -> o ∈ orders.
Proof. by rewrite orders_spec. Qed.

(** A fact about all the orders, by looking at each. *)
Ltac each_order o :=
  match goal with
  | H : 0 <= o < MAX_ORDER |- _ =>
      let K := fresh in pose proof (order_cases o H) as K;
      unfold orders in K; rewrite !elem_of_cons, elem_of_nil in K;
      destruct K as [->|[->|[->|[->|[->|[->|[->|[->|[->|[->|[]]]]]]]]]]]
  end.

Lemma mask_init o : 0 <= o < MAX_ORDER -> u32 (4294967295 .<< o) = mask_of o.
Proof. intros Ho. by each_order o. Qed.

Lemma mask_goes_on o : 0 <= o < MAX_ORDER ->
  truth (u32 (mask_of o + (1 .<< (MAX_ORDER - 1)))) = negb (o =? MAX_ORDER - 1).
Proof. intros Ho. by each_order o. Qed.

Lemma mask_neg o : 0 <= o < MAX_ORDER -> u32 (- mask_of o) = 2 ^ o.
Proof. intros Ho. by each_order o. Qed.

Lemma mask_shift o : 0 <= o < MAX_ORDER - 1 -> u32 (mask_of o .<< 1) = mask_of (o + 1).
Proof. intros Ho. assert (0 <= o < MAX_ORDER) as Ho' by lia. by each_order o. Qed.

Lemma mask_land i o : 0 <= o <= 32 -> 0 <= i < 2 ^ 32 ->
  i .& mask_of o = i / 2 ^ o * 2 ^ o.
Proof.
  intros Ho Hi. unfold mask_of.
  replace (2 ^ 32 - 2 ^ o) with (Z.ones (32 - o) .<< o); cycle 1.
  { rewrite Z.shiftl_mul_pow2, Z.ones_equiv, Z.mul_pred_l, <- Z.pow_add_r by lia.
    by rewrite Z.sub_add. }
  rewrite <- Z.shiftr_div_pow2, <- Z.shiftl_mul_pow2 by lia.
  apply Z.bits_inj'. intros n Hn. rewrite Z.land_spec, !Z.shiftl_spec by lia.
  destruct (Z_lt_le_dec n o).
  - rewrite !(Z.testbit_neg_r _ (n - o)) by lia. by rewrite andb_false_r.
  - rewrite Z.shiftr_spec, Z.testbit_ones by lia. rewrite Z.sub_add.
    destruct (Z_lt_le_dec n 32).
    + rewrite (proj2 (Z.leb_le 0 (n - o))), (proj2 (Z.ltb_lt _ _)) by lia. apply andb_true_r.
    + rewrite (testbit_small i 32) by lia. done.
Qed.

Lemma mask_low i o : 0 <= o < MAX_ORDER -> 0 <= i < 2 ^ 32 -> i mod 2 ^ o = 0 ->
  truth (i .& Z.lnot (mask_of o)) = false.
Proof.
  intros Ho Hi Hm. unfold truth. apply negb_false_iff, Z.eqb_eq.
  assert (i .& mask_of o = i) as E.
  { rewrite mask_land by (unfold MAX_ORDER in *; lia). pose proof (pow2_pos o). dm. }
  rewrite <- E, <- Z.land_assoc, Z.land_lnot_diag. apply Z.land_0_r.
Qed.

(** ** Freeing a block *)

(** A block with its free buddy is a half of the block of the next order. *)
Definition parent (b : block) : block := (fst b / 2 ^ (snd b + 1) * 2 ^ (snd b + 1), snd b + 1).

Lemma parent_halves b : 0 <= snd b -> 0 <= fst b -> fst b mod 2 ^ snd b = 0 ->
  lower (parent b) = b /\ upper (parent b) = buddy b \/
  lower (parent b) = buddy b /\ upper (parent b) = b.
Proof.
  intros Ho Hi Hm. destruct (block_side b Ho Hm) as (k & Hk & Hs).
  assert (parent b = (k * 2 ^ (snd b + 1), snd b + 1)) as E.
  { unfold pair_of in Hk. injection Hk as Hk. unfold parent. by rewrite Hk. }
  rewrite E. unfold lower, upper. cbn. rewrite Z.add_simpl_r, pow2_S by done.
  destruct (buddy_other b (snd b) k Hs Ho Hi) as [[E1 E2]|[E1 E2]]; [left|right];
    rewrite E2; destruct b as [i o]; unfold left_of, right_of in *; cbn in *;
    injection E1 as E1; split; f_equal; lia.
Qed.

Lemma pair_buddy b : 0 <= snd b -> 0 <= fst b -> fst b mod 2 ^ snd b = 0 ->
  pair_of (buddy b) = pair_of b.
Proof.
  intros Ho Hi Hm. destruct (block_side b Ho Hm) as (k & Hk & Hs). rewrite Hk.
  destruct (buddy_other b (snd b) k Hs Ho Hi) as [[_ ->]|[_ ->]];
    [by apply pair_right|by apply pair_left].
Qed.

(** The bit of the pair of an allocated block tells whether its buddy is free. *)
Lemma bit_is_buddy z A b : inv z A -> b ∈ A -> snd b < MAX_ORDER - 1 ->
  pair_of b ∈ map z <-> is_free z (buddy b).
Proof.
  intros Hi Hb Hlast. destruct (inv_fits _ _ Hi b) as (Ho & Hf & Hm & _); [by right|].
  destruct (block_side b ltac:(lia) Hm) as (k & -> & Hs).
  rewrite (inv_bits _ _ Hi) by lia. pose proof (taken_not_free z A b Hi Hb) as Hn.
  destruct (buddy_other b (snd b) k Hs ltac:(lia) Hf) as [[E ->]|[E ->]]; rewrite <- E; tauto.
Qed.

(** One round of the loop: the free buddy leaves its list and the two make a larger block. *)
Lemma merge_step z A b : inv z ({[b]} ∪ A) -> b ∉ A -> snd b < MAX_ORDER - 1 ->
  is_free z (buddy b) ->
  let z' := dropped (buddy b) (toggled (buddy b) z) in
  list_del (fst (buddy b)) (toggled (buddy b) z) = Ok z' /\
  inv z' ({[parent b]} ∪ A) /\ (parent b ∉ A) /\
  free_count z' = free_count z - 2 ^ snd b.
Proof.
  intros Hi Hb Hlast Hfree z'.
  destruct (inv_fits _ _ Hi b) as (Ho & Hf & Hm & Hl); [set_solver|].
  destruct (take_step z _ (buddy b) Hi Hfree) as (H1 & H2 & H3).
  split; [done|]. assert (buddy b ∉ ({[b]} ∪ A : gset block)) as Hn.
  { intros H. by apply (taken_not_free _ _ _ Hi H). }
  destruct (inv_fits _ _ Hi (buddy b)) as (_ & Hf' & _ & Hl'); [by left|].
  assert ({[buddy b]} ∪ ({[b]} ∪ A) = {[lower (parent b); upper (parent b)]} ∪ A) as E.
  { destruct (parent_halves b) as [[-> ->]|[-> ->]]; try done; set_solver. }
  rewrite E in H2.
  assert (fits (size z) (parent b)) as Hfit.
  { pose proof (pow2_S (snd b) ltac:(lia)) as Ep. pose proof (pow2_pos (snd b) ltac:(lia)).
    assert (last_of (parent b) <= size z) as Hlast'.
    { pose proof (halves_pages (parent b)) as Hp. unfold last_of in *.
      destruct (parent_halves b) as [[E1 E2]|[E1 E2]]; try done; [lia| |];
      unfold upper, parent in *; cbn in *; rewrite Z.add_simpl_r in *;
      apply (f_equal fst) in E2; cbn in E2; lia. }
    unfold fits, parent in *. cbn. split; [lia|]. split; [|split; [apply Z.mod_mul; lia|done]].
    apply Z.mul_nonneg_nonneg; [apply Z.div_pos; lia|lia]. }
  assert (inv z' ({[parent b]} ∪ A)) as Hinv.
  { assert (size z' = size z) as Es by apply toggled_keeps.
    apply inv_merge; [done| |unfold parent; cbn; lia|by rewrite Es].
    destruct (parent_halves b) as [[-> ->]|[-> ->]]; try done; set_solver. }
  split; [done|]. split; [|done].
  intros HA. destruct (apart_no_page (lower (parent b)) (parent b) (fst (parent b))).
  - apply (inv_alloc _ _ H2); [set_solver..|]. unfold lower, parent. cbn. intros [=]. lia.
  - unfold inside, last_of, lower. cbn. pose proof (pow2_pos (snd b) ltac:(lia)).
    rewrite Z.add_simpl_r. lia.
  - apply inside_head. unfold parent. cbn. lia.
Qed.

Lemma bad_range_inside z b : fits (size z) b -> BAD_RANGE z (fst b) = false.
Proof.
  intros (Ho & Hi & _ & Hl). unfold BAD_RANGE, last_of in *.
  pose proof (pow2_pos (snd b) ltac:(lia)).
  apply orb_false_iff. split; [apply Z.leb_gt|apply Z.ltb_ge]; lia.
Qed.

Lemma toggled_change z b : snd b < MAX_ORDER - 1 ->
  toggled b z = change_bit (snd b) (fst b / 2 ^ (snd b + 1)) z.
Proof. intros Ho. unfold toggled. case_cmp; [lia|done]. Qed.

(** What the loop and the insertion that follows it do. *)
Definition freed (z : zone) (A : gset block) (b : block) (z' : zone) : Prop :=
  inv z' A /\ free_count z' = free_count z + 2 ^ snd b /\
  size z' = size z /\ free_pages z' = free_pages z.

Lemma free_loop_spec n : forall z A b,
  Z.of_nat n = MAX_ORDER - snd b -> size z <= 2 ^ 32 ->
  inv z ({[b]} ∪ A) -> b ∉ A ->
  exists z' i o,
    free_loop n z (fst b) (mask_of (snd b)) (fst b / 2 ^ (snd b + 1)) = Ok (z', i, o) /\
    freed z A b (list_add i o z').
Proof.
  induction n as [|n IH]; intros z A b Hn Hz Hi Hb;
    destruct (inv_fits _ _ Hi b) as (Ho & Hf & Hm & Hl); [set_solver|lia|set_solver|].
  cbn [free_loop]. replace (MAX_ORDER - Z.of_nat (S n)) with (snd b) by lia.
  rewrite mask_goes_on by done. unfold freed.
  destruct (Z.eqb_spec (snd b) (MAX_ORDER - 1)) as [Elast|Elast]; cbn [negb].
  { destruct (put_step z A b Hi Hb ltac:(lia)) as [H1 H2]. exists z, (fst b), (snd b).
    split; [done|]. unfold toggled in *. rewrite (proj2 (Z.eqb_eq _ _) Elast) in *. done. }
  pose proof (bit_is_buddy _ _ b Hi ltac:(set_solver) ltac:(lia)) as Hbit.
  unfold pair_of in Hbit. case_bool_decide as Hbd; cbn [negb].
  - apply Hbit in Hbd. pose proof (pair_buddy b ltac:(lia) Hf Hm) as Hpb.
    destruct (merge_step z A b Hi Hb ltac:(lia) Hbd) as (H1 & H2 & H3 & H4).
    rewrite <- toggled_change by lia.
    assert (toggled b z = toggled (buddy b) z) as ->.
    { rewrite !toggled_change by (cbn; lia). injection Hpb as E. unfold buddy. cbn [fst snd]. by rewrite E. }
    destruct (toggled_keeps z (buddy b)) as (K1 & K2 & K3 & K4).
    rewrite mask_neg, mask_shift by lia. change (fst b .^ 2 ^ snd b) with (fst (buddy b)).
    rewrite !bad_range_inside; [|rewrite K1; apply (inv_fits _ _ Hi); set_solver..].
    cbn [bug_on mbind outcome_bind]. rewrite H1. cbn [mbind outcome_bind].
    rewrite mask_land; [|unfold MAX_ORDER in *; lia|]; cycle 1.
    { unfold last_of in Hl. pose proof (pow2_pos (snd b) ltac:(lia)). lia. }
    replace ((fst b / 2 ^ (snd b + 1)) .>> 1) with (fst (parent b) / 2 ^ (snd (parent b) + 1)).
    2: { unfold parent. cbn. rewrite Z.shiftr_div_pow2, (pow2_S (snd b + 1)) by lia.
         rewrite Z.mul_comm, (Z.mul_comm 2).
         rewrite Z.div_mul_cancel_l; [done| |]; pose proof (pow2_pos (snd b + 1)); lia. }
    destruct (IH (dropped (buddy b) (toggled (buddy b) z)) A (parent b))
      as (z' & i & o & E & H5 & H6 & H7 & H8); [cbn in *; lia| |done|done|].
    { change (size (toggled (buddy b) z) <= 2 ^ 32). by rewrite K1. }
    exists z', i, o. split; [exact E|]. split; [done|]. split; [|split; [rewrite H7; exact K1|rewrite H8; exact K3]].
    rewrite H6, H4. unfold parent. cbn [snd]. rewrite pow2_S by lia. lia.
  - destruct (put_step z A b Hi Hb) as [H1 H2]; [tauto|].
    exists (toggled b z), (fst b), (snd b). rewrite <- toggled_change by lia. split; [done|].
    split; [done|]. split; [done|]. destruct (toggled_keeps z b) as (K1 & K2 & K3 & K4). done.
Qed.

(** The zone is sound: the invariant, and the count of free pages. *)
Definition zone_ok (z : zone) (A : gset block) : Prop :=
  inv z A /\ free_pages z = free_count z /\ size z < 2 ^ 32.

Lemma free_count_nonneg z : 0 <= free_count z.
Proof. unfold free_count, orders. cbn. lia. Qed.

(** ** Counting *)

Definition free_blocks (z : zone) : list block :=
  orders ≫= fun o => (fun i => (i, o)) <$> free_list z o.
Definition pages_of (b : block) : list Z := seqZ (fst b) (2 ^ snd b).

Lemma free_blocks_spec z b : b ∈ free_blocks z <-> is_free z b /\ 0 <= snd b < MAX_ORDER.
Proof.
  unfold free_blocks. rewrite list_elem_of_bind. setoid_rewrite list_elem_of_fmap.
  unfold is_free. split.
  - intros (o & (i & -> & Hi) & Ho). by apply orders_spec in Ho.
  - intros [Hf Ho]. exists (snd b). split; [|by apply orders_spec]. exists (fst b).
    by rewrite <- surjective_pairing.
Qed.

Lemma pages_of_spec b x : 0 <= snd b -> x ∈ pages_of b <-> inside x b.
Proof.
  intros Ho. unfold pages_of, inside, last_of. rewrite elem_of_seqZ.
  pose proof (pow2_pos (snd b) Ho). lia.
Qed.

Lemma NoDup_pages l : NoDup l -> (forall b, b ∈ l -> 0 <= snd b) ->
  (forall b c, b ∈ l -> c ∈ l -> b <> c -> apart b c) -> NoDup (l ≫= pages_of).
Proof.
  induction l as [|b l IH]; intros Hn Ho Hap; [constructor|].
  apply NoDup_cons in Hn as [Hb Hn]. cbn. apply NoDup_app. split; [apply NoDup_seqZ|].
  split; [|apply IH; [done| |]; set_solver].
  intros x Hx Hx'. apply list_elem_of_bind in Hx' as (c & Hxc & Hc).
  rewrite pages_of_spec in Hx, Hxc by set_solver.
  eapply apart_no_page; [|exact Hx|exact Hxc]. apply Hap; [set_solver..|]. by intros ->.
Qed.

Lemma NoDup_free_blocks z : (forall o, NoDup (free_list z o)) -> NoDup (free_blocks z).
Proof.
  intros Hn. unfold free_blocks. apply NoDup_bind; [| |decide_now].
  - intros o o' b _ _ Hb Hb'. rewrite list_elem_of_fmap in Hb, Hb'.
    destruct Hb as (? & -> & _), Hb' as (? & [=] & _). congruence.
  - intros o _. apply NoDup_fmap; [|done]. by intros ? ? [=].
Qed.

Lemma length_pages z : Z.of_nat (length (free_blocks z ≫= pages_of)) = free_count z.
Proof.
  assert (forall o l, 0 <= o ->
    Z.of_nat (length (((fun i => (i, o)) <$> l) ≫= pages_of)) = 2 ^ o * Z.of_nat (length l)) as H1.
  { intros o l Ho. induction l as [|i l IH]; [cbn; lia|]. cbn -[Z.pow].
    rewrite length_app, Nat2Z.inj_add. cbn -[Z.pow] in IH. rewrite IH.
    unfold pages_of. cbn [fst snd]. rewrite length_seqZ. pose proof (pow2_pos o Ho). lia. }
  assert (forall os, (forall o, o ∈ os -> 0 <= o) -> Z.of_nat (length ((os ≫= fun o =>
    (fun i => (i, o)) <$> free_list z o) ≫= pages_of)) =
    foldr (fun o n => 2 ^ o * Z.of_nat (length (free_list z o)) + n) 0 os) as H2.
  { induction os as [|o os IH]; intros Ho; [done|]. cbn -[Z.pow].
    rewrite bind_app, length_app, Nat2Z.inj_add, H1 by set_solver. cbn -[Z.pow] in IH.
    rewrite IH by set_solver. done. }
  apply H2. intros o Ho. apply orders_spec in Ho. lia.
Qed.

(** The free pages fit into the zone. *)
Lemma free_count_le z A : inv z A -> 0 <= size z -> free_count z <= size z.
Proof.
  intros Hi Hz. rewrite <- length_pages.
  assert (length (free_blocks z ≫= pages_of) <= length (seqZ 0 (size z)))%nat as H.
  { apply submseteq_length, NoDup_submseteq.
    - apply NoDup_pages; [apply NoDup_free_blocks, (inv_nodup _ _ Hi)| |].
      + intros b Hb. apply free_blocks_spec in Hb. lia.
      + intros b c Hb Hc. apply free_blocks_spec in Hb as [Hb _], Hc as [Hc _].
        by apply (inv_free _ _ Hi).
    - intros x Hx. apply list_elem_of_bind in Hx as (b & Hx & Hb).
      apply free_blocks_spec in Hb as [Hb Ho]. apply pages_of_spec in Hx; [|lia].
      destruct (inv_fits _ _ Hi b) as (_ & H1 & _ & H2); [by left|].
      apply elem_of_seqZ. unfold inside in Hx. lia. }
  rewrite length_seqZ in H. lia.
Qed.

(** ** Whole operations on a zone *)

Lemma zone_ok_pages z A n : inv z A -> size z < 2 ^ 32 -> 0 <= size z ->
  free_count z = n -> free_pages z = u32 n -> zone_ok z A.
Proof.
  intros Hi Hz Hz0 E1 E2. pose proof (free_count_le z A Hi Hz0). pose proof (free_count_nonneg z).
  split; [done|]. split; [|done]. rewrite E2, <- E1. apply u32_id. lia.
Qed.

Lemma inv_size z A b : inv z A -> is_free z b \/ b ∈ A -> 0 <= size z.
Proof.
  intros Hi Hb. destruct (inv_fits _ _ Hi b Hb) as (Ho & H0 & _ & Hl).
  unfold last_of in Hl. pose proof (pow2_pos (snd b)). lia.
Qed.

Lemma free_to_zone_spec z A b : zone_ok z A -> b ∈ A ->
  exists z', free_to_zone (fst b) (snd b) z = Ok z' /\ zone_ok z' (A ∖ {[b]}) /\
    free_pages z' = free_pages z + 2 ^ snd b /\ size z' = size z.
Proof.
  intros (Hi & Hp & Hz) Hb. destruct (inv_fits _ _ Hi b) as (Ho & Hf & Hm & Hl); [by right|].
  pose proof (inv_size z A b Hi ltac:(by right)) as Hz0.
  pose proof (pow2_pos (snd b) ltac:(lia)) as Hpow. unfold last_of in Hl.
  unfold free_to_zone. rewrite mask_init, mask_low by (done || lia).
  cbn [bug_on mbind outcome_bind]. rewrite Z.shiftr_div_pow2, (Z.add_comm 1) by lia.
  set (z0 := z <| free_pages := _ |>).
  assert (inv z0 ({[b]} ∪ A ∖ {[b]})) as Hi0.
  { rewrite <- union_difference_L by set_solver. destruct Hi. by split. }
  destruct (free_loop_spec (Z.to_nat (MAX_ORDER - snd b)) z0 _ b ltac:(lia) ltac:(cbn; lia) Hi0
    ltac:(set_solver)) as (z1 & i & o & -> & H1 & H2 & H3 & H4).
  cbn [mbind outcome_bind]. eexists. split; [done|].
  assert (zone_ok (list_add i o z1) (A ∖ {[b]})) as Hok.
  { apply (zone_ok_pages _ _ (free_count z + 2 ^ snd b)); [done|by rewrite H3..|done|].
    rewrite H4. cbn [free_pages z0 update]. rewrite Hp. unfold mask_of, u32. change (2 ^ 32) with 4294967296.
    replace (free_count z - (4294967296 - 2 ^ snd b)) with
      (free_count z + 2 ^ snd b + (-1) * 4294967296) by lia. apply Z.mod_add. lia. }
  split; [done|]. split; [|by rewrite H3].
  destruct Hok as (_ & -> & _). rewrite H2, Hp. done.
Qed.

(** One round of [expand]: the lower half goes on its list. *)
Lemma buddy_lower b : 0 < snd b -> 0 <= fst b -> fst b mod 2 ^ snd b = 0 ->
  buddy (lower b) = upper b.
Proof.
  intros Ho Hi Hm. pose proof (pow2_pos (snd b) ltac:(lia)).
  apply Z.mod_divide in Hm as [m Hm]; [|lia].
  pose proof (pow2_S (snd b - 1) ltac:(lia)) as Ep. rewrite Z.sub_add in Ep.
  pose proof (pow2_pos (snd b - 1) ltac:(lia)).
  unfold buddy, lower, upper. cbn. f_equal.
  replace (fst b) with (2 * m * 2 ^ (snd b - 1)) by lia.
  rewrite lxor_scale, lxor_even by nia. lia.
Qed.

Lemma half_pow o : 0 < o -> 2 ^ o = 2 ^ (o - 1) + 2 ^ (o - 1) /\ 2 ^ o .>> 1 = 2 ^ (o - 1).
Proof.
  intros Ho. pose proof (pow2_S (o - 1) ltac:(lia)) as Ep. rewrite Z.sub_add in Ep.
  split; [lia|]. rewrite Z.shiftr_div_pow2, Ep, Z.mul_comm by lia. apply Z.div_mul. lia.
Qed.

(** The halves of an allocated block are not allocated themselves. *)
Lemma half_not_taken z A b h : inv z ({[b]} ∪ A) -> b ∉ A -> 0 < snd b ->
  h = lower b \/ h = upper b -> h ∉ A.
Proof.
  intros Hi Hb Hpos Hh HA.
  assert (0 <= snd h) as Ho by (destruct Hh as [-> | ->]; cbn; lia).
  apply (apart_no_page b h (fst h)).
  - apply (inv_alloc _ _ Hi); [set_solver..|]. destruct Hh as [-> | ->]; destruct b;
      unfold lower, upper; cbn; intros [=]; lia.
  - apply halves_pages; [done|]. destruct Hh as [-> | ->]; [left|right]; by apply inside_head.
  - by apply inside_head.
Qed.

Lemma split_step z A b : inv z ({[b]} ∪ A) -> b ∉ A -> 0 < snd b ->
  let z' := MARK_USED (fst b) (snd b - 1) (list_add (fst b) (snd b - 1) z) in
  inv z' ({[upper b]} ∪ A) /\ (upper b ∉ A) /\
  free_count z' = free_count z + 2 ^ (snd b - 1).
Proof.
  intros Hi Hb Hpos z'. pose proof (inv_fits _ _ Hi b ltac:(set_solver)) as (Ho & Hf & Hm & Hl).
  pose proof (inv_split z A b Hi Hb Hpos) as Hs.
  assert ({[lower b; upper b]} ∪ A = {[lower b]} ∪ ({[upper b]} ∪ A)) as E by set_solver.
  rewrite E in Hs. pose proof (halves_ne b Hpos) as Hne.
  destruct (put_step z ({[upper b]} ∪ A) (lower b) Hs) as [H1 H2].
  { apply not_elem_of_union. split; [by apply not_elem_of_singleton|].
    eapply half_not_taken; [done..|by left]. }
  { intros _. rewrite buddy_lower by done. apply (taken_not_free _ _ _ Hs). set_solver. }
  rewrite toggled_change in H1, H2 by (cbn; lia).
  assert (z' = list_add (fst (lower b)) (snd (lower b)) (change_bit (snd (lower b))
    (fst (lower b) / 2 ^ (snd (lower b) + 1)) z)) as ->.
  { unfold z', MARK_USED. by rewrite Z.shiftr_div_pow2, (Z.add_comm 1) by lia. }
  split; [done|]. split; [|exact H2]. apply (half_not_taken z A b); auto.
Qed.

(** Splitting a block down to the order that is wanted. *)
Lemma expand_spec n : forall z A b, Z.of_nat n <= snd b ->
  inv z ({[b]} ∪ A) -> b ∉ A ->
  exists z' p, let b' := (p, snd b - Z.of_nat n) in
    expand n z (fst b) (fst b) (snd b) (2 ^ snd b) = Ok (z', p) /\
    inv z' ({[b']} ∪ A) /\ (b' ∉ A) /\ (forall x, inside x b' -> inside x b) /\
    free_count z' = free_count z + 2 ^ snd b - 2 ^ (snd b - Z.of_nat n) /\
    free_pages z' = free_pages z /\ size z' = size z.
Proof.
  induction n as [|n IH]; intros z A b Hn Hi Hb;
    pose proof (inv_fits _ _ Hi b ltac:(set_solver)) as Hfit; pose proof Hfit as (Ho & Hf & Hm & Hl).
  { exists z, (fst b). cbn [expand]. rewrite bad_range_inside by done. rewrite Z.sub_0_r.
    rewrite <- surjective_pairing. split_and!; try done. lia. }
  cbn [expand]. rewrite bad_range_inside by done. cbn [bug_on mbind outcome_bind].
  assert (0 < snd b) as Hpos by lia. destruct (split_step z A b Hi Hb Hpos) as (H1 & H2 & H3).
  destruct (half_pow (snd b) Hpos) as [Ep ->].
  destruct (IH _ A (upper b) ltac:(cbn; lia) H1 H2) as (z' & p & E1 & E2 & E3 & E4 & E5 & E6 & E7).
  exists z', p. cbn [snd upper] in E1, E2, E3, E4, E5.
  replace (snd b - 1 - Z.of_nat n) with (snd b - Z.of_nat (S n)) in * by lia.
  split; [exact E1|]. split_and!; try done.
  - intros x Hx. apply halves_pages; [done|]. right. auto.
  - rewrite E5, H3. lia.
Qed.

Lemma toggled_dropped b z : toggled b (dropped b z) = dropped b (toggled b z).
Proof. unfold toggled. by case_cmp. Qed.

(** The loop takes the first block it finds; it returns NULL when all the lists from the order on
    are empty. *)
Lemma rmqueue_loop_spec n : forall z A order, zone_ok z A -> 0 <= order ->
  Z.of_nat n <= MAX_ORDER - order ->
  (forall o, order <= o < MAX_ORDER - Z.of_nat n -> free_list z o = []) ->
  exists z' r, rmqueue_loop n z order = Ok (z', r) /\ size z' = size z /\
    match r with
    | None => z' = z /\ forall b, is_free z b -> snd b < order
    | Some p =>
        zone_ok z' ({[(p, order)]} ∪ A) /\ ((p, order) ∉ A) /\
        free_pages z' = free_pages z - 2 ^ order /\
        exists b, is_free z b /\ forall x, inside x (p, order) -> inside x b
    end.
Proof.
  induction n as [|n IH]; intros z A order Hok Hord Hn Hempty; pose proof Hok as (Hi & Hp & Hz).
  { exists z, None. split; [done|]. split; [done|]. split; [done|]. intros b Hb.
    destruct (inv_fits _ _ Hi b) as (Ho & _); [by left|].
    destruct (Z_lt_le_dec (snd b) order); [done|]. unfold is_free in Hb.
    rewrite Hempty in Hb by lia. by apply elem_of_nil in Hb. }
  cbn [rmqueue_loop]. set (curr := MAX_ORDER - Z.of_nat (S n)).
  destruct (free_list z curr) as [|p l] eqn:El.
  { apply (IH z A); [done|done|lia|]. intros o Ho. destruct (decide (o = curr)) as [->|]; [done|].
    apply Hempty. lia. }
  assert (is_free z (p, curr)) as Hb by (unfold is_free; cbn; rewrite El; by left).
  pose proof (inv_fits _ _ Hi _ (or_introl Hb)) as Hfit. 
  assert (BAD_RANGE z p = false) as -> by apply (bad_range_inside z (p, curr) Hfit).
  cbn [bug_on mbind outcome_bind].
  destruct (take_step z A (p, curr) Hi Hb) as (_ & H1 & H2).
  assert (list_del p z = Ok (dropped (p, curr) z)) as ->.
  { apply (list_del_spec z (p, curr)); [done|cbn; lia|]. intros o. by apply (free_unique z A (p, curr)). }
  cbn [mbind outcome_bind].
  replace (if negb (curr =? MAX_ORDER - 1) then MARK_USED p curr (dropped (p, curr) z)
           else dropped (p, curr) z) with (toggled (p, curr) (dropped (p, curr) z)); cycle 1.
  { unfold toggled, MARK_USED. cbn. rewrite Z.shiftr_div_pow2, (Z.add_comm 1) by lia.
    by case_cmp. }
  rewrite toggled_dropped. set (z1 := dropped _ _) in *. set (z2 := z1 <| free_pages := _ |>).
  assert (inv z2 ({[(p, curr)]} ∪ A)) as H3 by (destruct H1; by split).
  assert ((p, curr) ∉ A) as H4.
  { intros HA. by apply (taken_not_free z A (p, curr) Hi). }
  destruct (expand_spec (Z.to_nat (curr - order)) z2 A (p, curr) ltac:(cbn; lia) H3 H4)
    as (z' & q & E1 & E2 & E3 & E4 & E5 & E6 & E7).
  cbn [fst snd] in *. rewrite Z.shiftl_mul_pow2, Z.mul_1_l by lia. rewrite E1.
  cbn [mbind outcome_bind]. rewrite Z2Nat.id in * by lia.
  replace (curr - (curr - order)) with order in * by lia.
  assert (size z' = size z) as Es by (rewrite E7; apply (toggled_keeps z (p, curr))).
  exists z', (Some q). split; [done|]. split; [done|].
  assert (free_count z' = free_count z - 2 ^ order) as Ec.
  { rewrite E5. change (free_count z2) with (free_count z1). rewrite H2. lia. }
  assert (zone_ok z' ({[(q, order)]} ∪ A)) as Hok'.
  { apply (zone_ok_pages _ _ (free_count z - 2 ^ order)); [done|by rewrite Es| |done|].
    - apply (inv_size _ _ (q, order) E2). right. set_solver.
    - rewrite E6. cbn [free_pages z2 update]. rewrite Z.shiftl_mul_pow2, Z.mul_1_l by lia.
      do 2 f_equal. rewrite <- Hp. apply (toggled_keeps z (p, curr)). }
  split; [done|]. split; [done|]. split; [|by exists (p, curr)].
  destruct Hok' as (_ & -> & _). rewrite Ec, Hp. done.
Qed.

(** ** The contract of the allocator *)

Definition page_free (z : zone) (x : Z) : Prop := exists b, is_free z b /\ inside x b.

(** The free pages are those of the zone that no allocated block holds. *)
Lemma page_free_iff z A x : inv z A ->
  page_free z x <-> 0 <= x < size z /\ ~ exists a, a ∈ A /\ inside x a.
Proof.
  intros Hi. split.
  - intros (b & Hb & Hx). destruct (inv_fits _ _ Hi b) as (_ & H1 & _ & H2); [by left|].
    split; [unfold inside in Hx; lia|]. intros (a & Ha & Hxa).
    eapply apart_no_page; [by apply (inv_mixed _ _ Hi b a)|done..].
  - intros (Hx & Hn). destruct (inv_cover _ _ Hi x Hx) as (b & [Hb|Hb] & Hxb).
    + by exists b.
    + destruct Hn. by exists b.
Qed.

(** An aligned block that meets a larger aligned block is part of it. *)
Lemma nested i o b x y : 0 <= o <= snd b -> i mod 2 ^ o = 0 -> fst b mod 2 ^ snd b = 0 ->
  inside y (i, o) -> inside y b -> inside x (i, o) -> inside x b.
Proof.
  intros Ho Hi Hb Hy Hin Hx. destruct b as [j ob]. unfold inside, last_of in *. cbn [fst snd] in *.
  pose proof (pow2_pos o ltac:(lia)). pose proof (pow2_pos (ob - o) ltac:(lia)).
  assert (2 ^ ob = 2 ^ (ob - o) * 2 ^ o) as E by (rewrite <- Z.pow_add_r by lia; f_equal; lia).
  rewrite E in *. apply Z.mod_divide in Hi as [n ->]; [|lia].
  apply Z.mod_divide in Hb as [m ->]; [|nia].
  set (q := 2 ^ (ob - o)) in *. set (p := 2 ^ o) in *. clearbody p q.
  assert (n < m * q + q) by nia. assert (m * q <= n) by nia. nia.
Qed.

(** Free pages are merged as far as possible: a free aligned run lies in one free block. *)
Lemma free_run_in_block z A (n : nat) : inv z A -> forall i, Z.of_nat n < MAX_ORDER -> 0 <= i ->
  i mod 2 ^ Z.of_nat n = 0 ->
  (forall x, inside x (i, Z.of_nat n) -> page_free z x) ->
  exists b, is_free z b /\ Z.of_nat n <= snd b /\ forall x, inside x (i, Z.of_nat n) -> inside x b.
Proof.
  intros Hinv. induction n as [|n IH]; intros i Hn Hi Hm Hall.
  - destruct (Hall i) as (b & Hb & Hx); [by apply (inside_head (i, 0))|].
    destruct (inv_fits _ _ Hinv b) as (Ho & _); [by left|]. exists b. split; [done|]. split; [lia|].
    intros x Hx'. replace x with i; [done|]. unfold inside, last_of in Hx'. cbn in Hx'. lia.
  - set (o := Z.of_nat n) in *. replace (Z.of_nat (S n)) with (o + 1) in * by lia.
    destruct (halves_fit (i + 2 ^ (o + 1)) (i, o + 1)) as [(_ & _ & M1 & _) (_ & _ & M2 & _)];
      [split; cbn; [lia|]; unfold last_of; cbn; lia|cbn; lia|].
    pose proof (fun x => halves_pages (i, o + 1) x ltac:(cbn; lia)) as Hh.
    unfold lower, upper in *. cbn [fst snd] in *. rewrite Z.add_simpl_r in *.
    pose proof (pow2_pos o ltac:(lia)).
    destruct (IH i) as (bl & Fl & Ol & Cl); [lia|done|done|intros x Hx; apply Hall, Hh; auto|].
    destruct (IH (i + 2 ^ o)) as (bu & Fu & Ou & Cu); [lia|lia|done|intros x Hx; apply Hall, Hh; auto|].
    destruct (inv_fits _ _ Hinv bl) as (_ & _ & Ml & _); [by left|].
    destruct (inv_fits _ _ Hinv bu) as (_ & _ & Mu & _); [by left|].
    pose proof (Cl i (inside_head (i, o) ltac:(cbn; lia))) as Il.
    pose proof (Cu (i + 2 ^ o) (inside_head (i + 2 ^ o, o) ltac:(cbn; lia))) as Iu.
    destruct (Z_le_gt_dec (o + 1) (snd bl)) as [Hl|Hl].
    { exists bl. split; [done|]. split; [done|]. intros x. apply (nested i (o + 1) bl x i); auto;
        [lia|]. by apply (inside_head (i, o + 1)); cbn; lia. }
    destruct (Z_le_gt_dec (o + 1) (snd bu)) as [Hu|Hu].
    { exists bu. split; [done|]. split; [done|]. intros x.
      apply (nested i (o + 1) bu x (i + 2 ^ o)); auto; [lia|].
      apply Hh. right. by apply (inside_head (i + 2 ^ o, o)); cbn; lia. }
    assert (forall b j, snd b = o -> (forall x, inside x (j, o) -> inside x b) -> b = (j, o)) as Heq.
    { intros [j' o'] j Eo Hc. cbn in Eo. subst o'. f_equal. unfold inside, last_of in Hc. cbn in Hc.
      pose proof (Hc j ltac:(lia)). pose proof (Hc (j + 2 ^ o - 1) ltac:(lia)). lia. }
    rewrite (Heq bl i ltac:(lia) Cl) in Fl. rewrite (Heq bu (i + 2 ^ o) ltac:(lia) Cu) in Fu.
    exfalso. apply Z.mod_divide in Hm as [k ->]; [|pose proof (pow2_pos (o + 1)); lia].
    rewrite pow2_S in Fl, Fu by lia.
    apply (inv_pairs _ _ Hinv o k ltac:(lia)). unfold left_of, right_of.
    split; [by replace (2 * k * 2 ^ o) with (k * (2 * 2 ^ o)) by lia|].
    by replace ((2 * k + 1) * 2 ^ o) with (k * (2 * 2 ^ o) + 2 ^ o) by lia.
Qed.

(** Memory is sound when its zone is, and no free page is on an LRU list. *)
Definition unlisted (m : memory) (x : Z) : Prop :=
  PageLRU (mem_map m x) = false /\ PageActive (mem_map m x) = false.
Definition mem_ok (m : memory) (A : gset block) : Prop :=
  zone_ok (the_zone m) A /\ forall x, page_free (the_zone m) x -> unlisted m x.

(** The checks of [__free_pages_ok]: a page that is in use, or on a list although it is not on the LRU lists. *)
Definition in_use (p : page) : bool := buffers p || mapping p || PageLocked p || (PageActive p && negb (PageLRU p)).
(** A task that frees pages for itself, with PF_FREE_PAGES, keeps the first block. *)
Definition to_task (m : memory) : bool := PF_FREE_PAGES m && negb (truth (nr_local_pages m)) && negb (in_interrupt m).
(** The pages of the block but the first are not on the LRU lists. *)
Definition tail_unlisted (m : memory) (i order : Z) : Prop := forall x, inside x (i, order) -> x <> i -> unlisted m x.
(** The block goes to the zone. *)
Record freeable (m : memory) (i order : Z) : Prop := {
  fr_use : in_use (mem_map m i) = false;
  fr_tail : tail_unlisted m i order;
  fr_zone : to_task m = false }.

(** What the checks of [__free_pages_ok] leave behind. *)
Definition cleaned (i : Z) (m : memory) : memory :=
  set_page i (fun p => p <| PageReferenced := false |> <| PageDirty := false |>)
    (if PageLRU (mem_map m i) then lru_cache_del i m else m).
Definition kept_by_task (i order : Z) (m : memory) : memory :=
  (set_page i (fun p => p <| page_index := order |>) (m <| local_pages := i :: local_pages m |>)) <| nr_local_pages := nr_local_pages m + 1 |>.

Lemma free_cases i order m A : mem_ok m A -> (i, order) ∈ A -> tail_unlisted m i order ->
  __free_pages_ok i order m =
    (if in_use (mem_map m i) then Bug
     else if to_task m then Ok (kept_by_task i order (cleaned i m))
     else z ← free_to_zone i order (the_zone m); Ok ((cleaned i m) <| the_zone := z |>)) /\
  (in_use (mem_map m i) = false -> forall x, inside x (i, order) \/ page_free (the_zone m) x -> unlisted (cleaned i m) x).
Proof.
  intros ((Hi & _) & Hfree) Hb H5.
  pose proof (inv_fits _ _ Hi _ (or_intror Hb)) as (Ho & Hf & _ & Hl).
  assert (VALID_PAGE (the_zone m) i = true) as Hv.
  { apply Z.ltb_lt. unfold last_of in Hl. cbn in *. pose proof (pow2_pos order). lia. }
  assert (forall x, inside x (i, order) \/ page_free (the_zone m) x -> x <> i -> unlisted m x) as Hun.
  { intros x [Hx|Hx] Hne; auto. }
  unfold cleaned, __free_pages_ok, lru_cache_del, unlisted, in_use, to_task in *. 
  destruct (PageLRU (mem_map m i)) eqn:EL.
  - destruct (PageActive (mem_map m i)) eqn:EA; cbn -[Z.eqb] in *; rewrite !Z.eqb_refl; cbn -[Z.eqb];
      rewrite EA; cbn -[Z.eqb]; rewrite ?Z.eqb_refl; cbn -[Z.eqb];
      destruct (buffers (mem_map m i)), (mapping (mem_map m i)), (PageLocked (mem_map m i)); rewrite ?Hv, ?EA; cbn -[Z.eqb];
      (split; [try done; by destruct (_ && _)|]); try done; intros _ x Hx; specialize (Hun x Hx);
      destruct (Z.eqb_spec x i) as [->|]; cbn -[Z.eqb]; rewrite ?Z.eqb_refl; cbn; auto.
  - destruct (buffers (mem_map m i)), (mapping (mem_map m i)), (PageLocked (mem_map m i)), (PageActive (mem_map m i)) eqn:EA; rewrite ?Hv; cbn -[Z.eqb];
      rewrite ?EA; cbn -[Z.eqb]; (split; [try done; by destruct (_ && _)|]); try done.
    intros _ x Hx. specialize (Hun x Hx). destruct (Z.eqb_spec x i) as [->|]; cbn; auto.
Qed.
Lemma free_checks i order m A : mem_ok m A -> (i, order) ∈ A -> freeable m i order ->
  __free_pages_ok i order m =
    (z ← free_to_zone i order (the_zone m); Ok ((cleaned i m) <| the_zone := z |>)) /\
  forall x, inside x (i, order) \/ page_free (the_zone m) x -> unlisted (cleaned i m) x.
Proof.
  intros Hm Hb [H1 H2 H3]. destruct (free_cases i order m A Hm Hb H2) as [E H]. rewrite H1, H3 in E. auto.
Qed.

(** [__free_pages_ok], with the state it leaves. *)
Lemma free_pages_spec m A i order :
  mem_ok m A -> (i, order) ∈ A -> freeable m i order ->
  exists z', let m' := (cleaned i m) <| the_zone := z' |> in
    __free_pages_ok i order m = Ok m' /\ mem_ok m' (A ∖ {[(i, order)]}) /\
    free_pages z' = free_pages (the_zone m) + 2 ^ order /\
    forall x, page_free z' x <-> page_free (the_zone m) x \/ inside x (i, order).
Proof.
  intros Hm Hb Hfr. destruct (free_checks i order m A Hm Hb Hfr) as [-> Hclean].
  destruct Hm as [Hok Hun]. pose proof Hok as (Hi & _).
  destruct (free_to_zone_spec _ _ _ Hok Hb) as (z' & E & Hok' & Hp & Hs). cbn [fst snd] in *.
  rewrite E. cbn [mbind outcome_bind]. exists z'. split; [done|]. pose proof Hok' as (Hi' & _).
  assert (forall x, page_free z' x <-> page_free (the_zone m) x \/ inside x (i, order)) as Hpf.
  { intros x. rewrite (page_free_iff _ _ x Hi), (page_free_iff _ _ x Hi'), Hs.
    destruct (inv_fits _ _ Hi _ (or_intror Hb)) as (_ & H0 & _ & Hl). cbn [fst snd] in *.
    split.
    - intros (Hx & Hn). destruct (decide (i <= x < last_of (i, order))); [by right|left].
      split; [done|]. intros (a & Ha & Hxa). apply Hn. exists a. split; [|done].
      apply elem_of_difference. split; [done|]. rewrite elem_of_singleton. by intros ->.
    - intros [(Hx & Hn)|Hx].
      + split; [done|]. intros (a & Ha & Hxa). apply Hn. exists a. set_solver.
      + split; [unfold inside in Hx; cbn in *; lia|]. intros (a & Ha & Hxa).
        apply elem_of_difference in Ha as [Ha Hne]. rewrite elem_of_singleton in Hne.
        eapply apart_no_page; [by apply (inv_alloc _ _ Hi a (i, order))|done..]. }
  split; [|by split].
  split; [done|]. intros x Hx. apply (Hclean x). apply Hpf in Hx. tauto.
Qed.

(** C32. Freeing a block of pages of which all but the first are on no LRU list. (1) When the first page still has
    buffers or a mapping, or is locked, or is marked active without being on an LRU list, the call stops with BUG().
    (2) Otherwise, when the task frees pages for itself (PF_FREE_PAGES), has none yet and is not in an interrupt, the
    zone stays as it is and the block, still allocated, becomes the page on the list of the task, with its order. (3) Otherwise the block is
    merged with its free buddies as far as it goes, no other block moves, the count of free pages grows by the size of
    the block, and exactly its pages become free. *)
Theorem free_pages_correct m A i order :
  mem_ok m A -> (i, order) ∈ A -> tail_unlisted m i order ->
  (in_use (mem_map m i) = true -> __free_pages_ok i order m = Bug) /\
  (in_use (mem_map m i) = false -> to_task m = true ->
   exists m', __free_pages_ok i order m = Ok m' /\ mem_ok m' A /\ the_zone m' = the_zone m /\
     local_pages m' = i :: local_pages m /\ nr_local_pages m' = 1 /\ page_index (mem_map m' i) = order) /\
  (in_use (mem_map m i) = false -> to_task m = false ->
   exists m', __free_pages_ok i order m = Ok m' /\ mem_ok m' (A ∖ {[(i, order)]}) /\
     free_pages (the_zone m') = free_pages (the_zone m) + 2 ^ order /\
     forall x, page_free (the_zone m') x <-> page_free (the_zone m) x \/ inside x (i, order)).
Proof.
  intros Hm Hb Ht. destruct (free_cases i order m A Hm Hb Ht) as [E Hclean]. split_and!.
  - intros Hu. by rewrite E, Hu.
  - intros Hu Hl. rewrite E, Hu, Hl. specialize (Hclean Hu). destruct Hm as [Hok Hun].
    assert (Hz : the_zone (cleaned i m) = the_zone m /\ local_pages (cleaned i m) = local_pages m /\ nr_local_pages (cleaned i m) = nr_local_pages m).
    { unfold cleaned, lru_cache_del. by destruct (PageLRU _) eqn:EL; [rewrite ?EL; destruct (PageActive _)|]. }
    clear E. generalize dependent (cleaned i m). intros mc Hclean (Z1 & Z2 & Z3).
    eexists. split; [done|]. unfold kept_by_task. cbn -[Z.eqb]. rewrite Z1, Z2, Z3. split_and!; try done.
    + split; [cbn; by rewrite Z1|]. intros x Hx. cbn in Hx. rewrite Z1 in Hx. destruct (Hclean x (or_intror Hx)) as [C1 C2].
      unfold unlisted. cbn -[Z.eqb]. destruct (Z.eqb_spec x i) as [->|]; cbn; auto.
    + unfold to_task in Hl. apply andb_true_iff in Hl as [[_ Hl]%andb_true_iff _]. unfold truth in Hl. destruct (Z.eqb_spec (nr_local_pages m) 0); [lia|done].
    + by rewrite Z.eqb_refl.
  - intros Hu Hl. destruct (free_pages_spec m A i order Hm Hb) as (z' & H1 & H2 & H3 & H4); [by split|].
    eexists. split; [exact H1|]. by split.
Qed.

(** C31. Allocating a block: the result is an aligned block of the zone whose pages were all free,
    which is taken out of the free pages and counted out; every other block stays as it is. The
    allocator returns NULL, and changes nothing, only when no aligned run of the size that is
    wanted is free. *)
Theorem rmqueue_correct m A order :
  mem_ok m A -> 0 <= order < MAX_ORDER ->
  exists m' r, rmqueue order m = Ok (m', r) /\
    match r with
    | Some p =>
        fits (size (the_zone m)) (p, order) /\
        (forall x, inside x (p, order) -> page_free (the_zone m) x) /\
        mem_ok m' ({[(p, order)]} ∪ A) /\
        free_pages (the_zone m') = free_pages (the_zone m) - 2 ^ order /\
        page_count (mem_map m' p) = 1
    | None =>
        m' = m /\ forall i, 0 <= i -> i mod 2 ^ order = 0 ->
          ~ forall x, inside x (i, order) -> page_free (the_zone m) x
    end.
Proof.
  intros [Hok Hun] Ho. pose proof Hok as (Hi & _). unfold rmqueue.
  destruct (rmqueue_loop_spec (Z.to_nat (MAX_ORDER - order)) _ A order Hok ltac:(lia) ltac:(lia)
    ltac:(lia)) as (z' & r & -> & Hs & Hr). cbn [mbind outcome_bind].
  destruct r as [p|].
  - destruct Hr as (Hok' & HA & Hp & b & Hb & Hin). pose proof Hok' as (Hi' & _).
    pose proof (inv_fits _ _ Hi' (p, order) ltac:(set_solver)) as Hfit.
    assert (forall x, inside x (p, order) -> page_free (the_zone m) x) as Hwas.
    { intros x Hx. exists b. auto. }
    assert (unlisted m p) as [U1 U2].
    { apply Hun, Hwas. apply (inside_head (p, order)). cbn. lia. }
    assert (BAD_RANGE z' p = false) as -> by (by apply (bad_range_inside z' (p, order))).
    cbn [bug_on mbind outcome_bind set_page mem_map update the_zone]. rewrite Z.eqb_refl.
    cbn [PageLRU PageActive page_fields]. unfold update. cbn [PageLRU PageActive]. rewrite U1, U2.
    cbn [bug_on mbind outcome_bind]. eexists _, (Some p). split; [done|]. rewrite Hs in Hfit.
    split; [done|]. split; [done|]. split; [|split; [done|by cbn; rewrite Z.eqb_refl]].
    split; [done|]. intros x Hx. cbn in Hx.
    assert (page_free (the_zone m) x) as Hx'.
    { rewrite (page_free_iff _ _ _ Hi') in Hx. rewrite (page_free_iff _ _ _ Hi).
      rewrite Hs in Hx. destruct Hx as [? Hn]. split; [done|]. intros (a & ? & ?). apply Hn.
      exists a. set_solver. }
    destruct (Hun x Hx') as [U3 U4]. unfold unlisted. cbn -[Z.eqb].
    destruct (Z.eqb_spec x p) as [->|]; cbn; auto.
  - destruct Hr as [-> Hno]. exists m, None. split; [by destruct m|]. split; [done|].
    intros i Hi0 Hal Hall.
    destruct (free_run_in_block _ A (Z.to_nat order) Hi i) as (b & Hb & Hob & _);
      rewrite ?Z2Nat.id by lia; try done; [lia|].
    specialize (Hno b Hb). rewrite Z2Nat.id in Hob by lia. lia.
Qed.

(** ** Examples *)
Definition clean_page : page := Page false false false false false false false false 0 0.
Definition demo (z : zone) : memory := Memory z (fun _ => clean_page) 0 0 false false [] 0.

(** Eight pages in one free block; and in two allocated blocks of four. *)
Definition one_block : zone := Zone 8 8 (fun o => if o =? 3 then [0] else []) {[(3, 0)]}.
Definition all_taken : zone := Zone 8 0 (fun _ => []) ∅.

Lemma one_block_free b : is_free one_block b <-> b = (0, 3).
Proof.
  destruct b as [i o]. unfold is_free. cbn. destruct (Z.eqb_spec o 3) as [->|].
  - rewrite list_elem_of_singleton. split; [intros ->; done|by intros [=]].
  - rewrite elem_of_nil. split; [done|by intros [=]].
Qed.

Lemma one_block_ok : mem_ok (demo one_block) ∅.
Proof.
  split; [|done]. split; [|done].
  assert (fits 8 (0, 3)) as Hfit by (by vm_compute).
  split; cbn [size one_block map].
  - intros o. cbn. case_cmp; [apply NoDup_singleton|constructor].
  - intros b [Hb|Hb]; [|set_solver]. by apply one_block_free in Hb as ->.
  - intros b c. rewrite !one_block_free. congruence.
  - set_solver.
  - set_solver.
  - intros x Hx. exists (0, 3). split; [left; by apply one_block_free|]. done.
  - intros o k Ho. rewrite !one_block_free. unfold left_of, right_of.
    change ((o, k) ∈ ({[(3, 0)]} : gset (Z * Z)) <->
      (2 * k * 2 ^ o, o) = (0, 3) \/ ((2 * k + 1) * 2 ^ o, o) = (0, 3)).
    rewrite elem_of_singleton. split.
    + intros [=-> ->]. by left.
    + intros [[=E ->]|[=E ->]]; f_equal; lia.
  - intros o k Ho. rewrite !one_block_free. unfold left_of, right_of.
    intros [[=E1 ->] [=E2]]. lia.
Qed.

Lemma all_taken_ok : mem_ok (demo all_taken) {[(0, 2); (4, 2)]}.
Proof.
  assert (forall b, ~ is_free all_taken b) as Hn by (intros b Hb; by apply elem_of_nil in Hb).
  split; [|intros x (b & Hb & _); by apply Hn in Hb]. split; [|done].
  split; cbn [size all_taken map].
  - intros o. constructor.
  - intros b [Hb|Hb]; [by apply Hn in Hb|].
    apply elem_of_union in Hb as [Hb|Hb]; apply elem_of_singleton in Hb as ->; by vm_compute.
  - intros b c Hb. by apply Hn in Hb.
  - intros b c Hb. by apply Hn in Hb.
  - intros b c Hb Hc Hne. unfold apart, last_of. rewrite elem_of_union, !elem_of_singleton in Hb, Hc.
    destruct Hb as [-> | ->], Hc as [-> | ->]; try (by destruct Hne);
      cbn [fst snd]; change (2 ^ 2) with 4; lia.
  - intros x Hx. change (0 <= x < 8) in Hx. destruct (Z_lt_le_dec x 4); [exists (0, 2)|exists (4, 2)];
      (split; [right; set_solver|unfold inside, last_of; cbn [fst snd]; change (2 ^ 2) with 4; lia]).
  - intros o k Ho. split; [set_solver|]. intros [H|H]; by apply Hn in H.
  - intros o k Ho [H _]. by apply Hn in H.
Qed.

Lemma rmqueue_correct_witness :
  (exists m', rmqueue 1 (demo one_block) = Ok (m', Some 6)) /\
  exists m' r, rmqueue 1 (demo one_block) = Ok (m', r).
Proof.
  split.
  - destruct (rmqueue 1 (demo one_block)) as [[m' r]|] eqn:E; [|vm_compute in E; discriminate].
    exists m'. vm_compute in E. injection E as _ <-. reflexivity.
  - destruct (rmqueue_correct (demo one_block) ∅ 1 one_block_ok ltac:(unfold MAX_ORDER; lia))
      as (m' & r & H & _).
    exists m', r. exact H.
Defined.

(** The block at 4 is freed to the zone; by a task that keeps it; and while it is locked. *)
Definition keeper : memory := (demo all_taken) <| PF_FREE_PAGES := true |>.
Definition locked_page : memory := set_page 4 (fun p => p <| PageLocked := true |>) (demo all_taken).
Lemma free_pages_correct_witness :
  (exists m', __free_pages_ok 4 2 (demo all_taken) = Ok m' /\ free_pages (the_zone m') = 4) /\
  (exists m', __free_pages_ok 4 2 keeper = Ok m' /\ the_zone m' = all_taken /\ local_pages m' = [4]) /\
  __free_pages_ok 4 2 locked_page = Bug.
Proof.
  assert (Hin : (4, 2) ∈ ({[(0, 2); (4, 2)]} : gset block)) by set_solver.
  assert (Hk : mem_ok keeper {[(0, 2); (4, 2)]}) by exact all_taken_ok.
  assert (Hl : mem_ok locked_page {[(0, 2); (4, 2)]}).
  { destruct all_taken_ok as [H1 H2]. split; [exact H1|]. intros x Hx. destruct (H2 x Hx) as [K1 K2]. unfold unlisted, locked_page, set_page. cbn -[Z.eqb].
    destruct (Z.eqb_spec x 4); done. }
  split; [|split].
  - destruct (free_pages_correct (demo all_taken) _ 4 2 all_taken_ok Hin) as (_ & _ & H); [by intros x|].
    destruct (H eq_refl eq_refl) as (m' & E & _ & Hp & _). exists m'. split; [exact E|]. rewrite Hp. reflexivity.
  - destruct (free_pages_correct keeper _ 4 2 Hk Hin) as (_ & H & _); [by intros x|].
    destruct (H eq_refl eq_refl) as (m' & E & _ & Hz & Hlp & _). exists m'. split_and!; [exact E|rewrite Hz; reflexivity|rewrite Hlp; reflexivity].
  - destruct (free_pages_correct locked_page _ 4 2 Hl Hin) as (H & _ & _).
    + intros x Hx Hne. unfold unlisted, locked_page, set_page. cbn -[Z.eqb]. destruct (Z.eqb_spec x 4); done.
    + apply H. reflexivity.
Defined.
