(* ===== verification/Boot.v ===== *)
(** The hand-over of memory at boot: [free_all_bootmem_core] (mm/bootmem.c) gives the pages that the
    boot allocator (Bootmem) has not reserved to the page allocator (Buddy). *)
From S2P Require Import Prelude Bootmem Buddy.

(** [ClearPageReserved(page); set_page_count(page, 1); __free_page(page);] for each page *)
Fixpoint release_pages (ps : list Z) (m : memory) : outcome memory :=
  match ps with
  | [] => Ok m
  | i :: ps =>
      let m := set_page i (fun p => p <| PageReserved := false |>) m in
      let m := set_page i (fun p => p <| page_count := 1 |>) m in
      m ← __free_pages i 0 m;
      release_pages ps m
  end.

(** The number of pages that are given away and the memory afterwards. [bitmap] is the page of the
    node where the bitmap itself starts, [virt_to_page(bdata->node_bootmem_map)]. *)
Definition free_all_bootmem_core (b : bootmem_data) (bitmap : Z) (m : memory)
    : outcome (Z * memory) :=
  let idx := u32 (node_low_pfn b - (node_boot_start b .>> PAGE_SHIFT)) in
  let ps := filter (fun i => i ∉ node_bootmem_map b) (pages_from 0 (Z.to_nat idx)) in
  m ← release_pages ps m;
  let total := Z.of_nat (length ps) in
  let count := u32 (idx / 8 + PAGE_SIZE - 1) / PAGE_SIZE in
  m ← release_pages (pages_from bitmap (Z.to_nat count)) m;
  Ok (total + count, m).

(** *** Freeing single pages *)

(** A page that is in use as a single page by nobody but the boot code. *)
Record idle (m : memory) (i : Z) : Prop := {
  id_buffers : buffers (mem_map m i) = false;
  id_mapping : mapping (mem_map m i) = false;
  id_locked : PageLocked (mem_map m i) = false;
  id_active : PageActive (mem_map m i) = true -> PageLRU (mem_map m i) = true }.

(** The pages go to the zone, not to the list of the task. *)
Definition to_zone (m : memory) : Prop :=
  PF_FREE_PAGES m && negb (truth (nr_local_pages m)) && negb (in_interrupt m) = false.

Definition singles (ps : list Z) : gset block := list_to_set ((fun i => (i, 0)) <$> ps).

Lemma singles_spec ps b : b ∈ singles ps <-> exists i, b = (i, 0) /\ i ∈ ps.
Proof. unfold singles. rewrite elem_of_list_to_set, list_elem_of_fmap. naive_solver. Qed.

(** The two assignments before the free. *)
Definition handed (i : Z) (m : memory) : memory :=
  set_page i (fun p => p <| page_count := 1 |>) (set_page i (fun p => p <| PageReserved := false |>) m).

Lemma handed_at i m :
  mem_map (handed i m) i = (mem_map m i) <| PageReserved := false |> <| page_count := 1 |>.
Proof. unfold handed, set_page. cbn -[Z.eqb]. by rewrite !Z.eqb_refl. Qed.

Lemma set_page_other f i j m : j <> i -> mem_map (set_page i f m) j = mem_map m j.
Proof. intros H. cbn. by rewrite (proj2 (Z.eqb_neq j i)). Qed.

(** [f] does not touch the flags that the invariant is about. *)
Lemma set_page_mem_ok f i m A :
  (forall p, PageLRU (f p) = PageLRU p /\ PageActive (f p) = PageActive p) ->
  mem_ok m A -> mem_ok (set_page i f m) A.
Proof.
  intros Hf [Hz Hun]. split; [done|]. intros x Hx. specialize (Hun x Hx). unfold unlisted in *.
  destruct (decide (x = i)) as [->|Hne]; [|by rewrite set_page_other].
  cbn -[Z.eqb]. rewrite Z.eqb_refl. by destruct (Hf (mem_map m i)) as [-> ->].
Qed.

Lemma cleaned_other i j m : j <> i -> mem_map (cleaned i m) j = mem_map m j.
Proof.
  intros H. unfold cleaned. rewrite set_page_other by done. destruct (PageLRU (mem_map m i)); [|done].
  unfold lru_cache_del. destruct (PageLRU _); [|done].
  destruct (PageActive _); cbn -[Z.eqb]; by rewrite !(proj2 (Z.eqb_neq j i)).
Qed.

Lemma cleaned_to_zone i m : to_zone (cleaned i m) <-> to_zone m.
Proof.
  unfold to_zone, cleaned, lru_cache_del. destruct (PageLRU (mem_map m i)) eqn:E; [|done].
  by destruct (PageActive _).
Qed.

(** One page: it is given to the zone, and the other pages stay as they are. *)
Lemma release_one i m A :
  mem_ok m A -> (i, 0) ∈ A -> idle m i -> to_zone m ->
  exists m', __free_pages i 0 (handed i m) = Ok m' /\
    mem_ok m' (A ∖ {[(i, 0)]}) /\ to_zone m' /\
    free_pages (the_zone m') = free_pages (the_zone m) + 1 /\
    (forall j, j <> i -> mem_map m' j = mem_map m j) /\
    forall x, page_free (the_zone m') x <-> page_free (the_zone m) x \/ x = i.
Proof.
  intros Hm HA [I1 I2 I3 I4] Hz. unfold __free_pages. rewrite handed_at. cbn [PageReserved update].
  set (m1 := set_page i _ (handed i m)).
  assert (mem_map m1 i = ((mem_map m i) <| PageReserved := false |>) <| page_count := 0 |>) as Em.
  { unfold m1, set_page at 1. cbn -[Z.eqb handed]. by rewrite Z.eqb_refl, handed_at. }
  rewrite Em. cbn [page_count update Z.eqb].
  assert (mem_ok m1 A) as Hm1 by (repeat apply set_page_mem_ok; done).
  assert (freeable m1 i 0) as Hfr.
  { split; [|intros x Hx Hne; unfold inside, last_of in Hx; cbn in Hx; lia|exact Hz].
    rewrite Em. unfold in_use. cbn. rewrite I1, I2, I3. cbn. destruct (PageActive (mem_map m i)); [by rewrite I4|done]. }
  destruct (free_pages_spec m1 A i 0 Hm1 HA Hfr) as (z' & H1 & H2 & H3 & H4).
  eexists. split; [exact H1|]. split; [done|]. split; [by apply (cleaned_to_zone i m1)|].
  split; [done|]. split.
  - intros j Hj. change (mem_map (cleaned i m1) j = mem_map m j).
    rewrite cleaned_other by done. unfold m1, handed. by rewrite !set_page_other.
  - intros x. cbn [the_zone update]. rewrite H4. unfold inside, last_of. cbn.
    split; (intros [?|?]; [by left|right; lia]).
Qed.

Lemma release_pages_spec ps : forall m A,
  mem_ok m A -> NoDup ps -> singles ps ⊆ A -> (forall i, i ∈ ps -> idle m i) -> to_zone m ->
  exists m', release_pages ps m = Ok m' /\ mem_ok m' (A ∖ singles ps) /\ to_zone m' /\
    free_pages (the_zone m') = free_pages (the_zone m) + Z.of_nat (length ps) /\
    (forall j, j ∉ ps -> mem_map m' j = mem_map m j) /\
    forall x, page_free (the_zone m') x <-> page_free (the_zone m) x \/ x ∈ ps.
Proof.
  induction ps as [|i ps IH]; intros m A Hm Hn HA Hid Hz.
  { exists m. split; [done|]. split; [by replace (A ∖ singles []) with A by set_solver|].
    split; [done|]. split; [cbn; lia|]. split; [done|]. intros x. rewrite elem_of_nil. tauto. }
  apply NoDup_cons in Hn as [Hi Hn]. cbn [release_pages].
  destruct (release_one i m A) as (m1 & E & Hm1 & Hz1 & Hp1 & Ho1 & Hf1);
    [done|apply HA, singles_spec; set_solver|apply Hid; set_solver|done|].
  unfold handed in E. rewrite E. cbn [mbind outcome_bind].
  destruct (IH m1 (A ∖ {[(i, 0)]})) as (m' & E' & Hm' & Hz' & Hp' & Ho' & Hf'); try done.
  { intros b Hb. apply singles_spec in Hb as (j & -> & Hj). apply elem_of_difference. split.
    - apply HA, singles_spec. set_solver.
    - rewrite elem_of_singleton. intros [=->]. done. }
  { intros j Hj. assert (j <> i) by (intros ->; done).
    destruct (Hid j ltac:(set_solver)) as [J1 J2 J3 J4]. by split; rewrite Ho1. }
  exists m'. split; [done|]. split.
  { replace (A ∖ singles (i :: ps)) with (A ∖ {[(i, 0)]} ∖ singles ps); [done|].
    unfold singles. set_solver. }
  split; [done|]. split; [rewrite Hp', Hp1; cbn [length]; lia|]. split.
  - intros j Hj. apply not_elem_of_cons in Hj as [Hj1 Hj2]. by rewrite Ho', Ho1.
  - intros x. rewrite Hf', Hf1, elem_of_cons. tauto.
Qed.

Lemma pages_from_NoDup i n : NoDup (pages_from i n).
Proof.
  apply (NoDup_fmap_2_strong (fun k => i + Z.of_nat k)); [|apply NoDup_seq]. intros ? ? _ _ ?. lia.
Qed.

(** *** The hand-over *)

(** The pages of the bitmap. *)
Definition bitmap_pages (b : bootmem_data) : Z := (eidx_of b / 8 + PAGE_SIZE - 1) / PAGE_SIZE.

Lemma node_pages b : node_ok b -> 0 <= eidx_of b < 2 ^ 20 + 1 /\
  u32 (node_low_pfn b - (node_boot_start b .>> PAGE_SHIFT)) = eidx_of b.
Proof.
  intros [N1 N2 N3 N4]. unfold eidx_of. rewrite Z.shiftr_div_pow2 by done.
  change (2 ^ PAGE_SHIFT) with PAGE_SIZE. unfold PAGE_SIZE in *.
  split; [dm|]. apply u32_id. dm.
Qed.

(** A page of the node is in the map, in the bitmap, or given away. *)
Definition all_pages (b : bootmem_data) : list Z := pages_from 0 (Z.to_nat (eidx_of b)).
Definition unreserved (b : bootmem_data) : list Z :=
  filter (fun i => i ∉ node_bootmem_map b) (all_pages b).
Definition bitmap_list (b : bootmem_data) (bitmap : Z) : list Z :=
  pages_from bitmap (Z.to_nat (bitmap_pages b)).

Section Handover.
Context (b : bootmem_data) (bitmap : Z) (m : memory).
Hypothesis Hnode : node_ok b.
Hypothesis Hmem : mem_ok m (singles (all_pages b)).
Hypothesis Hsize : size (the_zone m) = eidx_of b.
Hypothesis Hidle : forall i, 0 <= i < eidx_of b -> idle m i.
Hypothesis Hzone : to_zone m.
Hypothesis Hbitmap : forall p, bitmap <= p < bitmap + bitmap_pages b -> 0 <= p < eidx_of b.
Hypothesis Hreserved : forall p, bitmap <= p < bitmap + bitmap_pages b -> p ∈ node_bootmem_map b.

Lemma all_pages_spec p : p ∈ all_pages b <-> 0 <= p < eidx_of b.
Proof. unfold all_pages. destruct (node_pages b Hnode). rewrite pages_from_elem. lia. Qed.
Lemma unreserved_spec p : p ∈ unreserved b <-> 0 <= p < eidx_of b /\ p ∉ node_bootmem_map b.
Proof. unfold unreserved. rewrite list_elem_of_filter, all_pages_spec. tauto. Qed.
Lemma bitmap_pages_range : 0 <= bitmap_pages b /\
  u32 (eidx_of b / 8 + PAGE_SIZE - 1) / PAGE_SIZE = bitmap_pages b.
Proof.
  destruct (node_pages b Hnode). unfold bitmap_pages, PAGE_SIZE in *. split; [dm|].
  rewrite u32_id; [done|]. dm.
Qed.
Lemma bitmap_list_spec p :
  p ∈ bitmap_list b bitmap <-> bitmap <= p < bitmap + bitmap_pages b.
Proof. unfold bitmap_list. destruct bitmap_pages_range. rewrite pages_from_elem. lia. Qed.

(** Nothing is free before. *)
Lemma none_free x : ~ page_free (the_zone m) x.
Proof.
  intros Hx. destruct Hmem as [[Hi _] _]. apply (page_free_iff _ _ _ Hi) in Hx as [Hx Hn].
  apply Hn. exists (x, 0). split; [|apply (inside_head (x, 0)); done].
  apply singles_spec. exists x. split; [done|]. apply all_pages_spec. by rewrite <- Hsize.
Qed.

(** The pages of the bitmap are not among those that the first loop frees. *)
Lemma bitmap_kept p : p ∈ bitmap_list b bitmap -> p ∈ all_pages b /\ p ∉ unreserved b.
Proof.
  rewrite bitmap_list_spec, all_pages_spec, unreserved_spec. intros Hp.
  split; [by apply Hbitmap|]. intros [_ Hn]. by apply Hn, Hreserved.
Qed.

Lemma handover_spec : exists m',
  free_all_bootmem_core b bitmap m =
    Ok (Z.of_nat (length (unreserved b)) + bitmap_pages b, m') /\
  mem_ok m' (singles (all_pages b) ∖ singles (unreserved b) ∖ singles (bitmap_list b bitmap)) /\
  free_pages (the_zone m') =
    free_pages (the_zone m) + (Z.of_nat (length (unreserved b)) + bitmap_pages b) /\
  forall x, page_free (the_zone m') x <-> x ∈ unreserved b \/ x ∈ bitmap_list b bitmap.
Proof.
  unfold free_all_bootmem_core. destruct (node_pages b Hnode) as [_ ->].
  destruct bitmap_pages_range as [Hc ->].
  fold (all_pages b). fold (unreserved b). fold (bitmap_list b bitmap).
  destruct (release_pages_spec (unreserved b) m (singles (all_pages b)))
    as (m1 & -> & Hm1 & Hz1 & Hp1 & Ho1 & Hf1);
    [done|apply NoDup_filter, pages_from_NoDup| | |done|].
  { intros x. rewrite !singles_spec. intros (i & -> & Hi). exists i. split; [done|].
    apply unreserved_spec in Hi as [Hi _]. by apply all_pages_spec. }
  { intros i Hi. apply unreserved_spec in Hi as [Hi _]. by apply Hidle. }
  cbn [mbind outcome_bind].
  destruct (release_pages_spec (bitmap_list b bitmap) m1 (singles (all_pages b) ∖ singles (unreserved b)))
    as (m2 & -> & Hm2 & _ & Hp2 & _ & Hf2); [done|apply pages_from_NoDup| | |done|].
  { intros x. rewrite elem_of_difference, !singles_spec. intros (i & -> & Hi).
    apply bitmap_kept in Hi as [Hi1 Hi2]. split; [by exists i|]. by intros (j & [=<-] & Hj). }
  { intros i Hi. apply bitmap_kept in Hi as [Hi1 Hi2]. apply all_pages_spec in Hi1.
    destruct (Hidle i Hi1) as [J1 J2 J3 J4]. by split; rewrite Ho1. }
  exists m2. split; [done|]. split; [done|]. split.
  - rewrite Hp2, Hp1. unfold bitmap_list, pages_from. rewrite length_map, length_seq. lia.
  - intros x. rewrite Hf2, Hf1. pose proof (none_free x). tauto.
Qed.
End Handover.

(** The bitmap as a block of the boot allocator; it has no page in a node of less than 8 pages. *)
Definition bitmap_block (b : bootmem_data) (bitmap : Z) : list (Z * Z) :=
  if bitmap_pages b =? 0 then [] else [(bitmap * PAGE_SIZE, bitmap_pages b * PAGE_SIZE)].
Lemma bitmap_block_page b blocks bitmap p : boot_inv b (blocks ++ bitmap_block b bitmap) -> bitmap <= p < bitmap + bitmap_pages b ->
  0 <= p < eidx_of b /\ p ∈ node_bootmem_map b.
Proof.
  intros Hb Hp. pose proof (bi_blocks _ _ Hb) as Hall. apply Forall_app in Hall as [_ Hall].
  unfold bitmap_block in Hall. destruct (Z.eqb_spec (bitmap_pages b) 0); [lia|]. apply Forall_singleton in Hall as (H1 & H2 & H3 & H4). unfold PAGE_SIZE in *. split; [lia|]. apply H4.
  replace (bitmap * 4096 + bitmap_pages b * 4096 - 1) with ((bitmap + bitmap_pages b) * 4096 - 1) by lia. dm.
Qed.
(** The blocks that are handed out have no page in common with it. *)
Lemma block_not_bitmap b blocks bitmap s n p : boot_inv b (blocks ++ bitmap_block b bitmap) -> (s, n) ∈ blocks ->
  s / PAGE_SIZE <= p <= (s + n - 1) / PAGE_SIZE -> p ∈ node_bootmem_map b /\ ~ (bitmap <= p < bitmap + bitmap_pages b).
Proof.
  intros Hb Hin Hp. pose proof (bi_blocks _ _ Hb) as Hall. apply Forall_app in Hall as [Hall _]. rewrite Forall_forall in Hall.
  destruct (Hall _ Hin) as (H1 & H2 & H3 & H4). split; [by apply H4|]. intros Hpb.
  pose proof (bi_apart _ _ Hb) as Hap. unfold bitmap_block in Hap. destruct (Z.eqb_spec (bitmap_pages b) 0); [lia|].
  apply list_elem_of_lookup in Hin as [i Hi].
  pose proof (lookup_lt_Some _ _ _ Hi) as Hlt.
  destruct (Hap (length blocks) i (bitmap * PAGE_SIZE, bitmap_pages b * PAGE_SIZE) (s, n)) as [Ha|Ha]; [lia| | |cbn in Ha; unfold PAGE_SIZE in *..].
  { by rewrite lookup_app_r, Nat.sub_diag. }
  { by rewrite lookup_app_l. }
  - assert (bitmap + bitmap_pages b <= s / 4096) by (apply Z.div_le_lower_bound; lia). lia.
  - assert ((s + n - 1) / 4096 < bitmap) by (apply Z.div_lt_upper_bound; lia). lia.
Qed.
Lemma bitmap_start b bitmap : node_ok b -> last_offset b = 0 -> 0 <= bitmap -> bitmap + bitmap_pages b <= eidx_of b -> 0 <= bitmap_pages b ->
  (forall p, bitmap <= p < bitmap + bitmap_pages b -> p ∈ node_bootmem_map b) -> boot_inv b (bitmap_block b bitmap).
Proof.
  intros Hn Hl H0 H1 H2 Hres. unfold bitmap_block. destruct (Z.eqb_spec (bitmap_pages b) 0); [by apply boot_inv_start|].
  split; [done| | |by rewrite Hl].
  - apply Forall_singleton. unfold block_ok, PAGE_SIZE. split_and!; try lia. intros p Hp. apply Hres.
    replace (bitmap * 4096 + bitmap_pages b * 4096 - 1) with ((bitmap + bitmap_pages b) * 4096 - 1) in Hp by lia. revert Hp. dm.
  - intros i j r q Hne Hi Hj. destruct i as [|i], j as [|j]; try done; by rewrite ?lookup_nil in *.
Qed.

(** C33. At the end of boot, the page allocator gets exactly the pages of the node that the boot
    allocator did not reserve, and those of the bitmap: all the single pages are freed without a
    BUG(), the number of them is returned, and no page of a block that the boot allocator handed
    out becomes free. The state before is one that the allocator reaches when the bitmap was reserved before the
    blocks were handed out: the bitmap is then like a first block. No page is in use by anybody else, and the caller
    does not free pages for itself (PF_FREE_PAGES). *)
Theorem boot_handover b blocks bitmap m :
  boot_inv b (blocks ++ bitmap_block b bitmap) ->
  mem_ok m (singles (all_pages b)) -> size (the_zone m) = eidx_of b ->
  (forall i, 0 <= i < eidx_of b -> idle m i) -> to_zone m ->
  exists total m' A, free_all_bootmem_core b bitmap m = Ok (total, m') /\ mem_ok m' A /\
    free_pages (the_zone m') = free_pages (the_zone m) + total /\
    (forall x, page_free (the_zone m') x <-> 0 <= x < eidx_of b /\
       (x ∉ node_bootmem_map b \/ bitmap <= x < bitmap + bitmap_pages b)) /\
    (forall s n p, (s, n) ∈ blocks -> s / PAGE_SIZE <= p <= (s + n - 1) / PAGE_SIZE ->
       ~ page_free (the_zone m') p).
Proof.
  intros Hb Hm Hs Hid Hz. pose proof (bi_node _ _ Hb) as Hnode.
  pose proof (fun p => bitmap_block_page b blocks bitmap p Hb) as Hbm.
  destruct (handover_spec b bitmap m Hnode Hm Hs Hid Hz) as (m' & E & Hm' & Hp & Hf); [by intros p [? ?]%Hbm..|].
  eexists _, m', _. split; [exact E|]. split; [exact Hm'|]. split; [exact Hp|].
  assert (forall x, page_free (the_zone m') x <-> 0 <= x < eidx_of b /\
       (x ∉ node_bootmem_map b \/ bitmap <= x < bitmap + bitmap_pages b)) as Hfree.
  { intros x. rewrite Hf, unreserved_spec, bitmap_list_spec by done. split; [|tauto].
    intros [?|Hx]; [tauto|]. split; [by apply Hbm|by right]. }
  split; [exact Hfree|]. intros s n p Hin Hpage Hx. destruct (block_not_bitmap b blocks bitmap s n p Hb Hin Hpage) as [H1 H2].
  apply Hfree in Hx as [_ [Hx|Hx]]; done.
Qed.

(** A zone as [free_area_init_core] leaves it: nothing is free. *)
Definition empty_zone (n : Z) : zone := Zone n 0 (fun _ => []) ∅.

Lemma empty_zone_ok n : 0 <= n < 2 ^ 32 ->
  mem_ok (demo (empty_zone n)) (singles (pages_from 0 (Z.to_nat n))).
Proof.
  intros Hn. assert (forall b, ~ is_free (empty_zone n) b) as Hno.
  { intros b Hb. by apply elem_of_nil in Hb. }
  assert (forall b, b ∈ singles (pages_from 0 (Z.to_nat n)) <-> exists i, b = (i, 0) /\ 0 <= i < n) as HA.
  { intros b. rewrite singles_spec. setoid_rewrite pages_from_elem. split; intros (i & -> & Hi);
      exists i; (split; [done|lia]). }
  split; [|intros x (b & Hb & _); by apply Hno in Hb]. split; [|split; [done|cbn; lia]].
  split; cbn [size empty_zone map].
  - intros o. constructor.
  - intros b [Hb|Hb]; [by apply Hno in Hb|]. apply HA in Hb as (i & -> & Hi).
    unfold fits, last_of. cbn. rewrite Z.mod_1_r. unfold MAX_ORDER. lia.
  - intros b c Hb. by apply Hno in Hb.
  - intros b c Hb. by apply Hno in Hb.
  - intros b c Hb Hc Hne. apply HA in Hb as (i & -> & Hi), Hc as (j & -> & Hj).
    unfold Buddy.apart, last_of. cbn. destruct (Z.eq_dec i j) as [->|]; [by destruct Hne|lia].
  - intros x Hx. exists (x, 0). split; [right; apply HA; by exists x|].
    by apply (inside_head (x, 0)).
  - intros o k Ho. split; [set_solver|]. intros [H|H]; by apply Hno in H.
  - intros o k Ho [H _]. by apply Hno in H.
Qed.

(** Eight pages of which the first two are reserved, the bitmap in the first one; a block of 100 bytes is
    handed out, from the third page, and that page is not given away. *)
Definition demo_block : bootmem_data :=
  match __alloc_bootmem_core 2 demo_node 100 (2 ^ 5) 0 with Some (Ok (_, b)) => b | _ => demo_node end.
Lemma demo_node_start : boot_inv demo_node (bitmap_block demo_node 0).
Proof.
  apply bitmap_start; [split; vm_compute; (reflexivity || discriminate)|reflexivity|done|vm_compute; discriminate|vm_compute; discriminate|].
  intros p Hp. change (bitmap_pages demo_node) with 1 in Hp. assert (p = 0) as -> by lia.
  apply (bool_decide_unpack _). vm_compute. exact I.
Qed.
Lemma demo_block_inv : boot_inv demo_block ([(8192, 100)] ++ bitmap_block demo_block 0).
Proof.
  destruct (alloc_core_spec demo_node (bitmap_block demo_node 0) 100 5 0 demo_node_start) as [(addr & b' & H & Hi & _)|[H _]]; [lia|lia|lia|reflexivity| |].
  - assert (addr = 3221233664) as -> by (vm_compute in H; by injection H). unfold demo_block. rewrite H.
    assert (Eb : bitmap_block b' 0 = bitmap_block demo_node 0) by (vm_compute in H; injection H as <-; reflexivity). by rewrite Eb.
  - vm_compute in H. discriminate H.
Qed.
Lemma boot_handover_witness :
  exists total m', free_all_bootmem_core demo_block 0 (demo (empty_zone 8)) = Ok (total, m') /\
    free_pages (the_zone m') = total /\ ~ page_free (the_zone m') 2 /\ page_free (the_zone m') 0 /\ page_free (the_zone m') 3.
Proof.
  destruct (boot_handover demo_block [(8192, 100)] 0 (demo (empty_zone 8))) as (total & m' & A & H & _ & Hp & Hf & Hb).
  - apply demo_block_inv.
  - apply (empty_zone_ok 8). lia.
  - reflexivity.
  - intros i _. by split.
  - reflexivity.
  - exists total, m'. split; [exact H|]. split; [rewrite Hp; reflexivity|]. split; [|split].
    + apply (Hb 8192 100); [by left|]. vm_compute. split; discriminate.
    + apply Hf. split; [change (0 <= 0 < 8); lia|]. right. change (0 <= 0 < 1). lia.
    + apply Hf. split; [change (0 <= 3 < 8); lia|]. left. apply (bool_decide_unpack _). vm_compute. exact I.
Defined.
