(* ===== verification/Sem.v ===== *)
(** System V semaphores (ipc/sem.c, include/linux/sem.h): one set of semaphores with its queue of
    sleeping operations and the undo structures of the processes.

    The code runs with the lock of the set held, except while a process sleeps in [sys_semop]; the
    critical sections are functions here: [semop_start], [semop_resume], [semctl_main], [sem_exit].
    What they ask the table of identifiers, the memory allocator and the memory of the user is in
    [call]. The code gives up the lock to allocate an undo structure and to read the values for
    SETALL; what it has tested before, it tests again ([sem_revalidate]). *)
From S2P Require Import Prelude Task.

Definition EINTR : Z := 4.
Definition E2BIG : Z := 7.
Definition EFBIG : Z := 27.
Definition ERANGE : Z := 34.
Definition EIDRM : Z := 43.
Definition ENOMEM : Z := 12.

(** ** Data *)
Definition SEMVMX : Z := 32767.
Definition SEMAEM : Z := SEMVMX.
Definition SEMOPM : Z := 32.
Definition SEM_UNDO : Z := 0x1000.
Definition IPC_NOWAIT : Z := 2048.

Record sembuf := Sembuf { sem_num : Z; sem_op : Z; sem_flg : Z }.

(** A sleeping operation. [q_undo] names the undo structure, by the process that owns it;
    [q_alter] is [queue.alter], set when the operation decreases a semaphore; [q_writes] is the
    local variable [alter] of the sleeping [sys_semop]. *)
Record sem_queue := Queue {
  q_sops : list sembuf; q_undo : option Z; q_pid : Z; q_status : Z;
  q_alter : bool; q_writes : bool }.
#[global] Instance queue_fields : Fields sem_queue := fun q =>
  Queue (q_sops q) (q_undo q) (q_pid q) (q_status q) (q_alter q) (q_writes q).

(** [semvals] and [sempids] are the fields of [sem_base]; [undos] has the [semadj] arrays of
    [sma->undo], by process. *)
Record sem_array := SemArray {
  semvals : list Z; sempids : list Z;
  sem_pending : list sem_queue;
  undos : gmap Z (list Z) }.
#[global] Instance sem_array_fields : Fields sem_array := fun s =>
  SemArray (semvals s) (sempids s) (sem_pending s) (undos s).

Definition sem_nsems (s : sem_array) : Z := len (semvals s).

(** [un->semadj] *)
Definition semadj (s : sem_array) (un : option Z) : list Z :=
  match un with Some u => default [] (undos s !! u) | None => [] end.
Definition set_semadj (un : option Z) (n v : Z) (s : sem_array) : sem_array :=
  match un with
  | Some u => s <| undos := <[u := set_at (semadj s un) n v]> (undos s) |>
  | None => s
  end.

(** ** try_atomic_semop *)
Inductive stop := Next | WouldBlock | OutOfRange.

Definition undo_flag (sop : sembuf) : bool := truth (sem_flg sop .& SEM_UNDO).

(** The test of the new value at the end of the loop body. *)
Definition check_value (v : Z) : stop :=
  if v <? 0 then WouldBlock else if SEMVMX <? v then OutOfRange else Next.

(** The body of the loop for one operation. *)
Definition semop_one (un : option Z) (pid : Z) (sop : sembuf) (s : sem_array)
    : stop * sembuf * sem_array :=
  let n := sem_num sop in
  let op := sem_op sop in
  if (op =? 0) && truth (get (semvals s) n) then (WouldBlock, sop, s)
  else
    let s := s <| sempids := set_at (sempids s) n (s32 (get (sempids s) n .<< 16) .| pid) |> in
    let s := s <| semvals := set_at (semvals s) n (get (semvals s) n + op) |> in
    if undo_flag sop then
      let u := get (semadj s un) n - op in
      if (u <? - SEMAEM - 1) || (SEMAEM <? u) then
        (OutOfRange, Sembuf n op (sem_flg sop .& Z.lnot SEM_UNDO), s)
      else
        let s := set_semadj un n u s in
        (check_value (get (semvals s) n), sop, s)
    else (check_value (get (semvals s) n), sop, s).

(** [undo:], from the last operation back to the first *)
Definition undo_one (un : option Z) (sop : sembuf) (s : sem_array) : sem_array :=
  let n := sem_num sop in
  let s := s <| semvals := set_at (semvals s) n (get (semvals s) n - sem_op sop) |> in
  let s := s <| sempids := set_at (sempids s) n (get (sempids s) n .>> 16) |> in
  if undo_flag sop then set_semadj un n (s16 (get (semadj s un) n + sem_op sop)) s else s.

Definition undo_ops (un : option Z) (done : list sembuf) (s : sem_array) : sem_array :=
  foldl (fun s sop => undo_one un sop s) s done.

(** [done]: the operations before [sops], last first. *)
Fixpoint try_loop (un : option Z) (pid : Z) (do_undo : bool) (sops done : list sembuf)
    (s : sem_array) : Z * sem_array :=
  match sops with
  | [] => (0, if do_undo then undo_ops un done s else s)
  | sop :: sops =>
      match semop_one un pid sop s with
      | (Next, sop, s) => try_loop un pid do_undo sops (sop :: done) s
      | (WouldBlock, sop, s) =>
          (if truth (sem_flg sop .& IPC_NOWAIT) then - EAGAIN else 1, undo_ops un (sop :: done) s)
      | (OutOfRange, sop, s) => (- ERANGE, undo_ops un (sop :: done) s)
      end
  end.

Definition try_atomic_semop (s : sem_array) (sops : list sembuf) (un : option Z) (pid : Z)
    (do_undo : bool) : Z * sem_array :=
  try_loop un pid do_undo sops [] s.

(** ** The queue *)

(** The loop of [update_queue] over the entries [qs]: the entries that stay on the queue, and the
    processes that are done with the result they return. *)
Fixpoint update_loop (qs : list sem_queue) (s : sem_array)
    : list sem_queue * sem_array * list (Z * Z) :=
  match qs with
  | [] => ([], s, [])
  | q :: qs =>
      if q_status q =? 1 then
        let '(qs, s, out) := update_loop qs s in (q :: qs, s, out)
      else
        let '(error, s) := try_atomic_semop s (q_sops q) (q_undo q) (q_pid q) (q_alter q) in
        if error <=? 0 then
          if (error =? 0) && q_alter q then (q <| q_status := 1 |> :: qs, s, [])
          else
            let '(qs, s, out) := update_loop qs s in (qs, s, (q_pid q, error) :: out)
        else
          let '(qs, s, out) := update_loop qs s in (q :: qs, s, out)
  end.

Definition update_queue (s : sem_array) : sem_array * list (Z * Z) :=
  let '(qs, s, out) := update_loop (sem_pending s) s in
  (s <| sem_pending := qs |>, out).

(** ** semop *)

(** The surroundings of a call: the identifier, whether [sem_lock] finds a set and [sem_checkid] accepts
    it, [ipcperms] for writing or reading, whether memory can be allocated and the memory of the user
    be read or written, and the result of [sem_revalidate]. *)
Record call := Call {
  c_semid : Z; c_found : bool; c_current : bool; c_perms : bool -> bool;
  c_memory : bool; c_user : bool; c_revalidate : Z }.

Definition SEMMSL_FAST : Z := 256.
Definition SEMOPM_FAST : Z := 64.

(** A new undo structure. *)
Definition get_undo (pid : Z) (s : sem_array) : sem_array :=
  match undos s !! pid with
  | Some _ => s
  | None => s <| undos := <[pid := replicate (length (semvals s)) 0]> (undos s) |>
  end.

(** The undo structure of the process, allocated when it has none. *)
Definition alloc_undo (c : call) (pid : Z) (s : sem_array) : Z * sem_array :=
  match undos s !! pid with
  | Some _ => (0, s)
  | None =>
      if negb (c_memory c) then (- ENOMEM, s)
      else if truth (c_revalidate c) then (c_revalidate c, s)
      else (0, get_undo pid s)
  end.

(** [update: if (alter) update_queue(sma);] *)
Definition finish (alter : bool) (s : sem_array) : sem_array * list (Z * Z) :=
  if alter then update_queue s else (s, []).

(** The part of [sys_semop] up to the return or the first sleep: [Some error], or [None] when the
    process sleeps. *)
Definition semop_start (c : call) (pid : Z) (sops : list sembuf) (s : sem_array)
    : option Z * sem_array * list (Z * Z) :=
  let nsops := Z.of_nat (length sops) in
  if (nsops <? 1) || (c_semid c <? 0) then (Some (- EINVAL), s, [])
  else if SEMOPM <? nsops then (Some (- E2BIG), s, [])
  else if (SEMOPM_FAST <? nsops) && negb (c_memory c) then (Some (- ENOMEM), s, [])
  else if negb (c_user c) then (Some (- EFAULT), s, [])
  else if negb (c_found c) then (Some (- EINVAL), s, [])
  else if negb (c_current c) then (Some (- EIDRM), s, [])
  else if negb (forallb (fun sop => sem_num sop <? sem_nsems s) sops) then (Some (- EFBIG), s, [])
  else
    let undos := existsb undo_flag sops in
    let decrease := existsb (fun sop => sem_op sop <? 0) sops in
    let alter := existsb (fun sop => 0 <? sem_op sop) sops || decrease in
    if negb (c_perms c alter) then (Some (- EACCES), s, [])
    else
      let '(error, s) := if undos then alloc_undo c pid s else (0, s) in
      if truth error then (Some error, s, [])
      else
      let un := if undos then Some pid else None in
      let '(error, s) := try_atomic_semop s sops un pid false in
      if error <=? 0 then let '(s, out) := finish alter s in (Some error, s, out)
      else
        let q := Queue sops un pid (- EINTR) decrease alter in
        (None, s <| sem_pending := if alter then sem_pending s ++ [q] else q :: sem_pending s |>, []).

(** The sleeper [q] runs again; [l1] and [l2] are the entries before and after it. With status 1 it
    retries, otherwise it was interrupted. *)
Definition semop_resume (l1 : list sem_queue) (q : sem_queue) (l2 : list sem_queue) (s : sem_array)
    : option Z * sem_array * list (Z * Z) :=
  if q_status q =? 1 then
    let '(error, s) := try_atomic_semop s (q_sops q) (q_undo q) (q_pid q) false in
    if error <=? 0 then
      let '(s, out) := finish (q_writes q) (s <| sem_pending := l1 ++ l2 |>) in (Some error, s, out)
    else (None, s <| sem_pending := l1 ++ q <| q_status := - EINTR |> :: l2 |>, [])
  else
    let '(s, out) := finish (q_writes q) (s <| sem_pending := l1 ++ l2 |>) in
    (Some (q_status q), s, out).

(** ** semctl and exit *)
Definition count_semncnt (s : sem_array) (semnum : Z) : Z :=
  Z.of_nat (length (sem_pending s ≫= fun q => filter (fun sop =>
    sem_num sop = semnum /\ sem_op sop < 0 /\ truth (sem_flg sop .& IPC_NOWAIT) = false) (q_sops q))).
Definition count_semzcnt (s : sem_array) (semnum : Z) : Z :=
  Z.of_nat (length (sem_pending s ≫= fun q => filter (fun sop =>
    sem_num sop = semnum /\ sem_op sop = 0 /\ truth (sem_flg sop .& IPC_NOWAIT) = false) (q_sops q))).

(** The commands of [semctl_main], with their arguments. *)
Inductive command :=
  | GETALL | SETALL (vals : list Z)
  | GETVAL (semnum : Z) | GETPID (semnum : Z) | GETNCNT (semnum : Z) | GETZCNT (semnum : Z)
  | SETVAL (semnum val : Z).

Definition getpid (s : sem_array) (semnum : Z) : Z := get (sempids s) semnum .& 0xffff.

Definition setval (pid semnum val : Z) (s : sem_array) : Z * sem_array * list (Z * Z) :=
  if (SEMVMX <? val) || (val <? 0) then (- ERANGE, s, [])
  else
    let s := s <| undos := (fun a => set_at a semnum 0) <$> undos s |> in
    let s := s <| semvals := set_at (semvals s) semnum val |> in
    let s := s <| sempids := set_at (sempids s) semnum pid |> in
    let '(s, out) := update_queue s in (0, s, out).

(** [SETALL] with the values that are read from the user, one for each semaphore *)
Definition setall (c : call) (vals : list Z) (s : sem_array) : Z * sem_array * list (Z * Z) :=
  if (SEMMSL_FAST <? sem_nsems s) && negb (c_memory c) then (- ENOMEM, s, [])
  else if negb (c_user c) then (- EFAULT, s, [])
  else if existsb (fun v => SEMVMX <? v) vals then (- ERANGE, s, [])
  else if truth (c_revalidate c) then (c_revalidate c, s, [])
  else
    let s := s <| semvals := vals |> in
    let s := s <| undos := (fun a => replicate (length vals) 0) <$> undos s |> in
    let '(s, out) := update_queue s in (0, s, out).

(** [GETALL]: the result and the array that is written to the user *)
Definition getall (c : call) (s : sem_array) : Z * list Z :=
  let large := SEMMSL_FAST <? sem_nsems s in
  if large && negb (c_memory c) then (- ENOMEM, [])
  else if large && truth (c_revalidate c) then (c_revalidate c, [])
  else if negb (c_user c) then (- EFAULT, [])
  else (0, u16 <$> semvals s).

(** The result, the array for the user, the set and the sleepers that are done. IPC_STAT, which reports
    the owner and the times of the set, is not a command here. *)
Definition semctl_main (c : call) (pid : Z) (cmd : command) (s : sem_array)
    : Z * list Z * sem_array * list (Z * Z) :=
  let one semnum (f : Z * sem_array * list (Z * Z)) :=
    if (semnum <? 0) || (sem_nsems s <=? semnum) then (- EINVAL, [], s, [])
    else let '(err, s, out) := f in (err, [], s, out) in
  let writes := match cmd with SETVAL _ _ | SETALL _ => true | _ => false end in
  if negb (c_found c) then (- EINVAL, [], s, [])
  else if negb (c_current c) then (- EIDRM, [], s, [])
  else if negb (c_perms c writes) then (- EACCES, [], s, [])
  else
    match cmd with
    | GETALL => let '(err, vals) := getall c s in (err, vals, s, [])
    | SETALL vals => let '(err, s, out) := setall c vals s in (err, [], s, out)
    | GETVAL semnum => one semnum (get (semvals s) semnum, s, [])
    | GETPID semnum => one semnum (getpid s semnum, s, [])
    | GETNCNT semnum => one semnum (count_semncnt s semnum, s, [])
    | GETZCNT semnum => one semnum (count_semzcnt s semnum, s, [])
    | SETVAL semnum val => one semnum (setval pid semnum val s)
    end.

(** The adjustments of a process that exits. [semval] is an [int]: with at most 32768 processes and
    one adjustment of at most 32767 for each, the sum stays below 2^31. *)
Definition adjust (v a : Z) : Z := if v + a <? 0 then 0 else v + a.
(** A process has at most one entry on the queue, [current->semsleeping]. *)
Definition sem_exit (pid : Z) (s : sem_array) : sem_array * list (Z * Z) :=
  let s := s <| sem_pending := filter (fun q => q_pid q <> pid) (sem_pending s) |> in
  match undos s !! pid with
  | None => (s, [])
  | Some adj =>
      let s := s <| undos := delete pid (undos s) |> in
      let s := s <| semvals := zip_with adjust (semvals s) adj |> in
      let s := s <| sempids := replicate (length (sempids s)) pid |> in
      update_queue s
  end.

(** ** The reference: operations on values and adjustments alone *)

(** The values and the adjustments after all the operations, or the error code of the first one that
    is not possible (1 when it has to wait). *)
Fixpoint run_ops (v a : list Z) (sops : list sembuf) : (list Z * list Z) + Z :=
  match sops with
  | [] => inl (v, a)
  | sop :: sops =>
      let n := sem_num sop in
      let op := sem_op sop in
      let wait := if truth (sem_flg sop .& IPC_NOWAIT) then - EAGAIN else 1 in
      let v' := set_at v n (get v n + op) in
      let a' := if undo_flag sop then set_at a n (get a n - op) else a in
      if (op =? 0) && truth (get v n) then inr wait
      else if undo_flag sop && negb ((- SEMAEM - 1 <=? get a n - op) && (get a n - op <=? SEMAEM))
      then inr (- ERANGE)
      else if get v n + op <? 0 then inr wait
      else if SEMVMX <? get v n + op then inr (- ERANGE)
      else run_ops v' a' sops
  end.

(** ** Well-formed sets and operations *)
Definition adj_ok (n : Z) (a : list Z) : Prop := len a = n /\ Forall (fun x => -32768 <= x <= 32767) a.
Definition undos_ok (s : sem_array) : Prop :=
  forall u a, undos s !! u = Some a -> adj_ok (sem_nsems s) a.
Definition un_ok (s : sem_array) (un : option Z) : Prop :=
  match un with Some u => is_Some (undos s !! u) | None => True end.
Definition sop_ok (s : sem_array) (un : option Z) (sop : sembuf) : Prop :=
  0 <= sem_num sop < sem_nsems s /\ (undo_flag sop = true -> is_Some un).

(** Two sets that differ in the pids only. *)
#[global] Instance sem_array_equiv : Equiv sem_array := fun s s' =>
  semvals s = semvals s' /\ undos s = undos s' /\ sem_pending s = sem_pending s'.
#[global] Instance sem_array_equivalence : Equivalence (≡@{sem_array}).
Proof.
  split.
  - by intros s.
  - intros s s' (? & ? & ?). by split_and!.
  - intros s1 s2 s3 (H1 & H2 & H3) (? & ? & ?). split_and!; by etransitivity; eauto.
Qed.

#[global] Instance semadj_proper : Proper ((≡) ==> (=) ==> (=)) semadj.
Proof. intros s s' (_ & H & _) un ? <-. destruct un; cbn; [by rewrite H|done]. Qed.

#[global] Instance undo_one_proper un sop : Proper ((≡) ==> (≡)) (undo_one un sop).
Proof.
  intros s s' (Hv & Hu & Hp). unfold undo_one, set_semadj, semadj.
  destruct (undo_flag sop), un as [u|]; cbn; repeat split; cbn; by rewrite ?Hv, ?Hu, ?Hp.
Qed.

Lemma undo_ops_proper un done s s' : s ≡ s' -> undo_ops un done s ≡ undo_ops un done s'.
Proof.
  revert s s'. induction done as [|sop done IH]; intros s s' H; [done|]. cbn. apply IH. by rewrite H.
Qed.

Lemma existsb_false {A} (f : A -> bool) l x : existsb f l = false -> x ∈ l -> f x = false.
Proof.
  intros H Hx. apply not_true_is_false. intros Hf. assert (existsb f l = true); [|congruence].
  apply existsb_exists. exists x. by rewrite <- list_elem_of_In.
Qed.
Lemma set_at_twice l n x y : set_at (set_at l n x) n y = set_at l n y.
Proof. unfold set_at. apply list_insert_insert_eq. Qed.
Lemma set_at_get l n : 0 <= n < len l -> set_at l n (get l n) = l.
Proof. intros Hn. unfold set_at. apply list_insert_id. by apply lookup_get. Qed.

Lemma get_ext l l' : len l = len l' -> (forall i, 0 <= i < len l -> get l i = get l' i) -> l = l'.
Proof.
  intros Hl H. unfold len in *. apply (nth_ext _ _ 0 0); [lia|]. intros k Hk.
  specialize (H (Z.of_nat k) ltac:(lia)). unfold get in H. by rewrite Nat2Z.id in H.
Qed.

(** *** One operation, and taking it back *)
Lemma semadj_set s u n x : semadj (set_semadj (Some u) n x s) (Some u) = set_at (semadj s (Some u)) n x.
Proof. unfold set_semadj, semadj. cbn. by rewrite lookup_insert_eq. Qed.

Lemma undo_flag_cleared n op f : undo_flag (Sembuf n op (f .& Z.lnot SEM_UNDO)) = false.
Proof.
  unfold undo_flag. cbn. rewrite <- Z.land_assoc, (Z.land_comm (Z.lnot _)), Z.land_lnot_diag.
  by rewrite Z.land_0_r.
Qed.

(** [s'] is [s] with the values [v] and the adjustments [a] of [un]. *)
Definition moved (s : sem_array) (un : option Z) (v a : list Z) (s' : sem_array) : Prop :=
  semvals s' = v /\ sem_pending s' = sem_pending s /\
  undos s' = match un with Some u => <[u := a]> (undos s) | None => undos s end.

Lemma semadj_id s un : un_ok s un ->
  undos s = match un with Some u => <[u := semadj s un]> (undos s) | None => undos s end.
Proof.
  destruct un as [u|]; [|done]. intros [a Ha]. cbn. rewrite Ha. cbn. by rewrite insert_id.
Qed.

Lemma moved_refl s un : un_ok s un -> moved s un (semvals s) (semadj s un) s.
Proof. intros Hu. split_and!; [done|done|]. by apply semadj_id. Qed.

Lemma moved_trans s un v a s1 v' a' s2 : moved s un v a s1 -> moved s1 un v' a' s2 -> moved s un v' a' s2.
Proof.
  intros (H1 & H2 & H3) (K1 & K2 & K3). split_and!; [done|congruence|]. rewrite K3, H3.
  destruct un; [apply insert_insert_eq|done].
Qed.

Lemma moved_semadj s un v a s' : moved s un v a s' -> is_Some un -> semadj s' un = a.
Proof. intros (_ & _ & H) [u ->]. cbn. by rewrite H, lookup_insert_eq. Qed.

Lemma moved_ok s un v a s' : undos_ok s -> moved s un v a s' -> len v = sem_nsems s ->
  (is_Some un -> adj_ok (sem_nsems s) a) -> undos_ok s' /\ sem_nsems s' = sem_nsems s.
Proof.
  intros Hs (H1 & _ & H3) Hv Ha. assert (sem_nsems s' = sem_nsems s) as En.
  { unfold sem_nsems in *. by rewrite H1. }
  split; [|done]. intros u b. rewrite H3, En. destruct un as [u'|]; [|apply Hs].
  destruct (decide (u = u')) as [->|Hne].
  - rewrite lookup_insert_eq. intros [=<-]. apply Ha. done.
  - rewrite lookup_insert_ne by done. apply Hs.
Qed.

Lemma set_semadj_fields un n x s :
  semvals (set_semadj un n x s) = semvals s /\ sem_pending (set_semadj un n x s) = sem_pending s.
Proof. by destruct un. Qed.

(** The adjustments are [short]s. *)
Lemma semadj_range s un n : undos_ok s -> un_ok s un -> is_Some un -> 0 <= n < sem_nsems s ->
  0 <= n < len (semadj s un) /\ -32768 <= get (semadj s un) n <= 32767.
Proof.
  intros Hs Hu [u ->] Hn. destruct Hu as [a Ha]. cbn. rewrite Ha. cbn.
  destruct (Hs u a Ha) as [Hl Hr]. split; [lia|]. apply (Forall_get _ a n Hr). lia.
Qed.

Lemma s16_id z : -32768 <= z <= 32767 -> s16 z = z.
Proof. intros. unfold s16. rewrite Z.mod_small; lia. Qed.

Section One.
Context (un : option Z) (pid : Z) (sop : sembuf) (s : sem_array).
Hypothesis Hs : undos_ok s.
Hypothesis Hu : un_ok s un.
Hypothesis Hsop : sop_ok s un sop.
Let n := sem_num sop.
Let op := sem_op sop.

(** The value and the adjustment with the operation done: the state that the tests at the end of the
    loop body see. *)
Lemma done_back s1 : semvals s1 = set_at (semvals s) n (get (semvals s) n + op) ->
  sem_pending s1 = sem_pending s ->
  undos s1 = undos (if undo_flag sop then set_semadj un n (get (semadj s un) n - op) s else s) ->
  undo_one un sop s1 ≡ s.
Proof.
  intros H1 H2 H3. destruct Hsop as [Hn Hf]. fold n in Hn.
  assert (set_at (semvals s1) n (get (semvals s1) n - op) = semvals s) as Ev.
  { rewrite H1, get_set_eq, set_at_twice by done. rewrite Z.add_simpl_r. by apply set_at_get. }
  unfold undo_one. cbv zeta. fold n op. destruct (undo_flag sop) eqn:E; [|by split_and!].
  destruct (Hf eq_refl) as [u ->]. destruct (semadj_range s (Some u) n Hs Hu ltac:(done) Hn) as [Hl Hr].
  destruct Hu as [a Ha].
  assert (semadj s1 (Some u) = set_at (semadj s (Some u)) n (get (semadj s (Some u)) n - op)) as Ea.
  { rewrite <- semadj_set. unfold semadj at 1 3. by rewrite H3. }
  split_and!; [exact Ev| |exact H2]. cbn [undos update set_semadj].
  change (semadj _ (Some u)) with (semadj s1 (Some u)). rewrite Ea, get_set_eq, set_at_twice by done.
  rewrite Z.sub_add, s16_id, set_at_get by done. rewrite H3. cbn. rewrite Ha. cbn.
  by rewrite insert_insert_eq, insert_id.
Qed.

Lemma semop_one_back r sop' s' : semop_one un pid sop s = (r, sop', s') -> undo_one un sop' s' ≡ s.
Proof.
  intros H. destruct Hsop as [Hn Hf]. fold n in Hn. unfold semop_one in H. cbv zeta in H. fold n op in H.
  destruct ((op =? 0) && truth (get (semvals s) n)) eqn:E0.
  { injection H as <- <- <-. apply andb_true_iff in E0 as [E0 _]. apply Z.eqb_eq in E0.
    apply done_back; [|done|]; rewrite E0, ?Z.add_0_r, ?Z.sub_0_r; [by rewrite set_at_get|].
    destruct (undo_flag sop) eqn:E; [|done]. destruct (Hf eq_refl) as [u Eu]. rewrite Eu in *.
    destruct (semadj_range s (Some u) n Hs Hu ltac:(done) Hn) as [Hl _].
    cbn [set_semadj undos update]. rewrite set_at_get by done. by apply (semadj_id s (Some u)). }
  destruct (undo_flag sop) eqn:Ef.
  - destruct (_ || _) in H; injection H as <- <- <-.
    + unfold undo_one. rewrite undo_flag_cleared. split_and!; [|done|done].
      cbn [semvals update sem_num sem_op]. rewrite get_set_eq, set_at_twice, Z.add_simpl_r by done. by apply set_at_get.
    + apply done_back; rewrite ?Ef; destruct un; done.
  - injection H as <- <- <-. apply done_back; rewrite ?Ef; done.
Qed.
(** What the loop body decides, in terms of the values. *)
Definition decision (v a : list Z) : stop :=
  if (op =? 0) && truth (get v n) then WouldBlock
  else if undo_flag sop && negb ((- SEMAEM - 1 <=? get a n - op) && (get a n - op <=? SEMAEM))
  then OutOfRange
  else check_value (get v n + op).

Lemma semop_one_fwd : exists sop' s',
  semop_one un pid sop s = (decision (semvals s) (semadj s un), sop', s') /\
  (decision (semvals s) (semadj s un) = WouldBlock -> sop' = sop) /\
  (decision (semvals s) (semadj s un) = Next ->
    moved s un (set_at (semvals s) n (get (semvals s) n + op))
      (if undo_flag sop then set_at (semadj s un) n (get (semadj s un) n - op) else semadj s un) s').
Proof.
  destruct Hsop as [Hn Hf]. fold n in Hn. unfold semop_one, decision. cbv zeta. fold n op.
  destruct ((op =? 0) && truth (get (semvals s) n)) eqn:E0; [by eexists _, _|].
  change (semadj _ un) with (semadj s un).
  destruct (undo_flag sop) eqn:Ef; cbn [andb].
  - assert ((get (semadj s un) n - op <? - SEMAEM - 1) || (SEMAEM <? get (semadj s un) n - op) =
      negb ((- SEMAEM - 1 <=? get (semadj s un) n - op) && (get (semadj s un) n - op <=? SEMAEM))) as ->.
    { repeat case_cmp; (done || lia). }
    destruct (negb _); [by eexists _, _|].
    match goal with |- context [semvals (set_semadj un n ?x ?t)] =>
      destruct (set_semadj_fields un n x t) as [E1 E2] end.
    rewrite E1. cbn [semvals update]. rewrite get_set_eq by done.
    eexists _, _. split; [done|]. split; [done|]. intros _. split_and!; [exact E1|exact E2|].
    by destruct un.
  - cbn [semvals update]. rewrite get_set_eq by done. eexists _, _. split; [done|]. split; [done|].
    intros _. split_and!; [done|done|]. cbn. by apply semadj_id.
Qed.
End One.

Lemma adj_ok_set n a i x : adj_ok n a -> -32768 <= x <= 32767 -> adj_ok n (set_at a i x).
Proof. intros [Hl Hr] Hx. split; [by rewrite len_set|]. by apply Forall_insert. Qed.

Lemma semadj_ok s un : undos_ok s -> un_ok s un -> is_Some un -> adj_ok (sem_nsems s) (semadj s un).
Proof. intros Hs Hu [u ->]. destruct Hu as [a Ha]. cbn. rewrite Ha. by apply (Hs u). Qed.

(** The loop of [try_atomic_semop] does what the reference says, or takes everything back. *)
Lemma try_loop_spec un pid do_undo sops : forall done s,
  undos_ok s -> un_ok s un -> Forall (sop_ok s un) sops ->
  let '(e, s') := try_loop un pid do_undo sops done s in
  match run_ops (semvals s) (semadj s un) sops with
  | inl (v, a) => e = 0 /\ if do_undo then s' ≡ undo_ops un done s else moved s un v a s'
  | inr e' => e = e' /\ s' ≡ undo_ops un done s
  end.
Proof.
  induction sops as [|sop sops IH]; intros done s Hs Hu Hops.
  { cbn. split; [done|]. destruct do_undo; [done|]. by apply moved_refl. }
  apply Forall_cons in Hops as [Hsop Hops]. cbn [try_loop run_ops].
  destruct (semop_one_fwd un pid sop s Hu Hsop) as (sop' & s' & E & Hwb & Hnext).
  pose proof (semop_one_back un pid sop s Hs Hu Hsop _ _ _ E) as Hback. rewrite E.
  assert (undo_ops un (sop' :: done) s' ≡ undo_ops un done s) as Hundo.
  { cbn. by apply undo_ops_proper. }
  unfold decision, check_value in *.
  destruct ((sem_op sop =? 0) && truth _); [specialize (Hwb eq_refl); by subst sop'|].
  destruct (undo_flag sop && _) eqn:Er; [done|].
  destruct (_ <? 0); [specialize (Hwb eq_refl); by subst sop'|]. destruct (SEMVMX <? _); [done|].
  specialize (Hnext eq_refl). destruct Hsop as [Hn Hf].
  set (v1 := set_at (semvals s) _ _) in *. set (a1 := if undo_flag sop then _ else _) in *.
  destruct (moved_ok s un v1 a1 s' Hs Hnext) as [Hs' En].
  { unfold v1. by rewrite len_set. }
  { intros Hun. pose proof (semadj_ok s un Hs Hu Hun). unfold a1. destruct (undo_flag sop); [|done].
    apply adj_ok_set; [done|]. cbn in Er. unfold SEMAEM, SEMVMX in *. bool_hyps. lia. }
  assert (un_ok s' un) as Hu'.
  { destruct Hnext as (_ & _ & Hud). destruct un as [u|]; [|done]. cbn. rewrite Hud.
    rewrite lookup_insert_eq. by eexists. }
  assert (semadj s' un = a1) as Ea.
  { destruct un as [u|] eqn:Eun; [by apply (moved_semadj _ _ _ _ _ Hnext)|]. unfold a1.
    destruct (undo_flag sop); [|done]. by destruct (Hf eq_refl). }
  specialize (IH (sop' :: done) s' Hs' Hu').
  destruct (try_loop un pid do_undo sops (sop' :: done) s') as [e s2].
  rewrite (proj1 Hnext), Ea in IH.
  assert (Forall (sop_ok s' un) sops) as Hops'.
  { eapply Forall_impl; [exact Hops|]. intros x [Hx1 Hx2]. split; [by rewrite En|done]. }
  specialize (IH Hops'). destruct (run_ops v1 a1 sops) as [[v a]|e'].
  - destruct IH as [-> IH]. split; [done|]. destruct do_undo; [by rewrite IH|].
    by eapply moved_trans.
  - destruct IH as [-> IH]. split; [done|]. by rewrite IH.
Qed.

Lemma try_atomic_spec s sops un pid do_undo :
  undos_ok s -> un_ok s un -> Forall (sop_ok s un) sops ->
  let '(e, s') := try_atomic_semop s sops un pid do_undo in
  match run_ops (semvals s) (semadj s un) sops with
  | inl (v, a) => e = 0 /\ if do_undo then s' ≡ s else moved s un v a s'
  | inr e' => e = e' /\ s' ≡ s
  end.
Proof. apply (try_loop_spec un pid do_undo sops []). Qed.

(** ** Properties of the reference *)

(** Values that every operation leaves in range, up to [m]. *)
Definition in_range (m : Z) (v : list Z) : Prop := Forall (fun x => 0 <= x <= m) v.

Lemma run_ops_range m sops : forall v a v' a', SEMVMX <= m -> in_range m v ->
  run_ops v a sops = inl (v', a') -> in_range m v' /\ length v' = length v.
Proof.
  induction sops as [|sop sops IH]; intros v a v' a' Hm Hv H; cbn in H; [by simplify_eq|].
  destruct (_ && truth _); [done|]. destruct (undo_flag sop && _); [done|].
  destruct (Z.ltb_spec (get v (sem_num sop) + sem_op sop) 0); [done|].
  destruct (Z.ltb_spec SEMVMX (get v (sem_num sop) + sem_op sop)); [done|].
  apply IH in H as [K1 K2]; [|done|apply Forall_insert; [done|lia]].
  split; [done|]. rewrite K2. unfold set_at. apply length_insert.
Qed.

Lemma run_ops_adj n sops : forall v a v' a',
  (existsb undo_flag sops = true -> adj_ok n a) -> run_ops v a sops = inl (v', a') ->
  adj_ok n a -> adj_ok n a'.
Proof.
  induction sops as [|sop sops IH]; intros v a v' a' Hf H Ha; cbn in H; [by simplify_eq|].
  destruct (_ && truth _); [done|]. destruct (undo_flag sop && _) eqn:E; [done|].
  destruct (_ <? 0); [done|]. destruct (SEMVMX <? _); [done|].
  apply IH in H; [done|..]; (destruct (undo_flag sop); [|auto]); intros;
    (apply adj_ok_set; [done|]); cbn in E; unfold SEMAEM, SEMVMX in *; bool_hyps; lia.
Qed.

(** Operations that only wait for zero change nothing. *)
Lemma run_ops_zero v a sops : Forall (fun sop => sem_op sop = 0 /\ 0 <= sem_num sop < len v) sops ->
  (existsb undo_flag sops = true -> len a = len v) ->
  forall v' a', run_ops v a sops = inl (v', a') -> v' = v /\ a' = a.
Proof.
  intros Hz Ha v' a'. induction Hz as [|sop sops [Hop Hn] Hz IH]; cbn [run_ops]; [by intros [=]|].
  rewrite Hop, Z.add_0_r, Z.sub_0_r, set_at_get by done.
  assert ((if undo_flag sop then set_at a (sem_num sop) (get a (sem_num sop)) else a) = a) as ->.
  { destruct (undo_flag sop) eqn:E; [|done]. apply set_at_get. rewrite Ha; [done|]. cbn. by rewrite E. }
  destruct (_ && truth _); [done|]. destruct (undo_flag sop && _); [done|].
  destruct (_ <? 0); [done|]. destruct (SEMVMX <? _); [done|]. apply IH.
  intros H. apply Ha. cbn. rewrite H. apply orb_true_r.
Qed.

(** Operations that only increase never have to wait. *)
Lemma run_ops_increase m sops : forall v a, in_range m v -> SEMVMX <= m ->
  Forall (fun sop => 0 < sem_op sop /\ 0 <= sem_num sop < len v) sops ->
  match run_ops v a sops with inl _ => True | inr e => e <= 0 end.
Proof.
  induction sops as [|sop sops IH]; intros v a Hv Hm Hops; [done|].
  apply Forall_cons in Hops as [[Hop Hn] Hops]. cbn [run_ops].
  pose proof (Forall_get _ v (sem_num sop) Hv Hn) as Hr. cbn in Hr.
  rewrite (proj2 (Z.eqb_neq _ _)) by lia. cbn [andb].
  destruct (undo_flag sop && _); [done|]. rewrite (proj2 (Z.ltb_ge _ 0)) by lia.
  destruct (Z.ltb_spec SEMVMX (get v (sem_num sop) + sem_op sop)); [done|].
  apply IH; [apply Forall_insert; [done|lia]|done|]. by rewrite len_set.
Qed.

(** ** The state of a set *)

(** An operation on the queue can go on: it would succeed, or fail with an error. *)
Definition ready (s : sem_array) (q : sem_queue) : bool :=
  match run_ops (semvals s) (semadj s (q_undo q)) (q_sops q) with inl _ => true | inr e => e <=? 0 end.

Definition entry_ok (s : sem_array) (q : sem_queue) : Prop :=
  un_ok s (q_undo q) /\ (forall u, q_undo q = Some u -> u = q_pid q) /\ Forall (sop_ok s (q_undo q)) (q_sops q) /\
  (q_status q = 1 -> q_alter q = true) /\ (q_alter q = true -> q_writes q = true) /\
  (q_writes q = false -> Forall (fun sop => sem_op sop = 0) (q_sops q)).

(** [m] bounds the values: SEMVMX, as long as nobody exits. *)
Definition vals_ok (m : Z) (s : sem_array) : Prop := in_range m (semvals s) /\ undos_ok s.
Definition set_ok (m : Z) (s : sem_array) : Prop :=
  vals_ok m s /\ Forall (entry_ok s) (sem_pending s).

(** What every operation on the values keeps. *)
Definition frame (s s' : sem_array) : Prop :=
  sem_nsems s' = sem_nsems s /\ sem_pending s' = sem_pending s /\
  forall u, is_Some (undos s !! u) -> is_Some (undos s' !! u).

Lemma frame_equiv s s' : s' ≡ s -> frame s s'.
Proof. intros (Hv & Hu & Hp). unfold frame, sem_nsems. by rewrite Hv, Hu, Hp. Qed.
Lemma frame_trans s1 s2 s3 : frame s1 s2 -> frame s2 s3 -> frame s1 s3.
Proof. intros (H1 & H2 & H3) (K1 & K2 & K3). split_and!; [congruence..|]. auto. Qed.

Lemma un_ok_frame s s' un : frame s s' -> un_ok s un -> un_ok s' un.
Proof. intros (_ & _ & H). destruct un; [|done]. cbn. auto. Qed.
Lemma sop_ok_nsems s s' un sop : sem_nsems s' = sem_nsems s -> sop_ok s un sop -> sop_ok s' un sop.
Proof. intros H [H1 H2]. split; [by rewrite H|done]. Qed.
Lemma entry_ok_frame s s' q : frame s s' -> entry_ok s q -> entry_ok s' q.
Proof.
  intros Hf (H1 & H2 & H3 & H4). split; [by eapply un_ok_frame|]. split; [done|]. split; [|done].
  eapply Forall_impl; [exact H3|]. intros sop. apply sop_ok_nsems. apply Hf.
Qed.
Lemma vals_ok_equiv m s s' : s' ≡ s -> vals_ok m s -> vals_ok m s'.
Proof. intros (Hv & Hu & _). unfold vals_ok, undos_ok, sem_nsems. by rewrite Hv, Hu. Qed.

Lemma moved_frame s un v a s' : moved s un v a s' -> length v = length (semvals s) -> frame s s'.
Proof.
  intros (H1 & H2 & H3) Hl. split_and!; [|done|].
  - unfold sem_nsems, len. by rewrite H1, Hl.
  - intros u Hu. rewrite H3. destruct un as [u'|]; [|done].
    destruct (decide (u = u')) as [->|]; [by rewrite lookup_insert_eq; eexists|].
    by rewrite lookup_insert_ne.
Qed.

Lemma try_ok m s sops un pid do_undo : SEMVMX <= m ->
  vals_ok m s -> un_ok s un -> Forall (sop_ok s un) sops ->
  let '(e, s') := try_atomic_semop s sops un pid do_undo in vals_ok m s' /\ frame s s'.
Proof.
  intros Hm [Hv Hs] Hu Hops. pose proof (try_atomic_spec s sops un pid do_undo Hs Hu Hops) as H.
  destruct (try_atomic_semop _ _ _ _ _) as [e s'].
  assert (s' ≡ s -> vals_ok m s' /\ frame s s') as Hsame.
  { intros E. split; [by apply (vals_ok_equiv m s)|by apply frame_equiv]. }
  destruct (run_ops _ _ _) as [[v a]|e'] eqn:E; [|apply Hsame, H].
  destruct H as [_ H]. destruct do_undo; [by apply Hsame|].
  destruct (run_ops_range m _ _ _ _ _ Hm Hv E) as [Hv' Hl].
  split; [|by eapply moved_frame]. split; [by rewrite (proj1 H)|].
  eapply (proj1 (moved_ok s un v a s' Hs H _ _)).
  Unshelve.
  - unfold sem_nsems, len. by rewrite Hl.
  - intros Hun. pose proof (semadj_ok s un Hs Hu Hun). by eapply run_ops_adj.
Qed.

Lemma update_loop_ok m qs : forall s, SEMVMX <= m -> vals_ok m s -> Forall (entry_ok s) qs ->
  let '(qs', s', out) := update_loop qs s in vals_ok m s' /\ frame s s' /\ Forall (entry_ok s') qs'.
Proof.
  induction qs as [|q qs IH]; intros s Hm Hs Hqs; [by split_and!|].
  apply Forall_cons in Hqs as [Hq Hqs]. cbn [update_loop].
  destruct (q_status q =? 1).
  { specialize (IH s Hm Hs Hqs). destruct (update_loop qs s) as [[qs' s'] out].
    destruct IH as (H1 & H2 & H3). split_and!; [done..|]. constructor; [|done]. by eapply entry_ok_frame. }
  pose proof (try_ok m s (q_sops q) (q_undo q) (q_pid q) (q_alter q) Hm Hs) as Ht.
  destruct (try_atomic_semop _ _ _ _ _) as [e s1].
  destruct Ht as [Hs1 Hf1]; [apply Hq..|].
  assert (Forall (entry_ok s1) qs) as Hqs1.
  { eapply Forall_impl; [exact Hqs|]. intros x. by apply entry_ok_frame. }
  pose proof (entry_ok_frame _ _ _ Hf1 Hq) as Hq1.
  destruct ((e =? 0) && q_alter q) eqn:E; [destruct (e <=? 0)|].
  - split_and!; [done..|]. constructor; [|done]. destruct Hq1 as (K1 & K2 & K3 & K4 & K5).
    split; [done|]. split; [done|]. split; [done|]. split; [|done]. intros _.
    by apply andb_true_iff in E as [_ E].
  - specialize (IH s1 Hm Hs1 Hqs1). destruct (update_loop qs s1) as [[qs' s'] out].
    destruct IH as (H1 & H2 & H3). split_and!; [done|by eapply frame_trans|].
    constructor; [|done]. by eapply entry_ok_frame.
  - specialize (IH s1 Hm Hs1 Hqs1). destruct (update_loop qs s1) as [[qs' s'] out].
    destruct IH as (H1 & H2 & H3). destruct (e <=? 0); split_and!; try done; try by eapply frame_trans.
    constructor; [|done]. by eapply entry_ok_frame.
Qed.

Lemma with_pending_ok m s qs : vals_ok m s -> Forall (entry_ok s) qs -> set_ok m (s <| sem_pending := qs |>).
Proof.
  intros Hs Hqs. split; [done|]. eapply Forall_impl; [exact Hqs|]. by intros q.
Qed.

Lemma update_queue_ok m s : SEMVMX <= m -> set_ok m s -> set_ok m (update_queue s).1.
Proof.
  intros Hm [Hs Hq]. unfold update_queue. pose proof (update_loop_ok m (sem_pending s) s Hm Hs Hq) as H.
  destruct (update_loop _ _) as [[qs s'] out]. destruct H as (H1 & _ & H3). by apply with_pending_ok.
Qed.

(** ** Wake-ups *)

(** An operation that sleeps without decreasing anything does not increase anything either. *)
Definition patient (q : sem_queue) : Prop :=
  q_alter q = true \/ Forall (fun sop => sem_op sop = 0) (q_sops q).

(** Somebody who can go on has been told, if anybody can. *)
Definition told (s : sem_array) (qs : list sem_queue) : Prop :=
  forall q, q ∈ qs -> q_status q <> 1 -> ready s q = true ->
  exists q', q' ∈ qs /\ q_status q' = 1 /\ ready s q' = true.
Definition awake_ok (s : sem_array) : Prop := told s (sem_pending s).

Lemma ready_same s s' q : semvals s' = semvals s -> undos s' = undos s -> ready s' q = ready s q.
Proof. intros Hv Hu. unfold ready, semadj. by rewrite Hv, Hu. Qed.

Lemma told_same s s' qs : (forall q, q ∈ qs -> ready s' q = ready s q) -> told s qs -> told s' qs.
Proof.
  intros E H q Hq Hst Hr. rewrite E in Hr by done. destruct (H q Hq Hst Hr) as (q' & K1 & K2 & K3).
  exists q'. by rewrite E.
Qed.

Lemma told_cons s q qs : (q_status q = 1 \/ ready s q = false) -> told s qs -> told s (q :: qs).
Proof.
  intros Hq Hqs x [->|Hx]%elem_of_cons Hst Hr; [destruct Hq; congruence|].
  destruct (Hqs x Hx Hst Hr) as (q' & ? & ?). exists q'. split; [by right|done].
Qed.

Lemma ready_set_status s q st : ready s (q <| q_status := st |>) = ready s q.
Proof. done. Qed.

(** A trial, an operation that only waits for zero, and one that has to wait change nothing. *)
Lemma try_same s sops un pid do_undo e s' : undos_ok s -> un_ok s un -> Forall (sop_ok s un) sops ->
  try_atomic_semop s sops un pid do_undo = (e, s') ->
  (do_undo = true \/ Forall (fun sop => sem_op sop = 0) sops \/ 0 < e) -> s' ≡ s.
Proof.
  intros Hs Hu Hops E He. pose proof (try_atomic_spec s sops un pid do_undo Hs Hu Hops) as H. rewrite E in H.
  destruct (run_ops _ _ _) as [[v a]|e'] eqn:Er; [|apply H]. destruct H as [-> H].
  destruct do_undo; [done|]. destruct He as [|[Hz|]]; [done| |lia]. apply run_ops_zero in Er as [-> ->].
  - destruct H as (H1 & H2 & H3). split_and!; [done| |done]. rewrite H3. symmetry. by apply semadj_id.
  - apply Forall_and. split; [done|]. eapply Forall_impl; [exact Hops|]. by intros x [? _].
  - intros Hf. apply existsb_exists in Hf as (x & Hx & Hxf).
    rewrite Forall_forall in Hops. destruct (Hops x) as [_ Hun]; [by apply list_elem_of_In|].
    apply (semadj_ok s un Hs Hu). auto.
Qed.

Lemma try_ready s q do_undo pid e s' : undos_ok s -> entry_ok s q ->
  try_atomic_semop s (q_sops q) (q_undo q) pid do_undo = (e, s') -> ready s q = (e <=? 0).
Proof.
  intros Hs (Hu & _ & Hops & _) E. pose proof (try_atomic_spec s _ _ pid do_undo Hs Hu Hops) as H.
  rewrite E in H. unfold ready. by destruct (run_ops _ _ _) as [[v a]|e']; destruct H as [-> _].
Qed.

Lemma update_loop_patient m qs : forall s, vals_ok m s -> Forall (entry_ok s) qs -> Forall patient qs ->
  let '(qs', s', out) := update_loop qs s in s' ≡ s /\ told s qs' /\ Forall patient qs'.
Proof.
  induction qs as [|q qs IH]; intros s Hs Hqs Hp; [split_and!; [done| |done]; by intros ? ?%elem_of_nil|].
  apply Forall_cons in Hqs as [Hq Hqs]. apply Forall_cons in Hp as [Hpq Hp]. cbn [update_loop].
  destruct (Z.eqb_spec (q_status q) 1) as [E|E].
  { specialize (IH s Hs Hqs Hp). destruct (update_loop qs s) as [[qs' s'] out].
    destruct IH as (H1 & H2 & H3). split_and!; [done| |by constructor]. apply told_cons; auto. }
  destruct (try_atomic_semop _ _ _ _ _) as [e s1] eqn:Et.
  pose proof (try_ready s q _ _ _ _ (proj2 Hs) Hq Et) as Hr.
  assert (s1 ≡ s) as E1.
  { destruct Hq as (Hu & _ & Hops & _). apply (try_same _ _ _ _ _ _ _ (proj2 Hs) Hu Hops Et).
    destruct Hpq; auto. }
  specialize (IH s1). destruct (update_loop qs s1) as [[qs' s'] out].
  destruct IH as (H1 & H2 & H3); [by eapply vals_ok_equiv| |done|].
  { eapply Forall_impl; [exact Hqs|]. intros x. by apply entry_ok_frame, frame_equiv. }
  rewrite E1 in H1. apply (told_same _ s) in H2; [|intros x _; apply ready_same; symmetry; apply E1].
  destruct (e <=? 0); [destruct ((e =? 0) && q_alter q)|]; split_and!; try done.
  - intros x _ _ _. exists (q <| q_status := 1 |>). split_and!; [by left|done|]. by rewrite ready_set_status.
  - by constructor.
  - apply told_cons; auto.
  - by constructor.
Qed.

(** ** Events *)
Inductive event :=
  | Semop (pid : Z) (sops : list sembuf)
  | Wake (pid : Z)
  | Semctl (pid : Z) (cmd : command)
  | Exit (pid : Z).

(** [SETALL] has an unsigned value for each semaphore. *)
Definition command_ok (s : sem_array) (cmd : command) : Prop :=
  match cmd with
  | SETALL vals => length vals = length (semvals s) /\ Forall (fun v => 0 <= v) vals
  | _ => True
  end.

(** A process that is on the queue sleeps: it does not call anything. [Wake] is the sleeper running
    again, after a wake-up or after a signal. *)
Inductive step : sem_array -> event -> sem_array -> Prop :=
  | step_semop s c pid sops e s' out :
      Forall (fun sop => 0 <= sem_num sop) sops ->
      Forall (fun q => q_pid q <> pid) (sem_pending s) ->
      semop_start c pid sops s = (e, s', out) -> step s (Semop pid sops) s'
  | step_wake s l1 q l2 e s' out :
      sem_pending s = l1 ++ q :: l2 ->
      semop_resume l1 q l2 s = (e, s', out) -> step s (Wake (q_pid q)) s'
  | step_semctl s c pid cmd e vals s' out :
      command_ok s cmd -> semctl_main c pid cmd s = (e, vals, s', out) -> step s (Semctl pid cmd) s'
  | step_exit s pid s' out :
      Forall (fun q => q_pid q <> pid) (sem_pending s) ->
      sem_exit pid s = (s', out) -> step s (Exit pid) s'.

(** *** Every event keeps the set well formed *)
Lemma finish_ok m b s : SEMVMX <= m -> set_ok m s -> set_ok m (finish b s).1.
Proof. intros Hm Hs. destruct b; [|done]. by apply update_queue_ok. Qed.

Lemma get_undo_frame pid s : frame s (get_undo pid s) /\ un_ok (get_undo pid s) (Some pid).
Proof.
  unfold get_undo. destruct (undos s !! pid) eqn:E; [by split; [|eexists]|].
  split; [split_and!; [done..|]|]; cbn.
  - intros u Hu. destruct (decide (u = pid)) as [->|]; [by rewrite lookup_insert_eq; eexists|].
    by rewrite lookup_insert_ne.
  - rewrite lookup_insert_eq. by eexists.
Qed.

Lemma adj_ok_zero n : adj_ok (Z.of_nat n) (replicate n 0).
Proof. split; [unfold len; by rewrite length_replicate|]. apply Forall_replicate. lia. Qed.

Lemma get_undo_ok m pid s : vals_ok m s -> vals_ok m (get_undo pid s).
Proof.
  intros [Hv Hs]. unfold get_undo. destruct (undos s !! pid) eqn:E; [done|]. split; [done|].
  intros u a. cbn. destruct (decide (u = pid)) as [->|].
  - rewrite lookup_insert_eq. intros [=<-]. apply adj_ok_zero.
  - rewrite lookup_insert_ne by done. apply Hs.
Qed.

(** The set and the undo structure that [sys_semop] uses. *)
Definition undo_of (pid : Z) (sops : list sembuf) : option Z :=
  if existsb undo_flag sops then Some pid else None.
Definition with_undo (pid : Z) (sops : list sembuf) (s : sem_array) : sem_array :=
  if existsb undo_flag sops then get_undo pid s else s.

Lemma with_undo_ok m pid sops s : vals_ok m s ->
  vals_ok m (with_undo pid sops s) /\ frame s (with_undo pid sops s) /\
  un_ok (with_undo pid sops s) (undo_of pid sops).
Proof.
  intros Hs. unfold with_undo, undo_of. destruct (existsb _ _); [|by split_and!].
  destruct (get_undo_frame pid s). split; [by apply get_undo_ok|done].
Qed.

Definition decreases (sops : list sembuf) : bool := existsb (fun sop => sem_op sop <? 0) sops.
Definition alters (sops : list sembuf) : bool :=
  existsb (fun sop => 0 <? sem_op sop) sops || decreases sops.
Definition entry (pid : Z) (sops : list sembuf) : sem_queue :=
  Queue sops (undo_of pid sops) pid (- EINTR) (decreases sops) (alters sops).

(** What [semop_start] does: it refuses, it returns, or it sleeps. *)
Inductive started (pid : Z) (sops : list sembuf) (s : sem_array) : sem_array -> Prop :=
  | started_refused : started pid sops s s
  | started_returns e s2 : Forall (fun sop => sem_num sop < sem_nsems s) sops ->
      try_atomic_semop (with_undo pid sops s) sops (undo_of pid sops) pid false = (e, s2) ->
      e <= 0 -> started pid sops s (finish (alters sops) s2).1
  | started_sleeps e s2 : Forall (fun sop => sem_num sop < sem_nsems s) sops ->
      try_atomic_semop (with_undo pid sops s) sops (undo_of pid sops) pid false = (e, s2) -> 0 < e ->
      started pid sops s (s2 <| sem_pending := if alters sops then sem_pending s2 ++ [entry pid sops]
                                               else entry pid sops :: sem_pending s2 |>).

Lemma with_undo_alloc c pid sops s : (if existsb undo_flag sops then alloc_undo c pid s else (0, s)) =
  (0, with_undo pid sops s) \/
  exists e, e <> 0 /\ (if existsb undo_flag sops then alloc_undo c pid s else (0, s)) = (e, s).
Proof.
  unfold with_undo, alloc_undo, get_undo. destruct (existsb _ _); [|by left].
  destruct (undos s !! pid); [by left|]. destruct (negb _); [right; exists (- ENOMEM); split; [unfold ENOMEM; lia|done]|].
  unfold truth. destruct (Z.eqb_spec (c_revalidate c) 0); cbn; [by left|]. right. by exists (c_revalidate c).
Qed.

Lemma semop_started c pid sops s e s' out :
  semop_start c pid sops s = (e, s', out) -> started pid sops s s'.
Proof.
  intros H. unfold semop_start in H.
  destruct (_ || _) in H; [injection H as <- <- <-; constructor|].
  destruct (SEMOPM <? _); [injection H as <- <- <-; constructor|].
  destruct (_ && _) in H; [injection H as <- <- <-; constructor|].
  do 3 (destruct (negb _) in H; [injection H as <- <- <-; constructor|]).
  destruct (forallb _ sops) eqn:Ef; cbn [negb] in H; [|injection H as <- <- <-; constructor].
  assert (Forall (fun sop => sem_num sop < sem_nsems s) sops) as Hn.
  { apply Forall_forall. intros x Hx. rewrite forallb_forall in Ef.
    apply Z.ltb_lt, Ef. by apply list_elem_of_In. }
  destruct (negb _) in H; [injection H as <- <- <-; constructor|].
  fold (decreases sops) (alters sops) (undo_of pid sops) in H.
  destruct (with_undo_alloc c pid sops s) as [E|(e0 & He0 & E)]; rewrite E in H; cbn [truth] in H.
  2:{ unfold truth in H. rewrite (proj2 (Z.eqb_neq e0 0)) in H by done.
      injection H as <- <- <-. constructor. }
  change (truth 0) with false in H. cbv iota in H.
  destruct (try_atomic_semop _ _ _ _ _) as [e1 s2] eqn:Et.
  destruct (Z.leb_spec e1 0).
  - destruct (finish _ s2) as [s3 o] eqn:Efi. injection H as <- <- <-.
    pose proof (started_returns pid sops s e1 s2 Hn Et) as K. rewrite Efi in K. auto.
  - injection H as <- <- <-. by eapply started_sleeps.
Qed.

Lemma undo_of_ok pid sops s : Forall (fun sop => 0 <= sem_num sop) sops ->
  Forall (fun sop => sem_num sop < sem_nsems s) sops -> Forall (sop_ok s (undo_of pid sops)) sops.
Proof.
  rewrite !Forall_forall. intros H0 Hn x Hx. split; [auto|]. intros Hf. unfold undo_of.
  assert (existsb undo_flag sops = true) as ->; [|by eexists].
  apply existsb_exists. exists x. by rewrite <- list_elem_of_In.
Qed.

Lemma not_alters sops : alters sops = false -> Forall (fun sop => sem_op sop = 0) sops.
Proof.
  unfold alters, decreases. intros [H1 H2]%orb_false_iff. apply Forall_forall. intros x Hx.
  pose proof (existsb_false _ _ _ H1 Hx). pose proof (existsb_false _ _ _ H2 Hx). cbn in *. lia.
Qed.

Lemma entry_is_ok pid sops s : un_ok s (undo_of pid sops) -> Forall (sop_ok s (undo_of pid sops)) sops ->
  entry_ok s (entry pid sops).
Proof.
  intros Hu Hops. split_and!; cbn; try done.
  - unfold undo_of. intros u. destruct (existsb _ _); congruence.
  - unfold alters. intros ->. apply orb_true_r.
  - apply not_alters.
Qed.

(** [m] grows when somebody exits: the adjustments are not checked against SEMVMX. *)
Definition bound_after (m : Z) (e : event) : Z := match e with Exit _ => m + 32767 | _ => m end.

Lemma try_set_ok m s sops un pid do_undo e s' : SEMVMX <= m -> set_ok m s -> un_ok s un ->
  Forall (sop_ok s un) sops -> try_atomic_semop s sops un pid do_undo = (e, s') ->
  set_ok m s' /\ frame s s'.
Proof.
  intros Hm [Hs Hq] Hu Hops E. pose proof (try_ok m s sops un pid do_undo Hm Hs Hu Hops) as H.
  rewrite E in H. destruct H as [Hs' Hf]. split; [|done]. split; [done|].
  rewrite (proj1 (proj2 Hf)). eapply Forall_impl; [exact Hq|]. intros q. by apply entry_ok_frame.
Qed.

Lemma with_undo_set_ok m pid sops s : set_ok m s ->
  Forall (fun sop => 0 <= sem_num sop) sops -> Forall (fun sop => sem_num sop < sem_nsems s) sops ->
  set_ok m (with_undo pid sops s) /\ un_ok (with_undo pid sops s) (undo_of pid sops) /\
  Forall (sop_ok (with_undo pid sops s) (undo_of pid sops)) sops.
Proof.
  intros [Hs Hq] H0 Hn. destruct (with_undo_ok m pid sops s Hs) as (H1 & Hf & H3).
  split; [split; [done|]|].
  - rewrite (proj1 (proj2 Hf)). eapply Forall_impl; [exact Hq|]. intros q. by apply entry_ok_frame.
  - split; [done|]. apply undo_of_ok; [done|]. by rewrite (proj1 Hf).
Qed.

Lemma started_ok m pid sops s s' : SEMVMX <= m -> set_ok m s ->
  Forall (fun sop => 0 <= sem_num sop) sops -> started pid sops s s' -> set_ok m s'.
Proof.
  intros Hm Hs H0 [|e s2 Hn Et He|e s2 Hn Et He]; [done|..];
    destruct (with_undo_set_ok m pid sops s Hs H0 Hn) as (H1 & H2 & H3);
    destruct (try_set_ok _ _ _ _ _ _ _ _ Hm H1 H2 H3 Et) as [Hs2 Hf2].
  - by apply finish_ok.
  - apply with_pending_ok; [apply Hs2|].
    assert (entry_ok s2 (entry pid sops)).
    { apply (entry_ok_frame _ _ _ Hf2). by apply entry_is_ok. }
    destruct (alters sops); [apply Forall_app; split|constructor]; try done; try apply Hs2. by constructor.
Qed.

Lemma pending_mid m s l1 q l2 : set_ok m s -> sem_pending s = l1 ++ q :: l2 ->
  entry_ok s q /\ Forall (entry_ok s) (l1 ++ l2) /\ vals_ok m s.
Proof.
  intros [Hs Hq] E. rewrite E in Hq. apply Forall_app in Hq as [H1 [H2 H3]%Forall_cons].
  split; [done|]. split; [by apply Forall_app|done].
Qed.

Lemma entry_ok_status s q st : st <> 1 -> entry_ok s q -> entry_ok s (q <| q_status := st |>).
Proof. intros Hst (H1 & H2 & H3 & H4 & H5). do 3 (split; [done|]). by split. Qed.

Lemma resume_ok m l1 q l2 s e s' out : SEMVMX <= m -> set_ok m s -> sem_pending s = l1 ++ q :: l2 ->
  semop_resume l1 q l2 s = (e, s', out) -> set_ok m s'.
Proof.
  intros Hm Hs Ep H. destruct (pending_mid m s l1 q l2 Hs Ep) as (Hq & Hqs & Hv).
  unfold semop_resume in H. destruct (q_status q =? 1).
  - destruct (try_atomic_semop _ _ _ _ _) as [e1 s1] eqn:Et.
    destruct (try_set_ok m _ _ _ _ _ _ _ Hm Hs (proj1 Hq) (proj1 (proj2 (proj2 Hq))) Et) as [Hs1 Hf].
    assert (Forall (entry_ok s1) (l1 ++ l2)) as Hqs1.
    { eapply Forall_impl; [exact Hqs|]. intros x. by apply entry_ok_frame. }
    destruct (e1 <=? 0).
    + pose proof (finish_ok m (q_writes q) (s1 <| sem_pending := l1 ++ l2 |>) Hm) as K.
      destruct (finish _ _) as [s2 o]. injection H as <- <- <-. apply K.
      apply with_pending_ok; [apply Hs1|done].
    + injection H as <- <- <-. apply with_pending_ok; [apply Hs1|].
      apply Forall_app in Hqs1 as [K1 K2]. apply Forall_app. split; [done|]. constructor; [|done].
      apply entry_ok_status; [done|]. by apply (entry_ok_frame s).
  - pose proof (finish_ok m (q_writes q) (s <| sem_pending := l1 ++ l2 |>) Hm) as K.
    destruct (finish _ _) as [s2 o]. injection H as <- <- <-. apply K. by apply with_pending_ok.
Qed.

(** The values and the adjustments that a whole-set operation writes. *)
Lemma rewritten_ok m s v f pids : set_ok m s -> in_range m v -> length v = length (semvals s) ->
  (forall a, adj_ok (sem_nsems s) a -> adj_ok (sem_nsems s) (f a)) ->
  set_ok m (SemArray v pids (sem_pending s) (f <$> undos s)).
Proof.
  intros [[Hv Hs] Hq] Hv' Hl Hf.
  assert (sem_nsems (SemArray v pids (sem_pending s) (f <$> undos s)) = sem_nsems s) as En.
  { unfold sem_nsems, len. cbn. by rewrite Hl. }
  split; [split; [done|]|].
  - intros u a. rewrite En. cbn. rewrite lookup_fmap. intros (b & Hb & ->)%fmap_Some. apply Hf. by eapply Hs.
  - eapply Forall_impl; [exact Hq|]. intros q. apply entry_ok_frame. split_and!; [done..|].
    intros u. cbn. rewrite lookup_fmap. by intros [a ->]; eexists.
Qed.

(** [s'] is [s], or what [update_queue] makes of a rewritten [s]. *)
Definition rewritten (m : Z) (s s' : sem_array) : Prop :=
  s' = s \/ exists s1, set_ok m s1 /\ sem_nsems s1 = sem_nsems s /\ sem_pending s1 = sem_pending s /\
    s' = (update_queue s1).1.

Lemma rewritten_set_ok m s s' : SEMVMX <= m -> set_ok m s -> rewritten m s s' -> set_ok m s'.
Proof. intros Hm Hs [->|(s1 & H1 & _ & _ & ->)]; [done|]. by apply update_queue_ok. Qed.

Lemma setval_rewrites m pid semnum val s e s' out : SEMVMX <= m -> set_ok m s ->
  setval pid semnum val s = (e, s', out) -> rewritten m s s'.
Proof.
  intros Hm Hs H. unfold setval in H.
  destruct (_ || _) eqn:E2 in H; [injection H as <- <- <-; by left|]. right.
  match type of H with context [update_queue ?t] => exists t; destruct (update_queue t) as [s2 o] end.
  injection H as <- <- <-. split; [|split; [apply len_set|done]].
  apply (rewritten_ok m s _ (fun a => set_at a semnum 0)); [done|..].
  - apply Forall_insert; [apply Hs|]. unfold SEMVMX in *. bool_hyps. lia.
  - unfold set_at. apply length_insert.
  - intros a Ha. apply adj_ok_set; [done|lia].
Qed.

Lemma setall_rewrites m c vals s e s' out : SEMVMX <= m -> set_ok m s -> length vals = length (semvals s) ->
  Forall (fun v => 0 <= v) vals -> setall c vals s = (e, s', out) -> rewritten m s s'.
Proof.
  intros Hm Hs Hl H0 H. unfold setall in H.
  destruct (_ && _) in H; [injection H as <- <- <-; by left|].
  destruct (negb _) in H; [injection H as <- <- <-; by left|].
  destruct (existsb _ vals) eqn:E; [injection H as <- <- <-; by left|].
  destruct (truth _) in H; [injection H as <- <- <-; by left|]. right.
  match type of H with context [update_queue ?t] => exists t; destruct (update_queue t) as [s2 o] end.
  injection H as <- <- <-. split; [|split; [unfold sem_nsems, len; cbn; by rewrite Hl|done]].
  apply (rewritten_ok m s _ (fun _ => replicate (length vals) 0)); [done| |done|].
  - apply Forall_forall. intros x Hx. rewrite Forall_forall in H0. split; [auto|].
    apply (existsb_false _ _ _ E) in Hx. lia.
  - intros a _. unfold sem_nsems, len. rewrite <- Hl. apply adj_ok_zero.
Qed.

Definition reads_only (cmd : command) : bool :=
  match cmd with SETVAL _ _ | SETALL _ => false | _ => true end.

Lemma semctl_reads c pid cmd s e vals s' out : reads_only cmd = true ->
  semctl_main c pid cmd s = (e, vals, s', out) -> s' = s.
Proof.
  intros Hc H. unfold semctl_main in H.
  do 3 (destruct (negb _) in H; [by injection H as <- <- <- <-|]).
  destruct cmd; try discriminate Hc; cbv beta zeta in H;
    try (destruct (_ || _) in H; by injection H as <- <- <- <-).
  destruct (getall c s). by injection H as <- <- <- <-.
Qed.

Lemma semctl_rewrites m c pid cmd s e vals s' out : SEMVMX <= m -> set_ok m s -> command_ok s cmd ->
  semctl_main c pid cmd s = (e, vals, s', out) -> rewritten m s s'.
Proof.
  intros Hm Hs Hc H. destruct (reads_only cmd) eqn:Er; [left; by eapply semctl_reads|].
  unfold semctl_main in H. do 3 (destruct (negb _) in H; [injection H as <- <- <- <-; by left|]).
  destruct cmd as [|vs| | | | |semnum val]; try discriminate Er; cbv beta zeta in H.
  - destruct (setall c vs s) as [[e1 s1] o1] eqn:E. injection H as <- <- <- <-.
    destruct Hc. by eapply setall_rewrites.
  - destruct (_ || _) in H; [injection H as <- <- <- <-; by left|].
    destruct (setval pid semnum val s) as [[e1 s1] o1] eqn:E. injection H as <- <- <- <-.
    by eapply setval_rewrites.
Qed.

Lemma filter_others pid (qs : list sem_queue) : Forall (fun q => q_pid q <> pid) qs ->
  filter (fun q => q_pid q <> pid) qs = qs.
Proof. induction 1 as [|q qs Hq _ IH]; [done|]. rewrite filter_cons_True by done. by rewrite IH. Qed.

(** The set that [sem_exit] hands to [update_queue]. *)
Definition after_exit (pid : Z) (adj : list Z) (s : sem_array) : sem_array :=
  SemArray (zip_with adjust (semvals s) adj) (replicate (length (sempids s)) pid) (sem_pending s)
    (delete pid (undos s)).

Lemma sem_exit_eq pid s : Forall (fun q => q_pid q <> pid) (sem_pending s) ->
  sem_exit pid s =
  match undos s !! pid with
  | None => (s, [])
  | Some adj => update_queue (after_exit pid adj s)
  end.
Proof.
  intros H. unfold sem_exit. cbv zeta. rewrite filter_others by done.
  cbn [undos update]. by destruct (undos s !! pid), s.
Qed.

Lemma after_exit_nsems m pid adj s : set_ok m s -> undos s !! pid = Some adj ->
  sem_nsems (after_exit pid adj s) = sem_nsems s.
Proof.
  intros [[_ Hs] _] Ha. destruct (Hs _ _ Ha) as [Hl _]. unfold sem_nsems, len in *. cbn.
  rewrite length_zip_with. lia.
Qed.

Lemma after_exit_ok m pid adj s : 0 <= m -> set_ok m s -> undos s !! pid = Some adj ->
  Forall (fun q => q_pid q <> pid) (sem_pending s) -> set_ok (m + 32767) (after_exit pid adj s).
Proof.
  intros Hm Hok Ha Hpid. pose proof (after_exit_nsems m pid adj s Hok Ha) as En.
  destruct Hok as [[Hv Hs] Hq]. destruct (Hs _ _ Ha) as [Hl Hr].
  split; [split|].
  - cbn. clear -Hv Hr Hm. revert adj Hr. induction Hv as [|v vs Hv _ IH]; intros [|a adj] Hr; cbn; try constructor.
    + apply Forall_cons in Hr as [Hr _]. unfold adjust. case_cmp; lia.
    + apply IH. by apply Forall_cons in Hr as [_ Hr].
  - intros u a. rewrite En. cbn. intros [_ Hu]%lookup_delete_Some. by eapply Hs.
  - cbn. rewrite Forall_forall in Hq, Hpid. apply Forall_forall. intros q Hqin.
    destruct (Hq q Hqin) as (H1 & H2 & H3 & H4). split_and!; [|done| |apply H4..].
    + destruct (q_undo q) as [u|] eqn:Eu; [|done]. cbn in *. rewrite lookup_delete_ne; [done|].
      intros <-. by apply (Hpid q Hqin), eq_sym, H2.
    + eapply Forall_impl; [exact H3|]. intros sop. by apply sop_ok_nsems.
Qed.

Lemma exit_rewrites m pid s s' out : SEMVMX <= m -> set_ok m s ->
  Forall (fun q => q_pid q <> pid) (sem_pending s) -> sem_exit pid s = (s', out) ->
  rewritten (m + 32767) s s'.
Proof.
  intros Hm Hs Hpid H. rewrite sem_exit_eq in H by done. unfold SEMVMX in Hm.
  destruct (undos s !! pid) as [adj|] eqn:E; [|injection H as <- <-; by left].
  right. exists (after_exit pid adj s). split; [apply after_exit_ok; [lia|done..]|].
  split; [by eapply after_exit_nsems|]. by rewrite H.
Qed.

Lemma set_ok_mono m m' s : m <= m' -> set_ok m s -> set_ok m' s.
Proof.
  intros Hm [[Hv Hu] Hq]. split; [split|]; [|done..]. eapply Forall_impl; [exact Hv|]. cbn. lia.
Qed.

Lemma step_set_ok m s ev s' : SEMVMX <= m -> set_ok m s -> step s ev s' -> set_ok (bound_after m ev) s'.
Proof.
  intros Hm Hs H. destruct H as [s c pid sops e s' out H0 _ H|s l1 q l2 e s' out Ep H
    |s c pid cmd e vals s' out Hc H|s pid s' out Hpid H]; cbn.
  - apply semop_started in H. by eapply started_ok.
  - by eapply resume_ok.
  - eapply rewritten_set_ok; [done|exact Hs|]. by eapply semctl_rewrites.
  - apply (rewritten_set_ok _ s); [lia| |by eapply exit_rewrites]. apply (set_ok_mono m); [lia|done].
Qed.

(** *** The number of semaphores never changes *)
Lemma finish_nsems m b s : SEMVMX <= m -> set_ok m s -> sem_nsems (finish b s).1 = sem_nsems s.
Proof.
  intros Hm [Hs Hq]. destruct b; [|done]. cbn. unfold update_queue.
  pose proof (update_loop_ok m (sem_pending s) s Hm Hs Hq) as H.
  destruct (update_loop _ _) as [[qs s'] out]. apply H.
Qed.

Lemma rewritten_nsems m s s' : SEMVMX <= m -> rewritten m s s' -> sem_nsems s' = sem_nsems s.
Proof. intros Hm [->|(s1 & H1 & <- & _ & ->)]; [done|]. by apply (finish_nsems m true). Qed.

Lemma step_nsems m s ev s' : SEMVMX <= m -> set_ok m s -> step s ev s' -> sem_nsems s' = sem_nsems s.
Proof.
  intros Hm Hs H. destruct H as [s c pid sops e s' out H0 _ H|s l1 q l2 e s' out Ep H
    |s c pid cmd e vals s' out Hc H|s pid s' out Hpid H].
  - apply semop_started in H. destruct H as [|e' s2 Hn Et He|e' s2 Hn Et He]; [done|..];
      destruct (with_undo_set_ok m pid sops s Hs H0 Hn) as (H1 & H2 & H3);
      destruct (with_undo_ok m pid sops s (proj1 Hs)) as (_ & Hf & _);
      destruct (try_set_ok _ _ _ _ _ _ _ _ Hm H1 H2 H3 Et) as [Hs2 Hf2];
      destruct (frame_trans _ _ _ Hf Hf2) as (En & _ & _); [|done]. by rewrite (finish_nsems m).
  - destruct (pending_mid m s l1 q l2 Hs Ep) as (Hq & Hqs & Hv). unfold semop_resume in H.
    destruct (q_status q =? 1).
    + destruct (try_atomic_semop _ _ _ _ _) as [e1 s1] eqn:Et.
      destruct (try_set_ok m _ _ _ _ _ _ _ Hm Hs (proj1 Hq) (proj1 (proj2 (proj2 Hq))) Et) as [Hs1 Hf].
      destruct (e1 <=? 0); [|injection H as <- <- <-; apply Hf].
      rewrite <- (proj1 Hf). pose proof (finish_nsems m (q_writes q) (s1 <| sem_pending := l1 ++ l2 |>) Hm) as K.
      destruct (finish _ _) as [s2 o]. injection H as <- <- <-. apply K. apply with_pending_ok; [apply Hs1|].
      eapply Forall_impl; [exact Hqs|]. intros x. by apply entry_ok_frame.
    + pose proof (finish_nsems m (q_writes q) (s <| sem_pending := l1 ++ l2 |>) Hm) as K.
      destruct (finish _ _) as [s2 o]. injection H as <- <- <-. apply K. by apply with_pending_ok.
  - apply (rewritten_nsems m); [done|]. by eapply semctl_rewrites.
  - apply (rewritten_nsems (m + 32767)); [lia|]. by eapply exit_rewrites.
Qed.

(** *** Every event keeps the wake-ups *)

(** Operations that wait for zero and increase, but decrease nothing; see
    [lost_wakeup_after_increase]. *)
Definition mixed (sops : list sembuf) : bool :=
  negb (decreases sops) && existsb (fun sop => 0 <? sem_op sop) sops
  && existsb (fun sop => sem_op sop =? 0) sops.

Definition plain (ev : event) : Prop :=
  match ev with Semop _ sops => mixed sops = false | _ => True end.

Definition awake_inv (s : sem_array) : Prop := Forall patient (sem_pending s) /\ awake_ok s.

Lemma update_queue_awake m s : set_ok m s -> Forall patient (sem_pending s) ->
  awake_inv (update_queue s).1.
Proof.
  intros [Hs Hq] Hp. unfold update_queue. pose proof (update_loop_patient m _ s Hs Hq Hp) as H.
  destruct (update_loop _ _) as [[qs s'] out]. destruct H as (H1 & H2 & H3). split; [done|].
  apply (told_same s); [|exact H2]. intros x _. apply ready_same; apply H1.
Qed.

Lemma told_app s l1 l2 : told s (l1 ++ l2) -> forall q, (q_status q = 1 \/ ready s q = false) ->
  told s (l1 ++ q :: l2).
Proof.
  intros H q Hq x Hx Hst Hr. assert (x ∈ l1 ++ l2) as Hx'.
  { apply elem_of_app in Hx as [?|[->|?]%elem_of_cons]; [set_solver| |set_solver]. destruct Hq; congruence. }
  destruct (H x Hx' Hst Hr) as (q' & K1 & K2). exists q'. split; [set_solver|done].
Qed.

Lemma told_remove s l1 q l2 : told s (l1 ++ q :: l2) -> (q_status q <> 1 \/ ready s q = false) ->
  told s (l1 ++ l2).
Proof.
  intros H Hq x Hx Hst Hr. destruct (H x ltac:(set_solver) Hst Hr) as (q' & K1 & K2 & K3).
  exists q'. split; [|done].
  apply elem_of_app in K1 as [?|[->|?]%elem_of_cons]; [set_solver| |set_solver]. destruct Hq; congruence.
Qed.

(** A new undo structure belongs to nobody on the queue. *)
Lemma with_undo_ready pid sops s q : entry_ok s q -> ready (with_undo pid sops s) q = ready s q.
Proof.
  intros (Hu & _). unfold with_undo, get_undo. destruct (existsb _ _); [|done].
  destruct (undos s !! pid) eqn:E; [done|]. unfold ready. cbn [semvals update].
  destruct (q_undo q) as [u|]; [|done]. cbn in *. rewrite lookup_insert_ne; [done|].
  intros ->. rewrite E in Hu. by destruct Hu.
Qed.

Lemma with_undo_pending pid sops s : sem_pending (with_undo pid sops s) = sem_pending s.
Proof. unfold with_undo, get_undo. destruct (existsb _ _); [|done]. by destruct (_ !! _). Qed.

Lemma with_undo_told m pid sops s s2 : set_ok m s -> s2 ≡ with_undo pid sops s -> awake_ok s ->
  told s2 (sem_pending s).
Proof.
  intros [_ Hq] Hsame. apply told_same. intros q Hin. rewrite (ready_same (with_undo pid sops s)) by apply Hsame.
  apply with_undo_ready. rewrite Forall_forall in Hq. auto.
Qed.

Lemma not_mixed m s un sops : mixed sops = false -> vals_ok m s -> SEMVMX <= m ->
  Forall (sop_ok s un) sops -> (exists e, run_ops (semvals s) (semadj s un) sops = inr e /\ 0 < e) ->
  decreases sops = true \/ Forall (fun sop => sem_op sop = 0) sops.
Proof.
  intros Hmix [Hv _] Hm Hops (e & Er & He). destruct (decreases sops) eqn:Ed; [by left|]. right.
  unfold mixed in Hmix. rewrite Ed in Hmix. cbn in Hmix.
  destruct (existsb (fun sop => 0 <? sem_op sop) sops) eqn:Ei.
  - exfalso. pose proof (run_ops_increase m sops (semvals s) (semadj s un) Hv Hm) as K.
    rewrite Er in K. enough (e <= 0) by lia. apply K.
    apply Forall_forall. intros x Hx. rewrite Forall_forall in Hops. destruct (Hops x Hx) as [Hn _].
    pose proof (existsb_false _ _ _ Hmix Hx). pose proof (existsb_false _ _ _ Ed Hx). cbn in *.
    unfold sem_nsems in Hn. lia.
  - apply not_alters. unfold alters. by rewrite Ei, Ed.
Qed.

Lemma started_awake m pid sops s s' : SEMVMX <= m -> set_ok m s -> mixed sops = false ->
  Forall (fun sop => 0 <= sem_num sop) sops -> started pid sops s s' -> awake_inv s -> awake_inv s'.
Proof.
  intros Hm Hs Hmix H0 Hst [Hp Ha]. destruct Hst as [|e s2 Hn Et He|e s2 Hn Et He]; [done|..];
    destruct (with_undo_set_ok m pid sops s Hs H0 Hn) as (H1 & H2 & H3);
    destruct (try_set_ok _ _ _ _ _ _ _ _ Hm H1 H2 H3 Et) as [Hs2 Hf2];
    pose proof (try_same _ _ _ _ _ _ _ (proj2 (proj1 H1)) H2 H3 Et) as Hsame;
    assert (sem_pending s2 = sem_pending s) as Ep by (rewrite (proj1 (proj2 Hf2)); apply with_undo_pending).
  - destruct (alters sops) eqn:Ea; cbn [finish].
    { apply (update_queue_awake m); [done|]. by rewrite Ep. }
    apply not_alters in Ea. specialize (Hsame (or_intror (or_introl Ea))). cbn. split; [by rewrite Ep|].
    unfold awake_ok. rewrite Ep. by apply (with_undo_told m pid sops).
  - specialize (Hsame (or_intror (or_intror He))).
    pose proof (entry_is_ok pid sops _ H2 H3) as Hok.
    pose proof (try_ready _ (entry pid sops) _ _ _ _ (proj2 (proj1 H1)) Hok Et) as Hr.
    rewrite (proj2 (Z.leb_gt e 0)) in Hr by lia.
    assert (patient (entry pid sops)) as Hpat.
    { apply (not_mixed m (with_undo pid sops s) (undo_of pid sops)); [done|apply H1|done|done|].
      unfold ready in Hr. cbn in Hr. destruct (run_ops _ _ _) as [|e']; [done|]. exists e'. split; [done|]. lia. }
    pose proof (with_undo_told m pid sops s s2 Hs Hsame Ha) as Ht.
    assert (ready s2 (entry pid sops) = false) as Hr2.
    { rewrite <- Hr. apply ready_same; apply Hsame. }
    unfold awake_inv, awake_ok. cbn [sem_pending update]. rewrite Ep. destruct (alters sops).
    + split; [apply Forall_app; split; [done|by constructor]|].
      apply (told_same s2); [done|]. apply told_app; [by rewrite app_nil_r|by right].
    + split; [by constructor|]. apply (told_same s2); [done|]. apply told_cons; [by right|done].
Qed.

Lemma resume_awake m l1 q l2 s e s' out : SEMVMX <= m -> set_ok m s -> sem_pending s = l1 ++ q :: l2 ->
  semop_resume l1 q l2 s = (e, s', out) -> awake_inv s -> awake_inv s'.
Proof.
  intros Hm Hs Ep H [Hp Ha]. destruct (pending_mid m s l1 q l2 Hs Ep) as (Hq & Hqs & Hv).
  unfold awake_ok in Ha. rewrite Ep in Hp, Ha.
  apply Forall_app in Hp as [Hp1 [Hpq Hp2]%Forall_cons].
  assert (Forall patient (l1 ++ l2)) as Hp by by apply Forall_app.
  unfold semop_resume in H. destruct (Z.eqb_spec (q_status q) 1) as [E1|E1].
  - assert (q_writes q = true) as Hw by by apply Hq, Hq.
    rewrite Hw in H. destruct (try_atomic_semop _ _ _ _ _) as [e1 s1] eqn:Et.
    destruct (try_set_ok m _ _ _ _ _ _ _ Hm Hs (proj1 Hq) (proj1 (proj2 (proj2 Hq))) Et) as [Hs1 Hf].
    destruct (Z.leb_spec e1 0).
    + pose proof (update_queue_awake m (s1 <| sem_pending := l1 ++ l2 |>)) as K.
      cbn [finish] in H. destruct (update_queue _) as [s2 o]. injection H as <- <- <-. apply K; [|done].
      apply with_pending_ok; [apply Hs1|]. eapply Forall_impl; [exact Hqs|]. intros x. by apply entry_ok_frame.
    + injection H as <- <- <-. split; [apply Forall_app; split; [done|]; by constructor|].
      pose proof (try_ready s q _ _ _ _ (proj2 Hv) Hq Et) as Hr. rewrite (proj2 (Z.leb_gt e1 0)) in Hr by done.
      pose proof (try_same s _ _ _ _ _ _ (proj2 Hv) (proj1 Hq) (proj1 (proj2 (proj2 Hq))) Et
        (or_intror (or_intror H0))) as Hsame.
      apply (told_same s); [intros x _; apply ready_same; apply Hsame|].
      apply told_app; [|right; by rewrite ready_set_status]. eapply told_remove; [done|by right].
  - assert (told s (l1 ++ l2)) as Ht by (eapply told_remove; [done|by left]).
    destruct (q_writes q); cbn [finish] in H.
    + pose proof (update_queue_awake m (s <| sem_pending := l1 ++ l2 |>)) as K.
      destruct (update_queue _) as [s2 o]. injection H as <- <- <-. apply K; [|done]. by apply with_pending_ok.
    + injection H as <- <- <-. split; [done|]. by apply (told_same s).
Qed.

Lemma rewritten_awake m s s' : rewritten m s s' -> awake_inv s -> awake_inv s'.
Proof.
  intros [->|(s1 & Hs1 & _ & Ep & ->)] [Hp Ha]; [done|]. apply (update_queue_awake m); [done|]. by rewrite Ep.
Qed.

Lemma step_awake m s ev s' : SEMVMX <= m -> set_ok m s -> plain ev -> step s ev s' ->
  awake_inv s -> awake_inv s'.
Proof.
  intros Hm Hs Hpl H. destruct H as [s c pid sops e s' out H0 _ H|s l1 q l2 e s' out Ep H
    |s c pid cmd e vals s' out Hc H|s pid s' out Hpid H]; cbn in Hpl.
  - apply semop_started in H. by eapply started_awake.
  - by eapply resume_awake.
  - apply (rewritten_awake m). by eapply semctl_rewrites.
  - apply (rewritten_awake (m + 32767)). by eapply exit_rewrites.
Qed.

(** ** Runs of a set *)

(** A set as [newary] makes it, perhaps with other values. *)
Definition fresh (s : sem_array) : Prop :=
  0 < sem_nsems s /\ in_range SEMVMX (semvals s) /\ sem_pending s = [] /\ undos s = ∅.

Inductive run : sem_array -> list event -> sem_array -> Prop :=
  | run_nil s : run s [] s
  | run_snoc s evs s1 ev s2 : run s evs s1 -> step s1 ev s2 -> run s (evs ++ [ev]) s2.

Lemma fresh_ok s : fresh s -> set_ok SEMVMX s /\ awake_inv s.
Proof.
  intros (_ & Hv & Hp & Hu). unfold set_ok, awake_inv, awake_ok, vals_ok, undos_ok. rewrite Hp, Hu.
  split_and!; [done| |done|done|].
  - intros u a. by rewrite lookup_empty.
  - by intros ? ?%elem_of_nil.
Qed.

Lemma run_ok s0 evs s : fresh s0 -> run s0 evs s -> exists m, SEMVMX <= m /\
  (Forall (fun ev => match ev with Exit _ => False | _ => True end) evs -> m = SEMVMX) /\ set_ok m s /\
  sem_nsems s = sem_nsems s0.
Proof.
  intros Hf. induction 1 as [s|s evs s1 ev s2 Hr IH Hst].
  - exists SEMVMX. split; [done|]. split; [done|]. split; [|done]. by apply fresh_ok.
  - destruct (IH Hf) as (m & Hm & Hex & Hok & En). exists (bound_after m ev). split; [|split; [|split]].
    + destruct ev; cbn; lia.
    + intros [H1 H2]%Forall_app. rewrite (Hex H1). apply Forall_cons in H2 as [H2 _]. by destruct ev.
    + by eapply step_set_ok.
    + rewrite <- En. by eapply step_nsems.
Qed.

Lemma run_awake s0 evs s : fresh s0 -> Forall plain evs -> run s0 evs s -> awake_inv s.
Proof.
  intros Hf Hpl. induction 1 as [s|s evs s1 ev s2 Hr IH Hst]; [by apply fresh_ok|].
  apply Forall_app in Hpl as [Hp1 Hp2]. apply Forall_cons in Hp2 as [Hp2 _].
  destruct (run_ok _ _ _ Hf Hr) as (m & Hm & _ & Hok & _). eapply step_awake; eauto.
Qed.

(** ** SEM_UNDO *)

(** The adjustments of all processes for one semaphore. *)
Definition adj_sum (n : Z) (u : gmap Z (list Z)) : Z := map_fold (fun _ a acc => get a n + acc) 0 u.
(** What the semaphore would be worth with everything undone. *)
Definition total (n : Z) (s : sem_array) : Z := get (semvals s) n + adj_sum n (undos s).

Lemma adj_sum_insert n u a m : adj_sum n (<[u := a]> m) = get a n + adj_sum n (delete u m).
Proof.
  rewrite <- insert_delete_eq. unfold adj_sum.
  rewrite map_fold_insert_L; [done| |apply lookup_delete_eq]. intros. lia.
Qed.
Lemma adj_sum_split n u a m : m !! u = Some a -> adj_sum n m = get a n + adj_sum n (delete u m).
Proof. intros H. rewrite <- adj_sum_insert. by rewrite insert_id. Qed.
Lemma adj_sum_None n u m : m !! u = None -> adj_sum n (delete u m) = adj_sum n m.
Proof. intros H. by rewrite delete_id. Qed.

(** Every operation that changes a value records it. *)
Definition undoing (sops : list sembuf) : Prop :=
  Forall (fun sop => undo_flag sop = true \/ sem_op sop = 0) sops.

Lemma get_set_sum l k i x : 0 <= i < len l -> 0 <= k < len l ->
  get (set_at l k (get l k + x)) i = get l i + (if decide (i = k) then x else 0).
Proof.
  intros Hi Hk. destruct (decide (i = k)) as [->|Hne]; [by rewrite get_set_eq|].
  rewrite get_set_ne; lia.
Qed.

Lemma run_ops_total i sops : forall v a v' a', len a = len v -> 0 <= i < len v ->
  Forall (fun sop => 0 <= sem_num sop < len v) sops -> undoing sops ->
  run_ops v a sops = inl (v', a') -> get v' i + get a' i = get v i + get a i.
Proof.
  induction sops as [|sop sops IH]; intros v a v' a' Hl Hi Hn Hun H; cbn [run_ops] in H; [by injection H as <- <-|].
  apply Forall_cons in Hn as [Hn1 Hn]. apply Forall_cons in Hun as [Hu1 Hun].
  destruct (_ && truth _); [done|]. destruct (undo_flag sop && _); [done|].
  destruct (_ <? 0); [done|]. destruct (SEMVMX <? _); [done|].
  apply IH in H; [..|done]; rewrite ?len_set; [| |done|done].
  - rewrite H, get_set_sum by done. destruct (undo_flag sop).
    + rewrite <- Z.add_opp_r, get_set_sum by lia. destruct (decide _); lia.
    + destruct Hu1 as [|Hz]; [done|]. rewrite Hz. destruct (decide _); lia.
  - destruct (undo_flag sop); [by rewrite len_set|done].
Qed.

Lemma total_equiv n s s' : s' ≡ s -> total n s' = total n s.
Proof. intros (Hv & Hu & _). unfold total. by rewrite Hv, Hu. Qed.

Lemma try_total i m s sops un pid do_undo e s' : SEMVMX <= m -> vals_ok m s -> un_ok s un ->
  Forall (sop_ok s un) sops -> undoing sops -> 0 <= i < sem_nsems s ->
  try_atomic_semop s sops un pid do_undo = (e, s') -> total i s' = total i s.
Proof.
  intros Hm [Hv Hs] Hu Hops Hun Hi E.
  pose proof (try_atomic_spec s sops un pid do_undo Hs Hu Hops) as H. rewrite E in H.
  destruct (run_ops _ _ _) as [[v a]|e'] eqn:Er; [|by apply total_equiv, H].
  destruct H as [-> H]. destruct do_undo; [by apply total_equiv, H|].
  destruct un as [u|].
  - destruct H as (H1 & _ & H3). destruct (Hu) as [a0 Ha0].
    unfold total. rewrite H1, H3, adj_sum_insert, (adj_sum_split i u a0 (undos s) Ha0).
    apply (run_ops_total i) in Er; [| |done| |done].
    + assert (semadj s (Some u) = a0) as Ea by (cbn; by rewrite Ha0). rewrite Ea in Er. lia.
    + apply (semadj_ok s (Some u) Hs Hu). by eexists.
    + eapply Forall_impl; [exact Hops|]. by intros x [? _].
  - apply total_equiv. apply (try_same s sops None pid false 0 s' Hs Hu Hops E). right. left.
    unfold undoing in Hun. rewrite Forall_forall in *. intros x Hx. destruct (Hun x Hx) as [Hf|]; [|done].
    destruct (Hops x Hx) as [_ K]. by destruct (K Hf).
Qed.

Definition undo_entries (qs : list sem_queue) : Prop := Forall (fun q => undoing (q_sops q)) qs.

Lemma update_loop_total i m qs : forall s, SEMVMX <= m -> vals_ok m s -> Forall (entry_ok s) qs ->
  undo_entries qs -> 0 <= i < sem_nsems s ->
  let '(qs', s', out) := update_loop qs s in total i s' = total i s /\ undo_entries qs'.
Proof.
  induction qs as [|q qs IH]; intros s Hm Hs Hqs Hun Hi; [done|].
  apply Forall_cons in Hqs as [Hq Hqs]. apply Forall_cons in Hun as [Huq Hun]. cbn [update_loop].
  destruct (q_status q =? 1).
  { specialize (IH s Hm Hs Hqs Hun Hi). destruct (update_loop qs s) as [[qs' s'] out].
    destruct IH as [H1 H2]. split; [done|]. by constructor. }
  pose proof (try_ok m s (q_sops q) (q_undo q) (q_pid q) (q_alter q) Hm Hs) as Ht.
  destruct (try_atomic_semop _ _ _ _ _) as [e s1] eqn:E.
  destruct Ht as [Hs1 Hf1]; [apply Hq..|].
  pose proof (try_total i m _ _ _ _ _ _ _ Hm Hs (proj1 Hq) (proj1 (proj2 (proj2 Hq))) Huq Hi E) as Et.
  specialize (IH s1 Hm Hs1). destruct (update_loop qs s1) as [[qs' s'] out].
  destruct IH as [H1 H2]; [|done|by rewrite (proj1 Hf1)|].
  { eapply Forall_impl; [exact Hqs|]. intros x. by apply entry_ok_frame. }
  rewrite Et in H1.
  destruct (e <=? 0); [destruct ((e =? 0) && q_alter q)|]; (split; [done|]); try done; by constructor.
Qed.

Lemma update_queue_total i m s : SEMVMX <= m -> set_ok m s -> undo_entries (sem_pending s) ->
  0 <= i < sem_nsems s ->
  total i (update_queue s).1 = total i s /\ undo_entries (sem_pending (update_queue s).1).
Proof.
  intros Hm [Hs Hq] Hun Hi. unfold update_queue.
  pose proof (update_loop_total i m _ s Hm Hs Hq Hun Hi) as H.
  by destruct (update_loop _ _) as [[qs s'] out].
Qed.

Lemma finish_total i m b s : SEMVMX <= m -> set_ok m s -> undo_entries (sem_pending s) ->
  0 <= i < sem_nsems s ->
  total i (finish b s).1 = total i s /\ undo_entries (sem_pending (finish b s).1).
Proof. intros. destruct b; [by apply (update_queue_total i m)|done]. Qed.

Lemma get_zeros n i : get (replicate n 0) i = 0.
Proof.
  unfold get. generalize (Z.to_nat i). induction n as [|n IH]; intros [|k]; cbn; auto.
Qed.

Lemma with_undo_total i pid sops s : total i (with_undo pid sops s) = total i s.
Proof.
  unfold with_undo, get_undo. destruct (existsb _ _); [|done]. destruct (undos s !! pid) eqn:E; [done|].
  unfold total. cbn. by rewrite adj_sum_insert, adj_sum_None, get_zeros.
Qed.

Lemma started_total i m pid sops s s' : SEMVMX <= m -> set_ok m s -> undoing sops ->
  Forall (fun sop => 0 <= sem_num sop) sops -> 0 <= i < sem_nsems s -> started pid sops s s' ->
  undo_entries (sem_pending s) -> total i s' = total i s /\ undo_entries (sem_pending s').
Proof.
  intros Hm Hs Hun H0 Hi Hst Hq. destruct Hst as [|e s2 Hn Et He|e s2 Hn Et He]; [done|..];
    destruct (with_undo_set_ok m pid sops s Hs H0 Hn) as (H1 & H2 & H3);
    destruct (with_undo_ok m pid sops s (proj1 Hs)) as (_ & Hf & _);
    destruct (try_set_ok _ _ _ _ _ _ _ _ Hm H1 H2 H3 Et) as [Hs2 Hf2];
    destruct (frame_trans _ _ _ Hf Hf2) as (En & Ep & _);
    assert (total i s2 = total i s) as E2
      by (rewrite <- (with_undo_total i pid sops s); eapply (try_total i m _ _ _ _ _ _ _ Hm (proj1 H1) H2 H3 Hun);
          [by rewrite (proj1 Hf)|exact Et]).
  - rewrite <- E2. apply (finish_total i m); [done..| |]; [by rewrite Ep|by rewrite En].
  - split; [done|]. cbn [sem_pending update]. rewrite Ep.
    destruct (alters sops); [apply Forall_app; split; [done|by constructor]|by constructor].
Qed.

Lemma resume_total i m l1 q l2 s e s' out : SEMVMX <= m -> set_ok m s -> sem_pending s = l1 ++ q :: l2 ->
  0 <= i < sem_nsems s -> semop_resume l1 q l2 s = (e, s', out) -> undo_entries (sem_pending s) ->
  total i s' = total i s /\ undo_entries (sem_pending s').
Proof.
  intros Hm Hs Ep Hi H Hun. destruct (pending_mid m s l1 q l2 Hs Ep) as (Hq & Hqs & Hv).
  rewrite Ep in Hun. apply Forall_app in Hun as [Hu1 [Huq Hu2]%Forall_cons].
  assert (undo_entries (l1 ++ l2)) as Hu by by apply Forall_app.
  unfold semop_resume in H. destruct (q_status q =? 1).
  - destruct (try_atomic_semop _ _ _ _ _) as [e1 s1] eqn:Et.
    destruct (try_set_ok m _ _ _ _ _ _ _ Hm Hs (proj1 Hq) (proj1 (proj2 (proj2 Hq))) Et) as [Hs1 Hf].
    pose proof (try_total i m _ _ _ _ _ _ _ Hm Hv (proj1 Hq) (proj1 (proj2 (proj2 Hq))) Huq Hi Et) as E1.
    destruct (e1 <=? 0).
    + rewrite <- E1. pose proof (finish_total i m (q_writes q) (s1 <| sem_pending := l1 ++ l2 |>) Hm) as K.
      destruct (finish _ _) as [s2 o]. injection H as <- <- <-. apply K; [|done|by rewrite <- (proj1 Hf) in Hi].
      apply with_pending_ok; [apply Hs1|]. eapply Forall_impl; [exact Hqs|]. intros x. by apply entry_ok_frame.
    + injection H as <- <- <-. split; [done|]. apply Forall_app. split; [done|]. by constructor.
  - pose proof (finish_total i m (q_writes q) (s <| sem_pending := l1 ++ l2 |>) Hm) as K.
    destruct (finish _ _) as [s2 o]. injection H as <- <- <-. apply K; [|done|done]. by apply with_pending_ok.
Qed.

Lemma get_zip_with f v : forall a i, len a = len v -> 0 <= i < len v ->
  get (zip_with f v a) i = f (get v i) (get a i).
Proof.
  unfold get, len. intros a i Hl Hi. assert (Z.to_nat i < length v)%nat as Hk by lia.
  assert (length a = length v) as Hl' by lia. clear Hl Hi. revert a Hl' Hk.
  generalize (Z.to_nat i). induction v as [|x v IH]; intros k [|y a] Hl Hk; cbn in *; try lia.
  destruct k as [|k]; [done|]. apply IH; lia.
Qed.

(** The adjustments of the process can be applied without the cut at zero. *)
Definition clean_exit (s : sem_array) (pid : Z) : Prop :=
  forall a i, undos s !! pid = Some a -> 0 <= i < sem_nsems s -> 0 <= get (semvals s) i + get a i.

Lemma exit_total i m pid s s' out : SEMVMX <= m -> set_ok m s ->
  Forall (fun q => q_pid q <> pid) (sem_pending s) -> clean_exit s pid -> 0 <= i < sem_nsems s ->
  sem_exit pid s = (s', out) -> undo_entries (sem_pending s) ->
  total i s' = total i s /\ undo_entries (sem_pending s').
Proof.
  intros Hm Hs Hpid Hc Hi H Hun. rewrite sem_exit_eq in H by done.
  destruct (undos s !! pid) as [adj|] eqn:E; [|by injection H as <- <-].
  destruct (proj2 (proj1 Hs) _ _ E) as [Hl _].
  assert (total i (after_exit pid adj s) = total i s) as <-.
  { unfold total. cbn [semvals undos after_exit]. rewrite (adj_sum_split i pid adj (undos s) E).
    rewrite get_zip_with by done. unfold adjust. specialize (Hc adj i E Hi). case_cmp; lia. }
  change (sem_pending s) with (sem_pending (after_exit pid adj s)) in Hun.
  pose proof (update_queue_total i (m + 32767) (after_exit pid adj s)) as K. rewrite H in K. apply K.
  - lia.
  - apply after_exit_ok; [unfold SEMVMX in Hm; lia|done..].
  - done.
  - by rewrite (after_exit_nsems m).
Qed.

(** Events of a set in which every change is made with SEM_UNDO. *)
Definition undo_event (s : sem_array) (ev : event) : Prop :=
  match ev with
  | Semop _ sops => undoing sops
  | Wake _ => True
  | Exit pid => clean_exit s pid
  | Semctl _ cmd => reads_only cmd = true
  end.

Lemma step_total i m s ev s' : SEMVMX <= m -> set_ok m s -> 0 <= i < sem_nsems s -> undo_event s ev ->
  step s ev s' -> undo_entries (sem_pending s) -> total i s' = total i s /\ undo_entries (sem_pending s').
Proof.
  intros Hm Hs Hi Hev H. destruct H as [s c pid sops e s' out H0 _ H|s l1 q l2 e s' out Ep H
    |s c pid cmd e vals s' out Hc H|s pid s' out Hpid H]; cbn in Hev.
  - apply semop_started in H. by eapply started_total.
  - by eapply resume_total.
  - apply semctl_reads in H; [by subst s'|done].
  - by eapply exit_total.
Qed.

(** Runs in which every change is made with SEM_UNDO. *)
Definition undo_step (s s' : sem_array) : Prop := exists ev, step s ev s' /\ undo_event s ev.

(** What such a run keeps. *)
Definition undo_inv (s0 s : sem_array) : Prop :=
  (exists m, SEMVMX <= m /\ set_ok m s) /\ undo_entries (sem_pending s) /\
  sem_nsems s = sem_nsems s0 /\ forall i, 0 <= i < sem_nsems s0 -> total i s = get (semvals s0) i.

Lemma undo_inv_fresh s : fresh s -> undo_inv s s.
Proof.
  intros Hf. split; [exists SEMVMX; split; [done|]; by apply fresh_ok|]. destruct Hf as (_ & _ & Hp & Hu).
  unfold undo_entries. rewrite Hp. split; [done|]. split; [done|]. intros i _. unfold total, adj_sum.
  rewrite Hu, map_fold_empty. lia.
Qed.

Lemma undo_inv_run s0 s : fresh s0 -> rtc undo_step s0 s -> undo_inv s0 s.
Proof.
  intros Hf. revert s. apply rtc_ind_r; [by apply undo_inv_fresh|].
  intros s1 s2 _ (ev & Hst & Hev) ((m & Hm & Hs) & Hun & En & Ht).
  pose proof (proj1 Hf) as Hpos. split; [|split; [|split]].
  - exists (bound_after m ev). split; [destruct ev; cbn; lia|]. by eapply step_set_ok.
  - eapply (step_total 0 m); eauto. lia.
  - rewrite <- En. by eapply step_nsems.
  - intros i Hi. rewrite <- (Ht i Hi). eapply (step_total i m); eauto. lia.
Qed.

(** ** What the code promises *)

(** C27. [try_atomic_semop] does all of the operations or none. It succeeds exactly when the reference
    does; then (unless it was a trial) the values and the adjustments are those of the reference and the
    rest of the set is as before. When it fails it returns the error of the reference, and values,
    adjustments and queue are what they were: the work of the operations before the failing one has
    been taken back, also when the failing one was out of the range of the adjustments. *)
Theorem sem_atomic m s sops un pid do_undo : set_ok m s -> un_ok s un -> Forall (sop_ok s un) sops ->
  let '(e, s') := try_atomic_semop s sops un pid do_undo in
  match run_ops (semvals s) (semadj s un) sops with
  | inl (v, a) => e = 0 /\ if do_undo then s' ≡ s else moved s un v a s'
  | inr e' => e = e' /\ s' ≡ s
  end.
Proof. intros [[_ Hs] _]. by apply try_atomic_spec. Qed.

(** C40. Whatever the processes do with a set, its values are never negative, its adjustments are
    [short]s, one for each semaphore, and the entries on the queue refer to semaphores and undo
    structures that exist; and without the adjustments of exits no value is above SEMVMX. *)
Theorem sem_values_ok s0 evs s : fresh s0 -> run s0 evs s ->
  Forall (fun v => 0 <= v) (semvals s) /\ undos_ok s /\ Forall (entry_ok s) (sem_pending s) /\
  (Forall (fun ev => match ev with Exit _ => False | _ => True end) evs ->
    Forall (fun v => v <= SEMVMX) (semvals s)).
Proof.
  intros Hf Hr. destruct (run_ok _ _ _ Hf Hr) as (m & Hm & Hex & [[Hv Hu] Hq] & _).
  split; [|split; [done|split; [done|]]].
  - eapply Forall_impl; [exact Hv|]. cbn. lia.
  - intros H. rewrite (Hex H) in Hv. eapply Forall_impl; [exact Hv|]. cbn. lia.
Qed.

(** C7. No wake-up is lost: when an operation on the queue could go on and has not been told, another
    one has been told and can go on. This holds in every state that semop, semctl, signals and exits
    can reach, for operations that do not wait for zero and increase without decreasing anything (for
    those see [lost_wakeup_after_increase]). *)
Theorem sem_no_lost_wakeup s0 evs s q : fresh s0 -> Forall plain evs -> run s0 evs s ->
  q ∈ sem_pending s -> q_status q <> 1 -> ready s q = true ->
  exists q', q' ∈ sem_pending s /\ q_status q' = 1 /\ ready s q' = true.
Proof. intros Hf Hp Hr. apply (run_awake _ _ _ Hf Hp Hr). Qed.

(** C28. SEM_UNDO: as long as every change is made with SEM_UNDO, and no exit is cut at zero, each
    semaphore together with all adjustments is worth what it was at the start, through sleeping,
    waking, failing and exiting; so when the last process has gone the values are the first ones. *)
Theorem sem_undo_restores s0 s : fresh s0 -> rtc undo_step s0 s ->
  (forall i, 0 <= i < sem_nsems s0 -> total i s = get (semvals s0) i) /\
  (undos s = ∅ -> semvals s = semvals s0).
Proof.
  intros Hf Hr. destruct (undo_inv_run s0 s Hf Hr) as (_ & _ & En & Ht). split; [done|].
  intros Hu. apply get_ext; [exact En|]. intros i Hi. rewrite <- Ht by (by rewrite <- En).
  unfold total, adj_sum. rewrite Hu, map_fold_empty. lia.
Qed.

(** ** Concrete runs *)

(** [semop] by a process for which nothing else goes wrong, [exit] and the wake-up of the first sleeper, as
    functions. *)
Definition allowed : call := Call 0 true true (fun _ => true) true true 0.
Definition do_semop (pid : Z) (sops : list sembuf) (s : sem_array) : sem_array :=
  (semop_start allowed pid sops s).1.2.
Definition do_exit (pid : Z) (s : sem_array) : sem_array := (sem_exit pid s).1.
Definition do_wake (s : sem_array) : sem_array :=
  match sem_pending s with q :: qs => (semop_resume [] q qs s).1.2 | [] => s end.

Definition idle (pid : Z) (s : sem_array) : bool := forallb (fun q => negb (q_pid q =? pid)) (sem_pending s).
Lemma idle_spec pid s : idle pid s = true -> Forall (fun q => q_pid q <> pid) (sem_pending s).
Proof.
  unfold idle. rewrite forallb_forall. intros H. apply Forall_forall. intros q Hq%list_elem_of_In.
  specialize (H q Hq). intros E. by rewrite (proj2 (Z.eqb_eq _ _) E) in H.
Qed.

Lemma do_semop_step pid sops s : forallb (fun sop => 0 <=? sem_num sop) sops && idle pid s = true ->
  step s (Semop pid sops) (do_semop pid sops s).
Proof.
  intros [H1 H2]%andb_true_iff. unfold do_semop.
  destruct (semop_start _ _ _ _) as [[e s'] out] eqn:E. eapply step_semop; [|by apply idle_spec|exact E].
  apply Forall_forall. intros x Hx%list_elem_of_In. rewrite forallb_forall in H1. by apply Z.leb_le, H1.
Qed.
Lemma do_exit_step pid s : idle pid s = true -> step s (Exit pid) (do_exit pid s).
Proof.
  intros H. unfold do_exit. destruct (sem_exit pid s) as [s' out] eqn:E.
  eapply step_exit; [by apply idle_spec|exact E].
Qed.
Lemma do_wake_step pid s q qs : sem_pending s = q :: qs -> q_pid q = pid -> step s (Wake pid) (do_wake s).
Proof.
  intros Ep <-. unfold do_wake. rewrite Ep. destruct (semop_resume _ _ _ _) as [[e s'] out] eqn:E.
  by eapply (step_wake s [] q qs).
Qed.

Definition new_set (vals : list Z) : sem_array := SemArray vals (replicate (length vals) 0) [] ∅.
Definition run_event (s : sem_array) (ev : event) : sem_array :=
  match ev with
  | Semop pid sops => do_semop pid sops s
  | Wake _ => do_wake s
  | Semctl pid cmd => (semctl_main allowed pid cmd s).1.2
  | Exit pid => do_exit pid s
  end.
Definition event_ok (s : sem_array) (ev : event) : bool :=
  match ev with
  | Semop pid sops => forallb (fun sop => 0 <=? sem_num sop) sops && idle pid s
  | Wake pid => match sem_pending s with q :: _ => q_pid q =? pid | [] => false end
  | Semctl _ (SETALL vals) => (length vals =? length (semvals s))%nat && forallb (fun v => 0 <=? v) vals
  | Semctl _ _ => true
  | Exit pid => idle pid s
  end.
Definition run_events (evs : list event) (s : sem_array) : sem_array := foldl run_event s evs.
Fixpoint events_ok (evs : list event) (s : sem_array) : bool :=
  match evs with [] => true | ev :: evs => event_ok s ev && events_ok evs (run_event s ev) end.

Lemma run_event_step s ev : event_ok s ev = true -> step s ev (run_event s ev).
Proof.
  destruct ev as [pid sops|pid|pid cmd|pid]; cbn [event_ok run_event]; intros H.
  - by apply do_semop_step.
  - destruct (sem_pending s) as [|q qs] eqn:E; [done|]. by eapply do_wake_step; [|apply Z.eqb_eq].
  - destruct (semctl_main allowed pid cmd s) as [[[e vs] s'] out] eqn:E. eapply step_semctl; [|exact E].
    destruct cmd as [|vals| | | | |]; try done. apply andb_true_iff in H as [H1 H2].
    split; [by apply Nat.eqb_eq|]. apply Forall_forall. intros x Hx%list_elem_of_In.
    rewrite forallb_forall in H2. by apply Z.leb_le, H2.
  - by apply do_exit_step.
Qed.

Lemma run_events_run evs : forall s, events_ok evs s = true -> run s evs (run_events evs s).
Proof.
  induction evs as [|ev evs IH] using rev_ind; intros s H; [constructor|].
  unfold run_events in *. rewrite foldl_app. cbn. eapply run_snoc.
  - apply IH. clear IH. revert s H. induction evs as [|e evs IH]; intros s H; [done|]. cbn in *.
    apply andb_true_iff in H as [-> H]. by apply IH.
  - apply run_event_step. clear IH. revert s H. induction evs as [|e evs IH]; intros s H; cbn in *.
    + by apply andb_true_iff in H as [H _].
    + apply andb_true_iff in H as [_ H]. by apply IH.
Qed.

(** Three processes take the same semaphore; the second and the third sleep until the first exits. *)
Definition take0 : list sembuf := [Sembuf 0 (-1) SEM_UNDO].
Definition three_takers : list event := [Semop 10 take0; Semop 11 take0; Semop 12 take0; Exit 10].
Definition set1 : sem_array := run_events three_takers (new_set [1; 0]).

Lemma new_set_fresh vals : (0 < length vals)%nat -> in_range SEMVMX vals -> fresh (new_set vals).
Proof. intros Hl Hv. split; [unfold sem_nsems, len; cbn; lia|]. by split_and!. Qed.
Lemma new_1_0_fresh : fresh (new_set [1; 0]).
Proof. apply new_set_fresh; [cbn; lia|]. unfold in_range, SEMVMX. rewrite !Forall_cons, Forall_nil. lia. Qed.
Lemma set1_run : run (new_set [1; 0]) three_takers set1.
Proof. apply run_events_run. vm_compute. reflexivity. Qed.

Lemma sem_atomic_witness :
  let '(e, s') := try_atomic_semop (new_set [1; 0]) [Sembuf 0 (-1) 0; Sembuf 1 (-1) 0] None 10 false in
  e = 1 /\ s' ≡ new_set [1; 0].
Proof.
  apply (sem_atomic SEMVMX (new_set [1; 0]) [Sembuf 0 (-1) 0; Sembuf 1 (-1) 0] None 10 false).
  - apply fresh_ok, new_1_0_fresh.
  - done.
  - repeat constructor; cbn; try lia; done.
Defined.

Lemma sem_values_ok_witness : Forall (fun v => 0 <= v) (semvals set1).
Proof. apply (sem_values_ok (new_set [1; 0]) three_takers set1 new_1_0_fresh set1_run). Defined.

Lemma sem_no_lost_wakeup_witness :
  exists q', q' ∈ sem_pending set1 /\ q_status q' = 1 /\ ready set1 q' = true.
Proof.
  apply (sem_no_lost_wakeup (new_set [1; 0]) three_takers set1 (entry 12 take0) new_1_0_fresh).
  - repeat constructor.
  - exact set1_run.
  - vm_compute. apply elem_of_cons. right. apply elem_of_cons. by left.
  - done.
  - vm_compute. reflexivity.
Defined.

(** The first process takes the semaphore and exits. *)
Definition set2 : sem_array := do_semop 10 take0 (new_set [1; 0]).
Definition set3 : sem_array := do_exit 10 set2.

Lemma set3_run : rtc undo_step (new_set [1; 0]) set3.
Proof.
  apply (rtc_l _ _ set2).
  { exists (Semop 10 take0). split; [apply do_semop_step; vm_compute; reflexivity|]. repeat constructor. }
  apply rtc_once. exists (Exit 10). split; [apply do_exit_step; vm_compute; reflexivity|].
  intros a i Ha Hi. assert (a = [1; 0]) as ->.
  { apply (inj Some). rewrite <- Ha. vm_compute. reflexivity. }
  change (sem_nsems set2) with 2 in Hi. assert (i = 0 \/ i = 1) as [-> | ->] by lia; vm_compute; congruence.
Qed.

Lemma sem_undo_restores_witness : semvals set2 = [0; 0] /\ semvals set3 = semvals (new_set [1; 0]).
Proof.
  split; [vm_compute; reflexivity|].
  apply (sem_undo_restores (new_set [1; 0]) set3 new_1_0_fresh set3_run). vm_compute. reflexivity.
Defined.

(** ** Where the code does less *)

(** A wake-up that is lost. Process 10 waits to decrease semaphore 1; process 11 waits for semaphore 0
    to become zero, to increase semaphore 1 then. When process 12 takes semaphore 0, [update_queue]
    does the work of process 11 and goes on after it: process 10, before it on the queue, could go on
    now, but nobody has been told. *)
Definition waiter_and_giver : list event :=
  [Semop 10 [Sembuf 1 (-1) 0]; Semop 11 [Sembuf 0 0 0; Sembuf 1 1 0]; Semop 12 [Sembuf 0 (-1) 0]].
Theorem lost_wakeup_after_increase :
  exists s q, run (new_set [1; 0]) waiter_and_giver s /\ semvals s = [0; 1] /\
  sem_pending s = [q] /\ q_pid q = 10 /\ q_status q = - EINTR /\ ready s q = true.
Proof.
  exists (run_events waiter_and_giver (new_set [1; 0])), (entry 10 [Sembuf 1 (-1) 0]).
  split; [apply run_events_run; vm_compute; reflexivity|]. split_and!; vm_compute; reflexivity.
Qed.

(** A process that has to wait for zero has not changed [sempid], but shifts it back: the pid of the
    last operation is lost. *)
Theorem waiting_for_zero_loses_pid :
  let s := do_semop 10 [Sembuf 0 1 0] (new_set [0]) in
  getpid s 0 = 10 /\ getpid (do_semop 11 [Sembuf 0 0 0] s) 0 = 0 /\
  getpid (do_semop 11 [Sembuf 0 0 IPC_NOWAIT] s) 0 = 0.
Proof. vm_compute. done. Qed.

(** The adjustments of an exit are not checked against SEMVMX. *)
Theorem exit_exceeds_SEMVMX : exists evs s,
  run (new_set [1]) evs s /\ semvals s = [SEMVMX + 1].
Proof.
  exists [Semop 10 take0; Semop 11 [Sembuf 0 SEMVMX 0]; Exit 10]. eexists.
  split; [apply run_events_run; vm_compute; reflexivity|]. vm_compute. reflexivity.
Qed.

(** The cut at zero in [sem_exit] does happen: another process has used up what is undone. *)
Theorem exit_cut_at_zero : exists evs s,
  run (new_set [0]) evs s /\ ~ clean_exit s 10 /\ semvals (do_exit 10 s) = [0].
Proof.
  exists [Semop 10 [Sembuf 0 1 SEM_UNDO]; Semop 11 [Sembuf 0 (-1) 0]]. eexists.
  split; [apply run_events_run; vm_compute; reflexivity|]. split; [|vm_compute; reflexivity].
  intros H. specialize (H [-1] 0). vm_compute in H. by apply H.
Qed.
