(* ===== verification/Locks.v ===== *)
(** POSIX record locks (fs/locks.c): the list of locks of one inode, the waiters, and the detection of
    deadlocks.

    A [file_lock] is named by its address; [locks] holds the structures. The chain of [fl_next] that
    starts at [inode->i_flock] is the list [i_flock] of addresses, so that a pointer [before] into the
    chain splits it in two. A structure can be reached from the list and as the [caller] of the code at
    the same time, and both see its changes. [fl_block] and the [fl_next] of a waiter are maps of their
    own. The code runs under the big kernel lock; it is given up only in [locks_block_on], where
    [posix_lock_file] is cut into [posix_lock_start] and [posix_lock_resume].

    Not modelled: the list of all locks, which only /proc reads; [current->locks]; the [lock] operation,
    [fl_insert], [fl_remove] and [fl_notify] of file systems and of the NFS lock daemon, absent for
    local locks; flock() locks and leases, which come before the POSIX locks on the list, except that
    the code here skips them. *)
From stdpp Require Import sorting.
From S2P Require Import Prelude Task.

Definition EDEADLK : Z := 35.
Definition ENOLCK : Z := 37.
Definition EOVERFLOW : Z := 75.
Definition ERESTARTSYS : Z := 512.

Definition FL_POSIX : Z := 1.
Definition F_RDLCK : Z := 0.
Definition F_WRLCK : Z := 1.
Definition F_UNLCK : Z := 2.
(** [INT_LIMIT(loff_t)] *)
Definition OFFSET_MAX : Z := 0x7fffffffffffffff.

(** ** Data *)
Record file_lock := Lock {
  fl_owner : Z; fl_pid : Z; fl_file : Z; fl_flags : Z; fl_type : Z; fl_start : Z; fl_end : Z }.
#[global] Instance file_lock_fields : Fields file_lock := fun l =>
  Lock (fl_owner l) (fl_pid l) (fl_file l) (fl_flags l) (fl_type l) (fl_start l) (fl_end l).

(** [woken] collects the waiters that have been notified. *)
Record world := World {
  locks : gmap Z file_lock; i_flock : list Z;
  fl_block : gmap Z (list Z); fl_next : gmap Z Z; blocked_list : list Z; woken : list Z }.
#[global] Instance world_fields : Fields world := fun w =>
  World (locks w) (i_flock w) (fl_block w) (fl_next w) (blocked_list w) (woken w).

(** The structure at an address. *)
Definition no_lock : file_lock := Lock 0 0 0 0 0 0 0.
Definition at_ (h : gmap Z file_lock) (a : Z) : file_lock := default no_lock (h !! a).
Definition lk (w : world) (a : Z) : file_lock := at_ (locks w) a.
Definition set_lk (a : Z) (l : file_lock) (w : world) : world := w <| locks := <[a := l]> (locks w) |>.

(** ** Tests on locks *)
Definition locks_overlap (fl1 fl2 : file_lock) : bool :=
  (fl_start fl2 <=? fl_end fl1) && (fl_start fl1 <=? fl_end fl2).
Definition locks_same_owner (fl1 fl2 : file_lock) : bool :=
  (fl_owner fl1 =? fl_owner fl2) && (fl_pid fl1 =? fl_pid fl2).
Definition is_posix (fl : file_lock) : bool := truth (fl_flags fl .& FL_POSIX).
Definition locks_conflict (caller_fl sys_fl : file_lock) : bool :=
  if fl_type caller_fl =? F_RDLCK then fl_type sys_fl =? F_WRLCK
  else if fl_type caller_fl =? F_WRLCK then true
  else false.
Definition posix_locks_conflict (caller_fl sys_fl : file_lock) : bool :=
  if negb (is_posix sys_fl) || locks_same_owner caller_fl sys_fl then false
  else if negb (locks_overlap caller_fl sys_fl) then false
  else locks_conflict caller_fl sys_fl.

(** F_GETLK: the first lock that conflicts, if there is one. *)
Definition posix_test_lock (fl : file_lock) (w : world) : option Z :=
  find (fun cfl => is_posix (lk w cfl) && posix_locks_conflict (lk w cfl) fl) (i_flock w).

(** ** Waiters *)
Definition without (a : Z) (l : list Z) : list Z := filter (fun x => x <> a) l.
Definition blocks (w : world) (a : Z) : list Z := default [] (fl_block w !! a).

Definition locks_delete_block (waiter : Z) (w : world) : world :=
  let w := match fl_next w !! waiter with
           | Some b => w <| fl_block := <[b := without waiter (blocks w b)]> (fl_block w) |>
           | None => w
           end in
  let w := w <| blocked_list := without waiter (blocked_list w) |> in
  w <| fl_next := delete waiter (fl_next w) |>.
Definition locks_insert_block (blocker waiter : Z) (w : world) : world :=
  let w := match fl_next w !! waiter with Some _ => locks_delete_block waiter w | None => w end in
  let w := w <| fl_block := <[blocker := blocks w blocker ++ [waiter]]> (fl_block w) |> in
  let w := w <| fl_next := <[waiter := blocker]> (fl_next w) |> in
  w <| blocked_list := waiter :: blocked_list w |>.
(** With [wait] 0: every waiter is taken off the list and notified. *)
Definition locks_wake_up_blocks (blocker : Z) (w : world) : world :=
  foldl (fun w waiter => let w := locks_delete_block waiter w in w <| woken := woken w ++ [waiter] |>)
    w (blocks w blocker).

(** [next_task:] goes on with the lock that the blocked task waits for. *)
Fixpoint posix_locks_deadlock (fuel : nat) (w : world) (caller_owner caller_pid blocked_owner blocked_pid : Z)
    : option bool :=
  match fuel with
  | O => None
  | S fuel =>
      if (caller_owner =? blocked_owner) && (caller_pid =? blocked_pid) then Some true
      else
        match find (fun a => (fl_owner (lk w a) =? blocked_owner) && (fl_pid (lk w a) =? blocked_pid))
                (blocked_list w) with
        | Some a =>
            let fl := lk w (default 0 (fl_next w !! a)) in
            posix_locks_deadlock fuel w caller_owner caller_pid (fl_owner fl) (fl_pid fl)
        | None => Some false
        end
  end.

(** ** Changing the list *)

(** [locks_delete_lock(before, 0)], once the lock is out of the list *)
Definition delete_lock (a : Z) (w : world) : world :=
  let w := locks_wake_up_blocks a w in w <| locks := delete a (locks w) |>.

Record scan := Scan { s_world : world; s_caller : Z; s_added : bool; s_left : option Z; s_right : option Z }.
#[global] Instance scan_fields : Fields scan := fun s =>
  Scan (s_world s) (s_caller s) (s_added s) (s_left s) (s_right s).

(** "Make one lock yielding from the lower start address of both locks to the higher end address": both
    structures get the range. *)
Definition merge_ranges (fl caller : Z) (w : world) : world :=
  let w := if fl_start (lk w caller) <? fl_start (lk w fl)
           then set_lk fl ((lk w fl) <| fl_start := fl_start (lk w caller) |>) w
           else set_lk caller ((lk w caller) <| fl_start := fl_start (lk w fl) |>) w in
  if fl_end (lk w fl) <? fl_end (lk w caller)
  then set_lk fl ((lk w fl) <| fl_end := fl_end (lk w caller) |>) w
  else set_lk caller ((lk w caller) <| fl_end := fl_end (lk w fl) |>) w.

(** The loop over the locks of this owner. [pre] and the list argument are the locks before and after
    [before]; the result has them where the loop ended. *)
Fixpoint own_loop (pre rest : list Z) (st : scan) : list Z * list Z * scan :=
  match rest with
  | [] => (pre, [], st)
  | a :: rest' =>
      let w := s_world st in
      let fl := lk w a in
      let caller := lk w (s_caller st) in
      let next st := own_loop (pre ++ [a]) rest' st in
      let stop st := (pre, rest, st) in
      let remove w := own_loop pre rest' (st <| s_world := delete_lock a w |>) in
      if negb (locks_same_owner caller fl) then stop st
      else if fl_type caller =? fl_type fl then
        if fl_end fl <? fl_start caller - 1 then next st
        else if s64 (fl_end caller + 1) <? fl_start fl then stop st
        else
          let w := merge_ranges a (s_caller st) w in
          if s_added st then remove w
          else next (st <| s_world := w |> <| s_caller := a |> <| s_added := true |>)
      else if fl_end fl <? fl_start caller then next st
      else if fl_end caller <? fl_start fl then stop st
      else
        let st := if fl_type caller =? F_UNLCK then st <| s_added := true |> else st in
        let st := if fl_start fl <? fl_start caller then st <| s_left := Some a |> else st in
        if fl_end caller <? fl_end fl then stop (st <| s_right := Some a |>)
        else if fl_start caller <=? fl_start fl then
          if s_added st then own_loop pre rest' (st <| s_world := delete_lock a w |>)
          else
            let w := locks_wake_up_blocks a w in
            let w := set_lk a (fl <| fl_start := fl_start caller |> <| fl_end := fl_end caller |>
                                  <| fl_type := fl_type caller |>) w in
            next (st <| s_world := w |> <| s_caller := a |> <| s_added := true |>)
        else next st
  end.

(** The locks of other owners, and locks of other kinds, at the head of the list. *)
Fixpoint skip_others (w : world) (caller : file_lock) (pre rest : list Z) : list Z * list Z :=
  match rest with
  | a :: rest' =>
      if negb (is_posix (lk w a)) || negb (locks_same_owner caller (lk w a))
      then skip_others w caller (pre ++ [a]) rest'
      else (pre, rest)
  | [] => (pre, [])
  end.

(** After the loop: the new lock, and the pieces of an old one that reached into it. *)
Definition posix_lock_finish (new_fl new_fl2 : Z) (pre rest : list Z) (st : scan) : world :=
  let w := s_world st in
  let caller w := lk w (s_caller st) in
  if negb (s_added st) && (fl_type (caller w) =? F_UNLCK) then w <| i_flock := pre ++ rest |>
  else
    let '(w, rest) := if s_added st then (w, rest) else (set_lk new_fl (caller w) w, new_fl :: rest) in
    let '(w, rest, left_) :=
      match s_right st with
      | Some r =>
          let '(w, rest, left_) :=
            if decide (s_left st = Some r) then (set_lk new_fl2 (lk w r) w, new_fl2 :: rest, Some new_fl2)
            else (w, rest, s_left st) in
          let w := set_lk r ((lk w r) <| fl_start := fl_end (caller w) + 1 |>) w in
          (locks_wake_up_blocks r w, rest, left_)
      | None => (w, rest, s_left st)
      end in
    let w := match left_ with
             | Some l => locks_wake_up_blocks l (set_lk l ((lk w l) <| fl_end := fl_start (caller w) - 1 |>) w)
             | None => w
             end in
    w <| i_flock := pre ++ rest |>.

(** From "Find the first old lock with the same owner as the new lock" on. *)
Definition posix_lock_apply (new_fl new_fl2 caller : Z) (w : world) : world :=
  let '(pre, rest) := skip_others w (lk w caller) [] (i_flock w) in
  let '(pre, rest, st) := own_loop pre rest (Scan w caller false None None) in
  posix_lock_finish new_fl new_fl2 pre rest st.

(** ** posix_lock_file and its callers *)

(** What a critical section ends with. *)
Inductive result := Returns (error : Z) | Sleeps.

(** The search for a conflict, and what follows: [repeat:]. [None]: the detection of deadlocks does not
    end. *)
Definition posix_lock_try (new_fl new_fl2 caller : Z) (wait : bool) (w : world) : option (result * world) :=
  let c := lk w caller in
  match (if fl_type c =? F_UNLCK then None
         else find (fun fl => is_posix (lk w fl) && posix_locks_conflict c (lk w fl)) (i_flock w)) with
  | Some fl =>
      if negb wait then Some (Returns (- EAGAIN), w)
      else
        match posix_locks_deadlock (S (length (blocked_list w))) w (fl_owner c) (fl_pid c)
                (fl_owner (lk w fl)) (fl_pid (lk w fl)) with
        | Some true => Some (Returns (- EDEADLK), w)
        | Some false => Some (Sleeps, locks_insert_block fl caller w)
        | None => None
        end
  | None => Some (Returns 0, posix_lock_apply new_fl new_fl2 caller w)
  end.

Definition posix_lock_start (new_fl new_fl2 : option Z) (caller : Z) (wait : bool) (w : world)
    : option (result * world) :=
  match new_fl, new_fl2 with
  | Some a, Some b => posix_lock_try a b caller wait w
  | _, _ => Some (Returns (- ENOLCK), w)
  end.

(** After the sleep, which ended with or without a signal. *)
Definition posix_lock_resume (new_fl new_fl2 caller : Z) (signal : bool) (w : world) : option (result * world) :=
  let w := locks_delete_block caller w in
  if signal then Some (Returns (- ERESTARTSYS), w) else posix_lock_try new_fl new_fl2 caller true w.

(** close(): all locks of this owner. After each of them the code starts again at the head of the list;
    the locks before it do not match. *)
Fixpoint remove_loop (owner : Z) (pre rest : list Z) (w : world) : world :=
  match rest with
  | [] => w <| i_flock := pre |>
  | a :: rest =>
      if is_posix (lk w a) && (fl_owner (lk w a) =? owner) then remove_loop owner pre rest (delete_lock a w)
      else remove_loop owner (pre ++ [a]) rest w
  end.
Definition locks_remove_posix (owner : Z) (w : world) : world := remove_loop owner [] (i_flock w) w.

(** ** The arguments of fcntl *)
Record flock64 := Flock64 { l_type : Z; l_whence : Z; l_start : Z; l_len : Z; l_pid : Z }.

(** [current] and the file: the identity of the caller, the position and the size *)
Record file_context := Context_ { c_files : Z; c_pid : Z; c_filp : Z; c_pos : Z; c_size : Z }.

Definition whence_start (whence pos size : Z) : option Z :=
  if whence =? 0 then Some 0 else if whence =? 1 then Some pos else if whence =? 2 then Some size else None.
Definition lock_type_ok (type : Z) : bool := (type =? F_RDLCK) || (type =? F_WRLCK) || (type =? F_UNLCK).

Definition flock64_to_posix_lock (c : file_context) (l : flock64) : Z + file_lock :=
  match whence_start (l_whence l) (c_pos c) (c_size c) with
  | None => inl (- EINVAL)
  | Some base =>
      let start := s64 (base + l_start l) in
      if (start <? 0) || (l_len l <? 0) then inl (- EINVAL)
      else
        let end_ := s64 (start + l_len l - 1) in
        if (0 <? l_len l) && (end_ <? 0) then inl (- EOVERFLOW)
        else
          let end_ := if l_len l =? 0 then OFFSET_MAX else end_ in
          if lock_type_ok (l_type l)
          then inr (Lock (c_files c) (c_pid c) (c_filp c) FL_POSIX (l_type l) start end_)
          else inl (- EINVAL)
  end.

(** The same with the 32-bit [off_t]. *)
Definition flock_to_posix_lock (c : file_context) (l : flock64) : Z + file_lock :=
  match whence_start (l_whence l) (c_pos c) (c_size c) with
  | None => inl (- EINVAL)
  | Some base =>
      let start := s32 (s32 base + l_start l) in
      if (start <? 0) || (l_len l <? 0) then inl (- EINVAL)
      else
        let end_ := s32 (start + l_len l - 1) in
        if (0 <? l_len l) && (end_ <? 0) then inl (- EOVERFLOW)
        else
          let end_ := if l_len l =? 0 then OFFSET_MAX else end_ in
          if lock_type_ok (l_type l)
          then inr (Lock (c_files c) (c_pid c) (c_filp c) FL_POSIX (l_type l) start end_)
          else inl (- EINVAL)
  end.

(** ** What a list of locks means *)

Definition owner_of (l : file_lock) : Z * Z := (fl_owner l, fl_pid l).
Definition covers (l : file_lock) (x : Z) : Prop := fl_start l <= x <= fl_end l.

(** The owner [o] has a lock of type [t] on the byte [x]. *)
Definition holds (ls : list file_lock) (o : Z * Z) (x t : Z) : Prop :=
  exists l, l ∈ ls /\ owner_of l = o /\ covers l x /\ fl_type l = t.

(** Two locks of one owner, the first before the second: apart, with a gap when they have the same type. *)
Definition apart (l l' : file_lock) : Prop :=
  fl_end l < fl_start l' /\ (fl_type l = fl_type l' -> fl_end l + 1 < fl_start l').
Definition lock_ok (l : file_lock) : Prop :=
  is_posix l = true /\ 0 <= fl_start l <= fl_end l /\ fl_end l <= OFFSET_MAX /\
  (fl_type l = F_RDLCK \/ fl_type l = F_WRLCK).

(** The locks of each owner come one after the other. *)
Fixpoint grouped {A} (ks : list A) : Prop :=
  match ks with [] => True | k :: ks => grouped ks /\ (k ∈ ks -> head ks = Some k) end.

Record list_ok (ls : list file_lock) : Prop := {
  lo_ok : Forall lock_ok ls;
  lo_apart : StronglySorted (fun l l' => owner_of l = owner_of l' -> apart l l') ls;
  lo_grouped : grouped (owner_of <$> ls) }.

(** *** Generic lemmas *)
Lemma sorted_impl {A} (R R' : A -> A -> Prop) l :
  (forall x y, x ∈ l -> y ∈ l -> R x y -> R' x y) -> StronglySorted R l -> StronglySorted R' l.
Proof.
  induction l as [|z l IH]; intros H Hs; [constructor|]. apply StronglySorted_inv in Hs as [H1 H2].
  constructor.
  - apply IH; [|done]. intros x y Hx Hy. apply H; by right.
  - rewrite Forall_forall in *. intros y Hy. apply H; [by left|by right|auto].
Qed.

Lemma sorted_fmap {A B} (f : A -> B) (R : B -> B -> Prop) l :
  StronglySorted (fun x y => R (f x) (f y)) l -> StronglySorted R (f <$> l).
Proof. induction 1 as [|x l Hs IH Hx]; cbn; constructor; [done|]. by apply Forall_fmap. Qed.

Section Grouped.
Context {A : Type} `{EqDecision A}.
Implicit Types (ks pre post : list A).

Lemma grouped_app_r pre post : grouped (pre ++ post) -> grouped post.
Proof. induction pre; [done|]. intros [H _]. auto. Qed.

Lemma grouped_run (o : A) own post : Forall (fun k => k = o) own -> grouped post -> o ∉ post ->
  grouped (own ++ post).
Proof.
  intros Ho Hp Hn. induction Ho as [|k own -> Ho IH]; [done|]. split; [done|].
  intros [Hin|Hin]%elem_of_app; [|done]. destruct Ho as [|k own -> _]; [by apply elem_of_nil in Hin|done].
Qed.

(** The group of one owner can be exchanged; a new one is put at the end. *)
Lemma grouped_replace (o : A) pre own own' post :
  Forall (fun k => k = o) own -> Forall (fun k => k = o) own' -> o ∉ pre -> o ∉ post ->
  (own = [] -> post = []) -> grouped (pre ++ own ++ post) -> grouped (pre ++ own' ++ post).
Proof.
  intros Ho Ho' Hpre Hpost Hemp. induction pre as [|k pre IH]; cbn.
  - intros H. apply (grouped_run o); [done| |done]. by eapply grouped_app_r.
  - apply not_elem_of_cons in Hpre as [Hk Hpre]. intros [H1 H2]. split; [auto|].
    intros Hin. assert (k ∈ pre \/ k ∈ post) as Hin'.
    { apply elem_of_app in Hin as [|[Hin|]%elem_of_app]; [auto| |auto].
      rewrite Forall_forall in Ho'. by apply Ho' in Hin. }
    assert (k ∈ pre ++ own ++ post) as Hold by set_solver. specialize (H2 Hold).
    destruct pre as [|k' pre]; [|done]. destruct Hin' as [Hin'|Hin']; [by apply elem_of_nil in Hin'|].
    destruct Ho as [|k' own -> _].
    + rewrite Hemp in Hin' by done. by apply elem_of_nil in Hin'.
    + cbn in H2. congruence.
Qed.

Lemma grouped_split (o : A) ks : grouped ks -> exists pre own post, ks = pre ++ own ++ post /\
  (o ∉ pre) /\ Forall (fun k => k = o) own /\ (o ∉ post) /\ (own = [] -> post = []).
Proof.
  induction ks as [|k ks IH]; [exists [], [], []; split_and!; (done || set_solver)|].
  intros [Hg Hk]. destruct (IH Hg) as (pre & own & post & -> & H1 & H2 & H3 & H4).
  destruct (decide (k = o)) as [->|Hne].
  - destruct (decide (o ∈ pre ++ own ++ post)) as [Hin|Hin].
    + specialize (Hk Hin). destruct pre as [|k' pre]; [|cbn in Hk; set_solver].
      exists [], (o :: own), post. split_and!; [done|set_solver|by constructor|done|done].
    + destruct own as [|k' own]; [|apply Forall_cons in H2 as [-> _]; set_solver].
      rewrite (H4 eq_refl) in *. exists [], [o], pre. rewrite !app_nil_r in *.
      split_and!; [done|set_solver|by constructor|set_solver|done].
  - exists (k :: pre), own, post. split_and!; [done|set_solver|done..].
Qed.
End Grouped.

(** ** The loop over the locks of one owner *)

(** Waking does not touch the locks. *)
Lemma delete_block_locks a w : locks (locks_delete_block a w) = locks w.
Proof. unfold locks_delete_block. by destruct (fl_next w !! a). Qed.
Lemma wake_locks a w : locks (locks_wake_up_blocks a w) = locks w.
Proof.
  unfold locks_wake_up_blocks. generalize (blocks w a). intros l. revert w.
  induction l as [|v l IH]; intros w; [done|]. cbn. rewrite IH. cbn. apply delete_block_locks.
Qed.
Lemma delete_lock_locks a w : locks (delete_lock a w) = delete a (locks w).
Proof. unfold delete_lock. cbn. by rewrite wake_locks. Qed.
Lemma at_insert_eq h a l : at_ (<[a := l]> h) a = l.
Proof. unfold at_. by rewrite lookup_insert_eq. Qed.
Lemma at_insert_ne h a b l : a <> b -> at_ (<[a := l]> h) b = at_ h b.
Proof. intros. unfold at_. by rewrite lookup_insert_ne. Qed.
Lemma at_delete_ne h a b : a <> b -> at_ (delete a h) b = at_ h b.
Proof. intros. unfold at_. by rewrite lookup_delete_ne. Qed.

Lemma same_owner_true l l' : owner_of l = owner_of l' -> locks_same_owner l l' = true.
Proof. unfold owner_of, locks_same_owner. intros [= -> ->]. by rewrite !Z.eqb_refl. Qed.
Lemma same_owner_false l l' : owner_of l <> owner_of l' -> locks_same_owner l l' = false.
Proof.
  unfold owner_of, locks_same_owner. intros H. destruct (Z.eqb_spec (fl_owner l) (fl_owner l')) as [E1|]; [|done].
  destruct (Z.eqb_spec (fl_pid l) (fl_pid l')) as [E2|]; [|done]. by rewrite E1, E2 in H.
Qed.
Lemma lk_set_eq a l w : lk (set_lk a l w) a = l.
Proof. apply at_insert_eq. Qed.
Lemma lk_set_ne a b l w : a <> b -> lk (set_lk a l w) b = lk w b.
Proof. apply at_insert_ne. Qed.

Lemma lk_wake a b w : lk (locks_wake_up_blocks a w) b = lk w b.
Proof. unfold lk. by rewrite wake_locks. Qed.
Lemma lk_list w xs b : lk (w <| i_flock := xs |>) b = lk w b.
Proof. done. Qed.

Lemma merge_ranges_spec a k w : a <> k ->
  let s := Z.min (fl_start (lk w a)) (fl_start (lk w k)) in
  let e := Z.max (fl_end (lk w a)) (fl_end (lk w k)) in
  lk (merge_ranges a k w) a = (lk w a) <| fl_start := s |> <| fl_end := e |> /\
  lk (merge_ranges a k w) k = (lk w k) <| fl_start := s |> <| fl_end := e |> /\
  forall b, b <> a -> b <> k -> lk (merge_ranges a k w) b = lk w b.
Proof.
  intros Hne s e. unfold merge_ranges, s, e.
  destruct (Z.ltb_spec (fl_start (lk w k)) (fl_start (lk w a)));
    repeat (rewrite ?lk_set_eq, ?(lk_set_ne a k), ?(lk_set_ne k a) by congruence); cbn [fl_start fl_end update];
    destruct (Z.ltb_spec (fl_end (lk w a)) (fl_end (lk w k)));
    repeat (rewrite ?lk_set_eq, ?(lk_set_ne a k), ?(lk_set_ne k a) by congruence);
    (split_and!; [..|intros b ??; by rewrite !lk_set_ne by done]);
    (destruct (lk w a), (lk w k); cbn in *; unfold update; cbn; f_equal; lia).
Qed.

Lemma own_loop_foreign pre xs st :
  Forall (fun b => owner_of (lk (s_world st) (s_caller st)) <> owner_of (lk (s_world st) b)) xs ->
  own_loop pre xs st = (pre, xs, st).
Proof. intros [|b xs' Hb _]; [done|]. cbn [own_loop]. by rewrite same_owner_false. Qed.

(** The pieces of an old lock in front of and after the new one. *)
Definition cut_left (c l : file_lock) : file_lock := l <| fl_end := fl_start c - 1 |>.
Definition cut_right (c l : file_lock) : file_lock := l <| fl_start := fl_end c + 1 |>.

(** The structures after [posix_lock_finish]. *)
Section Finish.
Context (n1 n2 : Z) (pre rest : list Z) (st : scan).
Let w := s_world st.
Let c := lk w (s_caller st).
Let w' := posix_lock_finish n1 n2 pre rest st.
Hypothesis Hk : s_caller st <> n1 /\ s_caller st <> n2 /\ s_left st <> Some (s_caller st) /\
  s_right st <> Some (s_caller st).
Hypothesis Hl : s_left st <> Some n1 /\ s_left st <> Some n2 /\ s_right st <> Some n1 /\ s_right st <> Some n2.
Hypothesis Hdo : s_added st = true \/ fl_type c <> F_UNLCK.

Let start := if s_added st then w else set_lk n1 c w.
Lemma lk_start b : b <> n1 -> lk start b = lk w b.
Proof. intros Hb. unfold start. destruct (s_added st); [done|]. by rewrite lk_set_ne. Qed.

Lemma finish_none : s_right st = None ->
  i_flock w' = pre ++ (if s_added st then rest else n1 :: rest) /\
  (forall b, s_left st <> Some b -> lk w' b = lk start b) /\
  (forall l, s_left st = Some l -> lk w' l = cut_left c (lk w l)).
Proof.
  intros Hr. unfold w', posix_lock_finish. fold w c. rewrite Hr.
  assert (negb (s_added st) && (fl_type c =? F_UNLCK) = false) as ->.
  { destruct Hdo as [->|H]; [done|]. by rewrite (proj2 (Z.eqb_neq _ _) H), andb_false_r. }
  pose proof lk_start as Hs. unfold start in *. fold c.
  destruct Hk as (K1 & K2 & K3 & _), Hl as (L1 & L2 & _).
  destruct (s_added st), (s_left st) as [l|]; cbn [i_flock update]; split_and!; try done; intros b Hb;
    rewrite lk_list, ?lk_wake.
  - rewrite lk_set_ne; congruence.
  - injection Hb as <-. by rewrite lk_set_eq.
  - rewrite lk_set_ne; congruence.
  - injection Hb as <-. rewrite lk_set_eq. rewrite !(lk_set_ne n1) by congruence. done.
Qed.

Lemma finish_right r : s_right st = Some r -> s_left st <> Some r ->
  i_flock w' = pre ++ (if s_added st then rest else n1 :: rest) /\
  (forall b, s_left st <> Some b -> b <> r -> lk w' b = lk start b) /\
  (forall l, s_left st = Some l -> lk w' l = cut_left c (lk w l)) /\
  lk w' r = cut_right c (lk w r).
Proof.
  intros Hr Hne. unfold w', posix_lock_finish. fold w c. rewrite Hr.
  assert (negb (s_added st) && (fl_type c =? F_UNLCK) = false) as ->.
  { destruct Hdo as [->|H]; [done|]. by rewrite (proj2 (Z.eqb_neq _ _) H), andb_false_r. }
  pose proof lk_start as Hs. unfold start in *.
  destruct Hk as (K1 & K2 & K3 & K4), Hl as (L1 & L2 & L3 & L4). rewrite Hr in *.
  destruct (s_added st), (s_left st) as [l|]; rewrite decide_False by done; cbn [i_flock update]; split_and!; try done; intros;
    rewrite lk_list, ?lk_wake; simplify_eq;
    repeat (rewrite ?lk_wake, ?lk_set_eq; rewrite ?lk_set_ne by congruence); done.
Qed.

Lemma finish_split r : s_right st = Some r -> s_left st = Some r ->
  i_flock w' = pre ++ n2 :: (if s_added st then rest else n1 :: rest) /\
  (forall b, b <> n2 -> b <> r -> lk w' b = lk start b) /\
  lk w' n2 = cut_left c (lk w r) /\ lk w' r = cut_right c (lk w r).
Proof.
  intros Hr Hle. unfold w', posix_lock_finish. fold w c. rewrite Hr.
  assert (negb (s_added st) && (fl_type c =? F_UNLCK) = false) as ->.
  { destruct Hdo as [->|H]; [done|]. by rewrite (proj2 (Z.eqb_neq _ _) H), andb_false_r. }
  pose proof lk_start as Hs. unfold start in *.
  destruct Hk as (K1 & K2 & K3 & K4), Hl as (L1 & L2 & L3 & L4). rewrite Hr, Hle in *.
  destruct (s_added st); rewrite decide_True by done; cbn [i_flock update]; split_and!; try done; intros;
    rewrite lk_list, ?lk_wake; simplify_eq;
    repeat (rewrite ?lk_wake, ?lk_set_eq; rewrite ?lk_set_ne by congruence); done.
Qed.
End Finish.

Section Loop.
(** [own]: the locks of the owner, between [front] and [post], in the heap [h0] of the start; [c0] the new lock, of type [T] on
    [S] to [E]. *)
Context (h0 : gmap Z file_lock) (front own post : list Z) (c0 : Z) (o : Z * Z) (T S E : Z).
Let l0 a := at_ h0 a.
Let others := post ++ front.
Hypothesis Hdup : NoDup (own ++ others).
Hypothesis Hc0 : c0 ∉ own ++ others.
Hypothesis Hok : Forall (fun a => lock_ok (l0 a)) own.
Hypothesis Hown : Forall (fun a => owner_of (l0 a) = o) own.
Hypothesis Hsort : StronglySorted (fun a b => apart (l0 a) (l0 b)) own.
Hypothesis Hpost : Forall (fun a => owner_of (l0 a) <> o) post.
Hypothesis Hrange : 0 <= S <= E /\ E <= OFFSET_MAX.
Hypothesis Htype : T = F_RDLCK \/ T = F_WRLCK \/ T = F_UNLCK.

(** The end of the new lock plus one does not overflow, where it matters. *)
Definition no_overflow : Prop := E < OFFSET_MAX \/ Forall (fun a => fl_type (l0 a) = T -> fl_end (l0 a) < S - 1) own.
Hypothesis Hover : no_overflow.

(** The lock [c] stands for the new lock and the old ones [D]. *)
Record absorbed (D : list Z) (c : file_lock) : Prop := {
  ab_owner : owner_of c = o; ab_posix : is_posix c = true; ab_type : fl_type c = T;
  ab_new : fl_start c <= S /\ E <= fl_end c;
  ab_old : Forall (fun d => fl_start c <= fl_start (l0 d) /\ fl_end (l0 d) <= fl_end c) D;
  ab_only : forall x, covers c x -> S <= x <= E \/ exists d, d ∈ D /\ fl_type (l0 d) = T /\ covers (l0 d) x;
  ab_end : fl_end c = E \/ exists d, d ∈ D /\ fl_end c = fl_end (l0 d);
  ab_same : Forall (fun a => fl_type (l0 a) = T -> fl_end (l0 a) < S - 1) own ->
    fl_start c = S /\ fl_end c = E }.

Definition clear_of (c l : file_lock) : Prop :=
  fl_end l < fl_start c /\ (fl_type l = T -> fl_end l + 1 < fl_start c).

(** [A]: the locks that stay in front; the last of them may reach into the new one. *)
Definition left_ok (A : list Z) (left_ : option Z) (c : file_lock) : Prop :=
  match left_ with
  | None => Forall (fun a => clear_of c (l0 a)) A
  | Some l => exists A1, A = A1 ++ [l] /\ Forall (fun a => clear_of c (l0 a)) A1 /\
      fl_start (l0 l) < fl_start c <= fl_end (l0 l) /\ fl_end (l0 l) <= fl_end c /\ fl_type (l0 l) <> T /\
      fl_start c = S
  end.

Record loop_inv (A D R pre : list Z) (st : scan) : Prop := {
  li_split : own = A ++ D ++ R;
  li_same : Forall (fun a => lk (s_world st) a = l0 a) (A ++ R ++ others);
  li_caller : absorbed D (lk (s_world st) (s_caller st));
  li_fresh : s_added st = false -> D = [] /\ s_caller st = c0;
  li_unlock : T = F_UNLCK -> s_caller st = c0 /\ fl_start (lk (s_world st) c0) = S /\
    fl_end (lk (s_world st) c0) = E;
  li_added : s_added st = true -> T <> F_UNLCK -> exists D', D = s_caller st :: D';
  li_left : left_ok A (s_left st) (lk (s_world st) (s_caller st));
  li_touched : T = F_UNLCK -> s_added st = false -> s_left st = None;
  li_right : s_right st = None;
  li_pre : pre = front ++ A ++ (if s_added st && negb (T =? F_UNLCK) then [s_caller st] else []) }.

Lemma in_own A D R : own = A ++ D ++ R -> forall a, a ∈ A ++ D ++ R -> lock_ok (l0 a) /\ owner_of (l0 a) = o.
Proof. intros -> a Ha. rewrite Forall_forall in Hok, Hown. auto. Qed.

(** The locks around the next one, [a]. *)
Lemma around A D a R : own = A ++ D ++ a :: R ->
  Forall (fun b => apart (l0 b) (l0 a)) (A ++ D) /\ lock_ok (l0 a) /\ owner_of (l0 a) = o /\
  Forall (fun d => lock_ok (l0 d)) (A ++ D).
Proof.
  intros E0. pose proof Hsort as Hs. rewrite E0, app_assoc in Hs. apply StronglySorted_app in Hs as [Hs _].
  split_and!.
  - apply Forall_forall. intros b Hb. apply Hs; [done|by left].
  - apply (in_own A D (a :: R)); [done|set_solver].
  - apply (in_own A D (a :: R)); [done|set_solver].
  - apply Forall_forall. intros d Hd. apply (in_own A D (a :: R)); [done|set_solver].
Qed.

Lemma caller_cases A D R pre st : loop_inv A D R pre st -> s_caller st = c0 \/ s_caller st ∈ D.
Proof.
  intros I. destruct (s_added st) eqn:Ea; [|left; by apply (li_fresh _ _ _ _ _ I)].
  destruct (decide (T = F_UNLCK)); [left; by apply (li_unlock _ _ _ _ _ I)|].
  destruct (li_added _ _ _ _ _ I Ea ltac:(done)) as [D' ->]. right. by left.
Qed.

Lemma caller_not_next A D R pre st : loop_inv A D R pre st -> s_caller st ∉ A ++ R ++ others.
Proof.
  intros I. pose proof (li_split _ _ _ _ _ I) as E0. pose proof Hdup as Hd. rewrite E0 in Hd.
  destruct (caller_cases _ _ _ _ _ I) as [->|Hin].
  - rewrite E0 in Hc0. set_solver.
  - rewrite !NoDup_app in Hd. set_solver.
Qed.

(** Locks that end before the new one starts come first. *)
Lemma front_first A D a R pre st : loop_inv A D (a :: R) pre st ->
  fl_end (l0 a) < fl_start (lk (s_world st) (s_caller st)) -> D = [] /\ s_left st = None.
Proof.
  intros I Ha. destruct (around _ _ _ _ (li_split _ _ _ _ _ I)) as (Hap & Hoka & _ & HokD).
  rewrite Forall_app in Hap, HokD. destruct Hap as [HapA HapD], HokD as [HokA HokD].
  destruct Hoka as (_ & Hoka & _). split.
  - destruct D as [|d D]; [done|]. pose proof (ab_old _ _ (li_caller _ _ _ _ _ I)) as Hold.
    apply Forall_cons in Hold as [Hold _]. apply Forall_cons in HapD as [[HapD _] _].
    apply Forall_cons in HokD as [(_ & HokD & _) _]. lia.
  - pose proof (li_left _ _ _ _ _ I) as Hl. destruct (s_left st) as [l|]; [|done].
    destruct Hl as (A1 & -> & _ & Hl & _). apply Forall_app in HapA as [_ HapA].
    apply Forall_cons in HapA as [[HapA _] _]. lia.
Qed.

Lemma not_added_pre A R pre st : loop_inv A [] R pre st -> pre = front ++ A.
Proof.
  intros I. pose proof (li_pre _ _ _ _ _ I) as Hp. destruct (s_added st) eqn:Ea; cbn in Hp; [|by rewrite app_nil_r in Hp].
  destruct (Z.eqb_spec T F_UNLCK) as [|Hne]; cbn in Hp; [by rewrite app_nil_r in Hp|].
  by destruct (li_added _ _ _ _ _ I Ea Hne).
Qed.

Lemma pass_front A D a R pre st : loop_inv A D (a :: R) pre st ->
  clear_of (lk (s_world st) (s_caller st)) (l0 a) -> loop_inv (A ++ [a]) D R (pre ++ [a]) st.
Proof.
  intros I Ha. destruct (front_first _ _ _ _ _ _ I (proj1 Ha)) as [-> Hl].
  pose proof (not_added_pre _ _ _ _ I) as Hpre.
  destruct I as [I1 I2 I3 I4 I5 I6 I7 I7' I8 I9]. split; try done.
  - rewrite I1. cbn. by rewrite <- app_assoc.
  - rewrite <- app_assoc. exact I2.
  - rewrite Hl in *. apply Forall_app. split; [done|]. by constructor.
  - rewrite Hpre. destruct (s_added st) eqn:Ea; cbn; [|by rewrite app_nil_r, app_assoc].
    destruct (Z.eqb_spec T F_UNLCK) as [|Hne]; cbn; [by rewrite app_nil_r, app_assoc|].
    by destruct (I6 eq_refl Hne).
Qed.

(** The comparison with the end plus one, where it is reached. *)
Lemma end_plus_one A D a R pre st : loop_inv A D (a :: R) pre st ->
  fl_type (l0 a) = T -> fl_start (lk (s_world st) (s_caller st)) - 1 <= fl_end (l0 a) ->
  s64 (fl_end (lk (s_world st) (s_caller st)) + 1) = fl_end (lk (s_world st) (s_caller st)) + 1.
Proof.
  intros I Ht Ha. destruct (around _ _ _ _ (li_split _ _ _ _ _ I)) as (Hap & Hoka & _ & HokD).
  destruct I as [I1 _ [_ _ _ Hnew _ _ Hend Hsame] _ _ _ _ _ _ _].
  assert (fl_end (lk (s_world st) (s_caller st)) < OFFSET_MAX) as Hlt.
  { destruct Hover as [Hov|Hov].
    - destruct Hend as [->|(d & Hd & ->)]; [done|].
      rewrite Forall_forall in Hap. destruct (Hap d) as [Hd1 _]; [set_solver|].
      destruct Hoka as (_ & ? & ? & _). lia.
    - destruct (Hsame Hov) as [Hs _]. rewrite Hs in Ha. rewrite Forall_forall in Hov.
      specialize (Hov a). rewrite I1 in Hov. specialize (Hov ltac:(set_solver) Ht). lia. }
  destruct Hrange as [HS HE]. unfold s64, OFFSET_MAX in *. rewrite Z.mod_small; lia.
Qed.

(** *** Taking one more lock in *)
Lemma absorbed_merge A D a R c c' : own = A ++ D ++ a :: R -> absorbed D c ->
  owner_of c' = o -> is_posix c' = true -> fl_type c' = T -> fl_type (l0 a) = T ->
  fl_start c - 1 <= fl_end (l0 a) -> fl_start (l0 a) <= fl_end c + 1 ->
  fl_start c' = Z.min (fl_start (l0 a)) (fl_start c) -> fl_end c' = Z.max (fl_end (l0 a)) (fl_end c) ->
  absorbed (D ++ [a]) c'.
Proof.
  intros E0 [H1 H2 H3 H4 H5 H6 H7 H8] Ho Hp Ht Hta Hs He Es Ee. split; [done..| | | | |].
  - lia.
  - apply Forall_app. split; [|by constructor; [lia|]]. eapply Forall_impl; [exact H5|]. cbn. lia.
  - intros x Hx. unfold covers in *. rewrite Es, Ee in Hx.
    destruct (decide (fl_start c <= x <= fl_end c)) as [Hin|Hin].
    + destruct (H6 x Hin) as [|(d & Hd & ?)]; [by left|]. right. exists d. split; [set_solver|done].
    + right. exists a. split; [set_solver|]. split; [done|]. lia.
  - rewrite Ee. destruct (Z.max_spec (fl_end (l0 a)) (fl_end c)) as [[_ ->]|[_ ->]].
    + destruct H7 as [|(d & Hd & ?)]; [by left|]. right. exists d. split; [set_solver|done].
    + right. exists a. split; [set_solver|done].
  - intros Hg. destruct (H8 Hg) as [K1 K2]. rewrite E0, Forall_forall in Hg.
    specialize (Hg a ltac:(set_solver) Hta). lia.
Qed.

Lemma absorbed_inside D a c c' : absorbed D c ->
  owner_of c' = o -> is_posix c' = true -> fl_type c' = T -> 
  fl_start c <= fl_start (l0 a) -> fl_end (l0 a) <= fl_end c ->
  fl_start c' = fl_start c -> fl_end c' = fl_end c -> absorbed (D ++ [a]) c'.
Proof.
  intros [H1 H2 H3 H4 H5 H6 H7 H8] Ho Hp Ht Hs He Es Ee. split; rewrite ?Es, ?Ee; try done.
  - apply Forall_app. split; [done|by constructor].
  - intros x Hx. unfold covers in *. rewrite Es, Ee in Hx.
    destruct (H6 x Hx) as [|(d & Hd & ?)]; [by left|]. right. exists d. split; [set_solver|done].
  - destruct H7 as [|(d & Hd & ?)]; [by left|]. right. exists d. split; [set_solver|done].
Qed.

Lemma left_ok_grow A left_ a c c' : left_ok A left_ c -> Forall (fun b => apart (l0 b) (l0 a)) A ->
  fl_type (l0 a) = T -> fl_start c' = Z.min (fl_start (l0 a)) (fl_start c) -> fl_end c <= fl_end c' ->
  left_ok A left_ c'.
Proof.
  intros Hl Ha Ht Es Ee. destruct left_ as [l|].
  - destruct Hl as (A1 & -> & H1 & H2 & H3 & H4 & H5). apply Forall_app in Ha as [_ Ha].
    apply Forall_cons in Ha as [[Ha _] _]. assert (fl_start c' = fl_start c) as E1 by lia.
    exists A1. unfold clear_of in *. rewrite E1. split_and!; (done || lia).
  - cbn in *. rewrite Forall_forall in *. intros b Hb. destruct (Hl b Hb) as [K1 K2], (Ha b Hb) as [K3 K4].
    split; [lia|]. intros Hbt. specialize (K2 Hbt). rewrite Hbt, Ht in K4. specialize (K4 eq_refl). lia.
Qed.

Lemma left_ok_same A left_ c c' : left_ok A left_ c -> fl_start c' = fl_start c -> fl_end c' = fl_end c ->
  left_ok A left_ c'.
Proof. intros Hl Es Ee. unfold left_ok, clear_of in *. by rewrite Es, Ee. Qed.

Section Step.
Context (A D : list Z) (a : Z) (R pre : list Z) (st : scan) (w' : world).
Hypothesis I : loop_inv A D (a :: R) pre st.
Hypothesis Hsame : Forall (fun b => lk w' b = lk (s_world st) b) (A ++ R ++ others).

Lemma still_same : Forall (fun b => lk w' b = l0 b) (A ++ R ++ others).
Proof.
  pose proof (li_same _ _ _ _ _ I) as H. rewrite Forall_forall in *. intros b Hb. rewrite Hsame by done.
  apply H. set_solver.
Qed.

Lemma absorb_delete st' : s_world st' = w' -> s_caller st' = s_caller st -> s_left st' = s_left st ->
  s_right st' = s_right st -> s_added st' = true -> (s_added st = true \/ T = F_UNLCK) ->
  absorbed (D ++ [a]) (lk w' (s_caller st)) -> left_ok A (s_left st) (lk w' (s_caller st)) ->
  (T = F_UNLCK -> lk w' c0 = lk (s_world st) c0) ->
  loop_inv A (D ++ [a]) R pre st'.
Proof.
  intros E1 E2 E3 E4 E5 Hadd Hab Hleft Hun. pose proof still_same as Hst. destruct I as [I1 I2 I3 I4 I5 I6 I7 I7' I8 I9].
  split; rewrite ?E1, ?E2, ?E3, ?E4, ?E5; try done.
  - rewrite I1. by rewrite <- (app_assoc D).
  - intros HT. rewrite (Hun HT). auto.
  - intros _ HT. destruct Hadd as [Hadd|]; [|done]. destruct (I6 Hadd HT) as [D' ->]. by exists (D' ++ [a]).
  - rewrite I9. destruct Hadd as [->| ->]; [done|]. by rewrite !andb_false_r.
Qed.

Lemma absorb_first st' : s_world st' = w' -> s_caller st' = a -> s_left st' = s_left st ->
  s_right st' = s_right st -> s_added st' = true -> s_added st = false -> T <> F_UNLCK ->
  absorbed (D ++ [a]) (lk w' a) -> left_ok A (s_left st) (lk w' a) ->
  loop_inv A (D ++ [a]) R (pre ++ [a]) st'.
Proof.
  intros E1 E2 E3 E4 E5 Hadd HT Hab Hleft. pose proof still_same as Hst. destruct I as [I1 I2 I3 I4 I5 I6 I7 I7' I8 I9].
  destruct (I4 Hadd) as [HD Hcal]. rewrite HD in *. cbn [app] in *.
  split; rewrite ?E1, ?E2, ?E3, ?E4, ?E5; try done.
  - intros _ _. by exists [].
  - rewrite I9, Hadd. cbn. rewrite (proj2 (Z.eqb_neq _ _) HT). cbn. by rewrite app_nil_r, app_assoc.
Qed.
End Step.

(** *** Where the loop ends *)
Definition beyond (c l : file_lock) : Prop :=
  fl_end c < fl_start l /\ (fl_type l = T -> fl_end c + 1 < fl_start l).

Inductive finished (A D R pre : list Z) : scan -> Prop :=
  | finished_end st : loop_inv A D R pre st ->
      Forall (fun b => beyond (lk (s_world st) (s_caller st)) (l0 b)) R -> finished A D R pre st
  | finished_right st r R' : loop_inv A D R pre st -> R = r :: R' ->
      let c := lk (s_world st) (s_caller st) in
      fl_type (l0 r) <> T -> fl_start c <= fl_end (l0 r) -> fl_start (l0 r) <= fl_end c < fl_end (l0 r) ->
      Forall (fun b => beyond c (l0 b)) R' ->
      (fl_start (l0 r) < fl_start c -> D = [] /\ s_left st = None) ->
      finished A D R pre (Scan (s_world st) (s_caller st) (if T =? F_UNLCK then true else s_added st)
        (if fl_start (l0 r) <? fl_start c then Some r else s_left st) (Some r)).

Lemma rest_after A D a R : own = A ++ D ++ a :: R -> Forall (fun b => apart (l0 a) (l0 b)) R.
Proof.
  intros E0. pose proof Hsort as Hs. rewrite E0 in Hs. apply StronglySorted_app in Hs as (_ & _ & Hs).
  apply StronglySorted_app in Hs as (_ & _ & Hs). by apply StronglySorted_cons in Hs as [Hs _].
Qed.

Lemma all_beyond A D a R c : own = A ++ D ++ a :: R -> fl_end c <= fl_end (l0 a) -> 
  (fl_end c < fl_end (l0 a) \/ fl_end c < fl_start (l0 a)) -> Forall (fun b => beyond c (l0 b)) R.
Proof.
  intros E0 H1 H2. pose proof (rest_after _ _ _ _ E0) as Hr.
  destruct (around _ _ _ _ E0) as (_ & (_ & Hok' & _) & _). 
  eapply Forall_impl; [exact Hr|]. intros b [Hb1 Hb2]. split; [lia|]. intros _. lia.
Qed.

(** A lock that starts before the new one meets nothing that was taken in. *)
Lemma starts_before A D a R pre st : loop_inv A D (a :: R) pre st ->
  fl_start (l0 a) < fl_start (lk (s_world st) (s_caller st)) -> 
  D = [] /\ s_left st = None /\ fl_start (lk (s_world st) (s_caller st)) = S.
Proof.
  intros I Ha. destruct (around _ _ _ _ (li_split _ _ _ _ _ I)) as (Hap & Hoka & _ & HokD).
  rewrite Forall_app in Hap, HokD. destruct Hap as [HapA HapD], HokD as [HokA HokD].
  assert (D = []) as ->.
  { destruct D as [|d D]; [done|]. pose proof (ab_old _ _ (li_caller _ _ _ _ _ I)) as Hold.
    apply Forall_cons in Hold as [Hold _]. apply Forall_cons in HapD as [[HapD _] _].
    apply Forall_cons in HokD as [(_ & HokD & _) _]. lia. }
  split_and!; [done| |].
  - pose proof (li_left _ _ _ _ _ I) as Hl. destruct (s_left st) as [l|]; [|done].
    destruct Hl as (A1 & -> & _ & Hl & _). apply Forall_app in HapA as [_ HapA].
    apply Forall_cons in HapA as [[HapA _] _]. lia.
  - destruct (li_caller _ _ _ _ _ I) as [_ _ _ H4 _ H6 _ _].
    destruct (H6 (fl_start (lk (s_world st) (s_caller st)))) as [H|(d & Hd & _)].
    + split; [lia|]. destruct Hrange. lia.
    + lia.
    + by apply elem_of_nil in Hd.
Qed.

Lemma pass_left A D a R pre st b : loop_inv A D (a :: R) pre st ->
  b = (if T =? F_UNLCK then true else s_added st) ->
  let c := lk (s_world st) (s_caller st) in
  fl_type (l0 a) <> T -> fl_start (l0 a) < fl_start c <= fl_end (l0 a) -> fl_end (l0 a) <= fl_end c ->
  loop_inv (A ++ [a]) D R (pre ++ [a]) (Scan (s_world st) (s_caller st) b (Some a) (s_right st)).
Proof.
  intros I Hb c Ht Hs He. destruct (starts_before _ _ _ _ _ _ I ltac:(unfold c in Hs; lia)) as (-> & Hl & HS).
  pose proof (not_added_pre _ _ _ _ I) as Hpre.
  destruct I as [I1 I2 I3 I4 I5 I6 I7 I7' I8 I9]. split; cbn [s_world s_caller s_added s_left s_right]; try done.
  - rewrite I1. cbn. by rewrite <- app_assoc.
  - rewrite <- app_assoc. exact I2.
  - intros Hf. apply I4. by destruct (T =? _); subst b.
  - intros Hb' HT. rewrite (proj2 (Z.eqb_neq _ _) HT) in Hb. subst b. by destruct (I6 Hb' HT).
  - rewrite Hl in I7. exists A. split_and!; try done; unfold c in *; lia.
  - intros HT Hb'. subst b. by rewrite HT in Hb'.
  - rewrite Hpre. destruct (Z.eqb_spec T F_UNLCK) as [|Hne]; cbn.
    { by rewrite andb_false_r, app_nil_r, app_assoc. }
    destruct b; cbn; [|by rewrite app_nil_r, app_assoc]. by destruct (I6 (eq_sym Hb) Hne).
Qed.

Lemma lk_delete_lock a b w : a <> b -> lk (delete_lock a w) b = lk w b.
Proof. intros. unfold lk. rewrite delete_lock_locks. by apply at_delete_ne. Qed.

(** The next lock is none of those that stay. *)
Lemma next_not_others A D a R pre st : loop_inv A D (a :: R) pre st -> a ∉ A ++ R ++ others.
Proof.
  intros I. pose proof Hdup as Hd. rewrite (li_split _ _ _ _ _ I) in Hd.
  rewrite <- !app_assoc in Hd. rewrite !NoDup_app in Hd. cbn in Hd. rewrite NoDup_cons in Hd. set_solver.
Qed.

Lemma others_same A R w w' (P : Z -> Prop) : (forall b, P b -> lk w' b = lk w b) ->
  (forall b, b ∈ A ++ R ++ others -> P b) -> Forall (fun b => lk w' b = lk w b) (A ++ R ++ others).
Proof. intros H1 H2. apply Forall_forall. auto. Qed.

(** One turn with a lock of the same type that touches the new one. *)
Lemma turn_merge A D a R pre st : loop_inv A D (a :: R) pre st ->
  let c := lk (s_world st) (s_caller st) in
  fl_type (l0 a) = T -> fl_start c - 1 <= fl_end (l0 a) -> fl_start (l0 a) <= fl_end c + 1 ->
  let w := merge_ranges a (s_caller st) (s_world st) in
  (s_added st = true -> loop_inv A (D ++ [a]) R pre (st <| s_world := delete_lock a w |>)) /\
  (s_added st = false -> loop_inv A (D ++ [a]) R (pre ++ [a])
    (st <| s_world := w |> <| s_caller := a |> <| s_added := true |>)).
Proof.
  intros I c Ht Hs He w. pose proof (caller_not_next _ _ _ _ _ I) as Hcn'.
  assert (s_caller st <> a /\ s_caller st ∉ A ++ R ++ others) as [Hne Hcn] by set_solver.
  pose proof (next_not_others _ _ _ _ _ _ I) as Han.
  pose proof (li_split _ _ _ _ _ I) as E0. destruct (around _ _ _ _ E0) as (Hap & Hoka & Howna & _).
  apply Forall_app in Hap as [HapA _].
  assert (lk (s_world st) a = l0 a) as Ea.
  { pose proof (li_same _ _ _ _ _ I) as H. rewrite Forall_forall in H. apply H. set_solver. }
  destruct (merge_ranges_spec a (s_caller st) (s_world st) ltac:(done)) as (M1 & M2 & M3).
  rewrite Ea in M1, M2. fold w c in M1, M2, M3. pose proof (li_caller _ _ _ _ _ I) as Hab. fold c in Hab.
  assert (T <> F_UNLCK) as HT.
  { destruct Hoka as (_ & _ & _ & [K|K]); rewrite <- Ht, K; done. }
  pose proof (li_left _ _ _ _ _ I) as Hleft. fold c in Hleft.
  split; intros Hadd.
  - assert (lk (delete_lock a w) (s_caller st) = lk w (s_caller st)) as Ec by (by apply lk_delete_lock).
    apply (absorb_delete A D a R pre st (delete_lock a w) I); try done; try by left.
    + apply (others_same A R _ _ (fun b => b <> a /\ b <> s_caller st)); [|set_solver].
      intros b [? ?]. rewrite lk_delete_lock by done. auto.
    + rewrite Ec, M2. eapply absorbed_merge; try done; apply Hab.
    + rewrite Ec, M2. eapply left_ok_grow; try done. cbn. lia.
  - apply (absorb_first A D a R pre st w I); try done.
    + apply (others_same A R _ _ (fun b => b <> a /\ b <> s_caller st)); [|set_solver]. intros b [? ?]. auto.
    + rewrite M1. eapply absorbed_merge; try done. apply Hoka.
    + rewrite M1. eapply left_ok_grow; try done. cbn. lia.
Qed.

(** One turn with a lock of another type that the new one covers. *)
Definition replace_lock (a : Z) (st : scan) : world :=
  let c := lk (s_world st) (s_caller st) in
  set_lk a ((lk (s_world st) a) <| fl_start := fl_start c |> <| fl_end := fl_end c |> <| fl_type := fl_type c |>)
    (locks_wake_up_blocks a (s_world st)).

Lemma turn_inside A D a R pre st : loop_inv A D (a :: R) pre st ->
  let c := lk (s_world st) (s_caller st) in
  fl_start c <= fl_start (l0 a) -> fl_end (l0 a) <= fl_end c ->
  (s_added st = true \/ T = F_UNLCK ->
    loop_inv A (D ++ [a]) R pre (Scan (delete_lock a (s_world st)) (s_caller st) true (s_left st) (s_right st))) /\
  (s_added st = false -> T <> F_UNLCK ->
    loop_inv A (D ++ [a]) R (pre ++ [a]) (Scan (replace_lock a st) a true (s_left st) (s_right st))).
Proof.
  intros I c Hs He. pose proof (caller_not_next _ _ _ _ _ I) as Hcn'.
  assert (s_caller st <> a /\ s_caller st ∉ A ++ R ++ others) as [Hne Hcn] by set_solver.
  pose proof (next_not_others _ _ _ _ _ _ I) as Han.
  pose proof (li_split _ _ _ _ _ I) as E0. destruct (around _ _ _ _ E0) as (_ & Hoka & Howna & _).
  assert (lk (s_world st) a = l0 a) as Ea.
  { pose proof (li_same _ _ _ _ _ I) as H. rewrite Forall_forall in H. apply H. set_solver. }
  pose proof (li_caller _ _ _ _ _ I) as Hab. fold c in Hab.
  pose proof (li_left _ _ _ _ _ I) as Hleft. fold c in Hleft.
  split; [intros Hadd|intros Hadd HT].
  - assert (lk (delete_lock a (s_world st)) (s_caller st) = c) as Ec by (by apply lk_delete_lock).
    apply (absorb_delete A D a R pre st (delete_lock a (s_world st)) I); try done; rewrite ?Ec.
    + apply (others_same A R _ _ (fun b => a <> b)); [|set_solver]. intros b ?. by apply lk_delete_lock.
    + by apply (absorbed_inside D a c c); try done; apply Hab.
    + done.
    + intros HT. destruct (li_unlock _ _ _ _ _ I HT) as [<- _]. by apply lk_delete_lock.
  - assert (lk (replace_lock a st) a = (l0 a) <| fl_start := fl_start c |> <| fl_end := fl_end c |>
              <| fl_type := fl_type c |>) as Er.
    { unfold replace_lock. by rewrite lk_set_eq, Ea. }
    apply (absorb_first A D a R pre st (replace_lock a st) I); try done; rewrite ?Er.
    + apply (others_same A R _ _ (fun b => a <> b)); [|set_solver]. intros b ?.
      unfold replace_lock. by rewrite lk_set_ne, lk_wake.
    + eapply absorbed_inside; try done; [apply Hoka|apply Hab].
    + by eapply left_ok_same.
Qed.

Lemma own_loop_spec R : forall A D pre st, loop_inv A D R pre st ->
  exists A' D' R' pre' st', own_loop pre (R ++ post) st = (pre', R' ++ post, st') /\ finished A' D' R' pre' st'.
Proof.
  induction R as [|a R IH]; intros A D pre st I.
  { exists A, D, [], pre, st. split; [|by constructor]. cbn [app].
    assert (Forall (fun b => lk (s_world st) b = l0 b) post) as Hs.
    { pose proof (li_same _ _ _ _ _ I) as H. unfold others in H. rewrite !Forall_app in H. apply H. }
    apply own_loop_foreign. rewrite (ab_owner _ _ (li_caller _ _ _ _ _ I)). rewrite Forall_forall in *.
    intros b Hb. rewrite (Hs b Hb). apply not_eq_sym. auto. }
  pose proof (li_split _ _ _ _ _ I) as E0. destruct (around _ _ _ _ E0) as (_ & Hoka & Howna & _).
  assert (lk (s_world st) a = l0 a) as Ea.
  { pose proof (li_same _ _ _ _ _ I) as H. rewrite Forall_forall in H. apply H. set_solver. }
  pose proof (li_caller _ _ _ _ _ I) as Hab.
  cbn [app own_loop]. rewrite Ea, same_owner_true by (by rewrite Howna, (ab_owner _ _ Hab)). cbn [negb].
  rewrite (ab_type _ _ Hab). set (c := lk (s_world st) (s_caller st)) in *.
  destruct (Z.eqb_spec T (fl_type (l0 a))) as [Ht|Ht].
  - destruct (Z.ltb_spec (fl_end (l0 a)) (fl_start c - 1)).
    { eapply IH, pass_front; [exact I|]. split; fold c; lia. }
    pose proof (end_plus_one _ _ _ _ _ _ I (eq_sym Ht)) as Ee. fold c in Ee. rewrite Ee by lia.
    destruct (Z.ltb_spec (fl_end c + 1) (fl_start (l0 a))).
    { exists A, D, (a :: R), pre, st. split; [done|]. constructor; [done|]. fold c.
      constructor; [split; [lia|intros; lia]|]. destruct Hoka as (_ & ? & _). eapply all_beyond; [done|lia|lia]. }
    destruct (turn_merge _ _ _ _ _ _ I) as [K1 K2]; [by symmetry|fold c; lia..|].
    destruct (s_added st) eqn:Eadd; eapply IH; [by apply K1|by apply K2].
  - destruct (Z.ltb_spec (fl_end (l0 a)) (fl_start c)).
    { eapply IH, pass_front; [exact I|]. split; fold c; [lia|congruence]. }
    destruct (Z.ltb_spec (fl_end c) (fl_start (l0 a))).
    { exists A, D, (a :: R), pre, st. split; [done|]. constructor; [done|]. fold c.
      constructor; [split; [lia|congruence]|]. destruct Hoka as (_ & ? & _). eapply all_beyond; [done|lia|lia]. }
    cbn [s_added s_left s_right s_caller s_world update].
    set (st1 := if T =? F_UNLCK then _ else st).
    assert (st1 = Scan (s_world st) (s_caller st) (if T =? F_UNLCK then true else s_added st) (s_left st)
      (s_right st)) as Est1 by (unfold st1; by destruct (T =? F_UNLCK), st).
    rewrite Est1. clearbody st1. clear st1 Est1.
    destruct (Z.ltb_spec (fl_end c) (fl_end (l0 a))).
    { pose proof (finished_right A D (a :: R) pre st a R I eq_refl) as K. cbv zeta in K. fold c in K.
      specialize (K ltac:(congruence) ltac:(lia) ltac:(lia) ltac:(eapply all_beyond; [done|lia|lia])).
      exists A, D, (a :: R), pre.
      destruct (fl_start (l0 a) <? fl_start c); eexists; (split; [reflexivity|]); apply K;
        intros Hlt; destruct (starts_before _ _ _ _ _ _ I Hlt) as (? & ? & _); done. }
    destruct (Z.leb_spec (fl_start c) (fl_start (l0 a))).
    + rewrite (proj2 (Z.ltb_ge (fl_start (l0 a)) (fl_start c))) by lia.
      destruct (turn_inside _ _ _ _ _ _ I) as [K1 K2]; [fold c; lia..|].
      cbn [s_added s_left s_right s_caller s_world update].
      destruct (Z.eqb_spec T F_UNLCK) as [HT|HT]; [eapply IH, K1; by right|].
      destruct (s_added st) eqn:Eadd; [eapply IH, K1; by left|].
      specialize (K2 eq_refl HT). unfold replace_lock in K2. fold c in K2. rewrite Ea in K2.
      rewrite (ab_type _ _ Hab) in K2. eapply IH, K2.
    + rewrite (proj2 (Z.ltb_lt (fl_start (l0 a)) (fl_start c))) by lia.
      eapply IH, (pass_left A D a R pre st (if T =? F_UNLCK then true else s_added st) I);
        [done|congruence|fold c; lia|fold c; lia].
Qed.

(** *** The new list of the owner *)
Definition ids (x : option Z) : list Z := match x with Some a => [a] | None => [] end.
Lemma elem_of_ids x a : a ∈ ids x <-> x = Some a.
Proof. destruct x; cbn; rewrite ?list_elem_of_singleton, ?elem_of_nil; naive_solver. Qed.
Definition the_new (c : file_lock) : list file_lock := if T =? F_UNLCK then [] else [c].
Definition spliced (A1 : list Z) (lo : option Z) (c : file_lock) (ro : option Z) (R1 : list Z) : list file_lock :=
  (l0 <$> A1) ++ (cut_left c <$> (l0 <$> ids lo)) ++ the_new c ++
  (cut_right c <$> (l0 <$> ids ro)) ++ (l0 <$> R1).

(** What the code promises for the list of the owner. *)
Record updated (new : list file_lock) : Prop := {
  up_ok : Forall lock_ok new;
  up_owner : Forall (fun l => owner_of l = o) new;
  up_sort : StronglySorted apart new;
  up_holds : forall x t, (exists l, l ∈ new /\ covers l x /\ fl_type l = t) <->
    (S <= x <= E /\ t = T /\ T <> F_UNLCK) \/
    (~ S <= x <= E /\ exists a, a ∈ own /\ covers (l0 a) x /\ fl_type (l0 a) = t) }.

Lemma covers_unique a b x : a ∈ own -> b ∈ own -> covers (l0 a) x -> covers (l0 b) x ->
  fl_type (l0 a) = fl_type (l0 b).
Proof.
  intros Ha Hb. apply list_elem_of_split in Ha as (l1 & l2 & E0). pose proof Hsort as Hs.
  rewrite E0 in Hs, Hb. unfold covers. apply StronglySorted_app in Hs as (H1 & _ & H2).
  apply StronglySorted_cons in H2 as [H2 _]. rewrite Forall_forall in H2.
  apply elem_of_app in Hb as [Hb|[->|Hb]%elem_of_cons]; [|done|].
  - destruct (H1 b a Hb ltac:(by left)). lia.
  - destruct (H2 b Hb). lia.
Qed.

Section Splice.
Context (A1 D R1 : list Z) (lo ro : option Z) (c : file_lock).
Hypothesis Hab : absorbed D c.
Hypothesis Hel : forall a, a ∈ own <-> a ∈ A1 \/ lo = Some a \/ a ∈ D \/ ro = Some a \/ a ∈ R1.
Hypothesis HsA : StronglySorted apart (l0 <$> A1).
Hypothesis HsR : StronglySorted apart (l0 <$> R1).
Hypothesis HA : Forall (fun a => clear_of c (l0 a)) A1.
Hypothesis HR : Forall (fun b => beyond c (l0 b)) R1.
Hypothesis HAR : forall a b, a ∈ A1 -> b ∈ R1 -> apart (l0 a) (l0 b).
Hypothesis HAl : forall a l, a ∈ A1 -> lo = Some l -> apart (l0 a) (l0 l).
Hypothesis HrR : forall r b, ro = Some r -> b ∈ R1 -> apart (l0 r) (l0 b).
Hypothesis Hl : forall l, lo = Some l -> fl_start (l0 l) < fl_start c <= fl_end (l0 l) /\ fl_type (l0 l) <> T /\
  (fl_end (l0 l) <= fl_end c \/ ro = Some l).
Hypothesis Hr : forall r, ro = Some r -> fl_start (l0 r) <= fl_end c < fl_end (l0 r) /\ fl_type (l0 r) <> T /\
  fl_start c <= fl_end (l0 r) /\ (fl_start c <= fl_start (l0 r) \/ lo = Some r).

Lemma own_ok a : a ∈ own -> lock_ok (l0 a) /\ owner_of (l0 a) = o.
Proof. intros Ha. rewrite Forall_forall in Hok, Hown. auto. Qed.

Lemma new_range : 0 <= fl_start c <= fl_end c /\ fl_end c <= OFFSET_MAX.
Proof.
  destruct Hab as [_ _ _ Hn _ Honly Hend _]. destruct Hrange as [HS HE].
  assert (fl_start c <= fl_end c) by lia. split_and!; [|done|].
  - destruct (Honly (fl_start c)) as [?|(d & Hd & _ & Hx)]; [split; lia|lia|].
    destruct (own_ok d) as [(_ & ? & _) _]; [apply Hel; auto|]. unfold covers in Hx. lia.
  - destruct Hend as [->|(d & Hd & ->)]; [done|]. apply (own_ok d). apply Hel. auto.
Qed.

(** A byte of [c] outside of the new range was locked with this type before. *)
Lemma old_byte x a t : covers c x -> ~ S <= x <= E -> a ∈ own -> covers (l0 a) x -> fl_type (l0 a) = t ->
  t = T /\ T <> F_UNLCK.
Proof.
  intros Hx Hn Ha Hc Ht. destruct (ab_only _ _ Hab x Hx) as [|(d & Hd & Htd & Hdx)]; [done|].
  assert (d ∈ own) as Hdo by (apply Hel; auto). rewrite <- Ht, <- Htd.
  split; [by apply (covers_unique a d x)|]. destruct (own_ok d Hdo) as [(_ & _ & _ & [->| ->]) _]; done.
Qed.

Lemma elem_l0 l (xs : list Z) : l ∈ (l0 <$> xs) <-> exists a, a ∈ xs /\ l = l0 a.
Proof. rewrite list_elem_of_fmap. naive_solver. Qed.
Lemma elem_cut l (f : file_lock -> file_lock) x : l ∈ (f <$> (l0 <$> ids x)) <-> exists a, x = Some a /\ l = f (l0 a).
Proof. destruct x; cbn; rewrite ?list_elem_of_singleton, ?elem_of_nil; naive_solver. Qed.
Lemma elem_new l : l ∈ the_new c <-> T <> F_UNLCK /\ l = c.
Proof.
  unfold the_new. destruct (Z.eqb_spec T F_UNLCK); rewrite ?list_elem_of_singleton, ?elem_of_nil; naive_solver.
Qed.

Lemma elem_spliced l : l ∈ spliced A1 lo c ro R1 <->
  (exists a, a ∈ A1 /\ l = l0 a) \/ (exists a, lo = Some a /\ l = cut_left c (l0 a)) \/
  (T <> F_UNLCK /\ l = c) \/ (exists a, ro = Some a /\ l = cut_right c (l0 a)) \/
  (exists a, a ∈ R1 /\ l = l0 a).
Proof.
  unfold spliced. by rewrite !elem_of_app, !elem_l0, !elem_cut, elem_new.
Qed.

Lemma spliced_ok : Forall (fun l => lock_ok l /\ owner_of l = o) (spliced A1 lo c ro R1).
Proof.
  apply Forall_forall. intros l Hin. pose proof new_range as Hc. rewrite elem_spliced in Hin.
  destruct Hin as [(a & Ha & ->)|[(a & Ha & ->)|[[HT ->]|[(a & Ha & ->)|(a & Ha & ->)]]]].
  - apply own_ok, Hel. auto.
  - destruct (own_ok a) as [(H1 & H2 & H3 & H4) H5]; [apply Hel; auto|]. destruct (Hl a Ha) as ((? & ?) & _).
    split; [|done]. split_and!; [done|cbn; lia..|done].
  - destruct Hab as [H1 H2 H3 _ _ _ _ _]. split; [|done]. split_and!; [done|lia..|]. rewrite H3. naive_solver.
  - destruct (own_ok a) as [(H1 & H2 & H3 & H4) H5]; [apply Hel; auto|]. destruct (Hr a Ha) as ((? & ?) & _).
    split; [|done]. split_and!; [done|cbn; lia..|done].
  - apply own_ok, Hel. auto.
Qed.

Lemma spliced_holds x t : (exists l, l ∈ spliced A1 lo c ro R1 /\ covers l x /\ fl_type l = t) <->
  (S <= x <= E /\ t = T /\ T <> F_UNLCK) \/
  (~ S <= x <= E /\ exists a, a ∈ own /\ covers (l0 a) x /\ fl_type (l0 a) = t).
Proof.
  pose proof (ab_new _ _ Hab) as Hn. pose proof new_range as Hc. setoid_rewrite elem_spliced. split.
  - intros (l & Hin & Hx & Ht). unfold covers in *. rewrite Forall_forall in HA, HR.
    destruct Hin as [(a & Ha & ->)|[(a & Ha & ->)|[[HT ->]|[(a & Ha & ->)|(a & Ha & ->)]]]].
    + destruct (HA a Ha). right. split; [lia|]. exists a. split; [apply Hel; auto|done].
    + destruct (Hl a Ha) as ((? & ?) & _). cbn in Hx. right. split; [lia|]. exists a.
      split; [apply Hel; auto|]. split; [lia|done].
    + rewrite (ab_type _ _ Hab) in Ht. subst t. destruct (decide (S <= x <= E)) as [|Hout]; [auto|]. right.
      split; [done|]. destruct (ab_only _ _ Hab x Hx) as [|(d & Hd & Htd & Hdx)]; [done|].
      exists d. split; [apply Hel; auto|done].
    + destruct (Hr a Ha) as ((? & ?) & _). cbn in Hx. right. split; [lia|]. exists a.
      split; [apply Hel; auto|]. split; [lia|done].
    + destruct (HR a Ha). right. split; [lia|]. exists a. split; [apply Hel; auto|done].
  - intros [(Hx & -> & HT)|(Hx & a & Ha & Hcov & Ht)].
    + exists c. split; [by right; right; left|]. split; [unfold covers; lia|]. apply Hab.
    + assert (covers c x -> exists l, ((exists b, b ∈ A1 /\ l = l0 b) \/ (exists b, lo = Some b /\ l = cut_left c (l0 b)) \/
          (T <> F_UNLCK /\ l = c) \/ (exists b, ro = Some b /\ l = cut_right c (l0 b)) \/
          (exists b, b ∈ R1 /\ l = l0 b)) /\ covers l x /\ fl_type l = t) as Hin.
      { intros Hcx. destruct (old_byte x a t Hcx Hx Ha Hcov Ht) as [-> HT]. exists c.
        split; [by right; right; left|]. split; [done|apply Hab]. }
      apply Hel in Ha as Hcase. unfold covers in *.
      destruct Hcase as [Hin1|[Hin1|[Hin1|[Hin1|Hin1]]]].
      * exists (l0 a). split; [left; eauto|done].
      * destruct (Hl a Hin1) as ((? & ?) & _ & Hend). destruct (decide (x < fl_start c)).
        { exists (cut_left c (l0 a)). split; [right; left; eauto|]. split; [cbn; lia|done]. }
        destruct (decide (x <= fl_end c)); [apply Hin; lia|].
        destruct Hend as [|Hend]; [lia|].
        exists (cut_right c (l0 a)). split; [do 3 right; left; eauto|]. split; [cbn; lia|done].
      * pose proof (ab_old _ _ Hab) as Hold. rewrite Forall_forall in Hold. specialize (Hold a Hin1). apply Hin. lia.
      * destruct (Hr a Hin1) as ((? & ?) & _ & _ & Hst). destruct (decide (fl_end c < x)).
        { exists (cut_right c (l0 a)). split; [do 3 right; left; eauto|]. split; [cbn; lia|done]. }
        destruct (decide (fl_start c <= x)); [apply Hin; lia|]. destruct Hst as [|Hst]; [lia|].
        exists (cut_left c (l0 a)). split; [right; left; eauto|]. split; [cbn; lia|done].
      * exists (l0 a). split; [do 4 right; eauto|done].
Qed.

Lemma spliced_sorted : StronglySorted apart (spliced A1 lo c ro R1).
Proof.
  pose proof new_range as Hc. pose proof (ab_type _ _ Hab) as Htc. unfold spliced.
  assert (forall x (f : file_lock -> file_lock), StronglySorted apart (f <$> (l0 <$> ids x))) as H1.
  { intros [a|] f; cbn; repeat constructor. }
  assert (StronglySorted apart (the_new c)) as H2.
  { unfold the_new. destruct (T =? _); repeat constructor. }
  rewrite Forall_forall in HA, HR. unfold apart, beyond, clear_of in *.
  rewrite !StronglySorted_app. split_and!; try done; intros x y;
    rewrite ?elem_of_app, ?elem_l0, ?elem_cut, ?elem_new.
  - intros (a & Ha & ->) Hy. destruct (HA a Ha) as [K1 K2].
    destruct Hy as [(l & Hlo & ->)|[[_ ->]|[(r & Hro & ->)|(b & Hb & ->)]]]; cbn.
    + by apply (HAl a l).
    + split; [done|]. intros Ht. apply K2. congruence.
    + split; lia.
    + by apply HAR.
  - intros (l & Hlo & ->) Hy. destruct (Hl l Hlo) as (K1 & K2 & _).
    destruct Hy as [[_ ->]|[(r & Hro & ->)|(b & Hb & ->)]]; cbn.
    + split; [lia|congruence].
    + split; lia.
    + destruct (HR b Hb). split; lia.
  - intros [_ ->] Hy. destruct Hy as [(r & Hro & ->)|(b & Hb & ->)]; cbn.
    + destruct (Hr r Hro) as (K1 & K2 & _). split; [lia|congruence].
    + destruct (HR b Hb) as [K1 K2]. split; [done|]. intros Ht. apply K2. congruence.
  - intros (r & Hro & ->) (b & Hb & ->). cbn. by apply (HrR r b).
Qed.

Lemma spliced_updated : updated (spliced A1 lo c ro R1).
Proof.
  pose proof spliced_ok as H. apply Forall_and in H as [H1 H2].
  split; [done|done|apply spliced_sorted|intros; apply spliced_holds].
Qed.
End Splice.

(** *** The list and the structures after the loop *)
Context (n1 n2 : Z).
Hypothesis Hfresh : n1 <> n2 /\ n1 <> c0 /\ n2 <> c0 /\ (n1 ∉ own ++ others) /\ (n2 ∉ own ++ others).

Definition middle (st : scan) : list Z :=
  if T =? F_UNLCK then [] else [if s_added st then s_caller st else n1].

(** [w'] has the new list of the owner between the other locks. *)
Record result_ok (w' : world) : Prop := {
  ro_ids : exists new, i_flock w' = front ++ new ++ post /\ updated (lk w' <$> new) /\ NoDup new /\
    Forall (fun a => a ∈ own \/ a = n1 \/ a = n2) new;
  ro_others : Forall (fun b => lk w' b = l0 b) others }.

Lemma caller_not_fresh A D R pre st : loop_inv A D R pre st -> s_caller st <> n1 /\ s_caller st <> n2.
Proof.
  intros I. destruct Hfresh as (_ & F1 & F2 & F3 & F4). rewrite elem_of_app in F3, F4.
  destruct (caller_cases _ _ _ _ _ I) as [->|Hin]; [done|].
  assert (s_caller st ∈ own) by (rewrite (li_split _ _ _ _ _ I), !elem_of_app; auto).
  split; intros E1; rewrite E1 in *; auto.
Qed.

Lemma same_values w' xs : Forall (fun b => lk w' b = l0 b) xs -> lk w' <$> xs = l0 <$> xs.
Proof. induction 1 as [|b xs Hb _ IH]; [done|]. cbn. by rewrite Hb, IH. Qed.

(** The new list, case by case. *)
Lemma left_parts A left_ c : left_ok A left_ c -> exists A1, A = A1 ++ ids left_ /\
  Forall (fun a => clear_of c (l0 a)) A1 /\
  forall l, left_ = Some l -> fl_start (l0 l) < fl_start c <= fl_end (l0 l) /\ fl_end (l0 l) <= fl_end c /\
    fl_type (l0 l) <> T.
Proof.
  destruct left_ as [l|]; cbn.
  - intros (A1 & -> & H1 & H2 & H3 & H4 & _). exists A1. split; [done|]. split; [done|]. by intros ? [= <-].
  - intros H. exists A. rewrite app_nil_r. split; [done|]. split; [done|]. done.
Qed.

Lemma splice_end A D R pre st : loop_inv A D R pre st ->
  Forall (fun b => beyond (lk (s_world st) (s_caller st)) (l0 b)) R ->
  exists A1, A = A1 ++ ids (s_left st) /\
    updated (spliced A1 (s_left st) (lk (s_world st) (s_caller st)) None R).
Proof.
  intros I HR. destruct (left_parts _ _ _ (li_left _ _ _ _ _ I)) as (A1 & EA & HA & Hl).
  exists A1. split; [done|]. pose proof (li_split _ _ _ _ _ I) as E0. rewrite EA, <- app_assoc in E0.
  pose proof Hsort as Hs. rewrite E0, !StronglySorted_app in Hs.
  destruct Hs as (S1 & S2 & S3 & S4 & S5 & S6 & S7).
  apply (spliced_updated A1 D R (s_left st) None _ (li_caller _ _ _ _ _ I)); try done.
  - intros a. rewrite E0, !elem_of_app, elem_of_ids. naive_solver.
  - by apply sorted_fmap.
  - by apply sorted_fmap.
  - intros a b Ha Hb. apply S1; [done|]. rewrite !elem_of_app. auto.
  - intros a l Ha Hlo. apply S1; [done|]. rewrite !elem_of_app, elem_of_ids. auto.
  - intros l Hlo. destruct (Hl l Hlo) as (? & ? & ?). auto.
Qed.

Lemma splice_right A D r R pre st : loop_inv A D (r :: R) pre st ->
  let c := lk (s_world st) (s_caller st) in
  fl_type (l0 r) <> T -> fl_start c <= fl_end (l0 r) -> fl_start (l0 r) <= fl_end c < fl_end (l0 r) ->
  Forall (fun b => beyond c (l0 b)) R -> fl_start c <= fl_start (l0 r) ->
  exists A1, A = A1 ++ ids (s_left st) /\ updated (spliced A1 (s_left st) c (Some r) R).
Proof.
  intros I c Ht H1 H2 HR H3. destruct (left_parts _ _ _ (li_left _ _ _ _ _ I)) as (A1 & EA & HA & Hl).
  exists A1. split; [done|]. pose proof (li_split _ _ _ _ _ I) as E0. rewrite EA, <- app_assoc in E0.
  pose proof Hsort as Hs. rewrite E0, !StronglySorted_app in Hs.
  destruct Hs as (S1 & S2 & S3 & S4 & S5 & S6 & [S7 S8]%StronglySorted_cons).
  apply (spliced_updated A1 D R (s_left st) (Some r) _ (li_caller _ _ _ _ _ I)); try done.
  - intros a. rewrite E0, !elem_of_app, elem_of_ids, elem_of_cons. naive_solver.
  - by apply sorted_fmap.
  - by apply sorted_fmap.
  - intros a b Ha Hb. apply S1; [done|]. rewrite !elem_of_app, elem_of_cons. auto.
  - intros a l Ha Hlo. apply S1; [done|]. rewrite !elem_of_app, elem_of_ids. auto.
  - intros ? b [= <-] Hb. rewrite Forall_forall in S7. auto.
  - intros l Hlo. destruct (Hl l Hlo) as (? & ? & ?). auto.
  - intros ? [= <-]. auto.
Qed.

Lemma splice_split A r R pre st : loop_inv A [] (r :: R) pre st -> s_left st = None ->
  let c := lk (s_world st) (s_caller st) in
  fl_type (l0 r) <> T -> fl_start c <= fl_end (l0 r) -> fl_start (l0 r) <= fl_end c < fl_end (l0 r) ->
  Forall (fun b => beyond c (l0 b)) R -> fl_start (l0 r) < fl_start c ->
  updated (spliced A (Some r) c (Some r) R).
Proof.
  intros I Hno c Ht H1 H2 HR H3. pose proof (li_left _ _ _ _ _ I) as HA. rewrite Hno in HA.
  pose proof (li_split _ _ _ _ _ I) as E0. cbn in E0.
  pose proof Hsort as Hs. rewrite E0, !StronglySorted_app in Hs. destruct Hs as (S1 & S2 & [S7 S8]%StronglySorted_cons).
  apply (spliced_updated A [] R (Some r) (Some r) _ (li_caller _ _ _ _ _ I)); try done.
  - intros a. rewrite E0, elem_of_app, elem_of_cons, elem_of_nil. naive_solver.
  - by apply sorted_fmap.
  - by apply sorted_fmap.
  - intros a b Ha Hb. apply S1; [done|]. by right.
  - intros a l Ha [= <-]. apply S1; [done|]. by left.
  - intros ? b [= <-] Hb. rewrite Forall_forall in S7. auto.
  - intros ? [= <-]. auto.
  - intros ? [= <-]. auto.
Qed.

Lemma not_fresh b : b ∈ own ++ others -> b <> n1 /\ b <> n2.
Proof. destruct Hfresh as (_ & _ & _ & F3 & F4). intros Hb. split; intros ->; auto. Qed.

Lemma kept_in_own A D R b : own = A ++ D ++ R -> b ∈ A ++ R ++ others -> b ∈ own ++ others.
Proof. intros ->. rewrite !elem_of_app. tauto. Qed.

Lemma nodup_without A D R (mid : list Z) : own = A ++ D ++ R -> (length mid <= 1)%nat ->
  Forall (fun m => m ∈ D \/ m = n1) mid -> NoDup (A ++ mid ++ R).
Proof.
  intros E0 Hlen Hm. pose proof Hdup as Hd. rewrite NoDup_app in Hd. destruct Hd as [Hd _].
  pose proof (fun b H => proj1 (not_fresh b H)) as Hf. setoid_rewrite elem_of_app in Hf.
  rewrite E0 in *. setoid_rewrite elem_of_app in Hf. setoid_rewrite elem_of_app in Hf.
  rewrite !NoDup_app in Hd. destruct Hd as (H1 & H2 & H3 & H4 & H5).
  destruct mid as [|m [|? ?]]; cbn in Hlen; [| |lia].
  - cbn. apply NoDup_app. split_and!; [done| |done]. intros x Hx HR. apply (H2 x Hx). set_solver.
  - apply Forall_cons in Hm as [Hm _]. apply NoDup_app. split; [done|]. cbn. rewrite NoDup_cons. split.
    + intros x Hx Hin. apply elem_of_cons in Hin as [->|Hin]; [|apply (H2 x Hx); set_solver].
      destruct Hm as [Hm|Hm]; [apply (H2 m Hx); set_solver|]. apply (Hf m); auto.
    + split; [|done]. intros Hin. destruct Hm as [Hm|Hm]; [by apply (H4 m)|]. apply (Hf m); auto.
Qed.

Lemma middle_ok A D R pre st : loop_inv A D R pre st ->
  (length (middle st) <= 1)%nat /\ Forall (fun m => m ∈ D \/ m = n1) (middle st) /\
  pre ++ (if s_added st || (T =? F_UNLCK) then R ++ post else n1 :: R ++ post) =
    front ++ (A ++ middle st ++ R) ++ post.
Proof.
  intros I. rewrite (li_pre _ _ _ _ _ I). unfold middle. destruct (Z.eqb_spec T F_UNLCK) as [HT|HT].
  - split; [cbn; lia|]. split; [done|]. rewrite orb_true_r, andb_false_r, app_nil_r. cbn. by rewrite <- !app_assoc.
  - split; [done|]. split.
    + constructor; [|done]. destruct (s_added st) eqn:Ea; [left|by right].
      destruct (li_added _ _ _ _ _ I Ea HT) as [D' ->]. by left.
    + rewrite orb_false_r, andb_true_r. destruct (s_added st); rewrite <- !app_assoc; done.
Qed.

Lemma finish_hyps A D R pre st : loop_inv A D R pre st ->
  n1 <> n2 /\ (s_caller st <> n1 /\ s_caller st <> n2 /\ s_left st <> Some (s_caller st) /\ s_right st <> Some (s_caller st)) /\
  (s_left st <> Some n1 /\ s_left st <> Some n2 /\ s_right st <> Some n1 /\ s_right st <> Some n2).
Proof.
  intros I. destruct (caller_not_fresh _ _ _ _ _ I) as [K1 K2]. pose proof (caller_not_next _ _ _ _ _ I) as K3.
  rewrite (li_right _ _ _ _ _ I). pose proof (li_left _ _ _ _ _ I) as Hl.
  assert (forall l, s_left st = Some l -> l ∈ A) as HlA.
  { intros l El. rewrite El in Hl. destruct Hl as (A1 & -> & _). rewrite elem_of_app, list_elem_of_singleton. auto. }
  split; [apply Hfresh|]. split_and!; try done; intros El; apply HlA in El.
  - apply K3. rewrite elem_of_app. auto.
  - destruct (not_fresh n1); [|done]. eapply kept_in_own; [apply I|]. rewrite elem_of_app. auto.
  - destruct (not_fresh n2); [|done]. eapply kept_in_own; [apply I|]. rewrite elem_of_app. auto.
Qed.

(** The middle holds the new lock. *)
Lemma middle_value A D R pre st w' : loop_inv A D R pre st ->
  let c := lk (s_world st) (s_caller st) in
  (forall m, m ∈ middle st -> lk w' m = lk (if s_added st then s_world st else set_lk n1 c (s_world st)) m) ->
  lk w' <$> middle st = the_new c.
Proof.
  intros I c H. unfold middle, the_new in *. destruct (T =? F_UNLCK); [done|]. cbn.
  rewrite H by (by left). destruct (s_added st); [done|]. by rewrite lk_set_eq.
Qed.

Lemma middle_not_kept A D R pre st b : loop_inv A D R pre st -> b ∈ A ++ R ++ others -> b ∉ middle st.
Proof.
  intros I Hb. unfold middle. destruct (T =? F_UNLCK); [by apply not_elem_of_nil|].
  rewrite list_elem_of_singleton. destruct (not_fresh b) as [Hb1 _]; [by eapply kept_in_own; [apply I|]|].
  destruct (s_added st); [|done]. intros ->. by apply (caller_not_next _ _ _ _ _ I).
Qed.

Lemma start_kept A D R pre st b : loop_inv A D R pre st -> b ∈ A ++ R ++ others ->
  lk (if s_added st then s_world st else set_lk n1 (lk (s_world st) (s_caller st)) (s_world st)) b = l0 b.
Proof.
  intros I Hb. destruct (not_fresh b) as [Hb1 _]; [by eapply kept_in_own; [apply I|]|].
  pose proof (li_same _ _ _ _ _ I) as Hs. rewrite Forall_forall in Hs.
  destruct (s_added st); [|rewrite lk_set_ne by done]; auto.
Qed.

Lemma in_own_or_new A D R st : own = A ++ D ++ R -> Forall (fun m => m ∈ D \/ m = n1) (middle st) ->
  Forall (fun a => a ∈ own \/ a = n1 \/ a = n2) (A ++ middle st ++ R).
Proof.
  intros -> Hm. rewrite Forall_forall in *. intros x. rewrite !elem_of_app. intros [?|[Hx|?]]; [auto| |auto].
  destruct (Hm x Hx); auto.
Qed.

(** The list of the owner in [w'], from its parts. *)
Lemma assemble w' A1 lo c ro R1 L M Q : updated (spliced A1 lo c ro R1) ->
  i_flock w' = front ++ (A1 ++ L ++ M ++ Q ++ R1) ++ post ->
  Forall (fun b => lk w' b = l0 b) (A1 ++ R1 ++ others) ->
  lk w' <$> L = cut_left c <$> (l0 <$> ids lo) -> lk w' <$> M = the_new c ->
  lk w' <$> Q = cut_right c <$> (l0 <$> ids ro) ->
  NoDup (A1 ++ L ++ M ++ Q ++ R1) -> Forall (fun a => a ∈ own \/ a = n1 \/ a = n2) (A1 ++ L ++ M ++ Q ++ R1) ->
  result_ok w'.
Proof.
  intros Hup Ei Hk EL EM EQ Hnd Hin. rewrite !Forall_app in Hk. destruct Hk as (K1 & K2 & K3).
  split; [|done]. exists (A1 ++ L ++ M ++ Q ++ R1). split; [done|]. split; [|done].
  rewrite !fmap_app, EL, EM, EQ, (same_values w' A1), (same_values w' R1) by done. exact Hup.
Qed.

(** The last lock in front is not among the others. *)
Lemma left_alone A1 l D R b : own = (A1 ++ [l]) ++ D ++ R -> b ∈ A1 ++ R ++ others -> l <> b.
Proof.
  intros E0 Hb. pose proof Hdup as Hd. rewrite E0, !NoDup_app in Hd. setoid_rewrite elem_of_app in Hd.
  setoid_rewrite elem_of_app in Hd. setoid_rewrite list_elem_of_singleton in Hd.
  intros ->. rewrite !elem_of_app in Hb. naive_solver.
Qed.

Lemma finish_end_ok A D R pre st : loop_inv A D R pre st ->
  Forall (fun b => beyond (lk (s_world st) (s_caller st)) (l0 b)) R ->
  result_ok (posix_lock_finish n1 n2 pre (R ++ post) st).
Proof.
  intros I HR. destruct (splice_end A D R pre st I HR) as (A1 & EA & Hup).
  destruct (middle_ok _ _ _ _ _ I) as (M1 & M2 & M3). pose proof (li_split _ _ _ _ _ I) as E0.
  set (w' := posix_lock_finish n1 n2 pre (R ++ post) st). set (c := lk (s_world st) (s_caller st)) in *.
  assert (i_flock w' = front ++ (A ++ middle st ++ R) ++ post /\
    (forall b, s_left st <> Some b -> lk w' b = lk (if s_added st then s_world st else set_lk n1 c (s_world st)) b
       \/ (T = F_UNLCK /\ lk w' b = lk (s_world st) b)) /\
    (forall l, s_left st = Some l -> lk w' l = cut_left c (lk (s_world st) l))) as (F1 & F2 & F3).
  { destruct (decide (s_added st = true \/ fl_type c <> F_UNLCK)) as [Hdo|Hdo].
    - destruct (finish_hyps _ _ _ _ _ I) as (Q1 & Q2 & Q3).
      destruct (finish_none n1 n2 pre (R ++ post) st Q2 Q3 Hdo (li_right _ _ _ _ _ I)) as (K1 & K2 & K3).
      split_and!; [|auto|done]. fold w' in K1. rewrite K1, <- M3. unfold c in Hdo.
      rewrite (ab_type _ _ (li_caller _ _ _ _ _ I)) in Hdo. destruct (s_added st); [done|].
      destruct (Z.eqb_spec T F_UNLCK); [naive_solver|done].
    - assert (s_added st = false /\ T = F_UNLCK) as [Ea HT].
      { rewrite <- (ab_type _ _ (li_caller _ _ _ _ _ I)). fold c. destruct (s_added st); [tauto|].
        split; [done|]. destruct (decide (fl_type c = F_UNLCK)); tauto. }
      assert (w' = (s_world st) <| i_flock := pre ++ R ++ post |>) as Ew.
      { unfold w', posix_lock_finish. fold c. rewrite Ea. cbn [negb andb]. unfold c.
        by rewrite (ab_type _ _ (li_caller _ _ _ _ _ I)), HT. }
      rewrite Ew. split_and!.
      + rewrite <- M3, Ea, HT. done.
      + auto.
      + by rewrite (li_touched _ _ _ _ _ I HT Ea). }
  clearbody w'.
  assert (forall b, b ∈ A1 ++ R ++ others -> s_left st <> Some b) as Hne.
  { intros b Hb El. rewrite El in EA. rewrite EA in E0. exact (left_alone A1 b D R b E0 Hb eq_refl). }
  apply (assemble w' A1 (s_left st) c None R (ids (s_left st)) (middle st) []); [done| |..].
  - rewrite F1, EA. by rewrite <- !app_assoc.
  - apply Forall_forall. intros b Hb. specialize (Hne b Hb).
    assert (b ∈ A ++ R ++ others) as Hb' by (rewrite EA, !elem_of_app in *; tauto).
    destruct (F2 b Hne) as [->|[_ ->]]; [by eapply start_kept|].
    pose proof (li_same _ _ _ _ _ I) as Hs. rewrite Forall_forall in Hs. auto.
  - destruct (s_left st) as [l|] eqn:El; [|done]. cbn. rewrite (F3 l eq_refl).
    pose proof (li_same _ _ _ _ _ I) as Hs. rewrite Forall_forall in Hs. rewrite Hs; [done|].
    rewrite EA, !elem_of_app. cbn. rewrite list_elem_of_singleton. auto.
  - eapply middle_value; [exact I|]. intros m Hm. destruct (F2 m) as [->|[HT _]]; [|done|].
    + destruct (finish_hyps _ _ _ _ _ I) as (_ & (_ & _ & Q1 & _) & Q2 & _). unfold middle in Hm.
      destruct (T =? F_UNLCK); [by apply elem_of_nil in Hm|]. apply list_elem_of_singleton in Hm as ->.
      by destruct (s_added st).
    + unfold middle in Hm. rewrite HT in Hm. by apply elem_of_nil in Hm.
  - done.
  - cbn. rewrite (app_assoc A1), <- EA. by eapply nodup_without.
  - cbn. rewrite (app_assoc A1), <- EA. by eapply in_own_or_new.
Qed.

(** The state at the end with a lock that reaches out on the right. *)
Definition stopped (r : Z) (st : scan) : scan :=
  Scan (s_world st) (s_caller st) (if T =? F_UNLCK then true else s_added st)
    (if fl_start (l0 r) <? fl_start (lk (s_world st) (s_caller st)) then Some r else s_left st) (Some r).

Lemma middle_stopped r st : middle (stopped r st) = middle st.
Proof. unfold middle, stopped. by destruct (T =? F_UNLCK). Qed.

Lemma right_alone A D r R b : own = A ++ D ++ r :: R -> b ∈ A ++ R ++ others -> r <> b.
Proof.
  intros E0 Hb. pose proof Hdup as Hd. rewrite E0, !NoDup_app, NoDup_cons in Hd. setoid_rewrite elem_of_app in Hd.
  setoid_rewrite elem_of_app in Hd. setoid_rewrite elem_of_cons in Hd.
  intros ->. rewrite !elem_of_app in Hb. naive_solver.
Qed.

Lemma left_in A D R pre st l : loop_inv A D R pre st -> s_left st = Some l -> l ∈ A.
Proof.
  intros I El. pose proof (li_left _ _ _ _ _ I) as Hl. rewrite El in Hl. destruct Hl as (A1 & -> & _).
  rewrite elem_of_app, list_elem_of_singleton. auto.
Qed.

Lemma stopped_hyps A D r R pre st : loop_inv A D (r :: R) pre st -> 
  let st' := stopped r st in
  (s_caller st' <> n1 /\ s_caller st' <> n2 /\ s_left st' <> Some (s_caller st') /\ s_right st' <> Some (s_caller st')) /\
  (s_left st' <> Some n1 /\ s_left st' <> Some n2 /\ s_right st' <> Some n1 /\ s_right st' <> Some n2) /\
  (s_added st' = true \/ fl_type (lk (s_world st') (s_caller st')) <> F_UNLCK).
Proof.
  intros I st'. destruct (finish_hyps _ _ _ _ _ I) as (_ & (K1 & K2 & K3 & _) & L1 & L2 & _).
  assert (r ∈ own ++ others) as Hr.
  { rewrite (li_split _ _ _ _ _ I), !elem_of_app, elem_of_cons. auto. }
  destruct (not_fresh r Hr) as [R1 R2]. pose proof (caller_not_next _ _ _ _ _ I) as K4.
  assert (r <> s_caller st) as K5 by (intros ->; apply K4; rewrite !elem_of_app, elem_of_cons; auto).
  cbn. split_and!; try congruence; try (destruct (_ <? _); congruence).
  rewrite (ab_type _ _ (li_caller _ _ _ _ _ I)). destruct (Z.eqb_spec T F_UNLCK); auto.
Qed.

Lemma start_stopped r st : 
  lk (if s_added (stopped r st) then s_world st else set_lk n1 (lk (s_world st) (s_caller st)) (s_world st)) =
  lk (if T =? F_UNLCK then s_world st
      else if s_added st then s_world st else set_lk n1 (lk (s_world st) (s_caller st)) (s_world st)).
Proof. unfold stopped. cbn. by destruct (T =? F_UNLCK). Qed.

Lemma start_stopped_kept A D R pre st b r : loop_inv A D R pre st -> b ∈ A ++ R ++ others ->
  lk (if s_added (stopped r st) then s_world st else set_lk n1 (lk (s_world st) (s_caller st)) (s_world st)) b = l0 b.
Proof.
  intros I Hb. rewrite start_stopped. destruct (T =? F_UNLCK); [|by eapply start_kept].
  pose proof (li_same _ _ _ _ _ I) as Hs. rewrite Forall_forall in Hs. auto.
Qed.

Lemma middle_stopped_value A D R pre st w' r : loop_inv A D R pre st ->
  let c := lk (s_world st) (s_caller st) in
  (forall m, m ∈ middle st ->
    lk w' m = lk (if s_added (stopped r st) then s_world st else set_lk n1 c (s_world st)) m) ->
  lk w' <$> middle st = the_new c.
Proof.
  intros I c H. eapply middle_value; [exact I|]. intros m Hm. rewrite (H m Hm), start_stopped.
  unfold middle in Hm. destruct (T =? F_UNLCK); [by apply elem_of_nil in Hm|done].
Qed.

Lemma middle_elem A D r R pre st m : loop_inv A D (r :: R) pre st -> m ∈ middle st ->
  m <> r /\ m <> n2 /\ s_left st <> Some m.
Proof.
  intros I Hm. destruct (finish_hyps _ _ _ _ _ I) as (Hn & (_ & K2 & K3 & _) & L1 & _).
  destruct (stopped_hyps _ _ _ _ _ _ I) as ((_ & _ & _ & K4) & (_ & _ & K5 & _) & _). cbn in K4, K5.
  unfold middle in Hm. destruct (T =? F_UNLCK); [by apply elem_of_nil in Hm|].
  apply list_elem_of_singleton in Hm as ->. destruct (s_added st); split_and!; congruence.
Qed.

Lemma stopped_list A D r R pre st : loop_inv A D (r :: R) pre st ->
  pre ++ (if s_added (stopped r st) then (r :: R) ++ post else n1 :: (r :: R) ++ post) =
  front ++ (A ++ middle st ++ r :: R) ++ post.
Proof.
  intros I. destruct (middle_ok _ _ _ _ _ I) as (_ & _ & M3). rewrite <- M3. unfold stopped. cbn [s_added].
  destruct (T =? F_UNLCK), (s_added st); done.
Qed.

Lemma finish_right_ok A D r R pre st : loop_inv A D (r :: R) pre st ->
  let c := lk (s_world st) (s_caller st) in
  fl_type (l0 r) <> T -> fl_start c <= fl_end (l0 r) -> fl_start (l0 r) <= fl_end c < fl_end (l0 r) ->
  Forall (fun b => beyond c (l0 b)) R -> fl_start c <= fl_start (l0 r) ->
  result_ok (posix_lock_finish n1 n2 pre ((r :: R) ++ post) (stopped r st)).
Proof.
  intros I c H1 H2 H3 H4 H5. destruct (splice_right A D r R pre st I H1 H2 H3 H4 H5) as (A1 & EA & Hup).
  fold c in Hup. destruct (middle_ok _ _ _ _ _ I) as (M1 & M2 & _). pose proof (li_split _ _ _ _ _ I) as E0.
  destruct (stopped_hyps _ _ _ _ _ _ I) as (Q1 & Q2 & Q3).
  pose proof (fun b => start_stopped_kept _ _ _ _ _ b r I) as Hst.
  assert (s_left (stopped r st) = s_left st) as El.
  { unfold stopped. cbn [s_left]. fold c. by rewrite (proj2 (Z.ltb_ge _ _) H5). }
  assert (s_left st <> Some r) as Hlr.
  { intros E1. apply (right_alone A D r R r E0); [|done]. rewrite elem_of_app. left. by eapply left_in. }
  destruct (finish_right n1 n2 pre ((r :: R) ++ post) (stopped r st) Q1 Q2 Q3 r) as (F1 & F2 & F3 & F4);
    [done|by rewrite El|]. rewrite El in *.
  change (lk (s_world (stopped r st)) (s_caller (stopped r st))) with c in *.
  change (s_world (stopped r st)) with (s_world st) in *.
  set (w' := posix_lock_finish _ _ _ _ _) in *. clearbody w'.
  pose proof (li_same _ _ _ _ _ I) as Hs. rewrite Forall_forall in Hs. 
  apply (assemble w' A1 (s_left st) c (Some r) R (ids (s_left st)) (middle st) [r]); [done|..].
  - rewrite F1, (stopped_list A D), EA by done. by rewrite <- !app_assoc.
  - apply Forall_forall. intros b Hb.
    assert (b ∈ A ++ (r :: R) ++ others) as Hb' by (rewrite EA, !elem_of_app, elem_of_cons in *; tauto).
    rewrite F2; [by apply Hst| |].
    + intros E1. rewrite E1 in EA. rewrite EA in E0. apply (left_alone A1 b D (r :: R) b E0); [|done].
      rewrite !elem_of_app, elem_of_cons in *. tauto.
    + apply not_eq_sym, (right_alone A D r R b E0). rewrite EA, !elem_of_app in *. tauto.
  - destruct (s_left st) as [l|] eqn:El'; [|done]. cbn. rewrite (F3 l eq_refl), Hs; [done|].
    rewrite EA, !elem_of_app. cbn. rewrite list_elem_of_singleton. auto.
  - eapply (middle_stopped_value _ _ _ _ _ _ r I). intros m Hm.
    destruct (middle_elem _ _ _ _ _ _ _ I Hm) as (? & _ & ?). by apply F2.
  - cbn. rewrite F4, Hs; [done|]. rewrite !elem_of_app, elem_of_cons. auto.
  - rewrite (app_assoc A1), <- EA. by eapply (nodup_without A D (r :: R)).
  - rewrite (app_assoc A1), <- EA. by eapply (in_own_or_new A D (r :: R)).
Qed.

Lemma finish_split_ok A r R pre st : loop_inv A [] (r :: R) pre st -> s_left st = None ->
  let c := lk (s_world st) (s_caller st) in
  fl_type (l0 r) <> T -> fl_start c <= fl_end (l0 r) -> fl_start (l0 r) <= fl_end c < fl_end (l0 r) ->
  Forall (fun b => beyond c (l0 b)) R -> fl_start (l0 r) < fl_start c ->
  result_ok (posix_lock_finish n1 n2 pre ((r :: R) ++ post) (stopped r st)).
Proof.
  intros I Hno c H1 H2 H3 H4 H5. pose proof (splice_split A r R pre st I Hno H1 H2 H3 H4 H5) as Hup.
  fold c in Hup. destruct (middle_ok _ _ _ _ _ I) as (M1 & M2 & _). pose proof (li_split _ _ _ _ _ I) as E0.
  destruct (stopped_hyps _ _ _ _ _ _ I) as (Q1 & Q2 & Q3).
  pose proof (fun b => start_stopped_kept _ _ _ _ _ b r I) as Hst.
  assert (s_left (stopped r st) = Some r) as El.
  { unfold stopped. cbn [s_left]. fold c. by rewrite (proj2 (Z.ltb_lt _ _) H5). }
  destruct (finish_split n1 n2 pre ((r :: R) ++ post) (stopped r st) Q1 Q2 Q3 r) as (F1 & F2 & F3 & F4);
    [done|done|].
  change (lk (s_world (stopped r st)) (s_caller (stopped r st))) with c in *.
  change (s_world (stopped r st)) with (s_world st) in *.
  set (w' := posix_lock_finish _ _ _ _ _) in *. clearbody w'.
  pose proof (li_same _ _ _ _ _ I) as Hs. rewrite Forall_forall in Hs.
  assert (lk (s_world st) r = l0 r) as Er by (apply Hs; rewrite !elem_of_app, elem_of_cons; auto).
  pose proof (nodup_without A [] (r :: R) (middle st) E0 M1 M2) as Hnd.
  pose proof (in_own_or_new A [] (r :: R) st E0 M2) as Hin.
  assert (n2 ∉ A ++ middle st ++ r :: R) as Hn2.
  { intros Hn. rewrite !elem_of_app in Hn. destruct Hn as [Hn|[Hn|Hn]].
    - destruct (not_fresh n2); [rewrite E0, !elem_of_app; auto|done].
    - by destruct (middle_elem _ _ _ _ _ _ _ I Hn) as (_ & ? & _).
    - destruct (not_fresh n2); [rewrite E0, !elem_of_app; auto|done]. }
  apply (assemble w' A (Some r) c (Some r) R [n2] (middle st) [r]); [done|..].
  - rewrite F1. pose proof (stopped_list _ _ _ _ _ _ I) as Hl. rewrite (not_added_pre _ _ _ _ I) in *.
    rewrite <- app_assoc in Hl. apply app_inv_head in Hl. rewrite <- !app_assoc in Hl. apply app_inv_head in Hl.
    rewrite <- !app_assoc. cbn [app]. do 3 f_equal. exact Hl.
  - apply Forall_forall. intros b Hb.
    assert (b ∈ A ++ (r :: R) ++ others) as Hb' by (rewrite !elem_of_app, elem_of_cons in *; tauto).
    rewrite F2; [by apply Hst| |].
    + apply (not_fresh b). by apply (kept_in_own A [] (r :: R)).
    + by apply not_eq_sym, (right_alone A [] r R b E0).
  - cbn. by rewrite F3, Er.
  - eapply (middle_stopped_value _ _ _ _ _ _ r I). intros m Hm.
    destruct (middle_elem _ _ _ _ _ _ _ I Hm) as (? & ? & ?). by apply F2.
  - cbn. by rewrite F4, Er.
  - change (NoDup (A ++ n2 :: (middle st ++ r :: R))). rewrite <- Permutation_middle. by apply NoDup_cons.
  - change (Forall (fun a => a ∈ own \/ a = n1 \/ a = n2) (A ++ n2 :: (middle st ++ r :: R))).
    rewrite <- Permutation_middle. constructor; auto.
Qed.

Lemma finished_ok A D R pre st : finished A D R pre st ->
  result_ok (posix_lock_finish n1 n2 pre (R ++ post) st).
Proof.
  intros [st' I HR|st' r R' I -> c H1 H2 H3 H4 H5]; [by eapply finish_end_ok|]. fold (stopped r st').
  destruct (decide (fl_start (l0 r) < fl_start c)) as [Hlt|Hge].
  - destruct (H5 Hlt) as [-> Hno]. by eapply finish_split_ok.
  - eapply finish_right_ok; eauto. unfold c in *. lia.
Qed.

Lemma loop_start w : locks w = h0 -> owner_of (lk w c0) = o -> is_posix (lk w c0) = true ->
  fl_type (lk w c0) = T -> fl_start (lk w c0) = S -> fl_end (lk w c0) = E ->
  loop_inv [] [] own front (Scan w c0 false None None).
Proof.
  intros Hw Ho Hp Ht Hs He. split; cbn [s_world s_caller s_added s_left s_right]; try done.
  - apply Forall_forall. intros b _. unfold lk, l0. by rewrite Hw.
  - split; try done.
    + lia.
    + intros x Hx. unfold covers in Hx. left. lia.
    + by left.
  - cbn. constructor.
  - by rewrite !app_nil_r.
Qed.

Lemma apply_ok w : locks w = h0 -> owner_of (lk w c0) = o -> is_posix (lk w c0) = true ->
  fl_type (lk w c0) = T -> fl_start (lk w c0) = S -> fl_end (lk w c0) = E ->
  i_flock w = front ++ own ++ post ->
  Forall (fun b => is_posix (lk w b) = false \/ owner_of (lk w b) <> o) front -> (own = [] -> post = []) ->
  result_ok (posix_lock_apply n1 n2 c0 w).
Proof.
  intros Hw Ho Hp Ht Hs He Hi Hfront Hemp. unfold posix_lock_apply. rewrite Hi.
  assert (skip_others w (lk w c0) [] (front ++ own ++ post) = (front, own ++ post)) as ->.
  { assert (skip_others w (lk w c0) front (own ++ post) = (front, own ++ post)) as Hskip.
    { destruct own as [|a own'] eqn:Eown; [by rewrite Hemp|]. cbn.
      apply Forall_cons in Hok as [[Hpa _] _]. apply Forall_cons in Hown as [Hoa _].
      assert (lk w a = l0 a) as -> by (unfold lk, l0; by rewrite Hw).
      rewrite Hpa, same_owner_true by (by rewrite Ho, Hoa). done. }
    rewrite <- Hskip at 1. change front with ([] ++ front) at 2. generalize (@nil Z).
    clear -Hfront Ho. induction Hfront as [|b front Hb _ IH]; intros pre; cbn; [by rewrite app_nil_r|].
    assert (negb (is_posix (lk w b)) || negb (locks_same_owner (lk w c0) (lk w b)) = true) as ->.
    { destruct Hb as [->|Hb]; [done|]. rewrite same_owner_false by congruence. apply orb_true_r. }
    rewrite IH. by rewrite <- app_assoc. }
  destruct (own_loop_spec own [] [] front (Scan w c0 false None None)) as (A & D & R & pre & st & -> & Hf).
  { by apply loop_start. }
  by eapply finished_ok.
Qed.
End Loop.
