(* ===== verification/LockGrants.v ===== *)
(** What [posix_lock_file] never does, for any list of locks and any request, also one up to the end of the
    file: no owner gets a lock on a byte that he did not ask for and did not have. The list need not be
    in order here: the precise theorem for lists in order is in LockSteps. *)
From S2P Require Import Prelude Task Locks.

(** [o] has a POSIX lock of type [t] on the byte [x] of the file. *)
Definition held (w : world) (o : Z * Z) (x t : Z) : Prop :=
  exists a, a ∈ i_flock w /\ is_posix (lk w a) = true /\ owner_of (lk w a) = o /\ covers (lk w a) x /\
  fl_type (lk w a) = t.

(** A lock that can be applied: [caller] of [posix_lock_file]. *)
Definition request_ok (l : file_lock) : Prop :=
  is_posix l = true /\ 0 <= fl_start l <= fl_end l /\ fl_end l <= OFFSET_MAX /\
  (fl_type l = F_RDLCK \/ fl_type l = F_WRLCK \/ fl_type l = F_UNLCK).

(** The structures of a call are not on the list. *)
Definition fresh_for (w : world) (c n1 n2 : Z) : Prop :=
  (c ∉ i_flock w) /\ (n1 ∉ i_flock w) /\ (n2 ∉ i_flock w) /\ n1 <> n2 /\ n1 <> c /\ n2 <> c.

(** The range of a lock on a list that need not be in order; it may be empty. *)
Definition bounded (l : file_lock) : Prop := 0 <= fl_start l /\ -1 <= fl_end l <= OFFSET_MAX.
Definition sane (l : file_lock) : Prop :=
  is_posix l = true /\ bounded l /\ (fl_type l = F_RDLCK \/ fl_type l = F_WRLCK).
(** Locks of other kinds, then the POSIX locks. *)
Definition loose (w : world) : Prop :=
  NoDup (i_flock w) /\ exists np ps, i_flock w = np ++ ps /\ Forall (fun a => is_posix (lk w a) = false) np /\
  Forall (fun a => sane (lk w a)) ps.

Lemma elem_ids x a : a ∈ ids x <-> x = Some a.
Proof. destruct x; cbn; rewrite ?list_elem_of_singleton, ?elem_of_nil; naive_solver. Qed.

Section Grants.
Context (w0 : world) (c n1 n2 : Z).
Let T := fl_type (lk w0 c).
Let o := owner_of (lk w0 c).
Hypothesis Hreq : request_ok (lk w0 c).
Hypothesis Hfresh : fresh_for w0 c n1 n2.

(** What the owner may have afterwards. *)
Definition allowed (x t : Z) : Prop := (covers (lk w0 c) x /\ t = T /\ T <> F_UNLCK) \/ held w0 o x t.
Definition fits (l : file_lock) : Prop := sane l /\ owner_of l = o /\ forall x, covers l x -> allowed x (fl_type l).
Definition same_as (w : world) (a : Z) : Prop := a ∈ i_flock w0 /\ lk w a = lk w0 a.
Definition fine (w : world) (a : Z) : Prop := (same_as w a /\ sane (lk w0 a)) \/ (fits (lk w a) /\ (a ∈ i_flock w0 \/ a = n1 \/ a = n2)).

(** The lock that the loop works with: the request, or the lock it has become. *)
Record caller_ok (l : file_lock) : Prop := {
  co_posix : is_posix l = true; co_owner : owner_of l = o; co_type : fl_type l = T; co_bounded : bounded l;
  co_allowed : T <> F_UNLCK -> forall x, covers l x -> allowed x T }.

(** The lists before and after the place of the loop; [F] are the locks that it skipped. *)
Record grants (F P R : list Z) (w : world) (k : Z) (left_ : option Z) : Prop := {
  gr_front : Forall (same_as w) F;
  gr_pre : Forall (fine w) P;
  gr_rest : Forall (fun a => same_as w a /\ sane (lk w0 a)) R;
  gr_nodup : NoDup (F ++ P ++ R);
  gr_in : Forall (fun a => a ∈ i_flock w0) (F ++ P ++ R);
  gr_caller : caller_ok (lk w k);
  gr_where : k = c \/ (k ∈ P /\ T <> F_UNLCK);
  gr_left : forall l, left_ = Some l -> l ∈ P /\ l <> k /\ fits (lk w l) /\ fl_start (lk w k) <= fl_end (lk w l) }.

Lemma old_fits a : a ∈ i_flock w0 -> sane (lk w0 a) -> owner_of (lk w0 a) = o -> fits (lk w0 a).
Proof. intros Ha Hs Ho. split; [done|]. split; [done|]. intros x Hx. right. exists a. split_and!; try done. apply Hs. Qed.
Lemma caller_fits l : caller_ok l -> T <> F_UNLCK -> fits l.
Proof.
  intros [H1 H2 H3 H4 H5] HT. split; [|split; [done|rewrite H3; auto]]. split; [done|]. split; [done|]. rewrite H3.
  destruct Hreq as (_ & _ & _ & Ht). fold T in Ht. tauto.
Qed.

Lemma grants_in F P R w k left_ a : grants F P R w k left_ -> a ∈ F ++ P ++ R -> a ∈ i_flock w0 /\ a <> c /\ a <> n1 /\ a <> n2.
Proof.
  intros G Ha. pose proof (gr_in _ _ _ _ _ _ G) as H. rewrite Forall_forall in H. specialize (H a Ha).
  destruct Hfresh as (F1 & F2 & F3 & _). split_and!; [done|intros ->; done..].
Qed.

(** The lock at hand leaves the rest. *)
Lemma grants_tail F P a R w k left_ : grants F P (a :: R) w k left_ ->
  grants F P R w k left_ /\ (a ∉ F ++ P ++ R) /\ a <> k /\ a ∈ i_flock w0 /\ a <> c /\ lk w a = lk w0 a /\ sane (lk w a).
Proof.
  intros G. pose proof (grants_in _ _ _ _ _ _ a G) as Hin. destruct G as [H1 H2 H3 H4 H5 H6 H7 H8].
  assert (Ha : a ∈ F ++ P ++ a :: R) by (rewrite !elem_of_app; right; right; by left). destruct (Hin Ha) as (I1 & I2 & _).
  apply Forall_cons in H3 as [[[_ Hsame] Hsane] H3].
  assert (Hp : F ++ P ++ a :: R ≡ₚ a :: F ++ P ++ R) by (by rewrite <- !Permutation_middle).
  assert (Hn : NoDup (a :: F ++ P ++ R)) by (by rewrite <- Hp).
  apply NoDup_cons in Hn as [Hn Hd]. split.
  - constructor; try done. rewrite !Forall_app, Forall_cons in *. tauto.
  - split; [done|]. split; [|split_and!; [done|done|done|by rewrite Hsame]]. intros ->. destruct H7 as [->|[H7 _]]; [done|]. apply Hn. rewrite !elem_of_app. auto.
Qed.
Lemma grants_next F P a R w k left_ : grants F P (a :: R) w k left_ -> grants F (P ++ [a]) R w k left_.
Proof.
  intros [H1 H2 H3 H4 H5 H6 H7 H8]. apply Forall_cons in H3 as [Ha H3]. constructor; try done.
  - apply Forall_app. split; [done|]. apply Forall_singleton. by left.
  - by rewrite <- app_assoc.
  - by rewrite <- app_assoc.
  - destruct H7 as [|[]]; [by left|right]. rewrite elem_of_app. auto.
  - intros l Hl. destruct (H8 l Hl) as (L1 & L2). split; [|done]. rewrite elem_of_app. auto.
Qed.

(** Another world with the same locks on the list, but for the one at work. *)
Lemma grants_change F P R w w1 k left_ : grants F P R w k left_ -> (forall b, b ∈ F ++ P ++ R -> b <> k -> lk w1 b = lk w b) ->
  caller_ok (lk w1 k) -> fl_start (lk w1 k) <= fl_start (lk w k) -> grants F P R w1 k left_.
Proof.
  intros G Hb Hc Hs. pose proof (grants_in _ _ _ _ _ _ k G) as Hk. destruct G as [H1 H2 H3 H4 H5 H6 H7 H8].
  assert (Hd : forall b, b ∈ F \/ b ∈ R -> b <> k).
  { intros b Hb1 ->. destruct H7 as [->|[H7 _]].
    - apply (proj1 (proj2 (Hk ltac:(rewrite !elem_of_app; tauto)))). done.
    - rewrite !NoDup_app in H4. setoid_rewrite elem_of_app in H4. destruct Hb1 as [Hb1|Hb1]; [by apply (proj1 (proj2 H4) k Hb1); left|].
      by apply (proj1 (proj2 (proj2 (proj2 H4))) k H7). }
  constructor; try done.
  - rewrite Forall_forall in *. intros b Hin. destruct (H1 b Hin) as [I1 I2]. split; [done|]. rewrite Hb; [done|rewrite !elem_of_app; auto|auto].
  - rewrite Forall_forall in *. intros b Hin. destruct (decide (b = k)) as [->|Hne].
    + right. split; [|left; apply Hk; rewrite !elem_of_app; auto]. apply caller_fits; [done|]. destruct H7 as [->|[_ H7]]; [|done].
      destruct (Hk ltac:(rewrite !elem_of_app; auto)) as (_ & ? & _). done.
    + unfold fine, same_as. rewrite Hb by (done || rewrite !elem_of_app; auto). by apply H2.
  - rewrite Forall_forall in *. intros b Hin. destruct (H3 b Hin) as [[I1 I2] I3]. split; [|done]. split; [done|].
    rewrite Hb; [done|rewrite !elem_of_app; auto|auto].
  - intros l Hl. destruct (H8 l Hl) as (L1 & L2 & L3 & L4). rewrite !(Hb l) by (done || rewrite !elem_of_app; auto). split_and!; try done. lia.
Qed.
(** A lock that was at hand becomes the one at work. *)
Lemma grants_adopt F P R w k left_ a : grants F P R w k left_ -> a ∉ F ++ P ++ R -> a ∈ i_flock w0 -> caller_ok (lk w a) -> T <> F_UNLCK ->
  fl_start (lk w a) <= fl_start (lk w k) -> grants F (P ++ [a]) R w a left_.
Proof.
  intros [H1 H2 H3 H4 H5 H6 H7 H8] Ha Hin Hc HT Hs.
  assert (Hp : F ++ (P ++ [a]) ++ R ≡ₚ a :: F ++ P ++ R) by (rewrite <- app_assoc; cbn; by rewrite <- !Permutation_middle).
  constructor; try done.
  - apply Forall_app. split; [done|]. apply Forall_singleton. right. split; [by apply caller_fits|by left].
  - rewrite Hp. by apply NoDup_cons.
  - rewrite Hp. by apply Forall_cons.
  - right. split; [|done]. rewrite elem_of_app. right. by left.
  - intros l Hl. destruct (H8 l Hl) as (L1 & L2 & L3 & L4). split_and!; [rewrite elem_of_app; auto| |done|lia].
    intros ->. apply Ha. rewrite !elem_of_app. auto.
Qed.
Lemma grants_left F P a R w k left_ : grants F P (a :: R) w k left_ -> fits (lk w a) -> fl_start (lk w k) <= fl_end (lk w a) ->
  grants F (P ++ [a]) R w k (Some a).
Proof.
  intros G Hf Hle. destruct (grants_tail _ _ _ _ _ _ _ G) as (_ & _ & Hne & _). apply grants_next in G as [H1 H2 H3 H4 H5 H6 H7 _].
  constructor; try done. intros l [= <-]. split_and!; try done. rewrite elem_of_app. right. by left.
Qed.

(** Two adjacent or overlapping ranges of one type. *)
Lemma merged_ok l m : caller_ok l -> fits m -> fl_type m = T -> fl_start l - 1 <= fl_end m -> fl_start m <= fl_end l + 1 ->
  forall k, is_posix k = true -> owner_of k = o -> fl_type k = T -> fl_start k = Z.min (fl_start m) (fl_start l) -> fl_end k = Z.max (fl_end m) (fl_end l) ->
  caller_ok k.
Proof.
  intros [L1 L2 L3 L4 L5] ((M1 & M2 & M3) & M4 & M5) Ht H1 H2 k K1 K2 K3 K4 K5. unfold bounded in *.
  constructor; try done; [unfold bounded; lia|]. intros HT x Hx. unfold covers in *.
  destruct (decide (fl_start l <= x <= fl_end l)); [by apply L5|]. rewrite Ht in M5. apply M5. lia.
Qed.

Lemma plus_one e s : -1 <= e <= OFFSET_MAX -> 0 <= s -> (s64 (e + 1) <? s) = false -> s <= e + 1.
Proof. unfold OFFSET_MAX, s64. intros He Hs H. apply Z.ltb_ge in H. revert H. dm. Qed.

(** What the loop ends with: [r] is the lock that reaches beyond the new one, if it stopped there. *)
Definition loop_end (F P R : list Z) (st : scan) : Prop :=
  exists left_, grants F P R (s_world st) (s_caller st) left_ /\
  match s_right st with
  | None => s_left st = left_
  | Some r => head R = Some r /\ fits (lk (s_world st) r) /\ fl_start (lk (s_world st) r) <= fl_end (lk (s_world st) (s_caller st)) /\
      (s_left st = left_ \/ (s_left st = Some r /\ fl_start (lk (s_world st) (s_caller st)) <= fl_end (lk (s_world st) r)))
  end.

(** A lock of the same type is taken in. *)
Lemma turn_merged F P a R w k left_ : grants F P (a :: R) w k left_ -> owner_of (lk w a) = o -> T = fl_type (lk w a) ->
  fl_start (lk w k) - 1 <= fl_end (lk w a) -> fl_start (lk w a) <= fl_end (lk w k) + 1 ->
  grants F P R (delete_lock a (merge_ranges a k w)) k left_ /\ grants F (P ++ [a]) R (merge_ranges a k w) a left_.
Proof.
  intros G Ho Ht H1 H2. destruct (grants_tail _ _ _ _ _ _ _ G) as (G' & Hn & Hk & Hin & Hc & Ea & Hs).
  pose proof (gr_caller _ _ _ _ _ _ G') as Hco. rewrite Ea in *. pose proof (old_fits a Hin Hs Ho) as Hf. rewrite <- Ea in *.
  assert (HT : T <> F_UNLCK) by (rewrite Ht; destruct Hs as (_ & _ & [-> | ->]); done).
  destruct (merge_ranges_spec a k w Hk) as (M1 & M2 & M3). set (w1 := merge_ranges a k w) in *.
  assert (Hk1 : caller_ok (lk w1 k)) by (rewrite M2; by eapply (merged_ok (lk w k) (lk w a)); try apply Hco).
  assert (Ha1 : caller_ok (lk w1 a)) by (rewrite M1; eapply (merged_ok (lk w k) (lk w a)); try done; apply Hs).
  assert (Hs1 : fl_start (lk w1 k) <= fl_start (lk w k)) by (rewrite M2; cbn; lia).
  assert (G1 : grants F P R w1 k left_).
  { eapply grants_change; [exact G'| |done|done]. intros b Hb Hbk. apply M3; [|done]. intros ->. done. }
  split.
  - eapply grants_change; [exact G1| | |].
    + intros b Hb _. apply lk_delete_lock. intros ->. done.
    + by rewrite lk_delete_lock.
    + by rewrite lk_delete_lock.
  - eapply grants_adopt; try done. rewrite M1, M2. cbn. lia.
Qed.

(** The locks of the other owners stay on the list as they are. *)
Definition others (L : list Z) (w : world) : Prop :=
  forall b, b ∈ i_flock w0 -> owner_of (lk w0 b) <> o -> b ∈ L /\ lk w b = lk w0 b.
Lemma others_change L L' w w1 k a : others L w -> owner_of (lk w k) = o -> owner_of (lk w a) = o ->
  (forall b, b ∈ L -> b <> a -> b ∈ L') -> (forall b, b <> a -> b <> k -> lk w1 b = lk w b) -> others L' w1.
Proof.
  intros H Hk Ha HL Hw b Hb Ho. destruct (H b Hb Ho) as [H1 H2].
  assert (b <> a /\ b <> k) as [N1 N2] by (split; intros ->; apply Ho; congruence). split; [by apply HL|]. by rewrite Hw.
Qed.

Lemma own_grants R : forall F P w k added left_, grants F P R w k left_ -> others (F ++ P ++ R) w ->
  exists P' R' st, own_loop (F ++ P) R (Scan w k added left_ None) = (F ++ P', R', st) /\ loop_end F P' R' st /\ others (F ++ P' ++ R') (s_world st).
Proof.
  induction R as [|a R IH]; intros F P w k added left_ G HO; cbn [own_loop].
  { exists P, [], (Scan w k added left_ None). split; [done|]. split; [by exists left_|done]. }
  assert (Hstop : forall ad, loop_end F P (a :: R) (Scan w k ad left_ None)) by (intros ad; by exists left_).
  destruct (grants_tail _ _ _ _ _ _ _ G) as (G' & Hn & Hk & Hin & Hc & Ea & Hs).
  assert (Hnext : forall w1 k1 ad l1, grants F (P ++ [a]) R w1 k1 l1 -> others (F ++ P ++ a :: R) w1 ->
    exists P' R' st, own_loop ((F ++ P) ++ [a]) R (Scan w1 k1 ad l1 None) = (F ++ P', R', st) /\ loop_end F P' R' st /\ others (F ++ P' ++ R') (s_world st)).
  { intros w1 k1 ad l1 H H'. rewrite <- app_assoc. apply IH; [done|]. by rewrite <- app_assoc. }
  assert (Hout : forall b, b ∈ F ++ P ++ a :: R -> b <> a -> b ∈ F ++ P ++ R) by (intros b; rewrite !elem_of_app, elem_of_cons; tauto).
  pose proof (gr_caller _ _ _ _ _ _ G) as Hco. cbn [s_world s_caller s_added s_left s_right].
  destruct (decide (owner_of (lk w k) = owner_of (lk w a))) as [Ho|Ho]; [|rewrite same_owner_false by done; cbn [negb]; by exists P, (a :: R), (Scan w k added left_ None)].
  rewrite same_owner_true by done. cbn [negb]. rewrite (co_owner _ Hco) in Ho. rewrite (co_type _ Hco).
  assert (Hf : fits (lk w a)) by (rewrite Ea in *; by apply old_fits).
  destruct (Z.eqb_spec T (fl_type (lk w a))) as [Ht|Ht].
  - destruct (Z.ltb_spec (fl_end (lk w a)) (fl_start (lk w k) - 1)); [by apply Hnext; [apply grants_next|]|].
    destruct (s64 (fl_end (lk w k) + 1) <? fl_start (lk w a)) eqn:Ew; [by exists P, (a :: R), (Scan w k added left_ None)|].
    apply plus_one in Ew; [|apply Hco|apply Hs]. destruct (turn_merged F P a R w k left_ G) as [G1 G2]; [done|done|lia|done|].
    destruct (merge_ranges_spec a k w Hk) as (_ & _ & M3). destruct added.
    + apply IH; [done|]. eapply (others_change _ _ w); [exact HO|apply Hco|exact (eq_sym Ho)|done|]. intros b Hb1 Hb2. by rewrite lk_delete_lock, M3.
    + apply Hnext; [done|]. by eapply (others_change _ _ w); [exact HO|apply Hco|exact (eq_sym Ho)| |].
  - destruct (Z.ltb_spec (fl_end (lk w a)) (fl_start (lk w k))); [by apply Hnext; [apply grants_next|]|].
    destruct (Z.ltb_spec (fl_end (lk w k)) (fl_start (lk w a))); [by exists P, (a :: R), (Scan w k added left_ None)|].
    set (ad := if T =? F_UNLCK then true else added). set (l1 := if fl_start (lk w a) <? fl_start (lk w k) then Some a else left_).
    assert (Est : (let st := if T =? F_UNLCK then (Scan w k added left_ None) <| s_added := true |> else Scan w k added left_ None in
      if fl_start (lk w a) <? fl_start (lk w k) then st <| s_left := Some a |> else st) = Scan w k ad l1 None).
    { unfold ad, l1. by destruct (T =? F_UNLCK), (_ <? _). }
    cbv zeta in Est. rewrite Est. cbn [s_added]. clear Est.
    destruct (Z.ltb_spec (fl_end (lk w k)) (fl_end (lk w a))).
    { exists P, (a :: R), (Scan w k ad l1 (Some a)). split; [done|]. split; [|done]. exists left_. split; [done|]. cbn. split_and!; try done.
      unfold l1. destruct (_ <? _); [right|left]; done. }
    destruct (Z.leb_spec (fl_start (lk w k)) (fl_start (lk w a))).
    + assert (El : l1 = left_) by (unfold l1; by rewrite (proj2 (Z.ltb_ge _ _))). rewrite El.
      destruct ad eqn:Ead.
      * apply IH.
        -- eapply grants_change; [exact G'| |by rewrite lk_delete_lock|by rewrite lk_delete_lock]. intros b Hb _. apply lk_delete_lock. intros ->. done.
        -- eapply (others_change _ _ w); [exact HO|apply Hco|exact (eq_sym Ho)|done|]. intros b Hb1 _. by apply lk_delete_lock.
      * assert (HT : T <> F_UNLCK) by (unfold ad in Ead; destruct (Z.eqb_spec T F_UNLCK); done).
        set (w1 := set_lk a _ _).
        assert (Hw1 : forall b, b <> a -> lk w1 b = lk w b) by (intros b Hb; unfold w1; by rewrite lk_set_ne, lk_wake).
        assert (Ea1 : fl_start (lk w1 a) = fl_start (lk w k) /\ fl_end (lk w1 a) = fl_end (lk w k) /\ fl_type (lk w1 a) = T /\
          is_posix (lk w1 a) = is_posix (lk w a) /\ owner_of (lk w1 a) = owner_of (lk w a)) by (unfold w1; rewrite lk_set_eq; by split_and!).
        destruct Ea1 as (E1 & E2 & E3 & E4 & E5).
        apply Hnext; [|eapply (others_change _ _ w); [exact HO|apply Hco|exact (eq_sym Ho)|done|]; intros b Hb1 _; by apply Hw1].
        eapply grants_adopt; [eapply grants_change; [exact G'| | |]|done|done| |done|].
        -- intros b Hb _. apply Hw1. intros ->. done.
        -- by rewrite Hw1 by done.
        -- by rewrite Hw1 by done.
        -- destruct Hco as [C1 C2 C3 C4 C5]. change (caller_ok (lk w1 a)); constructor; [by rewrite E4; apply Hs|by rewrite E5|done|unfold bounded; by rewrite E1, E2|].
           intros _ x Hx. apply C5; [done|]. unfold covers in *. by rewrite E1, E2 in Hx.
        -- change (fl_start (lk w1 a) <= fl_start (lk w1 k)). rewrite E1, Hw1 by done. lia.
    + assert (El : l1 = Some a) by (unfold l1; by rewrite (proj2 (Z.ltb_lt _ _))). rewrite El.
      apply Hnext; [by eapply grants_left|done].
Qed.

(** What the call leaves: the locks that it skipped, and others that are as before or fit. *)
Definition granted (F : list Z) (w' : world) : Prop :=
  exists Q, i_flock w' = F ++ Q /\ Forall (same_as w') F /\ Forall (fine w') Q /\ NoDup (F ++ Q) /\ others (F ++ Q) w'.

Lemma grants_granted F P R w k left_ w' news changed Q : grants F P R w k left_ -> others (F ++ P ++ R) w ->
  i_flock w' = F ++ Q -> Q ≡ₚ news ++ P ++ R -> NoDup news ->
  Forall (fun b => fits (lk w' b) /\ (b = n1 \/ b = n2)) news ->
  Forall (fun b => b ∈ P ++ R /\ fits (lk w' b) /\ owner_of (lk w b) = o) changed ->
  (forall b, b ∈ F ++ P ++ R -> b ∉ changed -> lk w' b = lk w b) -> granted F w'.
Proof.
  intros G HO Ei Hp Hnd Hnew Hch Hsame. pose proof (fun b => grants_in F P R w k left_ b G) as Hin.
  destruct G as [H1 H2 H3 H4 H5 _ _ _]. rewrite Forall_forall in Hnew, Hch, H1, H2, H3.
  assert (HF : forall b, b ∈ F -> b ∉ changed).
  { intros b Hb Hc. destruct (Hch b Hc) as [Hc' _]. apply NoDup_app in H4 as (_ & H4 & _). by apply (H4 b). }
  exists Q. split; [done|]. split_and!.
  - apply Forall_forall. intros b Hb. destruct (H1 b Hb) as [I1 I2]. split; [done|]. rewrite Hsame; [done|rewrite elem_of_app; auto|auto].
  - apply Forall_forall. intros b Hb. rewrite Hp, elem_of_app in Hb. destruct Hb as [Hb|Hb]; [right; destruct (Hnew b Hb); tauto|].
    assert (HbF : b ∈ F ++ P ++ R) by (rewrite elem_of_app; auto).
    destruct (decide (b ∈ changed)) as [Hc|Hc]; [right; destruct (Hch b Hc) as (_ & ? & _); split; [done|left; by apply Hin]|].
    unfold fine, same_as. rewrite Hsame by done. rewrite elem_of_app in Hb. destruct Hb as [Hb|Hb]; [by apply H2|left; by apply H3].
  - rewrite Hp, (Permutation_app_swap_app F). apply NoDup_app. split_and!; [done| |done].
    intros b Hb Hb'. destruct (Hin b Hb') as (_ & _ & N1 & N2). destruct (Hnew b Hb) as [_ [?|?]]; done.
  - intros b Hb Ho. destruct (HO b Hb Ho) as [I1 I2]. rewrite Hp, !elem_of_app in *. split; [tauto|]. rewrite Hsame; [done|by rewrite !elem_of_app|].
    intros Hc. destruct (Hch b Hc) as (_ & _ & K). apply Ho. congruence.
Qed.

Lemma cut_left_fits k l : caller_ok k -> fits l -> fl_start k <= fl_end l -> fits (cut_left k l).
Proof.
  intros Hk ((L1 & [L2 L3] & L4) & L5 & L6) Hle. destruct (co_bounded _ Hk) as [B1 B2].
  split; [split; [done|split; [|done]]|split; [done|]]; unfold bounded, covers, cut_left in *; cbn; [lia|]. intros x Hx. apply L6. lia.
Qed.
Lemma cut_right_fits k l : caller_ok k -> fits l -> fl_start l <= fl_end k -> fits (cut_right k l).
Proof.
  intros Hk ((L1 & [L2 L3] & L4) & L5 & L6) Hle. destruct (co_bounded _ Hk) as [B1 B2].
  split; [split; [done|split; [|done]]|split; [done|]]; unfold bounded, covers, cut_right in *; cbn; [lia|]. intros x Hx. apply L6. lia.
Qed.

Lemma finish_granted F P R st : loop_end F P R st -> others (F ++ P ++ R) (s_world st) ->
  granted F (posix_lock_finish n1 n2 (F ++ P) R st).
Proof.
  intros (left_ & G & Hr) HO. set (w := s_world st) in *. set (k := s_caller st) in *. set (w' := posix_lock_finish _ _ _ _ _).
  pose proof (gr_caller _ _ _ _ _ _ G) as Hco. pose proof (grants_in _ _ _ _ _ _ k G) as Hkin.
  destruct (decide (s_added st = false /\ T = F_UNLCK)) as [[Ead HT]|Hdo].
  { assert (Ew : w' = w <| i_flock := (F ++ P) ++ R |>).
    { unfold w', posix_lock_finish. fold w k. pose proof (co_type _ Hco) as Ht. rewrite Ht, Ead, HT. done. }
    rewrite Ew. eapply (grants_granted F P R w k left_ _ [] [] (P ++ R) G HO); try done; [cbn; by rewrite app_assoc|constructor]. }
  assert (Hdo' : s_added st = true \/ fl_type (lk w k) <> F_UNLCK) by (pose proof (co_type _ Hco) as Ht; destruct (s_added st); [by left|right; rewrite Ht; tauto]).
  assert (Hk12 : k <> n1 /\ k <> n2).
  { destruct (gr_where _ _ _ _ _ _ G) as [->|[Hk _]]; [by destruct Hfresh as (_ & _ & _ & _ & ? & ?)|]. apply Hkin. rewrite !elem_of_app. auto. }
  pose proof (gr_left _ _ _ _ _ _ G) as Hl.
  assert (Hlin : forall l, left_ = Some l -> l <> n1 /\ l <> n2) by (intros l El; destruct (Hl l El) as (L1 & _); apply (grants_in _ _ _ _ _ _ l G); rewrite !elem_of_app; auto).
  set (rest := if s_added st then R else n1 :: R). set (news := if s_added st then [] else [n1]).
  assert (Hperm : P ++ rest ≡ₚ news ++ P ++ R) by (unfold rest, news; destruct (s_added st); [done|cbn; by rewrite Permutation_middle]).
  assert (Hn1 : s_added st = false -> fits (lk w k)) by (intros E; apply caller_fits; [done|]; rewrite E in Hdo; tauto).
  assert (Hnew : forall v, (s_added st = false -> lk v n1 = lk w k) -> Forall (fun b => fits (lk v b) /\ (b = n1 \/ b = n2)) news).
  { intros v Hv. unfold news. destruct (s_added st); [constructor|]. apply Forall_singleton. rewrite Hv by done. auto. }
  assert (Hnd : NoDup news) by (unfold news; destruct (s_added st); [constructor|apply NoDup_singleton]).
  set (start := if s_added st then w else set_lk n1 (lk w k) w).
  assert (Hst1 : s_added st = false -> lk start n1 = lk w k) by (intros E; unfold start; rewrite E; apply lk_set_eq).
  assert (Hst : forall b, b ∈ F ++ P ++ R -> lk start b = lk w b).
  { intros b Hb. unfold start. destruct (s_added st); [done|]. apply lk_set_ne. destruct (grants_in _ _ _ _ _ _ b G Hb) as (_ & _ & ? & _). done. }
  assert (Hcl : forall l, left_ = Some l -> fits (cut_left (lk w k) (lk w l)) /\ l ∈ P ++ R /\ owner_of (lk w l) = o).
  { intros l El. destruct (Hl l El) as (L1 & L2 & L3 & L4). split_and!; [by apply cut_left_fits|rewrite elem_of_app; auto|apply L3]. }
  destruct (s_right st) as [r|] eqn:Er.
  - destruct Hr as (Hhd & Hfr & Hsr & Hle). destruct R as [|r' R']; [done|]. injection Hhd as ->.
    destruct (grants_tail _ _ _ _ _ _ _ G) as (_ & Hnr & Hrk & Hri & Hrc & _). pose proof (grants_in _ _ _ _ _ _ r G ltac:(rewrite !elem_of_app; right; right; by left)) as (_ & _ & Hr1 & Hr2).
    assert (Hcr : fits (cut_right (lk w k) (lk w r))) by (by apply cut_right_fits).
    assert (HrPR : r ∈ P ++ r :: R') by (rewrite elem_of_app; right; by left).
    destruct (decide (s_left st = Some r)) as [Elr|Elr].
    + assert (Hle2 : fl_start (lk w k) <= fl_end (lk w r)).
      { destruct Hle as [El|[_ ?]]; [|done]. rewrite Elr in El. by destruct (Hl r (eq_sym El)) as (_ & _ & _ & ?). }
      destruct (finish_split n1 n2 (F ++ P) (r :: R') st) with (r := r) as (K1 & K2 & K3 & K4); try done.
      { rewrite Elr, Er. fold k. split_and!; [tauto|tauto|congruence..]. }
      { rewrite Elr, Er. split_and!; congruence. }
      fold w k w' start rest in K1, K2, K3, K4.
      eapply (grants_granted F P (r :: R') w k left_ w' (n2 :: news) [r] (P ++ n2 :: rest) G HO).
      * by rewrite K1, app_assoc.
      * by rewrite <- Permutation_middle, Hperm.
      * apply NoDup_cons. split; [|done]. unfold news. destruct (s_added st); [apply not_elem_of_nil|]. rewrite list_elem_of_singleton. by destruct Hfresh as (_ & _ & _ & ? & _).
      * apply Forall_cons. split; [split; [rewrite K3; by apply cut_left_fits|by right]|]. apply Hnew. intros E. rewrite K2; [by apply Hst1|by destruct Hfresh as (_ & _ & _ & ? & _)|done].
      * apply Forall_singleton. rewrite K4. split_and!; [done|done|apply Hfr].
      * intros b Hb Hn. rewrite list_elem_of_singleton in Hn. rewrite K2; [by apply Hst| |done]. destruct (grants_in _ _ _ _ _ _ b G Hb) as (_ & _ & _ & ?). done.
    + assert (El : s_left st = left_) by (destruct Hle as [|[? _]]; done).
      destruct (finish_right n1 n2 (F ++ P) (r :: R') st) with (r := r) as (K1 & K2 & K3 & K4); try done.
      { rewrite El, Er. fold k. split_and!; try tauto; [|congruence]. intros E. by destruct (Hl k E) as (_ & ? & _). }
      { rewrite El, Er. split_and!; try congruence; intros E; by destruct (Hlin _ E). }
      fold w k w' start rest in K1, K2, K3, K4. rewrite El in *.
      eapply (grants_granted F P (r :: R') w k left_ w' news (r :: ids left_) (P ++ rest) G HO); try done.
      * by rewrite K1, app_assoc.
      * apply Hnew. intros E. rewrite K2; [by apply Hst1| |done]. intros E2. by destruct (Hlin _ E2).
      * apply Forall_cons. split; [rewrite K4; split_and!; [done|done|apply Hfr]|]. destruct left_ as [l|]; [|constructor]. apply Forall_singleton.
        rewrite K3 by done. destruct (Hcl l eq_refl) as (? & ? & ?). by split_and!.
      * intros b Hb Hn. rewrite K2; [by apply Hst| |]; intros E; apply Hn; rewrite elem_of_cons, elem_ids; auto.
  - destruct (finish_none n1 n2 (F ++ P) R st) as (K1 & K2 & K3); try done.
    { rewrite Hr, Er. fold k. split_and!; try tauto; [|congruence]. intros E. by destruct (Hl k E) as (_ & ? & _). }
    { rewrite Hr, Er. split_and!; try congruence; intros E; by destruct (Hlin _ E). }
    fold w k w' start rest in K1, K2, K3. rewrite Hr in *.
    eapply (grants_granted F P R w k left_ w' news (ids left_) (P ++ rest) G HO); try done.
    + by rewrite K1, app_assoc.
    + apply Hnew. intros E. rewrite K2; [by apply Hst1|]. intros E2. by destruct (Hlin _ E2).
    + destruct left_ as [l|]; [|constructor]. apply Forall_singleton. rewrite K3 by done. destruct (Hcl l eq_refl) as (? & ? & ?). by split_and!.
    + intros b Hb Hn. rewrite K2; [by apply Hst|]. intros E. apply Hn. by rewrite elem_ids.
Qed.
(** The whole call. *)
Lemma skip_others_spec l np ps : Forall (fun a => is_posix (lk w0 a) = false) np -> forall pre,
  exists F R, ps = F ++ R /\ skip_others w0 l pre (np ++ ps) = (pre ++ np ++ F, R).
Proof.
  induction 1 as [|a np Ha _ IH]; intros pre; cbn [app skip_others].
  - revert pre. induction ps as [|a ps IH]; intros pre; cbn [skip_others]; [exists [], []; split; [done|]; by rewrite app_nil_r|].
    destruct (_ || _); [|exists [], (a :: ps); split; [done|]; by rewrite app_nil_r].
    destruct (IH (pre ++ [a])) as (F & R & -> & ->). exists (a :: F), R. by rewrite <- app_assoc.
  - rewrite Ha. cbn [negb orb]. destruct (IH (pre ++ [a])) as (F & R & -> & ->). exists F, R. by rewrite <- app_assoc.
Qed.

Hypothesis Hloose : loose w0.
Let w' := posix_lock_apply n1 n2 c w0.

Lemma apply_granted : exists np F, Forall (fun a => is_posix (lk w0 a) = false) np /\ Forall (fun a => sane (lk w0 a)) F /\ granted (np ++ F) w'.
Proof.
  destruct Hloose as (Hnd & np & ps & Ei & Hnp & Hps). unfold w', posix_lock_apply. rewrite Ei.
  destruct (skip_others_spec (lk w0 c) np ps Hnp []) as (F & R & -> & ->). cbn [app]. apply Forall_app in Hps as [HF HR].
  assert (Hsub : forall xs, (forall x, x ∈ xs -> x ∈ i_flock w0) -> Forall (same_as w0) xs) by (intros xs H; apply Forall_forall; intros x Hx; split; auto).
  assert (Ei' : i_flock w0 = (np ++ F) ++ R) by (by rewrite Ei, app_assoc).
  assert (G : grants (np ++ F) [] R w0 c None).
  { constructor; cbn [app]; try done.
    - apply Hsub. intros x Hx. rewrite Ei', elem_of_app. auto.
    - rewrite Forall_forall in *. intros x Hx. split; [|auto]. split; [|done]. rewrite Ei', elem_of_app. auto.
    - by rewrite <- Ei'.
    - apply Forall_forall. intros x. by rewrite Ei'.
    - destruct Hreq as (R1 & R2 & R3 & R4). constructor; try done; [unfold bounded; lia|]. intros HT x Hx. by left.
    - by left. }
  exists np, F. split_and!; [done|done|].
  destruct (own_grants R (np ++ F) [] w0 c false None G) as (P & R' & st & E & Hend & HO).
  { intros b Hb _. cbn [app]. by rewrite <- Ei'. }
  rewrite app_nil_r in E. rewrite E. by apply finish_granted.
Qed.

(** The list stays one of sane locks, and the structure of the request is not on it. *)
Lemma apply_loose : loose w' /\ (c ∉ i_flock w').
Proof.
  destruct apply_granted as (np & F & Hnp & HF & Q & Ei & H1 & H2 & H3 & _).
  apply Forall_app in H1 as [H0 H1]. rewrite Forall_forall in Hnp, HF, H0, H1, H2.
  destruct Hfresh as (F1 & _ & _ & _ & F5 & F6). split; [split; [by rewrite Ei|]|].
  - exists np, (F ++ Q). rewrite Ei, app_assoc. split; [done|]. split; [|apply Forall_app; split]; apply Forall_forall; intros a Ha.
    + rewrite (proj2 (H0 a Ha)). auto.
    + rewrite (proj2 (H1 a Ha)). auto.
    + destruct (H2 a Ha) as [[[_ E] ?]|[[? _] _]]; [by rewrite E|done].
  - rewrite Ei, !elem_of_app. intros [[Hc|Hc]|Hc]; [by apply F1, H0|by apply F1, H1|].
    destruct (H2 c Hc) as [[[? _] _]|[_ [?|[?|?]]]]; congruence.
Qed.

(** Nobody gets what he did not ask for, and the other owners lose nothing. *)
Lemma apply_gives o' x t : held w' o' x t -> (o' = o /\ allowed x t) \/ held w0 o' x t.
Proof.
  destruct apply_granted as (np & F & _ & _ & Q & Ei & H1 & H2 & _). rewrite Forall_forall in H1, H2.
  intros (a & Ha & Hp & Ho & Hc & Ht). rewrite Ei, elem_of_app in Ha.
  assert (Hold : same_as w' a -> held w0 o' x t) by (intros [I E]; rewrite E in *; by exists a).
  destruct Ha as [Ha|Ha]; [by right; apply Hold, H1|]. destruct (H2 a Ha) as [[Hs _]|[(_ & Hoo & Hf) _]]; [by right; apply Hold|].
  left. split; [congruence|]. rewrite <- Ht. by apply Hf.
Qed.
Lemma apply_others o' x t : o' <> o -> held w0 o' x t -> held w' o' x t.
Proof.
  destruct apply_granted as (np & F & _ & _ & Q & Ei & _ & _ & _ & HO). intros Hne (a & Ha & Hp & Ho & Hc & Ht).
  destruct (HO a Ha) as [I E]; [congruence|]. exists a. by rewrite Ei, E.
Qed.
End Grants.
