(* ===== verification/LockSteps.v ===== *)
(** The locks of an inode over time: what [posix_lock_file] of fs/locks.c does to the bytes of a file,
    mutual exclusion between owners, waiting, and deadlocks. The code is modelled in Locks; here are the
    promises it keeps as a whole. *)
From stdpp Require Import sorting.
From S2P Require Import Prelude Task Locks LockGrants.

(** ** The locks of an inode *)

(** Locks of other kinds, then the POSIX locks. *)
Definition world_ok (w : world) : Prop :=
  NoDup (i_flock w) /\ exists np ps, i_flock w = np ++ ps /\ Forall (fun a => is_posix (lk w a) = false) np /\
  list_ok (lk w <$> ps).

(** The comparison with [fl_end + 1] is not reached with an [fl_end] of OFFSET_MAX. *)
Definition end_ok (w : world) (l : file_lock) : Prop :=
  fl_end l < OFFSET_MAX \/
  Forall (fun a => owner_of (lk w a) = owner_of l -> fl_type (lk w a) = fl_type l -> fl_end (lk w a) < fl_start l - 1)
    (i_flock w).

(** In particular, the list is one of sane locks. *)
Lemma world_loose w : world_ok w -> loose w.
Proof.
  intros (Hnd & np & ps & Ei & Hnp & [Hok _ _]). split; [done|]. exists np, ps. split_and!; [done|done|].
  rewrite Forall_fmap in Hok. eapply Forall_impl; [exact Hok|]. intros a (H1 & H2 & H3 & H4). unfold sane, bounded. split_and!; (done || lia).
Qed.

Lemma list_ok_split ls o : list_ok ls -> exists P O Q, ls = P ++ O ++ Q /\
  Forall (fun l => owner_of l <> o) P /\ Forall (fun l => owner_of l = o) O /\ Forall (fun l => owner_of l <> o) Q /\
  (O = [] -> Q = []).
Proof.
  intros [_ _ Hg]. destruct (grouped_split o _ Hg) as (p & w & q & E & H1 & H2 & H3 & H4).
  apply fmap_app_inv in E as (P & R & -> & E' & ->). apply eq_sym, fmap_app_inv in E' as (O & Q & -> & -> & ->).
  exists P, O, Q. rewrite Forall_fmap in H2. rewrite list_elem_of_fmap in H1, H3. split; [done|].
  split; [|split; [exact H2|split]].
  - apply Forall_forall. intros l Hl <-. apply H1. eauto.
  - apply Forall_forall. intros l Hl <-. apply H3. eauto.
  - intros ->. by apply fmap_nil_inv in H4.
Qed.

(** *** Exchanging the locks of one owner *)
Section Exchange.
Context (P O O' Q : list file_lock) (o : Z * Z).
Hypothesis HP : Forall (fun l => owner_of l <> o) P.
Hypothesis HO : Forall (fun l => owner_of l = o) O.
Hypothesis HO' : Forall (fun l => owner_of l = o) O'.
Hypothesis HQ : Forall (fun l => owner_of l <> o) Q.
Hypothesis Hemp : O = [] -> Q = [].

Lemma exchange_ok : list_ok (P ++ O ++ Q) -> Forall lock_ok O' -> StronglySorted apart O' ->
  list_ok (P ++ O' ++ Q).
Proof.
  intros [H1 H2 H3] Hok Hs. rewrite !Forall_app in H1. destruct H1 as (K1 & _ & K3).
  rewrite !StronglySorted_app in H2. destruct H2 as (S1 & S2 & S3 & S4 & S5).
  rewrite Forall_forall in HP, HO', HQ. split.
  - rewrite !Forall_app. done.
  - rewrite !StronglySorted_app. split_and!; try done.
    + intros x y Hx Hy. apply elem_of_app in Hy as [Hy|Hy].
      * rewrite (HO' y Hy). intros E. by apply HP in Hx.
      * apply S1; [done|]. rewrite elem_of_app. auto.
    + intros x y Hx Hy. rewrite (HO' x Hx). intros E. by apply HQ in Hy.
    + eapply sorted_impl; [|exact Hs]. auto.
  - rewrite !fmap_app in *. eapply (grouped_replace o); [| | | | |exact H3].
    + by rewrite Forall_fmap.
    + rewrite Forall_fmap. by apply Forall_forall.
    + rewrite list_elem_of_fmap. intros (l & E & Hl). by apply (HP l Hl).
    + rewrite list_elem_of_fmap. intros (l & E & Hl). by apply (HQ l Hl).
    + intros E. apply fmap_nil_inv in E. by rewrite Hemp.
Qed.
End Exchange.

Lemma sorted_unfmap {A B} (f : A -> B) (R : B -> B -> Prop) l :
  StronglySorted R (f <$> l) -> StronglySorted (fun x y => R (f x) (f y)) l.
Proof.
  induction l as [|x l IH]; cbn; [constructor|]. rewrite !StronglySorted_cons, Forall_fmap. intros [H1 H2]. auto.
Qed.

Lemma nodup_replace (X O N Y : list Z) : NoDup (X ++ O ++ Y) -> NoDup N ->
  Forall (fun x => x ∈ O \/ x ∉ X ++ O ++ Y) N -> NoDup (X ++ N ++ Y).
Proof.
  rewrite !NoDup_app, Forall_forall. intros (H1 & H2 & H3 & H4 & H5) HN Hin.
  split_and!; try done; intros x Hx Hy; rewrite ?elem_of_app in *.
  - destruct Hy as [Hy|Hy]; [|apply (H2 x Hx); rewrite elem_of_app; auto].
    destruct (Hin x Hy) as [Ho|Ho]; [apply (H2 x Hx)|apply Ho]; rewrite ?elem_of_app; auto.
  - destruct (Hin x Hx) as [Ho|Ho]; [by apply (H4 x)|]. apply Ho. rewrite !elem_of_app. auto.
Qed.

Lemma elem_values w (ps : list Z) l : l ∈ (lk w <$> ps) <-> exists a, a ∈ ps /\ l = lk w a.
Proof. rewrite list_elem_of_fmap. naive_solver. Qed.

(** The parts of the list around the locks of one owner. *)
Lemma world_split w o : world_ok w -> exists np P O Q, i_flock w = np ++ P ++ O ++ Q /\
  Forall (fun a => is_posix (lk w a) = false) np /\ list_ok ((lk w <$> P) ++ (lk w <$> O) ++ (lk w <$> Q)) /\
  Forall (fun a => owner_of (lk w a) <> o) P /\ Forall (fun a => owner_of (lk w a) = o) O /\
  Forall (fun a => owner_of (lk w a) <> o) Q /\ (O = [] -> Q = []).
Proof.
  intros (_ & np & ps & Ei & Hnp & Hps). destruct (list_ok_split _ o Hps) as (P & O & Q & E & H1 & H2 & H3 & H4).
  rewrite E in Hps. apply fmap_app_inv in E as (P' & R' & -> & E' & ->).
  apply eq_sym, fmap_app_inv in E' as (O' & Q' & -> & -> & ->).
  rewrite Forall_fmap in H1, H2, H3. exists np, P', O', Q'. split_and!; try done.
  intros ->. by apply fmap_nil_inv in H4.
Qed.

Section Apply.
Context (w : world) (c n1 n2 : Z).
Let T := fl_type (lk w c).
Let S := fl_start (lk w c).
Let E := fl_end (lk w c).
Let o := owner_of (lk w c).
Let w' := posix_lock_apply n1 n2 c w.
Hypothesis Hw : world_ok w.
Hypothesis Hfresh : fresh_for w c n1 n2.
Hypothesis Hreq : request_ok (lk w c).
Hypothesis Hend : end_ok w (lk w c).

(** What [posix_lock_apply] does to the list, in parts. *)
Lemma apply_parts : exists np P O new Q, i_flock w = np ++ P ++ O ++ Q /\ i_flock w' = np ++ P ++ new ++ Q /\
  Forall (fun a => lk w' a = lk w a) (np ++ P ++ Q) /\
  Forall (fun a => is_posix (lk w a) = false) np /\ list_ok ((lk w <$> P) ++ (lk w <$> O) ++ (lk w <$> Q)) /\
  Forall (fun a => owner_of (lk w a) <> o) P /\ Forall (fun a => owner_of (lk w a) = o) O /\
  Forall (fun a => owner_of (lk w a) <> o) Q /\ (O = [] -> Q = []) /\
  updated (locks w) O o T S E (lk w' <$> new) /\ NoDup new /\ Forall (fun a => a ∈ O \/ a = n1 \/ a = n2) new.
Proof.
  destruct (world_split w o Hw) as (np & P & O & Q & Ei & Hnp & Hl & HP & HO & HQ & Hemp).
  pose proof Hw as [Hnd _]. destruct Hfresh as (F1 & F2 & F3 & F4 & F5 & F6). rewrite Ei in *.
  pose proof Hl as [L1 L2 _]. rewrite !Forall_app, !Forall_fmap in L1. destruct L1 as (_ & L1 & _).
  rewrite !StronglySorted_app in L2. destruct L2 as (_ & _ & _ & L2 & _).
  assert (result_ok (locks w) (np ++ P) O Q o T S E n1 n2 w') as [(new & R1 & R2 & R3 & R4) R5].
  { apply (apply_ok (locks w) (np ++ P) O Q c o T S E); try done.
    - by rewrite (app_assoc O), (Permutation_app_comm _ (np ++ P)), <- app_assoc.
    - rewrite !elem_of_app in *. tauto.
    - apply sorted_unfmap in L2. eapply sorted_impl; [|exact L2]. intros x y Hx Hy. rewrite Forall_forall in HO.
      fold (lk w x) (lk w y). rewrite (HO x Hx), (HO y Hy). auto.
    - destruct Hreq as (_ & ? & ? & _). done.
    - apply Hreq.
    - destruct Hend as [|Hall]; [by left|]. right. rewrite Ei, !Forall_app in Hall. destruct Hall as (_ & _ & Hall & _).
      rewrite Forall_forall in *. intros a Ha. apply (Hall a Ha). by apply HO.
    - rewrite !elem_of_app in *. tauto.
    - apply Hreq.
    - by rewrite <- app_assoc.
    - apply Forall_app. split; (eapply Forall_impl; [eassumption|]); auto. }
  exists np, P, O, new, Q. rewrite <- app_assoc in R1. rewrite !Forall_app in R5. destruct R5 as (Q1 & Q2 & Q3).
  split_and!; try done. by rewrite !Forall_app.
Qed.

Lemma apply_world_ok : world_ok w'.
Proof.
  destruct apply_parts as (np & P & O & new & Q & E1 & E2 & Hsame & Hnp & Hl & HP & HO & HQ & Hemp & [U1 U2 U3 _] & Hnd & Hin).
  rewrite !Forall_app in Hsame. destruct Hsame as (S1 & S2 & S3).
  assert (forall xs, Forall (fun a => lk w' a = lk w a) xs -> lk w' <$> xs = lk w <$> xs) as Hv.
  { induction 1 as [|x xs Hx _ IH]; [done|]. cbn. by rewrite Hx, IH. }
  split.
  - rewrite E2. destruct Hfresh as (_ & F2 & F3 & _). pose proof Hw as [Hd _]. rewrite E1 in Hd, F2, F3.
    rewrite (app_assoc np) in *. apply (nodup_replace _ O); [done|done|].
    eapply Forall_impl; [exact Hin|]. cbn. intros x [?|[->| ->]]; auto.
  - exists np, (P ++ new ++ Q). split; [done|]. split.
    + rewrite Forall_forall in *. intros a Ha. rewrite S1; auto.
    + rewrite !fmap_app, (Hv P), (Hv Q) by done.
      eapply (exchange_ok _ (lk w <$> O) _ _ o); try done; try (by rewrite Forall_fmap).
      intros H%fmap_nil_inv. by rewrite Hemp.
Qed.

Lemma apply_held o' x t : held w' o' x t <->
  (o' = o /\ S <= x <= E /\ t = T /\ T <> F_UNLCK) \/ (~ (o' = o /\ S <= x <= E) /\ held w o' x t).
Proof.
  destruct apply_parts as (np & P & O & new & Q & E1 & E2 & Hsame & Hnp & Hl & HP & HO & HQ & _ & [U1 U2 _ U4] & _ & _).
  rewrite Forall_forall in Hsame, Hnp, HP, HO, HQ. rewrite Forall_forall in U1, U2. pose proof (lo_ok _ Hl) as Hok.
  rewrite !Forall_app, !Forall_fmap in Hok. destruct Hok as (_ & Hok & _). rewrite Forall_forall in Hok.
  unfold held. rewrite E1, E2. setoid_rewrite elem_of_app. setoid_rewrite elem_of_app. setoid_rewrite elem_of_app.
  assert (forall a, a ∈ new -> (lk w' a) ∈ (lk w' <$> new)) as Hnew by (intros; apply list_elem_of_fmap; eauto).
  specialize (U4 x t). split.
  - intros (a & Ha & Hpos & Hown & Hcov & Ht). 
    destruct (decide (a ∈ np ++ P ++ Q)) as [Hk|Hk].
    + rewrite (Hsame a Hk) in *. right. rewrite !elem_of_app in Hk. split.
      * intros [-> _]. destruct Hk as [Hk|[Hk|Hk]]; [by rewrite Hnp in Hpos|by apply (HP a Hk)|by apply (HQ a Hk)].
      * exists a. split; [tauto|done].
    + rewrite !elem_of_app in Hk. assert (a ∈ new) as Hn by tauto. pose proof (U2 _ (Hnew a Hn)) as Ho.
      assert (o' = o) as -> by congruence.
      destruct (proj1 U4) as [K|(K1 & b & Hb & K2 & K3)]; [by exists (lk w' a); auto|auto|].
      right. split; [tauto|]. exists b. split; [auto|]. split; [apply (Hok b Hb)|]. split; [by apply HO|done].
  - intros [(-> & Hx & -> & HT)|(Hn & a & Ha & Hpos & Hown & Hcov & Ht)].
    + destruct (proj2 U4) as (l & Hln & Hc & Htl); [auto|]. apply elem_values in Hln as (a & Ha & ->).
      exists a. split; [auto|]. split; [apply (U1 _ (Hnew a Ha))|]. split; [by apply U2, Hnew|done].
    + destruct (decide (a ∈ np ++ P ++ Q)) as [Hk|Hk].
      { exists a. rewrite (Hsame a Hk). rewrite !elem_of_app in Hk. split; [tauto|done]. }
      rewrite !elem_of_app in Hk. assert (a ∈ O) as HaO by tauto. pose proof (HO a HaO) as Ho.
      assert (o' = o) as -> by congruence.
      destruct (proj2 U4) as (l & Hln & Hc & Htl); [right; split; [tauto|]; by exists a|].
      apply elem_values in Hln as (b & Hb & ->).
      exists b. split; [auto|]. split; [apply (U1 _ (Hnew b Hb))|]. split; [by apply U2, Hnew|done].
Qed.
End Apply.

(** ** Mutual exclusion *)

(** Nobody has a lock on a byte that somebody else has locked for writing. *)
Definition exclusive (w : world) : Prop :=
  forall o o' x t, o <> o' -> held w o x F_WRLCK -> ~ held w o' x t.

Lemma find_None {A} (f : A -> bool) l : find f l = None -> forall x, x ∈ l -> f x = false.
Proof. intros H x Hx%list_elem_of_In. by eapply List.find_none. Qed.

(** What the search for a conflict shows when it finds none. *)
Lemma no_conflict w c o x t : let T := fl_type (lk w c) in T = F_RDLCK \/ T = F_WRLCK ->
  find (fun fl => is_posix (lk w fl) && posix_locks_conflict (lk w c) (lk w fl)) (i_flock w) = None ->
  o <> owner_of (lk w c) -> covers (lk w c) x -> held w o x t -> T = F_RDLCK /\ t <> F_WRLCK.
Proof.
  intros T HT Hf Ho Hx (a & Ha & Hpos & Hown & Hcov & Ht). pose proof (find_None _ _ Hf a Ha) as Hn. cbn in Hn.
  rewrite Hpos in Hn. unfold posix_locks_conflict in Hn. rewrite Hpos, same_owner_false in Hn by congruence.
  unfold covers, locks_overlap in *. cbn in Hn.
  rewrite (proj2 (Z.leb_le _ _)), (proj2 (Z.leb_le _ _)) in Hn by lia. cbn in Hn. unfold locks_conflict in Hn. fold T in Hn.
  destruct HT as [HT|HT]; rewrite HT in *; [|done]. split; [done|]. rewrite Z.eqb_refl, Ht in Hn.
  intros ->. done.
Qed.

Lemma apply_given w c n1 n2 o x t : loose w -> fresh_for w c n1 n2 -> request_ok (lk w c) ->
  held (posix_lock_apply n1 n2 c w) o x t ->
  held w o x t \/ (o = owner_of (lk w c) /\ covers (lk w c) x /\ t = fl_type (lk w c) /\ fl_type (lk w c) <> F_UNLCK).
Proof.
  intros Hw Hfresh Hreq H. apply apply_gives in H; try done. destruct H as [[-> [(H1 & H2 & H3)|H]]|H]; [by right|by left..].
Qed.

Lemma apply_exclusive w c n1 n2 : loose w -> fresh_for w c n1 n2 -> request_ok (lk w c) -> exclusive w ->
  (fl_type (lk w c) = F_UNLCK \/
   find (fun fl => is_posix (lk w fl) && posix_locks_conflict (lk w c) (lk w fl)) (i_flock w) = None) ->
  exclusive (posix_lock_apply n1 n2 c w).
Proof.
  intros Hw Hfresh Hreq Hex Hf o o' x t Hne H1 H2.
  apply (apply_given w c n1 n2 o x F_WRLCK) in H1; [|done..]. apply (apply_given w c n1 n2 o' x t) in H2; [|done..].
  destruct Hf as [HU|Hf]; [destruct H1 as [H1|(_ & _ & _ & ?)], H2 as [H2|(_ & _ & _ & ?)]; try done; by apply (Hex o o' x t)|].
  assert (fl_type (lk w c) <> F_UNLCK -> fl_type (lk w c) = F_RDLCK \/ fl_type (lk w c) = F_WRLCK) as Ht.
  { destruct Hreq as (_ & _ & _ & ?). tauto. }
  destruct H1 as [H1|(-> & Hx & HW & HT)], H2 as [H2|(-> & Hx' & _ & HT')]; [by apply (Hex o o' x t)| | |done].
  - destruct (no_conflict w c o x F_WRLCK (Ht HT') Hf) as [_ HR]; [done|done|done|]. done.
  - destruct (no_conflict w c o' x t (Ht HT) Hf) as [HR _]; [done|done|done|]. rewrite HR in HW. done.
Qed.

(** ** Closing a file *)
Lemma filter_ext (f g : Z -> bool) (l : list Z) : (forall x, x ∈ l -> f x = g x) ->
  filter (fun x => f x = true) l = filter (fun x => g x = true) l.
Proof.
  induction l as [|x l IH]; intros H; [done|]. rewrite !filter_cons, (H x) by (by left).
  rewrite IH; [done|]. intros y Hy. apply H. by right.
Qed.
Definition kept (owner : Z) (w : world) (a : Z) : bool := negb (is_posix (lk w a) && (fl_owner (lk w a) =? owner)).

Lemma remove_loop_spec owner rest : forall pre w, NoDup (pre ++ rest) ->
  let w' := remove_loop owner pre rest w in
  i_flock w' = pre ++ filter (fun a => kept owner w a = true) rest /\
  forall a, a ∈ i_flock w' -> lk w' a = lk w a.
Proof.
  induction rest as [|b rest IH]; intros pre w Hnd; cbn [remove_loop].
  { cbn. by rewrite app_nil_r. }
  destruct (is_posix (lk w b) && (fl_owner (lk w b) =? owner)) eqn:Eb.
  - destruct (IH pre (delete_lock b w)) as [H1 H2].
    { apply NoDup_app in Hnd as (D1 & D2 & D3). apply NoDup_cons in D3 as [_ D3]. apply NoDup_app.
      split_and!; [done| |done]. intros x Hx Hr. apply (D2 x Hx). by right. }
    assert (b ∉ pre ++ rest) as Hb.
    { rewrite elem_of_app. intros [Hb|Hb]; apply NoDup_app in Hnd as (D1 & D2 & D3).
      - apply (D2 b Hb). by left.
      - by apply NoDup_cons in D3 as [? _]. }
    assert (filter (fun a => kept owner (delete_lock b w) a = true) rest =
            filter (fun a => kept owner w a = true) rest) as Ef.
    { apply filter_ext. intros x Hx. unfold kept. rewrite lk_delete_lock; [done|].
      intros ->. apply Hb. rewrite elem_of_app. auto. }
    rewrite filter_cons_False by (unfold kept; by rewrite Eb). rewrite <- Ef. split; [done|].
    intros a Ha. rewrite (H2 a Ha). apply lk_delete_lock. intros ->. apply Hb. rewrite H1, elem_of_app in Ha.
    rewrite elem_of_app. destruct Ha as [|Ha]; [auto|]. apply list_elem_of_filter in Ha as [_ ?]. auto.
  - destruct (IH (pre ++ [b]) w) as [H1 H2]; [by rewrite <- app_assoc|].
    rewrite filter_cons_True by (unfold kept; by rewrite Eb). by rewrite <- app_assoc in H1.
Qed.

Lemma grouped_filter {A} `{EqDecision A} (P : A -> Prop) `{!forall x, Decision (P x)} (ks : list A) :
  grouped ks -> grouped (filter P ks).
Proof.
  induction ks as [|k ks IH]; [done|]. intros [H1 H2]. destruct (decide (P k)) as [Hk|Hk].
  - rewrite filter_cons_True by done. split; [auto|]. intros [_ Hin]%list_elem_of_filter.
    specialize (H2 Hin). destruct ks as [|k' ks]; [done|]. injection H2 as ->. by rewrite filter_cons_True.
  - rewrite filter_cons_False by done. auto.
Qed.

Lemma sorted_filter {A} (R : A -> A -> Prop) (P : A -> Prop) `{!forall x, Decision (P x)} (l : list A) :
  StronglySorted R l -> StronglySorted R (filter P l).
Proof.
  induction 1 as [|x l Hs IH Hx]; [constructor|]. destruct (decide (P x)) as [Hk|Hk].
  - rewrite filter_cons_True by done. constructor; [done|]. apply Forall_forall. rewrite Forall_forall in Hx.
    intros y [_ Hy]%list_elem_of_filter. auto.
  - by rewrite filter_cons_False.
Qed.

(** The owners that stay. *)
Definition stays (owner : Z) (o : Z * Z) : Prop := o.1 <> owner.
#[global] Instance stays_dec owner o : Decision (stays owner o).
Proof. unfold stays. apply _. Defined.

Lemma filter_values w owner (ps : list Z) : Forall lock_ok (lk w <$> ps) ->
  lk w <$> filter (fun a => kept owner w a = true) ps = filter (fun l => stays owner (owner_of l)) (lk w <$> ps).
Proof.
  induction ps as [|a ps IH]; [done|]. cbn [fmap list_fmap]. intros [Ha Hps]%Forall_cons.
  assert (kept owner w a = negb (fl_owner (lk w a) =? owner)) as Ek by (unfold kept; by rewrite (proj1 Ha)).
  destruct (Z.eqb_spec (fl_owner (lk w a)) owner) as [E|E]; cbn in Ek.
  - rewrite filter_cons_False by (by rewrite Ek). rewrite filter_cons_False; [auto|]. by intros H.
  - rewrite filter_cons_True by done. rewrite filter_cons_True by done. cbn. by rewrite IH.
Qed.

Lemma filter_owners owner (ls : list file_lock) :
  owner_of <$> filter (fun l => stays owner (owner_of l)) ls = filter (stays owner) (owner_of <$> ls).
Proof.
  induction ls as [|l ls IH]; [done|]. cbn [fmap list_fmap]. rewrite !filter_cons.
  destruct (decide (stays owner (owner_of l))); cbn; by rewrite IH.
Qed.

Lemma list_ok_filter owner (ls : list file_lock) : list_ok ls -> list_ok (filter (fun l => stays owner (owner_of l)) ls).
Proof.
  intros [H1 H2 H3]. split.
  - apply Forall_forall. rewrite Forall_forall in H1. intros l [_ Hl]%list_elem_of_filter. auto.
  - by apply sorted_filter.
  - rewrite filter_owners. by apply grouped_filter.
Qed.

Lemma remove_world_ok owner w : world_ok w -> world_ok (locks_remove_posix owner w).
Proof.
  intros (Hnd & np & ps & E & Hnp & Hps). unfold locks_remove_posix.
  destruct (remove_loop_spec owner (i_flock w) [] w Hnd) as [H1 H2]. cbn in H1.
  set (w' := remove_loop _ _ _ _) in *.
  assert (forall xs, Forall (fun a => a ∈ i_flock w') xs -> lk w' <$> xs = lk w <$> xs) as Hv.
  { induction 1 as [|x xs Hx _ IH]; [done|]. cbn. by rewrite H2, IH. }
  split; [rewrite H1; by apply NoDup_filter|].
  exists np, (filter (fun a => kept owner w a = true) ps).
  assert (filter (fun a => kept owner w a = true) np = np) as En.
  { clear -Hnp. induction Hnp as [|a np Ha _ IH]; [done|]. rewrite filter_cons_True; [by rewrite IH|].
    unfold kept. by rewrite Ha. }
  assert (i_flock w' = np ++ filter (fun a => kept owner w a = true) ps) as Ei.
  { by rewrite H1, E, filter_app, En. }
  split; [done|]. split.
  - rewrite Forall_forall in *. intros a Ha. rewrite H2; [auto|]. rewrite Ei, elem_of_app. auto.
  - rewrite Hv by (apply Forall_forall; intros x Hx; rewrite Ei, elem_of_app; auto).
    rewrite filter_values by apply Hps. by apply list_ok_filter.
Qed.

Lemma remove_held owner w o x t : NoDup (i_flock w) ->
  held (locks_remove_posix owner w) o x t <-> o.1 <> owner /\ held w o x t.
Proof.
  intros Hnd. unfold locks_remove_posix. destruct (remove_loop_spec owner (i_flock w) [] w Hnd) as [H1 H2]. cbn in H1.
  set (w' := remove_loop _ _ _ _) in *. unfold held. split.
  - intros (a & Ha & Hrest). pose proof Ha as Ha'. rewrite H2 in Hrest by done. rewrite H1 in Ha'.
    apply list_elem_of_filter in Ha' as [Hk Ha']. destruct Hrest as (Hp & Ho & Hrest). split.
    + unfold kept in Hk. rewrite Hp in Hk. intros Eo. subst o. cbn in Eo. by rewrite Eo, Z.eqb_refl in Hk.
    + exists a. auto.
  - intros (Hne & a & Ha & Hp & Ho & Hrest). assert (a ∈ i_flock w') as Ha'.
    { rewrite H1. apply list_elem_of_filter. split; [|done]. unfold kept. rewrite Hp. subst o. cbn in Hne.
      by rewrite (proj2 (Z.eqb_neq _ _) Hne). }
    exists a. by rewrite H2.
Qed.

(** ** Steps *)

(** The structure of the call is freed when it returns. *)
Definition leave (c : Z) (r : result) (w : world) : world :=
  match r with Returns _ => w <| locks := delete c (locks w) |> | Sleeps => w end.

(** What processes do with the locks of the inode: a request, its continuation after a sleep, and a close.
    [c] is the structure of the request, [n1] and [n2] are those that [posix_lock_file] allocates. [may]
    says which requests are made. *)
Inductive lock_step (may : world -> file_lock -> Prop) : world -> world -> Prop :=
  | step_request w c n1 n2 l wait r w' :
      let w0 := set_lk c l w in
      locks w !! c = None -> locks w !! n1 = None -> locks w !! n2 = None -> fresh_for w c n1 n2 ->
      request_ok l -> may w0 l ->
      posix_lock_start (Some n1) (Some n2) c wait w0 = Some (r, w') -> lock_step may w (leave c r w')
  | step_resume w c n1 n2 signal r w' :
      locks w !! n1 = None -> locks w !! n2 = None -> fresh_for w c n1 n2 ->
      request_ok (lk w c) -> may w (lk w c) ->
      posix_lock_resume n1 n2 c signal w = Some (r, w') -> lock_step may w (leave c r w')
  | step_close w owner : lock_step may w (locks_remove_posix owner w).
Definition any_request (w : world) (l : file_lock) : Prop := True.

(** Two worlds with the same locks. *)
Definition same_locks (w w' : world) : Prop :=
  i_flock w' = i_flock w /\ forall a, a ∈ i_flock w -> lk w' a = lk w a.

Lemma same_held w w' o x t : same_locks w w' -> held w' o x t <-> held w o x t.
Proof.
  intros [E H]. unfold held. rewrite E. split; intros (a & Ha & K); exists a; (split; [done|]);
    [rewrite H in K|rewrite H]; done.
Qed.
Lemma same_world_ok w w' : same_locks w w' -> world_ok w -> world_ok w'.
Proof.
  intros [E H] (Hnd & np & ps & Ei & Hnp & Hps). split; [by rewrite E|]. exists np, ps. split; [by rewrite E|].
  assert (forall xs, Forall (fun a => a ∈ i_flock w) xs -> lk w' <$> xs = lk w <$> xs) as Hv.
  { induction 1 as [|x xs Hx _ IH]; [done|]. cbn. by rewrite H, IH. }
  split.
  - rewrite Forall_forall in *. intros a Ha. rewrite H; [auto|]. rewrite Ei, elem_of_app. auto.
  - rewrite Hv; [done|]. apply Forall_forall. intros x Hx. rewrite Ei, elem_of_app. auto.
Qed.
Lemma same_exclusive w w' : same_locks w w' -> exclusive w -> exclusive w'.
Proof. intros Hs He o o' x t Hne H1 H2. rewrite !(same_held w w') in * by done. by apply (He o o' x t). Qed.

(** The waiting lists are not the locks. *)
Lemma delete_block_same c w : same_locks w (locks_delete_block c w).
Proof.
  split; [unfold locks_delete_block; by destruct (fl_next w !! c)|]. intros a _. unfold lk. by rewrite delete_block_locks.
Qed.
Lemma insert_block_same b c w : same_locks w (locks_insert_block b c w).
Proof.
  unfold locks_insert_block. destruct (fl_next w !! c) eqn:E; [|done].
  destruct (delete_block_same c w) as [H1 H2]. split; [exact H1|]. intros a Ha. exact (H2 a Ha).
Qed.

Lemma same_loose w w' : same_locks w w' -> loose w -> loose w'.
Proof.
  intros [E H] (Hnd & np & ps & Ei & Hnp & Hps). split; [by rewrite E|]. exists np, ps. split; [by rewrite E|].
  rewrite Forall_forall in *. split; [|apply Forall_forall]; intros a Ha; (rewrite H; [auto|]); rewrite Ei, elem_of_app; auto.
Qed.
Lemma same_end w w' l : same_locks w w' -> end_ok w l -> end_ok w' l.
Proof.
  intros [E H] [|Hall]; [by left|]. right. rewrite E. rewrite Forall_forall in *. intros a Ha. rewrite H by done. auto.
Qed.

(** The branches of a call: nothing changes on the list, or the lock is applied. *)
Lemma try_cases n1 n2 c wait w r w' : posix_lock_try n1 n2 c wait w = Some (r, w') ->
  (r <> Returns 0 /\ same_locks w w' /\ fl_type (lk w c) <> F_UNLCK /\
    exists fl, fl ∈ i_flock w /\ is_posix (lk w fl) && posix_locks_conflict (lk w c) (lk w fl) = true) \/
  (r = Returns 0 /\ w' = posix_lock_apply n1 n2 c w /\ (fl_type (lk w c) = F_UNLCK \/
    find (fun fl => is_posix (lk w fl) && posix_locks_conflict (lk w c) (lk w fl)) (i_flock w) = None)).
Proof.
  intros H. unfold posix_lock_try in H. destruct (Z.eqb_spec (fl_type (lk w c)) F_UNLCK) as [HU|HU].
  - injection H as <- <-. right. auto.
  - destruct (find _ _) as [fl|] eqn:Ef; [left|right; injection H as <- <-; auto].
    assert (r <> Returns 0 /\ same_locks w w') as [H1 H2].
    { destruct (negb wait); [by injection H as <- <-|].
      destruct (posix_locks_deadlock _ _ _ _ _ _) as [[]|]; [| |done]; injection H as <- <-; [done|].
      split; [done|apply insert_block_same]. }
    apply List.find_some in Ef as [Hin Hc]. split_and!; try done. exists fl. by rewrite list_elem_of_In.
Qed.
Lemma try_fresh n1 n2 c wait w r w' : loose w -> fresh_for w c n1 n2 -> request_ok (lk w c) ->
  posix_lock_try n1 n2 c wait w = Some (r, w') -> loose w' /\ (c ∉ i_flock w').
Proof.
  intros Hw Hf Hreq [(_ & Hs & _)|(_ & -> & _)]%try_cases; [|by apply apply_loose].
  split; [by eapply same_loose|]. rewrite (proj1 Hs). apply Hf.
Qed.
Lemma leave_same c r w : c ∉ i_flock w -> same_locks w (leave c r w).
Proof. intros Hc. destruct r; [|done]. split; [done|]. intros a Ha. unfold leave, lk. cbn. apply at_delete_ne. congruence. Qed.

Lemma set_new_same c l w : c ∉ i_flock w -> same_locks w (set_lk c l w).
Proof. intros Hc. split; [done|]. intros a Ha. apply lk_set_ne. congruence. Qed.

(** A property of the list of locks that a call and a close keep holds at every step. *)
Section Kept.
Context (may : world -> file_lock -> Prop) (I : world -> Prop).
Hypothesis Hloose : forall w, I w -> loose w.
Hypothesis Hsame : forall w w', same_locks w w' -> I w -> I w'.
Hypothesis Hmay : forall w w' l, same_locks w w' -> may w l -> may w' l.
Hypothesis Htry : forall n1 n2 c wait w r w', I w -> fresh_for w c n1 n2 -> request_ok (lk w c) -> may w (lk w c) ->
  posix_lock_try n1 n2 c wait w = Some (r, w') -> I w'.
Hypothesis Hclose : forall owner w, I w -> I (locks_remove_posix owner w).

Lemma try_leave n1 n2 c wait w r w' : I w -> fresh_for w c n1 n2 -> request_ok (lk w c) -> may w (lk w c) ->
  posix_lock_try n1 n2 c wait w = Some (r, w') -> I (leave c r w').
Proof.
  intros Hw Hf Hreq Hm H. eapply Hsame; [apply leave_same|by eapply Htry].
  eapply try_fresh; [by apply Hloose|exact Hf|exact Hreq|exact H].
Qed.

Lemma lock_step_keeps w w' : lock_step may w w' -> I w -> I w'.
Proof.
  intros H Hg. destruct H as [w c n1 n2 l wait r w' w0 _ _ _ Hf Hreq Hend H|w c n1 n2 signal r w' _ _ Hf Hreq Hend H|w owner].
  - pose proof (set_new_same c l w (proj1 Hf)) as Hs. cbn in H.
    assert (Ec : lk w0 c = l) by apply lk_set_eq. apply (try_leave n1 n2 c wait w0); [by eapply Hsame|done|by rewrite Ec|by rewrite Ec|exact H].
  - pose proof (delete_block_same c w) as Hs. unfold posix_lock_resume in H.
    assert (lk (locks_delete_block c w) c = lk w c) as Ec by (unfold lk; by rewrite delete_block_locks).
    assert (fresh_for (locks_delete_block c w) c n1 n2) as Hf' by (unfold fresh_for in *; by rewrite (proj1 Hs)).
    destruct signal.
    + injection H as <- <-. eapply Hsame; [apply leave_same, Hf'|by eapply Hsame].
    + apply (try_leave n1 n2 c true (locks_delete_block c w)); [by eapply Hsame|exact Hf'|by rewrite Ec|rewrite Ec; by eapply Hmay|exact H].
  - by apply Hclose.
Qed.
Lemma lock_steps_keep w w' : rtc (lock_step may) w w' -> I w -> I w'.
Proof. induction 1 as [|x y z Hxy _ IH]; [done|]. intros Hx. apply IH. by eapply lock_step_keeps. Qed.
End Kept.

Lemma remove_loose owner w : loose w -> loose (locks_remove_posix owner w).
Proof.
  intros (Hnd & np & ps & E & Hnp & Hps). unfold locks_remove_posix.
  destruct (remove_loop_spec owner (i_flock w) [] w Hnd) as [H1 H2]. cbn in H1. set (w' := remove_loop _ _ _ _) in *.
  rewrite E, filter_app in H1. split; [rewrite H1, <- filter_app, <- E; by apply NoDup_filter|].
  do 2 eexists. split; [exact H1|]. rewrite H1 in H2. rewrite Forall_forall in *.
  split; [|apply Forall_forall]; intros a Ha; (rewrite H2; [|rewrite elem_of_app; auto]); apply list_elem_of_filter in Ha as [_ Ha]; auto.
Qed.

(** Exclusion holds with any requests, the order of the list with those that [end_ok] admits. *)
Definition separate (w : world) : Prop := loose w /\ exclusive w.
Lemma any_steps_separate w w' : rtc (lock_step any_request) w w' -> separate w -> separate w'.
Proof.
  apply lock_steps_keep; try done.
  - intros v [H _]. done.
  - intros v v' Hs [H1 H2]. split; [by eapply same_loose|by eapply same_exclusive].
  - intros n1 n2 c wait v r v' [H1 H2] Hf Hreq _ H. split; [by eapply (try_fresh n1 n2 c wait v r v')|].
    apply try_cases in H as [(_ & Hs & _)|(_ & -> & Hc)]; [by eapply same_exclusive|by apply apply_exclusive].
  - intros owner v [H1 H2]. split; [by apply remove_loose|]. intros o o' x t Hne K1 K2.
    rewrite !remove_held in * by apply H1. destruct K1 as [_ K1], K2 as [_ K2]. by apply (H2 o o' x t).
Qed.
Lemma end_steps_ok w w' : rtc (lock_step end_ok) w w' -> world_ok w -> world_ok w'.
Proof.
  apply lock_steps_keep.
  - apply world_loose.
  - apply same_world_ok.
  - apply same_end.
  - intros n1 n2 c wait v r v' Hw Hf Hreq Hend H.
    apply try_cases in H as [(_ & Hs & _)|(_ & -> & Hc)]; [by eapply same_world_ok|by apply apply_world_ok].
  - apply remove_world_ok.
Qed.
Lemma empty_ok w : i_flock w = [] -> world_ok w /\ exclusive w.
Proof.
  intros E. split.
  - split; [rewrite E; constructor|]. exists [], []. split; [by rewrite E|]. split; [constructor|].
    split; constructor.
  - intros o o' x t _ (a & Ha & _). rewrite E in Ha. by apply elem_of_nil in Ha.
Qed.

(** ** Deadlocks *)

(** The owner that [o] waits for: the one of the lock that blocks the first blocked request of [o]. *)
Definition wait_next (w : world) (o : Z * Z) : option (Z * Z) :=
  (fun a => owner_of (lk w (default 0 (fl_next w !! a)))) <$>
  find (fun a => (fl_owner (lk w a) =? o.1) && (fl_pid (lk w a) =? o.2)) (blocked_list w).
Definition waits_for (w : world) (o o' : Z * Z) : Prop := wait_next w o = Some o'.
(** Nobody waits for himself, directly or through others. *)
Definition no_deadlock (w : world) : Prop := forall o, ~ tc (waits_for w) o o.

Lemma deadlock_eq n w (c b : Z * Z) : posix_locks_deadlock (Datatypes.S n) w c.1 c.2 b.1 b.2 =
  if decide (c = b) then Some true
  else match wait_next w b with
       | Some b' => posix_locks_deadlock n w c.1 c.2 b'.1 b'.2
       | None => Some false
       end.
Proof.
  destruct c as [co cp], b as [bo bp]. cbn [posix_locks_deadlock fst snd]. unfold wait_next. cbn [fst snd].
  destruct (decide ((co, cp) = (bo, bp))) as [[= -> ->]|Hne].
  - by rewrite !Z.eqb_refl.
  - assert ((co =? bo) && (cp =? bp) = false) as ->.
    { destruct (Z.eqb_spec co bo) as [->|]; [|done]. destruct (Z.eqb_spec cp bp) as [->|]; done. }
    by destruct (find _ _).
Qed.

Lemma waiting_blocked w o o' : waits_for w o o' -> o ∈ (fun a => owner_of (lk w a)) <$> blocked_list w.
Proof.
  unfold waits_for, wait_next. intros (a & Hf & _)%fmap_Some. apply List.find_some in Hf as [Hin He].
  apply andb_true_iff in He as [E1%Z.eqb_eq E2%Z.eqb_eq]. apply list_elem_of_fmap. exists a.
  split; [|by apply list_elem_of_In]. unfold owner_of. rewrite E1, E2. by destruct o.
Qed.

(** The search follows a path without repetition, so that it ends. *)
Lemma deadlock_path w c : no_deadlock w -> forall n b seen, NoDup seen ->
  (forall s, s ∈ seen -> tc (waits_for w) s b) -> (length seen + n = Datatypes.S (length (blocked_list w)))%nat ->
  exists r, posix_locks_deadlock n w c.1 c.2 b.1 b.2 = Some r /\ (r = true <-> rtc (waits_for w) b c).
Proof.
  intros Hno. induction n as [|n IH]; intros b seen Hnd Hseen Hlen.
  - exfalso. assert (length seen <= length (blocked_list w))%nat; [|lia].
    rewrite <- (length_fmap (fun a => owner_of (lk w a))). apply submseteq_length, NoDup_submseteq; [done|].
    intros s Hs. destruct (Hseen s Hs) as [x y Hy|x y z Hy _]; by eapply waiting_blocked.
  - rewrite deadlock_eq. destruct (decide (c = b)) as [->|Hne]; [by exists true|].
    destruct (wait_next w b) as [b'|] eqn:Eb.
    + destruct (IH b' (b :: seen)) as (r & E & Hr).
      * apply NoDup_cons. split; [|done]. intros Hin. by apply (Hno b), Hseen.
      * intros s [->|Hs]%elem_of_cons; [by apply tc_once|]. eapply tc_r; [by apply Hseen|done].
      * cbn. lia.
      * exists r. split; [done|]. rewrite Hr. split.
        { intros H. by eapply rtc_l. }
        intros H. inversion H as [|? y ? Hy H']; [by subst|]. subst.
        unfold waits_for in Hy. rewrite Eb in Hy. by injection Hy as ->.
    + exists false. split; [done|]. split; [done|]. intros H. inversion H as [|? y ? Hy H']; [by subst|]. subst.
      unfold waits_for in Hy. by rewrite Eb in Hy.
Qed.

Section Block.
Context (w : world) (fl c : Z).
Let w' := locks_insert_block fl c w.
Let oc := owner_of (lk w c).
Let ob := owner_of (lk w fl).
(** "A task can only be on one lock's wait queue at a time." *)
Hypothesis Hone : wait_next w oc = None.
Hypothesis Hnot : fl_next w !! c = None.
Hypothesis Hfree : c ∉ blocked_list w.

Lemma wait_next_blocked o : wait_next w' o = if decide (o = oc) then Some ob else wait_next w o.
Proof.
  unfold w', locks_insert_block. rewrite Hnot. unfold wait_next, lk. cbn [fl_next blocked_list locks update find].
  change (at_ (locks w)) with (lk w). destruct (decide (o = oc)) as [->|Hne].
  - unfold oc at 1 2. cbn [fst snd owner_of]. rewrite !Z.eqb_refl. cbn. by rewrite lookup_insert_eq.
  - assert ((fl_owner (lk w c) =? o.1) && (fl_pid (lk w c) =? o.2) = false) as ->.
    { apply not_true_is_false. intros [E1%Z.eqb_eq E2%Z.eqb_eq]%andb_true_iff. apply Hne. unfold oc, owner_of.
      rewrite E1, E2. by destruct o. }
    destruct (find _ (blocked_list w)) as [a|] eqn:Ef; [|done]. cbn. rewrite lookup_insert_ne; [done|].
    intros ->. apply List.find_some in Ef as [Hin _]. by apply Hfree, list_elem_of_In.
Qed.

Lemma waits_blocked o o' : waits_for w' o o' <-> (o = oc /\ o' = ob) \/ waits_for w o o'.
Proof.
  unfold waits_for. rewrite wait_next_blocked. destruct (decide (o = oc)) as [->|]; [|naive_solver].
  rewrite Hone. naive_solver.
Qed.

Lemma path_to_caller x : rtc (waits_for w') x oc -> rtc (waits_for w) x oc.
Proof.
  assert (forall x y, rtc (waits_for w') x y -> y = oc -> rtc (waits_for w) x y) as H; [|intros; by apply H].
  clear x. induction 1 as [x|x y z Hxy _ IH]; intros Hz; [done|]. specialize (IH Hz).
  apply waits_blocked in Hxy as [[-> _]|Hxy]; [by rewrite Hz|]. by eapply rtc_l.
Qed.

Lemma block_no_deadlock : no_deadlock w -> ~ rtc (waits_for w) ob oc -> no_deadlock w'.
Proof.
  intros Hno Hpath.
  assert (forall x y, rtc (waits_for w) x y -> rtc (waits_for w') x y) as Hmono.
  { intros x y. apply rtc_subrel. intros ? ? ?. apply waits_blocked. auto. }
  assert (forall x y, tc (waits_for w') x y -> tc (waits_for w) x y \/ (rtc (waits_for w) x oc /\ rtc (waits_for w') ob y)) as H.
  { induction 1 as [x y Hxy|x y z Hxy Hyz IH].
    - apply waits_blocked in Hxy as [[-> ->]|Hxy]; [right; by split|left; by apply tc_once].
    - apply waits_blocked in Hxy as [[-> ->]|Hxy].
      + right. split; [done|]. by apply tc_rtc.
      + destruct IH as [IH|[IH1 IH2]]; [left; by eapply tc_l|]. right. split; [by eapply rtc_l|done]. }
  intros o [Ho|[H1 H2]]%H; [by apply (Hno o)|]. apply Hpath, path_to_caller. by transitivity o; [|apply Hmono].
Qed.
End Block.

(** ** What the code promises *)
#[global] Instance result_eq_dec : EqDecision result.
Proof. solve_decision. Defined.
#[global] Instance covers_dec l x : Decision (covers l x).
Proof. unfold covers. apply _. Defined.

(** The other owners' locks leave the type [t] free on the bytes of [l]. *)
Definition compatible (w : world) (l : file_lock) : Prop :=
  forall o x t, o <> owner_of l -> covers l x -> held w o x t -> fl_type l = F_UNLCK \/ (fl_type l = F_RDLCK /\ t <> F_WRLCK).

Lemma try_compatible n1 n2 c wait w r w' : world_ok w -> request_ok (lk w c) ->
  posix_lock_try n1 n2 c wait w = Some (r, w') -> (r = Returns 0 <-> compatible w (lk w c)).
Proof.
  intros Hw Hreq [(Hr & _ & HT & fl & Hin & Hc)|(-> & _ & Hc)]%try_cases.
  - split; [done|]. intros Hcomp. exfalso. apply andb_true_iff in Hc as [Hp Hc]. unfold posix_locks_conflict in Hc. rewrite Hp in Hc.
    destruct (locks_same_owner _ _) eqn:Eo; [done|]. cbn [negb orb] in Hc.
    destruct (locks_overlap _ _) eqn:Ev; [|done]. cbn [negb] in Hc. unfold locks_overlap in Ev. bool_hyps.
    assert (lock_ok (lk w fl)) as (_ & K & _).
    { destruct Hw as (_ & np & ps & E & Hnp & [Hok _ _]). rewrite Forall_fmap, Forall_forall in Hok. rewrite Forall_forall in Hnp.
      rewrite E, elem_of_app in Hin. destruct Hin as [Hin|Hin]; [by rewrite Hnp in Hp|by apply Hok]. }
    destruct Hreq as (_ & R1 & _). set (x := Z.max (fl_start (lk w c)) (fl_start (lk w fl))).
    destruct (Hcomp (owner_of (lk w fl)) x (fl_type (lk w fl))) as [?|[HR HW]]; [|unfold covers; lia| |done|].
    + intros E. by rewrite same_owner_true in Eo.
    + exists fl. split_and!; try done; unfold covers, x; lia.
    + unfold locks_conflict in Hc. rewrite HR, Z.eqb_refl in Hc. by apply Z.eqb_eq in Hc.
  - split; [|done]. intros _ o x t Ho Hx Hh. destruct (decide (fl_type (lk w c) = F_UNLCK)) as [|HT]; [by left|].
    destruct Hc as [|Hc]; [done|]. right. eapply no_conflict; try done. destruct Hreq as (_ & _ & _ & ?). tauto.
Qed.

(** The search for a deadlock ends, and so does the call. *)
Lemma try_returns n1 n2 c wait w : (wait = true -> no_deadlock w) -> exists r w', posix_lock_try n1 n2 c wait w = Some (r, w').
Proof.
  intros Hno. unfold posix_lock_try. destruct (if _ =? _ then None else _) as [fl|]; [|by eauto].
  destruct wait; [|by eexists _, _]. cbn [negb].
  destruct (deadlock_path w (owner_of (lk w c)) (Hno eq_refl) (Datatypes.S (length (blocked_list w))) (owner_of (lk w fl)) [])
    as ([] & E & _); [constructor|by intros s ?%elem_of_nil|done|..]; cbn [owner_of fst snd] in E; rewrite E; eauto.
Qed.

(** C5. One turn of [posix_lock_file], from the search for a conflict on. It is given a valid request, the
    structures that the call allocated, a list with the POSIX locks at its end in any order, and, if the caller may wait, no
    cycle of waiters. (1) The call ends. (2) Nobody gets a lock that he did not have, except for the
    owner of the request, after a success, what he asked for. (3) No other owner loses anything. (4) When the
    list is in order ([world_ok]: grouped by owner, sorted, without overlaps, adjacent locks of one type
    merged), the call succeeds exactly when no other owner has a conflicting lock on one of the bytes.
    (5) When the list is in order and the request is not a read or write lock up to OFFSET_MAX whose owner has a lock
    of that type that ends at or after the byte before it ([end_ok]; there [fl_end + 1] overflows, see
    [unlock_leaves_lock]), then after a success the owner has exactly the new type, or nothing after an
    unlock, on the bytes of the request, everything else is as it was, whatever was merged, cut, split or
    replaced, and the list is in order again; after a failure or a sleep nothing has changed. *)
Theorem posix_lock_correct w c n1 n2 wait : loose w -> fresh_for w c n1 n2 -> request_ok (lk w c) ->
  (wait = true -> no_deadlock w) ->
  exists r w', posix_lock_try n1 n2 c wait w = Some (r, w') /\
  (forall o x t, held w' o x t -> held w o x t \/
     (r = Returns 0 /\ o = owner_of (lk w c) /\ covers (lk w c) x /\ t = fl_type (lk w c) /\ t <> F_UNLCK)) /\
  (forall o x t, o <> owner_of (lk w c) -> held w o x t -> held w' o x t) /\
  (world_ok w -> (r = Returns 0 <-> compatible w (lk w c))) /\
  (world_ok w -> end_ok w (lk w c) -> world_ok w' /\ forall o x t, held w' o x t <->
     if decide (r = Returns 0 /\ o = owner_of (lk w c) /\ covers (lk w c) x)
     then t = fl_type (lk w c) /\ t <> F_UNLCK else held w o x t).
Proof.
  intros Hw Hf Hreq Hno. destruct (try_returns n1 n2 c wait w Hno) as (r & w' & H). exists r, w'. split; [done|].
  assert (Hc : world_ok w -> (r = Returns 0 <-> compatible w (lk w c))) by (intros; by eapply try_compatible).
  apply try_cases in H as [(Hr & Hs & _)|(-> & -> & _)].
  - split_and!; [|..|done|].
    + intros o x t. rewrite (same_held w w') by done. auto.
    + intros o x t _. by rewrite (same_held w w').
    + intros Hwo _. split; [by eapply same_world_ok|]. intros o x t. rewrite (same_held w w') by done. by rewrite decide_False by tauto.
  - split_and!; [|..|done|].
    + intros o x t [?|(-> & H1 & -> & H2)]%apply_given; [by left|by right|done..].
    + intros o x t Ho. by apply apply_others.
    + intros Hwo Hend. split; [by apply apply_world_ok|]. intros o x t. rewrite apply_held by done.
      unfold covers. destruct (decide _) as [(_ & -> & Hx)|Hn]; naive_solver.
Qed.

(** C6. Mutual exclusion: starting with an unlocked file, whatever requests, unlocks, sleeps, signals and
    closes follow, also requests up to OFFSET_MAX, a byte that one owner has locked for writing is not
    locked by any other owner. As long as none of the requests is one that [end_ok] excludes (a read or
    write lock up to OFFSET_MAX by an owner who has a lock of that type that ends at or after the byte before
    it), the list of locks is also in order. *)
Theorem posix_locks_exclusive w0 w : i_flock w0 = [] ->
  (rtc (lock_step any_request) w0 w -> exclusive w) /\ (rtc (lock_step end_ok) w0 w -> exclusive w /\ world_ok w).
Proof.
  intros E. destruct (empty_ok w0 E) as [H1 H2].
  assert (Hany : rtc (lock_step any_request) w0 w -> exclusive w).
  { intros Hr. eapply any_steps_separate in Hr; [apply Hr|]. split; [by apply world_loose|done]. }
  split; [done|]. intros Hr. split; [|by eapply end_steps_ok]. apply Hany. revert Hr. apply rtc_subrel.
  intros x y [w1 c n1 n2 l wait r w' w2 A1 A2 A3 A4 A5 _ A6|w1 c n1 n2 signal r w' A1 A2 A3 A4 _ A5|w1 owner].
  - by apply (step_request _ w1 c n1 n2 l wait).
  - by apply (step_resume _ w1 c n1 n2 signal).
  - apply step_close.
Qed.

(** C29. [posix_locks_deadlock]: as long as nobody waits for himself, the search ends, and it reports a
    deadlock exactly when the owner of the blocking lock waits, directly or through others, for the
    caller; and a caller that sleeps after a negative answer, and did not wait before, closes no cycle. *)
Theorem posix_deadlock_exact w c fl : no_deadlock w ->
  exists r, posix_locks_deadlock (Datatypes.S (length (blocked_list w))) w
      (fl_owner (lk w c)) (fl_pid (lk w c)) (fl_owner (lk w fl)) (fl_pid (lk w fl)) = Some r /\
    (r = true <-> rtc (waits_for w) (owner_of (lk w fl)) (owner_of (lk w c))) /\
    (r = false -> wait_next w (owner_of (lk w c)) = None -> fl_next w !! c = None -> (c ∉ blocked_list w) ->
      no_deadlock (locks_insert_block fl c w)).
Proof.
  intros Hno. destruct (deadlock_path w (owner_of (lk w c)) Hno (Datatypes.S (length (blocked_list w)))
    (owner_of (lk w fl)) []) as (r & E & Hr).
  - constructor.
  - by intros s ?%elem_of_nil.
  - done.
  - exists r. split; [done|]. split; [done|]. intros -> H1 H2 H3. apply block_no_deadlock; try done.
    by intros Hp%Hr.
Qed.

Lemma s64_cases z : -9223372036854775808 <= z < 18446744073709551616 ->
  (z <= 9223372036854775807 /\ s64 z = z) \/ (9223372036854775807 < z /\ s64 z = z - 18446744073709551616).
Proof.
  intros Hz. unfold s64. destruct (decide (z <= 9223372036854775807)).
  - left. rewrite Z.mod_small; lia.
  - right. split; [lia|]. rewrite <- (Z.mod_unique _ _ 1 (z + 9223372036854775808 - 18446744073709551616)); lia.
Qed.

(** [flock64_to_posix_lock] never wraps around: a request that is accepted names the bytes from the base
    plus the start on, [l_len] of them or up to the end, and is one that [posix_lock_file] can apply. *)
Theorem flock64_exact c l k : 0 <= c_pos c <= OFFSET_MAX -> 0 <= c_size c <= OFFSET_MAX ->
  - OFFSET_MAX - 1 <= l_start l <= OFFSET_MAX -> l_len l <= OFFSET_MAX ->
  flock64_to_posix_lock c l = inr k ->
  request_ok k /\ exists base, whence_start (l_whence l) (c_pos c) (c_size c) = Some base /\
    fl_start k = base + l_start l /\ fl_type k = l_type l /\ owner_of k = (c_files c, c_pid c) /\
    fl_end k = if l_len l =? 0 then OFFSET_MAX else base + l_start l + l_len l - 1.
Proof.
  intros Hp Hs Hst Hlen H. unfold flock64_to_posix_lock in H.
  destruct (whence_start _ _ _) as [base|] eqn:Eb; [|done].
  assert (0 <= base <= OFFSET_MAX) as Hb.
  { unfold whence_start in Eb. destruct (_ =? 0) in Eb; [injection Eb as <-; unfold OFFSET_MAX; lia|].
    destruct (_ =? 1) in Eb; [by injection Eb as <-|]. destruct (_ =? 2) in Eb; [by injection Eb as <-|done]. }
  pose proof (s64_cases (base + l_start l)) as C1. set (start := s64 (base + l_start l)) in *.
  destruct (Z.ltb_spec start 0); [discriminate H|]. destruct (Z.ltb_spec (l_len l) 0); [discriminate H|]. cbn [orb] in H.
  pose proof (s64_cases (start + l_len l - 1)) as C2. set (e := s64 (start + l_len l - 1)) in *.
  destruct ((0 <? l_len l) && (e <? 0)) eqn:Ee; [discriminate H|]. destruct (lock_type_ok _) eqn:Et; [|done].
  injection H as <-. unfold OFFSET_MAX in *. apply andb_false_iff in Ee. rewrite Z.ltb_ge, Z.ltb_ge in Ee.
  assert (start = base + l_start l) as Es by lia.
  split.
  - split; [done|]. cbn. unfold OFFSET_MAX. split_and!; [lia|destruct (Z.eqb_spec (l_len l) 0); lia..|].
    unfold lock_type_ok in Et. bool_hyps. lia.
  - exists base. cbn. split_and!; try done. destruct (Z.eqb_spec (l_len l) 0); lia.
Qed.

(** ** Concrete runs *)
Definition empty_world : world := World ∅ [] ∅ ∅ [] [].

(** A request with fresh structures, as a function. *)
Definition request (c n1 n2 : Z) (l : file_lock) (wait : bool) (w : world) : world :=
  match posix_lock_start (Some n1) (Some n2) c wait (set_lk c l w) with
  | Some (r, w') => leave c r w'
  | None => w
  end.
Definition unused (w : world) (a : Z) : bool := bool_decide (locks w !! a = None) && bool_decide (a ∉ i_flock w).

Lemma request_step (may : world -> file_lock -> Prop) c n1 n2 l wait w : unused w c && unused w n1 && unused w n2 = true ->
  n1 <> n2 /\ n1 <> c /\ n2 <> c -> request_ok l -> may (set_lk c l w) l ->
  posix_lock_start (Some n1) (Some n2) c wait (set_lk c l w) <> None ->
  lock_step may w (request c n1 n2 l wait w).
Proof.
  unfold unused. intros Hu Hne Hreq Hend Hs. rewrite !andb_true_iff, !bool_decide_eq_true in Hu.
  unfold request. destruct (posix_lock_start _ _ _ _ _) as [[r w']|] eqn:E; [|done].
  eapply (step_request _ w c n1 n2 l wait r w'); try done; try tauto.
  unfold fresh_for. tauto.
Qed.

Definition write_0_9 : file_lock := Lock 1 1 1 FL_POSIX F_WRLCK 0 9.
Definition read_3_5 : file_lock := Lock 1 1 1 FL_POSIX F_RDLCK 3 5.
Definition other_5 : file_lock := Lock 2 2 2 FL_POSIX F_RDLCK 5 5.
Definition world1 : world := request 100 1 2 write_0_9 true empty_world.
Definition world2 : world := request 101 3 4 other_5 true world1.

Ltac run_request := apply request_step; unfold request_ok; split_and?; try (vm_compute; done); try lia;
  first [left; reflexivity|right; left; reflexivity].
Lemma world1_step : lock_step end_ok empty_world world1.
Proof. run_request. Qed.
Lemma world1_ok : world_ok world1.
Proof. eapply end_steps_ok; [apply rtc_once, world1_step|]. by apply empty_ok. Qed.

Lemma world2_run : rtc (lock_step end_ok) empty_world world2.
Proof. apply (rtc_l _ _ world1); [apply world1_step|apply rtc_once; run_request]. Qed.

(** The owner of the write lock on bytes 0 to 9 asks for a read lock on 3 to 5. *)
Definition world3 : world := set_lk 101 read_3_5 world1.
Lemma posix_lock_correct_witness :
  (forall t, held (posix_lock_apply 3 4 101 world3) (1, 1) 4 t <-> t = F_RDLCK /\ t <> F_UNLCK) /\
  (forall t, held (posix_lock_apply 3 4 101 world3) (1, 1) 7 t <-> held world3 (1, 1) 7 t).
Proof.
  assert (Hw : world_ok world3).
  { apply (same_world_ok world1); [|apply world1_ok]. apply set_new_same. vm_compute. by intros ?%list_elem_of_singleton. }
  destruct (posix_lock_correct world3 101 3 4 true) as (r & w' & E & _ & _ & _ & H).
  - by apply world_loose.
  - unfold fresh_for. split_and!; try lia; vm_compute; by intros ?%list_elem_of_singleton.
  - split_and!; try (vm_compute; done). left. reflexivity.
  - intros _ o Ho. assert (forall x y, waits_for world3 x y -> False) as Hf.
    { intros x y Hxy. unfold waits_for, wait_next in Hxy. by vm_compute in Hxy. }
    destruct Ho as [x y Hxy|x y z Hxy _]; by apply (Hf x y).
  - change (posix_lock_try 3 4 101 true world3) with (Some (Returns 0, posix_lock_apply 3 4 101 world3)) in E.
    injection E as <- <-. destruct (H Hw) as [_ H']; [left; reflexivity|].
    split; intros t; rewrite H'.
    + rewrite decide_True; [done|]. split_and!; (done || (vm_compute; done)).
    + rewrite decide_False; [done|]. intros (_ & _ & [_ Hx]). vm_compute in Hx. by apply Hx.
Defined.

Definition lists (w : world) : list (Z * Z * Z) :=
  (fun a => (fl_type (lk w a), fl_start (lk w a), fl_end (lk w a))) <$> i_flock w.
Example split_in_three : lists (posix_lock_apply 3 4 101 world3) =
  [(F_WRLCK, 0, 2); (F_RDLCK, 3, 5); (F_WRLCK, 6, 9)].
Proof. reflexivity. Qed.

(** A run with a request up to OFFSET_MAX that [end_ok] excludes, and a lock that waits. *)
Definition big_world : world := request 101 3 4 (Lock 1 1 1 FL_POSIX F_WRLCK 0 OFFSET_MAX) false world1.
Lemma big_run : rtc (lock_step any_request) empty_world big_world.
Proof. apply (rtc_l _ _ world1); [run_request|apply rtc_once; run_request]. Qed.
Lemma posix_locks_exclusive_witness :
  (lists big_world = [(F_WRLCK, 0, OFFSET_MAX); (F_WRLCK, 0, 9)] /\ exclusive big_world) /\
  (blocked_list world2 = [101] /\ exclusive world2 /\ world_ok world2).
Proof.
  split; (split; [vm_compute; reflexivity|]).
  - exact (proj1 (posix_locks_exclusive empty_world big_world eq_refl) big_run).
  - exact (proj2 (posix_locks_exclusive empty_world world2 eq_refl) world2_run).
Defined.

(** In [world2] the owner 2 waits for the owner 1; a request of 1 that a lock of 2 blocks is a deadlock. *)
Lemma posix_deadlock_exact_witness :
  posix_locks_deadlock 2 world2 (fl_owner (lk world2 1)) (fl_pid (lk world2 1)) (fl_owner (lk world2 101))
    (fl_pid (lk world2 101)) = Some true /\ rtc (waits_for world2) (2, 2) (1, 1).
Proof.
  assert (forall x y, waits_for world2 x y -> x = (2, 2) /\ y = (1, 1)) as Hf.
  { intros x y Hxy. pose proof (waiting_blocked _ _ _ Hxy) as Hx. change ((fun a => owner_of (lk world2 a)) <$> blocked_list world2) with [(2, 2)] in Hx.
    apply list_elem_of_singleton in Hx as ->. split; [done|]. unfold waits_for in Hxy. vm_compute in Hxy. by injection Hxy. }
  destruct (posix_deadlock_exact world2 1 101) as (r & H1 & H2 & _).
  - assert (forall x y, tc (waits_for world2) x y -> x = (2, 2) /\ y = (1, 1)) as Ht.
    { induction 1 as [x y Hxy|x y z Hxy _ [-> _]]; [by apply Hf|]. by destruct (Hf _ _ Hxy). }
    intros o Ho. destruct (Ht _ _ Ho). congruence.
  - assert (r = true) as -> by (change (Some true = Some r) in H1; congruence). split; [reflexivity|]. by apply H2.
Defined.

Lemma flock64_exact_witness : request_ok (Lock 1 1 1 FL_POSIX F_RDLCK 90 109).
Proof.
  apply (flock64_exact (Context_ 1 1 1 100 0) (Flock64 F_RDLCK 1 (-10) 20 0) (Lock 1 1 1 FL_POSIX F_RDLCK 90 109));
    try (unfold OFFSET_MAX; cbn; lia). reflexivity.
Defined.

(** ** Where the code does less *)

(** A request up to the end of the file: [fl_end + 1] wraps around, the old lock of the same type inside of
    the new range is not found, and stays on the list. An unlock of one byte then cuts only the new lock: the
    call succeeds and the byte stays locked. *)
Definition lock_type_range (n : Z) (type s e : Z) (w : world) : world :=
  request 1000 (2 * n) (2 * n + 1) (Lock 1 1 1 FL_POSIX type s e) false w.
Theorem unlock_leaves_lock :
  let w := lock_type_range 2 F_RDLCK 0 OFFSET_MAX (lock_type_range 1 F_RDLCK 5 10 empty_world) in
  let w' := lock_type_range 3 F_UNLCK 7 7 w in
  lists w = [(F_RDLCK, 0, OFFSET_MAX); (F_RDLCK, 5, 10)] /\
  lists w' = [(F_RDLCK, 0, 6); (F_RDLCK, 8, OFFSET_MAX); (F_RDLCK, 5, 10)] /\ held w' (1, 1) 7 F_RDLCK.
Proof.
  split; [vm_compute; reflexivity|]. split; [vm_compute; reflexivity|].
  exists 2. split_and!; try (vm_compute; done). vm_compute. do 2 right. by left.
Qed.

(** The old 32-bit call cuts the position of a large file to 32 bits: at 4 GB + 5 it locks byte 5. *)
Theorem flock_position_truncated :
  flock_to_posix_lock (Context_ 1 1 1 (2 ^ 32 + 5) (2 ^ 33)) (Flock64 F_WRLCK 1 0 1 0) =
  inr (Lock 1 1 1 FL_POSIX F_WRLCK 5 5).
Proof. reflexivity. Qed.
