(* ===== verification/Rwsem.v ===== *)
(** Semaphores for readers and writers: lib/rwsem-spinlock.c, the implementation that the ARM port uses.

    A critical section under the lock of the semaphore is one step; the loop in which a process waits
    ([__down_read], [__down_write] after the lock is released) is cut into the steps at which it
    reads or writes something that others change: the test of its flags, [schedule] and
    [set_task_state]. The waiter, a local variable of the process, is named by the process.

    The theorems, for all interleavings: a writer has the semaphore alone ([rwsem_exclusive]); it is
    given in the order of arrival ([rwsem_fifo]); a process that sleeps waits for another one that
    has the semaphore, and no call faults ([rwsem_no_lost_wakeup]). *)
From S2P Require Import Prelude.

Definition RWSEM_WAITING_FOR_READ : Z := 1.
Definition RWSEM_WAITING_FOR_WRITE : Z := 2.
Definition TASK_RUNNING : Z := 0.
Definition TASK_UNINTERRUPTIBLE : Z := 2.

Record rwsem_waiter := mk_waiter { w_task : Z; w_flags : Z }.
Record rw_semaphore := mk_rwsem { activity : Z; wait_list : list Z }.
(** The semaphore, the waiters and the states of the processes. *)
Record state := mk_state {
  sem : rw_semaphore;
  waiters : gmap Z rwsem_waiter;
  tstate : gmap Z Z
}.
#[export] Instance rwsem_fields : Fields rw_semaphore := fun s => mk_rwsem (activity s) (wait_list s).
#[export] Instance state_fields : Fields state := fun s => mk_state (sem s) (waiters s) (tstate s).

Definition init_rwsem : rw_semaphore := mk_rwsem 0 [].

Definition set_activity (v : Z) (s : state) : state := s <| sem := (sem s) <| activity := v |> |>.
Definition set_task_state (p v : Z) (s : state) : state := s <| tstate := <[p := v]> (tstate s) |>.
Definition wake_up_process (p : Z) : state -> state := set_task_state p TASK_RUNNING.

(** [list_del], [flags = 0] and [wake_up_process] for the first waiter. *)
Definition wake_first (s : state) : outcome state :=
  match wait_list (sem s) with
  | [] => Bug
  | a :: l =>
    match waiters s !! a with
    | None => Bug
    | Some w =>
      Ok (wake_up_process (w_task w)
            (s <| sem := (sem s) <| wait_list := l |> |> <| waiters := <[a := mk_waiter (w_task w) 0]> (waiters s) |>))
    end
  end.

(** The loop over the readers at the front; [l] is the list. It returns their number. *)
Fixpoint wake_readers (l : list Z) (woken : Z) (s : state) : outcome (Z * state) :=
  match l with
  | [] => Bug
  | _ :: l' =>
    match wake_first s with
    | Bug => Bug
    | Ok s =>
      let woken := woken + 1 in
      match l' with
      | [] => Ok (woken, s)
      | b :: _ =>
        match waiters s !! b with
        | None => Bug
        | Some w => if truth (w_flags w .& RWSEM_WAITING_FOR_READ) then wake_readers l' woken s else Ok (woken, s)
        end
      end
    end
  end.

Definition __rwsem_do_wake (s : state) : outcome state :=
  match wait_list (sem s) with
  | [] => Bug
  | a :: _ =>
    match waiters s !! a with
    | None => Bug
    | Some w =>
      if truth (w_flags w .& RWSEM_WAITING_FOR_WRITE) then wake_first (set_activity (-1) s)
      else
        match wake_readers (wait_list (sem s)) 0 s with
        | Bug => Bug
        | Ok (woken, s) => Ok (set_activity (s32 (activity (sem s) + woken)) s)
        end
    end
  end.

Definition __rwsem_wake_one_writer (s : state) : outcome state := wake_first (set_activity (-1) s).

(** The parts of [__down_read] and [__down_write] under the lock: whether it is granted at once. *)
Definition enqueue (p flags : Z) (s : state) : state :=
  (set_task_state p TASK_UNINTERRUPTIBLE s) <| waiters := <[p := mk_waiter p flags]> (waiters s) |>
    <| sem := (sem s) <| wait_list := wait_list (sem s) ++ [p] |> |>.

Definition __down_read (p : Z) (s : state) : bool * state :=
  if (0 <=? activity (sem s)) && bool_decide (wait_list (sem s) = []) then
    (true, set_activity (s32 (activity (sem s) + 1)) s)
  else (false, enqueue p RWSEM_WAITING_FOR_READ s).

Definition __down_write (p : Z) (s : state) : bool * state :=
  if (activity (sem s) =? 0) && bool_decide (wait_list (sem s) = []) then (true, set_activity (-1) s)
  else (false, enqueue p RWSEM_WAITING_FOR_WRITE s).

Definition __up_read (s : state) : outcome state :=
  let s := set_activity (s32 (activity (sem s) - 1)) s in
  if (activity (sem s) =? 0) && negb (bool_decide (wait_list (sem s) = [])) then __rwsem_wake_one_writer s else Ok s.

Definition __up_write (s : state) : outcome state :=
  let s := set_activity 0 s in
  if negb (bool_decide (wait_list (sem s) = [])) then __rwsem_do_wake s else Ok s.

(** ** Processes *)
Inductive kind := Reader | Writer.
#[export] Instance kind_eq_dec : EqDecision kind.
Proof. solve_decision. Defined.

(** Where a process is: outside, before the test of its flags, before [schedule], before
    [set_task_state], or after the call. *)
Inductive pc := Idle | Check (k : kind) | Sched (k : kind) | Woke (k : kind) | Held (k : kind).

Definition down (k : kind) : Z -> state -> bool * state := match k with Reader => __down_read | Writer => __down_write end.
Definition up (k : kind) : state -> outcome state := match k with Reader => __up_read | Writer => __up_write end.
Definition code (k : kind) : Z := match k with Reader => RWSEM_WAITING_FOR_READ | Writer => RWSEM_WAITING_FOR_WRITE end.

(** The world: the state, the processes, and the history: the requests in the order of their arrival. *)
Record world := mk_world { st : state; pcs : gmap Z pc; arrivals : list (Z * kind) }.
Definition at_ (w : world) (p : Z) : pc := default Idle (pcs w !! p).

Definition PID_MAX : Z := 32768.

Inductive step : world -> world -> Prop :=
| step_down w p k granted s' : 0 <= p < PID_MAX -> at_ w p = Idle -> down k p (st w) = (granted, s') ->
    step w (mk_world s' (<[p := if granted then Held k else Check k]> (pcs w)) (arrivals w ++ [(p, k)]))
| step_check w p k wt : at_ w p = Check k -> waiters (st w) !! p = Some wt ->
    step w (if truth (w_flags wt) then mk_world (st w) (<[p := Sched k]> (pcs w)) (arrivals w)
            else mk_world (set_task_state p TASK_RUNNING (st w)) (<[p := Held k]> (pcs w)) (arrivals w))
| step_schedule w p k : at_ w p = Sched k -> tstate (st w) !! p = Some TASK_RUNNING ->
    step w (mk_world (st w) (<[p := Woke k]> (pcs w)) (arrivals w))
| step_again w p k : at_ w p = Woke k ->
    step w (mk_world (set_task_state p TASK_UNINTERRUPTIBLE (st w)) (<[p := Check k]> (pcs w)) (arrivals w))
| step_up w p k s' : at_ w p = Held k -> up k (st w) = Ok s' ->
    step w (mk_world s' (<[p := Idle]> (pcs w)) (arrivals w))
| step_other_wakeup w p : step w (mk_world (wake_up_process p (st w)) (pcs w) (arrivals w)).

Definition start_world (running : gmap Z Z) : world := mk_world (mk_state init_rwsem ∅ running) ∅ [].

(** ** The invariant *)
Definition waits (c : pc) : option kind := match c with Check k | Sched k | Woke k => Some k | _ => None end.
(** The waiting processes. *)
Definition queue (w : world) : list Z := wait_list (sem (st w)).

(** Those who have the semaphore, [hs], and the activity that goes with them. *)
Definition active (hs : list (Z * kind)) (a : Z) : Prop :=
  (Forall (fun h => h.2 = Reader) hs /\ a = Z.of_nat (length hs)) \/ (exists p, hs = [(p, Writer)] /\ a = -1).

Record Inv (w : world) (hs : list (Z * kind)) : Prop := {
  i_nodup : NoDup (queue w);
  i_queue : forall p, p ∈ queue w -> 0 <= p < PID_MAX /\ exists k, waits (at_ w p) = Some k /\ waiters (st w) !! p = Some (mk_waiter p (code k));
  i_given : forall p k, waits (at_ w p) = Some k -> p ∉ queue w -> waiters (st w) !! p = Some (mk_waiter p 0) /\ (p, k) ∈ hs;
  i_held : forall p k, at_ w p = Held k -> (p, k) ∈ hs /\ p ∉ queue w;
  i_hs : forall p k, (p, k) ∈ hs -> 0 <= p < PID_MAX /\ (p ∉ queue w) /\ (at_ w p = Held k \/ waits (at_ w p) = Some k);
  i_hs_nodup : NoDup hs.*1;
  i_active : active hs (activity (sem (st w)));
  i_contended : forall p l, queue w = p :: l -> hs <> [] /\ (Forall (fun h => h.2 = Reader) hs -> waits (at_ w p) = Some Writer);
  i_sleep : forall p k, at_ w p = Sched k -> tstate (st w) !! p <> Some TASK_RUNNING -> p ∈ queue w;
  i_fifo : exists gs qs, arrivals w = gs ++ qs /\ qs.*1 = queue w /\ forall p k, (p, k) ∈ qs -> waits (at_ w p) = Some k
}.

Lemma at_same w s' p c ar' : at_ (mk_world s' (<[p := c]> (pcs w)) ar') p = c.
Proof. unfold at_. cbn. by rewrite lookup_insert_eq. Qed.
Lemma at_other w s' p c ar' q : q <> p -> at_ (mk_world s' (<[p := c]> (pcs w)) ar') q = at_ w q.
Proof. intros H. unfold at_. cbn. by rewrite lookup_insert_ne. Qed.

Lemma pids_length l : NoDup l -> (forall p, p ∈ l -> 0 <= p < PID_MAX) -> Z.of_nat (length l) <= PID_MAX.
Proof.
  intros Hnd Hl. assert (H : (length l <= length (seqZ 0 PID_MAX))%nat).
  { apply submseteq_length, NoDup_submseteq; [done|]. intros p Hp. apply elem_of_seqZ. specialize (Hl p Hp). lia. }
  rewrite length_seqZ in H. unfold PID_MAX in *. lia.
Qed.
Lemma hs_length w hs : Inv w hs -> Z.of_nat (length hs) <= PID_MAX.
Proof.
  intros I. rewrite <- (length_fmap fst). apply pids_length; [apply I|]. intros p ([q k] & -> & Hq)%list_elem_of_fmap. by apply (i_hs _ _ I q k).
Qed.
Lemma s32_small z : -32768 <= z <= 32769 -> s32 z = z.
Proof. intros H. unfold s32. rewrite Z.mod_small; lia. Qed.

Lemma inv_start running : Inv (start_world running) [].
Proof.
  constructor; try done.
  - constructor.
  - by intros p ?%elem_of_nil.
  - by intros p k ?%elem_of_nil.
  - constructor.
  - left. split; [constructor|done].
  - exists [], []. split_and!; try done. by intros p k ?%elem_of_nil.
Qed.

(** ** Waking *)

(** The waiters [l1] are woken, [l2] are left. *)
Record woken (l1 l2 : list Z) (s s' : state) : Prop := {
  wk_list : wait_list (sem s') = l2;
  wk_waiters : forall p, waiters s' !! p = if decide (p ∈ l1) then Some (mk_waiter p 0) else waiters s !! p;
  wk_tstate : forall p, tstate s' !! p = if decide (p ∈ l1) then Some TASK_RUNNING else tstate s !! p
}.

Lemma wake_first_ok s a l f : wait_list (sem s) = a :: l -> waiters s !! a = Some (mk_waiter a f) ->
  exists s', wake_first s = Ok s' /\ woken [a] l s s' /\ activity (sem s') = activity (sem s).
Proof.
  intros El Ea. unfold wake_first. rewrite El, Ea. eexists. split; [done|]. split; [|done]. constructor; [done|..]; intros p; cbn.
  - rewrite lookup_insert. repeat case_decide; subst; try done; set_solver.
  - rewrite lookup_insert. repeat case_decide; subst; try done; set_solver.
Qed.

Lemma woken_trans l1 l1' l2 s s1 s' l0 : woken l1 l0 s s1 -> woken l1' l2 s1 s' -> woken (l1 ++ l1') l2 s s'.
Proof.
  intros [A1 A2 A3] [B1 B2 B3]. constructor; [done|..]; intros p; rewrite ?B2, ?B3, ?A2, ?A3;
    repeat case_decide; try done; set_solver.
Qed.

Lemma wake_readers_ok l1 : forall l2 s n, wait_list (sem s) = l1 ++ l2 -> l1 <> [] -> NoDup (l1 ++ l2) ->
  (forall p, p ∈ l1 -> waiters s !! p = Some (mk_waiter p (code Reader))) ->
  (forall p l, l2 = p :: l -> waiters s !! p = Some (mk_waiter p (code Writer))) ->
  exists s', wake_readers (l1 ++ l2) n s = Ok (n + Z.of_nat (length l1), s') /\ woken l1 l2 s s' /\ activity (sem s') = activity (sem s).
Proof.
  induction l1 as [|a l1 IH]; intros l2 s n El Hne Hnd H1 H2; [done|]. cbn [app] in *. cbn [wake_readers].
  destruct (wake_first_ok s a (l1 ++ l2) (code Reader) El (H1 a ltac:(left))) as (s1 & E1 & W1 & A1). rewrite E1.
  apply NoDup_cons in Hnd as [Ha Hnd].
  assert (Hkeep : forall p, p ∈ l1 ++ l2 -> waiters s1 !! p = waiters s !! p).
  { intros p Hp. rewrite (wk_waiters _ _ _ _ W1). case_decide as H; [|done]. apply list_elem_of_singleton in H as ->. done. }
  destruct l1 as [|b l1].
  - cbn [app length]. exists s1. destruct l2 as [|c l2]; [done|].
    rewrite Hkeep, (H2 c l2 eq_refl) by left. done.
  - cbn [app]. rewrite Hkeep, (H1 b) by (set_solver). change (truth (w_flags (mk_waiter b (code Reader)) .& RWSEM_WAITING_FOR_READ)) with true. cbv iota.
    destruct (IH l2 s1 (n + 1)) as (s' & E' & W' & A'); try done.
    + apply W1.
    + intros p Hp. rewrite Hkeep by set_solver. apply H1. set_solver.
    + intros p l ->. rewrite Hkeep by set_solver. by eapply H2.
    + exists s'. split; [|split; [exact (woken_trans _ _ _ _ _ _ _ W1 W')|by rewrite A', A1]].
      change (b :: l1 ++ l2) with ((b :: l1) ++ l2). rewrite E'. do 2 f_equal. cbn [length]. lia.
Qed.

(** ** The steps *)

(** A process that waits goes on. *)
Lemma inv_move w hs p k c s' : Inv w hs -> waits (at_ w p) = Some k ->
  sem s' = sem (st w) -> waiters s' = waiters (st w) -> waits c = Some k \/ (c = Held k /\ p ∉ queue w) ->
  (forall q k', at_ (mk_world s' (<[p := c]> (pcs w)) (arrivals w)) q = Sched k' -> tstate s' !! q <> Some TASK_RUNNING -> q ∈ queue w) ->
  Inv (mk_world s' (<[p := c]> (pcs w)) (arrivals w)) hs.
Proof.
  intros [I1 I2 I3 I4 I5 I6 I7 I8 I9 I10] Hp Es Ew Hc Hsleep. set (w' := mk_world s' (<[p := c]> (pcs w)) (arrivals w)).
  assert (Eq : queue w' = queue w) by (unfold queue; cbn; by rewrite Es).
  assert (Hwaits : forall q, waits (at_ w' q) = waits (at_ w q) \/ (q = p /\ at_ w' q = Held k /\ p ∉ queue w)).
  { intros q. destruct (decide (q = p)) as [->|Hq]; [|left; unfold w'; by rewrite at_other]. unfold w'. rewrite at_same.
    destruct Hc as [->|[-> ?]]; [by left|by right]. }
  assert (Hin : forall q, q ∈ queue w -> waits (at_ w' q) = waits (at_ w q)).
  { intros q Hq. destruct (Hwaits q) as [?|(-> & _ & ?)]; done. }
  assert (Hother : forall q, q <> p -> at_ w' q = at_ w q) by (intros; by apply at_other).
  constructor; rewrite ?Eq; try done.
  - intros q Hq. rewrite (Hin q Hq). cbn. rewrite Ew. by apply I2.
  - intros q k' Hq Hout. cbn. rewrite Ew. apply I3; [|done]. destruct (Hwaits q) as [<-|(-> & H & _)]; [done|]. by rewrite H in Hq.
  - intros q k' Hq. destruct (decide (q = p)) as [->|Hne]; [|rewrite Hother in Hq by done; by apply I4].
    unfold w' in Hq. rewrite at_same in Hq. subst c. destruct Hc as [?|[[= ->] Hout]]; [done|]. split; [|done]. by apply I3.
  - intros q k' Hq. destruct (I5 q k' Hq) as (H1 & H2 & H3). split; [done|split; [done|]].
    destruct (decide (q = p)) as [->|Hne]; [|by rewrite Hother]. unfold w'. rewrite at_same.
    destruct H3 as [H3|H3]; [by rewrite H3 in Hp|]. rewrite Hp in H3. injection H3 as ->. destruct Hc as [Hc|[-> _]]; [by right|by left].
  - cbn. by rewrite Es.
  - intros q l Hq. rewrite Hin by (rewrite Hq; left). eauto.
  - destruct I10 as (gs & qs & E1 & E2 & E3). exists gs, qs. split_and!; try done. intros q k' Hq. rewrite Hin; [auto|].
    rewrite <- E2. by apply (list_elem_of_fmap_2 fst qs (q, k')).
Qed.

(** A process that leaves. *)
Lemma inv_leave w hs p k s' l1 l2 k' a : Inv w hs -> at_ w p = Held k -> hs = [(p, k)] -> queue w = l1 ++ l2 ->
  woken l1 l2 (st w) s' -> activity (sem s') = a -> active (map (fun q => (q, k')) l1) a ->
  (forall q, q ∈ l1 -> waits (at_ w q) = Some k') ->
  (forall q l, l2 = q :: l -> l1 <> [] /\ (k' = Reader -> waits (at_ w q) = Some Writer)) ->
  Inv (mk_world s' (<[p := Idle]> (pcs w)) (arrivals w)) (map (fun q => (q, k')) l1).
Proof.
  intros [I1 I2 I3 I4 I5 I6 I7 I8 I9 I10] Hp Hhs Eq [W1 W2 W3] Ha Hact Hk Hcon. set (w' := mk_world s' (<[p := Idle]> (pcs w)) (arrivals w)).
  assert (Eq' : queue w' = l2) by done. destruct (I4 p k Hp) as [_ Hpq]. rewrite Eq in *.
  assert (Hother : forall q, q <> p -> at_ w' q = at_ w q) by (intros; by apply at_other).
  assert (Hpp : at_ w' p = Idle) by apply at_same. apply NoDup_app in I1 as (N1 & N2 & N3).
  assert (Hne : forall q, q ∈ l1 ++ l2 -> q <> p) by (intros q Hq ->; done).
  constructor; rewrite ?Eq'; try done.
  - intros q Hq. destruct (I2 q ltac:(set_solver)) as (Hr & k'' & H1 & H2). split; [done|]. exists k''. rewrite Hother by (apply Hne; set_solver).
    split; [done|]. change (waiters s' !! q = Some (mk_waiter q (code k''))). rewrite W2. case_decide as H; [by destruct (N2 q H)|done].
  - intros q k'' Hq Hout. destruct (decide (q = p)) as [->|Hqp]; [by rewrite Hpp in Hq|]. rewrite Hother in Hq by done.
    change (waiters s' !! q = Some (mk_waiter q 0) /\ (q, k'') ∈ map (fun q => (q, k')) l1). rewrite W2.
    destruct (decide (q ∈ l1)) as [H|H].
    + split; [done|]. rewrite (Hk q H) in Hq. injection Hq as <-. by apply (list_elem_of_fmap_2 (fun q => (q, k'))).
    + destruct (I3 q k'' Hq) as [_ Hin]; [set_solver|]. rewrite Hhs in Hin. apply list_elem_of_singleton in Hin. by injection Hin as -> _.
  - intros q k'' Hq. destruct (decide (q = p)) as [->|Hqp]; [by rewrite Hpp in Hq|]. rewrite Hother in Hq by done.
    destruct (I4 q k'' Hq) as [Hin _]. rewrite Hhs in Hin. apply list_elem_of_singleton in Hin. by injection Hin as -> _.
  - intros q k'' (q' & [= -> ->] & Hq)%list_elem_of_fmap. destruct (I2 q' ltac:(set_solver)) as [Hr _]. split; [done|split; [by apply N2|]].
    right. rewrite Hother by (apply Hne; set_solver). auto.
  - rewrite map_map. cbn. by rewrite map_id.
  - cbn. by rewrite Ha.
  - intros q l ->. destruct (Hcon q l eq_refl) as [H1 H2]. split; [by destruct l1|]. intros Hall. rewrite Hother by (apply Hne; set_solver).
    apply H2. destruct l1 as [|b l1]; [done|]. by apply Forall_cons in Hall as [? _].
  - intros q k'' Hq Hs. destruct (decide (q = p)) as [->|Hqp]; [by rewrite Hpp in Hq|]. rewrite Hother in Hq by done.
    change (tstate s' !! q <> Some TASK_RUNNING) in Hs. rewrite W3 in Hs. case_decide as H; [done|]. specialize (I9 q k'' Hq Hs). set_solver.
  - destruct I10 as (gs & qs & E1 & E2 & E3). apply fmap_app_inv in E2 as (qs1 & qs2 & E4 & E5 & ->).
    exists (gs ++ qs1), qs2. split_and!; [by rewrite <- app_assoc|done|]. intros q k'' Hq. rewrite Hother; [apply E3; set_solver|].
    apply Hne. rewrite E5. apply elem_of_app. right. by apply (list_elem_of_fmap_2 fst qs2 (q, k'')).
Qed.

(** A reader that is not the last one leaves. *)
Lemma inv_leave_some w hs1 hs2 p s' : Inv w (hs1 ++ (p, Reader) :: hs2) -> at_ w p = Held Reader ->
  waiters s' = waiters (st w) -> tstate s' = tstate (st w) -> wait_list (sem s') = queue w ->
  activity (sem s') = activity (sem (st w)) - 1 -> queue w = [] \/ hs1 ++ hs2 <> [] ->
  Inv (mk_world s' (<[p := Idle]> (pcs w)) (arrivals w)) (hs1 ++ hs2).
Proof.
  intros [I1 I2 I3 I4 I5 I6 I7 I8 I9 I10] Hp Ew Et Eq Ea Hne. set (w' := mk_world s' (<[p := Idle]> (pcs w)) (arrivals w)).
  assert (Eq' : queue w' = queue w) by done. destruct (I4 p Reader Hp) as [_ Hpq].
  assert (Hother : forall q, q <> p -> at_ w' q = at_ w q) by (intros; by apply at_other).
  assert (Hpp : at_ w' p = Idle) by apply at_same.
  assert (Hqp : forall q, q ∈ queue w -> q <> p) by (by intros q Hq ->).
  assert (Hsub : forall h, h ∈ hs1 ++ hs2 -> h ∈ hs1 ++ (p, Reader) :: hs2) by set_solver.
  assert (Hin : forall q k, (q, k) ∈ hs1 ++ (p, Reader) :: hs2 -> q <> p -> (q, k) ∈ hs1 ++ hs2).
  { intros q k [H|[[= -> _]|H]%elem_of_cons]%elem_of_app Hq; [set_solver|done|set_solver]. }
  assert (Hread : Forall (fun h => h.2 = Reader) (hs1 ++ (p, Reader) :: hs2) /\ activity (sem (st w)) = Z.of_nat (length (hs1 ++ (p, Reader) :: hs2))).
  { destruct I7 as [?|(q & H & _)]; [done|]. exfalso. assert ((p, Reader) ∈ [(q, Writer)]) by (rewrite <- H; set_solver). set_solver. }
  destruct Hread as [Hread Hlen]. rewrite Forall_app, Forall_cons in Hread. rewrite fmap_app, fmap_cons in I6. cbn in I6.
  apply NoDup_app in I6 as (M1 & M2 & [M3 M4]%NoDup_cons).
  constructor; rewrite ?Eq'; try done.
  - intros q Hq. rewrite Hother by auto. cbn. rewrite Ew. by apply I2.
  - intros q k Hq Hout. destruct (decide (q = p)) as [->|Hne']; [by rewrite Hpp in Hq|]. rewrite Hother in Hq by done. cbn. rewrite Ew.
    destruct (I3 q k Hq Hout) as [H1 H2]. split; [done|]. by apply Hin.
  - intros q k Hq. destruct (decide (q = p)) as [->|Hne']; [by rewrite Hpp in Hq|]. rewrite Hother in Hq by done.
    destruct (I4 q k Hq) as [H1 H2]. split; [by apply Hin|done].
  - intros q k Hq. destruct (I5 q k (Hsub _ Hq)) as (H1 & H2 & H3). split; [done|split; [done|]]. rewrite Hother; [done|]. intros ->.
    apply elem_of_app in Hq as [Hq|Hq]; apply (list_elem_of_fmap_2 fst) in Hq; cbn in Hq; [apply (M2 p Hq); left|done].
  - rewrite fmap_app. apply NoDup_app. split_and!; [done| |done]. intros q Hq Hq'. apply (M2 q Hq). by right.
  - left. split; [apply Forall_app; tauto|]. cbn. rewrite Ea, Hlen, !length_app. cbn. lia.
  - intros q l Hq. destruct (I8 q l Hq) as [_ H]. split; [destruct Hne as [Hne|?]; [by rewrite Hne in Hq|done]|].
    intros _. rewrite Hother by (apply Hqp; rewrite Hq; left). apply H. apply Forall_app. rewrite Forall_cons. tauto.
  - intros q k Hq. destruct (decide (q = p)) as [->|Hne']; [by rewrite Hpp in Hq|]. rewrite Hother in Hq by done. cbn. rewrite Et. by apply (I9 q k).
  - destruct I10 as (gs & qs & E1 & E2 & E3). exists gs, qs. split_and!; try done. intros q k Hq. rewrite Hother; [auto|].
    apply Hqp. rewrite <- E2. by apply (list_elem_of_fmap_2 fst qs (q, k)).
Qed.

(** A process outside has nothing. *)
Section Request.
Context (w : world) (hs : list (Z * kind)) (p : Z) (k : kind).
Hypothesis I : Inv w hs.
Hypothesis Hr : 0 <= p < PID_MAX.
Hypothesis Hp : at_ w p = Idle.

Lemma idle_out : (p ∉ queue w) /\ forall k', (p, k') ∉ hs.
Proof using I Hp.
  split; [intros H; destruct (i_queue _ _ I p H) as (_ & k' & H' & _); by rewrite Hp in H'|].
  intros k' H. destruct (i_hs _ _ I p k' H) as (_ & _ & [H'|H']); by rewrite Hp in H'.
Qed.
Lemma outside_same s' c ar' q : q <> p -> at_ (mk_world s' (<[p := c]> (pcs w)) ar') q = at_ w q.
Proof using. apply at_other. Qed.

(** A request is granted at once. *)
Lemma inv_granted : match k with Reader => 0 <= activity (sem (st w)) | Writer => activity (sem (st w)) = 0 end -> queue w = [] ->
  Inv (mk_world (set_activity (match k with Reader => s32 (activity (sem (st w)) + 1) | Writer => -1 end) (st w))
    (<[p := Held k]> (pcs w)) (arrivals w ++ [(p, k)])) (hs ++ [(p, k)]).
Proof using All.
  intros Ha Hq. pose proof outside_same as Hother. destruct idle_out as [Hpq Hph].
  pose proof (hs_length _ _ I) as Hlen. destruct I as [I1 I2 I3 I4 I5 I6 I7 I8 I9 I10].
  assert (Hact : active (hs ++ [(p, k)]) (match k with Reader => s32 (activity (sem (st w)) + 1) | Writer => -1 end)).
  { destruct k; destruct I7 as [[Hf E]|(q & -> & E)]; rewrite E in *; try lia.
    - left. rewrite length_app. cbn [length]. split; [by apply Forall_app; split; [|constructor]|]. rewrite s32_small by (unfold PID_MAX in *; lia). lia.
    - right. destruct hs; [|cbn in Ha; lia]. by exists p. }
  constructor; cbn [queue st]; try done.
  + intros q Hin. change (q ∈ queue w) in Hin. rewrite Hq in Hin. by apply elem_of_nil in Hin.
  + intros q k' Hw Hout. destruct (decide (q = p)) as [->|Hne]; [by rewrite at_same in Hw|]. rewrite Hother in Hw by done.
    destruct (I3 q k' Hw Hout). split; [done|]. apply elem_of_app. by left.
  + intros q k' Hw. destruct (decide (q = p)) as [->|Hne]; [rewrite at_same in Hw; injection Hw as ->; split; [set_solver|done]|].
    rewrite Hother in Hw by done. destruct (I4 q k' Hw). split; [set_solver|done].
  + intros q k' [Hin|[= -> ->]%list_elem_of_singleton]%elem_of_app.
    * destruct (I5 q k' Hin) as (H1 & H2 & H3). split; [done|split; [done|]]. rewrite Hother; [done|]. intros ->. by apply Hph in Hin.
    * split; [done|split; [done|]]. rewrite at_same. by left.
  + rewrite fmap_app. apply NoDup_app. split_and!; [done| |apply NoDup_singleton]. intros q ([q' k'] & -> & Hin)%list_elem_of_fmap Hq'.
    cbn in Hq'. apply list_elem_of_singleton in Hq' as ->. by apply Hph in Hin.
  + intros q l Hql. change (queue w = q :: l) in Hql. by rewrite Hq in Hql.
  + intros q k' Hs Ht. destruct (decide (q = p)) as [->|Hne]; [by rewrite at_same in Hs|]. rewrite Hother in Hs by done. by apply (I9 q k').
  + exists (arrivals w ++ [(p, k)]), []. split_and!; [by rewrite app_nil_r|symmetry; exact Hq|]. by intros q k' ?%elem_of_nil.
Qed.

(** A request has to wait. *)
Lemma inv_queued : ~ (match k with Reader => 0 <= activity (sem (st w)) | Writer => activity (sem (st w)) = 0 end /\ queue w = []) ->
  Inv (mk_world (enqueue p (code k) (st w)) (<[p := Check k]> (pcs w)) (arrivals w ++ [(p, k)])) hs.
Proof using All.
  intros Eg. pose proof outside_same as Hother. destruct idle_out as [Hpq Hph].
  destruct I as [I1 I2 I3 I4 I5 I6 I7 I8 I9 I10].
  set (w' := mk_world _ _ _). assert (Eq : queue w' = queue w ++ [p]) by done.
  assert (Hcont : hs <> []).
  { intros E0. rewrite E0 in I7, I8. destruct I7 as [[_ E]|(q & ? & _)]; [|done]. cbn in E. rewrite E in Eg.
    destruct (queue w) as [|q l] eqn:Eq'; [|by destruct (I8 q l eq_refl)]. apply Eg. by destruct k. }
  constructor; rewrite ?Eq; try done.
  + apply NoDup_app. split_and!; [done|by intros q Hin ->%list_elem_of_singleton|apply NoDup_singleton].
  + intros q [Hin| ->%list_elem_of_singleton]%elem_of_app.
    * destruct (I2 q Hin) as (H1 & k' & H2 & H3). assert (Hne : q <> p) by (by intros ->). split; [done|]. exists k'. unfold w'. rewrite Hother by done.
      split; [done|]. cbn. by rewrite lookup_insert_ne.
    * split; [done|]. exists k. unfold w'. rewrite at_same. split; [done|]. cbn. by rewrite lookup_insert_eq.
  + intros q k' Hw Hout. assert (Hne : q <> p) by set_solver. unfold w' in Hw. rewrite Hother in Hw by done.
    destruct (I3 q k' Hw ltac:(set_solver)). split; [|done]. cbn. by rewrite lookup_insert_ne.
  + intros q k' Hw. destruct (decide (q = p)) as [->|Hne]; [unfold w' in Hw; by rewrite at_same in Hw|]. unfold w' in Hw. rewrite Hother in Hw by done.
    destruct (I4 q k' Hw). split; [done|set_solver].
  + intros q k' Hin. destruct (I5 q k' Hin) as (H1 & H2 & H3). assert (Hne : q <> p) by (intros ->; by apply Hph in Hin).
    split; [done|split; [set_solver|]]. unfold w'. by rewrite Hother.
  + intros q l Hql. split; [done|]. intros Hall. destruct (queue w) as [|q' l'] eqn:Eq'.
    * injection Hql as -> <-. unfold w'. rewrite at_same. destruct k; [|done]. exfalso. destruct I7 as [[_ E]|(r & E & _)].
      -- apply Eg. split; [lia|done].
      -- rewrite E in Hall. by apply Forall_cons in Hall as [? _].
    * injection Hql as <- _. assert (Hne : q' <> p) by set_solver. unfold w'. rewrite Hother by done. by apply (I8 q' l' eq_refl).
  + intros q k' Hs Ht. destruct (decide (q = p)) as [->|Hne]; [set_solver|]. unfold w' in Hs. rewrite Hother in Hs by done. cbn in Ht.
    rewrite lookup_insert_ne in Ht by done. specialize (I9 q k' Hs Ht). set_solver.
  + destruct I10 as (gs & qs & E1 & E2 & E3). exists gs, (qs ++ [(p, k)]). split_and!; [cbn; by rewrite E1, app_assoc|by rewrite fmap_app, E2|].
    intros q k' [Hin|[= -> ->]%list_elem_of_singleton]%elem_of_app; unfold w'; [|by rewrite at_same].
    rewrite Hother; [auto|]. intros ->. apply Hpq. rewrite <- E2. by apply (list_elem_of_fmap_2 fst qs (p, k')).
Qed.
End Request.

(** The readers at the front. *)
Lemma reader_prefix w l : (forall p, p ∈ l -> exists k, waits (at_ w p) = Some k) ->
  exists l1 l2, l = l1 ++ l2 /\ (forall p, p ∈ l1 -> waits (at_ w p) = Some Reader) /\
    (forall p l', l2 = p :: l' -> waits (at_ w p) = Some Writer).
Proof.
  induction l as [|a l IH]; intros H; [exists [], []; split_and!; try done; by intros p ?%elem_of_nil|].
  destruct (H a ltac:(left)) as ([|] & Ha).
  - destruct IH as (l1 & l2 & -> & H1 & H2); [intros p Hp; apply H; by right|]. exists (a :: l1), l2. split_and!; try done.
    by intros p [->|Hp]%elem_of_cons; [|apply H1].
  - exists [], (a :: l). split_and!; try done; [by intros p ?%elem_of_nil|]. by intros p l' [= -> _].
Qed.

Section Release.
Context (w : world) (hs : list (Z * kind)) (p : Z).
Hypothesis I : Inv w hs.

Definition left_world (s' : state) : world := mk_world s' (<[p := Idle]> (pcs w)) (arrivals w).

(** The first waiter, a writer, gets the semaphore. *)
Lemma hand_to_writer k s a l : at_ w p = Held k -> hs = [(p, k)] -> queue w = a :: l -> waits (at_ w a) = Some Writer ->
  wait_list (sem s) = queue w -> waiters s = waiters (st w) -> tstate s = tstate (st w) ->
  exists s', wake_first (set_activity (-1) s) = Ok s' /\ Inv (left_world s') [(a, Writer)].
Proof using I.
  intros Hp Hhs Eq Ha E1 E2 E3. destruct (i_queue _ _ I a) as (_ & k' & Hk & Hw); [rewrite Eq; left|]. rewrite <- E2 in Hw.
  destruct (wake_first_ok (set_activity (-1) s) a l (code k')) as (s' & E & [W1 W2 W3] & A); [cbn; by rewrite E1, Eq|done|].
  exists s'. split; [done|]. apply (inv_leave w hs p k s' [a] l Writer (-1)); try done.
  - constructor; [done|..]; intros q; [rewrite W2; cbn; by rewrite E2|rewrite W3; cbn; by rewrite E3].
  - right. by exists a.
  - by intros q ->%list_elem_of_singleton.
Qed.

Lemma up_read_ok : at_ w p = Held Reader -> exists s' hs', __up_read (st w) = Ok s' /\ Inv (left_world s') hs'.
Proof using I.
  intros Hp. destruct (i_held _ _ I p Reader Hp) as [Hin _]. pose proof (hs_length _ _ I) as Hlen.
  assert (Hact : activity (sem (st w)) = Z.of_nat (length hs) /\ Forall (fun h => h.2 = Reader) hs).
  { destruct (i_active _ _ I) as [[? ?]|(q & E & _)]; [done|]. rewrite E in Hin. by apply list_elem_of_singleton in Hin. }
  destruct Hact as [Ha Hread]. apply list_elem_of_split in Hin as (hs1 & hs2 & El). unfold __up_read. cbv zeta.
  rewrite s32_small by (unfold PID_MAX in Hlen; lia). cbn [activity sem set_activity wait_list]. fold (queue w).
  set (s0 := set_activity (activity (sem (st w)) - 1) (st w)).
  change (activity (sem s0)) with (activity (sem (st w)) - 1). change (wait_list (sem s0)) with (queue w).
  pose proof I as I'. rewrite El in I'.
  destruct (decide (queue w = [] \/ hs1 ++ hs2 <> [])) as [Hstay|Hgo].
  - exists s0, (hs1 ++ hs2). split; [|by apply inv_leave_some]. destruct Hstay as [Hq|Hne]; [by rewrite Hq, andb_false_r|].
    rewrite Ha, El, length_app. cbn [length]. assert (length hs1 + length hs2 <> 0)%nat.
    { rewrite <- length_app. by destruct (hs1 ++ hs2). }
    destruct (Z.eqb_spec (Z.of_nat (length hs1 + S (length hs2)) - 1) 0); [lia|done].
  - assert (Hq : queue w <> []) by tauto. assert (Hnil : hs1 ++ hs2 = []) by (destruct (decide (hs1 ++ hs2 = [])); tauto).
    apply app_nil in Hnil as [-> ->]. cbn in El. rewrite Ha, El. cbn [length]. change (Z.of_nat 1 - 1 =? 0) with true. cbn [andb].
    rewrite bool_decide_false by done. cbn [negb]. destruct (queue w) as [|a l] eqn:Eq; [done|].
    destruct (i_contended _ _ I a l Eq) as [_ Hw]. 
    destruct (hand_to_writer Reader s0 a l) as (s' & E & HI); try done; [by apply Hw|]. exists s', [(a, Writer)]. by split.
Qed.

Lemma up_write_ok : at_ w p = Held Writer -> exists s' hs', __up_write (st w) = Ok s' /\ Inv (left_world s') hs'.
Proof using I.
  intros Hp. destruct (i_held _ _ I p Writer Hp) as [Hin _].
  assert (Hhs : hs = [(p, Writer)]).
  { destruct (i_active _ _ I) as [[Hf _]|(q & E & _)].
    - rewrite Forall_forall in Hf. by specialize (Hf _ Hin).
    - rewrite E in Hin. apply list_elem_of_singleton in Hin. injection Hin as ->. done. }
  unfold __up_write. cbv zeta. set (s0 := set_activity 0 (st w)). change (wait_list (sem s0)) with (queue w).
  destruct (queue w) as [|a l] eqn:Eq.
  { exists s0, []. split; [done|]. apply (inv_leave w hs p Writer s0 [] [] Reader 0); try done; [left; by split; [constructor|]|by intros q ?%elem_of_nil]. }
  rewrite bool_decide_false by done. cbn [negb]. unfold __rwsem_do_wake. change (wait_list (sem s0)) with (queue w). rewrite Eq.
  change (waiters s0) with (waiters (st w)). destruct (i_queue _ _ I a) as (_ & k & Hk & Hw); [rewrite Eq; left|]. rewrite Hw.
  destruct k.
  2: { destruct (hand_to_writer Writer s0 a l) as (s' & E & HI); try done. exists s', [(a, Writer)]. by split. }
  change (truth (w_flags (mk_waiter a (code Reader)) .& RWSEM_WAITING_FOR_WRITE)) with false. cbv iota. rewrite <- Eq.
  assert (Hqk : forall q, q ∈ queue w -> exists k, waits (at_ w q) = Some k /\ waiters (st w) !! q = Some (mk_waiter q (code k))).
  { intros q Hq. by destruct (i_queue _ _ I q Hq) as [_ ?]. }
  destruct (reader_prefix w (queue w)) as (l1 & l2 & El & H1 & H2); [intros q Hq; destruct (Hqk q Hq) as (k & ? & _); by exists k|].
  assert (Hne : l1 <> []).
  { intros ->. cbn in El. rewrite Eq in El. specialize (H2 a l (eq_sym El)). by rewrite Hk in H2. }
  assert (Hfl : forall q k, q ∈ queue w -> waits (at_ w q) = Some k -> waiters (st w) !! q = Some (mk_waiter q (code k))).
  { intros q k Hq Hk'. destruct (Hqk q Hq) as (k' & E & ?). rewrite Hk' in E. by injection E as ->. }
  destruct (wake_readers_ok l1 l2 s0 0) as (s' & E & W & A); try done.
  - rewrite <- El. apply I.
  - intros q Hq. apply Hfl; [rewrite El; set_solver|by apply H1].
  - intros q l' ->. apply Hfl; [rewrite El; set_solver|by eapply H2].
  - rewrite El, E. assert (Hl1 : Z.of_nat (length l1) <= PID_MAX).
    { apply pids_length; [pose proof (i_nodup _ _ I) as H; rewrite El in H; by apply NoDup_app in H as [? _]|].
      intros q Hq. apply (i_queue _ _ I q). rewrite El. set_solver. }
    eexists _, (map (fun q => (q, Reader)) l1). split; [done|]. rewrite A. change (activity (sem s0)) with 0.
    rewrite s32_small by (unfold PID_MAX in Hl1; lia). destruct W as [W1 W2 W3].
    apply (inv_leave w hs p Writer _ l1 l2 Reader (Z.of_nat (length l1))); try done.
    + left. rewrite length_map. split; [|done]. apply Forall_forall. by intros h (q & -> & _)%list_elem_of_fmap.
    + intros q l' E2. split; [done|]. intros _. by eapply H2.
Qed.
End Release.

(** ** All interleavings *)
Definition free_for (k : kind) (s : state) : Prop :=
  match k with Reader => 0 <= activity (sem s) | Writer => activity (sem s) = 0 end /\ wait_list (sem s) = [].
#[export] Instance free_for_dec k s : Decision (free_for k s).
Proof. unfold free_for. destruct k; apply _. Defined.

Lemma down_cases k p s : down k p s =
  (if decide (free_for k s)
   then (true, set_activity (match k with Reader => s32 (activity (sem s) + 1) | Writer => -1 end) s)
   else (false, enqueue p (code k) s)).
Proof.
  destruct k; unfold down, __down_read, __down_write; case_decide as H; unfold free_for in H.
  - destruct H as [H1 H2]. by rewrite (proj2 (Z.leb_le _ _) H1), bool_decide_true.
  - destruct (Z.leb_spec 0 (activity (sem s))); [|done]. rewrite bool_decide_false; [done|tauto].
  - destruct H as [H1 H2]. by rewrite (proj2 (Z.eqb_eq _ _) H1), bool_decide_true.
  - destruct (Z.eqb_spec (activity (sem s)) 0); [|done]. rewrite bool_decide_false; [done|tauto].
Qed.

Lemma inv_step w w' hs : Inv w hs -> step w w' -> exists hs', Inv w' hs'.
Proof.
  intros I Hs. destruct Hs as [w p k granted s' Hr Hp Hd|w p k wt Hp Hw|w p k Hp Ht|w p k Hp|w p k s' Hp Hu|w p].
  - rewrite down_cases in Hd. case_decide as H; injection Hd as <- <-; [exists (hs ++ [(p, k)])|exists hs].
    + destruct H. by apply inv_granted.
    + by apply inv_queued.
  - exists hs. assert (Hk : waits (at_ w p) = Some k) by (by rewrite Hp). unfold truth.
    destruct (Z.eqb_spec (w_flags wt) 0) as [Hf|Hf]; cbn [negb]; apply (inv_move w hs p k); try done; try by left.
    + right. split; [done|]. intros Hq. destruct (i_queue _ _ I p Hq) as (_ & k' & _ & E). rewrite E in Hw. injection Hw as <-. by destruct k'.
    + intros q k' Hq Ht. destruct (decide (q = p)) as [->|Hne]; [by rewrite at_same in Hq|]. rewrite at_other in Hq by done.
      cbn in Ht. rewrite lookup_insert_ne in Ht by done. by apply (i_sleep _ _ I q k').
    + intros q k' Hq Ht. destruct (decide (q = p)) as [->|Hne]; [|rewrite at_other in Hq by done; by apply (i_sleep _ _ I q k')].
      destruct (decide (p ∈ queue w)) as [|Hout]; [done|]. destruct (i_given _ _ I p k Hk Hout) as [E _]. rewrite E in Hw. by injection Hw as <-.
  - exists hs. apply (inv_move w hs p k); try done; [by rewrite Hp|by left|].
    intros q k' Hq Ht'. destruct (decide (q = p)) as [->|Hne]; [by rewrite at_same in Hq|]. rewrite at_other in Hq by done. by apply (i_sleep _ _ I q k').
  - exists hs. apply (inv_move w hs p k); try done; [by rewrite Hp|by left|].
    intros q k' Hq Ht'. destruct (decide (q = p)) as [->|Hne]; [by rewrite at_same in Hq|]. rewrite at_other in Hq by done.
    cbn in Ht'. rewrite lookup_insert_ne in Ht' by done. by apply (i_sleep _ _ I q k').
  - destruct k.
    + destruct (up_read_ok w hs p I Hp) as (s1 & hs' & E & HI). cbn in Hu. rewrite E in Hu. injection Hu as <-. by exists hs'.
    + destruct (up_write_ok w hs p I Hp) as (s1 & hs' & E & HI). cbn in Hu. rewrite E in Hu. injection Hu as <-. by exists hs'.
  - exists hs. destruct I as [I1 I2 I3 I4 I5 I6 I7 I8 I9 I10]. constructor; try done.
    intros q k Hq Ht. apply (I9 q k Hq). cbn in Ht. rewrite lookup_insert in Ht. case_decide; [done|]. done.
Qed.

Lemma inv_reachable running w : rtc step (start_world running) w -> exists hs, Inv w hs.
Proof.
  intros Hr. assert (H0 : exists hs, Inv (start_world running) hs) by (exists []; apply inv_start).
  induction Hr as [w|w w1 w2 Hs _ IH]; [done|]. destruct H0 as [hs I]. apply IH. by eapply inv_step.
Qed.

(** C8. Readers and writers exclude each other: in every state that processes can reach, by requests,
    releases and wake-ups in any order, when one process is between [__down_write] and [__up_write],
    no other process is between its [__down_read] or [__down_write] and its release, and the
    activity of the semaphore is -1; when readers have it, the activity is at least their number. *)
Theorem rwsem_exclusive running w : rtc step (start_world running) w ->
  (forall p, at_ w p = Held Writer -> activity (sem (st w)) = -1 /\ forall q k, at_ w q = Held k -> q = p) /\
  (forall l, NoDup l -> (forall p, p ∈ l -> at_ w p = Held Reader) -> l <> [] -> Z.of_nat (length l) <= activity (sem (st w))).
Proof.
  intros (hs & I)%inv_reachable. split.
  - intros p Hp. destruct (i_held _ _ I p Writer Hp) as [Hin _]. destruct (i_active _ _ I) as [[Hf _]|(p' & -> & Ha)].
    + rewrite Forall_forall in Hf. by specialize (Hf _ Hin).
    + split; [done|]. apply list_elem_of_singleton in Hin. injection Hin as <-. intros q k Hq. destruct (i_held _ _ I q k Hq) as [Hq' _].
      apply list_elem_of_singleton in Hq'. by injection Hq' as -> _.
  - intros l Hnd Hl Hne. assert (Hsub : forall p, p ∈ l -> (p, Reader) ∈ hs) by (intros p Hp; by apply (i_held _ _ I), Hl).
    destruct (i_active _ _ I) as [[_ Ha]|(p' & E & _)].
    + rewrite Ha, <- (length_fmap fst). apply inj_le, submseteq_length, NoDup_submseteq; [done|]. intros p Hp.
      by apply (list_elem_of_fmap_2 fst hs (p, Reader)), Hsub.
    + destruct l as [|p l]; [done|]. specialize (Hsub p ltac:(left)). rewrite E in Hsub. by apply list_elem_of_singleton in Hsub.
Qed.

(** The semaphore is given in the order of arrival: the processes that wait are, in the order of
    the list, those that arrived last; a request that came after that of a waiting process, be it
    a reader's while readers are active, waits too. *)
Theorem rwsem_fifo running w : rtc step (start_world running) w ->
  exists given waiting, arrivals w = given ++ waiting /\ waiting.*1 = wait_list (sem (st w)) /\ NoDup waiting.*1 /\
    forall p k, (p, k) ∈ waiting -> waits (at_ w p) = Some k /\ waiters (st w) !! p = Some (mk_waiter p (code k)).
Proof.
  intros (hs & I)%inv_reachable. destruct (i_fifo _ _ I) as (gs & qs & E1 & E2 & E3). exists gs, qs. split_and!; try done.
  - rewrite E2. apply I.
  - intros p k Hin. specialize (E3 p k Hin). split; [done|]. destruct (i_queue _ _ I p) as (_ & k' & H1 & H2).
    + rewrite <- E2. by apply (list_elem_of_fmap_2 fst qs (p, k)).
    + rewrite E3 in H1. by injection H1 as ->.
Qed.

(** C9. No wake-up is lost and no call faults: a process that sleeps in [schedule] is on the list of the
    semaphore, and another process, which does not sleep, has the semaphore or has been given it; a
    process that has it can release it. *)
Theorem rwsem_no_lost_wakeup running w : rtc step (start_world running) w ->
  (forall p k, at_ w p = Sched k -> tstate (st w) !! p <> Some TASK_RUNNING ->
    p ∈ wait_list (sem (st w)) /\
    exists q k', q <> p /\ (at_ w q = Held k' \/ (waits (at_ w q) = Some k' /\ waiters (st w) !! q = Some (mk_waiter q 0) /\
      (at_ w q = Sched k' -> tstate (st w) !! q = Some TASK_RUNNING)))) /\
  (forall p k, at_ w p = Held k -> exists s', up k (st w) = Ok s').
Proof.
  intros (hs & I)%inv_reachable. split.
  - intros p k Hp Ht. pose proof (i_sleep _ _ I p k Hp Ht) as Hq. split; [done|].
    destruct (queue w) as [|a l] eqn:Eq; [by apply elem_of_nil in Hq|]. destruct (i_contended _ _ I a l Eq) as [Hne _].
    destruct hs as [|[q k'] hs]; [done|]. destruct (i_hs _ _ I q k' ltac:(left)) as (_ & Hout & Hst).
    exists q, k'. split; [intros ->; by rewrite Eq in Hout|]. destruct Hst as [Hst|Hst]; [by left|right].
    destruct (i_given _ _ I q k' Hst Hout) as [Hw _]. split_and!; try done. intros Hs.
    destruct (decide (tstate (st w) !! q = Some TASK_RUNNING)) as [|Hno]; [done|]. by destruct (Hout (i_sleep _ _ I q k' Hs Hno)).
  - intros p [|] Hp; [destruct (up_read_ok w hs p I Hp) as (s' & _ & E & _)|destruct (up_write_ok w hs p I Hp) as (s' & _ & E & _)]; by exists s'.
Qed.

(** A reader has the semaphore, a writer sleeps, a second reader has queued behind it. *)
Definition busy_world : world :=
  mk_world (mk_state (mk_rwsem 1 [2; 3]) {[2 := mk_waiter 2 2; 3 := mk_waiter 3 1]} {[2 := TASK_UNINTERRUPTIBLE; 3 := TASK_UNINTERRUPTIBLE]})
    {[1 := Held Reader; 2 := Sched Writer; 3 := Check Reader]} [(1, Reader); (2, Writer); (3, Reader)].
Lemma busy_reachable : rtc step (start_world ∅) busy_world.
Proof.
  eapply rtc_l; [eapply (step_down _ 1 Reader); [done|done|reflexivity]|].
  eapply rtc_l; [eapply (step_down _ 2 Writer); [done|done|reflexivity]|].
  eapply rtc_l; [eapply (step_down _ 3 Reader); [done|done|reflexivity]|].
  apply rtc_once. refine (eq_rect _ (step _) (step_check _ 2 Writer (mk_waiter 2 2) _ _) _ _); vm_compute; reflexivity.
Qed.
Lemma rwsem_exclusive_witness :
  (forall p, at_ busy_world p = Held Writer -> activity (sem (st busy_world)) = -1 /\ forall q k, at_ busy_world q = Held k -> q = p) /\
  (forall l, NoDup l -> (forall p, p ∈ l -> at_ busy_world p = Held Reader) -> l <> [] -> Z.of_nat (length l) <= activity (sem (st busy_world))).
Proof. exact (rwsem_exclusive ∅ busy_world busy_reachable). Defined.
Lemma rwsem_fifo_witness :
  exists given waiting, arrivals busy_world = given ++ waiting /\ waiting.*1 = wait_list (sem (st busy_world)) /\ NoDup waiting.*1 /\
    forall p k, (p, k) ∈ waiting -> waits (at_ busy_world p) = Some k /\ waiters (st busy_world) !! p = Some (mk_waiter p (code k)).
Proof. exact (rwsem_fifo ∅ busy_world busy_reachable). Defined.
Lemma rwsem_no_lost_wakeup_witness :
  2 ∈ wait_list (sem (st busy_world)) /\
  exists q k', q <> 2 /\ (at_ busy_world q = Held k' \/ (waits (at_ busy_world q) = Some k' /\ waiters (st busy_world) !! q = Some (mk_waiter q 0) /\
      (at_ busy_world q = Sched k' -> tstate (st busy_world) !! q = Some TASK_RUNNING))).
Proof. apply (proj1 (rwsem_no_lost_wakeup ∅ busy_world busy_reachable) 2 Writer); [reflexivity|]. vm_compute. discriminate. Defined.
