(* ===== verification/Rbtree.v ===== *)
(** Red-black trees: lib/rbtree.c and include/linux/rbtree.h.

    The nodes live in a store: a finite map from addresses to [rb_node] cells with the four fields
    of the C structure, beside the pointer of the root. A pointer is an integer, 0 is NULL, and an
    access through NULL or through an address that holds no node is a fault ([Bug]). Each C
    function is a definition in the small monad of such accesses, statement by statement; a loop
    takes as fuel one more than the number of nodes in the store, and running out of it is a fault
    as well, so that "the function returns" includes both.

    The specification is the inductive type [tree] and the relation [Tree], which says that a store
    holds a tree: every cell has the right children and the right parent, no address occurs twice,
    and all other cells are those of a given store. [plug] puts a subtree into a context, the path
    from it to the root, and each C statement that changes the tree becomes a lemma about a subtree
    in an arbitrary context. [rb] is the red-black property. *)
From S2P Require Import Prelude.

(** ** The structures *)
Record rb_node := mk_rb_node {
  rb_parent : Z;
  rb_color : Z;
  rb_right : Z;
  rb_left : Z
}.
#[export] Instance rb_node_fields : Fields rb_node :=
  fun n => mk_rb_node (rb_parent n) (rb_color n) (rb_right n) (rb_left n).
#[export] Instance rb_node_eq_dec : EqDecision rb_node.
Proof. solve_decision. Defined.

Definition RB_RED : Z := 0.
Definition RB_BLACK : Z := 1.

(** The store of the nodes and the [rb_root_t]. *)
Record rb_state := mk_rb_state {
  nodes : gmap Z rb_node;
  root : Z
}.

(** [RB_ROOT], with the nodes that are in no tree yet. *)
Definition RB_ROOT (free : gmap Z rb_node) : rb_state := mk_rb_state free 0.

(** ** Accesses through pointers *)
Definition M (A : Type) : Type := rb_state -> outcome (A * rb_state).
#[export] Instance M_ret : MRet M := fun A a s => Ok (a, s).
#[export] Instance M_bind : MBind M := fun A B f m s =>
  match m s with Ok (a, s') => f a s' | Bug => Bug end.

(** A field of a node. *)
Inductive field := Parent | Color | Right | Left.

Definition read_field (f : field) (n : rb_node) : Z :=
  match f with
  | Parent => rb_parent n
  | Color => rb_color n
  | Right => rb_right n
  | Left => rb_left n
  end.
Definition write_field (f : field) (v : Z) (n : rb_node) : rb_node :=
  match f with
  | Parent => n <| rb_parent := v |>
  | Color => n <| rb_color := v |>
  | Right => n <| rb_right := v |>
  | Left => n <| rb_left := v |>
  end.

(** The value of [a->f], the assignments [a->f = v] and [root->rb_node = v]. *)
Definition rd (a : Z) (f : field) : M Z := fun s =>
  match nodes s !! a with
  | Some n => Ok (read_field f n, s)
  | None => Bug
  end.
Definition wr (a : Z) (f : field) (v : Z) : M unit := fun s =>
  match nodes s !! a with
  | Some n => Ok (tt, mk_rb_state (<[a := write_field f v n]> (nodes s)) (root s))
  | None => Bug
  end.
Definition rd_root : M Z := fun s => Ok (root s, s).
Definition wr_root (v : Z) : M unit := fun s => Ok (tt, mk_rb_state (nodes s) v).

(** The fuel of a loop over the nodes. *)
Definition with_fuel {A} (f : nat -> M A) : M A := fun s => f (S (size (nodes s))) s.
Definition fault {A} : M A := fun _ => Bug.

(** [if (c) m]. *)
Definition whenM (c : bool) (m : M unit) : M unit := if c then m else mret tt.

(** ** The functions *)
Definition __rb_rotate_left (node : Z) : M unit :=
  right ← rd node Right;
  rl ← rd right Left;
  wr node Right rl;;
  whenM (truth rl) (wr rl Parent node);;
  wr right Left node;;
  parent ← rd node Parent;
  wr right Parent parent;;
  (if truth parent then
     pl ← rd parent Left;
     if node =? pl then wr parent Left right else wr parent Right right
   else wr_root right);;
  wr node Parent right.

Definition __rb_rotate_right (node : Z) : M unit :=
  left ← rd node Left;
  lr ← rd left Right;
  wr node Left lr;;
  whenM (truth lr) (wr lr Parent node);;
  wr left Right node;;
  parent ← rd node Parent;
  wr left Parent parent;;
  (if truth parent then
     pr ← rd parent Right;
     if node =? pr then wr parent Right left else wr parent Left left
   else wr_root left);;
  wr node Parent left.

(** A place that holds the pointer to a node: [rb_node_t **]. *)
Inductive link := AtRoot | AtLeft (a : Z) | AtRight (a : Z).

Definition rd_link (l : link) : M Z :=
  match l with
  | AtRoot => rd_root
  | AtLeft a => rd a Left
  | AtRight a => rd a Right
  end.
Definition wr_link (l : link) (v : Z) : M unit :=
  match l with
  | AtRoot => wr_root v
  | AtLeft a => wr a Left v
  | AtRight a => wr a Right v
  end.

Definition rb_link_node (node parent : Z) (rb_link : link) : M unit :=
  wr node Parent parent;;
  wr node Color RB_RED;;
  wr node Right 0;;
  wr node Left 0;;
  wr_link rb_link node.

(** [p && p->rb_color == RB_RED] *)
Definition is_red (p : Z) : M bool :=
  if truth p then c ← rd p Color; mret (c =? RB_RED) else mret false.

Fixpoint rb_insert_loop (fuel : nat) (node : Z) : M unit :=
  match fuel with
  | O => fault
  | S fuel =>
    parent ← rd node Parent;
    red ← is_red parent;
    if red : bool then
      gparent ← rd parent Parent;
      gl ← rd gparent Left;
      if parent =? gl then
        uncle ← rd gparent Right;
        ured ← is_red uncle;
        if ured : bool then
          wr uncle Color RB_BLACK;;
          wr parent Color RB_BLACK;;
          wr gparent Color RB_RED;;
          rb_insert_loop fuel gparent
        else
          pr ← rd parent Right;
          '(parent, node) ← (if pr =? node
            then __rb_rotate_left parent;; mret (node, parent)
            else mret (parent, node));
          wr parent Color RB_BLACK;;
          wr gparent Color RB_RED;;
          __rb_rotate_right gparent;;
          rb_insert_loop fuel node
      else
        uncle ← rd gparent Left;
        ured ← is_red uncle;
        if ured : bool then
          wr uncle Color RB_BLACK;;
          wr parent Color RB_BLACK;;
          wr gparent Color RB_RED;;
          rb_insert_loop fuel gparent
        else
          pl ← rd parent Left;
          '(parent, node) ← (if pl =? node
            then __rb_rotate_right parent;; mret (node, parent)
            else mret (parent, node));
          wr parent Color RB_BLACK;;
          wr gparent Color RB_RED;;
          __rb_rotate_left gparent;;
          rb_insert_loop fuel node
    else mret tt
  end.

Definition rb_insert_color (node : Z) : M unit :=
  with_fuel (fun fuel => rb_insert_loop fuel node);;
  r ← rd_root;
  wr r Color RB_BLACK.

(** [!p || p->rb_color == RB_BLACK] *)
Definition is_black (p : Z) : M bool :=
  if truth p then c ← rd p Color; mret (c =? RB_BLACK) else mret true.

(** The rest of an iteration once [other], the sibling, is black: the node is the left child of
    its parent, or the right one. [loop] is the next iteration; [break] returns the root. *)
Definition erase_black_left (loop : Z -> Z -> M Z) (parent other : Z) : M Z :=
  ol ← rd other Left;
  lblack ← is_black ol;
  both ← (if lblack : bool then o ← rd other Right; is_black o else mret false);
  if both : bool then
    wr other Color RB_RED;;
    up ← rd parent Parent;
    loop parent up
  else
    o ← rd other Right;
    oblack ← is_black o;
    other ← (if oblack : bool then
      o_left ← rd other Left;
      whenM (truth o_left) (wr o_left Color RB_BLACK);;
      wr other Color RB_RED;;
      __rb_rotate_right other;;
      rd parent Right
    else mret other);
    pc ← rd parent Color;
    wr other Color pc;;
    wr parent Color RB_BLACK;;
    o ← rd other Right;
    whenM (truth o) (wr o Color RB_BLACK);;
    __rb_rotate_left parent;;
    rd_root.

Definition erase_black_right (loop : Z -> Z -> M Z) (parent other : Z) : M Z :=
  ol ← rd other Left;
  lblack ← is_black ol;
  both ← (if lblack : bool then o ← rd other Right; is_black o else mret false);
  if both : bool then
    wr other Color RB_RED;;
    up ← rd parent Parent;
    loop parent up
  else
    o ← rd other Left;
    oblack ← is_black o;
    other ← (if oblack : bool then
      o_right ← rd other Right;
      whenM (truth o_right) (wr o_right Color RB_BLACK);;
      wr other Color RB_RED;;
      __rb_rotate_left other;;
      rd parent Left
    else mret other);
    pc ← rd parent Color;
    wr other Color pc;;
    wr parent Color RB_BLACK;;
    o ← rd other Left;
    whenM (truth o) (wr o Color RB_BLACK);;
    __rb_rotate_right parent;;
    rd_root.

(** The body of the loop of [__rb_erase_color]. *)
Definition erase_body (loop : Z -> Z -> M Z) (node parent : Z) : M Z :=
  pl ← rd parent Left;
  if pl =? node then
    other ← rd parent Right;
    oc ← rd other Color;
    other ← (if oc =? RB_RED then
      wr other Color RB_BLACK;;
      wr parent Color RB_RED;;
      __rb_rotate_left parent;;
      rd parent Right
    else mret other);
    erase_black_left loop parent other
  else
    other ← rd parent Left;
    oc ← rd other Color;
    other ← (if oc =? RB_RED then
      wr other Color RB_BLACK;;
      wr parent Color RB_RED;;
      __rb_rotate_right parent;;
      rd parent Left
    else mret other);
    erase_black_right loop parent other.

(** The loop returns the value of [node] at its end. *)
Fixpoint rb_erase_loop (fuel : nat) (node parent : Z) : M Z :=
  match fuel with
  | O => fault
  | S fuel =>
    black ← is_black node;
    r ← rd_root;
    if (black : bool) && negb (node =? r) then erase_body (rb_erase_loop fuel) node parent
    else mret node
  end.

Definition __rb_erase_color (node parent : Z) : M unit :=
  node ← with_fuel (fun fuel => rb_erase_loop fuel node parent);
  whenM (truth node) (wr node Color RB_BLACK).

(** [while ((left = node->rb_left)) node = left;] *)
Fixpoint leftmost_loop (fuel : nat) (node : Z) : M Z :=
  match fuel with
  | O => fault
  | S fuel =>
    left ← rd node Left;
    if truth left then leftmost_loop fuel left else mret node
  end.

(** Taking a node with at most one child out of the tree:
    [if (child) child->rb_parent = parent; if (parent) {...} else root->rb_node = child;] *)
Definition take_out (node child parent : Z) : M unit :=
  whenM (truth child) (wr child Parent parent);;
  if truth parent then
    pl ← rd parent Left;
    if pl =? node then wr parent Left child else wr parent Right child
  else wr_root child.

(** The node takes the place of [old]: its four fields, the pointer in the parent of [old] and the
    parents of the children of [old]. *)
Definition take_place (old node : Z) : M unit :=
  op ← rd old Parent;
  wr node Parent op;;
  oc ← rd old Color;
  wr node Color oc;;
  or ← rd old Right;
  wr node Right or;;
  ol ← rd old Left;
  wr node Left ol;;
  (if truth op then
     opl ← rd op Left;
     if opl =? old then wr op Left node else wr op Right node
   else wr_root node);;
  wr ol Parent node;;
  whenM (truth or) (wr or Parent node).

Definition rb_erase (node : Z) : M unit :=
  nl ← rd node Left;
  nr ← rd node Right;
  '(child, parent, color) ←
    (if negb (truth nl && truth nr) then
       let child := if negb (truth nl) then nr else nl in
       parent ← rd node Parent;
       color ← rd node Color;
       take_out node child parent;;
       mret (child, parent, color)
     else
       let old := node in
       node ← rd old Right;
       node ← with_fuel (fun fuel => leftmost_loop fuel node);
       child ← rd node Right;
       parent ← rd node Parent;
       color ← rd node Color;
       take_out node child parent;;
       np ← rd node Parent;
       let parent := if np =? old then node else parent in
       take_place old node;;
       mret (child, parent, color));
  whenM (color =? RB_BLACK) (__rb_erase_color child parent).

(** ** The specification: trees and red-black trees *)
Inductive color := Red | Black.
#[export] Instance color_eq_dec : EqDecision color.
Proof. solve_decision. Defined.
Definition code (c : color) : Z := match c with Red => RB_RED | Black => RB_BLACK end.

Inductive tree := Leaf | Node (c : color) (l : tree) (a : Z) (r : tree).
#[export] Instance tree_eq_dec : EqDecision tree.
Proof. solve_decision. Defined.
Definition ptr (t : tree) : Z := match t with Leaf => 0 | Node _ _ a _ => a end.

(** The nodes of a tree from left to right. *)
Fixpoint inorder (t : tree) : list Z :=
  match t with
  | Leaf => []
  | Node _ l a r => inorder l ++ a :: inorder r
  end.

(** The store holds the tree [t], whose root has the parent [p]. *)
Fixpoint holds (h : gmap Z rb_node) (p : Z) (t : tree) : Prop :=
  match t with
  | Leaf => True
  | Node c l a r =>
    a <> 0 /\ h !! a = Some (mk_rb_node p (code c) (ptr r) (ptr l)) /\ holds h a l /\ holds h a r
  end.

(** The state holds [t], and the store [F] outside of its nodes. *)
Record Tree (F : gmap Z rb_node) (s : rb_state) (t : tree) : Prop := {
  tree_holds : holds (nodes s) 0 t;
  tree_root : root s = ptr t;
  tree_nodup : NoDup (inorder t);
  tree_frame : forall a, a ∉ inorder t -> nodes s !! a = F !! a
}.

(** [rb n c t]: a red-black tree with [n] black nodes on every path and the root colour [c]
    ([Black] for the empty tree). *)
Inductive rb : nat -> color -> tree -> Prop :=
| rb_leaf : rb 0 Black Leaf
| rb_red n l a r : rb n Black l -> rb n Black r -> rb n Red (Node Red l a r)
| rb_black n c1 c2 l a r : rb n c1 l -> rb n c2 r -> rb (S n) Black (Node Black l a r).

(** A whole tree also has a black root. *)
Definition rb_tree (t : tree) : Prop := exists n, rb n Black t.

(** ** Contexts *)
Inductive side := L | R.
Record frame := mk_frame { f_side : side; f_color : color; f_addr : Z; f_sib : tree }.

(** The node with the subtree [t] on the side [d] and [sib] on the other. *)
Definition node_of (d : side) (c : color) (t : tree) (a : Z) (sib : tree) : tree :=
  match d with L => Node c t a sib | R => Node c sib a t end.

Fixpoint plug (k : list frame) (t : tree) : tree :=
  match k with
  | [] => t
  | mk_frame d c a sib :: k => plug k (node_of d c t a sib)
  end.

Definition top (k : list frame) : Z := match k with [] => 0 | f :: _ => f_addr f end.

(** The nodes of a context before and after the hole. *)
Fixpoint before (k : list frame) : list Z :=
  match k with
  | [] => []
  | mk_frame L _ _ _ :: k => before k
  | mk_frame R _ a sib :: k => before k ++ inorder sib ++ [a]
  end.
Fixpoint after (k : list frame) : list Z :=
  match k with
  | [] => []
  | mk_frame L _ a sib :: k => a :: inorder sib ++ after k
  | mk_frame R _ _ _ :: k => after k
  end.

Lemma inorder_plug k t : inorder (plug k t) = before k ++ inorder t ++ after k.
Proof.
  revert t; induction k as [|[[] c a sib] k IH]; intros t; simpl.
  - by rewrite app_nil_r.
  - rewrite IH; simpl. by rewrite <- !app_assoc.
  - rewrite IH; simpl. by rewrite <- !app_assoc.
Qed.

(** What a store holds of a context: the node in the hole is [q]. *)
Fixpoint holds_ctx (h : gmap Z rb_node) (k : list frame) (q : Z) : Prop :=
  match k with
  | [] => True
  | mk_frame d c a sib :: k =>
    a <> 0 /\
    h !! a = Some (mk_rb_node (top k) (code c)
                     (match d with L => ptr sib | R => q end)
                     (match d with L => q | R => ptr sib end)) /\
    holds h a sib /\ holds_ctx h k a
  end.

Lemma holds_plug h k t :
  holds h 0 (plug k t) <-> holds h (top k) t /\ holds_ctx h k (ptr t).
Proof.
  revert t; induction k as [|[[] c a sib] k IH]; intros t; simpl; [tauto| |];
    rewrite IH; simpl; tauto.
Qed.

Lemma root_plug k t : ptr (plug k t) = match k with [] => ptr t | _ => ptr (plug k Leaf) end.
Proof.
  destruct k as [|[d c a sib] k]; [done|].
  simpl. revert d c a sib t; induction k as [|[d' c' a' sib'] k IH]; intros d c a sib t; simpl.
  - by destruct d.
  - rewrite IH. symmetry. by rewrite IH.
Qed.

(** A store that agrees on the nodes of a tree or context holds it too. *)
Lemma holds_agree h h' p t :
  (forall a, a ∈ inorder t -> h' !! a = h !! a) -> holds h p t -> holds h' p t.
Proof.
  revert p; induction t as [|c l IHl a r IHr]; intros p Heq; simpl; [done|].
  intros (H0 & Ha & Hl & Hr). split_and!; [done| |apply IHl|apply IHr]; try done.
  - rewrite Heq by (simpl; apply elem_of_app; right; left). done.
  - intros x Hx. apply Heq; simpl; apply elem_of_app; by left.
  - intros x Hx. apply Heq; simpl; apply elem_of_app; right; by right.
Qed.

Lemma holds_ctx_agree h h' k q :
  (forall a, a ∈ before k ++ after k -> h' !! a = h !! a) -> holds_ctx h k q -> holds_ctx h' k q.
Proof.
  revert q; induction k as [|[d c a sib] k IH]; intros q Heq; simpl; [done|].
  assert (Ha : h' !! a = h !! a).
  { apply Heq; destruct d; simpl; rewrite !elem_of_app, ?elem_of_cons; tauto. }
  intros (H0 & Hn & Hs & Hk). split_and!; [done|by rewrite Ha| |].
  - eapply holds_agree; [|done]. intros x Hx. apply Heq.
    destruct d; simpl; rewrite !elem_of_app, ?elem_of_cons, ?elem_of_app; tauto.
  - apply IH; [|done]. intros x Hx. apply Heq. apply elem_of_app in Hx.
    destruct d; simpl; rewrite !elem_of_app, ?elem_of_cons, ?elem_of_app; tauto.
Qed.

(** ** Changing the parent of a subtree and the subtree of a context *)
Definition reparent (t : tree) (p : Z) (h : gmap Z rb_node) : gmap Z rb_node :=
  match t with
  | Leaf => h
  | Node c l a r => <[a := mk_rb_node p (code c) (ptr r) (ptr l)]> h
  end.

Definition set_hole (k : list frame) (q : Z) (h : gmap Z rb_node) : gmap Z rb_node :=
  match k with
  | [] => h
  | mk_frame d c a sib :: k =>
    <[a := mk_rb_node (top k) (code c) (match d with L => ptr sib | R => q end)
             (match d with L => q | R => ptr sib end)]> h
  end.
Definition set_root (k : list frame) (q r : Z) : Z := match k with [] => q | _ => r end.

Lemma ptr_inorder t : ptr t <> 0 -> ptr t ∈ inorder t.
Proof. destruct t; simpl; [done|]. intros _. apply elem_of_app; right; left. Qed.
Lemma top_ctx k : k <> [] -> top k ∈ before k ++ after k.
Proof.
  destruct k as [|[[] c a sib] k]; [done| |]; intros _; simpl;
    rewrite !elem_of_app, ?elem_of_cons; tauto.
Qed.

Lemma lookup_reparent_ne t p h a : a ∉ inorder t -> reparent t p h !! a = h !! a.
Proof.
  destruct t as [|c l b r]; simpl; [done|]. rewrite elem_of_app, elem_of_cons. intros Ha.
  rewrite lookup_insert_ne; [done|]. intros ->; tauto.
Qed.
Lemma lookup_set_hole_ne k q h a : a ∉ before k ++ after k -> set_hole k q h !! a = h !! a.
Proof.
  intros Ha. destruct k as [|[d c b sib] k]; [done|].
  pose proof (top_ctx (mk_frame d c b sib :: k)) as Hb. simpl in *.
  rewrite lookup_insert_ne; [done|]. intros ->. by apply Ha, Hb.
Qed.

(** These changes at an address depend on the store at that address only. *)
Lemma reparent_ext t p h h' a : h !! a = h' !! a -> reparent t p h !! a = reparent t p h' !! a.
Proof. destruct t as [|c l b r]; simpl; [done|]. intros Ha. by rewrite !lookup_insert, Ha. Qed.
Lemma set_hole_ext k q h h' a : h !! a = h' !! a -> set_hole k q h !! a = set_hole k q h' !! a.
Proof. destruct k as [|[d c b sib] k]; simpl; [done|]. intros Ha. by rewrite !lookup_insert, Ha. Qed.

Lemma holds_reparent h h' p q t :
  NoDup (inorder t) -> holds h p t ->
  (forall a, a ∈ inorder t -> h' !! a = reparent t q h !! a) -> holds h' q t.
Proof.
  destruct t as [|c l a r]; simpl; [done|]. intros Hnd (H0 & Ha & Hl & Hr) Heq.
  apply NoDup_app in Hnd as (_ & Hd & Hnr). apply NoDup_cons in Hnr as [Har _].
  assert (Hal : a ∉ inorder l) by (intros ?; eapply Hd; [done|left]).
  split_and!; [done| |eapply holds_agree; [|done]..].
  - rewrite Heq by (apply elem_of_app; right; left). by rewrite lookup_insert_eq.
  - intros x Hx. rewrite Heq by (apply elem_of_app; by left).
    rewrite lookup_insert_ne; [done|]. by intros ->.
  - intros x Hx. rewrite Heq by (apply elem_of_app; right; by right).
    rewrite lookup_insert_ne; [done|]. by intros ->.
Qed.

Lemma holds_set_hole h h' k q q' :
  NoDup (before k ++ after k) -> holds_ctx h k q ->
  (forall a, a ∈ before k ++ after k -> h' !! a = set_hole k q' h !! a) -> holds_ctx h' k q'.
Proof.
  destruct k as [|[d c a sib] k]; simpl; [done|]. intros Hnd (H0 & Ha & Hs & Hk) Heq.
  assert (Hin : forall x, x ∈ before k ++ after k \/ x ∈ inorder sib ->
            x ∈ before (mk_frame d c a sib :: k) ++ after (mk_frame d c a sib :: k) /\ x <> a).
  { intros x Hx. rewrite elem_of_app in Hx. destruct d; simpl in *; split.
    - rewrite !elem_of_app, elem_of_cons, elem_of_app. tauto.
    - intros ->. apply NoDup_app in Hnd as (_ & Hd & Hn).
      apply NoDup_cons in Hn as [Hn _]. rewrite elem_of_app in Hn.
      destruct Hx as [[Hx|Hx]|Hx]; [|tauto..]. apply (Hd a Hx). left.
    - rewrite !elem_of_app. tauto.
    - intros ->. apply NoDup_app in Hnd as (Hn & Hd & _).
      assert (a ∉ after k) by (apply Hd; rewrite !elem_of_app, list_elem_of_singleton; tauto).
      apply NoDup_app in Hn as (_ & Hd2 & Hn).
      destruct Hx as [[Hx|Hx]|Hx]; [|done|].
      + apply (Hd2 a Hx). rewrite elem_of_app, list_elem_of_singleton; tauto.
      + apply NoDup_app in Hn as (_ & Hd3 & _). apply (Hd3 a Hx). left. }
  pose proof (top_ctx (mk_frame d c a sib :: k)) as Htop.
  split_and!; [done| |eapply holds_agree; [|done]|eapply holds_ctx_agree; [|done]].
  - rewrite Heq by (by apply Htop). by rewrite lookup_insert_eq.
  - intros x Hx. destruct (Hin x) as [? Hne]; [tauto|].
    rewrite Heq by done. by rewrite lookup_insert_ne.
  - intros x Hx. destruct (Hin x) as [? Hne]; [tauto|].
    rewrite Heq by done. by rewrite lookup_insert_ne.
Qed.

(** ** Running the accesses *)
Lemma bind_ok {A B} (f : A -> M B) (m : M A) s a s' :
  m s = Ok (a, s') -> (m ≫= f) s = f a s'.
Proof. unfold mbind, M_bind. by intros ->. Qed.
Lemma bind_assoc {A B C} (m : M A) (f : A -> M B) (g : B -> M C) s :
  ((m ≫= f) ≫= g) s = (m ≫= (fun a => f a ≫= g)) s.
Proof. unfold mbind, M_bind. by destruct (m s) as [[a s']|]. Qed.
Lemma rd_ok s a n f : nodes s !! a = Some n -> rd a f s = Ok (read_field f n, s).
Proof. unfold rd. by intros ->. Qed.
Lemma wr_ok s a n f v : nodes s !! a = Some n ->
  wr a f v s = Ok (tt, mk_rb_state (<[a := write_field f v n]> (nodes s)) (root s)).
Proof. unfold wr. by intros ->. Qed.
Lemma truth_nz a : a <> 0 -> truth a = true.
Proof. unfold truth. case_cmp; done. Qed.

Lemma reparent_ok s p q t : holds (nodes s) p t ->
  whenM (truth (ptr t)) (wr (ptr t) Parent q) s
  = Ok (tt, mk_rb_state (reparent t q (nodes s)) (root s)).
Proof.
  destruct t as [|c l a r]; simpl; [by destruct s|]. intros (H0 & Ha & _ & _).
  rewrite truth_nz by done. simpl. by erewrite wr_ok by done.
Qed.

Lemma reparent_ok' s p q t : t <> Leaf -> holds (nodes s) p t ->
  wr (ptr t) Parent q s = Ok (tt, mk_rb_state (reparent t q (nodes s)) (root s)).
Proof.
  intros Hne Ht. rewrite <- (reparent_ok s p q t Ht). destruct t as [|c l a r]; [done|].
  destruct Ht as (H0 & _). simpl. by rewrite truth_nz by done.
Qed.

(** The pointer to the subtree is found in the parent whichever side is tried first. *)
Section Relink.
Context (s : rb_state) (k : list frame) (q new : Z).
Hypothesis Hk : holds_ctx (nodes s) k q.
Hypothesis Hq : q <> 0.
Hypothesis Hout : q ∉ before k ++ after k.

Let result : outcome (unit * rb_state) :=
  Ok (tt, mk_rb_state (set_hole k new (nodes s)) (set_root k new (root s))).

Lemma sib_ne d c a sib k' : k = mk_frame d c a sib :: k' -> q <> ptr sib.
Proof.
  intros -> ->. apply Hout. pose proof (ptr_inorder sib Hq).
  destruct d; simpl; rewrite !elem_of_app, ?elem_of_cons, ?elem_of_app; tauto.
Qed.

Lemma relink_left : (if truth (top k) then
    pl ← rd (top k) Left;
    if q =? pl then wr (top k) Left new else wr (top k) Right new
  else wr_root new) s = result.
Proof using All.
  pose proof sib_ne as Hs. unfold result.
  destruct k as [|[d c a sib] k']; [done|]. destruct Hk as (H0 & Ha & _ & _). simpl.
  rewrite truth_nz by done. erewrite bind_ok by (by apply rd_ok). simpl.
  specialize (Hs _ _ _ _ _ eq_refl).
  destruct d; case_cmp; try congruence; by erewrite wr_ok by exact Ha.
Qed.

Lemma relink_right : (if truth (top k) then
    pr ← rd (top k) Right;
    if q =? pr then wr (top k) Right new else wr (top k) Left new
  else wr_root new) s = result.
Proof using All.
  pose proof sib_ne as Hs. unfold result.
  destruct k as [|[d c a sib] k']; [done|]. destruct Hk as (H0 & Ha & _ & _). simpl.
  rewrite truth_nz by done. erewrite bind_ok by (by apply rd_ok). simpl.
  specialize (Hs _ _ _ _ _ eq_refl).
  destruct d; case_cmp; try congruence; by erewrite wr_ok by exact Ha.
Qed.

Lemma relink_left' : (if truth (top k) then
    pl ← rd (top k) Left;
    if pl =? q then wr (top k) Left new else wr (top k) Right new
  else wr_root new) s = result.
Proof using All.
  rewrite <- relink_left. destruct (truth (top k)); [|done].
  unfold mbind, M_bind. destruct (rd (top k) Left s) as [[pl s']|]; [|done].
  by rewrite Z.eqb_sym.
Qed.
End Relink.

(** ** Subtrees in their contexts *)
Section Focus.
Context (F : gmap Z rb_node) (s : rb_state) (k : list frame) (t : tree).
Hypothesis HT : Tree F s (plug k t).

Lemma focus_holds : holds (nodes s) (top k) t.
Proof using All. by destruct (proj1 (holds_plug _ _ _) (tree_holds _ _ _ HT)). Qed.
Lemma focus_ctx : holds_ctx (nodes s) k (ptr t).
Proof using All. by destruct (proj1 (holds_plug _ _ _) (tree_holds _ _ _ HT)). Qed.

Lemma focus_nodup : NoDup (inorder t ++ before k ++ after k).
Proof using All.
  pose proof (tree_nodup _ _ _ HT) as Hn. rewrite inorder_plug in Hn.
  eapply NoDup_Permutation_proper; [|exact Hn].
  rewrite !app_assoc. apply Permutation_app_tail, Permutation_app_comm.
Qed.

Lemma focus_node c l a r : t = Node c l a r ->
  nodes s !! a = Some (mk_rb_node (top k) (code c) (ptr r) (ptr l)) /\ a <> 0.
Proof using All. intros Ht. pose proof focus_holds as Hh. rewrite Ht in Hh. by destruct Hh as (? & ? & _). Qed.

(** Replacing the subtree in the hole. *)
Lemma focus_change F' s' t' :
  NoDup (inorder t' ++ before k ++ after k) ->
  holds (nodes s') (top k) t' ->
  (forall a, a ∈ before k ++ after k -> nodes s' !! a = set_hole k (ptr t') (nodes s) !! a) ->
  root s' = set_root k (ptr t') (root s) ->
  (forall a, a ∉ inorder t' -> a ∉ before k ++ after k -> nodes s' !! a = F' !! a) ->
  Tree F' s' (plug k t').
Proof using All.
  intros Hnd Hh Hk Hr HF. constructor.
  - apply holds_plug. split; [done|].
    eapply holds_set_hole; [|apply focus_ctx|done].
    by apply NoDup_app in Hnd as (_ & _ & ?).
  - rewrite root_plug, Hr, (tree_root _ _ _ HT), root_plug. by destruct k.
  - rewrite inorder_plug. eapply NoDup_Permutation_proper; [|exact Hnd].
    rewrite !app_assoc. apply Permutation_app_tail, Permutation_app_comm.
  - intros a. rewrite inorder_plug, !elem_of_app. intros Ha. apply HF; [tauto|].
    rewrite elem_of_app. tauto.
Qed.
End Focus.

(** ** Rotations *)

(** Facts about distinct nodes, from the absence of duplicates in a list of them. *)
Ltac nodup_facts H :=
  lazymatch type of H with
  | NoDup (_ ++ _) =>
    let H1 := fresh in let H2 := fresh in let H3 := fresh in
    apply NoDup_app in H as (H1 & H2 & H3); nodup_facts H1; nodup_facts H3
  | NoDup (_ :: _) =>
    let H1 := fresh in let H2 := fresh in
    apply NoDup_cons in H as [H1 H2]; nodup_facts H2
  | _ => idtac
  end.

(** The cell at an address after a sequence of changes elsewhere. *)
Ltac apart := first [assumption | congruence | intros ->; congruence].
Ltac cell :=
  cbn [nodes root];
  repeat first
    [ rewrite lookup_insert_eq
    | rewrite lookup_insert_ne by apart
    | rewrite lookup_reparent_ne by apart
    | rewrite lookup_set_hole_ne by apart ].
Ltac run_rd :=
  erewrite bind_ok by (apply rd_ok; cell; first [eassumption | reflexivity]);
  cbn [read_field rb_parent rb_color rb_right rb_left].
Ltac run_wr :=
  erewrite bind_ok by (apply wr_ok; cell; first [eassumption | reflexivity]);
  unfold write_field, update; cbn [nodes root rb_parent rb_color rb_right rb_left].

Definition opp (d : side) : side := match d with L => R | R => L end.
Definition cell_of (d : side) (p : Z) (c : color) (q sib : Z) : rb_node :=
  match d with L => mk_rb_node p (code c) sib q | R => mk_rb_node p (code c) q sib end.

(** The node [y], below [x] on the side [opp d], and [x] change places; [m] is the subtree
    between them. *)
Section Rotate.
Context (F : gmap Z rb_node) (s : rb_state) (k : list frame) (d : side).
Context (c c' : color) (l m r : tree) (x y : Z).
Hypothesis HT : Tree F s (plug k (node_of (opp d) c (node_of d c' m y r) x l)).

Lemma rotate_facts :
  x <> y /\ (x ∉ inorder m) /\ (y ∉ inorder m) /\
  (x ∉ before k ++ after k) /\ (y ∉ before k ++ after k) /\ NoDup (inorder m) /\
  (forall a, a ∈ inorder m -> a <> x /\ a <> y /\ (a ∉ before k ++ after k)) /\
  (forall a, a ∈ inorder l ++ inorder r -> a <> x /\ a <> y /\ (a ∉ inorder m) /\ (a ∉ before k ++ after k)) /\
  (forall a, a ∈ before k ++ after k -> a <> x /\ a <> y /\ (a ∉ inorder m)).
Proof using HT.
  pose proof (focus_nodup _ _ _ _ HT) as Hnd. clear HT.
  generalize dependent (before k ++ after k). intros K Hnd.
  destruct d; simpl in Hnd; nodup_facts Hnd; set_solver.
Qed.

Lemma rotate_holds :
  x <> 0 /\ y <> 0 /\
  nodes s !! x = Some (cell_of (opp d) (top k) c y (ptr l)) /\
  nodes s !! y = Some (cell_of d x c' (ptr m) (ptr r)) /\
  holds (nodes s) y m /\ holds (nodes s) x l /\ holds (nodes s) y r /\
  holds_ctx (nodes s) k x.
Proof using HT.
  pose proof (focus_holds _ _ _ _ HT) as Hh. pose proof (focus_ctx _ _ _ _ HT) as Hk.
  destruct d; simpl in Hh, Hk |- *; tauto.
Qed.

Lemma rotate_result s' :
  nodes s' !! x = Some (cell_of (opp d) y c (ptr m) (ptr l)) ->
  nodes s' !! y = Some (cell_of d (top k) c' x (ptr r)) ->
  (forall a, a <> x -> a <> y ->
     nodes s' !! a = set_hole k y (reparent m x (nodes s)) !! a) ->
  root s' = set_root k y (root s) ->
  Tree F s' (plug k (node_of d c' (node_of (opp d) c m x l) y r)).
Proof using HT.
  intros Hx Hy Ha Hroot.
  destruct rotate_facts as (Hxy & Hxm & Hym & HxK & HyK & Hndm & Ham & Hal & HaK).
  destruct rotate_holds as (Hx0 & Hy0 & _ & _ & Hm & Hl & Hr & Hk).
  assert (Hl' : holds (nodes s') x l).
  { eapply holds_agree; [|exact Hl]. intros a Hi.
    destruct (Hal a) as (? & ? & ? & ?); [apply elem_of_app; by left|].
    rewrite Ha by done. by cell. }
  assert (Hr' : holds (nodes s') y r).
  { eapply holds_agree; [|exact Hr]. intros a Hi.
    destruct (Hal a) as (? & ? & ? & ?); [apply elem_of_app; by right|].
    rewrite Ha by done. by cell. }
  assert (Hm' : holds (nodes s') x m).
  { eapply holds_reparent; [done|exact Hm|]. intros a Hi. destruct (Ham a Hi) as (? & ? & ?).
    rewrite Ha by done. by cell. }
  assert (Hin : inorder (node_of d c' (node_of (opp d) c m x l) y r)
                = inorder (node_of (opp d) c (node_of d c' m y r) x l)).
  { destruct d; simpl; by rewrite <- app_assoc. }
  eapply focus_change; [exact HT|..].
  - rewrite Hin. apply (focus_nodup _ _ _ _ HT).
  - destruct d; simpl in *; tauto.
  - intros a Hi. destruct (HaK a Hi) as (? & ? & ?). rewrite Ha by done.
    replace (ptr _) with y by (by destruct d). apply set_hole_ext. by cell.
  - rewrite Hroot. by destruct d.
  - intros a Hi1 Hi2. rewrite Hin in Hi1.
    assert (a <> x /\ a <> y /\ (a ∉ inorder m)) as (? & ? & ?) by (clear -Hi1; destruct d; set_solver).
    rewrite Ha by done. cell. apply (tree_frame _ _ _ HT).
    rewrite inorder_plug, !elem_of_app. rewrite elem_of_app in Hi2. tauto.
Qed.
End Rotate.

(** Runs a rotation: [relink] finds the pointer to the rotated node in its parent. *)
Ltac run_rotation relink HT :=
  destruct (rotate_facts _ _ _ _ _ _ _ _ _ _ _ HT) as (Hxy & Hxm & Hym & HxK & HyK & Hndm & Ham & Hal & HaK);
  destruct (rotate_holds _ _ _ _ _ _ _ _ _ _ _ HT) as (Hx0 & Hy0 & Hx & Hy & Hm & Hl & Hr & Hk);
  cbn [cell_of opp] in Hx, Hy;
  eexists; split;
  [ run_rd; run_rd; run_wr;
    erewrite bind_ok by
      (eapply reparent_ok; cbn [nodes]; eapply holds_agree; [|exact Hm];
       let a := fresh in let Ha := fresh in intros a Ha; destruct (Ham a Ha) as (? & ? & ?); by cell);
    cbn [nodes root]; run_wr; run_rd; run_wr;
    erewrite bind_ok by
      (apply relink; [|done|done]; cbn [nodes]; eapply holds_ctx_agree; [|exact Hk];
       let a := fresh in let Ha := fresh in intros a Ha; destruct (HaK a Ha) as (? & ? & ?); by cell);
    cbn [nodes root];
    erewrite wr_ok by (cell; reflexivity);
    unfold write_field, update; cbn [nodes root rb_parent rb_color rb_right rb_left]; reflexivity
  | apply (rotate_result _ _ _ _ _ _ _ _ _ _ _ HT);
    [ cbn [cell_of opp]; by cell
    | cbn [cell_of opp]; by cell
    | let a := fresh in intros a ? ?; cell; apply set_hole_ext; cell; apply reparent_ext; by cell
    | done ] ].

Lemma rotate_left_tree F s k c c' l x m y r :
  Tree F s (plug k (Node c l x (Node c' m y r))) ->
  exists s', __rb_rotate_left x s = Ok (tt, s') /\
    Tree F s' (plug k (Node c' (Node c l x m) y r)).
Proof.
  intros HT. change (Tree F s (plug k (node_of (opp L) c (node_of L c' m y r) x l))) in HT.
  change (Node c' (Node c l x m) y r) with (node_of L c' (node_of (opp L) c m x l) y r).
  unfold __rb_rotate_left. run_rotation relink_left HT.
Qed.

Lemma rotate_right_tree F s k c c' l y m x r :
  Tree F s (plug k (Node c (Node c' l y m) x r)) ->
  exists s', __rb_rotate_right x s = Ok (tt, s') /\
    Tree F s' (plug k (Node c' l y (Node c m x r))).
Proof.
  intros HT. change (Tree F s (plug k (node_of (opp R) c (node_of R c' m y l) x r))) in HT.
  change (Node c' l y (Node c m x r)) with (node_of R c' (node_of (opp R) c m x r) y l).
  unfold __rb_rotate_right. run_rotation relink_right HT.
Qed.

(** ** Colours *)
Definition color_of (t : tree) : color := match t with Leaf => Black | Node c _ _ _ => c end.

Lemma recolor_tree F s k c c' l a r :
  Tree F s (plug k (Node c l a r)) ->
  exists s', wr a Color (code c') s = Ok (tt, s') /\ Tree F s' (plug k (Node c' l a r)).
Proof.
  intros HT. pose proof (focus_nodup _ _ _ _ HT) as Hnd.
  pose proof (focus_holds _ _ _ _ HT) as (H0 & Ha & Hl & Hr).
  eexists; split; [by apply wr_ok|].
  assert (Hother : forall b, b ∈ inorder l ++ inorder r ++ before k ++ after k -> b <> a).
  { clear -Hnd. simpl in Hnd. generalize dependent (before k ++ after k). intros K Hnd.
    nodup_facts Hnd. set_solver. }
  eapply focus_change; [exact HT|exact Hnd|..].
  - simpl. split_and!; [done|by rewrite lookup_insert_eq|..]; (eapply holds_agree; [|eassumption]);
        intros b Hb; cbn [nodes]; (rewrite lookup_insert_ne; [done|]); apply not_eq_sym, Hother;
        rewrite !elem_of_app; tauto.
  - intros b Hb. cbn [nodes ptr]. rewrite lookup_insert_ne.
      2: { apply not_eq_sym, Hother. rewrite !elem_of_app in *; tauto. }
      pose proof (focus_ctx _ _ _ _ HT) as Hk. cbn [ptr] in Hk.
      destruct k as [|[d c0 b0 sib] k]; [done|]. destruct Hk as (_ & Hb0 & _). simpl.
      destruct (decide (b = b0)) as [->|]; [by rewrite lookup_insert_eq|].
      by rewrite lookup_insert_ne.
  - simpl. rewrite (tree_root _ _ _ HT), root_plug. by destruct k.
  - intros b Hb1 Hb2. cbn [nodes]. rewrite lookup_insert_ne by (clear -Hb1; set_solver).
      apply (tree_frame _ _ _ HT). rewrite inorder_plug, !elem_of_app in *. tauto.
Qed.

Lemma is_red_ok s t p : holds (nodes s) p t ->
  is_red (ptr t) s = Ok (bool_decide (color_of t = Red), s).
Proof.
  unfold is_red. destruct t as [|c l a r]; [done|]. intros (H0 & Ha & _). simpl.
  rewrite truth_nz by done. erewrite bind_ok by (by apply rd_ok). by destruct c.
Qed.
Lemma is_black_ok s t p : holds (nodes s) p t ->
  is_black (ptr t) s = Ok (bool_decide (color_of t = Black), s).
Proof.
  unfold is_black. destruct t as [|c l a r]; [done|]. intros (H0 & Ha & _). simpl.
  rewrite truth_nz by done. erewrite bind_ok by (by apply rd_ok). by destruct c.
Qed.

Lemma ptr_ne a t : a <> 0 -> a ∉ inorder t -> (a =? ptr t) = false /\ (ptr t =? a) = false.
Proof.
  intros H0 Ha. enough (a <> ptr t) by lia. intros ->. by apply Ha, ptr_inorder.
Qed.

(** ** Red-black contexts *)

(** [rbk n b k]: with a tree of [n] black nodes on every path in the hole, the context is a
    red-black tree with a black root; [b] is the colour of the hole's parent. *)
Inductive rbk : nat -> color -> list frame -> Prop :=
| rbk_nil n : rbk n Black []
| rbk_red n d a sib k :
    rbk n Black k -> k <> [] -> rb n Black sib -> rbk n Red (mk_frame d Red a sib :: k)
| rbk_black n b c d a sib k :
    rbk (S n) b k -> rb n c sib -> rbk n Black (mk_frame d Black a sib :: k).

Lemma rb_color_of n c t : rb n c t -> color_of t = c.
Proof. by destruct 1. Qed.

Lemma rb_plug n b c k t :
  rb n c t -> rbk n b k -> (b = Red -> c = Black) -> (k = [] -> c = Black) -> rb_tree (plug k t).
Proof.
  intros Ht Hk. revert c t Ht. induction Hk as [n|n d a sib k Hk IH Hne Hs|n b c' d a sib k Hk IH Hs];
    intros c t Ht Hb Hnil; simpl.
  - rewrite Hnil in Ht by done. by exists n.
  - rewrite Hb in Ht by done. apply (IH Red); [|done|done].
    destruct d; simpl; by constructor.
  - apply (IH Black); [|done|done]. destruct d; simpl; by econstructor.
Qed.

Lemma rb_node_inv n c0 d c t a sib : rb n c0 (node_of d c t a sib) ->
  c = c0 /\
  ((c = Red /\ rb n Black t /\ rb n Black sib) \/
   (c = Black /\ exists m c1 c2, n = S m /\ rb m c1 t /\ rb m c2 sib)).
Proof.
  intros H. destruct d; simpl in H; inversion H; subst; (split; [done|]);
    first [by left | right; by eauto 10].
Qed.

(** Every context of a red-black tree is one. *)
Lemma rb_unplug k t : rb_tree (plug k t) ->
  exists n b, rb n (color_of t) t /\ rbk n b k /\ (b = Red -> color_of t = Black) /\
    (k = [] -> color_of t = Black).
Proof.
  revert t. induction k as [|[d c a sib] k IH]; intros t Ht; simpl in Ht.
  - destruct Ht as [n Hn]. exists n, Black. rewrite (rb_color_of _ _ _ Hn).
    split_and!; try done. constructor.
  - apply IH in Ht as (n & b & Hn & Hk & Hb & Hnil).
    apply rb_node_inv in Hn as [Hc [(-> & Ht & Hs)|(-> & m & c1 & c2 & -> & Ht & Hs)]];
      rewrite <- Hc in *.
    + exists n, Red. rewrite (rb_color_of _ _ _ Ht). split_and!; try done.
      destruct b; [by specialize (Hb eq_refl)|]. constructor; [done| |done].
      intros ->. by specialize (Hnil eq_refl).
    + exists m, Black. rewrite (rb_color_of _ _ _ Ht). split_and!; try done. by econstructor.
Qed.

(** ** Running code on a tree *)
Lemma is_red_node s p n : nodes s !! p = Some n -> p <> 0 ->
  is_red p s = Ok (rb_color n =? RB_RED, s).
Proof. intros Hp H0. unfold is_red. rewrite truth_nz by done. by erewrite bind_ok by (by apply rd_ok). Qed.
Lemma is_black_node s p n : nodes s !! p = Some n -> p <> 0 ->
  is_black p s = Ok (rb_color n =? RB_BLACK, s).
Proof. intros Hp H0. unfold is_black. rewrite truth_nz by done. by erewrite bind_ok by (by apply rd_ok). Qed.

(** The cells of the part of the tree in focus. *)
Ltac split_conj H :=
  lazymatch type of H with
  | _ /\ _ => let H1 := fresh "C" in let H2 := fresh "C" in destruct H as [H1 H2]; split_conj H1; split_conj H2
  | True => clear H
  | _ => idtac
  end.
Ltac look HT :=
  let H := fresh "C" in
  pose proof (focus_holds _ _ _ _ HT) as H; simpl in H; split_conj H.

(** Brings the node [a] to the hole. *)
Ltac focus_on HT a :=
  let rec find F s k t :=
    lazymatch t with
    | Node ?c ?l ?b ?r =>
      first [ constr_eq b a; change (Tree F s (plug k t)) in HT
            | find F s (mk_frame L c b r :: k) l
            | find F s (mk_frame R c b l :: k) r ]
    end in
  lazymatch type of HT with Tree ?F ?s (plug ?k ?t) => find F s k t end.

(** One statement: reads that the known cells answer, a change of colour, a rotation. *)
Ltac rd_step :=
  rewrite ?bind_assoc;
  erewrite bind_ok by first
    [ apply rd_ok; eassumption
    | eapply is_red_node; eassumption
    | eapply is_black_node; eassumption
    | eapply is_red_ok; eassumption
    | eapply is_black_ok; eassumption
    | reflexivity ];
  cbn [read_field rb_parent rb_color rb_right rb_left code ptr].
Ltac change_step lem HT :=
  let s' := fresh "s" in let E := fresh "E" in let HT' := fresh "HT" in
  destruct lem as (s' & E & HT');
  rewrite ?bind_assoc; first [erewrite bind_ok by exact E | rewrite E]; clear E;
  cbn [plug node_of] in HT'; clear HT; rename HT' into HT;
  repeat match goal with H : nodes _ !! _ = Some _ |- _ => clear H
                       | H : holds _ _ _ |- _ => clear H end;
  look HT.
Ltac recolor HT a c := focus_on HT a; change_step (recolor_tree _ _ _ _ c _ _ _ HT) HT.

Ltac rotate_left HT a := focus_on HT a; change_step (rotate_left_tree _ _ _ _ _ _ _ _ _ _ HT) HT.
Ltac rotate_right HT a := focus_on HT a; change_step (rotate_right_tree _ _ _ _ _ _ _ _ _ _ HT) HT.

(** The outcome of a comparison of pointers or of colours. *)
Ltac distinct HT :=
  let H := fresh in pose proof (focus_nodup _ _ _ _ HT) as H; clear -H; simpl in H;
  nodup_facts H; set_solver.
Ltac cond HT :=
  match goal with
  | |- context [RB_RED =? RB_RED] => change (RB_RED =? RB_RED) with true
  | |- context [RB_BLACK =? RB_RED] => change (RB_BLACK =? RB_RED) with false
  | |- context [RB_RED =? RB_BLACK] => change (RB_RED =? RB_BLACK) with false
  | |- context [RB_BLACK =? RB_BLACK] => change (RB_BLACK =? RB_BLACK) with true
  | |- context [bool_decide (?a = ?b)] =>
      first [ rewrite (bool_decide_eq_true_2 (a = b)) by congruence
            | rewrite (bool_decide_eq_false_2 (a = b)) by congruence ]
  | |- context [?a =? ?a] => rewrite (Z.eqb_refl a)
  | |- context [?a =? ptr ?t] => rewrite (proj1 (ptr_ne a t ltac:(assumption) ltac:(distinct HT)))
  | |- context [ptr ?t =? ?a] => rewrite (proj2 (ptr_ne a t ltac:(assumption) ltac:(distinct HT)))
  | |- context [?a =? ?b] => rewrite (proj2 (Z.eqb_neq a b)) by (distinct HT)
  end; cbv iota.

Ltac when_on a :=
  rewrite ?bind_assoc; rewrite (truth_nz a) by assumption; cbn [whenM].

(** ** Insertion *)
Lemma insert_uncle_red F s k d d' l x r p sib g ul u ur fuel :
  Tree F s (plug k (node_of d' Black (node_of d Red (Node Red l x r) p sib) g (Node Red ul u ur))) ->
  exists s', rb_insert_loop (S fuel) x s = rb_insert_loop fuel g s' /\
    Tree F s' (plug k (node_of d' Red (node_of d Black (Node Red l x r) p sib) g (Node Black ul u ur))).
Proof.
  intros HT. cbn [rb_insert_loop].
  destruct d, d'; cbn [node_of] in *; look HT;
    do 2 rd_step; cond HT; do 2 rd_step; cond HT; do 2 rd_step; cond HT;
    recolor HT u Black; recolor HT p Black; recolor HT g Red; by eexists.
Qed.

(** The tree of the rotations at a black uncle: the node on the side [d] of the parent, which is
    on the side [d'] of the grandparent. *)
Definition rotated (d d' : side) (l : tree) (x : Z) (r : tree) (p : Z) (sib : tree) (g : Z) (u : tree) : tree :=
  match d', d with
  | L, L => Node Black (Node Red l x r) p (Node Red sib g u)
  | L, R => Node Black (Node Red sib p l) x (Node Red r g u)
  | R, R => Node Black (Node Red u g sib) p (Node Red l x r)
  | R, L => Node Black (Node Red u g l) x (Node Red r p sib)
  end.

Lemma insert_uncle_black F s k d d' l x r p sib g u fuel :
  Tree F s (plug k (node_of d' Black (node_of d Red (Node Red l x r) p sib) g u)) ->
  color_of u = Black ->
  exists s', rb_insert_loop (S (S fuel)) x s = Ok (tt, s') /\
    Tree F s' (plug k (rotated d d' l x r p sib g u)).
Proof.
  intros HT Hu. cbn [rb_insert_loop]. 
  destruct d, d'; cbn [node_of rotated] in *; look HT.
  all: do 2 rd_step; cond HT; do 2 rd_step; cond HT; do 2 rd_step; cond HT; rd_step; cond HT.
  - rd_step. recolor HT p Black. recolor HT g Red. rotate_right HT g.
    do 2 rd_step. cond HT. by eexists.
  - rotate_right HT p. rd_step. recolor HT x Black. recolor HT g Red. rotate_left HT g.
    do 2 rd_step. cond HT. by eexists.
  - rotate_left HT p. rd_step. recolor HT x Black. recolor HT g Red. rotate_right HT g.
    do 2 rd_step. cond HT. by eexists.
  - rd_step. recolor HT p Black. recolor HT g Red. rotate_left HT g.
    do 2 rd_step. cond HT. by eexists.
Qed.

Lemma rotated_inorder d d' l x r p sib g u :
  inorder (rotated d d' l x r p sib g u)
  = inorder (node_of d' Black (node_of d Red (Node Red l x r) p sib) g u).
Proof. destruct d, d'; simpl; by rewrite <- ?app_assoc, <- ?app_comm_cons, <- ?app_assoc. Qed.

Lemma rotated_rb n d d' l x r p sib g u :
  rb n Black l -> rb n Black r -> rb n Black sib -> rb n Black u ->
  rb (S n) Black (rotated d d' l x r p sib g u).
Proof. intros. destruct d, d'; simpl; econstructor; by constructor. Qed.

(** Red-black except that the root may be red. *)
Definition rb_weak (t : tree) : Prop := exists n c, rb n c t.

Lemma rb_weak_plug n b c k t : rb n c t -> rbk n b k -> (b = Red -> c = Black) -> rb_weak (plug k t).
Proof.
  intros Ht Hk Hb. destruct k as [|f k]; [by exists n, c|].
  destruct (rb_plug _ _ _ _ _ Ht Hk) as [m Hm]; [done|done|]. by exists m, Black.
Qed.

Lemma insert_loop_correct F fuel k n b s l x r :
  Tree F s (plug k (Node Red l x r)) ->
  rb n Black l -> rb n Black r -> rbk n b k -> (length k < fuel)%nat ->
  exists s' t', rb_insert_loop fuel x s = Ok (tt, s') /\ Tree F s' t' /\ rb_weak t' /\
    inorder t' = inorder (plug k (Node Red l x r)).
Proof.
  revert k n b s l x r. induction fuel as [fuel IH] using lt_wf_ind.
  intros k n b s l x r HT Hl Hr Hk Hfuel. destruct fuel as [|fuel]; [lia|].
  destruct Hk as [n|n d p sib k Hk Hne Hs|n b c d p sib k Hk Hs].
  - exists s, (Node Red l x r). look HT. cbn [rb_insert_loop]. do 2 rd_step.
    split_and!; try done. exists n, Red. by constructor.
  - inversion Hk as [|?|? b' cu d' g u k' Hk' Hu]; subst; [done|].
    cbn [plug] in *. cbn [length] in *.
    destruct (decide (color_of u = Red)) as [Hred|Hblack].
    + destruct u as [|[] ul u ur]; try done. inversion Hu; subst.
      destruct (insert_uncle_red _ _ _ _ _ _ _ _ _ _ _ _ _ _ fuel HT) as (s1 & -> & HT1).
      assert (Hb1 : rb (S n) Black (node_of d Black (Node Red l x r) p sib)).
      { destruct d; simpl; econstructor; try done; by constructor. }
      assert (Hb2 : rb (S n) Black (Node Black ul u ur)) by (by econstructor).
      destruct d'; cbn [node_of] in HT1;
        (edestruct (IH fuel) as (s' & t' & ? & ? & ? & Hin); [lia|exact HT1| | |exact Hk'|lia|]; [done..|]);
        exists s', t'; split_and!; try done; rewrite Hin, !inorder_plug; by destruct d.
    + assert (Hb : color_of u = Black) by (by destruct (color_of u)).
      destruct fuel as [|fuel]; [lia|].
      destruct (insert_uncle_black _ _ _ _ _ _ _ _ _ _ _ _ fuel HT Hb) as (s1 & -> & HT1).
      exists s1, (plug k' (rotated d d' l x r p sib g u)). split_and!; try done.
      * assert (Hu' : rb n Black u) by (by rewrite <- Hb, (rb_color_of _ _ _ Hu)).
        pose proof (rotated_rb n d d' l x r p sib g u Hl Hr Hs Hu') as Hrot.
        by apply (rb_weak_plug _ _ _ _ _ Hrot Hk').
      * by rewrite !inorder_plug, rotated_inorder.
  - exists s, (plug (mk_frame d Black p sib :: k) (Node Red l x r)).
    assert (E : rb_insert_loop (S fuel) x s = Ok (tt, s)).
    { cbn [rb_insert_loop]. destruct d; cbn [plug node_of] in HT; look HT; do 2 rd_step; cond HT; done. }
    split_and!; try done. apply (rb_weak_plug n Black Red); [by constructor|by econstructor|done].
Qed.

(** ** The fuel of the loops is enough *)
Lemma Tree_size F s t : Tree F s t -> (length (inorder t) <= size (nodes s))%nat.
Proof.
  intros HT.
  assert (Hsub : list_to_set (inorder t) ⊆ (dom (nodes s) : gset Z)).
  { intros a Ha. apply elem_of_list_to_set in Ha. apply elem_of_dom.
    pose proof (tree_holds _ _ _ HT) as Hh. clear HT. generalize dependent 0.
    induction t as [|c l IHl b r IHr]; intros p Hh; simpl in *; [by apply elem_of_nil in Ha|].
    destruct Hh as (_ & Hb & Hl & Hr). apply elem_of_app in Ha as [Ha|Ha]; [by eapply IHl|].
    apply elem_of_cons in Ha as [->|Ha]; [by eexists|by eapply IHr]. }
  apply subseteq_size in Hsub. rewrite size_list_to_set in Hsub by apply HT.
  by rewrite <- size_dom.
Qed.

Lemma ctx_length k t : (length k <= length (inorder (plug k t)))%nat.
Proof.
  rewrite inorder_plug, !length_app. enough (length k <= length (before k) + length (after k))%nat by lia.
  clear t. induction k as [|[[] c a sib] k IH]; simpl; [lia|..]; rewrite !length_app; simpl; lia.
Qed.

Lemma insert_color_correct F s k n b l x r :
  Tree F s (plug k (Node Red l x r)) -> rb n Black l -> rb n Black r -> rbk n b k ->
  exists s' t', rb_insert_color x s = Ok (tt, s') /\ Tree F s' t' /\ rb_tree t' /\
    inorder t' = inorder (plug k (Node Red l x r)).
Proof.
  intros HT Hl Hr Hk. unfold rb_insert_color.
  destruct (insert_loop_correct F (S (size (nodes s))) k n b s l x r)
    as (s1 & t1 & E & HT1 & (m & c & Hw) & Hin); try done.
  { pose proof (Tree_size _ _ _ HT). pose proof (ctx_length k (Node Red l x r)). lia. }
  rewrite (bind_ok _ (with_fuel _) _ _ _ E), (bind_ok _ rd_root _ _ _ eq_refl).
  destruct t1 as [|c1 l1 a r1].
  { exfalso. assert (Hx : x ∈ inorder Leaf); [|by apply elem_of_nil in Hx].
    rewrite Hin, inorder_plug. rewrite !elem_of_app. right; left. simpl. rewrite elem_of_app. right; left. }
  rewrite (tree_root _ _ _ HT1). simpl.
  destruct (recolor_tree F s1 [] c1 Black l1 a r1 HT1) as (s2 & E2 & HT2).
  exists s2, (Node Black l1 a r1). split_and!; [done|done| |done].
  inversion Hw; subst; eexists; by econstructor.
Qed.

(** The place of a hole. *)
Definition link_of (k : list frame) : link :=
  match k with
  | [] => AtRoot
  | mk_frame L _ a _ :: _ => AtLeft a
  | mk_frame R _ a _ :: _ => AtRight a
  end.

Lemma wr_link_ok s k q new : holds_ctx (nodes s) k q ->
  wr_link (link_of k) new s
  = Ok (tt, mk_rb_state (set_hole k new (nodes s)) (set_root k new (root s))).
Proof.
  destruct k as [|[d c a sib] k]; [done|]. intros (_ & Ha & _).
  destruct d; cbn [wr_link link_of]; by erewrite wr_ok by exact Ha.
Qed.

Lemma link_correct F s k x :
  Tree F s (plug k Leaf) -> x <> 0 -> is_Some (F !! x) -> x ∉ inorder (plug k Leaf) ->
  exists s', rb_link_node x (top k) (link_of k) s = Ok (tt, s') /\
    Tree F s' (plug k (Node Red Leaf x Leaf)).
Proof.
  intros HT Hx0 [n Hx] Hout. pose proof (focus_ctx _ _ _ _ HT) as Hk.
  pose proof (focus_nodup _ _ _ _ HT) as Hnd. simpl in Hnd, Hk.
  rewrite <- (tree_frame _ _ _ HT x Hout) in Hx.
  assert (HxK : x ∉ before k ++ after k) by (by rewrite inorder_plug in Hout).
  eexists; split.
  { unfold rb_link_node. do 4 run_wr. apply (wr_link_ok _ _ 0). cbn [nodes].
    eapply holds_ctx_agree; [|exact Hk]. intros a Ha. assert (a <> x) by congruence. by cell. }
  eapply focus_change; [exact HT|..].
  - simpl. by apply NoDup_cons.
  - simpl. split_and!; try done. cell. done.
  - intros a Ha. assert (a <> x) by congruence. cbn [nodes ptr]. apply set_hole_ext. by cell.
  - done.
  - intros a Ha1 Ha2. simpl in Ha1. apply not_elem_of_cons in Ha1 as [Ha1 _]. cell.
    apply (tree_frame _ _ _ HT). by rewrite inorder_plug.
Qed.

(** ** Unlinking a node *)
Lemma take_out_correct F s k c x t cell0 :
  (Tree F s (plug k (Node c Leaf x t)) \/ Tree F s (plug k (Node c t x Leaf))) ->
  nodes s !! x = Some cell0 ->
  exists s', take_out x (ptr t) (top k) s = Ok (tt, s') /\ Tree (<[x := cell0]> F) s' (plug k t).
Proof.
  intros HT Hx.
  assert (H : exists t0, Tree F s (plug k t0) /\ ptr t0 = x /\ x <> 0 /\ holds (nodes s) x t /\
    NoDup (x :: inorder t ++ before k ++ after k) /\ (forall a, a ∈ inorder t0 <-> a = x \/ a ∈ inorder t)).
  { destruct HT as [HT|HT]; eexists; (split; [exact HT|]); look HT;
      (split_and!; [done|done|done| |]).
    - exact (focus_nodup _ _ _ _ HT).
    - intros a. simpl. by rewrite elem_of_cons.
    - eapply NoDup_Permutation_proper; [|exact (focus_nodup _ _ _ _ HT)]. simpl.
      rewrite <- app_assoc. simpl. apply Permutation_middle.
    - intros a. simpl. rewrite elem_of_app, list_elem_of_singleton. tauto. }
  clear HT. destruct H as (t0 & HT & Hp & Hx0 & Ht & Hnd & Hin).
  pose proof (focus_ctx _ _ _ _ HT) as Hk. rewrite Hp in Hk.
  apply NoDup_cons in Hnd as [Hxout Hnd].
  assert (Hxk : (x ∉ inorder t) /\ (x ∉ before k ++ after k)) by (by rewrite <- not_elem_of_app).
  destruct Hxk as [Hxt HxK].
  assert (Hd : forall a, a ∈ inorder t -> a ∉ before k ++ after k) by (by apply NoDup_app in Hnd as (_ & ? & _)).
  eexists; split.
  { unfold take_out. erewrite bind_ok by (by eapply reparent_ok).
    apply relink_left'; [|done|done]. cbn [nodes]. eapply holds_ctx_agree; [|exact Hk].
    intros a Ha. rewrite lookup_reparent_ne; [done|]. intros ?. by eapply Hd. }
  eapply focus_change; [exact HT|..]; cbn [nodes root].
  - done.
  - eapply holds_reparent; [by apply NoDup_app in Hnd as []|exact Ht|].
    intros a Ha. by rewrite lookup_set_hole_ne by (by apply Hd).
  - intros a Ha. apply set_hole_ext. apply lookup_reparent_ne. intros ?. by eapply Hd.
  - done.
  - intros a Ha1 Ha2. rewrite lookup_set_hole_ne, lookup_reparent_ne by done.
    destruct (decide (a = x)) as [->|Hne]; [by rewrite lookup_insert_eq|].
    rewrite lookup_insert_ne by done. apply (tree_frame _ _ _ HT).
    rewrite inorder_plug, !elem_of_app, Hin. rewrite elem_of_app in Ha2. tauto.
Qed.

Lemma take_place_correct F s k c l x r y cell0 :
  Tree F s (plug k (Node c l x r)) -> l <> Leaf -> y <> 0 -> is_Some (F !! y) ->
  y ∉ inorder (plug k (Node c l x r)) -> nodes s !! x = Some cell0 ->
  exists s', take_place x y s = Ok (tt, s') /\ Tree (<[x := cell0]> F) s' (plug k (Node c l y r)).
Proof.
  intros HT Hl0 Hy0 [ny Hy] Hyout Hx. rewrite <- (tree_frame _ _ _ HT y Hyout) in Hy.
  pose proof (focus_holds _ _ _ _ HT) as (Hx0 & Hcell & Hl & Hr).
  rewrite Hcell in Hx. injection Hx as <-.
  pose proof (focus_ctx _ _ _ _ HT) as Hk. simpl in Hk.
  pose proof (focus_nodup _ _ _ _ HT) as Hnd. rewrite inorder_plug in Hyout. simpl in Hnd, Hyout.
  assert (Hfacts : x <> y /\ (x ∉ inorder l) /\ (x ∉ inorder r) /\ (x ∉ before k ++ after k) /\
    (y ∉ inorder l) /\ (y ∉ inorder r) /\ (y ∉ before k ++ after k) /\ NoDup (inorder l) /\ NoDup (inorder r) /\
    (forall a, a ∈ inorder l -> a <> x /\ a <> y /\ (a ∉ inorder r) /\ (a ∉ before k ++ after k)) /\
    (forall a, a ∈ inorder r -> a <> x /\ a <> y /\ (a ∉ inorder l) /\ (a ∉ before k ++ after k)) /\
    (forall a, a ∈ before k ++ after k -> a <> x /\ a <> y /\ (a ∉ inorder l) /\ (a ∉ inorder r)) /\
    NoDup ((inorder l ++ y :: inorder r) ++ before k ++ after k)).
  { rewrite !not_elem_of_app, not_elem_of_cons in Hyout. clear -Hnd Hyout.
    generalize dependent (after k). generalize dependent (before k). intros bk ak Hyout Hnd.
    assert (Hnd' : NoDup ((inorder l ++ y :: inorder r) ++ bk ++ ak)).
    { nodup_facts Hnd. rewrite !NoDup_app, NoDup_cons. split_and!; try assumption; set_solver. }
    nodup_facts Hnd. set_solver. }
  destruct Hfacts as (Hxy & Hxl & Hxr & HxK & Hyl & Hyr & HyK & Hndl & Hndr & Hal & Har & HaK & Hnd').
  eexists; split.
  { unfold take_place. do 8 first [run_rd | run_wr].
    erewrite bind_ok.
    2: { apply relink_left'; [|done|done]. cbn [nodes]. eapply holds_ctx_agree; [|exact Hk].
         intros a Ha. destruct (HaK a Ha) as (?&?&?&?). by cell. }
    cbn [nodes root].
    erewrite bind_ok.
    2: { apply (reparent_ok' _ x); [done|]. cbn [nodes]. eapply holds_agree; [|exact Hl].
         intros a Ha. destruct (Hal a Ha) as (?&?&?&?). by cell. }
    cbn [nodes root].
    apply (reparent_ok _ x). cbn [nodes]. eapply holds_agree; [|exact Hr].
    intros a Ha. destruct (Har a Ha) as (?&?&?&?). by cell. }
  eapply focus_change; [exact HT|..]; cbn [nodes root ptr].
  - exact Hnd'.
  - simpl. split_and!; [done|by cell|..].
    + eapply holds_reparent; [done|exact Hl|]. intros a Ha. destruct (Hal a Ha) as (?&?&?&?).
      cell. apply reparent_ext. by cell.
    + eapply holds_reparent; [done|exact Hr|]. intros a Ha. destruct (Har a Ha) as (?&?&?&?).
      apply reparent_ext. by cell.
  - intros a Ha. destruct (HaK a Ha) as (?&?&?&?). cell. apply set_hole_ext. by cell.
  - done.
  - intros a Ha1 Ha2. simpl in Ha1. rewrite not_elem_of_app, not_elem_of_cons in Ha1.
    destruct Ha1 as (? & ? & ?). cell.
    destruct (decide (a = x)) as [->|Hne]; [by rewrite lookup_insert_eq|].
    rewrite lookup_insert_ne by done. apply (tree_frame _ _ _ HT).
    rewrite inorder_plug. simpl. rewrite !elem_of_app, elem_of_cons in *. tauto.
Qed.

(** ** Repairing the tree after a black node has left *)

(** The two sides of the rest of an iteration. *)
Definition erase_black (d : side) := match d with L => erase_black_left | R => erase_black_right end.

(** The children of the sibling, near to the hole and far from it. *)
Definition sib_of (d : side) (c : color) (near : tree) (o : Z) (far : tree) : tree := node_of d c near o far.

Section BlackSibling.
Context (F : gmap Z rb_node) (s : rb_state) (k : list frame) (d : side) (loop : Z -> Z -> M Z).
Context (cp : color) (t near far : tree) (p o : Z).
Hypothesis HT : Tree F s (plug k (node_of d cp t p (sib_of d Black near o far))).

Lemma sibling_both_black : color_of near = Black -> color_of far = Black ->
  exists s', erase_black d loop p o s = loop p (top k) s' /\
    Tree F s' (plug k (node_of d cp t p (sib_of d Red near o far))).
Proof using HT.
  intros Hn Hf. unfold erase_black, sib_of in *. destruct d; cbn [node_of] in *; look HT;
    unfold erase_black_left, erase_black_right;
    do 2 rd_step; cond HT; do 2 rd_step; cond HT; recolor HT o Red; rd_step; by eexists.
Qed.

Lemma sibling_far_red fl f fr : far = Node Red fl f fr ->
  exists s', erase_black d loop p o s = Ok (root s', s') /\
    Tree F s' (plug k (node_of d cp (node_of d Black t p near) o (Node Black fl f fr))).
Proof using HT.
  intros ->. unfold erase_black, sib_of in *. destruct d; cbn [node_of] in *; look HT;
    unfold erase_black_left, erase_black_right.
  - do 2 rd_step. destruct (bool_decide (color_of near = Black)); [do 2 rd_step; cond HT|rd_step];
      do 2 rd_step; cond HT; do 2 rd_step; recolor HT o cp; recolor HT p Black; rd_step;
      when_on f; recolor HT f Black; rotate_left HT p; by eexists.
  - do 2 rd_step. cond HT. rd_step.
    do 2 rd_step; cond HT; do 2 rd_step; recolor HT o cp; recolor HT p Black; rd_step;
      when_on f; recolor HT f Black; rotate_right HT p; by eexists.
Qed.

Lemma sibling_near_red nl q nr : near = Node Red nl q nr -> color_of far = Black ->
  exists s', erase_black d loop p o s = Ok (root s', s') /\
    Tree F s' (plug k
      match d with
      | L => Node cp (Node Black t p nl) q (Node Black nr o far)
      | R => Node cp (Node Black far o nl) q (Node Black nr p t)
      end).
Proof using HT.
  intros -> Hf. unfold erase_black, sib_of in *. destruct d; cbn [node_of] in *; look HT;
    unfold erase_black_left, erase_black_right.
  - do 2 rd_step. cond HT. rd_step. do 2 rd_step. cond HT. rd_step. when_on q.
    recolor HT q Black. recolor HT o Red. rotate_right HT o. do 2 rd_step.
    recolor HT q cp. recolor HT p Black. rd_step. when_on o. recolor HT o Black.
    rotate_left HT p. by eexists.
  - do 2 rd_step. cond HT. do 2 rd_step. cond HT. do 2 rd_step. cond HT. rd_step. when_on q.
    recolor HT q Black. recolor HT o Red. rotate_left HT o. do 2 rd_step.
    recolor HT q cp. recolor HT p Black. rd_step. when_on o. recolor HT o Black.
    rotate_right HT p. by eexists.
Qed.
End BlackSibling.

Definition blacken (t : tree) : tree := match t with Leaf => Leaf | Node _ l a r => Node Black l a r end.

(** A subtree with one black node too few on its paths; a red root may have red children. *)
Inductive deficit (n : nat) : tree -> Prop :=
| deficit_black t : rb n Black t -> deficit n t
| deficit_red c1 c2 l a r : rb n c1 l -> rb n c2 r -> deficit n (Node Red l a r).

(** The loop is done: the tree has the nodes [I], and is a red-black tree once the returned node is
    black. *)
Definition Repaired (F : gmap Z rb_node) (I : list Z) (m : outcome (Z * rb_state)) : Prop :=
  exists s' k t, m = Ok (ptr t, s') /\ Tree F s' (plug k t) /\ rb_tree (plug k (blacken t)) /\
    inorder (plug k t) = I.

(** The colours above the hole of a node of colour [cp] with [n] black nodes below. *)
Inductive above (n : nat) (k : list frame) : color -> Prop :=
| above_red : rbk n Black k -> k <> [] -> above n k Red
| above_black b : rbk (S n) b k -> above n k Black.

Lemma rbk_above n b d c a sib k : rbk n b (mk_frame d c a sib :: k) ->
  above n k c /\ exists cs, rb n cs sib /\ (c = Red -> cs = Black).
Proof. intros H. inversion H; subst; (split; [by econstructor|]); by eexists. Qed.

Lemma above_plug n k d c l a r : above n k c -> rb n Black l -> rb n Black r ->
  rb_tree (plug k (node_of d c l a r)).
Proof.
  intros [Hk Hne|b Hk] Hl Hr.
  - apply (rb_plug n Black Red); try done. destruct d; by constructor.
  - apply (rb_plug (S n) b Black); try done. destruct d; by econstructor.
Qed.

(** [break]: the root is black. *)
Lemma repaired_break F s' t' I :
  Tree F s' t' -> rb_tree t' -> inorder t' = I -> Repaired F I (Ok (root s', s')).
Proof.
  intros HT [n Hn] Hin. exists s', [], t'. rewrite (tree_root _ _ _ HT). split_and!; try done.
  simpl. exists n. by inversion Hn; subst.
Qed.

Lemma black_sibling F s k d loop n cp c1 c2 t near far p o I :
  Tree F s (plug k (node_of d cp t p (sib_of d Black near o far))) ->
  rb n Black t -> rb n c1 near -> rb n c2 far -> above (S n) k cp ->
  inorder (plug k (node_of d cp t p (sib_of d Black near o far))) = I ->
  (forall s', c1 = Black -> c2 = Black ->
     Tree F s' (plug k (node_of d cp t p (sib_of d Red near o far))) ->
     Repaired F I (loop p (top k) s')) ->
  Repaired F I (erase_black d loop p o s).
Proof.
  intros HT Ht Hn Hf Hk HI Hloop.
  assert (Hin : forall t', inorder t' = inorder (node_of d cp t p (sib_of d Black near o far)) ->
    inorder (plug k t') = I) by (intros t' H; rewrite <- HI, !inorder_plug; by rewrite H).
  pose proof (rb_color_of _ _ _ Hf) as Hcf. pose proof (rb_color_of _ _ _ Hn) as Hcn.
  destruct c2.
  - inversion Hf; subst.
    destruct (sibling_far_red _ _ _ _ loop _ _ _ _ _ _ HT _ _ _ eq_refl) as (s' & -> & HT').
    apply (repaired_break _ _ _ _ HT'); [|apply Hin; destruct d; simpl; by rewrite <- ?app_assoc, <- ?app_comm_cons].
    apply (above_plug (S n)); [done|..]; [destruct d; by econstructor|by econstructor].
  - destruct c1.
    + inversion Hn; subst.
      destruct (sibling_near_red _ _ _ _ loop _ _ _ _ _ _ HT _ _ _ eq_refl Hcf) as (s' & -> & HT').
      apply (repaired_break _ _ _ _ HT');
        [|apply Hin; destruct d; simpl; rewrite <- ?app_assoc, <- ?app_comm_cons, <- ?app_assoc; done].
      destruct d; apply (above_plug (S n) k L); try done; by econstructor.
    + destruct (sibling_both_black _ _ _ _ loop _ _ _ _ _ _ HT Hcn Hcf) as (s' & -> & HT').
      by apply Hloop.
Qed.

Lemma plug_leaf k t : plug k t = Leaf -> k = [] /\ t = Leaf.
Proof.
  revert t. induction k as [|[d c a sib] k IH]; intros t; [done|]. simpl. intros H.
  apply IH in H as [_ H]. by destruct d.
Qed.

(** The root is not in the hole of a context. *)
Lemma root_not_hole F s k t : Tree F s (plug k t) -> k <> [] -> (ptr t =? root s) = false.
Proof.
  intros HT Hk. rewrite (tree_root _ _ _ HT).
  assert (H0 : ptr (plug k t) <> 0).
  { pose proof (tree_holds _ _ _ HT) as Hh. destruct (plug k t) eqn:E; [|by destruct Hh].
    by apply plug_leaf in E as []. }
  assert (E : ptr (plug k t) = ptr (plug k Leaf)) by (rewrite root_plug; by destruct k).
  assert (Hin : ptr (plug k t) ∈ before k ++ after k).
  { rewrite E in *. apply ptr_inorder in H0. by rewrite inorder_plug in H0. }
  apply Z.eqb_neq. intros Ht. pose proof (focus_nodup _ _ _ _ HT) as Hnd.
  apply NoDup_app in Hnd as (_ & Hd & _). apply (Hd (ptr t)); [|by rewrite Ht].
  apply ptr_inorder. by rewrite Ht.
Qed.

(** Two subtrees of a tree are at different addresses, unless both are empty. *)
Lemma ptr_apart t t' : t' <> Leaf -> (forall a, a ∈ inorder t -> a ∉ inorder t') ->
  ptr t' <> 0 -> (ptr t' =? ptr t) = false.
Proof.
  intros Hne Hd H0. apply Z.eqb_neq. intros E. rewrite E in H0.
  apply (Hd (ptr t)); [by apply ptr_inorder|]. rewrite <- E. apply ptr_inorder. congruence.
Qed.

Lemma erase_exit F fuel k n b s t :
  Tree F s (plug k t) -> deficit n t -> rbk (S n) b k -> (k = [] \/ color_of t = Red) ->
  Repaired F (inorder (plug k t)) (rb_erase_loop (S fuel) (ptr t) (top k) s).
Proof.
  intros HT Hd Hk Hexit. exists s, k, t. split_and!; try done.
  - cbn [rb_erase_loop]. pose proof (focus_holds _ _ _ _ HT) as Hh.
    erewrite bind_ok by (by eapply is_black_ok). rewrite (bind_ok _ rd_root _ _ _ eq_refl).
    rewrite (tree_root _ _ _ HT). destruct Hexit as [->|Hred].
    + simpl. rewrite Z.eqb_refl, andb_false_r. done.
    + by rewrite Hred.
  - destruct Hd as [t Ht|c1 c2 l a r Hl Hr].
    + destruct Hexit as [->|Hred]; [|by rewrite (rb_color_of _ _ _ Ht) in Hred].
      exists n. by inversion Ht; subst.
    + apply (rb_plug (S n) b Black); try done. by econstructor.
Qed.

(** The body with a black sibling, and with a red one: a rotation brings a black one there. *)
Section Body.
Context (F : gmap Z rb_node) (s : rb_state) (k : list frame) (d : side) (loop : Z -> Z -> M Z).
Context (cp cs : color) (t near far : tree) (p o : Z).
Hypothesis HT : Tree F s (plug k (node_of d cp t p (sib_of d cs near o far))).

Lemma sibling_apart : (o =? ptr t) = false.
Proof using HT.
  assert (H : o <> 0 /\ (o ∉ inorder t)).
  { split; [unfold sib_of in HT; destruct d; cbn [node_of] in HT; by look HT|].
    pose proof (focus_nodup _ _ _ _ HT) as Hnd. clear -Hnd. unfold sib_of in Hnd.
    destruct d; simpl in Hnd; nodup_facts Hnd; set_solver. }
  by apply (ptr_ne o t); apply H.
Qed.

Lemma body_black : cs = Black -> erase_body loop (ptr t) p s = erase_black d loop p o s.
Proof using HT.
  intros Hc. pose proof sibling_apart as Ho. unfold erase_body, erase_black, sib_of in *.
  subst cs. destruct d; cbn [node_of] in *; look HT.
  - rd_step. rewrite Z.eqb_refl. do 2 rd_step. cond HT. by rd_step.
  - rd_step. rewrite Ho. do 2 rd_step. cond HT. by rd_step.
Qed.

Lemma body_red : cs = Red -> cp = Black ->
  exists s', erase_body loop (ptr t) p s = erase_black d loop p (ptr near) s' /\
    Tree F s' (plug (mk_frame d Black o far :: k) (node_of d Red t p near)).
Proof using HT.
  intros Hc Hp. pose proof sibling_apart as Ho. unfold erase_body, erase_black, sib_of in *.
  subst cs cp. destruct d; cbn [node_of] in *; look HT.
  - rd_step. rewrite Z.eqb_refl. do 2 rd_step. cond HT. recolor HT o Black.
    recolor HT p Red. rotate_left HT p. rd_step. by eexists.
  - rd_step. rewrite Ho. do 2 rd_step. cond HT. recolor HT o Black.
    recolor HT p Red. rotate_right HT p. rd_step. by eexists.
Qed.
End Body.

(** A tree with a black node on its paths is a node, its children being near and far. *)
Lemma rb_sib n c t : rb (S n) c t -> forall d, exists near o far c1 c2, t = sib_of d c near o far /\
  match c with
  | Red => c1 = Black /\ c2 = Black /\ rb (S n) c1 near /\ rb (S n) c2 far
  | Black => rb n c1 near /\ rb n c2 far
  end.
Proof.
  intros H d. inversion H; subst; destruct d; unfold sib_of; simpl.
  - by eexists l, a, r, Black, Black.
  - by eexists r, a, l, Black, Black.
  - by eexists l, a, r, _, _.
  - by eexists r, a, l, _, _.
Qed.

Lemma red_sibling_inorder d c1 c2 c3 c4 t p near o far :
  inorder (node_of d c1 (node_of d c2 t p near) o far)
  = inorder (node_of d c3 t p (sib_of d c4 near o far)).
Proof. unfold sib_of. destruct d; simpl; by rewrite <- app_assoc. Qed.

Lemma erase_loop_correct F fuel k n b s t :
  Tree F s (plug k t) -> deficit n t -> rbk (S n) b k -> (length k < fuel)%nat ->
  Repaired F (inorder (plug k t)) (rb_erase_loop fuel (ptr t) (top k) s).
Proof.
  revert k n b s t. induction fuel as [|fuel IH]; intros k n b s t HT Hd Hk Hfuel; [lia|].
  destruct k as [|[d cp p sib] k]; [by eapply erase_exit; eauto|].
  destruct Hd as [t Ht|c1 c2 l a r Hl Hr].
  2: { eapply erase_exit; eauto. by eapply deficit_red. }
  pose proof (rb_color_of _ _ _ Ht) as Hct.
  destruct (rbk_above _ _ _ _ _ _ _ Hk) as [Habove (cs & Hsib & Hcs)].
  cbn [rb_erase_loop]. 
  erewrite bind_ok by (eapply is_black_ok; by apply (focus_holds F s (mk_frame d cp p sib :: k))).
  rewrite (bind_ok _ rd_root _ _ _ eq_refl), Hct, (root_not_hole _ _ _ _ HT) by done.
  cbn [plug top f_addr length] in *. change (bool_decide (Black = Black)) with true. cbn [negb andb].
  destruct (rb_sib _ _ _ Hsib d) as (near & o & far & c1 & c2 & -> & Hch). destruct cs.
  - destruct Hch as (-> & -> & Hn & Hf). assert (cp = Black) as -> by (destruct cp; [by specialize (Hcs eq_refl)|done]).
    destruct (body_red _ _ _ _ (rb_erase_loop fuel) _ _ _ _ _ _ _ HT) as (s' & -> & HT'); [done|done|].
    destruct (rb_sib _ _ _ Hn d) as (near' & o' & far' & c1' & c2' & -> & Hn' & Hf').
    replace (ptr (sib_of d Black near' o' far')) with o' by (by destruct d).
    inversion Habove as [|b' Hk']; subst.
    apply (black_sibling F s' (mk_frame d Black o far :: k) d _ n Red c1' c2' t near' far' p o'); try done.
    + eapply above_red; [by econstructor|done].
    + cbn [plug]. rewrite !inorder_plug. by rewrite (red_sibling_inorder d _ _ Black Red).
    + intros s2 -> -> HT2. set (t2 := node_of d Red t p (sib_of d Red near' o' far')) in *.
      destruct fuel as [|fuel]; [lia|].
      assert (Ht2 : ptr t2 = p /\ color_of t2 = Red) by (by destruct d).
      destruct Ht2 as [Hp Hc2].
      replace (rb_erase_loop (S fuel) p) with (rb_erase_loop (S fuel) (ptr t2)) by (by rewrite Hp).
      replace (inorder (plug k _)) with (inorder (plug (mk_frame d Black o far :: k) t2)).
      { apply (erase_exit F fuel _ n Black); [done| |by econstructor|by right].
        destruct d; eapply deficit_red; try done; by constructor. }
      cbn [plug]. rewrite !inorder_plug, <- (red_sibling_inorder d Black Red). unfold t2. by destruct d.
  - destruct Hch as (Hn & Hf). rewrite (body_black _ _ _ _ _ _ _ _ _ _ _ _ HT) by done.
    apply (black_sibling F s k d _ n cp c1 c2 t near far p o); try done.
    intros s2 -> -> HT2. set (t2 := node_of d cp t p (sib_of d Red near o far)) in *.
    assert (Hp : ptr t2 = p) by (by destruct d).
    replace (rb_erase_loop fuel p) with (rb_erase_loop fuel (ptr t2)) by (by rewrite Hp).
    replace (inorder (plug k _)) with (inorder (plug k t2))
      by (rewrite !inorder_plug; unfold t2; by destruct d).
    assert (Hred : rb n Red (sib_of d Red near o far)) by (destruct d; by constructor).
    inversion Habove as [Hk' Hne|b' Hk']; subst cp.
    + apply (IH k n Black); try done; [|lia]. destruct d; by eapply deficit_red.
    + apply (IH k (S n) b'); try done; [|lia]. apply deficit_black. destruct d; by econstructor.
Qed.

Lemma erase_color_correct F s k n b c t :
  Tree F s (plug k t) -> rb n c t -> rbk (S n) b k ->
  exists s' t', __rb_erase_color (ptr t) (top k) s = Ok (tt, s') /\ Tree F s' t' /\ rb_tree t' /\
    inorder t' = inorder (plug k t).
Proof.
  intros HT Ht Hk. unfold __rb_erase_color.
  assert (Hd : deficit n t).
  { inversion Ht; subst; [by constructor|by eapply deficit_red|by constructor]. }
  destruct (erase_loop_correct F (S (size (nodes s))) k n b s t) as (s1 & k1 & t1 & E & HT1 & Hrb & Hin); try done.
  { pose proof (Tree_size _ _ _ HT). pose proof (ctx_length k t). lia. }
  rewrite (bind_ok _ (with_fuel _) _ _ _ E). destruct t1 as [|c1 l1 a r1].
  - by exists s1, (plug k1 Leaf).
  - look HT1. simpl. rewrite truth_nz by done. simpl.
    destruct (recolor_tree _ _ _ _ Black _ _ _ HT1) as (s2 & E2 & HT2).
    exists s2, (plug k1 (Node Black l1 a r1)). split_and!; try done.
    rewrite <- Hin, !inorder_plug. done.
Qed.

(** ** Removal *)
Lemma plug_app k k' t : plug (k ++ k') t = plug k' (plug k t).
Proof. revert t. induction k as [|[d c a sib] k IH]; intros t; [done|]. simpl. apply IH. Qed.
Lemma after_app k k' : after (k ++ k') = after k ++ after k'.
Proof.
  induction k as [|[[] c a sib] k IH]; [done| |done].
  simpl. by rewrite IH, app_assoc.
Qed.

(** Every node of a tree is the root of a subtree in a context. *)
Lemma focus_exists t x : x ∈ inorder t -> exists k c l r, t = plug k (Node c l x r).
Proof.
  induction t as [|c l IHl a r IHr]; simpl; [by intros ?%elem_of_nil|].
  rewrite elem_of_app, elem_of_cons. intros [Hx|[->|Hx]].
  - destruct (IHl Hx) as (k & c' & l' & r' & ->). exists (k ++ [mk_frame L c a r]), c', l', r'.
    by rewrite plug_app.
  - by exists [], c, l, r.
  - destruct (IHr Hx) as (k & c' & l' & r' & ->). exists (k ++ [mk_frame R c a l]), c', l', r'.
    by rewrite plug_app.
Qed.

(** The leftmost node of a subtree. *)
Lemma leftmost_correct s p t fuel :
  holds (nodes s) p t -> t <> Leaf -> (length (inorder t) <= fuel)%nat ->
  exists k c y r, t = plug k (Node c Leaf y r) /\ before k = [] /\
    leftmost_loop fuel (ptr t) s = Ok (y, s).
Proof.
  revert p fuel. induction t as [|c l IHl a r IHr]; intros p fuel; [done|].
  intros (H0 & Ha & Hl & Hr) _. cbn [inorder]. rewrite length_app. cbn [length ptr]. intros Hfuel.
  destruct fuel as [|fuel]; [lia|]. cbn [leftmost_loop].
  erewrite bind_ok by (by apply rd_ok). cbn [read_field rb_left].
  destruct l as [|cl ll b lr].
  - by exists [], c, a, r.
  - destruct (IHl a fuel) as (k & c' & y & r' & Et & Hb & E); [done|done|lia|].
    exists (k ++ [mk_frame L c a r]), c', y, r'. rewrite plug_app, <- Et. split_and!; [done| |].
    + clear -Hb. induction k as [|[[] c0 b0 sib] k IH]; simpl in *; [done|auto|by apply app_eq_nil in Hb as [_ [_ ?]%app_eq_nil]].
    + cbn [ptr] in *. destruct Hl as (Hb0 & _). by rewrite truth_nz.
Qed.

(** The red-black property does not depend on the addresses. *)
Lemma rbk_readdress n b k d c x y sib k' :
  rbk n b (k ++ mk_frame d c x sib :: k') -> rbk n b (k ++ mk_frame d c y sib :: k').
Proof.
  revert n b. induction k as [|f k IH]; intros n b; simpl; intros H; inversion H; subst.
  - by constructor.
  - by econstructor.
  - constructor; [by apply IH|by destruct k|done].
  - econstructor; [by apply IH|done].
Qed.

(** A subtree [t] in the place of the node [x], its only child: the colours are repaired if the
    node was black. *)
Lemma erase_finish F s k n b c (cx : color) t :
  Tree F s (plug k t) -> rb n c t ->
  match cx with
  | Red => c = Black /\ rbk n b k /\ k <> []
  | Black => rbk (S n) b k
  end ->
  exists s' t', whenM (code cx =? RB_BLACK) (__rb_erase_color (ptr t) (top k)) s = Ok (tt, s') /\
    Tree F s' t' /\ rb_tree t' /\ inorder t' = inorder (plug k t).
Proof.
  intros HT Ht Hk. destruct cx.
  - destruct Hk as (-> & Hk & Hne). exists s, (plug k t). split_and!; try done.
    by apply (rb_plug _ _ _ _ _ Ht Hk).
  - by eapply erase_color_correct.
Qed.

Lemma child_ready k cx l x r t : rb_tree (plug k (Node cx l x r)) -> t = l \/ t = r ->
  exists n b c, rb n c t /\
    match cx with
    | Red => c = Black /\ rbk n b k /\ k <> []
    | Black => rbk (S n) b k
    end.
Proof.
  intros (n & b & Hn & Hk & Hb & Hnil)%rb_unplug Ht. simpl in Hnil.
  inversion Hn; subst; [exists n, b, Black|destruct Ht as [->| ->]; by eexists _, b, _].
  split_and!; try done; [by destruct Ht as [->| ->]|]. intros ->. by specialize (Hnil eq_refl).
Qed.

(** What [rb_erase] achieves. *)
Definition Erased (F : gmap Z rb_node) (x : Z) (I : list Z) (m : outcome (unit * rb_state)) : Prop :=
  exists s' t' cell, m = Ok (tt, s') /\ Tree (<[x := cell]> F) s' t' /\ rb_tree t' /\ inorder t' = I.

Lemma erase_leaf_child F s k cx l x r t :
  Tree F s (plug k (Node cx l x r)) -> rb_tree (plug k (Node cx l x r)) ->
  (l = Leaf /\ t = r) \/ (l <> Leaf /\ r = Leaf /\ t = l) ->
  Erased F x (before k ++ inorder l ++ inorder r ++ after k) (rb_erase x s).
Proof.
  intros HT Hrb Hcase. pose proof (focus_holds _ _ _ _ HT) as (H0 & Hx & Hl & Hr).
  destruct (take_out_correct F s k cx x t (mk_rb_node (top k) (code cx) (ptr r) (ptr l)))
    as (s1 & E1 & HT1); [destruct Hcase as [[-> ->]|(_ & -> & ->)]; tauto|done|].
  destruct (child_ready _ _ _ _ _ t Hrb) as (n & b & c & Ht & Hk); [tauto|].
  destruct (erase_finish _ _ _ _ _ _ _ _ HT1 Ht Hk) as (s2 & t2 & E2 & HT2 & Hrb2 & Hin).
  exists s2, t2. eexists. split_and!; [|exact HT2|done|].
  - unfold rb_erase. do 2 rd_step.
    assert (Hc : negb (truth (ptr l) && truth (ptr r)) = true /\
                 (if negb (truth (ptr l)) then ptr r else ptr l) = ptr t).
    { destruct Hcase as [[-> ->]|(Hne & -> & ->)]; [done|]. destruct l; [done|]. destruct Hl as (? & _).
      simpl. by rewrite truth_nz. }
    destruct Hc as [-> ->]. do 2 rd_step. rewrite ?bind_assoc. erewrite bind_ok by exact E1.
    rewrite (bind_ok _ (mret _) _ _ _ eq_refl). exact E2.
  - rewrite Hin, inorder_plug. f_equal. destruct Hcase as [[-> ->]|(_ & -> & ->)]; done.
Qed.

Lemma Tree_frame_change F F' s t :
  Tree F s t -> (forall a, a ∉ inorder t -> F !! a = F' !! a) -> Tree F' s t.
Proof. intros [H1 H2 H3 H4] HF. constructor; try done. intros a Ha. by rewrite H4, HF. Qed.

Lemma holds_nonzero h p t : holds h p t -> t <> Leaf -> ptr t <> 0.
Proof. destruct t; [done|]. by intros (? & _) _. Qed.

(** The successor [y] of [x], in the right subtree of [x]. *)
Section TwoChildren.
Context (F : gmap Z rb_node) (s : rb_state) (k ks : list frame) (cx cy : color) (l ry : tree) (x y : Z).
Let K (a : Z) : list frame := ks ++ mk_frame R cx a l :: k.
Hypothesis HT : Tree F s (plug (K x) (Node cy Leaf y ry)).

Lemma K_plug a t : plug (K a) t = plug k (Node cx l a (plug ks t)).
Proof using. unfold K. by rewrite plug_app. Qed.

Lemma successor_fresh : (y ∉ inorder (plug (K x) ry)) /\ x <> y.
Proof using HT.
  pose proof (tree_nodup _ _ _ HT) as Hnd. rewrite K_plug in Hnd |- *.
  rewrite inorder_plug in Hnd |- *. cbn [inorder] in Hnd |- *. rewrite inorder_plug in Hnd |- *.
  cbn [inorder app] in Hnd. clear HT K. nodup_facts Hnd. set_solver.
Qed.

(** Where the child of the successor hangs once the successor has taken the place of [x]. *)
Lemma successor_parent : (if top (K x) =? x then y else top (K x)) = top (K y).
Proof using HT.
  unfold K in *. destruct ks as [|f ks']; simpl; [by rewrite Z.eqb_refl|].
  enough (f_addr f <> x) by (by case_cmp). intros E.
  pose proof (tree_nodup _ _ _ HT) as Hnd. simpl in Hnd. destruct f as [d c a sib]. simpl in E. subst a.
  rewrite plug_app in Hnd. simpl in Hnd.
  rewrite inorder_plug in Hnd. cbn [inorder] in Hnd. rewrite inorder_plug in Hnd.
  clear HT K. destruct d; simpl in Hnd; nodup_facts Hnd; set_solver.
Qed.
End TwoChildren.

Lemma erase_two_children F s k cx l x r :
  Tree F s (plug k (Node cx l x r)) -> rb_tree (plug k (Node cx l x r)) ->
  l <> Leaf -> r <> Leaf ->
  Erased F x (before k ++ inorder l ++ inorder r ++ after k) (rb_erase x s).
Proof.
  intros HT Hrb Hl0 Hr0. pose proof (focus_holds _ _ _ _ HT) as (H0 & Hx & Hl & Hr).
  pose proof (holds_nonzero _ _ _ Hl Hl0) as Hpl. pose proof (holds_nonzero _ _ _ Hr Hr0) as Hpr.
  destruct (leftmost_correct s x r (S (size (nodes s)))) as (ks & cy & y & ry & -> & Hks & E); [done|done| |].
  { pose proof (Tree_size _ _ _ HT) as Hs. rewrite inorder_plug in Hs. rewrite !length_app in Hs.
    cbn [inorder] in Hs. rewrite length_app in Hs. cbn [length] in Hs. lia. }
  rewrite <- K_plug in HT, Hrb.
  pose proof (focus_holds _ _ _ _ HT) as (Hy0 & Hy & _ & Hry).
  destruct (take_out_correct F s _ cy y ry _ (or_introl HT) Hy) as (s1 & E1 & HT1).
  destruct (successor_fresh _ _ _ _ _ _ _ _ _ _ HT) as [Hy_out Hxy].
  pose proof (tree_frame _ _ _ HT1 y Hy_out) as Hy1. rewrite lookup_insert_eq in Hy1.
  rewrite K_plug in HT1, Hy_out.
  pose proof (focus_holds _ _ _ _ HT1) as (_ & Hx1 & _ & _).
  assert (HF : is_Some (<[y := mk_rb_node (top (ks ++ mk_frame R cx x l :: k)) (code cy) (ptr ry) (ptr Leaf)]> F !! y))
    by (by rewrite lookup_insert_eq).
  destruct (take_place_correct _ _ _ _ _ _ _ y _ HT1 Hl0 Hy0 HF Hy_out Hx1) as (s2 & E2 & HT2).
  rewrite <- K_plug in HT2.
  destruct (child_ready _ _ _ _ _ ry Hrb) as (n & b & c & Ht & Hk); [tauto|].
  set (K2 := ks ++ mk_frame R cx y l :: k) in *.
  assert (Hk2 : match cy with Red => c = Black /\ rbk n b K2 /\ K2 <> [] | Black => rbk (S n) b K2 end).
  { destruct cy; [|by eapply rbk_readdress]. destruct Hk as (-> & Hk & _).
    split_and!; [done|by eapply rbk_readdress|unfold K2; by destruct ks]. }
  destruct (erase_finish _ _ _ _ _ _ _ _ HT2 Ht Hk2) as (s3 & t3 & E3 & HT3 & Hrb3 & Hin).
  exists s3, t3, (mk_rb_node (top k) (code cx) (ptr (plug ks ry)) (ptr l)). split_and!; [| |done|].
  - unfold rb_erase. do 2 rd_step. rewrite !truth_nz by done. cbn [negb andb]. rd_step.
    rewrite ?bind_assoc. rewrite (bind_ok _ (with_fuel _) _ _ _ E). do 3 rd_step.
    rewrite ?bind_assoc. erewrite bind_ok by exact E1. rd_step.
    rewrite (successor_parent _ _ _ _ _ _ _ _ _ _ HT). rewrite ?bind_assoc.
    erewrite bind_ok by exact E2. rewrite (bind_ok _ (mret _) _ _ _ eq_refl). exact E3.
  - eapply Tree_frame_change; [exact HT3|]. intros a Ha. rewrite Hin in Ha.
    rewrite !(lookup_insert (M := gmap Z)). destruct (decide (x = a)); [done|].
    destruct (decide (y = a)) as [<-|]; [|done]. exfalso. apply Ha.
    unfold K2. rewrite K_plug, inorder_plug. simpl. rewrite !elem_of_app, elem_of_cons. tauto.
  - rewrite Hin. unfold K2. rewrite K_plug, !inorder_plug. simpl. rewrite !inorder_plug. simpl.
    rewrite Hks. simpl. rewrite <- !app_assoc. simpl. by rewrite <- ?app_assoc.
Qed.

Definition height (t : tree) : nat :=
  (fix go t := match t with Leaf => 0 | Node _ l _ r => S (Nat.max (go l) (go r)) end)%nat t.

(** A red-black tree is balanced. *)
Lemma rb_sizes n c t : rb n c t ->
  (height t <= 2 * n + match c with Red => 1 | Black => 0 end /\ 2 ^ n <= S (length (inorder t)))%nat.
Proof.
  unfold height. induction 1 as [|n l a r _ [IH1 IH2] _ [IH3 IH4]|n c1 c2 l a r _ [IH1 IH2] _ [IH3 IH4]];
    cbn -[Nat.pow Nat.mul Nat.max] in *; rewrite ?length_app; cbn [length].
  - simpl; lia.
  - lia.
  - rewrite Nat.pow_succ_r'. destruct c1, c2; lia.
Qed.

Lemma rb_tree_height t : rb_tree t -> (height t <= 2 * Nat.log2 (S (length (inorder t))))%nat.
Proof.
  intros [n H]. apply rb_sizes in H as [H1 H2]. apply Nat.log2_le_mono in H2.
  rewrite Nat.log2_pow2 in H2 by lia. lia.
Qed.

Lemma filter_ne (x : Z) (l : list Z) : x ∉ l -> filter (.≠ x) l = l.
Proof.
  induction l as [|a l IH]; [done|]. rewrite not_elem_of_cons. intros [Hne Hx].
  by rewrite filter_cons_True, IH.
Qed.

(** ** Insertion and removal *)
Lemma insert_at_hole F s k x :
  Tree F s (plug k Leaf) -> rb_tree (plug k Leaf) ->
  x <> 0 -> is_Some (F !! x) -> x ∉ inorder (plug k Leaf) ->
  exists s' t', (rb_link_node x (top k) (link_of k);; rb_insert_color x) s = Ok (tt, s') /\
    Tree F s' t' /\ rb_tree t' /\ inorder t' = before k ++ x :: after k.
Proof.
  intros HT Hrb Hx0 HF Hout.
  destruct (link_correct _ _ _ _ HT Hx0 HF Hout) as (s1 & E1 & HT1).
  apply rb_unplug in Hrb as (n & b & Hn & Hk & _ & _).
  destruct (insert_color_correct F s1 k n b Leaf x Leaf) as (s2 & t2 & E2 & HT2 & Hrb2 & Hin); try done.
  exists s2, t2. split_and!; try done.
  - by rewrite (bind_ok _ _ _ _ _ E1).
  - by rewrite Hin, inorder_plug.
Qed.

Lemma erase_node F s k c l x r :
  Tree F s (plug k (Node c l x r)) -> rb_tree (plug k (Node c l x r)) ->
  Erased F x (before k ++ inorder l ++ inorder r ++ after k) (rb_erase x s).
Proof.
  intros HT Hrb. destruct (decide (l = Leaf)) as [->|Hl]; [eapply erase_leaf_child; eauto|].
  destruct (decide (r = Leaf)) as [->|Hr]; [eapply erase_leaf_child; eauto 6|].
  by apply (erase_two_children _ _ _ c).
Qed.

(** ** The theorems *)

(** C24. Insertion. On a store that holds a red-black tree, [rb_link_node] at an empty place of the
    tree followed by [rb_insert_color] returns without a fault, and the store then holds a
    red-black tree with the same nodes in the same order and the new node at that place; it is
    balanced, its height is at most twice the logarithm of its size; no cell outside of the tree
    changes. *)
Theorem rb_insert_correct F s k x :
  Tree F s (plug k Leaf) -> rb_tree (plug k Leaf) ->
  x <> 0 -> is_Some (F !! x) -> x ∉ inorder (plug k Leaf) ->
  exists s' t', (rb_link_node x (top k) (link_of k);; rb_insert_color x) s = Ok (tt, s') /\
    Tree F s' t' /\ rb_tree t' /\ inorder t' = before k ++ x :: after k /\
    (height t' <= 2 * Nat.log2 (S (length (inorder t'))))%nat.
Proof.
  intros HT Hrb Hx0 HF Hout.
  destruct (insert_at_hole _ _ _ _ HT Hrb Hx0 HF Hout) as (s' & t' & ? & ? & ? & ?).
  exists s', t'. split_and!; try done. by apply rb_tree_height.
Qed.

(** C23. Removal. [rb_erase] of a node of a red-black tree returns without a fault, and the store
    then holds a red-black tree, balanced as before, with the other nodes in the same order; no
    cell outside of the tree changes but that of the node. *)
Theorem rb_erase_correct F s t x :
  Tree F s t -> rb_tree t -> x ∈ inorder t ->
  exists s' t' cell, rb_erase x s = Ok (tt, s') /\ Tree (<[x := cell]> F) s' t' /\ rb_tree t' /\
    inorder t' = filter (.≠ x) (inorder t) /\
    (height t' <= 2 * Nat.log2 (S (length (inorder t'))))%nat.
Proof.
  intros HT Hrb Hx. destruct (focus_exists _ _ Hx) as (k & c & l & r & ->).
  assert (Hfilter : filter (.≠ x) (inorder (plug k (Node c l x r)))
                    = before k ++ inorder l ++ inorder r ++ after k).
  { pose proof (tree_nodup _ _ _ HT) as Hnd. rewrite inorder_plug in *. simpl in *.
    rewrite !filter_app, filter_cons_False by (by intros []).
    rewrite <- !app_assoc. rewrite !filter_ne; [done|..]; nodup_facts Hnd; set_solver. }
  destruct (erase_node _ _ _ _ _ _ _ HT Hrb) as (s' & t' & cell & ? & ? & ? & ?).
  exists s', t', cell. rewrite Hfilter. split_and!; try done. by apply rb_tree_height.
Qed.

(** A tree of six nodes and a free node 15. *)
Definition sample_tree : tree :=
  Node Black (Node Black Leaf 10 Leaf) 20
    (Node Red (Node Black Leaf 25 Leaf) 30 (Node Black (Node Red Leaf 35 Leaf) 40 Leaf)).
Definition sample : rb_state :=
  mk_rb_state (list_to_map [
    (15, mk_rb_node 7 7 7 7);
    (20, mk_rb_node 0 RB_BLACK 30 10);
    (10, mk_rb_node 20 RB_BLACK 0 0);
    (30, mk_rb_node 20 RB_RED 40 25);
    (25, mk_rb_node 30 RB_BLACK 0 0);
    (40, mk_rb_node 30 RB_BLACK 0 35);
    (35, mk_rb_node 40 RB_RED 0 0)]) 20.

Lemma sample_holds : Tree (nodes sample) sample sample_tree.
Proof.
  constructor; [|done| |done].
  - vm_compute. repeat split; congruence.
  - decide_now.
Qed.
Lemma sample_rb : rb_tree sample_tree.
Proof. exists 2%nat. repeat econstructor. Qed.

(** The free node becomes the left child of the red node 35, the left child of the black 40. *)
Lemma rb_insert_correct_witness :
  exists s' t', (rb_link_node 15 35 (AtLeft 35);; rb_insert_color 15) sample = Ok (tt, s') /\
    Tree (nodes sample) s' t' /\ rb_tree t' /\ inorder t' = [10; 20; 25; 30; 15; 35; 40] /\
    (height t' <= 2 * Nat.log2 (S (length (inorder t'))))%nat.
Proof.
  apply (rb_insert_correct (nodes sample) sample
    [mk_frame L Red 35 Leaf; mk_frame L Black 40 Leaf; mk_frame R Red 30 (Node Black Leaf 25 Leaf);
     mk_frame R Black 20 (Node Black Leaf 10 Leaf)] 15).
  - exact sample_holds.
  - exact sample_rb.
  - lia.
  - by eexists.
  - decide_now.
Defined.

(** A black leaf whose sibling is red, and a node with two children. *)
Lemma rb_erase_correct_witness :
  (exists s' t' cell, rb_erase 10 sample = Ok (tt, s') /\ Tree (<[10 := cell]> (nodes sample)) s' t' /\
     rb_tree t' /\ inorder t' = [20; 25; 30; 35; 40] /\
     (height t' <= 2 * Nat.log2 (S (length (inorder t'))))%nat) /\
  (exists s' t' cell, rb_erase 30 sample = Ok (tt, s') /\ Tree (<[30 := cell]> (nodes sample)) s' t' /\
     rb_tree t' /\ inorder t' = [10; 20; 25; 35; 40] /\
     (height t' <= 2 * Nat.log2 (S (length (inorder t'))))%nat).
Proof.
  split.
  - apply (rb_erase_correct (nodes sample) sample sample_tree 10 sample_holds sample_rb). decide_now.
  - apply (rb_erase_correct (nodes sample) sample sample_tree 30 sample_holds sample_rb). decide_now.
Defined.
