(* ===== verification/Vma.v ===== *)
(** The areas of an address space: mm/mmap.c and include/linux/mm.h, looking up, linking and
    unlinking [vm_area_struct]s.

    An address space keeps its areas twice, on a list sorted by address ([mmap], [vm_next]) and in a
    red-black tree ([mm_rb]). The model has both: the tree is the store of file Rbtree, whose node
    of an area has the address of the area ([rb_entry] and [&vma->vm_rb] only add a constant), the
    field [vm_next] is a map of its own, and the other fields are records in a third map. A read or
    write of an address without a cell is a fault ([Bug]), like BUG().

    Calls that leave the file (page tables, files, the slab allocator) are noted in [calls] in the
    order in which they happen. [mmap_sem] is held throughout, so that there is no concurrency.

    [Mm s l] is the invariant: the list and the tree hold the same areas [l], sorted and disjoint.
    The theorems: [find_vma], [find_vma_prev] and [find_vma_prepare] find what their comments say,
    and linking, unlinking and merging keep the invariant. *)
From stdpp Require Import sorting.
From S2P Require Import Prelude Bootmem Rbtree.

(** ** Structures *)
Record vm_area := mk_vm_area {
  vm_start : Z;
  vm_end : Z;
  vm_page_prot : Z;
  vm_flags : Z;
  vm_ops : Z;
  vm_pgoff : Z;
  vm_file : Z;
  vm_raend : Z;
  vm_private_data : Z
}.
#[export] Instance vm_area_fields : Fields vm_area := fun v =>
  mk_vm_area (vm_start v) (vm_end v) (vm_page_prot v) (vm_flags v) (vm_ops v) (vm_pgoff v)
    (vm_file v) (vm_raend v) (vm_private_data v).
#[export] Instance vm_area_eq_dec : EqDecision vm_area.
Proof. solve_decision. Defined.

Definition VM_READ : Z := 0x1.
Definition VM_WRITE : Z := 0x2.
Definition VM_EXEC : Z := 0x4.
Definition VM_SHARED : Z := 0x8.
Definition VM_MAYREAD : Z := 0x10.
Definition VM_MAYWRITE : Z := 0x20.
Definition VM_MAYEXEC : Z := 0x40.
Definition VM_MAYSHARE : Z := 0x80.
Definition VM_GROWSDOWN : Z := 0x100.
Definition VM_GROWSUP : Z := 0x200.
Definition VM_DENYWRITE : Z := 0x800.
Definition VM_EXECUTABLE : Z := 0x1000.
Definition VM_LOCKED : Z := 0x2000.

Definition EAGAIN : Z := 11.
Definition ENOMEM : Z := 12.
Definition EACCES : Z := 13.
Definition ENODEV : Z := 19.
Definition EINVAL : Z := 22.

(** The user addresses of the SA-1100, and what one entry of the page directory maps. *)
Definition TASK_SIZE : Z := 0xc0000000.
Definition TASK_UNMAPPED_BASE : Z := TASK_SIZE / 3.
Definition PGDIR_SHIFT : Z := 20.
Definition PGDIR_SIZE : Z := 1 .<< PGDIR_SHIFT.
Definition FIRST_USER_PGD_NR : Z := 1.
Definition PAGE_ALIGN (addr : Z) : Z := u32 (addr + PAGE_SIZE - 1) .& PAGE_MASK.
Definition pgd_index (addr : Z) : Z := addr .>> PGDIR_SHIFT.

(** Calls into other parts of the kernel. *)
Inductive call :=
| Zap_page_range (start size : Z)
| Clear_page_tables (first nr : Z)
| Make_pages_present (start end_ : Z)
| Change_protection (start end_ prot : Z)
| Unmap_page_range (start end_ : Z)
| Copy_page_range (a : Z)
| Kmem_cache_free (a : Z)
| Fput (file : Z)
| Get_file (file : Z)
| Writecount_inc (file : Z)
| Writecount_dec (file : Z)
| I_mmap_add (a : Z)
| I_mmap_del (a : Z)
| Vm_open (ops a : Z)
| Vm_close (ops a : Z).

Record mm_struct := mk_mm {
  mmap : Z;
  mm_rb : rb_state;
  mmap_cache : Z;
  map_count : Z;
  end_code : Z;
  start_data : Z;
  brk : Z;
  total_vm : Z;
  locked_vm : Z;
  def_flags : Z;
  vmas : gmap Z vm_area;
  vm_next : gmap Z Z;
  calls : list call
}.
#[export] Instance mm_fields : Fields mm_struct := fun s =>
  mk_mm (mmap s) (mm_rb s) (mmap_cache s) (map_count s) (end_code s) (start_data s) (brk s)
    (total_vm s) (locked_vm s) (def_flags s) (vmas s) (vm_next s) (calls s).

(** ** Accesses *)
Definition V (A : Type) : Type := mm_struct -> outcome (A * mm_struct).
#[export] Instance V_ret : MRet V := fun A a s => Ok (a, s).
#[export] Instance V_bind : MBind V := fun A B f m s =>
  match m s with Ok (a, s') => f a s' | Bug => Bug end.

Definition vma_get {A} (a : Z) (f : vm_area -> A) : V A := fun s =>
  match vmas s !! a with Some v => Ok (f v, s) | None => Bug end.
Definition vma_set (a : Z) (f : vm_area -> vm_area) : V unit := fun s =>
  match vmas s !! a with
  | Some v => Ok (tt, s <| vmas := <[a := f v]> (vmas s) |>)
  | None => Bug
  end.
Definition next_get (a : Z) : V Z := fun s =>
  match vm_next s !! a with Some n => Ok (n, s) | None => Bug end.
Definition next_set (a n : Z) : V unit := fun s =>
  match vm_next s !! a with
  | Some _ => Ok (tt, s <| vm_next := <[a := n]> (vm_next s) |>)
  | None => Bug
  end.
Definition mm_get {A} (f : mm_struct -> A) : V A := fun s => Ok (f s, s).
Definition mm_set (f : mm_struct -> mm_struct) : V unit := fun s => Ok (tt, f s).
Definition on_rb {A} (m : M A) : V A := fun s =>
  match m (mm_rb s) with
  | Ok (a, r) => Ok (a, s <| mm_rb := r |>)
  | Bug => Bug
  end.
Definition call_out (c : call) : V unit := mm_set (fun s => s <| calls := calls s ++ [c] |>).
Definition BUG {A} : V A := fun _ => Bug.
Definition whenV (c : bool) (m : V unit) : V unit := if c then m else mret tt.
(** The fuel of a walk in the tree or on the list. *)
Definition walk {A} (f : nat -> V A) : V A := fun s => f (S (size (nodes (mm_rb s)))) s.

(** ** Looking up areas *)
Fixpoint find_loop (fuel : nat) (addr rb_node vma : Z) : V Z :=
  match fuel with
  | O => BUG
  | S fuel =>
    if truth rb_node then
      e ← vma_get rb_node vm_end;
      if addr <? e then
        st ← vma_get rb_node vm_start;
        if st <=? addr then mret rb_node
        else l ← on_rb (rd rb_node Left); find_loop fuel addr l rb_node
      else r ← on_rb (rd rb_node Right); find_loop fuel addr r vma
    else mret vma
  end.

Definition find_vma (addr : Z) : V Z :=
  vma ← mm_get mmap_cache;
  hit ← (if truth vma then
           e ← vma_get vma vm_end;
           st ← vma_get vma vm_start;
           mret ((addr <? e) && (st <=? addr))
         else mret false);
  if hit : bool then mret vma
  else
    rb_node ← on_rb rd_root;
    vma ← walk (fun fuel => find_loop fuel addr rb_node 0);
    whenV (truth vma) (mm_set (fun s => s <| mmap_cache := vma |>));;
    mret vma.

Definition find_vma_intersection (start_addr end_addr : Z) : V Z :=
  vma ← find_vma start_addr;
  if truth vma then
    st ← vma_get vma vm_start;
    mret (if end_addr <=? st then 0 else vma)
  else mret vma.

(** The loop of [find_vma_prev] keeps [vma], [rb_last_right] and [rb_prev]. *)
Fixpoint find_prev_loop (fuel : nat) (addr rb_node vma rb_last_right rb_prev : Z) : V (Z * Z) :=
  match fuel with
  | O => BUG
  | S fuel =>
    if truth rb_node then
      e ← vma_get rb_node vm_end;
      if addr <? e then
        st ← vma_get rb_node vm_start;
        if st <=? addr then mret (rb_node, rb_last_right)
        else l ← on_rb (rd rb_node Left); find_prev_loop fuel addr l rb_node rb_last_right rb_last_right
      else r ← on_rb (rd rb_node Right); find_prev_loop fuel addr r vma rb_node rb_prev
    else mret (vma, rb_prev)
  end.

Fixpoint rightmost_loop (fuel : nat) (node : Z) : V Z :=
  match fuel with
  | O => BUG
  | S fuel =>
    r ← on_rb (rd node Right);
    if truth r then rightmost_loop fuel r else mret node
  end.

(** Returns the area and the previous one. *)
Definition find_vma_prev (addr : Z) : V (Z * Z) :=
  rb_node ← on_rb rd_root;
  '(vma, rb_prev) ← walk (fun fuel => find_prev_loop fuel addr rb_node 0 0 0);
  if truth vma then
    l ← on_rb (rd vma Left);
    rb_prev ← (if truth l then walk (fun fuel => rightmost_loop fuel l) else mret rb_prev);
    after ← (if truth rb_prev then next_get rb_prev else mm_get mmap);
    if negb (after =? vma) then BUG else mret (vma, rb_prev)
  else mret (0, 0).

(** The result of [find_vma_prepare]: an area that covers the address (the places are then not
    set), or the next area, the previous one, and where a new one is to be linked. *)
Inductive place :=
| Covered (vma : Z)
| Place (vma prev : Z) (rb_link : link) (rb_parent : Z).

Fixpoint prepare_loop (fuel : nat) (addr vma : Z) (rb_link : link) (rb_parent rb_prev : Z) : V place :=
  match fuel with
  | O => BUG
  | S fuel =>
    p ← on_rb (rd_link rb_link);
    if truth p then
      e ← vma_get p vm_end;
      if addr <? e then
        st ← vma_get p vm_start;
        if st <=? addr then mret (Covered p)
        else prepare_loop fuel addr p (AtLeft p) p rb_prev
      else prepare_loop fuel addr vma (AtRight p) p p
    else mret (Place vma rb_prev rb_link rb_parent)
  end.

Definition find_vma_prepare (addr : Z) : V place :=
  walk (fun fuel => prepare_loop fuel addr 0 AtRoot 0 0).

(** ** Linking and unlinking *)
Definition __vma_link_list (vma prev rb_parent : Z) : V unit :=
  if truth prev then
    n ← next_get prev;
    next_set vma n;;
    next_set prev vma
  else
    mm_set (fun s => s <| mmap := vma |>);;
    next_set vma (if truth rb_parent then rb_parent else 0).

Definition __vma_link_rb (vma : Z) (rb_link : link) (rb_parent : Z) : V unit :=
  on_rb (rb_link_node vma rb_parent rb_link);;
  on_rb (rb_insert_color vma).

Definition __vma_link_file (vma : Z) : V unit :=
  file ← vma_get vma vm_file;
  flags ← vma_get vma vm_flags;
  whenV (truth file)
    (whenV (truth (flags .& VM_DENYWRITE)) (call_out (Writecount_dec file));;
     call_out (I_mmap_add vma)).

Definition __vma_link (vma prev : Z) (rb_link : link) (rb_parent : Z) : V unit :=
  __vma_link_list vma prev rb_parent;;
  __vma_link_rb vma rb_link rb_parent;;
  __vma_link_file vma.

Definition count_map (d : Z) : V unit := mm_set (fun s => s <| map_count := s32 (map_count s + d) |>).

Definition vma_link (vma prev : Z) (rb_link : link) (rb_parent : Z) : V unit :=
  __vma_link vma prev rb_link rb_parent;;
  count_map 1.

Definition __vma_unlink (vma prev : Z) : V unit :=
  n ← next_get vma;
  next_set prev n;;
  on_rb (rb_erase vma);;
  cache ← mm_get mmap_cache;
  whenV (cache =? vma) (mm_set (fun s => s <| mmap_cache := prev |>)).

Definition __remove_shared_vm_struct (vma : Z) : V unit :=
  file ← vma_get vma vm_file;
  flags ← vma_get vma vm_flags;
  whenV (truth file)
    (whenV (truth (flags .& VM_DENYWRITE)) (call_out (Writecount_inc file));;
     call_out (I_mmap_del vma)).

(** [__insert_vm_struct] and [insert_vm_struct] do the same up to the locks they take. *)
Definition __insert_vm_struct (vma : Z) : V unit :=
  st ← vma_get vma vm_start;
  p ← find_vma_prepare st;
  match p with
  | Covered v | Place v _ _ _ =>
    vst ← (if truth v then vma_get v vm_start else mret 0);
    e ← vma_get vma vm_end;
    if truth v && (vst <? e) then BUG
    else match p with
    | Covered _ => BUG
    | Place _ prev rb_link rb_parent =>
      __vma_link vma prev rb_link rb_parent;;
      count_map 1
    end
  end.

Definition can_vma_merge (vma flags : Z) : V bool :=
  file ← vma_get vma vm_file;
  f ← vma_get vma vm_flags;
  mret (negb (truth file) && (f =? flags)).

(** From the label [merge_next]. *)
Definition merge_next (prev addr end_ flags : Z) : V bool :=
  ok ← can_vma_merge prev flags;
  if negb ok then mret false
  else
    st ← vma_get prev vm_start;
    if end_ =? st then
      vma_set prev (fun v => v <| vm_start := addr |>);;
      mret true
    else mret false.

Definition vma_merge (prev rb_parent addr end_ flags : Z) : V bool :=
  if negb (truth prev) then merge_next rb_parent addr end_ flags
  else
    pe ← vma_get prev vm_end;
    ok ← (if pe =? addr then can_vma_merge prev flags else mret false);
    if ok : bool then
      vma_set prev (fun v => v <| vm_end := end_ |>);;
      next ← next_get prev;
      nst ← (if truth next then vma_get next vm_start else mret 0);
      both ← (if truth next && (end_ =? nst) then can_vma_merge next flags else mret false);
      if both : bool then
        ne ← vma_get next vm_end;
        vma_set prev (fun v => v <| vm_end := ne |>);;
        __vma_unlink next prev;;
        count_map (-1);;
        call_out (Kmem_cache_free next);;
        mret true
      else mret true
    else
      next ← next_get prev;
      if truth next then merge_next next addr end_ flags else mret false.

(** ** Pages *)
Lemma page_mask x : x .& PAGE_MASK = x / PAGE_SIZE * PAGE_SIZE.
Proof.
  unfold PAGE_MASK, PAGE_SIZE. change (4096 - 1) with (Z.ones 12).
  rewrite <- Z.ldiff_land, Z.ldiff_ones_r, Z.shiftl_mul_pow2, Z.shiftr_div_pow2 by lia. done.
Qed.
Lemma page_offset x : x .& Z.lnot PAGE_MASK = x mod PAGE_SIZE.
Proof. change (Z.lnot PAGE_MASK) with (Z.ones 12). rewrite Z.land_ones by lia. done. Qed.
Lemma page_aligned x : truth (x .& Z.lnot PAGE_MASK) = false <-> (PAGE_SIZE | x).
Proof. rewrite page_offset. unfold truth. rewrite negb_false_iff, Z.eqb_eq. by rewrite Z.mod_divide. Qed.
Lemma PAGE_ALIGN_id x : 0 <= x < 4294967296 -> (PAGE_SIZE | x) -> PAGE_ALIGN x = x.
Proof.
  intros Hx [q Hq]. unfold PAGE_ALIGN. rewrite page_mask. unfold PAGE_SIZE in *. unfold_ints.
  assert (q < 1048576) by lia. rewrite Z.mod_small by lia. dm.
Qed.
(** [PAGE_ALIGN] is the next multiple of the page size, unless it wraps around. *)
Lemma PAGE_ALIGN_spec x : 0 <= x <= 4294963200 ->
  (PAGE_SIZE | PAGE_ALIGN x) /\ x <= PAGE_ALIGN x < x + PAGE_SIZE.
Proof.
  intros Hx. unfold PAGE_ALIGN. rewrite page_mask. unfold PAGE_SIZE in *. rewrite u32_id by lia.
  split; [by eexists|]. dm.
Qed.

(** ** The invariant *)
Definition no_area : vm_area := mk_vm_area 0 0 0 0 0 0 0 0 0.
Definition ar (s : mm_struct) (a : Z) : vm_area := default no_area (vmas s !! a).

(** Page aligned, not empty, with addresses of 32 bits. *)
Definition area_ok (v : vm_area) : Prop :=
  0 <= vm_start v /\ vm_start v < vm_end v /\ vm_end v < 4294967296 /\
  (PAGE_SIZE | vm_start v) /\ (PAGE_SIZE | vm_end v).

(** The list [vm_next] from [p] on. *)
Fixpoint linked (nx : gmap Z Z) (p : Z) (l : list Z) : Prop :=
  match l with
  | [] => p = 0
  | a :: l => p = a /\ exists n, nx !! a = Some n /\ linked nx n l
  end.

(** The memory of an area. *)
Definition area_mem (s : mm_struct) (a : Z) : Prop :=
  a <> 0 /\ is_Some (vmas s !! a) /\ is_Some (vm_next s !! a) /\ is_Some (nodes (mm_rb s) !! a).
Definition mem_kept (s s' : mm_struct) : Prop := forall a, area_mem s a -> area_mem s' a.

Definition below (s : mm_struct) (a b : Z) : Prop := vm_end (ar s a) <= vm_start (ar s b).

(** The list and the tree hold the areas [l], in the order of their addresses. *)
Record Areas (s : mm_struct) (l : list Z) : Prop := {
  mm_linked : linked (vm_next s) (mmap s) l;
  mm_tree : exists t, Tree (nodes (mm_rb s)) (mm_rb s) t /\ rb_tree t /\ inorder t = l;
  mm_areas : forall a, a ∈ l -> is_Some (vmas s !! a) /\ area_ok (ar s a);
  mm_sorted : StronglySorted (below s) l
}.

(** The address space consists of the areas [l]; they are counted, and the cache is one of them. *)
Record Mm (s : mm_struct) (l : list Z) : Prop := {
  mm_ok : Areas s l;
  mm_count : map_count s = Z.of_nat (length l);
  mm_cache : mmap_cache s = 0 \/ mmap_cache s ∈ l
}.

(** ** Running the accesses *)
Lemma bindV {A B} (f : A -> V B) (m : V A) s a s' :
  m s = Ok (a, s') -> (m ≫= f) s = f a s'.
Proof. unfold mbind, V_bind. by intros ->. Qed.
Lemma bindV_assoc {A B C} (m : V A) (f : A -> V B) (g : B -> V C) s :
  ((m ≫= f) ≫= g) s = (m ≫= (fun a => f a ≫= g)) s.
Proof. unfold mbind, V_bind. by destruct (m s) as [[a s']|]. Qed.
Lemma bindV_inv {A B} (f : A -> V B) (m : V A) s b s' :
  (m ≫= f) s = Ok (b, s') -> exists a s1, m s = Ok (a, s1) /\ f a s1 = Ok (b, s').
Proof. unfold mbind, V_bind. destruct (m s) as [[a s1]|]; [|done]. intros H. by exists a, s1. Qed.
Lemma vma_get_ok {A} s a (f : vm_area -> A) : is_Some (vmas s !! a) -> vma_get a f s = Ok (f (ar s a), s).
Proof. intros [v Hv]. unfold vma_get, ar. by rewrite Hv. Qed.
Lemma on_rb_rd s a n f : nodes (mm_rb s) !! a = Some n -> on_rb (rd a f) s = Ok (read_field f n, s).
Proof. intros Ha. unfold on_rb. rewrite (rd_ok _ _ _ _ Ha). by destruct s. Qed.
Lemma on_rb_ok {A} s (m : M A) a r : m (mm_rb s) = Ok (a, r) -> on_rb m s = Ok (a, s <| mm_rb := r |>).
Proof. unfold on_rb. by intros ->. Qed.

(** The areas that end at or before an address, and those that end after it. *)
Definition low (s : mm_struct) (addr a : Z) : Prop := vm_end (ar s a) <= addr.
Definition high (s : mm_struct) (addr a : Z) : Prop := addr < vm_end (ar s a).

(** [l1] and [l2] are the areas before and after an address. *)
Definition split_at (s : mm_struct) (l : list Z) (addr : Z) (l1 l2 : list Z) : Prop :=
  l = l1 ++ l2 /\ Forall (low s addr) l1 /\ Forall (high s addr) l2.

Definition hd0 (l : list Z) : Z := hd 0 l.
Definition last0 (l : list Z) : Z := default 0 (last l).

Section Search.
Context (s : mm_struct) (l : list Z) (addr : Z).
Hypothesis HM : Areas s l.

Lemma area_of a : a ∈ l -> is_Some (vmas s !! a).
Proof using HM. apply HM. Qed.

Lemma sorted_split l1 a l2 : l = l1 ++ a :: l2 ->
  Forall (fun b => below s b a) l1 /\ Forall (below s a) l2.
Proof using HM.
  intros ->. pose proof (mm_sorted _ _ HM) as Hs.
  apply StronglySorted_app in Hs as (H1 & _ & H2). apply StronglySorted_cons in H2 as [H2 _].
  split; [|done]. apply Forall_forall. intros b Hb. apply H1; [done|left].
Qed.

(** An area that ends after the address and starts at or before it is the first one that ends
    after it. *)
Lemma covering_split l1 a l2 : l = l1 ++ a :: l2 ->
  vm_start (ar s a) <= addr < vm_end (ar s a) -> split_at s l addr l1 (a :: l2).
Proof using HM.
  intros El Ha. destruct (sorted_split _ _ _ El) as [H1 H2]. split_and!; [done| |].
  - eapply Forall_impl; [exact H1|]. unfold below, low. intros b Hb. lia.
  - constructor; [unfold high; lia|]. apply Forall_forall. intros b Hb.
    rewrite Forall_forall in H2. specialize (H2 b Hb). unfold below in H2.
    destruct (mm_areas _ _ HM b) as [_ Hok]; [rewrite El; set_solver|].
    unfold area_ok in Hok. unfold high. lia.
Qed.

(** The areas on both sides of a node of the tree, on the way to the address. *)
Lemma node_facts k c tl a tr :
  inorder (plug k (Node c tl a tr)) = l -> Forall (low s addr) (before k) -> Forall (high s addr) (after k) ->
  is_Some (vmas s !! a) /\
  (vm_start (ar s a) <= addr < vm_end (ar s a) ->
     split_at s l addr (before k ++ inorder tl) (a :: inorder tr ++ after k)) /\
  (addr < vm_end (ar s a) -> Forall (high s addr) (after (mk_frame L c a tr :: k))) /\
  (vm_end (ar s a) <= addr -> Forall (low s addr) (before (mk_frame R c a tl :: k))).
Proof using HM.
  intros Hin Hb Ha.
  assert (El : l = (before k ++ inorder tl) ++ a :: inorder tr ++ after k).
  { rewrite <- Hin, inorder_plug. simpl. by rewrite <- !app_assoc. }
  assert (Hal : a ∈ l) by (rewrite El; set_solver).
  destruct (mm_areas _ _ HM a Hal) as [Harea Hok].
  destruct (sorted_split _ _ _ El) as [Hlow Hhigh]. rewrite !Forall_app in Hlow, Hhigh.
  split_and!; [done|by apply covering_split|intros Hgt; simpl|intros Hle; simpl].
  - constructor; [done|]. apply Forall_app. split; [|done].
    apply Forall_forall. intros b Hbr. destruct Hhigh as [Hhigh _]. rewrite Forall_forall in Hhigh.
    specialize (Hhigh b Hbr). destruct (mm_areas _ _ HM b) as [_ Hokb]; [rewrite El; set_solver|].
    unfold below, area_ok, high in *. lia.
  - rewrite !Forall_app. split_and!; [done| |constructor; [unfold low; lia|done]].
    eapply Forall_impl; [apply Hlow|]. unfold below, area_ok, low in *. intros b Hbl. lia.
Qed.
End Search.

Ltac runV := first
  [ erewrite bindV by (apply vma_get_ok; assumption)
  | erewrite bindV by (apply on_rb_rd; eassumption) ];
  cbn [read_field rb_left rb_right rb_parent rb_color].
Ltac fuel_lt H := cbn [inorder length] in H; rewrite length_app in H; cbn [length] in H; lia.

Lemma find_loop_correct s l addr F k t fuel :
  Areas s l -> Tree F (mm_rb s) (plug k t) -> inorder (plug k t) = l ->
  Forall (low s addr) (before k) -> Forall (high s addr) (after k) ->
  (length (inorder t) < fuel)%nat ->
  exists l1 l2, split_at s l addr l1 l2 /\
    find_loop fuel addr (ptr t) (hd0 (after k)) s = Ok (hd0 l2, s).
Proof.
  intros HM. revert k fuel. induction t as [|c tl IHl a tr IHr]; intros k fuel HT Hin Hb Ha Hfuel;
    (destruct fuel as [|fuel]; [lia|]).
  - exists (before k), (after k). split; [|done]. rewrite inorder_plug in Hin. by split_and!.
  - pose proof (focus_holds _ _ _ _ HT) as (H0 & Hcell & _ & _). cbn [find_loop ptr].
    rewrite truth_nz by done.
    destruct (node_facts _ _ addr HM _ _ _ _ _ Hin Hb Ha) as (Harea & Hcov & Hleft & Hright).
    runV. case_cmp.
    + runV. case_cmp.
      * eexists _, _. split; [by apply Hcov|done].
      * runV. apply (IHl (mk_frame L c a tr :: k)); auto. fuel_lt Hfuel.
    + runV. apply (IHr (mk_frame R c a tl :: k)); auto. fuel_lt Hfuel.
Qed.

(** The contexts of the nodes and holes of the tree of an address space. *)
Lemma walk_fuel F s t : Tree F (mm_rb s) t -> (length (inorder t) < S (size (nodes (mm_rb s))))%nat.
Proof. intros HT. pose proof (Tree_size _ _ _ HT). lia. Qed.

(** [find_vma] without its cache. *)
Lemma find_walk_correct s l addr : Areas s l ->
  exists l1 l2, split_at s l addr l1 l2 /\
    walk (fun fuel => find_loop fuel addr (root (mm_rb s)) 0) s = Ok (hd0 l2, s).
Proof.
  intros HM. destruct (mm_tree _ _ HM) as (t & HT & _ & Hin). rewrite (tree_root _ _ _ HT).
  apply (find_loop_correct s l addr (nodes (mm_rb s)) [] t); try done; [constructor..|by eapply walk_fuel].
Qed.

(** The split is unique. *)
Lemma split_unique s l addr l1 l2 l1' l2' :
  split_at s l addr l1 l2 -> split_at s l addr l1' l2' -> l1 = l1' /\ l2 = l2'.
Proof.
  intros (-> & Hl & Hh) (E & Hl' & Hh'). revert l1' Hl' E. induction l1 as [|a l1 IH]; intros l1' Hl' E.
  - destruct l1' as [|b l1']; [done|]. simpl in E. subst l2. apply Forall_cons in Hh as [Hh _].
    apply Forall_cons in Hl' as [Hl' _]. unfold low, high in *. lia.
  - destruct l1' as [|b l1'].
    + simpl in E. subst l2'. apply Forall_cons in Hh' as [Hh' _]. apply Forall_cons in Hl as [Hl _].
      unfold low, high in *. lia.
    + injection E as -> E. apply Forall_cons in Hl as [_ Hl]. apply Forall_cons in Hl' as [_ Hl'].
      destruct (IH Hl l1' Hl' E) as [-> ->]. done.
Qed.

Lemma hd0_elem l : l <> [] -> hd0 l ∈ l.
Proof. destruct l; [done|]. intros _. left. Qed.

Lemma Areas_nonzero s l a : Areas s l -> a ∈ l -> a <> 0.
Proof.
  intros HM Ha. destruct (mm_tree _ _ HM) as (t & HT & _ & Hin). rewrite <- Hin in Ha.
  destruct (focus_exists _ _ Ha) as (k & c & tl & tr & ->). by destruct (focus_holds _ _ _ _ HT).
Qed.

(** The cache does not change what the address space is. *)
Lemma set_cache_Mm s l a : Mm s l -> a ∈ l -> Mm (s <| mmap_cache := a |>) l.
Proof. intros [[] ? ?] Ha. constructor; [by constructor|done|by right]. Qed.

Lemma find_vma_split s l addr : Mm s l ->
  exists l1 l2 s', split_at s l addr l1 l2 /\ find_vma addr s = Ok (hd0 l2, s') /\
    s' = s <| mmap_cache := mmap_cache s' |> /\ Mm s' l.
Proof.
  intros HMm. pose proof (mm_ok _ _ HMm) as HM. destruct (find_walk_correct s l addr HM) as (l1 & l2 & Hsplit & Hwalk).
  exists l1, l2. unfold find_vma. rewrite (bindV _ (mm_get mmap_cache) _ _ _ eq_refl).
  assert (Hmiss : exists s', (rb_node ← on_rb rd_root;
      vma ← walk (fun fuel => find_loop fuel addr rb_node 0);
      whenV (truth vma) (mm_set (fun s => s <| mmap_cache := vma |>));;
      mret vma) s = Ok (hd0 l2, s') /\ s' = s <| mmap_cache := mmap_cache s' |> /\ Mm s' l).
  { rewrite (bindV _ (on_rb rd_root) _ (root (mm_rb s)) s) by (by destruct s).
    rewrite (bindV _ _ _ _ _ Hwalk). destruct l2 as [|a l2].
    - exists s. split_and!; [done|by destruct s|done].
    - destruct Hsplit as (El & _). assert (Ha : a ∈ l) by (rewrite El; set_solver).
      simpl. rewrite truth_nz by (by eapply Areas_nonzero). eexists. split_and!; [done|done|].
      by apply set_cache_Mm. }
  destruct (truth (mmap_cache s)) eqn:Hc.
  2: { rewrite (bindV _ (mret false) _ _ _ eq_refl). destruct Hmiss as (s' & ? & ? & ?). by exists s'. }
  assert (Hcl : mmap_cache s ∈ l).
  { destruct (mm_cache _ _ HMm) as [Hz|]; [by rewrite Hz in Hc|done]. }
  pose proof (area_of _ _ HM _ Hcl) as Harea. rewrite !bindV_assoc. runV. rewrite bindV_assoc. runV.
  rewrite (bindV _ (mret _) _ _ _ eq_refl).
  destruct ((addr <? _) && (_ <=? addr)) eqn:Hhit; [|destruct Hmiss as (s' & ? & ? & ?); by exists s'].
  bool_hyps. apply list_elem_of_split in Hcl as (l1' & l2' & El).
  assert (Hs' : split_at s l addr l1' (mmap_cache s :: l2')) by (apply covering_split; [done|done|lia]).
  destruct (split_unique _ _ _ _ _ _ _ Hsplit Hs') as [-> ->].
  exists s. split_and!; [done|done|by destruct s|done].
Qed.

(** ** The previous area *)
Lemma last0_snoc l a : last0 (l ++ [a]) = a.
Proof. unfold last0. by rewrite last_snoc. Qed.
Lemma last0_app l l' : l' <> [] -> last0 (l ++ l') = last0 l'.
Proof.
  intros Hne. destruct l' as [|a l'] using rev_ind; [done|]. by rewrite app_assoc, !last0_snoc.
Qed.

(** Where the area [a] is in the tree [T], and that [p] is the last node passed on its right. *)
Definition seated (T : tree) (a p : Z) : Prop :=
  exists k c tl tr, T = plug k (Node c tl a tr) /\ p = last0 (before k).

Lemma find_prev_loop_correct s l addr F k t fuel vma rb_prev :
  Areas s l -> Tree F (mm_rb s) (plug k t) -> inorder (plug k t) = l ->
  Forall (low s addr) (before k) -> Forall (high s addr) (after k) ->
  (length (inorder t) < fuel)%nat ->
  vma = hd0 (after k) -> (after k <> [] -> seated (plug k t) vma rb_prev) ->
  exists l1 l2 p, split_at s l addr l1 l2 /\
    find_prev_loop fuel addr (ptr t) vma (last0 (before k)) rb_prev s = Ok ((hd0 l2, p), s) /\
    (l2 <> [] -> seated (plug k t) (hd0 l2) p).
Proof.
  intros HM. revert k fuel vma rb_prev.
  induction t as [|c tl IHl a tr IHr]; intros k fuel vma rb_prev HT Hin Hb Ha Hfuel Hv Hp;
    (destruct fuel as [|fuel]; [lia|]).
  - exists (before k), (after k), rb_prev. rewrite inorder_plug in Hin. subst vma. by split_and!.
  - pose proof (focus_holds _ _ _ _ HT) as (H0 & Hcell & _ & _). cbn [find_prev_loop ptr].
    rewrite truth_nz by done.
    destruct (node_facts _ _ addr HM _ _ _ _ _ Hin Hb Ha) as (Harea & Hcov & Hleft & Hright).
    assert (Hseat : seated (plug k (Node c tl a tr)) a (last0 (before k))) by (by exists k, c, tl, tr).
    runV. case_cmp.
    + runV. case_cmp.
      * eexists _, _, _. split_and!; [by apply Hcov|done|]. done.
      * runV. apply (IHl (mk_frame L c a tr :: k)); auto. fuel_lt Hfuel.
    + runV. specialize (IHr (mk_frame R c a tl :: k)). cbn [before after] in IHr.
      rewrite app_assoc, last0_snoc in IHr. apply IHr; auto; [|fuel_lt Hfuel].
      rewrite <- app_assoc. by apply Hright.
Qed.

Lemma rightmost_correct s p t fuel :
  holds (nodes (mm_rb s)) p t -> t <> Leaf -> (length (inorder t) <= fuel)%nat ->
  rightmost_loop fuel (ptr t) s = Ok (last0 (inorder t), s).
Proof.
  revert p fuel. induction t as [|c tl IHl a tr IHr]; intros p fuel; [done|].
  intros (H0 & Ha & Hl & Hr) _ Hfuel. cbn [inorder] in Hfuel. rewrite length_app in Hfuel.
  cbn [length] in Hfuel. destruct fuel as [|fuel]; [lia|]. cbn [rightmost_loop ptr]. runV.
  destruct tr as [|cr trl b trr].
  - change (truth (ptr Leaf)) with false. cbn [inorder]. by rewrite last0_snoc.
  - cbn [ptr]. destruct Hr as (Hb & Hr'). rewrite truth_nz by done.
    erewrite (IHr a); [|by split|done|lia].
    change (inorder (Node c tl a ?t)) with (inorder tl ++ [a] ++ inorder t).
    rewrite app_assoc, last0_app; [done|]. simpl. by destruct (inorder trl).
Qed.

(** Following the list: what comes after [l1]. *)
Lemma linked_app nx p l1 l2 : linked nx p (l1 ++ l2) ->
  match l1 with [] => p = hd0 l2 | _ => nx !! last0 l1 = Some (hd0 l2) end.
Proof.
  revert p. induction l1 as [|a l1 IH]; intros p; simpl.
  - destruct l2; simpl; [done|]. by intros [-> _].
  - intros (-> & n & Hn & Hl). apply IH in Hl. destruct l1 as [|b l1]; [by rewrite <- Hl|].
    rewrite <- Hl. f_equal.
Qed.

Lemma after_get s l1 l2 : Areas s (l1 ++ l2) -> 
  (if truth (last0 l1) then next_get (last0 l1) else mm_get mmap) s = Ok (hd0 l2, s).
Proof.
  intros HM. pose proof (linked_app _ _ _ _ (mm_linked _ _ HM)) as Hl.
  destruct l1 as [|a l1] using rev_ind.
  { change (Ok (mmap s, s) = Ok (hd0 l2, s)). by rewrite Hl. }
  clear IHl1.
  rewrite last0_snoc. rewrite truth_nz.
  2: { eapply Areas_nonzero; [done|]. set_solver. }
  unfold next_get. rewrite last0_snoc in Hl. destruct l1; simpl in Hl; by rewrite Hl.
Qed.

Lemma nodup_split (a : Z) x y x' y' : NoDup (x ++ a :: y) -> x ++ a :: y = x' ++ a :: y' -> x = x'.
Proof.
  revert x'. induction x as [|b x IH]; intros x' Hnd E.
  - destruct x' as [|b x']; [done|]. injection E as <- E. exfalso. apply NoDup_cons in Hnd as [Hnd _].
    apply Hnd. rewrite E. set_solver.
  - simpl in Hnd. apply NoDup_cons in Hnd as [Hb Hnd]. destruct x' as [|b' x'].
    + injection E as -> E. exfalso. apply Hb. set_solver.
    + injection E as -> E. f_equal. by eapply IH.
Qed.

(** [find_vma_prev]: the first area that ends after the address, and the one before it; BUG() is not
    reached. *)
Lemma find_vma_prev_split s l addr : Areas s l ->
  exists l1 l2, split_at s l addr l1 l2 /\
    find_vma_prev addr s = Ok ((hd0 l2, if decide (l2 = []) then 0 else last0 l1), s).
Proof.
  intros HM. destruct (mm_tree _ _ HM) as (t & HT & Hrb & Hin). unfold find_vma_prev.
  destruct (find_prev_loop_correct s l addr _ [] t (S (size (nodes (mm_rb s)))) 0 0 HM HT Hin)
    as (l1 & l2 & p & Hsplit & E & Hseat); [constructor|constructor|by eapply walk_fuel|done|done|].
  exists l1, l2. split; [done|].
  rewrite (bindV _ (on_rb rd_root) _ (root (mm_rb s)) s) by (by destruct s).
  rewrite (tree_root _ _ _ HT). rewrite (bindV _ (walk _) _ _ _ E).
  destruct (decide (l2 = [])) as [->|Hne]; [done|].
  destruct (Hseat Hne) as (k & c & tl & tr & ET & ->). simpl in ET. subst t. destruct l2 as [|a l2]; [done|]. cbn [hd0 hd].
  pose proof (focus_holds _ _ _ _ HT) as (H0 & Hcell & Htl & _). rewrite truth_nz by done. runV.
  assert (El : l1 = before k ++ inorder tl).
  { destruct Hsplit as (El & _).
    assert (El' : l = (before k ++ inorder tl) ++ a :: inorder tr ++ after k)
      by (rewrite <- Hin, inorder_plug; simpl; by rewrite <- !app_assoc).
    eapply (nodup_split a); [|by rewrite <- El]. rewrite <- El, <- Hin. apply HT. }
  assert (Hprev : (if truth (ptr tl) then walk (fun fuel => rightmost_loop fuel (ptr tl))
                   else mret (last0 (before k))) s = Ok (last0 l1, s)).
  { subst l1. destruct tl as [|ctl tll b tlr].
    - simpl. by rewrite app_nil_r.
    - pose proof Htl as (Hb & _). cbn [ptr]. rewrite truth_nz by done. unfold walk.
      erewrite (rightmost_correct s a (Node ctl tll b tlr)); [|done|done|].
      + rewrite last0_app; [done|]. simpl. by destruct (inorder tll).
      + pose proof (walk_fuel _ _ _ HT) as Hf. rewrite inorder_plug in Hf. simpl in Hf |- *.
        rewrite !length_app in *. simpl in *. rewrite ?length_app in *. simpl in *. lia. }
  rewrite (bindV _ _ _ _ _ Hprev). destruct Hsplit as (El2 & _). rewrite El2 in HM.
  rewrite (bindV _ _ _ _ _ (after_get _ _ _ HM)). cbn [hd0 hd]. by rewrite Z.eqb_refl.
Qed.

(** ** The place of a new area *)

(** The address is in no area: it is after [l1] and before [l2]. *)
Definition gap_at (s : mm_struct) (l : list Z) (addr : Z) (l1 l2 : list Z) : Prop :=
  l = l1 ++ l2 /\ Forall (low s addr) l1 /\ Forall (fun a => addr < vm_start (ar s a)) l2.

Lemma rd_link_ok s F k t : Tree F (mm_rb s) (plug k t) -> on_rb (rd_link (link_of k)) s = Ok (ptr t, s).
Proof.
  intros HT. pose proof (focus_ctx _ _ _ _ HT) as Hk.
  destruct k as [|[d c a sib] k].
  - simpl. unfold on_rb. simpl. rewrite (tree_root _ _ _ HT). by destruct s.
  - destruct Hk as (_ & Ha & _). destruct d; simpl; by erewrite on_rb_rd by done.
Qed.

Lemma above_high s l addr l' : Areas s l -> (forall a, a ∈ l' -> a ∈ l) ->
  Forall (fun a => addr < vm_start (ar s a)) l' -> Forall (high s addr) l'.
Proof.
  intros HM Hsub. rewrite !Forall_forall. intros H a Ha. specialize (H a Ha).
  destruct (mm_areas _ _ HM a) as [_ Hok]; [auto|]. unfold area_ok, high in *. lia.
Qed.

Lemma prepare_loop_correct s l addr F k t fuel :
  Areas s l -> Tree F (mm_rb s) (plug k t) -> inorder (plug k t) = l ->
  Forall (low s addr) (before k) -> Forall (fun a => addr < vm_start (ar s a)) (after k) ->
  (length (inorder t) < fuel)%nat ->
  exists r, prepare_loop fuel addr (hd0 (after k)) (link_of k) (top k) (last0 (before k)) s = Ok (r, s) /\
    ((exists a l1 l2, r = Covered a /\ split_at s l addr l1 (a :: l2) /\ vm_start (ar s a) <= addr) \/
     (exists k', r = Place (hd0 (after k')) (last0 (before k')) (link_of k') (top k') /\
        plug k t = plug k' Leaf /\ gap_at s l addr (before k') (after k'))).
Proof.
  intros HM. revert k fuel. induction t as [|c tl IHl a tr IHr]; intros k fuel HT Hin Hb Ha Hfuel;
    (destruct fuel as [|fuel]; [lia|]); cbn [prepare_loop];
    rewrite (bindV _ _ _ _ _ (rd_link_ok _ _ _ _ HT)); cbn [ptr].
  - eexists. split; [done|]. right. exists k. rewrite inorder_plug in Hin. by split_and!.
  - pose proof (focus_holds _ _ _ _ HT) as (H0 & Hcell & _ & _). rewrite truth_nz by done.
    assert (Ha' : Forall (high s addr) (after k)).
    { eapply above_high; [done| |done]. intros b Hb'. rewrite <- Hin, inorder_plug. set_solver. }
    destruct (node_facts _ _ addr HM _ _ _ _ _ Hin Hb Ha') as (Harea & Hcov & Hleft & Hright).
    runV. case_cmp.
    + runV. case_cmp.
      * eexists. split; [done|]. left. eexists _, _, _. split_and!; [done|by apply Hcov|done].
      * apply (IHl (mk_frame L c a tr :: k)); auto; [|fuel_lt Hfuel]. simpl. constructor; [done|].
        apply Forall_app. split; [|done].
        assert (El : l = (before k ++ inorder tl) ++ a :: inorder tr ++ after k).
        { rewrite <- Hin, inorder_plug. simpl. by rewrite <- !app_assoc. }
        destruct (sorted_split _ _ HM _ _ _ El) as [_ Hbelow]. apply Forall_app in Hbelow as [Hbelow _].
        eapply Forall_impl; [exact Hbelow|]. unfold below. intros b Hab.
        destruct (mm_areas _ _ HM a) as [_ Hok]; [rewrite El; set_solver|]. unfold area_ok in Hok. lia.
    + specialize (IHr (mk_frame R c a tl :: k)). cbn [before after link_of top f_addr plug node_of] in IHr.
      rewrite app_assoc, last0_snoc in IHr. apply IHr; auto; [|fuel_lt Hfuel].
      rewrite <- app_assoc. by apply Hright.
Qed.

Lemma prepare_correct s l addr : Areas s l ->
  exists r, find_vma_prepare addr s = Ok (r, s) /\
    ((exists a l1 l2, r = Covered a /\ split_at s l addr l1 (a :: l2) /\ vm_start (ar s a) <= addr) \/
     (exists k, r = Place (hd0 (after k)) (last0 (before k)) (link_of k) (top k) /\
        Tree (nodes (mm_rb s)) (mm_rb s) (plug k Leaf) /\ rb_tree (plug k Leaf) /\
        gap_at s l addr (before k) (after k))).
Proof.
  intros HM. destruct (mm_tree _ _ HM) as (t & HT & Hrb & Hin).
  destruct (prepare_loop_correct s l addr (nodes (mm_rb s)) [] t (S (size (nodes (mm_rb s)))) HM HT Hin)
    as (r & E & H); [constructor|constructor|by eapply walk_fuel|].
  exists r. split; [done|]. destruct H as [H|(k & -> & Et & Hgap)]; [by left|right].
  simpl in Et. subst t. by exists k.
Qed.

(** ** Linking *)
Lemma before_nil_top k : before k = [] -> top k = hd0 (after k).
Proof.
  destruct k as [|[[] c a sib] k]; [done|done|]. simpl. intros H.
  by apply app_eq_nil in H as [_ [_ ?]%app_eq_nil].
Qed.

Lemma linked_agree nx nx' p l : (forall a, a ∈ l -> nx' !! a = nx !! a) -> linked nx p l -> linked nx' p l.
Proof.
  revert p. induction l as [|a l IH]; intros p Heq; simpl; [done|]. intros (-> & n & Hn & Hl).
  split; [done|]. exists n. rewrite Heq by left. split; [done|]. apply IH; [|done].
  intros b Hb. apply Heq. by right.
Qed.

(** The list with [l1] kept and [l2] replaced: the last cell of [l1] points to the new rest. *)
Lemma linked_replace nx p l1 l2 l2' nx' :
  NoDup l1 -> linked nx p (l1 ++ l2) ->
  (forall a, a ∈ l1 -> a <> last0 l1 -> nx' !! a = nx !! a) ->
  (l1 <> [] -> nx' !! last0 l1 = Some (hd0 l2')) ->
  linked nx' (hd0 l2') l2' ->
  linked nx' (match l1 with [] => hd0 l2' | _ => p end) (l1 ++ l2').
Proof.
  intros Hnd Hl Heq Hlast Hrest. destruct l1 as [|a l1]; [done|].
  revert a p Hnd Hl Heq Hlast. induction l1 as [|b l1 IH]; intros a p Hnd Hl Heq Hlast.
  - simpl in *. destruct Hl as (-> & _). split; [done|]. eexists. split; [by apply Hlast|done].
  - destruct Hl as (-> & n & Hn & Hl). split; [done|]. exists n.
    apply NoDup_cons in Hnd as [Ha Hnd].
    assert (E : last0 (a :: b :: l1) = last0 (b :: l1)) by done. rewrite E in *.
    split.
    + rewrite Heq; [done|left|]. intros ->. apply Ha. unfold last0.
      destruct (last (b :: l1)) as [x|] eqn:Ex; simpl; [by apply last_Some_elem_of in Ex|].
      by apply last_None in Ex.
    + apply (IH b n); [done|done| |intros _; by apply Hlast]. intros x Hx. apply Heq. by right.
Qed.

(** The fields of an address space that have nothing to do with the list of areas. *)
Definition same_rest (s s' : mm_struct) : Prop :=
  mmap_cache s' = mmap_cache s /\ end_code s' = end_code s /\ start_data s' = start_data s /\
  brk s' = brk s /\ total_vm s' = total_vm s /\ locked_vm s' = locked_vm s /\ def_flags s' = def_flags s.

Lemma on_rb_seq {A B} (m : M A) (m' : M B) s : (on_rb m ;; on_rb m') s = on_rb (m ;; m') s.
Proof.
  unfold mbind, V_bind, M_bind, on_rb. destruct (m (mm_rb s)) as [[a r]|]; [|done].
  change (mm_rb (s <| mm_rb := r |>)) with r. by destruct (m' r) as [[b r']|].
Qed.

Definition link_calls (v : vm_area) (a : Z) : list call :=
  if truth (vm_file v) then
    (if truth (vm_flags v .& VM_DENYWRITE) then [Writecount_dec (vm_file v)] else []) ++ [I_mmap_add a]
  else [].

Lemma link_file_ok s a : is_Some (vmas s !! a) ->
  __vma_link_file a s = Ok (tt, s <| calls := calls s ++ link_calls (ar s a) a |>).
Proof.
  intros Ha. unfold __vma_link_file, link_calls. do 2 runV. destruct (truth (vm_file (ar s a))); simpl.
  - destruct (truth (vm_flags (ar s a) .& VM_DENYWRITE)); simpl; [|done].
    unfold mbind, V_bind, call_out, mm_set, update. cbn. by rewrite <- app_assoc.
  - unfold update. rewrite app_nil_r. by destruct s.
Qed.

Lemma linked_hd nx p l : linked nx p l -> p = hd0 l.
Proof. destruct l; simpl; [done|]. by intros [-> _]. Qed.
Lemma linked_tail nx p l1 l2 : linked nx p (l1 ++ l2) -> linked nx (hd0 l2) l2.
Proof.
  revert p. induction l1 as [|a l1 IH]; intros p; simpl; [|by intros (_ & n & _ & H); eapply IH].
  intros H. by rewrite <- (linked_hd _ _ _ H).
Qed.
Lemma last0_elem l : l <> [] -> last0 l ∈ l.
Proof. destruct l as [|a l] using rev_ind; [done|]. rewrite last0_snoc. set_solver. Qed.

Lemma Areas_nodup s l : Areas s l -> NoDup l.
Proof. intros HM. destruct (mm_tree _ _ HM) as (t & HT & _ & <-). apply HT. Qed.

Lemma link_list_ok s l1 l2 a rb_parent :
  Areas s (l1 ++ l2) -> area_mem s a -> a ∉ l1 ++ l2 -> (l1 = [] -> rb_parent = hd0 l2) ->
  exists nx', __vma_link_list a (last0 l1) rb_parent s
    = Ok (tt, s <| vm_next := nx' |> <| mmap := match l1 with [] => a | _ => mmap s end |>) /\
    linked nx' (match l1 with [] => a | _ => mmap s end) (l1 ++ a :: l2) /\
    (forall b, is_Some (vm_next s !! b) -> is_Some (nx' !! b)) /\
    (forall b, b ∉ l1 ++ l2 -> b <> a -> nx' !! b = vm_next s !! b).
Proof.
  intros HM (Ha0 & _ & [n Hn] & _) Hout Hp.
  pose proof (mm_linked _ _ HM) as Hl. pose proof (linked_tail _ _ _ _ Hl) as Hl2.
  assert (H2 : linked (<[a := hd0 l2]> (vm_next s)) (hd0 l2) l2).
  { eapply linked_agree; [|exact Hl2]. intros b Hb. rewrite lookup_insert_ne; [done|]. set_solver. }
  destruct (decide (l1 = [])) as [->|Hne].
  - exists (<[a := hd0 l2]> (vm_next s)). unfold __vma_link_list.
    change (truth (last0 [])) with false. cbn iota. rewrite Hp by done.
    replace (if truth (hd0 l2) then hd0 l2 else 0) with (hd0 l2) by (unfold truth; by case_cmp).
    rewrite (bindV _ (mm_set _) _ _ _ eq_refl). unfold next_set.
    change (vm_next (s <| mmap := a |>)) with (vm_next s). rewrite Hn. split_and!; [done| | |].
    + simpl. split; [done|]. eexists. split; [by rewrite lookup_insert_eq|done].
    + intros b Hb. rewrite lookup_insert. by case_decide.
    + intros b _ Hb. by rewrite lookup_insert_ne.
  - pose proof (linked_app _ _ _ _ Hl) as Hnext. pose proof (last0_elem _ Hne) as Hlast.
    assert (Hn1 : vm_next s !! last0 l1 = Some (hd0 l2)) by (by destruct l1).
    assert (Hla : last0 l1 <> a) by (intros E; apply Hout; rewrite <- E; set_solver).
    exists (<[last0 l1 := a]> (<[a := hd0 l2]> (vm_next s))).
    unfold __vma_link_list. rewrite truth_nz by (eapply Areas_nonzero; [done|set_solver]).
    rewrite (bindV _ _ _ (hd0 l2) s) by (unfold next_get; by rewrite Hn1).
    split_and!.
    + unfold mbind, V_bind, next_set. rewrite Hn.
      change (vm_next (s <| vm_next := <[a := hd0 l2]> (vm_next s) |>)) with (<[a := hd0 l2]> (vm_next s)).
      rewrite lookup_insert_ne, Hn1 by done. destruct l1; [done|]. by destruct s.
    + pose proof (linked_replace (vm_next s) (mmap s) l1 l2 (a :: l2)
        (<[last0 l1 := a]> (<[a := hd0 l2]> (vm_next s)))) as Hrep.
      simpl in Hrep. destruct l1 as [|b l1]; [done|]. apply Hrep; try done.
      * pose proof (Areas_nodup _ _ HM) as Hnd. by apply NoDup_app in Hnd as [? _].
      * intros x Hx Hxl. rewrite !lookup_insert_ne; [done|set_solver|done].
      * intros _. by rewrite lookup_insert_eq.
      * split; [done|]. exists (hd0 l2). rewrite lookup_insert_ne, lookup_insert_eq by done. split; [done|].
        eapply linked_agree; [|exact H2]. intros x Hx. rewrite (lookup_insert_ne _ (last0 _)); [done|].
        intros <-. apply Areas_nodup in HM. apply NoDup_app in HM as (_ & HM & _). by apply (HM _ Hlast).
    + intros b Hb. rewrite !lookup_insert. repeat case_decide; done.
    + intros b Hb Hba. rewrite !lookup_insert_ne; [done|done|]. intros <-. set_solver.
Qed.

(** There are at most 2^20 areas. *)
Lemma areas_room s l lo :
  (forall a, a ∈ l -> area_ok (ar s a) /\ lo <= vm_start (ar s a)) -> StronglySorted (below s) l ->
  lo <= 4294967296 -> PAGE_SIZE * Z.of_nat (length l) <= 4294967296 - lo.
Proof.
  revert lo. induction l as [|a l IH]; intros lo Hok Hs Hlo; [simpl; lia|].
  apply StronglySorted_cons in Hs as [Ha Hs]. rewrite Forall_forall in Ha.
  destruct (Hok a) as [(H1 & H2 & H3 & [x H4] & [y H5]) Hlo']; [left|].
  cbn [length]. unfold PAGE_SIZE in *.
  enough (4096 * Z.of_nat (length l) <= 4294967296 - vm_end (ar s a)) by lia.
  apply IH; [|done|lia]. intros b Hb. split; [apply Hok; by right|]. by apply Ha.
Qed.
Lemma Areas_length s l : Areas s l -> Z.of_nat (length l) <= 1048576.
Proof.
  intros HM. enough (PAGE_SIZE * Z.of_nat (length l) <= 4294967296 - 0) by (unfold PAGE_SIZE in *; lia).
  apply (areas_room s); [|apply HM|lia]. intros a Ha. destruct (mm_areas _ _ HM a Ha) as [_ Hok].
  split; [done|]. apply Hok.
Qed.

Lemma ar_ext s s' : vmas s' = vmas s -> ar s' = ar s.
Proof. unfold ar. by intros ->. Qed.
Lemma Tree_self F s t : Tree F s t -> Tree (nodes s) s t.
Proof. intros []. by constructor. Qed.
Lemma below_ext s s' : vmas s' = vmas s -> below s' = below s.
Proof. intros H. unfold below. by rewrite (ar_ext _ _ H). Qed.

(** The nodes of a tree have cells; outside of it, those of [F] are kept. *)
Lemma Tree_cells F s t a : Tree F s t -> is_Some (F !! a) -> is_Some (nodes s !! a).
Proof.
  intros HT HF. destruct (decide (a ∈ inorder t)) as [Ha|Ha].
  - destruct (focus_exists _ _ Ha) as (k & c & tl & tr & ->).
    destruct (focus_holds _ _ _ _ HT) as (_ & Hc & _). by eexists.
  - by rewrite (tree_frame _ _ _ HT a Ha).
Qed.

(** The area [a] fits between [l1] and [l2]. *)
Definition fits (s : mm_struct) (l1 : list Z) (a : Z) (l2 : list Z) : Prop :=
  area_ok (ar s a) /\ Forall (fun b => below s b a) l1 /\ Forall (below s a) l2.

Lemma sorted_insert s l1 a l2 :
  StronglySorted (below s) (l1 ++ l2) -> Forall (fun b => below s b a) l1 -> Forall (below s a) l2 ->
  StronglySorted (below s) (l1 ++ a :: l2).
Proof.
  rewrite !StronglySorted_app, StronglySorted_cons. rewrite !Forall_forall.
  intros (H1 & H2 & H3) Hl Hr. split_and!; try done. intros x y Hx Hy.
  apply elem_of_cons in Hy as [->|Hy]; auto.
Qed.

Lemma vma_link_correct s k a :
  Areas s (before k ++ after k) -> Tree (nodes (mm_rb s)) (mm_rb s) (plug k Leaf) -> rb_tree (plug k Leaf) ->
  area_mem s a -> a ∉ before k ++ after k -> fits s (before k) a (after k) ->
  exists s', vma_link a (last0 (before k)) (link_of k) (top k) s = Ok (tt, s') /\
    Areas s' (before k ++ a :: after k) /\ vmas s' = vmas s /\ same_rest s s' /\ mem_kept s s' /\
    calls s' = calls s ++ link_calls (ar s a) a /\ map_count s' = s32 (map_count s + 1) /\
    (forall b, b ∉ before k ++ after k -> b <> a -> vm_next s' !! b = vm_next s !! b).
Proof.
  intros HM HT Hrb Hmem Hout (Hok & Hl & Hr). unfold vma_link, __vma_link, __vma_link_rb.
  destruct (link_list_ok s (before k) (after k) a (top k)) as (nx & E1 & Hlinked & Hnx & Hnx'); try done.
  { apply before_nil_top. }
  pose proof Hmem as (Ha0 & Harea & _ & Hnode).
  destruct (insert_at_hole (nodes (mm_rb s)) (mm_rb s) k a) as (r & t & E2 & HT2 & Hrb2 & Hin); try done.
  { by rewrite inorder_plug. }
  set (mp := match before k with [] => a | _ => mmap s end) in *.
  rewrite bindV_assoc, (bindV _ _ _ _ _ E1).
  set (s1 := s <| vm_next := nx |> <| mmap := mp |>).
  assert (E2' : (on_rb (rb_link_node a (top k) (link_of k));; on_rb (rb_insert_color a)) s1
               = Ok (tt, s1 <| mm_rb := r |>)).
  { rewrite on_rb_seq. by apply on_rb_ok. }
  cbv beta. rewrite bindV_assoc, (bindV _ _ _ _ _ E2'). cbv beta.
  erewrite bindV by (apply link_file_ok; exact Harea).
  eexists. split; [done|]. split_and!; try done.
  - constructor; try done.
    + exists t. split_and!; try done. eapply Tree_self. exact HT2.
    + intros b Hb. change (is_Some (vmas s !! b) /\ area_ok (ar s b)).
      rewrite elem_of_app, elem_of_cons in Hb. destruct (decide (b = a)) as [->|Hne]; [done|].
      apply (mm_areas _ _ HM). rewrite elem_of_app. tauto.
    + change (StronglySorted (below s) (before k ++ a :: after k)). apply sorted_insert; try done. apply HM.
  - intros b (Hb0 & Hb1 & Hb2 & Hb3). split_and!; try done; [by apply Hnx|].
    change (is_Some (nodes r !! b)). by eapply Tree_cells.
Qed.

(** The areas of a list and one more overlap nowhere. *)
Definition apart_from (s : mm_struct) (l : list Z) (a : Z) : Prop :=
  forall b, b ∈ l -> below s b a \/ below s a b.

Lemma insert_vm_struct_correct s l a :
  Areas s l -> area_mem s a -> a ∉ l -> area_ok (ar s a) -> apart_from s l a ->
  exists s' l1 l2, __insert_vm_struct a s = Ok (tt, s') /\ l = l1 ++ l2 /\ fits s l1 a l2 /\
    Areas s' (l1 ++ a :: l2) /\ vmas s' = vmas s /\ same_rest s s' /\ mem_kept s s' /\
    calls s' = calls s ++ link_calls (ar s a) a /\ map_count s' = s32 (map_count s + 1) /\
    (forall b, b ∉ l -> b <> a -> vm_next s' !! b = vm_next s !! b).
Proof.
  intros HM Hmem Hout Hok Hdis. pose proof Hmem as (_ & Harea & _). unfold __insert_vm_struct. runV.
  destruct (prepare_correct s l (vm_start (ar s a)) HM)
    as (r & E & [(c & l1 & l2 & -> & (El & _ & Hhigh) & Hc)|(k & -> & HT & Hrb & El & Hlow & Habove)]).
  - exfalso. apply Forall_cons in Hhigh as [Hhigh _]. unfold high in Hhigh.
    destruct (Hdis c) as [H|H]; [rewrite El; set_solver|..]; unfold below, area_ok in *; lia.
  - rewrite (bindV _ _ _ _ _ E). cbv beta iota.
    assert (Hfit : fits s (before k) a (after k)).
    { split; [done|]. rewrite El in Hdis. rewrite !Forall_forall in *. unfold low in Hlow. split.
      - intros b Hb. unfold below. by apply Hlow.
      - intros b Hb. specialize (Habove b Hb). destruct (Hdis b) as [H|H]; [set_solver| |done].
        destruct (mm_areas _ _ HM b) as [_ Hokb]; [rewrite El; set_solver|].
        unfold below, area_ok in *. lia. }
    assert (Hgo : forall vst, after k = [] \/ vst = vm_start (ar s (hd0 (after k))) ->
      (truth (hd0 (after k)) && (vst <? vm_end (ar s a))) = false).
    { intros vst Hv. destruct (after k) as [|b l2'] eqn:Ea; [done|]. destruct Hv as [|Hv]; [done|].
      destruct Hfit as (_ & _ & Hr). apply Forall_cons in Hr as [Hr _]. unfold below in Hr. simpl in *.
      apply andb_false_iff. right. lia. }
    assert (Evst : exists vst, (if truth (hd0 (after k)) then vma_get (hd0 (after k)) vm_start else mret 0) s
      = Ok (vst, s) /\ (after k = [] \/ vst = vm_start (ar s (hd0 (after k))))).
    { destruct (after k) as [|b l2'] eqn:Ea; [exists 0; by split; [|left]|]. cbn [hd0 hd].
      assert (b ∈ l) by (rewrite El; set_solver). rewrite truth_nz by (by eapply Areas_nonzero).
      eexists. split; [by apply vma_get_ok; apply HM|]. by right. }
    destruct Evst as (vst & E2 & Hv). rewrite (bindV _ _ _ _ _ E2). runV. rewrite (Hgo vst Hv).
    rewrite El in HM, Hout.
    destruct (vma_link_correct s k a) as (s' & E3 & HA & Hrest); try done.
    rewrite El. exists s', (before k), (after k). split_and!; [exact E3|done|done|done|apply Hrest..].
Qed.

(** ** Removing *)
Lemma tree_erase F s t x a y :
  Tree F s t -> rb_tree t -> inorder t = x ++ a :: y ->
  exists s' t' cell, rb_erase a s = Ok (tt, s') /\ Tree (<[a := cell]> F) s' t' /\ rb_tree t' /\
    inorder t' = x ++ y.
Proof.
  intros HT Hrb Hin. assert (Ha : a ∈ inorder t) by (rewrite Hin; set_solver).
  destruct (focus_exists _ _ Ha) as (k & c & tl & tr & ->).
  destruct (erase_node _ _ _ _ _ _ _ HT Hrb) as (s' & t' & cell & E & HT' & Hrb' & Hin').
  exists s', t', cell. split_and!; try done.
  assert (E2 : x ++ a :: y = (before k ++ inorder tl) ++ a :: inorder tr ++ after k)
    by (rewrite <- Hin, inorder_plug; simpl; by rewrite <- !app_assoc).
  assert (Hx : x = before k ++ inorder tl).
  { eapply (nodup_split a); [|exact E2]. rewrite <- Hin. apply HT. }
  subst x. apply app_inv_head in E2. injection E2 as ->. rewrite Hin'. by rewrite <- !app_assoc.
Qed.

(** Taking [a] off the tree and the list; [p] is the field that points to it. *)
Lemma areas_remove s s' l1 a l2 r t cell :
  Areas s (l1 ++ a :: l2) ->
  Tree (<[a := cell]> (nodes (mm_rb s))) r t -> rb_tree t -> inorder t = l1 ++ l2 ->
  mm_rb s' = r -> vmas s' = vmas s -> linked (vm_next s') (mmap s') (l1 ++ l2) ->
  Areas s' (l1 ++ l2).
Proof.
  intros HM HT Hrb Hin <- Hv Hl. constructor; [done| | |].
  - exists t. split_and!; try done. by eapply Tree_self.
  - intros b Hb. unfold ar. rewrite Hv. apply (mm_areas _ _ HM). set_solver.
  - rewrite (below_ext _ _ Hv). pose proof (mm_sorted _ _ HM) as Hs.
    rewrite !StronglySorted_app, StronglySorted_cons in *. destruct Hs as (H1 & H2 & _ & H3).
    split_and!; try done. intros x y Hx Hy. apply H1; [done|by right].
Qed.

Lemma linked_next nx p l1 a l2 : linked nx p (l1 ++ a :: l2) -> nx !! a = Some (hd0 l2).
Proof.
  intros H. apply linked_tail in H. destruct H as (_ & n & Hn & Hl). by rewrite <- (linked_hd _ _ _ Hl).
Qed.

Lemma vma_unlink_correct s l1 p a l2 :
  Areas s (l1 ++ p :: a :: l2) ->
  exists s', __vma_unlink a p s = Ok (tt, s') /\ Areas s' (l1 ++ p :: l2) /\ vmas s' = vmas s /\
    mem_kept s s' /\ calls s' = calls s /\ map_count s' = map_count s /\
    mmap_cache s' = (if mmap_cache s =? a then p else mmap_cache s) /\ total_vm s' = total_vm s /\
    locked_vm s' = locked_vm s /\ def_flags s' = def_flags s /\ brk s' = brk s /\
    end_code s' = end_code s /\ start_data s' = start_data s.
Proof.
  intros HM. pose proof (mm_linked _ _ HM) as Hl.
  assert (Hp : vm_next s !! p = Some a) by (by apply linked_next in Hl).
  assert (Ha : vm_next s !! a = Some (hd0 l2)).
  { change (p :: a :: l2) with ([p] ++ a :: l2) in Hl. rewrite app_assoc in Hl. by apply linked_next in Hl. }
  destruct (mm_tree _ _ HM) as (t & HT & Hrb & Hin).
  destruct (tree_erase _ _ _ (l1 ++ [p]) a l2 HT Hrb) as (r & t' & cell & E & HT' & Hrb' & Hin').
  { by rewrite Hin, <- app_assoc. }
  pose proof (Areas_nodup _ _ HM) as Hnd.
  set (nx := <[p := hd0 l2]> (vm_next s)).
  assert (Hl' : linked nx (mmap s) ((l1 ++ [p]) ++ l2)).
  { pose proof (linked_replace (vm_next s) (mmap s) (l1 ++ [p]) (a :: l2) l2 nx) as Hrep.
    rewrite last0_snoc in Hrep.
    assert (Hpat : match l1 ++ [p] with [] => hd0 l2 | _ => mmap s end = mmap s) by (by destruct l1).
    rewrite Hpat in Hrep. apply Hrep; clear Hrep.
    - change (p :: a :: l2) with ([p] ++ a :: l2) in Hnd. rewrite app_assoc in Hnd.
      by apply NoDup_app in Hnd as [? _].
    - by rewrite <- app_assoc.
    - intros x Hx Hxp. unfold nx. by rewrite lookup_insert_ne.
    - intros _. unfold nx. by rewrite lookup_insert_eq.
    - eapply linked_agree with (nx := vm_next s).
      + intros x Hx. unfold nx. rewrite lookup_insert_ne; [done|]. intros ->.
        apply NoDup_app in Hnd as (_ & _ & Hnd). apply NoDup_cons in Hnd as [Hnd _]. set_solver.
      + change (p :: a :: l2) with ([p] ++ [a] ++ l2) in Hl. rewrite !app_assoc in Hl. by eapply linked_tail. }
  unfold __vma_unlink.
  rewrite (bindV _ _ _ (hd0 l2) s) by (unfold next_get; by rewrite Ha).
  rewrite (bindV _ _ _ tt (s <| vm_next := nx |>)) by (unfold next_set; by rewrite Hp).
  erewrite bindV by (apply on_rb_ok; exact E).
  rewrite (bindV _ (mm_get mmap_cache) _ _ _ eq_refl).
  assert (HA : forall c, Areas ((s <| vm_next := nx |> <| mm_rb := r |>) <| mmap_cache := c |>) (l1 ++ p :: l2)).
  { intros c. replace (l1 ++ p :: l2) with ((l1 ++ [p]) ++ l2) by (by rewrite <- app_assoc).
    eapply (areas_remove s _ (l1 ++ [p]) a); try done. by rewrite <- app_assoc. }
  assert (Hmem : forall c, mem_kept s ((s <| vm_next := nx |> <| mm_rb := r |>) <| mmap_cache := c |>)).
  { intros c b (Hb0 & Hb1 & Hb2 & Hb3). split_and!; try done.
    - change (is_Some (nx !! b)). unfold nx. rewrite lookup_insert. by case_decide.
    - change (is_Some (nodes r !! b)). eapply Tree_cells; [exact HT'|]. rewrite lookup_insert. by case_decide. }
  change (mmap_cache (s <| vm_next := nx |> <| mm_rb := r |>)) with (mmap_cache s).
  destruct (mmap_cache s =? a); simpl; eexists; (split; [done|]).
  - split_and!; try done.
  - split_and!; try done; [apply (HA (mmap_cache s))|apply (Hmem (mmap_cache s))].
Qed.

(** ** What is mapped where *)

(** What is at an address: the flags, the file and the page of the file. *)
Definition attr (v : vm_area) (x : Z) : Z * Z * Z :=
  (vm_flags v, vm_file v,
   if truth (vm_file v) then u32 (vm_pgoff v + ((x - vm_start v) .>> PAGE_SHIFT)) else 0).
Definition covers (v : vm_area) (x : Z) : Prop := vm_start v <= x < vm_end v.
Definition mapped_as (s : mm_struct) (l : list Z) (x : Z) (w : Z * Z * Z) : Prop :=
  exists a, a ∈ l /\ covers (ar s a) x /\ w = attr (ar s a) x.

Lemma mapped_app s l1 l2 x w : mapped_as s (l1 ++ l2) x w <-> mapped_as s l1 x w \/ mapped_as s l2 x w.
Proof.
  unfold mapped_as. split.
  - intros (a & [Ha|Ha]%elem_of_app & ?); [left|right]; by exists a.
  - intros [(a & Ha & ?)|(a & Ha & ?)]; exists a; (split; [|done]); apply elem_of_app; auto.
Qed.
Lemma mapped_cons s a l x w :
  mapped_as s (a :: l) x w <-> (covers (ar s a) x /\ w = attr (ar s a) x) \/ mapped_as s l x w.
Proof.
  unfold mapped_as. split.
  - intros (b & [->|Hb]%elem_of_cons & ?); [by left|right]. by exists b.
  - intros [?|(b & Hb & ?)]; [exists a|exists b]; (split; [|done]); apply elem_of_cons; auto.
Qed.
Lemma mapped_nil s x w : mapped_as s [] x w <-> False.
Proof. split; [|done]. intros (a & Ha & _). by apply elem_of_nil in Ha. Qed.
(** Only the areas of the list matter. *)
Lemma mapped_ext s s' l x w : (forall a, a ∈ l -> ar s' a = ar s a) -> mapped_as s' l x w <-> mapped_as s l x w.
Proof. intros H. unfold mapped_as. split; intros (a & Ha & ?); exists a; rewrite H in *; done. Qed.

(** The size of all areas. *)
Fixpoint bytes (s : mm_struct) (l : list Z) : Z :=
  match l with
  | [] => 0
  | a :: l => vm_end (ar s a) - vm_start (ar s a) + bytes s l
  end.
Lemma bytes_app s l1 l2 : bytes s (l1 ++ l2) = bytes s l1 + bytes s l2.
Proof. induction l1 as [|a l1 IH]; simpl; lia. Qed.
Lemma bytes_ext s s' l : (forall a, a ∈ l -> ar s' a = ar s a) -> bytes s' l = bytes s l.
Proof.
  induction l as [|a l IH]; intros H; simpl; [done|]. rewrite H by left. rewrite IH; [done|].
  intros b Hb. apply H. by right.
Qed.
Lemma bytes_perm s l l' : l ≡ₚ l' -> bytes s l = bytes s l'.
Proof. induction 1; simpl; lia. Qed.

(** ** Changing the bounds of an area *)
Definition with_vmas (s : mm_struct) (m : gmap Z vm_area) : mm_struct := s <| vmas := m |>.

Lemma ar_insert s a v b : ar (with_vmas s (<[a := v]> (vmas s))) b = if decide (a = b) then v else ar s b.
Proof. unfold ar. simpl. rewrite lookup_insert. by case_decide. Qed.
Lemma ar_insert_ne s a v b : a <> b -> ar (with_vmas s (<[a := v]> (vmas s))) b = ar s b.
Proof. intros. rewrite ar_insert. by case_decide. Qed.
Lemma vma_set_ok s a f : is_Some (vmas s !! a) ->
  vma_set a f s = Ok (tt, with_vmas s (<[a := f (ar s a)]> (vmas s))).
Proof. intros [v Hv]. unfold vma_set, ar. by rewrite Hv. Qed.

Lemma StronglySorted_impl_in {A} (R R' : A -> A -> Prop) l :
  (forall x y, x ∈ l -> y ∈ l -> R x y -> R' x y) -> StronglySorted R l -> StronglySorted R' l.
Proof.
  intros H. induction 1 as [|a l Hs IH Ha]; constructor.
  - apply IH. intros x y Hx Hy. apply H; by right.
  - rewrite Forall_forall in *. intros b Hb. apply H; [left|by right|by apply Ha].
Qed.

Lemma areas_resize s l1 a l2 v :
  Areas s (l1 ++ a :: l2) -> area_ok v ->
  (forall b, b ∈ l1 -> vm_end (ar s b) <= vm_start v) ->
  (forall b, b ∈ l2 -> vm_end v <= vm_start (ar s b)) ->
  Areas (with_vmas s (<[a := v]> (vmas s))) (l1 ++ a :: l2).
Proof.
  intros HM Hok Hl Hr. pose proof (Areas_nodup _ _ HM) as Hnd.
  assert (Hal : a ∉ l1 ++ l2).
  { apply NoDup_app in Hnd as (_ & Hd & Hn). apply NoDup_cons in Hn as [Hn _]. rewrite elem_of_app.
    intros [Ha|Ha]; [|done]. apply (Hd a Ha). left. }
  constructor; try apply HM.
  - intros b Hb. destruct (mm_areas _ _ HM b Hb) as [H1 H2]. rewrite ar_insert.
    unfold with_vmas, update; simpl. rewrite lookup_insert. by case_decide.
  - apply sorted_insert.
    + eapply StronglySorted_impl_in with (R := below s).
      * intros x y Hx Hy. unfold below. rewrite !ar_insert_ne; [done|set_solver..].
      * pose proof (mm_sorted _ _ HM) as Hs. rewrite !StronglySorted_app, StronglySorted_cons in *.
        destruct Hs as (H1 & H2 & _ & H3). split_and!; try done. intros x y Hx Hy. apply H1; [done|by right].
    + apply Forall_forall. intros b Hb. unfold below. rewrite (ar_insert_ne _ _ _ b) by set_solver.
      rewrite ar_insert, decide_True by done. auto.
    + apply Forall_forall. intros b Hb. unfold below. rewrite (ar_insert_ne _ _ _ b) by set_solver.
      rewrite ar_insert, decide_True by done. auto.
Qed.

Lemma unlink_with_vmas s a p s' m :
  __vma_unlink a p s = Ok (tt, s') -> __vma_unlink a p (with_vmas s m) = Ok (tt, with_vmas s' m).
Proof.
  unfold __vma_unlink, mbind, V_bind, mret, V_ret, next_get, next_set, on_rb, mm_get, mm_set, whenV, with_vmas, update.
  cbn. destruct (vm_next s !! a) as [n|] eqn:Ha; [|done]. destruct (vm_next s !! p) eqn:Hp; [|done]. cbn.
  rewrite Hp. cbn. destruct (rb_erase a (mm_rb s)) as [[[] r]|] eqn:Er; [|done]. cbn.
  destruct (mmap_cache s =? a); cbn; by intros [= <-].
Qed.

(** ** Merging *)

(** The changes of the accounts that merging makes; [n] areas become one less. *)
Record merged (s : mm_struct) (l : list Z) (addr end_ flags : Z) (s' : mm_struct) (l' : list Z) : Prop := {
  merged_areas : Areas s' l';
  merged_mapped : forall x w, mapped_as s' l' x w <->
    (addr <= x < end_ /\ w = (flags, 0, 0)) \/ mapped_as s l x w;
  merged_sub : forall a, a ∈ l' -> a ∈ l;
  merged_mem : mem_kept s s';
  merged_count : map_count s' - Z.of_nat (length l') = map_count s - Z.of_nat (length l);
  merged_cache : mmap_cache s' = mmap_cache s \/ mmap_cache s' ∈ l';
  merged_cache_in : mmap_cache s ∈ l -> mmap_cache s' ∈ l';
  merged_bytes : bytes s' l' = bytes s l + (end_ - addr);
  merged_rest : total_vm s' = total_vm s /\ locked_vm s' = locked_vm s /\ def_flags s' = def_flags s /\
    brk s' = brk s /\ end_code s' = end_code s /\ start_data s' = start_data s
}.

Definition mergeable (v : vm_area) (flags : Z) : bool := negb (truth (vm_file v)) && (vm_flags v =? flags).
Lemma can_vma_merge_ok s a flags : is_Some (vmas s !! a) ->
  can_vma_merge a flags s = Ok (mergeable (ar s a) flags, s).
Proof. intros Ha. unfold can_vma_merge. by do 2 runV. Qed.

Lemma mergeable_attr v flags x : mergeable v flags = true -> attr v x = (flags, 0, 0).
Proof.
  unfold mergeable, attr, truth. intros [Hf <-%Z.eqb_eq]%andb_true_iff. bool_hyps. by rewrite Hf.
Qed.

Lemma nodup_out s l1 a l2 : Areas s (l1 ++ a :: l2) -> (a ∉ l1) /\ (a ∉ l2).
Proof.
  intros HM. pose proof (Areas_nodup _ _ HM) as Hnd. apply NoDup_app in Hnd as (_ & Hd & Hn).
  apply NoDup_cons in Hn as [Hn _]. split; [|done]. intros Ha. apply (Hd a Ha). left.
Qed.

Lemma mapped_resize s l1 a l2 v x w : Areas s (l1 ++ a :: l2) ->
  mapped_as (with_vmas s (<[a := v]> (vmas s))) (l1 ++ a :: l2) x w <->
  (covers v x /\ w = attr v x) \/ mapped_as s (l1 ++ l2) x w.
Proof.
  intros HM. destruct (nodup_out _ _ _ _ HM) as [H1 H2].
  rewrite !mapped_app, mapped_cons, ar_insert, decide_True by done.
  rewrite !(mapped_ext s (with_vmas _ _)); [tauto|..]; intros b Hb; apply ar_insert_ne; by intros ->.
Qed.
Lemma mapped_middle s l1 a l2 x w :
  mapped_as s (l1 ++ a :: l2) x w <->
  (covers (ar s a) x /\ w = attr (ar s a) x) \/ mapped_as s (l1 ++ l2) x w.
Proof. rewrite !mapped_app, mapped_cons. tauto. Qed.

Lemma bytes_resize s l1 a l2 v : Areas s (l1 ++ a :: l2) ->
  bytes (with_vmas s (<[a := v]> (vmas s))) (l1 ++ a :: l2) = vm_end v - vm_start v + bytes s (l1 ++ l2).
Proof.
  intros HM. destruct (nodup_out _ _ _ _ HM) as [H1 H2].
  rewrite !bytes_app. cbn [bytes]. rewrite ar_insert, decide_True by done.
  rewrite !(bytes_ext s (with_vmas _ _)); [lia|..]; intros b Hb; apply ar_insert_ne; by intros ->.
Qed.

Lemma mem_with_vmas s a v : mem_kept s (with_vmas s (<[a := v]> (vmas s))).
Proof.
  intros b (H0 & H1 & H2). split; [done|]. split; [|done].
  change (is_Some (<[a := v]> (vmas s) !! b)). rewrite lookup_insert. by case_decide.
Qed.

Section Merge.
Context (s : mm_struct) (l1 l2 : list Z) (addr end_ flags : Z).
Hypothesis HM : Areas s (l1 ++ l2).
Hypothesis Hrange : 0 <= addr /\ addr < end_ /\ end_ < 4294967296 /\ (PAGE_SIZE | addr) /\ (PAGE_SIZE | end_).
Hypothesis Hlow : forall b, b ∈ l1 -> vm_end (ar s b) <= addr.
Hypothesis Hhigh : forall b, b ∈ l2 -> end_ <= vm_start (ar s b).

Lemma merge_next_correct a l2' : l2 = a :: l2' ->
  exists b s', merge_next a addr end_ flags s = Ok (b, s') /\
    if b : bool then merged s (l1 ++ l2) addr end_ flags s' (l1 ++ l2) else s' = s.
Proof using All.
  intros El. assert (Ha : a ∈ l1 ++ l2) by set_solver. destruct (mm_areas _ _ HM a Ha) as [Harea Hok].
  unfold merge_next. rewrite (bindV _ _ _ _ _ (can_vma_merge_ok _ _ _ Harea)).
  destruct (mergeable (ar s a) flags) eqn:Hm; cbn [negb]; [|by exists false, s]. runV.
  destruct (Z.eqb_spec end_ (vm_start (ar s a))) as [He|]; [|by exists false, s].
  set (v := (ar s a) <| vm_start := addr |>).
  rewrite (bindV _ _ _ _ _ (vma_set_ok _ _ _ Harea)). exists true. eexists. split; [done|].
  fold v. rewrite El in *. split.
  - apply areas_resize; [done| | |].
    + unfold area_ok in *. unfold v, update; cbn. split_and!; try lia; apply Hrange || apply Hok.
    + intros b Hb. by apply Hlow.
    + intros b Hb. destruct (sorted_split _ _ HM _ _ _ eq_refl) as [_ Hs].
      rewrite Forall_forall in Hs. by apply (Hs b Hb).
  - intros x w. rewrite mapped_resize, mapped_middle by done.
    assert (Hv : mergeable v flags = true) by done.
    rewrite (mergeable_attr v flags x Hv), (mergeable_attr (ar s a) flags x Hm).
    unfold area_ok in Hok. unfold covers, v, update; cbn.
    assert (addr <= x < vm_end (ar s a) <-> addr <= x < end_ \/ vm_start (ar s a) <= x < vm_end (ar s a)) by lia.
    tauto.
  - done.
  - apply mem_with_vmas.
  - done.
  - by left.
  - done.
  - rewrite bytes_resize, !bytes_app by done. cbn [bytes]. unfold v, update; cbn. lia.
  - done.
Qed.

(** The previous area grows up to the end. *)
Lemma merge_prev_correct l1' p : l1 = l1' ++ [p] -> vm_end (ar s p) = addr -> mergeable (ar s p) flags = true ->
  merged s (l1 ++ l2) addr end_ flags
    (with_vmas s (<[p := (ar s p) <| vm_end := end_ |>]> (vmas s))) (l1 ++ l2).
Proof using All.
  intros El He Hm. set (v := (ar s p) <| vm_end := end_ |>).
  assert (El2 : l1 ++ l2 = l1' ++ p :: l2) by (by rewrite El, <- app_assoc). rewrite El2 in *.
  destruct (mm_areas _ _ HM p) as [Harea Hok]; [set_solver|]. split.
  - apply areas_resize; [done| | |].
    + unfold area_ok in *. unfold v, update; cbn. split_and!; try lia; apply Hrange || apply Hok.
    + intros b Hb. destruct (sorted_split _ _ HM _ _ _ eq_refl) as [Hs _].
      rewrite Forall_forall in Hs. by apply (Hs b Hb).
    + intros b Hb. by apply Hhigh.
  - intros x w. rewrite mapped_resize, mapped_middle by done.
    rewrite (mergeable_attr v flags x Hm), (mergeable_attr (ar s p) flags x Hm).
    unfold area_ok in Hok. unfold covers, v, update; cbn.
    assert (vm_start (ar s p) <= x < end_ <-> addr <= x < end_ \/ vm_start (ar s p) <= x < vm_end (ar s p)) by lia.
    tauto.
  - done.
  - apply mem_with_vmas.
  - done.
  - by left.
  - done.
  - rewrite bytes_resize, !bytes_app by done. cbn [bytes]. unfold v, update; cbn. lia.
  - done.
Qed.

(** Both neighbours and the new range become one area. *)
Lemma merge_both_correct l1' p n l2' : l1 = l1' ++ [p] -> l2 = n :: l2' ->
  vm_end (ar s p) = addr -> vm_start (ar s n) = end_ ->
  mergeable (ar s p) flags = true -> mergeable (ar s n) flags = true ->
  map_count s = Z.of_nat (length (l1 ++ l2)) ->
  exists s', (__vma_unlink n p;; count_map (-1)) 
      (with_vmas s (<[p := (ar s p) <| vm_end := vm_end (ar s n) |>]> (vmas s))) = Ok (tt, s') /\
    merged s (l1 ++ l2) addr end_ flags s' (l1' ++ p :: l2').
Proof using All.
  intros El1 El2 Hep Hsn Hmp Hmn Hcount.
  assert (El : l1 ++ l2 = l1' ++ p :: n :: l2') by (by rewrite El1, El2, <- app_assoc). rewrite El in *.
  destruct (vma_unlink_correct _ _ _ _ _ HM) as (s1 & E & HA & Hv & Hmem & Hcalls & Hcnt & Hcache & Hrest).
  set (v := (ar s p) <| vm_end := vm_end (ar s n) |>).
  rewrite (bindV _ _ _ _ _ (unlink_with_vmas _ _ _ _ (<[p := v]> (vmas s)) E)).
  eexists. split; [done|]. rewrite <- Hv. set (s2 := with_vmas s1 (<[p := v]> (vmas s1))).
  destruct (mm_areas _ _ HM p) as [_ Hokp]; [set_solver|].
  destruct (mm_areas _ _ HM n) as [_ Hokn]; [set_solver|].
  assert (HA2 : Areas s2 (l1' ++ p :: l2')).
  { apply areas_resize; [done| | |].
    - unfold area_ok in *. unfold v, update; cbn. split_and!; try lia; apply Hokp || apply Hokn.
    - intros b Hb. rewrite (ar_ext _ _ Hv). destruct (sorted_split _ _ HM _ _ _ eq_refl) as [Hs _].
      rewrite Forall_forall in Hs. by apply (Hs b Hb).
    - intros b Hb. rewrite (ar_ext _ _ Hv).
      change (l1' ++ p :: n :: l2') with (l1' ++ [p] ++ n :: l2') in HM. rewrite app_assoc in HM.
      destruct (sorted_split _ _ HM _ _ _ eq_refl) as [_ Hs]. rewrite Forall_forall in Hs. by apply (Hs b Hb). }
  split.
  - destruct HA2. by constructor.
  - intros x w. change (mapped_as s2 (l1' ++ p :: l2') x w <-> 
      addr <= x < end_ /\ w = (flags, 0, 0) \/ mapped_as s (l1' ++ p :: n :: l2') x w).
    unfold s2. rewrite mapped_resize by done.
    rewrite (mapped_ext s s1) by (intros; by rewrite (ar_ext _ _ Hv)).
    rewrite mapped_middle. change (l1' ++ n :: l2') with (l1' ++ [] ++ n :: l2').
    rewrite (mapped_middle s l1' n l2').
    rewrite (mergeable_attr v flags x Hmp), (mergeable_attr (ar s p) flags x Hmp), (mergeable_attr (ar s n) flags x Hmn).
    unfold area_ok in *. unfold covers, v, update; cbn.
    assert (vm_start (ar s p) <= x < vm_end (ar s n) <->
      addr <= x < end_ \/ vm_start (ar s p) <= x < vm_end (ar s p) \/ vm_start (ar s n) <= x < vm_end (ar s n)) by lia.
    tauto.
  - set_solver.
  - intros b Hb. apply Hmem in Hb. by apply (mem_with_vmas s1 p v) in Hb.
  - change (s32 (map_count s1 + -1) - Z.of_nat (length (l1' ++ p :: l2')) = 
      map_count s - Z.of_nat (length (l1' ++ p :: n :: l2'))).
    pose proof (Areas_length _ _ HM). rewrite Hcnt, Hcount. rewrite !length_app in *. cbn [length] in *.
    unfold s32. rewrite Z.mod_small; lia.
  - change (mmap_cache s1 = mmap_cache s \/ mmap_cache s1 ∈ l1' ++ p :: l2'). rewrite Hcache.
    case_cmp; [right; set_solver|by left].
  - change (mmap_cache s ∈ l1' ++ p :: n :: l2' -> mmap_cache s1 ∈ l1' ++ p :: l2'). rewrite Hcache.
    case_cmp; [set_solver|]. set_solver.
  - rewrite (bytes_ext s2) by done. unfold s2. rewrite bytes_resize by done. rewrite (bytes_ext s s1) by (intros; by rewrite (ar_ext _ _ Hv)).
    rewrite !bytes_app. cbn [bytes]. unfold v, update; cbn. lia.
  - destruct Hrest as (? & ? & ? & ? & ? & ?). done.
Qed.
End Merge.

Lemma with_vmas_twice s a v f :
  with_vmas (with_vmas s (<[a := v]> (vmas s)))
    (<[a := f (ar (with_vmas s (<[a := v]> (vmas s))) a)]> (vmas (with_vmas s (<[a := v]> (vmas s)))))
  = with_vmas s (<[a := f v]> (vmas s)).
Proof.
  rewrite ar_insert, decide_True by done. unfold with_vmas, update; cbn. by rewrite insert_insert_eq.
Qed.

(** [vma_merge] answers whether the range has become part of an area of the same kind; in that case
    the address space has it, and all else is as before. *)
Lemma vma_merge_correct s l1 l2 rb_parent addr end_ flags :
  Areas s (l1 ++ l2) -> map_count s = Z.of_nat (length (l1 ++ l2)) ->
  0 <= addr /\ addr < end_ /\ end_ < 4294967296 /\ (PAGE_SIZE | addr) /\ (PAGE_SIZE | end_) ->
  (forall b, b ∈ l1 -> vm_end (ar s b) <= addr) -> (forall b, b ∈ l2 -> end_ <= vm_start (ar s b)) ->
  l1 ++ l2 <> [] -> (l1 = [] -> rb_parent = hd0 l2) ->
  exists b s', vma_merge (last0 l1) rb_parent addr end_ flags s = Ok (b, s') /\
    if b : bool then exists l', merged s (l1 ++ l2) addr end_ flags s' l' else s' = s.
Proof.
  intros HM Hcount Hrange Hlow Hhigh Hne Hp. unfold vma_merge.
  assert (Hnext : forall l1' s0, s0 = s \/ (exists m, s0 = with_vmas s m) -> l1 = l1' ++ [last0 l1] ->
    next_get (last0 l1) s0 = Ok (hd0 l2, s0)).
  { intros l1' s0 Hs0 El. unfold next_get. replace (vm_next s0) with (vm_next s) by (by destruct Hs0 as [->|[m ->]]).
    pose proof (mm_linked _ _ HM) as Hl. rewrite El, <- app_assoc in Hl. by rewrite (linked_next _ _ _ _ _ Hl). }
  destruct l1 as [|p l1' _] using rev_ind.
  - change (truth (last0 [])) with false. cbn [negb]. rewrite Hp by done.
    destruct l2 as [|a l2']; [done|].
    destruct (merge_next_correct s [] (a :: l2') addr end_ flags HM Hrange Hlow Hhigh a l2' eq_refl) as (b & s' & E & Hb).
    exists b, s'. split; [done|]. destruct b; [by eexists|done].
  - rewrite last0_snoc in *. specialize (Hnext l1').
    assert (Hpl : p ∈ (l1' ++ [p]) ++ l2) by set_solver.
    destruct (mm_areas _ _ HM p Hpl) as [Harea Hok].
    rewrite truth_nz by (by eapply Areas_nonzero). cbn [negb]. runV.
    assert (Hcase : (if vm_end (ar s p) =? addr then can_vma_merge p flags else mret false) s
      = Ok ((vm_end (ar s p) =? addr) && mergeable (ar s p) flags, s)).
    { case_cmp; [|done]. by rewrite can_vma_merge_ok. }
    rewrite (bindV _ _ _ _ _ Hcase). destruct (_ && _) eqn:Hm; cbv beta iota.
    + bool_hyps.
      pose proof (merge_prev_correct s (l1' ++ [p]) l2 addr end_ flags HM Hrange Hlow Hhigh l1' p eq_refl H H0) as Hprev.
      rewrite (bindV _ _ _ _ _ (vma_set_ok _ _ _ Harea)).
      set (s1 := with_vmas s _) in *.
      rewrite (bindV _ _ _ _ _ (Hnext s1 (or_intror (ex_intro _ _ eq_refl)) eq_refl)).
      destruct l2 as [|n l2'].
      { change (truth (hd0 [])) with false. cbv iota. rewrite (bindV _ (mret 0) _ _ _ eq_refl). cbn [andb].
        rewrite (bindV _ (mret false) _ _ _ eq_refl). exists true, s1. split; [done|]. by eexists. }
      cbn [hd0 hd]. assert (Hnl : n ∈ (l1' ++ [p]) ++ n :: l2') by set_solver.
      destruct (mm_areas _ _ HM n Hnl) as [Hn Hokn]. rewrite (truth_nz n) by (by eapply Areas_nonzero).
      assert (Hnp : p <> n).
      { intros <-. destruct (nodup_out _ _ _ _ HM) as [Hx _]. apply Hx. set_solver. }
      assert (Har : ar s1 n = ar s n) by (by apply ar_insert_ne).
      assert (Hn1 : is_Some (vmas s1 !! n)) by (unfold s1, with_vmas, update; cbn; by rewrite lookup_insert_ne).
      assert (Hp1 : is_Some (vmas s1 !! p)) by (unfold s1, with_vmas, update; cbn; by rewrite lookup_insert_eq).
      runV. rewrite Har. cbn [andb].
      assert (Hboth : (if end_ =? vm_start (ar s n) then can_vma_merge n flags else mret false) s1
        = Ok ((end_ =? vm_start (ar s n)) && mergeable (ar s n) flags, s1)).
      { case_cmp; [|done]. by rewrite can_vma_merge_ok, Har. }
      rewrite (bindV _ _ _ _ _ Hboth). destruct (_ && _) eqn:Hm2; cbv beta iota; [|exists true, s1; split; [done|]; by eexists].
      bool_hyps. runV. rewrite Har, (bindV _ _ _ _ _ (vma_set_ok _ _ _ Hp1)).
      unfold s1. rewrite (with_vmas_twice s p _ (fun v => v <| vm_end := vm_end (ar s n) |>)).
      destruct (merge_both_correct s (l1' ++ [p]) (n :: l2') addr end_ flags HM Hrange Hlow Hhigh l1' p n l2') as (s2 & E2 & Hmg); try done.
      exists true. eexists. split.
      * rewrite <- bindV_assoc. rewrite (bindV _ _ _ _ _ E2). done.
      * eexists. destruct Hmg. constructor; try done; [by destruct merged_areas0|by rewrite (bytes_ext s2)].
    + rewrite (bindV _ _ _ _ _ (Hnext s (or_introl eq_refl) eq_refl)).
      destruct l2 as [|a l2']; [by exists false, s|]. cbn [hd0 hd].
      assert (Ha : a ∈ (l1' ++ [p]) ++ a :: l2') by set_solver. rewrite (truth_nz a) by (by eapply Areas_nonzero).
      destruct (merge_next_correct s (l1' ++ [p]) (a :: l2') addr end_ flags HM Hrange Hlow Hhigh a l2' eq_refl) as (b & s' & E & Hb).
      exists b, s'. split; [done|]. destruct b; [by eexists|done].
Qed.

(** ** Steps that leave the areas alone *)

(** Only the calls and the locked pages may differ. *)
Definition quiet (s s' : mm_struct) : Prop :=
  s' = s <| calls := calls s' |> <| locked_vm := locked_vm s' |>.
Definition quietly (m : V unit) : Prop := forall s, exists s', m s = Ok (tt, s') /\ quiet s s'.

#[export] Instance quiet_preorder : PreOrder quiet.
Proof.
  split.
  - by intros [].
  - unfold quiet, update. intros [] [] [] H1 H2. cbn in *. injection H1 as -> -> -> -> -> -> -> -> -> -> ->.
    injection H2 as -> -> -> -> -> -> -> -> -> -> ->. done.
Qed.
Lemma quietly_call c : quietly (call_out c).
Proof. intros s. eexists. split; [done|]. by destruct s. Qed.
Lemma quietly_when b m : quietly m -> quietly (whenV b m).
Proof. intros H s. destruct b; [apply H|]. by exists s. Qed.
Lemma quietly_seq m m' : quietly m -> quietly m' -> quietly (m;; m').
Proof.
  intros H H' s. destruct (H s) as (s1 & E1 & Q1). destruct (H' s1) as (s2 & E2 & Q2).
  exists s2. rewrite (bindV _ _ _ _ _ E1). split; [done|]. by transitivity s1.
Qed.
Create HintDb quiet.
#[export] Hint Resolve quietly_call quietly_when quietly_seq : quiet.

(** Runs a quiet step. *)
Ltac runQ s' Q :=
  match goal with
  | |- context [(?m ≫= ?f) ?s] =>
    let E := fresh in
    assert (E : quietly m) by eauto with quiet;
    destruct (E s) as (s' & E' & Q); clear E; rewrite (bindV f m s tt s' E'); clear E'
  end.

Lemma areas_ext s s' l : mmap s' = mmap s -> mm_rb s' = mm_rb s -> vmas s' = vmas s -> vm_next s' = vm_next s ->
  Areas s l -> Areas s' l.
Proof.
  intros E1 E2 E3 E4 [H1 H2 H3 H4].
  constructor; rewrite ?E1, ?E2, ?E4; try done; [|by rewrite (below_ext _ _ E3)].
  unfold ar. by rewrite E3.
Qed.
Lemma quiet_fields s s' : quiet s s' ->
  mmap s' = mmap s /\ mm_rb s' = mm_rb s /\ vmas s' = vmas s /\ vm_next s' = vm_next s /\
  map_count s' = map_count s /\ mmap_cache s' = mmap_cache s /\ total_vm s' = total_vm s /\
  brk s' = brk s /\ end_code s' = end_code s /\ start_data s' = start_data s /\ def_flags s' = def_flags s.
Proof. unfold quiet. by intros ->. Qed.
Lemma quiet_areas s s' l : quiet s s' -> Areas s l -> Areas s' l.
Proof. intros (? & ? & ? & ? & _)%quiet_fields. by apply areas_ext. Qed.
Lemma quiet_ar s s' : quiet s s' -> ar s' = ar s.
Proof. intros (_ & _ & ? & _)%quiet_fields. by apply ar_ext. Qed.
Lemma quiet_mem s s' : quiet s s' -> mem_kept s s'.
Proof. intros (_ & E2 & E3 & E4 & _)%quiet_fields a. unfold area_mem. by rewrite E2, E3, E4. Qed.

(** An area that is not in the address space may change. *)
Lemma areas_other s l a v : Areas s l -> a ∉ l -> Areas (with_vmas s (<[a := v]> (vmas s))) l.
Proof.
  intros HM Ha. constructor; try apply HM.
  - intros b Hb. rewrite ar_insert_ne by (by intros ->). destruct (mm_areas _ _ HM b Hb).
    split; [|done]. change (is_Some (<[a := v]> (vmas s) !! b)). rewrite lookup_insert_ne; [done|]. by intros ->.
  - eapply StronglySorted_impl_in; [|apply HM]. intros x y Hx Hy. unfold below.
    rewrite !ar_insert_ne; [done|by intros ->..].
Qed.

Lemma mapped_perm s l l' x w : l ≡ₚ l' -> mapped_as s l x w <-> mapped_as s l' x w.
Proof. intros H. unfold mapped_as. split; intros (a & Ha & ?); exists a; [rewrite <- H|rewrite H]; done. Qed.

(** An area outside of the address space is put into it. *)
Record inserted (s : mm_struct) (l : list Z) (a : Z) (s' : mm_struct) (l' : list Z) : Prop := {
  ins_areas : Areas s' l';
  ins_perm : l' ≡ₚ a :: l;
  ins_vmas : vmas s' = vmas s;
  ins_rest : same_rest s s';
  ins_mem : mem_kept s s';
  ins_count : map_count s' = s32 (map_count s + 1);
  ins_mapped : forall x w, mapped_as s' l' x w <-> (covers (ar s a) x /\ w = attr (ar s a) x) \/ mapped_as s l x w;
  ins_bytes : bytes s' l' = vm_end (ar s a) - vm_start (ar s a) + bytes s l;
  ins_next : forall b, b ∉ l -> b <> a -> vm_next s' !! b = vm_next s !! b
}.

Lemma insert_fresh_at s l a :
  Areas s l -> area_mem s a -> a ∉ l -> area_ok (ar s a) -> apart_from s l a ->
  exists s' l1 l2, __insert_vm_struct a s = Ok (tt, s') /\ l = l1 ++ l2 /\ fits s l1 a l2 /\
    inserted s l a s' (l1 ++ a :: l2).
Proof.
  intros HM Hmem Ha Hok Hdis.
  destruct (insert_vm_struct_correct s l a)
    as (s' & l1 & l2 & E & El & Hfit & HA & Hv & Hrest & Hm & _ & Hcnt & Hnx); try done.
  assert (Hp : l1 ++ a :: l2 ≡ₚ a :: l) by (by rewrite El, Permutation_middle).
  exists s', l1, l2. split_and!; [done|done|done|]. constructor; try done.
  - intros x w. rewrite (mapped_perm _ _ _ _ _ Hp), mapped_cons, (ar_ext _ _ Hv).
    by rewrite (mapped_ext s s') by (intros; by rewrite (ar_ext _ _ Hv)).
  - rewrite (bytes_perm _ _ _ Hp). cbn [bytes]. rewrite (ar_ext _ _ Hv).
    by rewrite (bytes_ext s s') by (intros; by rewrite (ar_ext _ _ Hv)).
Qed.
Lemma insert_fresh s l a :
  Areas s l -> area_mem s a -> a ∉ l -> area_ok (ar s a) -> apart_from s l a ->
  exists s' l', __insert_vm_struct a s = Ok (tt, s') /\ inserted s l a s' l'.
Proof.
  intros HM Hmem Ha Hok Hdis. destruct (insert_fresh_at s l a) as (s' & l1 & l2 & E & _ & _ & HI); try done.
  by exists s', (l1 ++ a :: l2).
Qed.

(** Where the area goes. *)
Lemma insert_between s l1 l2 a :
  Areas s (l1 ++ l2) -> area_mem s a -> a ∉ l1 ++ l2 -> fits s l1 a l2 ->
  exists s', __insert_vm_struct a s = Ok (tt, s') /\ inserted s (l1 ++ l2) a s' (l1 ++ a :: l2).
Proof.
  intros HM Hmem Ha (Hok & Hl & Hr). rewrite Forall_forall in Hl, Hr.
  destruct (insert_fresh_at s (l1 ++ l2) a) as (s' & l1' & l2' & E & El & (_ & Hl' & Hr') & HI); try done.
  { intros b [Hb|Hb]%elem_of_app; [left|right]; auto. }
  rewrite Forall_forall in Hl', Hr'.
  assert (Hsplit : forall x y, l1 ++ l2 = x ++ y -> (forall b, b ∈ x -> below s b a) -> (forall b, b ∈ y -> below s a b) ->
    split_at s (l1 ++ l2) (vm_start (ar s a)) x y).
  { intros x y Exy Hx Hy. split; [done|]. rewrite !Forall_forall. split; intros b Hb; [by apply Hx|].
    specialize (Hy b Hb). destruct (mm_areas _ _ HM b) as [_ Hokb]; [rewrite Exy; set_solver|].
    unfold below, high, area_ok in *. lia. }
  destruct (split_unique s (l1 ++ l2) (vm_start (ar s a)) l1 l2 l1' l2') as [-> ->]; [by apply Hsplit..|].
  by exists s'.
Qed.

(** Memory of areas, and the bounds of an area outside of the list, changed before. *)
Lemma apart_other s l a v : a ∉ l ->
  (forall b, b ∈ l -> vm_end (ar s b) <= vm_start v \/ vm_end v <= vm_start (ar s b)) ->
  apart_from (with_vmas s (<[a := v]> (vmas s))) l a.
Proof.
  intros Ha H b Hb. unfold below. rewrite (ar_insert_ne s a v b) by (by intros ->).
  rewrite ar_insert, decide_True by done. by apply H.
Qed.

(** ** Steps on some areas *)

(** The state but for the areas [X], the calls and the locked pages. *)
Definition only_areas (X : list Z) (s s' : mm_struct) : Prop :=
  s' = s <| calls := calls s' |> <| locked_vm := locked_vm s' |> <| vmas := vmas s' |> /\
  (forall b, b ∉ X -> vmas s' !! b = vmas s !! b) /\ (forall b, is_Some (vmas s !! b) -> is_Some (vmas s' !! b)).
#[export] Instance only_areas_preorder X : PreOrder (only_areas X).
Proof.
  split.
  - intros []. split; [done|]. split; [done|tauto].
  - intros s1 s2 s3 (E1 & H1 & A1) (E2 & H2 & A2). split_and!; [|intros b Hb; by rewrite H2, H1|auto].
    unfold update in *. destruct s1, s2, s3. cbn in *. clear A1 A2 H1 H2.
    injection E1 as -> -> -> -> -> -> -> -> -> ->. by injection E2 as -> -> -> -> -> -> -> -> -> ->.
Qed.
Lemma only_quiet X s s' : quiet s s' -> only_areas X s s'.
Proof.
  intros Q. pose proof (quiet_fields _ _ Q) as (_ & _ & Ev & _). unfold only_areas. rewrite Ev.
  split_and!; [|done|done]. unfold quiet in Q. rewrite Q at 1. by destruct s.
Qed.
Lemma only_set X a f s v : a ∈ X -> vmas s !! a = Some v ->
  exists s', vma_set a f s = Ok (tt, s') /\ only_areas X s s' /\ vmas s' !! a = Some (f v) /\
    forall b, b <> a -> vmas s' !! b = vmas s !! b.
Proof.
  intros HX E. unfold vma_set. rewrite E. eexists. split; [done|].
  unfold only_areas. split_and!; [by destruct s|..]; unfold update; cbn.
  - intros b Hb. rewrite lookup_insert_ne; [done|]. by intros ->.
  - intros b Hb. rewrite lookup_insert. by case_decide.
  - by apply lookup_insert_eq.
  - intros b Hb. by rewrite lookup_insert_ne.
Qed.
Lemma get_area {A} s a v (f : vm_area -> A) : vmas s !! a = Some v -> vma_get a f s = Ok (f v, s).
Proof. intros E. unfold vma_get. by rewrite E. Qed.

(** Runs a step that changes the areas [X] at most; the values of the areas are kept in the context. *)
Ltac stepX s' HO :=
  lazymatch type of HO with
  | only_areas ?X ?s0 ?s =>
    first
    [ lazymatch goal with
      | E : vmas s !! ?a = Some ?v |- context [(vma_set ?a ?f ≫= ?k) s] =>
        let Er := fresh in let HO' := fresh in let Ea := fresh in let Eo := fresh in
        destruct (only_set X a f s v ltac:(rewrite ?elem_of_cons; tauto) E) as (s' & Er & HO' & Ea & Eo);
        rewrite (bindV k (vma_set a f) s tt s' Er); clear Er;
        clear E;
        repeat match goal with H : vmas s !! ?c = Some _ |- _ => rewrite <- (Eo c) in H by congruence end;
        clear Eo; rename Ea into E; pose proof (transitivity HO HO') as HO''; clear HO HO'; rename HO'' into HO
      end
    | let Q := fresh in runQ s' Q;
      let Ev := fresh in pose proof (quiet_fields _ _ Q) as (_ & _ & Ev & _);
      repeat match goal with H : vmas s !! _ = Some _ |- _ => rewrite <- Ev in H end;
      clear Ev;
      let HO' := fresh in pose proof (transitivity HO (only_quiet X _ _ Q)) as HO'; clear HO Q; rename HO' into HO ]
  end.

Lemma areas_agree s s' l : mmap s' = mmap s -> mm_rb s' = mm_rb s -> vm_next s' = vm_next s ->
  (forall b, b ∈ l -> vmas s' !! b = vmas s !! b) -> Areas s l -> Areas s' l.
Proof.
  intros E1 E2 E3 E4 [H1 H2 H3 H4]. assert (Ear : forall b, b ∈ l -> ar s' b = ar s b) by (intros b Hb; unfold ar; by rewrite E4).
  constructor; rewrite ?E1, ?E2, ?E3; try done.
  - intros a Ha. rewrite E4, Ear by done. auto.
  - eapply StronglySorted_impl_in; [|exact H4]. intros x y Hx Hy. unfold below. by rewrite !Ear.
Qed.

(** What holds of the areas [l] does not depend on others. *)
Lemma only_fields X s s' : only_areas X s s' ->
  mmap s' = mmap s /\ mm_rb s' = mm_rb s /\ vm_next s' = vm_next s /\ map_count s' = map_count s /\
  mmap_cache s' = mmap_cache s /\ total_vm s' = total_vm s /\
  (brk s' = brk s /\ end_code s' = end_code s /\ start_data s' = start_data s /\ def_flags s' = def_flags s) /\
  mem_kept s s'.
Proof.
  intros (E & _ & Hex). rewrite E. split_and!; try done. intros b (H0 & H1 & H2). split; [done|]. split; [by apply Hex|done].
Qed.
Lemma only_mm X s s' l : only_areas X s s' -> (forall b, b ∈ l -> b ∉ X) ->
  (forall b, b ∈ l -> ar s' b = ar s b) /\ mem_kept s s' /\ mm_rb s' = mm_rb s /\ total_vm s' = total_vm s /\
  (brk s' = brk s /\ end_code s' = end_code s /\ start_data s' = start_data s /\ def_flags s' = def_flags s) /\
  (Mm s l -> Mm s' l).
Proof.
  intros Ho Hl. pose proof (only_fields _ _ _ Ho) as (F1 & F2 & F3 & F4 & F5 & F6 & F7 & F8).
  destruct Ho as (_ & Hne & _). split_and!; try done; try apply F7.
  - intros b Hb. unfold ar. rewrite Hne; [done|auto].
  - intros HM. constructor; [|by rewrite F4; apply HM|rewrite F5; apply HM].
    apply (areas_agree s); auto; apply HM.
Qed.
Lemma only_one (a : Z) (l : list Z) : a ∉ l -> forall b, b ∈ l -> b ∉ [a].
Proof. intros H b Hb ->%list_elem_of_singleton. done. Qed.

(** ** An address space *)

(** Code of the file 7, its data, the heap and a private mapping; two areas are free. *)
Definition sample_flags : Z :=
  VM_READ .| VM_WRITE .| VM_EXEC .| VM_MAYREAD .| VM_MAYWRITE .| VM_MAYEXEC.
Definition sample_mm : mm_struct :=
  mk_mm 1
    (mk_rb_state (list_to_map [
      (2, mk_rb_node 0 RB_BLACK 3 1);
      (1, mk_rb_node 2 RB_BLACK 0 0);
      (3, mk_rb_node 2 RB_BLACK 4 0);
      (4, mk_rb_node 3 RB_RED 0 0);
      (8, mk_rb_node 0 0 0 0);
      (9, mk_rb_node 0 0 0 0)]) 2)
    3 4 0xa000 0xa000 0xdf00 8 0 0
    (list_to_map [
      (1, mk_vm_area 0x8000 0xa000 0x1f 0x75 0 0 7 0 0);
      (2, mk_vm_area 0xa000 0xc000 0x1f 0x77 0 2 7 0 0);
      (3, mk_vm_area 0xc000 0xe000 0x1f sample_flags 0 0 0 0 0);
      (4, mk_vm_area 0x40000000 0x40002000 0x1f sample_flags 0 0 0 0 0);
      (8, no_area); (9, no_area)])
    (list_to_map [(1, 2); (2, 3); (3, 4); (4, 0); (8, 0); (9, 0)]) [].
Definition sample_areas : list Z := [1; 2; 3; 4].

Lemma sample_mm_ok : Mm sample_mm sample_areas.
Proof.
  constructor; [|done|right; decide_now]. constructor.
  - vm_compute. repeat (split; [done|eexists; split; [done|]]). done.
  - exists (Node Black (Node Black Leaf 1 Leaf) 2 (Node Black Leaf 3 (Node Red Leaf 4 Leaf))). split_and!; [|exists 2%nat; repeat econstructor|done].
    constructor; [vm_compute; repeat split; congruence|done|decide_now|done].
  - intros a Ha. unfold sample_areas in Ha.
    repeat (apply elem_of_cons in Ha as [->|Ha]; [split; [by eexists|]; split_and!; try done; by apply Z.mod_divide|]).
    by apply elem_of_nil in Ha.
  - repeat constructor; vm_compute; congruence.
Qed.
Lemma sample_spare a : a = 8 \/ a = 9 -> area_mem sample_mm a /\ a ∉ sample_areas.
Proof. intros [->| ->]; (split; [split_and!; by try eexists|decide_now]). Qed.
