(* ===== verification/Munmap.v ===== *)
(** Unmapping: [do_munmap], [unmap_fixup] and [free_pgtables] of mm/mmap.c.

    [do_munmap] takes the areas that the range touches off the list and the tree, and gives the
    parts of them that stay back to the address space; a hole in the middle of an area needs a
    second area, which the caller of the model passes as the result [extra] of the allocation (0 if
    it fails). [max_map_count] is the sysctl, [has_open] and [has_close] tell whether a
    [vm_operations_struct] has those operations.

    The theorems: the range is unmapped and nothing else changes ([munmap_exact]); the page tables
    that are freed belong to no area ([free_pgtables_safe]). *)
From stdpp Require Import sorting.
From S2P Require Import Prelude Bootmem Rbtree Vma.

Section Munmap.
  Context (max_map_count : Z) (has_open has_close : Z -> bool).

(** ** The code *)
Definition sub_total (pages : Z) : V unit := mm_set (fun s => s <| total_vm := u32 (total_vm s - pages) |>).
Definition sub_locked (pages : Z) : V unit := mm_set (fun s => s <| locked_vm := u32 (locked_vm s - pages) |>).

Definition unmap_fixup (area addr len extra : Z) : V Z :=
  let end_ := u32 (addr + len) in
  sub_total (len .>> PAGE_SHIFT);;
  flags ← vma_get area vm_flags;
  whenV (truth (flags .& VM_LOCKED)) (sub_locked (len .>> PAGE_SHIFT));;
  st ← vma_get area vm_start;
  e ← vma_get area vm_end;
  if (addr =? st) && (end_ =? e) then
    ops ← vma_get area vm_ops;
    whenV (truth ops && has_close ops) (call_out (Vm_close ops area));;
    file ← vma_get area vm_file;
    whenV (truth file) (call_out (Fput file));;
    call_out (Kmem_cache_free area);;
    mret extra
  else
    extra ←
      (if end_ =? e then
         vma_set area (fun v => v <| vm_end := addr |>);;
         mret extra
       else if addr =? st then
         vma_set area (fun v => v <| vm_pgoff := u32 (vm_pgoff v + (u32 (end_ - vm_start v) .>> PAGE_SHIFT)) |>);;
         vma_set area (fun v => v <| vm_start := end_ |>);;
         mret extra
       else
         let mpnt := extra in
         a ← vma_get area id;
         vma_set mpnt (fun m => m <| vm_start := end_ |>
           <| vm_end := vm_end a |> <| vm_page_prot := vm_page_prot a |> <| vm_flags := vm_flags a |>
           <| vm_raend := 0 |> <| vm_ops := vm_ops a |>
           <| vm_pgoff := u32 (vm_pgoff a + (u32 (end_ - vm_start a) .>> PAGE_SHIFT)) |>
           <| vm_file := vm_file a |> <| vm_private_data := vm_private_data a |>);;
         whenV (truth (vm_file a)) (call_out (Get_file (vm_file a)));;
         whenV (truth (vm_ops a) && has_open (vm_ops a)) (call_out (Vm_open (vm_ops a) mpnt));;
         vma_set area (fun v => v <| vm_end := addr |>);;
         __insert_vm_struct mpnt;;
         mret 0);
    __insert_vm_struct area;;
    mret extra.

(** The loop of [free_pgtables]: [first] and [last] at its end. *)
Fixpoint pgtables_loop (fuel : nat) (prev start first last : Z) : V (Z * Z) :=
  match fuel with
  | O => BUG
  | S fuel =>
    next ← next_get prev;
    nst ← (if truth next then vma_get next vm_start else mret 0);
    if truth next && (nst <? start) then pgtables_loop fuel next start first last
    else
      let last := if truth next && (nst <? last) then nst else last in
      pe ← vma_get prev vm_end;
      mret (if first <? pe then u32 (pe + PGDIR_SIZE - 1) else first, last)
  end.

Definition free_pgtables (prev start end_ : Z) : V unit :=
  let first := start .& Z.lnot (PGDIR_SIZE - 1) in
  let last := u32 (end_ + PGDIR_SIZE - 1) in
  '(first, last) ←
    (if truth prev then walk (fun fuel => pgtables_loop fuel prev start first last)
     else
       p ← mm_get mmap;
       if negb (truth p) then mret (first, last)
       else
         pe ← vma_get p vm_end;
         if start <? pe then
           ps ← vma_get p vm_start;
           mret (first, if ps <? last then ps else last)
         else walk (fun fuel => pgtables_loop fuel p start first last));
  let start_index := pgd_index first in
  let start_index := if start_index <? FIRST_USER_PGD_NR then FIRST_USER_PGD_NR else start_index in
  let end_index := pgd_index last in
  whenV (start_index <? end_index) (call_out (Clear_page_tables start_index (end_index - start_index))).

(** The two loops of [do_munmap]. The first returns the list [free]. *)
Fixpoint detach_loop (fuel : nat) (prev mpnt end_ free : Z) : V Z :=
  match fuel with
  | O => BUG
  | S fuel =>
    st ← (if truth mpnt then vma_get mpnt vm_start else mret 0);
    if truth mpnt && (st <? end_) then
      n ← next_get mpnt;
      (if truth prev then next_set prev n else mm_set (fun s => s <| mmap := n |>));;
      next_set mpnt free;;
      on_rb (rb_erase mpnt);;
      mpnt' ← (if truth prev then next_get prev else mm_get mmap);
      detach_loop fuel prev mpnt' end_ mpnt
    else mret free
  end.

Fixpoint release_loop (fuel : nat) (addr end_ free extra : Z) : V Z :=
  match fuel with
  | O => BUG
  | S fuel =>
    if truth free then
      let mpnt := free in
      free ← next_get mpnt;
      v ← vma_get mpnt id;
      let st := if addr <? vm_start v then vm_start v else addr in
      let e := if vm_end v <? end_ then vm_end v else end_ in
      let size := u32 (e - st) in
      let file := if truth (vm_flags v .& VM_DENYWRITE) &&
                     (negb (st =? vm_start v) || negb (e =? vm_end v)) then vm_file v else 0 in
      whenV (truth file) (call_out (Writecount_dec file));;
      __remove_shared_vm_struct mpnt;;
      count_map (-1);;
      call_out (Zap_page_range st size);;
      extra ← unmap_fixup mpnt st size extra;
      whenV (truth file) (call_out (Writecount_inc file));;
      release_loop fuel addr end_ free extra
    else mret extra
  end.

Definition do_munmap (addr len extra : Z) : V Z :=
  if truth (addr .& Z.lnot PAGE_MASK) || (TASK_SIZE <? addr) || (u32 (TASK_SIZE - addr) <? len)
  then mret (- EINVAL)
  else
    let len := PAGE_ALIGN len in
    if len =? 0 then mret (- EINVAL)
    else
      let end_ := u32 (addr + len) in
      '(mpnt, prev) ← find_vma_prev addr;
      if negb (truth mpnt) then mret 0
      else
        st ← vma_get mpnt vm_start;
        if end_ <=? st then mret 0
        else
          e ← vma_get mpnt vm_end;
          count ← mm_get map_count;
          if (st <? addr) && (end_ <? e) && (max_map_count <=? count) then mret (- ENOMEM)
          else if negb (truth extra) then mret (- ENOMEM)
          else
            free ← walk (fun fuel => detach_loop fuel prev mpnt end_ 0);
            mm_set (fun s => s <| mmap_cache := 0 |>);;
            extra ← walk (fun fuel => release_loop fuel addr end_ free extra);
            whenV (truth extra) (call_out (Kmem_cache_free extra));;
            free_pgtables prev addr end_;;
            mret 0.

(** ** Giving back the rest of an area *)

(** The part [[addr, e)] of the area [a] is gone; the rest of it is in the address space. *)
Record fixed_up (s : mm_struct) (l : list Z) (a addr e extra : Z) (s' : mm_struct) (l' : list Z) (extra' : Z) : Prop := {
  fu_areas : Areas s' l';
  fu_mapped : forall x w, mapped_as s' l' x w <->
    (covers (ar s a) x /\ ~ (addr <= x < e) /\ w = attr (ar s a) x) \/ mapped_as s l x w;
  fu_mem : mem_kept s s';
  fu_other : forall b, b <> a -> b <> extra -> ar s' b = ar s b;
  fu_next : forall b, b ∉ l -> b <> a -> b <> extra -> vm_next s' !! b = vm_next s !! b;
  fu_sub : forall b, b ∈ l' -> b ∈ l \/ b = a \/ (b = extra /\ extra' = 0);
  fu_keep : forall b, b ∈ l -> b ∈ l';
  fu_inside : forall b, b ∈ l' -> b ∉ l ->
    vm_start (ar s a) <= vm_start (ar s' b) /\ vm_end (ar s' b) <= vm_end (ar s a);
  fu_bytes : bytes s' l' = bytes s l + (vm_end (ar s a) - vm_start (ar s a)) - (e - addr);
  fu_extra : extra' = extra \/ (extra' = 0 /\ vm_start (ar s a) < addr /\ e < vm_end (ar s a));
  fu_count : map_count s' - Z.of_nat (length l') = map_count s - Z.of_nat (length l);
  fu_cache : mmap_cache s' = mmap_cache s;
  fu_total : total_vm s' = u32 (total_vm s - ((e - addr) .>> PAGE_SHIFT));
  fu_rest : brk s' = brk s /\ end_code s' = end_code s /\ start_data s' = start_data s /\ def_flags s' = def_flags s
}.

(** The parts of an area before an address and from an address on. *)
Definition lower_part (v : vm_area) (addr : Z) : vm_area := v <| vm_end := addr |>.
Definition upper_part (v : vm_area) (e : Z) : vm_area :=
  v <| vm_pgoff := u32 (vm_pgoff v + (u32 (e - vm_start v) .>> PAGE_SHIFT)) |> <| vm_start := e |>.

Lemma lower_part_ok v addr : area_ok v -> vm_start v < addr -> addr <= vm_end v -> (PAGE_SIZE | addr) ->
  area_ok (lower_part v addr).
Proof. unfold area_ok, lower_part, update; cbn. intros (? & ? & ? & ? & ?) ? ? ?. split_and!; try done; lia. Qed.
Lemma upper_part_ok v e : area_ok v -> vm_start v <= e -> e < vm_end v -> (PAGE_SIZE | e) -> area_ok (upper_part v e).
Proof. unfold area_ok, upper_part, update; cbn. intros (? & ? & ? & ? & ?) ? ? ?. split_and!; try done; lia. Qed.

Lemma upper_attr v e x : area_ok v -> vm_start v <= e -> (PAGE_SIZE | e) -> e <= x < 4294967296 ->
  attr (upper_part v e) x = attr v x.
Proof.
  intros (H0 & _ & _ & [q Hq] & _) Hse [r Hr] Hx. unfold attr, upper_part, update; cbn.
  destruct (truth (vm_file v)); [|done]. f_equal. unfold PAGE_SIZE, PAGE_SHIFT in *.
  rewrite (u32_id (e - vm_start v)) by lia.
  rewrite !Z.shiftr_div_pow2 by lia. change (2 ^ 12) with 4096. rewrite Hq, Hr.
  replace (r * 4096 - q * 4096) with ((r - q) * 4096) by ring. rewrite Z.div_mul by lia.
  replace (x - q * 4096) with (x - r * 4096 + (r - q) * 4096) by ring. rewrite Z.div_add by lia.
  unfold u32. rewrite Zplus_mod_idemp_l. f_equal. ring.
Qed.

(** What the parts map. *)
Lemma lower_mapped v addr x w : addr <= vm_end v ->
  covers (lower_part v addr) x /\ w = attr (lower_part v addr) x <-> covers v x /\ x < addr /\ w = attr v x.
Proof. unfold covers, lower_part, attr, update; cbn. intros. split; intros; intuition lia. Qed.
Lemma upper_mapped v e x w : area_ok v -> vm_start v <= e -> (PAGE_SIZE | e) ->
  covers (upper_part v e) x /\ w = attr (upper_part v e) x <-> covers v x /\ e <= x /\ w = attr v x.
Proof.
  intros Hok He Hd. split.
  - intros [Hc ->]. assert (Hx : e <= x < vm_end v) by (unfold covers, upper_part, update in Hc; cbn in Hc; lia).
    rewrite upper_attr; [|done..|unfold area_ok in Hok; lia]. unfold covers. split_and!; try done; lia.
  - unfold covers. intros (Hc & Hx & ->). rewrite upper_attr; [|done..|unfold area_ok in Hok; lia].
    unfold upper_part, update; cbn. split; [lia|done].
Qed.

Lemma quietly_sub_locked n : quietly (sub_locked n).
Proof. intros s. eexists. split; [done|]. by destruct s. Qed.
Hint Resolve quietly_sub_locked : quiet.

Section Fixup.
Context (s : mm_struct) (l : list Z) (a addr e extra : Z).
Hypothesis HM : Areas s l.
Hypothesis Hmem : area_mem s a.
Hypothesis Hout : a ∉ l.
Hypothesis Hok : area_ok (ar s a).
Hypothesis Hdis : apart_from s l a.
Hypothesis Hpart : vm_start (ar s a) <= addr /\ addr < e /\ e <= vm_end (ar s a).
Hypothesis Hal : (PAGE_SIZE | addr) /\ (PAGE_SIZE | e).
Hypothesis Hextra : vm_start (ar s a) < addr -> e < vm_end (ar s a) ->
  area_mem s extra /\ (extra ∉ l) /\ extra <> a.
Hypothesis Hcnt : 0 <= map_count s < 1073741824.

(** The start of [unmap_fixup]: only the accounts change. *)
Let started (s2 : mm_struct) : Prop :=
  quiet (s <| total_vm := u32 (total_vm s - ((e - addr) .>> PAGE_SHIFT)) |>) s2.

Lemma started_facts s2 : started s2 ->
  Areas s2 l /\ ar s2 = ar s /\ mem_kept s s2 /\ map_count s2 = map_count s /\
  mmap_cache s2 = mmap_cache s /\ total_vm s2 = u32 (total_vm s - ((e - addr) .>> PAGE_SHIFT)) /\
  vm_next s2 = vm_next s /\ vmas s2 = vmas s /\
  brk s2 = brk s /\ end_code s2 = end_code s /\ start_data s2 = start_data s /\ def_flags s2 = def_flags s.
Proof using HM.
  intros Hq. pose proof (quiet_fields _ _ Hq) as (E1 & E2 & E3 & E4 & E5 & E6 & E7 & E8 & E9 & E10 & E11).
  unfold update in *; cbn in *. split_and!; try done.
  - by apply (areas_ext s).
  - by apply ar_ext.
  - intros b. unfold area_mem. by rewrite E2, E3, E4.
Qed.

(** The whole area goes. *)
Lemma fixup_all s2 : started s2 -> addr = vm_start (ar s a) -> e = vm_end (ar s a) ->
  fixed_up s l a addr e extra s2 l extra.
Proof using All.
  intros Hs Ea Ee. destruct (started_facts _ Hs) as (H1 & H2 & H3 & H4 & H5 & H6 & H7 & H8 & H9).
  constructor.
  - done.
  - intros x w. rewrite (mapped_ext s s2) by (intros; by rewrite H2). unfold covers. rewrite <- Ea, <- Ee.
    intuition.
  - done.
  - intros b _ _. by rewrite H2.
  - intros. by rewrite H7.
  - intros. by left.
  - done.
  - done.
  - rewrite (bytes_ext s s2) by (intros; by rewrite H2). lia.
  - by left.
  - by rewrite H4.
  - done.
  - done.
  - done.
Qed.

(** One part of the area stays. *)
Lemma fixup_part s2 v : started s2 -> area_ok v ->
  (vm_start (ar s a) <= vm_start v /\ vm_end v <= vm_end (ar s a)) ->
  vm_end v - vm_start v = vm_end (ar s a) - vm_start (ar s a) - (e - addr) ->
  (forall x w, covers v x /\ w = attr v x <->
     covers (ar s a) x /\ ~ (addr <= x < e) /\ w = attr (ar s a) x) ->
  exists s' l', __insert_vm_struct a (with_vmas s2 (<[a := v]> (vmas s2))) = Ok (tt, s') /\
    fixed_up s l a addr e extra s' l' extra.
Proof using All.
  intros Hs Hv Hin Hsize Hmap. destruct (started_facts _ Hs) as (H1 & H2 & H3 & H4 & H5 & H6 & H7 & H8 & H9).
  set (s3 := with_vmas s2 (<[a := v]> (vmas s2))).
  assert (Hva : ar s3 a = v) by (unfold s3; by rewrite ar_insert, decide_True).
  destruct (insert_fresh s3 l a) as (s' & l' & E & HI).
  { by apply areas_other. }
  { by apply mem_with_vmas, H3. }
  { done. }
  { by rewrite Hva. }
  { apply apart_other; [done|]. intros b Hb. rewrite H2. destruct (Hdis b Hb); unfold below in *; lia. }
  destruct HI as [HA Hp Hvm (R1 & R2 & R3 & R4 & R5 & R6 & R7) Hk Hc Hx Hby Hn].
  assert (Hb3 : forall b, b ∈ l -> ar s3 b = ar s b).
  { intros b Hb. unfold s3. rewrite ar_insert_ne by (by intros ->). by rewrite H2. }
  exists s', l'. split; [done|]. constructor.
  - done.
  - intros x w. rewrite Hx, Hva, Hmap. by rewrite (mapped_ext s s3).
  - intros b Hb. apply Hk, mem_with_vmas. auto.
  - intros b Hb _. unfold ar. rewrite Hvm. unfold s3, with_vmas, update; cbn. by rewrite H8, lookup_insert_ne.
  - intros b Hb1 Hb2 _. rewrite Hn by done. by rewrite <- H7.
  - intros b. rewrite Hp, elem_of_cons. tauto.
  - intros b Hb. rewrite Hp. by right.
  - intros b. rewrite Hp, elem_of_cons. intros [->|?] ?; [|done]. by rewrite (ar_ext _ _ Hvm), Hva.
  - rewrite Hby, Hva, (bytes_ext s s3) by done. lia.
  - by left.
  - rewrite Hc, Hp. unfold s3, with_vmas, update; cbn. rewrite H4. unfold s32. cbn [length].
    rewrite Z.mod_small; lia.
  - by rewrite R1.
  - by rewrite R5.
  - rewrite R2, R3, R4, R7. done.
Qed.

(** Both ends stay: the upper one in the area [extra]. *)
Lemma fixup_hole s3 u : vm_start (ar s a) < addr -> e < vm_end (ar s a) ->
  Areas s3 l -> mem_kept s s3 -> vm_next s3 = vm_next s -> map_count s3 = map_count s ->
  mmap_cache s3 = mmap_cache s -> total_vm s3 = u32 (total_vm s - ((e - addr) .>> PAGE_SHIFT)) ->
  brk s3 = brk s /\ end_code s3 = end_code s /\ start_data s3 = start_data s /\ def_flags s3 = def_flags s ->
  ar s3 a = lower_part (ar s a) addr -> ar s3 extra = u -> area_ok u ->
  vm_start u = e -> vm_end u = vm_end (ar s a) -> (forall x, attr u x = attr (upper_part (ar s a) e) x) ->
  (forall b, b <> a -> b <> extra -> ar s3 b = ar s b) ->
  exists s' l', (__insert_vm_struct extra;; __insert_vm_struct a) s3 = Ok (tt, s') /\
    fixed_up s l a addr e extra s' l' 0.
Proof using All.
  intros Hs He HA3 Hm3 Hn3 Hc3 Hca3 Ht3 Hr3 Hara Hare Hu Hus Hue Hua Hother.
  destruct (Hextra Hs He) as (Hxm & Hxl & Hxa).
  assert (Hb3 : forall b, b ∈ l -> ar s3 b = ar s b) by (intros b Hb; apply Hother; by intros ->).
  assert (Hdis3 : forall b, b ∈ l -> vm_end (ar s3 b) <= vm_start (ar s a) \/ vm_end (ar s a) <= vm_start (ar s3 b)).
  { intros b Hb. rewrite Hb3 by done. destruct (Hdis b Hb); unfold below in *; lia. }
  destruct (insert_fresh s3 l extra) as (s4 & l4 & E4 & [HA4 Hp4 Hv4 R4 Hk4 Hc4 Hx4 Hy4 Hn4]); [done|by apply Hm3|done|by rewrite Hare| |].
  { intros b Hb. unfold below. rewrite Hare, Hus, Hue. destruct (Hdis3 b Hb); lia. }
  assert (Har4 : ar s4 = ar s3) by (by apply ar_ext).
  destruct (insert_fresh s4 l4 a) as (s5 & l5 & E5 & [HA5 Hp5 Hv5 R5 Hk5 Hc5 Hx5 Hy5 Hn5]); [done|by apply Hk4, Hm3| | | |].
  { rewrite Hp4. set_solver. }
  { rewrite Har4, Hara. apply lower_part_ok; [done|lia|lia|apply Hal]. }
  { intros b Hb. unfold below. rewrite Har4, Hara. unfold lower_part, update; cbn. rewrite Hp4 in Hb.
    apply elem_of_cons in Hb as [->|Hb]; [rewrite Hare, Hus; lia|]. destruct (Hdis3 b Hb); lia. }
  exists s5, l5. rewrite (bindV _ _ _ _ _ E4). split; [done|].
  destruct R4 as (A1 & A2 & A3 & A4 & A5 & A6 & A7). destruct R5 as (B1 & B2 & B3 & B4 & B5 & B6 & B7).
  destruct Hr3 as (D1 & D2 & D3 & D4). constructor.
  - done.
  - intros x w. rewrite Hx5, Har4, Hara, Hx4, Hare.
    rewrite (mapped_ext s s3) by done. rewrite lower_mapped by lia.
    assert (Hu' : covers u x /\ w = attr u x <-> covers (ar s a) x /\ e <= x /\ w = attr (ar s a) x).
    { rewrite <- upper_mapped by (done || lia || apply Hal). rewrite Hua. unfold covers.
      rewrite Hus, Hue. unfold upper_part, update; cbn. done. }
    rewrite Hu'. assert (~ (addr <= x < e) <-> x < addr \/ e <= x) by lia. tauto.
  - intros b Hb. auto.
  - intros b Hb1 Hb2. unfold ar at 1. rewrite Hv5, Hv4. by apply Hother.
  - intros b Hb1 Hb2 Hb3'. rewrite Hn5, Hn4, Hn3; try done. rewrite Hp4. set_solver.
  - intros b. rewrite Hp5, elem_of_cons, Hp4, elem_of_cons. tauto.
  - intros b Hb. rewrite Hp5. right. rewrite Hp4. by right.
  - intros b Hb Hbl. assert (E : ar s5 = ar s3) by (unfold ar; by rewrite Hv5, Hv4). rewrite E.
    rewrite Hp5, elem_of_cons, Hp4, elem_of_cons in Hb.
    destruct Hb as [->|[->|?]]; [|rewrite Hare, Hus, Hue; lia|done].
    rewrite Hara. unfold lower_part, update; cbn. lia.
  - rewrite Hy5, Har4, Hy4, Hara, Hare, Hus, Hue, (bytes_ext s s3) by done. unfold lower_part, update; cbn. lia.
  - right. split_and!; try done; lia.
  - rewrite Hc5, Hc4, Hp5, Hc3. cbn [length]. rewrite Hp4. cbn [length]. unfold s32.
    rewrite !Z.mod_small; [lia|lia|]. rewrite Z.mod_small; lia.
  - by rewrite B1, A1.
  - by rewrite B5, A5.
  - rewrite B2, B3, B4, B7, A2, A3, A4, A7. done.
Qed.

Lemma unmap_fixup_correct :
  exists s' l' extra', unmap_fixup a addr (e - addr) extra s = Ok (extra', s') /\
    fixed_up s l a addr e extra s' l' extra'.
Proof using All.
  pose proof Hmem as (Ha0 & Harea & _). unfold unmap_fixup.
  replace (addr + (e - addr)) with e by lia. rewrite (u32_id e) by (unfold area_ok in Hok; lia).
  rewrite (bindV _ (sub_total _) _ _ _ eq_refl).
  set (s1 := s <| total_vm := _ |>).
  assert (Harea1 : is_Some (vmas s1 !! a)) by done. runV.
  runQ s2 Q2. assert (Hs2 : started s2) by exact Q2.
  destruct (started_facts _ Hs2) as (H1 & H2 & H3 & H4 & H5 & H6 & H7 & H8 & H9).
  assert (Harea2 : is_Some (vmas s2 !! a)) by (by rewrite H8). do 2 runV. rewrite H2.
  destruct (Z.eqb_spec addr (vm_start (ar s a))) as [Est|Est];
    destruct (Z.eqb_spec e (vm_end (ar s a))) as [Ee|Ee]; cbn [andb].
  - runV. runQ s3 Q3. assert (Hv3 : vmas s3 = vmas s) by (apply quiet_fields in Q3 as (_ & _ & -> & _); done).
    assert (Harea3 : is_Some (vmas s3 !! a)) by (by rewrite Hv3). runV. runQ s4 Q4. runQ s5 Q5.
    exists s5, l, extra. split; [done|]. apply fixup_all; [|done|done].
    unfold started. transitivity s2; [done|]. transitivity s3; [done|]. by transitivity s4.
  - rewrite bindV_assoc, (bindV _ _ _ _ _ (vma_set_ok _ _ _ Harea2)).
    rewrite H2. set (s3 := with_vmas s2 _). rewrite bindV_assoc.
    assert (Harea3 : is_Some (vmas s3 !! a)) by (unfold s3, with_vmas, update; cbn; by rewrite lookup_insert_eq).
    rewrite (bindV _ _ _ _ _ (vma_set_ok _ _ _ Harea3)). unfold s3.
    rewrite (with_vmas_twice s2 a _ (fun v => v <| vm_start := e |>)).
    rewrite (bindV _ (mret extra) _ _ _ eq_refl).
    destruct (fixup_part s2 (upper_part (ar s a) e)) as (s' & l' & E & HF); [done| | | | |].
    + apply upper_part_ok; [done|lia|lia|apply Hal].
    + unfold upper_part, update; cbn. lia.
    + unfold upper_part, update; cbn. lia.
    + intros x w. rewrite upper_mapped by (done || lia || apply Hal). unfold covers.
      assert (vm_start (ar s a) <= x < vm_end (ar s a) -> (~ (addr <= x < e) <-> e <= x)) by lia. tauto.
    + exists s', l', extra. rewrite (bindV _ _ _ _ _ E). done.
  - rewrite bindV_assoc, (bindV _ _ _ _ _ (vma_set_ok _ _ _ Harea2)).
    rewrite H2, (bindV _ (mret extra) _ _ _ eq_refl).
    destruct (fixup_part s2 (lower_part (ar s a) addr)) as (s' & l' & E & HF); [done| | | | |].
    + apply lower_part_ok; [done|lia|lia|apply Hal].
    + unfold lower_part, update; cbn. lia.
    + unfold lower_part, update; cbn. lia.
    + intros x w. rewrite lower_mapped by lia. unfold covers.
      assert (vm_start (ar s a) <= x < vm_end (ar s a) -> (~ (addr <= x < e) <-> x < addr)) by lia. tauto.
    + exists s', l', extra. rewrite (bindV _ _ _ _ _ E). done.
  - destruct Hextra as (Hxm & Hxl & Hxa); [lia|lia|].
    rewrite bindV_assoc. runV. unfold id. rewrite H2, bindV_assoc.
    assert (Hx2 : is_Some (vmas s2 !! extra)) by (by apply H3 in Hxm as (_ & ? & _)).
    rewrite (bindV _ _ _ _ _ (vma_set_ok _ _ _ Hx2)). set (u := _ <| vm_private_data := _ |>).
    rewrite bindV_assoc. runQ s3 Q3. rewrite bindV_assoc. runQ s4 Q4. rewrite bindV_assoc.
    apply quiet_fields in Q3 as (T1 & T2 & T3 & T4 & T5 & T6 & T7 & T8 & T9 & T10 & T11).
    apply quiet_fields in Q4 as (U1 & U2 & U3 & U4 & U5 & U6 & U7 & U8 & U9 & U10 & U11).
    assert (Hv4 : vmas s4 = <[extra := u]> (vmas s2)) by (by rewrite U3, T3).
    assert (Harea4 : is_Some (vmas s4 !! a)) by (by rewrite Hv4, lookup_insert_ne).
    assert (Hara4 : ar s4 a = ar s a) by (unfold ar; by rewrite Hv4, lookup_insert_ne, H8).
    rewrite (bindV _ _ _ _ _ (vma_set_ok _ _ _ Harea4)), Hara4.
    set (s5 := with_vmas s4 (<[a := (ar s a) <| vm_end := addr |>]> (vmas s4))).
    assert (HA4 : Areas s4 l).
    { apply (areas_ext (with_vmas s2 (<[extra := u]> (vmas s2)))); [by rewrite U1|by rewrite U2|by rewrite U3|by rewrite U4|].
      by apply areas_other. }
    destruct (fixup_hole s5 u) as (s' & l' & E & HF).
    + lia.
    + lia.
    + by apply areas_other.
    + intros b Hb. apply mem_with_vmas. apply H3, (mem_with_vmas s2 extra u) in Hb.
      unfold area_mem. by rewrite Hv4, U2, T2, U4, T4.
    + change (vm_next s4 = vm_next s). by rewrite U4, T4, <- H7.
    + change (map_count s4 = map_count s). by rewrite U5, T5, <- H4.
    + change (mmap_cache s4 = mmap_cache s). by rewrite U6, T6, <- H5.
    + change (total_vm s4 = u32 (total_vm s - ((e - addr) .>> PAGE_SHIFT))). by rewrite U7, T7, <- H6.
    + change (brk s4 = brk s /\ end_code s4 = end_code s /\ start_data s4 = start_data s /\ def_flags s4 = def_flags s).
      by rewrite U8, U9, U10, U11, T8, T9, T10, T11.
    + unfold s5. by rewrite ar_insert, decide_True.
    + unfold s5. rewrite ar_insert_ne by done. unfold ar. by rewrite Hv4, lookup_insert_eq.
    + exact (upper_part_ok (ar s a) e Hok ltac:(lia) ltac:(lia) (proj2 Hal)).
    + done.
    + done.
    + done.
    + intros b Hb1 Hb2. unfold s5. rewrite ar_insert_ne by done. unfold ar. by rewrite Hv4, lookup_insert_ne, H8.
    + apply bindV_inv in E as ([] & s6 & E1 & E2). exists s', l', 0. split; [|done].
      rewrite bindV_assoc, (bindV _ _ _ _ _ E1), (bindV _ (mret 0) _ _ _ eq_refl), (bindV _ _ _ _ _ E2). done.
Qed.
End Fixup.

(** ** Taking the areas off *)

(** Only the list and the tree change. *)
Definition same_store (s s' : mm_struct) : Prop :=
  vmas s' = vmas s /\ mem_kept s s' /\ same_rest s s' /\ map_count s' = map_count s /\ calls s' = calls s.

Lemma linked_pointer nx p l : linked nx p l -> p = hd0 l.
Proof. apply linked_hd. Qed.

(** [*npp = mpnt->vm_next]: the list without its part [[a]]. *)
Lemma skip_correct s l1 a l2 : Areas s (l1 ++ a :: l2) ->
  exists nx p, (if truth (last0 l1) then next_set (last0 l1) (hd0 l2) else mm_set (fun s => s <| mmap := hd0 l2 |>)) s
      = Ok (tt, s <| vm_next := nx |> <| mmap := p |>) /\
    linked nx p (l1 ++ l2) /\ (forall b, b ∉ l1 -> nx !! b = vm_next s !! b) /\
    (forall b, is_Some (vm_next s !! b) -> is_Some (nx !! b)).
Proof.
  intros HM. pose proof (mm_linked _ _ HM) as Hl.
  assert (Hl2 : linked (vm_next s) (hd0 l2) l2).
  { change (a :: l2) with ([a] ++ l2) in Hl. rewrite app_assoc in Hl. by eapply linked_tail. }
  destruct (decide (l1 = [])) as [->|Hne].
  - exists (vm_next s), (hd0 l2). change (truth (last0 [])) with false. split_and!; done.
  - pose proof (last0_elem _ Hne) as Hlast. exists (<[last0 l1 := hd0 l2]> (vm_next s)), (mmap s).
    rewrite truth_nz by (eapply Areas_nonzero; [done|set_solver]).
    pose proof (linked_app _ _ _ _ Hl) as Hn. split_and!.
    + unfold next_set. destruct l1; [done|]. rewrite Hn. by destruct s.
    + pose proof (linked_replace (vm_next s) (mmap s) l1 (a :: l2) l2 (<[last0 l1 := hd0 l2]> (vm_next s))) as Hr.
      pose proof (Areas_nodup _ _ HM) as Hnd. destruct l1 as [|b l1]; [done|]. apply Hr; try done.
      * by apply NoDup_app in Hnd as [? _].
      * intros x Hx Hxl. by rewrite lookup_insert_ne.
      * intros _. by rewrite lookup_insert_eq.
      * eapply linked_agree; [|exact Hl2]. intros x Hx. rewrite lookup_insert_ne; [done|]. intros <-.
        apply NoDup_app in Hnd as (_ & Hd & _). apply (Hd _ Hlast). by right.
    + intros b Hb. rewrite lookup_insert_ne; [done|]. by intros <-.
    + intros b Hb. rewrite lookup_insert. by case_decide.
Qed.

Lemma detach_step s l1 a l2 free fl :
  Areas s (l1 ++ a :: l2) -> linked (vm_next s) free fl -> (forall b, b ∈ fl -> b ∉ l1 ++ a :: l2) ->
  exists s', (n ← next_get a;
     (if truth (last0 l1) then next_set (last0 l1) n else mm_set (fun s => s <| mmap := n |>));;
     next_set a free;;
     on_rb (rb_erase a)) s = Ok (tt, s') /\
    Areas s' (l1 ++ l2) /\ linked (vm_next s') a (a :: fl) /\ same_store s s'.
Proof.
  intros HM Hfl Hout. pose proof (mm_linked _ _ HM) as Hl.
  destruct (nodup_out _ _ _ _ HM) as [Ha1 Ha2].
  pose proof (linked_next _ _ _ _ _ Hl) as Hna.
  destruct (skip_correct _ _ _ _ HM) as (nx & p & E & Hlk & Hnx & Hdom).
  destruct (mm_tree _ _ HM) as (t & HT & Hrb & Hin).
  destruct (tree_erase _ _ _ l1 a l2 HT Hrb Hin) as (r & t' & cell & Er & HT' & Hrb' & Hin').
  rewrite (bindV _ _ _ (hd0 l2) s) by (unfold next_get; by rewrite Hna).
  rewrite (bindV _ _ _ _ _ E).
  set (s1 := s <| vm_next := nx |> <| mmap := p |>).
  rewrite (bindV _ _ _ tt (s1 <| vm_next := <[a := free]> nx |>)).
  2: { unfold next_set. change (vm_next s1) with nx. by rewrite Hnx, Hna by done. }
  eexists. split; [apply on_rb_ok; exact Er|]. split_and!.
  - eapply (areas_remove s _ l1 a l2); try done.
    change (linked (<[a := free]> nx) p (l1 ++ l2)). eapply linked_agree; [|exact Hlk].
    intros b Hb. rewrite lookup_insert_ne; [done|]. intros <-. set_solver.
  - change (linked (<[a := free]> nx) a (a :: fl)). split; [done|]. exists free.
    rewrite lookup_insert_eq. split; [done|]. eapply linked_agree; [|exact Hfl].
    intros b Hb. specialize (Hout b Hb). rewrite lookup_insert_ne by set_solver. apply Hnx. set_solver.
  - split_and!; try done. intros b (Hb0 & Hb1 & Hb2 & Hb3). split_and!; try done.
    + change (is_Some (<[a := free]> nx !! b)). rewrite lookup_insert. case_decide; [done|]. by apply Hdom.
    + change (is_Some (nodes r !! b)). eapply Tree_cells; [exact HT'|]. rewrite lookup_insert. by case_decide.
Qed.

Lemma same_store_refl s : same_store s s.
Proof. split_and!; try done. by intros a. Qed.
Lemma same_store_trans s1 s2 s3 : same_store s1 s2 -> same_store s2 s3 -> same_store s1 s3.
Proof.
  intros (A1 & A2 & (A3 & A4 & A5 & A6 & A7 & A8 & A9) & A10 & A11) (B1 & B2 & (B3 & B4 & B5 & B6 & B7 & B8 & B9) & B10 & B11).
  unfold same_store, same_rest. split_and!; try congruence. intros a Ha. auto.
Qed.

Lemma detach_correct fuel s l1 lm l2 end_ free fl :
  Areas s (l1 ++ lm ++ l2) -> (forall b, b ∈ lm -> vm_start (ar s b) < end_) ->
  (l2 <> [] -> end_ <= vm_start (ar s (hd0 l2))) ->
  linked (vm_next s) free fl -> (forall b, b ∈ fl -> b ∉ l1 ++ lm ++ l2) -> (length lm < fuel)%nat ->
  exists s', detach_loop fuel (last0 l1) (hd0 (lm ++ l2)) end_ free s = Ok (hd0 (rev lm ++ fl), s') /\
    Areas s' (l1 ++ l2) /\ linked (vm_next s') (hd0 (rev lm ++ fl)) (rev lm ++ fl) /\ same_store s s'.
Proof.
  revert s lm free fl. induction fuel as [|fuel IH]; intros s lm free fl HM Hlm Hl2 Hfl Hout Hfuel; [lia|].
  cbn [detach_loop]. destruct lm as [|a lm].
  - exists s. cbn [app rev] in *. pose proof (linked_hd _ _ _ Hfl) as ->.
    split; [|split_and!; [done|done|apply same_store_refl]].
    destruct l2 as [|b l2]; [done|]. cbn [hd0 hd].
    assert (Hb : b ∈ l1 ++ b :: l2) by set_solver. rewrite truth_nz by (by eapply Areas_nonzero).
    erewrite bindV by (apply vma_get_ok; by apply HM). cbn [andb]. specialize (Hl2 ltac:(done)). cbn [hd0 hd] in Hl2.
    case_cmp; [lia|done].
  - assert (Ha : a ∈ l1 ++ a :: lm ++ l2) by set_solver. cbn [app hd0 hd].
    rewrite truth_nz by (by eapply Areas_nonzero).
    erewrite bindV by (apply vma_get_ok; by apply HM). cbn [andb].
    destruct (Z.ltb_spec (vm_start (ar s a)) end_) as [_|]; [|exfalso; specialize (Hlm a ltac:(left)); lia].
    destruct (detach_step s l1 a (lm ++ l2) free fl HM Hfl Hout) as (s1 & E1 & HA1 & Hl1 & Hst).
    apply bindV_inv in E1 as (n & s2 & Ea & E1). apply bindV_inv in E1 as ([] & s3 & Eb & E1).
    apply bindV_inv in E1 as ([] & s4 & Ec & Ed).
    rewrite (bindV _ _ _ _ _ Ea), (bindV _ _ _ _ _ Eb), (bindV _ _ _ _ _ Ec), (bindV _ _ _ _ _ Ed).
    rewrite (bindV _ _ _ _ _ (after_get _ _ _ HA1)).
    pose proof Hst as (Hv & _).
    destruct (IH s1 lm a (a :: fl)) as (s' & E' & HA' & Hl' & Hst').
    + done.
    + intros b Hb. rewrite (ar_ext _ _ Hv). apply Hlm. by right.
    + by rewrite (ar_ext _ _ Hv).
    + done.
    + destruct (nodup_out _ _ _ _ HM). intros b [->|Hb]%elem_of_cons; [set_solver|]. specialize (Hout b Hb). set_solver.
    + cbn [length] in Hfuel. lia.
    + exists s'. cbn [rev]. rewrite <- app_assoc. cbn [app]. split_and!; try done. by eapply same_store_trans.
Qed.

(** ** Releasing the areas *)
Lemma remove_shared_quiet s a : is_Some (vmas s !! a) ->
  exists s', __remove_shared_vm_struct a s = Ok (tt, s') /\ quiet s s'.
Proof.
  intros Ha. unfold __remove_shared_vm_struct. do 2 runV.
  assert (Hq : quietly (whenV (truth (vm_file (ar s a)))
    (whenV (truth (vm_flags (ar s a) .& VM_DENYWRITE)) (call_out (Writecount_inc (vm_file (ar s a))));;
     call_out (I_mmap_del a)))) by eauto with quiet.
  apply Hq.
Qed.

(** The pages of the areas [l] and of those that are still to be released are accounted for. *)
Definition accounted (s : mm_struct) (l rl : list Z) : Prop :=
  total_vm s = u32 ((bytes s l + bytes s rl) .>> PAGE_SHIFT).

Section Release.
Context (addr end_ : Z).
Hypothesis Hrange : 0 <= addr /\ addr < end_ /\ end_ < 4294967296.
Hypothesis Hal : (PAGE_SIZE | addr) /\ (PAGE_SIZE | end_).

(** The areas of the list [free]: they overlap the range, and nothing else. *)
Record detached (s : mm_struct) (l rl : list Z) (extra : Z) : Prop := {
  det_areas : Areas s l;
  det_linked : linked (vm_next s) (hd0 rl) rl;
  det_nodup : NoDup rl;
  det_area : forall a, a ∈ rl -> area_mem s a /\ (a ∉ l) /\ area_ok (ar s a) /\ apart_from s l a /\
    vm_start (ar s a) < end_ /\ addr < vm_end (ar s a);
  det_apart : forall a b, a ∈ rl -> b ∈ rl -> a <> b -> below s a b \/ below s b a;
  det_extra : (extra ∉ l) /\ (extra ∉ rl);
  det_hole : forall a, a ∈ rl -> vm_start (ar s a) < addr -> end_ < vm_end (ar s a) -> area_mem s extra;
  det_count : map_count s = Z.of_nat (length l) + Z.of_nat (length rl)
}.

(** A hole is in the only area. *)
Lemma hole_alone s l rl extra a b : detached s l rl extra -> a ∈ rl -> b ∈ rl ->
  vm_start (ar s a) < addr -> end_ < vm_end (ar s a) -> a = b.
Proof using All.
  intros HD Ha Hb Hs He. destruct (decide (a = b)) as [|Hne]; [done|exfalso].
  destruct (det_area _ _ _ _ HD b Hb) as (_ & _ & Hok & _ & H1 & H2).
  destruct (det_apart _ _ _ _ HD a b Ha Hb Hne); unfold below, area_ok in *; lia.
Qed.

(** The range to unmap of an area. *)
Definition cut_start (v : vm_area) : Z := if addr <? vm_start v then vm_start v else addr.
Definition cut_end (v : vm_area) : Z := if vm_end v <? end_ then vm_end v else end_.

Lemma fixed_detached s l a rl extra s' l' extra' :
  detached s l (a :: rl) extra ->
  fixed_up (s <| map_count := map_count s - 1 |>) l a (cut_start (ar s a)) (cut_end (ar s a)) extra s' l' extra' ->
  detached s' l' rl extra'.
Proof using All.
  intros HD HF. set (s1 := s <| map_count := map_count s - 1 |>) in HF.
  assert (Ear : ar s1 = ar s) by done.
  pose proof (det_nodup _ _ _ _ HD) as Hnd. apply NoDup_cons in Hnd as [Harl Hnd].
  destruct (det_extra _ _ _ _ HD) as [Hxl Hxrl].
  assert (Hhole : rl <> [] -> extra' = extra /\ (extra' = 0 -> extra = 0)).
  { intros Hne. destruct (fu_extra _ _ _ _ _ _ _ _ _ HF) as [->|(_ & H1 & H2)]; [done|].
    exfalso. destruct rl as [|b rl]; [done|]. rewrite Ear in H1, H2. unfold cut_start, cut_end in *.
    assert (a = b); [|subst b; set_solver].
    eapply hole_alone; [exact HD|left|right; left|..]; destruct (Z.ltb_spec addr (vm_start (ar s a)));
      destruct (Z.ltb_spec (vm_end (ar s a)) end_); lia. }
  assert (Hrl : forall b, b ∈ rl -> ar s' b = ar s b /\ b ∉ l').
  { intros b Hb. assert (b <> a) by (by intros ->). assert (b <> extra) by (intros ->; apply Hxrl; by right).
    split; [by rewrite (fu_other _ _ _ _ _ _ _ _ _ HF), Ear|].
    intros Hb'. destruct (fu_sub _ _ _ _ _ _ _ _ _ HF b Hb') as [?|[?|[? ?]]]; [|done|done].
    destruct (det_area _ _ _ _ HD b ltac:(by right)) as (_ & ? & _). done. }
  constructor.
  - apply HF.
  - pose proof (det_linked _ _ _ _ HD) as (_ & n & Hn & Hl). pose proof (linked_hd _ _ _ Hl) as ->.
    eapply linked_agree; [|exact Hl]. intros b Hb.
    rewrite (fu_next _ _ _ _ _ _ _ _ _ HF); [done|..].
    + by destruct (det_area _ _ _ _ HD b ltac:(by right)) as (_ & ? & _).
    + by intros ->.
    + intros ->. apply Hxrl. by right.
  - done.
  - intros b Hb. destruct (Hrl b Hb) as [E Hb']. rewrite E.
    destruct (det_area _ _ _ _ HD b ltac:(by right)) as (Hm & Hbl & Hok & Hap & Hov).
    split_and!; try done; try apply Hov; [by apply (fu_mem _ _ _ _ _ _ _ _ _ HF)|].
    intros c Hc. unfold below. rewrite E.
    destruct (decide (c ∈ l)) as [Hcl|Hcl].
    + assert (Hca : c <> a).
      { intros ->. by destruct (det_area _ _ _ _ HD a ltac:(left)) as (_ & ? & _). }
      rewrite (fu_other _ _ _ _ _ _ _ _ _ HF); [|done|by intros ->]. by apply Hap.
    + pose proof (fu_inside _ _ _ _ _ _ _ _ _ HF c Hc Hcl) as Hin. rewrite Ear in Hin.
      destruct (det_apart _ _ _ _ HD a b) as [H|H]; [left|by right|by intros ->|left|right]; unfold below in H; lia.
  - intros b c Hb Hc Hne. unfold below. rewrite (proj1 (Hrl b Hb)), (proj1 (Hrl c Hc)).
    apply (det_apart _ _ _ _ HD); [by right|by right|done].
  - split.
    + intros Hx. pose proof (Areas_nonzero _ _ _ (fu_areas _ _ _ _ _ _ _ _ _ HF) Hx) as Hx0.
      destruct (fu_extra _ _ _ _ _ _ _ _ _ HF) as [->|(-> & _)]; [|done].
      destruct (fu_sub _ _ _ _ _ _ _ _ _ HF _ Hx) as [?|[->|[_ ?]]]; [done| |done]. apply Hxrl. left.
    + destruct (fu_extra _ _ _ _ _ _ _ _ _ HF) as [->|(-> & _)]; [by intros ?; apply Hxrl; right|].
      intros H0. by destruct (det_area _ _ _ _ HD 0 ltac:(by right)) as ((? & _) & _).
  - intros b Hb H1 H2. rewrite (proj1 (Hrl b Hb)) in H1, H2.
    destruct Hhole as [-> _]; [by destruct rl; [apply elem_of_nil in Hb|]|].
    apply (fu_mem _ _ _ _ _ _ _ _ _ HF). apply (det_hole _ _ _ _ HD b); [by right|done|done].
  - pose proof (fu_count _ _ _ _ _ _ _ _ _ HF) as Hc. pose proof (det_count _ _ _ _ HD) as Hc'.
    change (map_count s1) with (map_count s - 1) in Hc. cbn [length] in Hc'. lia.
Qed.

(** The part of the area that goes. *)
Lemma cut_facts v : area_ok v -> vm_start v < end_ -> addr < vm_end v ->
  vm_start v <= cut_start v /\ cut_start v < cut_end v /\ cut_end v <= vm_end v /\
  (PAGE_SIZE | cut_start v) /\ (PAGE_SIZE | cut_end v) /\
  (forall x, covers v x -> (cut_start v <= x < cut_end v <-> addr <= x < end_)).
Proof using All.
  intros (H0 & H1 & H2 & H3 & H4) H5 H6. unfold cut_start, cut_end, covers.
  destruct (Z.ltb_spec addr (vm_start v)); destruct (Z.ltb_spec (vm_end v) end_);
    split_and!; try lia; try done; try apply Hal; intros; lia.
Qed.

Lemma bytes_pages s l : Areas s l -> (PAGE_SIZE | bytes s l).
Proof.
  intros HM. pose proof (mm_areas _ _ HM) as H. clear HM. induction l as [|a l IH]; simpl; [apply Z.divide_0_r|].
  destruct (H a ltac:(left)) as [_ (_ & _ & _ & H1 & H2)].
  apply Z.divide_add_r; [by apply Z.divide_sub_r|]. apply IH. intros b Hb. apply H. by right.
Qed.

Lemma quiet_count s s' c : quiet s s' -> quiet (s <| map_count := c |>) (s' <| map_count := c |>).
Proof. unfold quiet, update. cbn. intros H. destruct s'. cbn in *. by injection H as -> -> -> -> -> -> -> -> -> -> ->. Qed.

Lemma fixed_up_quiet s0 s l a st e extra s' l' extra' s1 :
  quiet s0 s -> quiet s' s1 -> fixed_up s l a st e extra s' l' extra' -> fixed_up s0 l a st e extra s1 l' extra'.
Proof.
  intros Q Q' [F1 F2 F3 F4 F5 F6 F6' F7 F8 F9 F10 F11 F12 F13].
  pose proof (quiet_ar _ _ Q) as Ear. pose proof (quiet_ar _ _ Q') as Ear'.
  pose proof (quiet_mem _ _ Q) as Hm. pose proof (quiet_mem _ _ Q') as Hm'.
  pose proof (quiet_areas _ _ l' Q' F1) as HA.
  apply quiet_fields in Q as (T1 & T2 & T3 & T4 & T5 & T6 & T7 & T8 & T9 & T10 & T11).
  apply quiet_fields in Q' as (U1 & U2 & U3 & U4 & U5 & U6 & U7 & U8 & U9 & U10 & U11).
  rewrite Ear in *. constructor; try done.
  - intros x w. rewrite (mapped_ext s' s1) by (intros; by rewrite Ear'). rewrite F2.
    by rewrite (mapped_ext s0 s) by (intros; by rewrite Ear).
  - intros b Hb. auto.
  - intros b Hb1 Hb2. by rewrite Ear', F4.
  - intros b Hb1 Hb2 Hb3. by rewrite U4, F5, T4.
  - by rewrite Ear'.
  - rewrite (bytes_ext s' s1) by (intros; by rewrite Ear'). rewrite F8.
    by rewrite (bytes_ext s0 s) by (intros; by rewrite Ear).
  - by rewrite U5, F10, T5.
  - by rewrite U6, F11, T6.
  - by rewrite U7, F12, T7.
  - by rewrite U8, U9, U10, U11, <- T8, <- T9, <- T10, <- T11.
Qed.

(** One area is released. *)
Lemma release_step s l a rl extra fuel :
  detached s l (a :: rl) extra -> Z.of_nat (length l) + Z.of_nat (length (a :: rl)) < 1073741824 ->
  exists s' l' extra', release_loop (S fuel) addr end_ a extra s = release_loop fuel addr end_ (hd0 rl) extra' s' /\
    fixed_up (s <| map_count := map_count s - 1 |>) l a (cut_start (ar s a)) (cut_end (ar s a)) extra s' l' extra'.
Proof using All.
  intros HD Hlen.
  destruct (det_area _ _ _ _ HD a ltac:(left)) as (Hmem & Hout & Hok & Hap & Hov1 & Hov2).
  destruct (cut_facts _ Hok Hov1 Hov2) as (C1 & C2 & C3 & C4 & C5 & _).
  pose proof Hmem as (Ha0 & Harea & _). pose proof (det_linked _ _ _ _ HD) as (_ & n & Hn & Hl).
  pose proof (linked_hd _ _ _ Hl) as ->.
  cbn [release_loop]. rewrite truth_nz by done.
  rewrite (bindV _ _ _ (hd0 rl) s) by (unfold next_get; by rewrite Hn). runV. unfold id.
  fold (cut_start (ar s a)). fold (cut_end (ar s a)).
  set (file := if truth (vm_flags (ar s a) .& VM_DENYWRITE) && _ then _ else 0).
  runQ s1 Q1. assert (Hv1 : vmas s1 = vmas s) by (by apply quiet_fields in Q1 as (_ & _ & -> & _)).
  destruct (remove_shared_quiet s1 a) as (s2 & E2 & Q2); [by rewrite Hv1|]. rewrite (bindV _ _ _ _ _ E2).
  rewrite (bindV _ (count_map (-1)) _ _ _ eq_refl). runQ s3 Q3.
  assert (Hc2 : map_count s2 = map_count s).
  { apply quiet_fields in Q1 as (_ & _ & _ & _ & E1 & _). apply quiet_fields in Q2 as (_ & _ & _ & _ & -> & _). done. }
  set (s0 := s <| map_count := map_count s - 1 |>).
  assert (Q : quiet s0 s3).
  { transitivity (s2 <| map_count := map_count s - 1 |>).
    - apply quiet_count. by transitivity s1.
    - replace (map_count s - 1) with (s32 (map_count s2 + -1)); [exact Q3|]. rewrite Hc2.
      rewrite (det_count _ _ _ _ HD). cbn [length] in *. unfold s32. rewrite Z.mod_small; lia. }
  pose proof (quiet_ar _ _ Q) as Ear. change (ar s0) with (ar s) in Ear.
  rewrite (u32_id (cut_end _ - cut_start _)) by (unfold area_ok in Hok; lia).
  destruct (unmap_fixup_correct s3 l a (cut_start (ar s a)) (cut_end (ar s a)) extra) as (s4 & l4 & x4 & E4 & HF);
    rewrite ?Ear; try done.
  - apply (quiet_areas _ _ _ Q). by apply (areas_ext s), HD.
  - by apply (quiet_mem _ _ Q).
  - intros b Hb. unfold below. rewrite Ear. by apply Hap.
  - intros H1 H2. split_and!.
    + apply (quiet_mem _ _ Q). apply (det_hole _ _ _ _ HD a); [left|..]; unfold cut_start, cut_end in *;
        destruct (Z.ltb_spec addr (vm_start (ar s a))); destruct (Z.ltb_spec (vm_end (ar s a)) end_); lia.
    + apply (det_extra _ _ _ _ HD).
    + intros ->. destruct (det_extra _ _ _ _ HD) as [_ Hx]. apply Hx. left.
  - apply quiet_fields in Q as (_ & _ & _ & _ & -> & _). change (0 <= map_count s - 1 < 1073741824).
    rewrite (det_count _ _ _ _ HD). cbn [length] in *. lia.
  - rewrite (bindV _ _ _ _ _ E4). runQ s5 Q5. exists s5, l4, x4. split; [done|].
    by eapply fixed_up_quiet.
Qed.

(** The loop is done: the rest of the areas is back in the address space. *)
Record released (s : mm_struct) (l rl : list Z) (extra : Z) (s' : mm_struct) (l' : list Z) : Prop := {
  rel_areas : Areas s' l';
  rel_mapped : forall x w, mapped_as s' l' x w <->
    mapped_as s l x w \/ (mapped_as s rl x w /\ ~ (addr <= x < end_));
  rel_mem : mem_kept s s';
  rel_keep : forall b, b ∈ l -> b ∈ l' /\ ar s' b = ar s b;
  rel_sub : forall b, b ∈ l' -> b ∈ l \/ b ∈ rl \/ b = extra;
  rel_count : map_count s' = Z.of_nat (length l');
  rel_cache : mmap_cache s' = mmap_cache s;
  rel_total : accounted s l rl -> accounted s' l' [];
  rel_rest : brk s' = brk s /\ end_code s' = end_code s /\ start_data s' = start_data s /\ def_flags s' = def_flags s
}.

Lemma fixed_accounted s l a rl extra s' l' extra' :
  detached s l (a :: rl) extra ->
  fixed_up (s <| map_count := map_count s - 1 |>) l a (cut_start (ar s a)) (cut_end (ar s a)) extra s' l' extra' ->
  accounted s l (a :: rl) -> accounted s' l' rl.
Proof using All.
  intros HD HF. unfold accounted. rewrite (fu_total _ _ _ _ _ _ _ _ _ HF), (fu_bytes _ _ _ _ _ _ _ _ _ HF).
  change (total_vm (s <| map_count := map_count s - 1 |>)) with (total_vm s). intros ->.
  pose proof (det_nodup _ _ _ _ HD) as Hnd. apply NoDup_cons in Hnd as [Harl _].
  assert (Hrl : bytes s' rl = bytes s rl).
  { apply bytes_ext. intros b Hb. rewrite (fu_other _ _ _ _ _ _ _ _ _ HF); [done|by intros ->|].
    intros ->. destruct (det_extra _ _ _ _ HD) as [_ Hx]. apply Hx. by right. }
  rewrite Hrl. rewrite (bytes_ext s (s <| map_count := _ |>)) by done.
  change (ar (s <| map_count := map_count s - 1 |>)) with (ar s).
  destruct (det_area _ _ _ _ HD a ltac:(left)) as (_ & _ & Hok & _ & Hov1 & Hov2).
  destruct (cut_facts _ Hok Hov1 Hov2) as (_ & _ & _ & [p Hp] & [q Hq] & _). cbn [bytes].
  unfold PAGE_SHIFT, PAGE_SIZE in *. rewrite !Z.shiftr_div_pow2 by lia. change (2 ^ 12) with 4096.
  rewrite Hp, Hq. replace (q * 4096 - p * 4096) with ((q - p) * 4096) by ring. rewrite Z.div_mul by lia.
  replace (bytes s l + (vm_end (ar s a) - vm_start (ar s a)) - (q - p) * 4096 + bytes s rl)
    with (bytes s l + (vm_end (ar s a) - vm_start (ar s a) + bytes s rl) + (- (q - p)) * 4096) by ring.
  rewrite Z.div_add by lia. unfold u32. rewrite Zminus_mod_idemp_l. f_equal.
Qed.

Lemma release_correct rl s l extra fuel :
  detached s l rl extra -> (length rl < fuel)%nat ->
  Z.of_nat (length rl) <= 1048576 ->
  exists s' l' extra', release_loop fuel addr end_ (hd0 rl) extra s = Ok (extra', s') /\ released s l rl extra s' l'.
Proof using All.
  revert s l extra fuel. induction rl as [|a rl IH]; intros s l extra fuel HD Hfuel Hlen;
    (destruct fuel as [|fuel]; [simpl in *; lia|]).
  - exists s, l, extra. split; [done|]. constructor; try done.
    + apply HD.
    + intros x w. rewrite mapped_nil. tauto.
    + by intros b.
    + tauto.
    + rewrite (det_count _ _ _ _ HD). simpl. lia.
  - destruct (release_step s l a rl extra fuel HD) as (s1 & l1 & x1 & E1 & HF).
    { pose proof (Areas_length _ _ (det_areas _ _ _ _ HD)). cbn [length] in *; lia. }
    cbn [hd0 hd]. rewrite E1. pose proof (fixed_detached _ _ _ _ _ _ _ _ HD HF) as HD1.
    destruct (IH s1 l1 x1 fuel HD1) as (s2 & l2 & x2 & E2 & [R1 R2 R3 R3' RS R4 R5 R6 R7]).
    { simpl in *; lia. }
    { cbn [length] in *; lia. }
    exists s2, l2, x2. split; [done|].
    destruct (det_area _ _ _ _ HD a ltac:(left)) as (_ & _ & Hok & _ & Hov1 & Hov2).
    destruct (cut_facts _ Hok Hov1 Hov2) as (_ & _ & _ & _ & _ & Hcut).
    constructor; try done.
    + intros x w. rewrite R2, (fu_mapped _ _ _ _ _ _ _ _ _ HF), mapped_cons.
      change (ar (s <| map_count := map_count s - 1 |>)) with (ar s). specialize (Hcut x).
      rewrite (mapped_ext s s1 rl).
      2: { intros b Hb. pose proof (det_nodup _ _ _ _ HD) as Hnd. apply NoDup_cons in Hnd as [Hnd _].
           rewrite (fu_other _ _ _ _ _ _ _ _ _ HF); [done|by intros ->|].
           intros ->. destruct (det_extra _ _ _ _ HD) as [_ Hx]. apply Hx. by right. }
      rewrite (mapped_ext s (s <| map_count := _ |>) l) by done. tauto.
    + intros b Hb. apply R3, (fu_mem _ _ _ _ _ _ _ _ _ HF). done.
    + intros b Hb. destruct (R3' b (fu_keep _ _ _ _ _ _ _ _ _ HF b Hb)) as [? ->]. split; [done|].
      rewrite (fu_other _ _ _ _ _ _ _ _ _ HF); [done|..]; intros ->.
      * by destruct (det_area _ _ _ _ HD a ltac:(left)) as (_ & ? & _).
      * by destruct (det_extra _ _ _ _ HD).
    + intros b Hb. pose proof (Areas_nonzero _ _ _ R1 Hb) as Hb0.
      destruct (RS b Hb) as [H|[H|H]]; [|right; left; by right|].
      * destruct (fu_sub _ _ _ _ _ _ _ _ _ HF b H) as [?|[->|[? _]]]; [by left|right; left; left|tauto].
      * destruct (fu_extra _ _ _ _ _ _ _ _ _ HF) as [<-|[-> _]]; tauto.
    + by rewrite R5, (fu_cache _ _ _ _ _ _ _ _ _ HF).
    + intros H. apply R6. by eapply fixed_accounted.
    + destruct R7 as (-> & -> & -> & ->). apply (fu_rest _ _ _ _ _ _ _ _ _ HF).
Qed.
End Release.

(** ** Page tables *)

(** No area has an address in the range. *)
Definition unmapped (s : mm_struct) (l : list Z) (start end_ : Z) : Prop :=
  forall a, a ∈ l -> vm_end (ar s a) <= start \/ end_ <= vm_start (ar s a).

(** The entries of the page directory from [f] on and before [la] map no address of an area. *)
Definition tables_unused (s : mm_struct) (l : list Z) (f la : Z) : Prop :=
  forall a x, a ∈ l -> covers (ar s a) x -> pgd_index x < pgd_index f \/ pgd_index la <= pgd_index x.

Lemma pgd_index_lt x f : (PGDIR_SIZE | f) -> x < f -> pgd_index x < pgd_index f.
Proof.
  unfold pgd_index, PGDIR_SIZE, PGDIR_SHIFT. rewrite !Z.shiftr_div_pow2 by lia. change (1 .<< 20) with 1048576.
  change (2 ^ 20) with 1048576. intros [q ->] H. rewrite Z.div_mul by lia. apply Z.div_lt_upper_bound; lia.
Qed.
Lemma pgd_index_above x e : x < e -> pgd_index x < pgd_index (e + PGDIR_SIZE - 1).
Proof.
  unfold pgd_index, PGDIR_SIZE, PGDIR_SHIFT. rewrite !Z.shiftr_div_pow2 by lia. change (1 .<< 20) with 1048576.
  change (2 ^ 20) with 1048576. intros H. dm.
Qed.
Lemma pgd_index_le x y : x <= y -> pgd_index x <= pgd_index y.
Proof. unfold pgd_index, PGDIR_SHIFT. rewrite !Z.shiftr_div_pow2 by lia. intros. apply Z.div_le_mono; lia. Qed.

Section Pgtables.
Context (s : mm_struct) (l : list Z) (start end_ first : Z).
Hypothesis HM : Areas s l.
Hypothesis Hrange : 0 <= start /\ start < end_ /\ end_ <= TASK_SIZE.
Hypothesis Hfree : unmapped s l start end_.
Hypothesis Hfirst : (PGDIR_SIZE | first).

Lemma pgtables_loop_correct x prev y last fuel :
  l = x ++ prev :: y -> vm_end (ar s prev) <= start -> (length y < fuel)%nat ->
  exists f la, pgtables_loop fuel prev start first last s = Ok ((f, la), s) /\ tables_unused s l f la.
Proof using All.
  revert x prev y. induction fuel as [|fuel IH]; intros x prev y El Hprev Hfuel; [lia|].
  assert (Hp : prev ∈ l) by (rewrite El; set_solver). cbn [pgtables_loop].
  pose proof (mm_linked _ _ HM) as Hl. rewrite El in Hl. apply linked_next in Hl.
  rewrite (bindV _ _ _ (hd0 y) s) by (unfold next_get; by rewrite Hl).
  destruct (sorted_split _ _ HM _ _ _ El) as [Hx Hy]. rewrite Forall_forall in Hx, Hy.
  assert (Hlow : forall f, f = (if first <? vm_end (ar s prev) then u32 (vm_end (ar s prev) + PGDIR_SIZE - 1) else first) ->
    forall a z, a ∈ x ++ [prev] -> covers (ar s a) z -> pgd_index z < pgd_index f).
  { intros f -> a z Ha Hz. assert (Hza : z < vm_end (ar s prev)).
    { unfold covers in Hz. destruct (mm_areas _ _ HM prev Hp) as [_ Hok]. unfold area_ok in Hok.
      apply elem_of_app in Ha as [Ha| ->%list_elem_of_singleton]; [|lia]. specialize (Hx a Ha). unfold below in Hx. lia. }
    case_cmp; [|apply pgd_index_lt; [done|lia]].
    rewrite u32_id; [by apply pgd_index_above|]. destruct (mm_areas _ _ HM prev Hp) as [_ Hok].
    unfold area_ok, TASK_SIZE, PGDIR_SIZE, PGDIR_SHIFT in *. change (1 .<< 20) with 1048576. lia. }
  destruct y as [|n y].
  - change (truth (hd0 [])) with false. cbv iota. rewrite (bindV _ (mret 0) _ _ _ eq_refl). cbn [andb].
    erewrite bindV by (apply vma_get_ok; by apply HM). eexists _, _. split; [done|].
    intros a z Ha Hz. left. eapply Hlow; [done| |done]. by rewrite <- El.
  - cbn [hd0 hd]. assert (Hn : n ∈ l) by (rewrite El; set_solver).
    rewrite truth_nz by (by eapply Areas_nonzero). erewrite bindV by (apply vma_get_ok; by apply HM). cbn [andb].
    destruct (Z.ltb_spec (vm_start (ar s n)) start) as [Hlt|Hge].
    + apply (IH (x ++ [prev]) n y); [by rewrite <- app_assoc| |cbn [length] in *; lia].
      destruct (Hfree n Hn); lia.
    + erewrite bindV by (apply vma_get_ok; by apply HM). eexists _, _. split; [done|].
      intros a z Ha Hz. rewrite El in Ha. change (prev :: n :: y) with ([prev] ++ n :: y) in Ha.
      rewrite app_assoc in Ha. apply elem_of_app in Ha as [Ha|Ha]; [left; by eapply Hlow|right].
      apply pgd_index_le. unfold covers in Hz.
      assert (Hna : vm_start (ar s n) <= vm_start (ar s a)).
      { apply elem_of_cons in Ha as [->|Ha]; [lia|].
        assert (El2 : l = (x ++ [prev]) ++ n :: y) by (by rewrite <- app_assoc).
        destruct (sorted_split _ _ HM _ _ _ El2) as [_ Hny]. rewrite Forall_forall in Hny. specialize (Hny a Ha).
        destruct (mm_areas _ _ HM n Hn) as [_ Hok]. unfold below, area_ok in *. lia. }
      destruct (Z.ltb_spec (vm_start (ar s n)) last); lia.
Qed.

Lemma list_walk x prev y : l = x ++ prev :: y -> (length y < S (size (nodes (mm_rb s))))%nat.
Proof using HM.
  intros El. destruct (mm_tree _ _ HM) as (t & HT & _ & Hin). pose proof (walk_fuel _ _ _ HT) as H.
  rewrite Hin, El, length_app in H. cbn [length] in H. lia.
Qed.
End Pgtables.

Lemma first_aligned start : (PGDIR_SIZE | start .& Z.lnot (PGDIR_SIZE - 1)).
Proof.
  exists (start / PGDIR_SIZE). change PGDIR_SIZE with (2 ^ 20). change (2 ^ 20 - 1) with (Z.ones 20).
  rewrite <- Z.ldiff_land, Z.ldiff_ones_r by lia. rewrite Z.shiftl_mul_pow2, Z.shiftr_div_pow2 by lia. done.
Qed.

(** The tables that [free_pgtables] clears belong to no area. *)
Lemma free_pgtables_correct s l prev start end_ :
  Areas s l -> 0 <= start /\ start < end_ /\ end_ <= TASK_SIZE -> unmapped s l start end_ ->
  prev = 0 \/ (prev ∈ l /\ vm_end (ar s prev) <= start) ->
  exists s', free_pgtables prev start end_ s = Ok (tt, s') /\ quiet s s' /\
    (calls s' = calls s \/
     exists i n, calls s' = calls s ++ [Clear_page_tables i n] /\
       forall a x, a ∈ l -> covers (ar s a) x -> ~ (i <= pgd_index x < i + n)).
Proof.
  intros HM Hrange Hfree Hprev. unfold free_pgtables.
  set (first := start .& _). set (last := u32 _). pose proof (first_aligned start) as Hal. fold first in Hal.
  assert (Hwalk : forall p, p ∈ l -> vm_end (ar s p) <= start -> exists f la,
    walk (fun fuel => pgtables_loop fuel p start first last) s = Ok ((f, la), s) /\ tables_unused s l f la).
  { intros p Hp He. apply list_elem_of_split in Hp as (x & y & El).
    eapply pgtables_loop_correct; eauto. by eapply list_walk. }
  assert (Hsel : exists f la, (if truth prev then walk (fun fuel => pgtables_loop fuel prev start first last)
     else
       p ← mm_get mmap;
       if negb (truth p) then mret (first, last)
       else
         pe ← vma_get p vm_end;
         if start <? pe then
           ps ← vma_get p vm_start;
           mret (first, if ps <? last then ps else last)
         else walk (fun fuel => pgtables_loop fuel p start first last)) s = Ok ((f, la), s) /\ tables_unused s l f la).
  { destruct Hprev as [->|[Hp He]]; [|rewrite truth_nz by (by eapply Areas_nonzero); by apply Hwalk].
    change (truth 0) with false. cbv iota. rewrite (bindV _ (mm_get mmap) _ _ _ eq_refl).
    pose proof (linked_hd _ _ _ (mm_linked _ _ HM)) as Hm. rewrite Hm. destruct l as [|p l'].
    - exists first, last. split; [done|]. by intros a x Ha%elem_of_nil.
    - cbn [hd0 hd]. rewrite truth_nz by (eapply Areas_nonzero; [done|left]). cbn [negb].
      destruct (mm_areas _ _ HM p) as [Harea Hok]; [left|]. runV. case_cmp.
      + runV. eexists _, _. split; [done|]. intros a x Ha Hx. right. apply pgd_index_le. unfold covers in Hx.
        assert (Hpa : vm_start (ar s p) <= vm_start (ar s a)).
        { apply elem_of_cons in Ha as [->|Ha]; [lia|].
          destruct (sorted_split _ _ HM [] p l' eq_refl) as [_ Hs]. rewrite Forall_forall in Hs.
          specialize (Hs a Ha). unfold below, area_ok in *. lia. }
        destruct (Z.ltb_spec (vm_start (ar s p)) last); lia.
      + apply Hwalk; [left|done]. }
  destruct Hsel as (f & la & E & Hun). rewrite (bindV _ _ _ _ _ E). cbv beta iota.
  set (si := if pgd_index f <? FIRST_USER_PGD_NR then FIRST_USER_PGD_NR else pgd_index f).
  destruct (Z.ltb_spec si (pgd_index la)) as [Hlt|Hge]; cbn [whenV].
  - eexists. split; [done|]. split; [by destruct s|]. right. eexists _, _. split; [done|].
    intros a x Ha Hx. destruct (Hun a x Ha Hx) as [H|H]; [|lia].
    unfold si in *. destruct (Z.ltb_spec (pgd_index f) FIRST_USER_PGD_NR); lia.
  - exists s. split_and!; [done|done|by left].
Qed.

Lemma nodup_size (h : gmap Z rb_node) l : NoDup l -> (forall a, a ∈ l -> is_Some (h !! a)) -> (length l <= size h)%nat.
Proof.
  intros Hnd H. assert (Hsub : list_to_set l ⊆ (dom h : gset Z)).
  { intros a Ha. apply elem_of_list_to_set in Ha. apply elem_of_dom. auto. }
  apply subseteq_size in Hsub. rewrite size_list_to_set in Hsub by done. by rewrite <- size_dom.
Qed.

(** ** [do_munmap] *)

(** The areas that start before an address come first. *)
Lemma split_starts s l : Areas s l -> forall l1 l2 e, l = l1 ++ l2 ->
  exists lm l3, l2 = lm ++ l3 /\ (forall b, b ∈ lm -> vm_start (ar s b) < e) /\
    (forall b, b ∈ l3 -> e <= vm_start (ar s b)).
Proof.
  intros HM l1 l2 e El. revert l1 El. induction l2 as [|a l2 IH]; intros l1 El.
  - exists [], []. split_and!; [done|by intros b ?%elem_of_nil..].
  - destruct (Z.ltb_spec (vm_start (ar s a)) e) as [Hlt|Hge].
    + destruct (IH (l1 ++ [a])) as (lm & l3 & -> & H1 & H2); [by rewrite <- app_assoc|].
      exists (a :: lm), l3. split_and!; [done| |done]. intros b [->|Hb]%elem_of_cons; auto.
    + exists [], (a :: l2). split_and!; [done|by intros b ?%elem_of_nil|].
      destruct (sorted_split _ _ HM _ _ _ El) as [_ Hs]. rewrite Forall_forall in Hs.
      destruct (mm_areas _ _ HM a) as [_ Hok]; [rewrite El; set_solver|].
      intros b [->|Hb]%elem_of_cons; [done|]. specialize (Hs b Hb). unfold below, area_ok in *. lia.
Qed.

Definition bad_range (addr len : Z) : Prop :=
  ~ (PAGE_SIZE | addr) \/ TASK_SIZE < addr \/ TASK_SIZE - addr < len \/ len = 0.

(** What [do_munmap] achieves: the range is unmapped, and nothing else changes. *)
Record unmapped_range (s : mm_struct) (l : list Z) (addr end_ extra : Z) (s' : mm_struct) (l' : list Z) : Prop := {
  um_mm : Mm s' l';
  um_mapped : forall x w, mapped_as s' l' x w <-> mapped_as s l x w /\ ~ (addr <= x < end_);
  um_mem : mem_kept s s';
  um_sub : forall b, b ∈ l' -> b ∈ l \/ b = extra;
  um_total : accounted s l [] -> accounted s' l' [];
  um_rest : brk s' = brk s /\ end_code s' = end_code s /\ start_data s' = start_data s /\ def_flags s' = def_flags s
}.

Lemma nothing_unmapped s l addr end_ extra : Mm s l -> unmapped s l addr end_ -> unmapped_range s l addr end_ extra s l.
Proof using.
  clear max_map_count has_open has_close.
  intros HM Hun. constructor; try done; [|by intros a|tauto].
  intros x w. split; [|tauto]. intros (a & Ha & Hc & ->). split; [by exists a|].
  destruct (Hun a Ha); unfold covers in Hc; lia.
Qed.

Lemma unmapped_mapped s l addr end_ : Areas s l -> addr < end_ ->
  (forall x w, mapped_as s l x w -> ~ (addr <= x < end_)) -> unmapped s l addr end_.
Proof.
  intros HA Hlt Hmap a Ha. destruct (mm_areas _ _ HA a Ha) as [_ Hok]. unfold area_ok in Hok.
  destruct (Z.le_gt_cases (vm_end (ar s a)) addr) as [|H1]; [by left|].
  destruct (Z.le_gt_cases end_ (vm_start (ar s a))) as [|H2]; [by right|exfalso].
  assert (Hc : covers (ar s a) (Z.max addr (vm_start (ar s a)))) by (unfold covers; lia).
  apply (Hmap (Z.max addr (vm_start (ar s a))) (attr (ar s a) (Z.max addr (vm_start (ar s a))))); [by exists a|lia].
Qed.

Section Detach.
Context (s : mm_struct) (l1 lm l2 : list Z) (addr end_ extra : Z).
Hypothesis HM : Areas s (l1 ++ lm ++ l2).
Hypothesis Hcount : map_count s = Z.of_nat (length (l1 ++ lm ++ l2)).
Hypothesis Hrange : 0 <= addr /\ addr < end_ /\ end_ < 4294967296.
Hypothesis Hlow : forall b, b ∈ l1 -> vm_end (ar s b) <= addr.
Hypothesis Hlm : forall b, b ∈ lm -> vm_start (ar s b) < end_ /\ addr < vm_end (ar s b).
Hypothesis Hhigh : forall b, b ∈ l2 -> end_ <= vm_start (ar s b).
Hypothesis Hextra : area_mem s extra /\ (extra ∉ l1 ++ lm ++ l2).

(** After the first loop. *)
Lemma detached_now s1 : Areas s1 (l1 ++ l2) -> linked (vm_next s1) (hd0 (rev lm)) (rev lm) -> same_store s s1 ->
  detached addr end_ (s1 <| mmap_cache := 0 |>) (l1 ++ l2) (rev lm) extra.
Proof using All.
  intros HA Hlk (Hv & Hm & _ & Hc & _). pose proof (Areas_nodup _ _ HM) as Hnd.
  apply NoDup_app in Hnd as (_ & Hd1 & Hnd). apply NoDup_app in Hnd as (Hndm & Hd2 & _).
  assert (Hin : forall a, a ∈ rev lm <-> a ∈ lm) by (intros a; by rewrite !list_elem_of_In, <- in_rev).
  assert (Har : ar (s1 <| mmap_cache := 0 |>) = ar s) by (by apply (ar_ext s s1)).
  assert (Hpair : forall a b, a ∈ l1 ++ lm ++ l2 -> b ∈ l1 ++ lm ++ l2 -> a <> b -> below s a b \/ below s b a).
  { intros a b Ha Hb Hne. apply list_elem_of_split in Ha as (x & y & El).
    destruct (sorted_split _ _ HM _ _ _ El) as [Hx Hy]. rewrite Forall_forall in Hx, Hy.
    rewrite El in Hb. apply elem_of_app in Hb as [Hb|[->|Hb]%elem_of_cons]; [right; auto|done|left; auto]. }
  constructor; rewrite ?Har.
  - by apply (areas_ext s1).
  - exact Hlk.
  - eapply NoDup_Permutation_proper; [|exact Hndm]. symmetry. apply Permutation_rev.
  - intros a Ha%Hin. assert (Hal : a ∈ l1 ++ lm ++ l2) by set_solver.
    assert (Hout : a ∉ l1 ++ l2).
    { intros [H|H]%elem_of_app; [apply (Hd1 a H); set_solver|by apply (Hd2 a Ha)]. }
    destruct (mm_areas _ _ HM a Hal) as [Harea Hok].
    destruct (Hlm a Ha) as [? ?]. split_and!; try done.
    + apply Hm. pose proof (Areas_nonzero _ _ _ HM Hal). split_and!; [done|done| |].
      * apply list_elem_of_split in Hal as (x & y & El). pose proof (mm_linked _ _ HM) as Hl.
        rewrite El in Hl. apply linked_next in Hl. by eexists.
      * destruct (mm_tree _ _ HM) as (t & HT & _ & Hino). rewrite <- Hino in Hal.
        destruct (focus_exists _ _ Hal) as (k & c & tl & tr & ->).
        destruct (focus_holds _ _ _ _ HT) as (_ & Hcell & _). by eexists.
    + intros b Hb. unfold below. rewrite Har. apply Hpair; [set_solver|done|]. by intros ->.
  - intros a b Ha%Hin Hb%Hin Hne. unfold below. rewrite Har. apply Hpair; [set_solver..|done].
  - rewrite Hin. set_solver.
  - intros. apply Hm, Hextra.
  - change (map_count s1 = Z.of_nat (length (l1 ++ l2)) + Z.of_nat (length (rev lm))).
    rewrite Hc, Hcount, length_rev, !length_app. lia.
Qed.

Hypothesis Hal : (PAGE_SIZE | addr) /\ (PAGE_SIZE | end_).
Hypothesis Htask : end_ <= TASK_SIZE.

Lemma mapped_outside x w :
  mapped_as s (l1 ++ l2) x w \/ (mapped_as s (rev lm) x w /\ ~ (addr <= x < end_)) <->
  mapped_as s (l1 ++ lm ++ l2) x w /\ ~ (addr <= x < end_).
Proof using All.
  rewrite !mapped_app, (mapped_perm s (rev lm) lm) by (symmetry; apply Permutation_rev).
  assert (H1 : mapped_as s l1 x w -> ~ (addr <= x < end_)).
  { intros (a & Ha & Hc & _). specialize (Hlow a Ha). unfold covers in Hc. lia. }
  assert (H2 : mapped_as s l2 x w -> ~ (addr <= x < end_)).
  { intros (a & Ha & Hc & _). specialize (Hhigh a Ha). unfold covers in Hc. lia. }
  tauto.
Qed.

(** The state after the second loop. *)
Lemma released_facts s1 s3 l3 : same_store s s1 ->
  released addr end_ (s1 <| mmap_cache := 0 |>) (l1 ++ l2) (rev lm) extra s3 l3 ->
  unmapped_range s (l1 ++ lm ++ l2) addr end_ extra s3 l3 /\
  (last0 l1 = 0 \/ last0 l1 ∈ l3 /\ vm_end (ar s3 (last0 l1)) <= addr).
Proof using All.
  intros (Hv & Hm & (S1 & S2 & S3 & S4 & S5 & S6 & S7) & _) [R1 R2 R3 R3' RS R4 R5 R6 R7].
  set (s2 := s1 <| mmap_cache := 0 |>) in *. assert (Har : ar s2 = ar s) by (by apply (ar_ext s s1)).
  split; [constructor|].
  - constructor; [done|done|]. left. by rewrite R5.
  - intros x w. rewrite R2. rewrite !(mapped_ext s s2) by (intros; by rewrite Har). apply mapped_outside.
  - intros b Hb. apply R3. by apply Hm.
  - intros b Hb. destruct (RS b Hb) as [H|[H|H]]; [left; set_solver| |by right].
    left. apply list_elem_of_In, in_rev, list_elem_of_In in H. set_solver.
  - unfold accounted at 1. intros Ht. apply R6. unfold accounted. change (total_vm s2) with (total_vm s1).
    rewrite S5, Ht. rewrite !(bytes_ext s s2) by (intros; by rewrite Har).
    rewrite (bytes_perm s (rev lm) lm) by (symmetry; apply Permutation_rev).
    rewrite !bytes_app. cbn [bytes]. do 2 f_equal. lia.
  - destruct R7 as (-> & -> & -> & ->). done.
  - destruct (decide (l1 = [])) as [->|Hne]; [by left|right]. pose proof (last0_elem _ Hne) as Hlast.
    destruct (R3' (last0 l1)) as [H1 H2]; [set_solver|]. split; [done|]. rewrite H2, Har. by apply Hlow.
Qed.

(** The work of [do_munmap] once the areas are known. *)
Lemma munmap_work :
  exists s' l', (free ← walk (fun fuel => detach_loop fuel (last0 l1) (hd0 (lm ++ l2)) end_ 0);
      mm_set (fun s => s <| mmap_cache := 0 |>);;
      extra ← walk (fun fuel => release_loop fuel addr end_ free extra);
      whenV (truth extra) (call_out (Kmem_cache_free extra));;
      free_pgtables (last0 l1) addr end_;;
      mret 0) s = Ok (0, s') /\
    unmapped_range s (l1 ++ lm ++ l2) addr end_ extra s' l'.
Proof using All.
  assert (Hlen : (length lm < S (size (nodes (mm_rb s))))%nat).
  { destruct (mm_tree _ _ HM) as (t & HT & _ & Hin). pose proof (walk_fuel _ _ _ HT) as H.
    rewrite Hin, !length_app in H. lia. }
  destruct (detach_correct (S (size (nodes (mm_rb s)))) s l1 lm l2 end_ 0 [])
    as (s1 & E1 & HA1 & Hl1 & Hst); try done.
  { intros b Hb. by apply Hlm. }
  { intros Hne. apply Hhigh. by apply hd0_elem. }
  { by intros b Hb%elem_of_nil. }
  rewrite app_nil_r in E1, Hl1. rewrite (bindV _ (walk _) _ _ _ E1), (bindV _ (mm_set _) _ _ _ eq_refl).
  pose proof (detached_now s1 HA1 Hl1 Hst) as HD. set (s2 := s1 <| mmap_cache := 0 |>) in *.
  destruct (release_correct addr end_ Hrange Hal (rev lm) s2 (l1 ++ l2) extra (S (size (nodes (mm_rb s2)))) HD)
    as (s3 & l3 & x3 & E3 & HR).
  { apply Nat.lt_succ_r. apply nodup_size; [apply HD|]. intros a Ha. by apply (det_area _ _ _ _ _ _ HD). }
  { rewrite length_rev. pose proof (Areas_length _ _ HM) as H. rewrite !length_app in H. lia. }
  rewrite (bindV _ (walk _) _ _ _ E3). runQ s4 Q4.
  destruct (released_facts s1 s3 l3 Hst HR) as [[U1 U2 U3 US U4 U5] Hprev].
  pose proof (quiet_ar _ _ Q4) as Ear4.
  destruct (free_pgtables_correct s4 l3 (last0 l1) addr end_) as (s5 & E5 & Q5 & _).
  - apply (quiet_areas _ _ _ Q4), U1.
  - lia.
  - intros a Ha. rewrite Ear4. apply (unmapped_mapped s3 l3); [apply U1|lia| |done].
    intros x w Hxw. by apply U2 in Hxw as [_ ?].
  - by rewrite Ear4.
  - rewrite (bindV _ _ _ _ _ E5). exists s5, l3. split; [done|].
    assert (Q : quiet s3 s5) by (by transitivity s4). pose proof (quiet_ar _ _ Q) as Ear.
    pose proof (quiet_areas _ _ l3 Q (mm_ok _ _ U1)) as HA5. pose proof (quiet_mem _ _ Q) as Hm5.
    apply quiet_fields in Q as (T1 & T2 & T3 & T4 & T5 & T6 & T7 & T8 & T9 & T10 & T11).
    constructor.
    + constructor; [done|by rewrite T5; apply U1|rewrite T6; apply U1].
    + intros x w. by rewrite (mapped_ext s3 s5) by (intros; by rewrite Ear).
    + intros b Hb. auto.
    + done.
    + intros Ht. apply U4 in Ht. unfold accounted in *. rewrite T7.
      by rewrite !(bytes_ext s3 s5) by (intros; by rewrite Ear).
    + by rewrite T8, T9, T10, T11.
Qed.
End Detach.

(** The checks at the start of [do_munmap]. *)
Lemma check_range addr len : 0 <= addr < 4294967296 -> 0 <= len < 4294967296 ->
  if truth (addr .& Z.lnot PAGE_MASK) || (TASK_SIZE <? addr) || (u32 (TASK_SIZE - addr) <? len) || (PAGE_ALIGN len =? 0)
  then bad_range addr len
  else ~ bad_range addr len /\ (PAGE_SIZE | addr) /\ (PAGE_SIZE | PAGE_ALIGN len) /\
       0 < PAGE_ALIGN len /\ addr + PAGE_ALIGN len <= TASK_SIZE.
Proof.
  intros Ha Hl. unfold bad_range.
  destruct (truth (addr .& Z.lnot PAGE_MASK)) eqn:E1; cbn [orb].
  { left. intros H. apply page_aligned in H. congruence. }
  apply page_aligned in E1. destruct (Z.ltb_spec TASK_SIZE addr) as [|H1]; cbn [orb]; [by right; left|].
  rewrite (u32_id (TASK_SIZE - addr)) by (unfold TASK_SIZE in *; lia).
  destruct (Z.ltb_spec (TASK_SIZE - addr) len) as [|H2]; cbn [orb]; [by right; right; left|].
  destruct (PAGE_ALIGN_spec len) as [[q Hq] Hb]; [unfold TASK_SIZE in *; lia|]. rewrite Hq in *.
  destruct (Z.eqb_spec (q * PAGE_SIZE) 0) as [H0|H0].
  { right; right; right. unfold PAGE_SIZE in *. lia. }
  destruct E1 as [p Hp]. unfold TASK_SIZE, PAGE_SIZE in *. split_and!; [|by exists p|by exists q|lia|lia].
  intros [H|[H|[H|H]]]; [apply H; by exists p|lia..].
Qed.

Lemma do_munmap_correct s l addr len extra :
  Mm s l -> 0 <= addr < 4294967296 -> 0 <= len < 4294967296 ->
  extra = 0 \/ (area_mem s extra /\ extra ∉ l) ->
  exists ret s', do_munmap addr len extra s = Ok (ret, s') /\
    ((ret = - EINVAL /\ bad_range addr len /\ s' = s) \/
     (ret = - ENOMEM /\ ~ bad_range addr len /\ s' = s /\ (extra = 0 \/ max_map_count <= map_count s)) \/
     (ret = 0 /\ ~ bad_range addr len /\
      exists l', unmapped_range s l addr (addr + PAGE_ALIGN len) extra s' l')).
Proof.
  intros HM Ha Hl Hx. unfold do_munmap. pose proof (check_range addr len Ha Hl) as Hc.
  destruct (_ || (u32 (TASK_SIZE - addr) <? len)) eqn:E1; cbn [orb] in Hc.
  { eexists _, s. split; [done|]. by left. }
  destruct (PAGE_ALIGN len =? 0). { eexists _, s. split; [done|]. by left. }
  destruct Hc as (Hgood & Hal & Hal2 & Hpos & Htask).
  rewrite (u32_id (addr + PAGE_ALIGN len)) by (unfold TASK_SIZE in *; lia). set (end_ := addr + PAGE_ALIGN len) in *.
  pose proof (mm_ok _ _ HM) as HA.
  destruct (find_vma_prev_split s l addr HA) as (l1 & l2 & (El & Hlow & Hhigh) & E). rewrite (bindV _ _ _ _ _ E).
  rewrite Forall_forall in Hlow, Hhigh. unfold low, high in *.
  assert (Hnothing : (forall b, b ∈ l2 -> end_ <= vm_start (ar s b)) -> unmapped_range s l addr end_ extra s l).
  { intros H. apply nothing_unmapped; [done|]. intros b Hb. rewrite El in Hb.
    apply elem_of_app in Hb as [Hb|Hb]; [left|right]; auto. }
  destruct l2 as [|a l2].
  { change (truth (hd0 [])) with false. cbn [negb]. eexists _, s. split; [done|]. right; right.
    split_and!; [done|done|]. exists l. apply Hnothing. by intros b ?%elem_of_nil. }
  cbn [hd0 hd]. destruct (decide (a :: l2 = [])); [done|].
  assert (Hain : a ∈ l) by (rewrite El; set_solver).
  rewrite truth_nz by (by eapply Areas_nonzero). cbn [negb].
  pose proof (area_of _ _ HA _ Hain) as Harea. runV.
  destruct (Z.leb_spec end_ (vm_start (ar s a))) as [Hle|Hgt].
  { eexists _, s. split; [done|]. right; right. split_and!; [done|done|]. exists l. apply Hnothing.
    destruct (split_starts s l HA l1 (a :: l2) end_ El) as (lm & l3 & El2 & H1 & H2).
    destruct lm as [|a' lm]; [simpl in El2; by rewrite El2|]. injection El2 as -> _.
    specialize (H1 a' ltac:(left)). lia. }
  runV. rewrite (bindV _ (mm_get map_count) _ _ _ eq_refl).
  destruct (_ && (max_map_count <=? map_count s)) eqn:Em.
  { eexists _, s. split; [done|]. right; left. bool_hyps. split_and!; try done. right. lia. }
  destruct Hx as [->|[Hxm Hxl]].
  { eexists _, s. split; [done|]. right; left. split_and!; try done. by left. }
  pose proof Hxm as (Hx0 & _). rewrite truth_nz by done. cbn [negb].
  destruct (split_starts s l HA l1 (a :: l2) end_ El) as (lm & l3 & El2 & H1 & H2).
  destruct (munmap_work s l1 lm l3 addr end_ extra) as (s' & l' & E' & HU); rewrite <- ?El2, <- ?El; try done.
  - apply HM.
  - unfold TASK_SIZE in *. lia.
  - intros b Hb. split; [auto|]. apply Hhigh. rewrite El2. set_solver.
  - split; [done|]. by apply Z.divide_add_r.
  - rewrite <- El2 in E'. exists 0, s'. split; [done|]. right; right. split_and!; try done. exists l'. by rewrite <- El2, <- El in HU.
Qed.
End Munmap.

(** C17. [do_munmap] never faults and never loops, for any arguments of 32 bits. It returns [-EINVAL]
    exactly for a range that is not page aligned, empty or not one of the user's, and [-ENOMEM] only
    if a new area cannot be had; nothing changes then. Else it returns 0: no address of the range is
    mapped any more, every other address keeps its flags, its file and its page of the file (areas
    are cut at the borders, and one that encloses the range is split), the areas are again a sorted
    list with a matching red-black tree and count, and the pages are accounted for. *)
Theorem munmap_exact max_map_count has_open has_close s l addr len extra :
  Mm s l -> 0 <= addr < 4294967296 -> 0 <= len < 4294967296 ->
  extra = 0 \/ (area_mem s extra /\ extra ∉ l) ->
  exists ret s', do_munmap max_map_count has_open has_close addr len extra s = Ok (ret, s') /\
    ((ret = - EINVAL /\ bad_range addr len /\ s' = s) \/
     (ret = - ENOMEM /\ ~ bad_range addr len /\ s' = s /\ (extra = 0 \/ max_map_count <= map_count s)) \/
     (ret = 0 /\ ~ bad_range addr len /\
      exists l', unmapped_range s l addr (addr + PAGE_ALIGN len) extra s' l')).
Proof. apply do_munmap_correct. Qed.

(** The end of the data and the start of the heap go. *)
Lemma munmap_exact_witness :
  exists ret s', do_munmap 65536 (fun _ => false) (fun _ => false) 0xb000 8192 8 sample_mm = Ok (ret, s') /\
    ((ret = - EINVAL /\ bad_range 0xb000 8192 /\ s' = sample_mm) \/
     (ret = - ENOMEM /\ ~ bad_range 0xb000 8192 /\ s' = sample_mm /\ (8 = 0 \/ 65536 <= map_count sample_mm)) \/
     (ret = 0 /\ ~ bad_range 0xb000 8192 /\
      exists l', unmapped_range sample_mm sample_areas 0xb000 (0xb000 + PAGE_ALIGN 8192) 8 s' l')).
Proof.
  apply (munmap_exact 65536 (fun _ => false) (fun _ => false) sample_mm sample_areas 0xb000 8192 8).
  - exact sample_mm_ok.
  - lia.
  - lia.
  - right. apply sample_spare. by left.
Defined.

(** The page tables that [free_pgtables] clears when a range has been unmapped hold no entry
    for an address of an area that remains, also where the tables reach beyond the range. *)
Theorem free_pgtables_safe s l prev start end_ :
  Areas s l -> 0 <= start /\ start < end_ /\ end_ <= TASK_SIZE -> unmapped s l start end_ ->
  prev = 0 \/ (prev ∈ l /\ vm_end (ar s prev) <= start) ->
  exists s', free_pgtables prev start end_ s = Ok (tt, s') /\ quiet s s' /\
    (calls s' = calls s \/
     exists i n, calls s' = calls s ++ [Clear_page_tables i n] /\
       forall a x, a ∈ l -> covers (ar s a) x -> ~ (i <= pgd_index x < i + n)).
Proof. apply (free_pgtables_correct 0 (fun _ => false) (fun _ => false)). Qed.

Lemma free_pgtables_safe_witness :
  exists s', free_pgtables 3 0x100000 0x3f000000 sample_mm = Ok (tt, s') /\ quiet sample_mm s' /\
    (calls s' = calls sample_mm \/
     exists i n, calls s' = calls sample_mm ++ [Clear_page_tables i n] /\
       forall a x, a ∈ sample_areas -> covers (ar sample_mm a) x -> ~ (i <= pgd_index x < i + n)).
Proof.
  apply (free_pgtables_safe sample_mm sample_areas 3 0x100000 0x3f000000).
  - apply sample_mm_ok.
  - done.
  - unfold unmapped. apply (proj1 (Forall_forall _ _)). decide_now.
  - right. split; [decide_now|done].
Defined.
