(* ===== verification/Mmap.v ===== *)
(** Mapping: [do_mmap_pgoff], [get_unmapped_area], [do_brk] and [sys_brk] of mm/mmap.c.

    What the functions ask the rest of the kernel is a parameter: the fields of the files and their
    operations ([finfo]), the resource limits, the counters that [vm_enough_memory] adds up, and the
    results of the two allocations of an area ([extra] for [do_munmap], [new] for the mapping).
    Error codes are returned as the unsigned long that the C code returns.

    The theorems: a successful mapping gives exactly its range the new attributes and leaves all
    other addresses alone ([mmap_exact]); a free range that is chosen is free, aligned and inside of
    the user's addresses, and refused only if there is none ([unmapped_area_exact]); and [do_brk]
    lacks the check that the range is one of the user's ([brk_maps_kernel]). *)
From stdpp Require Import sorting.
From S2P Require Import Prelude Bootmem Rbtree Vma Munmap.

(** ** Constants *)
Definition PROT_READ : Z := 0x1.
Definition PROT_WRITE : Z := 0x2.
Definition PROT_EXEC : Z := 0x4.
Definition MAP_SHARED : Z := 0x01.
Definition MAP_PRIVATE : Z := 0x02.
Definition MAP_TYPE : Z := 0x0f.
Definition MAP_FIXED : Z := 0x10.
Definition MAP_GROWSDOWN : Z := 0x0100.
Definition MAP_DENYWRITE : Z := 0x0800.
Definition MAP_EXECUTABLE : Z := 0x1000.
Definition MAP_NORESERVE : Z := 0x4000.
Definition FMODE_READ : Z := 1.
Definition FMODE_WRITE : Z := 2.
Definition RLIM_INFINITY : Z := 0xffffffff.
Definition VM_DATA_DEFAULT_FLAGS : Z :=
  VM_READ .| VM_WRITE .| VM_EXEC .| VM_MAYREAD .| VM_MAYWRITE .| VM_MAYEXEC.

(** [protection_map], from the table of page protections of the ARM. *)
Definition PAGE_NONE : Z := 0x3.
Definition PAGE_COPY : Z := 0x1f.
Definition PAGE_SHARED : Z := 0x3f.
Definition PAGE_READONLY : Z := 0x1f.
Definition protection_map : list Z :=
  [PAGE_NONE; PAGE_READONLY; PAGE_COPY; PAGE_COPY; PAGE_READONLY; PAGE_READONLY; PAGE_COPY; PAGE_COPY;
   PAGE_NONE; PAGE_READONLY; PAGE_SHARED; PAGE_SHARED; PAGE_READONLY; PAGE_READONLY; PAGE_SHARED; PAGE_SHARED].

Definition trans (x bit1 bit2 : Z) : Z :=
  if bit1 =? bit2 then x .& bit1 else if truth (x .& bit1) then bit2 else 0.
Definition calc_vm_flags (prot flags : Z) : Z :=
  let prot_bits := trans prot PROT_READ VM_READ .| trans prot PROT_WRITE VM_WRITE .|
                   trans prot PROT_EXEC VM_EXEC in
  let flag_bits := trans flags MAP_GROWSDOWN VM_GROWSDOWN .| trans flags MAP_DENYWRITE VM_DENYWRITE .|
                   trans flags MAP_EXECUTABLE VM_EXECUTABLE in
  prot_bits .| flag_bits.

(** ** What the rest of the kernel answers *)

(** The counters of [vm_enough_memory]. *)
Record memory := {
  sysctl_overcommit_memory : Z;
  page_cache_size : Z;
  nr_free_pages : Z;
  nr_swap_pages : Z;
  swapper_pages : Z;
  unused_dentry_bytes : Z;
  unused_inode_bytes : Z
}.
Record limits := {
  rlim_data : Z;
  rlim_as : Z;
  rlim_memlock : Z;
  max_map_count : Z
}.
(** A file: its mode, whether its inode is append-only, the answer of [locks_verify_locked] and of
    [deny_write_access], and its operations: [mmap] returns an error and may change the area. *)
Record finfo := {
  f_mode : Z;
  f_append : bool;
  f_locked : Z;
  f_deny : Z;
  f_mmap : option (vm_area -> Z * vm_area);
  f_get_area : option (Z -> Z -> Z -> Z -> Z)
}.

Definition vm_enough_memory (g : memory) (pages : Z) : bool :=
  if truth (sysctl_overcommit_memory g) then true
  else
    let free := u32 (page_cache_size g + nr_free_pages g) in
    let free := u32 (free + nr_swap_pages g) in
    let free := u32 (free + swapper_pages g) in
    let free := u32 (free + (u32 (unused_dentry_bytes g) .>> PAGE_SHIFT)) in
    let free := u32 (free + (u32 (unused_inode_bytes g) .>> PAGE_SHIFT)) in
    u32 pages <? free.

Definition err (e : Z) : Z := u32 (- e).

(** ** Choosing an address *)
Fixpoint unmapped_loop (fuel : nat) (addr len vma : Z) : V Z :=
  match fuel with
  | O => BUG
  | S fuel =>
    if u32 (TASK_SIZE - len) <? addr then mret (err ENOMEM)
    else
      st ← (if truth vma then vma_get vma vm_start else mret 0);
      if negb (truth vma) || (u32 (addr + len) <=? st) then mret addr
      else
        e ← vma_get vma vm_end;
        n ← next_get vma;
        unmapped_loop fuel e len n
  end.

(** The address that the caller asks for, if the range there is free. *)
Definition hint_area (addr len : Z) : V (option Z) :=
  if truth addr then
    let addr := PAGE_ALIGN addr in
    vma ← find_vma addr;
    st ← (if truth vma then vma_get vma vm_start else mret 0);
    mret (if (addr <=? u32 (TASK_SIZE - len)) && (negb (truth vma) || (u32 (addr + len) <=? st))
          then Some addr else None)
  else mret None.

Definition arch_get_unmapped_area (addr len : Z) : V Z :=
  if TASK_SIZE <? len then mret (err ENOMEM)
  else
    hint ← hint_area addr len;
    match hint with
    | Some addr => mret addr
    | None =>
      let addr := PAGE_ALIGN TASK_UNMAPPED_BASE in
      vma ← find_vma addr;
      walk (fun fuel => unmapped_loop fuel addr len vma)
    end.

(** ** A free range *)
Section Search.
Context (s : mm_struct) (l : list Z) (len : Z).
Hypothesis HA : Areas s l.
Hypothesis Hlen : 0 < len <= TASK_SIZE.

(** The areas from the first one on that does not start before the end of the range. *)
Lemma free_above l1 l2 addr : l = l1 ++ l2 -> (forall b, b ∈ l1 -> vm_end (ar s b) <= addr) ->
  l2 = [] \/ addr + len <= vm_start (ar s (hd0 l2)) -> unmapped s l addr (addr + len).
Proof using HA.
  clear Hlen. intros El Hlow Hfirst b Hb. rewrite El in Hb. apply elem_of_app in Hb as [Hb|Hb]; [left; auto|right].
  destruct l2 as [|a l2]; [by apply elem_of_nil in Hb|]. destruct Hfirst as [|Hfirst]; [done|]. cbn [hd0 hd] in Hfirst.
  apply elem_of_cons in Hb as [->|Hb]; [done|].
  destruct (sorted_split _ _ HA _ _ _ El) as [_ Hs]. rewrite Forall_forall in Hs. specialize (Hs b Hb).
  destruct (mm_areas _ _ HA a) as [_ Hok]; [rewrite El; set_solver|]. unfold below, area_ok in *. lia.
Qed.

(** The test of the range against the next area. *)
Lemma gap_test l1 l2 addr : l = l1 ++ l2 -> 0 <= addr <= TASK_SIZE - len ->
  exists st, (if truth (hd0 l2) then vma_get (hd0 l2) vm_start else mret 0) s = Ok (st, s) /\
    (negb (truth (hd0 l2)) || (u32 (addr + len) <=? st)) =
    bool_decide ((l2 = []) \/ addr + len <= vm_start (ar s (hd0 l2))).
Proof using HA Hlen.
  intros El Hr. rewrite (u32_id (addr + len)) by (unfold TASK_SIZE in *; lia).
  destruct l2 as [|a l2]; [exists 0; split; [done|]; rewrite bool_decide_eq_true_2; [done|by left]|].
  cbn [hd0 hd]. assert (Ha : a ∈ l) by (rewrite El; set_solver).
  rewrite truth_nz by (by eapply Areas_nonzero). eexists. split; [apply vma_get_ok; by apply HA|]. cbn [negb orb].
  case_cmp; [rewrite bool_decide_eq_true_2; [done|by right]|].
  rewrite bool_decide_eq_false_2; [done|]. intros [?|?]; [done|lia].
Qed.

Definition no_room (lo hi : Z) : Prop := forall b, lo <= b < hi -> ~ unmapped s l b (b + len).

Lemma unmapped_loop_correct base fuel l1 l2 addr :
  l = l1 ++ l2 -> (length l2 < fuel)%nat -> 0 <= base <= addr -> (PAGE_SIZE | addr) ->
  (forall b, b ∈ l1 -> vm_end (ar s b) <= addr) -> no_room base addr ->
  (l2 <> [] -> addr < vm_end (ar s (hd0 l2))) ->
  exists r, unmapped_loop fuel addr len (hd0 l2) s = Ok (r, s) /\
    ((base <= r /\ r + len <= TASK_SIZE /\ (PAGE_SIZE | r) /\ unmapped s l r (r + len) /\ no_room base r) \/
     (r = err ENOMEM /\ no_room base (TASK_SIZE - len + 1))).
Proof using HA Hlen.
  revert l1 l2 addr. induction fuel as [|fuel IH]; intros l1 l2 addr El Hf Hb Hal Hlow Hno Hhi; [lia|].
  cbn [unmapped_loop]. rewrite (u32_id (TASK_SIZE - len)) by (unfold TASK_SIZE in *; lia).
  destruct (Z.ltb_spec (TASK_SIZE - len) addr) as [Hend|Hend].
  { eexists. split; [done|]. right. split; [done|]. intros b Hbr. apply Hno. lia. }
  destruct (gap_test l1 l2 addr El) as (st & Est & Et); [lia|]. rewrite (bindV _ _ _ _ _ Est), Et.
  case_bool_decide as Hgap.
  { exists addr. split; [done|]. left. split_and!; try done; try lia. by apply (free_above l1 l2). }
  destruct l2 as [|a l2]; [tauto|]. cbn [hd0 hd] in *. specialize (Hhi ltac:(done)).
  assert (Ha : a ∈ l) by (rewrite El; set_solver). destruct (mm_areas _ _ HA a Ha) as [Harea Hok].
  rewrite (bindV _ _ _ _ _ (vma_get_ok _ _ _ Harea)).
  pose proof (mm_linked _ _ HA) as Hl. rewrite El in Hl. apply linked_next in Hl.
  rewrite (bindV _ _ _ (hd0 l2) s) by (unfold next_get; by rewrite Hl).
  destruct (sorted_split _ _ HA _ _ _ El) as [_ Hs]. rewrite Forall_forall in Hs.
  apply (IH (l1 ++ [a])); [by rewrite <- app_assoc|simpl in Hf; lia|lia|apply Hok| | |].
  - intros b [Hb1|Hb1]%elem_of_app; [specialize (Hlow b Hb1); lia|]. apply list_elem_of_singleton in Hb1 as ->. lia.
  - intros b Hbr Hun. destruct (Z.lt_ge_cases b addr); [apply (Hno b); [lia|done]|].
    destruct (Hun a Ha); [lia|]. apply Hgap. right. lia.
  - intros Hne. destruct l2 as [|c l2]; [done|]. specialize (Hs c ltac:(left)).
    destruct (mm_areas _ _ HA c) as [_ Hokc]; [rewrite El; set_solver|]. unfold below, area_ok in *. simpl. lia.
Qed.
End Search.

(** ** The choice of [arch_get_unmapped_area] *)
Lemma PAGE_ALIGN_range x : 0 <= PAGE_ALIGN x < 4294967296 /\ (PAGE_SIZE | PAGE_ALIGN x).
Proof.
  unfold PAGE_ALIGN. rewrite page_mask. set (y := u32 _). assert (0 <= y < 4294967296) by (apply Z.mod_pos_bound; lia).
  split; [|by exists (y / PAGE_SIZE)]. unfold PAGE_SIZE.
  pose proof (Z.mul_div_le y 4096). pose proof (Z.div_pos y 4096). lia.
Qed.

(** The range at the address that was asked for is free. *)
Definition hinted (s : mm_struct) (l : list Z) (addr len : Z) : Prop :=
  addr <> 0 /\ PAGE_ALIGN addr + len <= TASK_SIZE /\ unmapped s l (PAGE_ALIGN addr) (PAGE_ALIGN addr + len).

(** The range that was asked for, or the first that is free, or none is free. *)
Definition chosen (s : mm_struct) (l : list Z) (addr len r : Z) : Prop :=
  (0 <= r /\ r + len <= TASK_SIZE /\ (PAGE_SIZE | r) /\ unmapped s l r (r + len) /\
   (hinted s l addr len -> r = PAGE_ALIGN addr) /\
   (~ hinted s l addr len -> TASK_UNMAPPED_BASE <= r /\ no_room s l len TASK_UNMAPPED_BASE r)) \/
  (r = err ENOMEM /\ ~ hinted s l addr len /\ no_room s l len TASK_UNMAPPED_BASE (TASK_SIZE - len + 1)).

(** Only the cache differs. *)
Definition cached (s s' : mm_struct) : Prop := s' = s <| mmap_cache := mmap_cache s' |>.
Lemma cached_ar s s' : cached s s' -> ar s' = ar s.
Proof. intros ->. by destruct s. Qed.
Lemma cached_trans s1 s2 s3 : cached s1 s2 -> cached s2 s3 -> cached s1 s3.
Proof. unfold cached. intros -> ->. by destruct s1. Qed.

Lemma hint_area_correct s l addr len : Mm s l -> 0 < len <= TASK_SIZE ->
  exists h s', hint_area addr len s = Ok (h, s') /\ cached s s' /\ Mm s' l /\
    ((h = Some (PAGE_ALIGN addr) /\ hinted s l addr len) \/ (h = None /\ ~ hinted s l addr len)).
Proof.
  intros HM Hlen. unfold hint_area. destruct (PAGE_ALIGN_range addr) as [Hpr Hpa].
  unfold hinted. destruct (Z.eqb_spec addr 0) as [->|Hne].
  { exists None, s. split_and!; [done|by destruct s|done|]. right. tauto. }
  rewrite truth_nz by done. cbv zeta. set (p := PAGE_ALIGN addr) in *.
  destruct (find_vma_split s l p HM) as (l1 & l2 & s1 & (El & Hlow & Hhigh) & E & Hc & HM1).
  rewrite (bindV _ _ _ _ _ E). rewrite (u32_id (TASK_SIZE - len)) by (unfold TASK_SIZE in *; lia).
  pose proof (cached_ar _ _ Hc) as Ear. rewrite Forall_forall in Hlow, Hhigh. unfold low, high in *.
  destruct (Z.leb_spec p (TASK_SIZE - len)) as [Hle|Hgt]; cbn [andb].
  2: { destruct (gap_test s1 l len (mm_ok _ _ HM1) ltac:(lia) l1 l2 0 El ltac:(lia)) as (st & Est & _).
       rewrite (bindV _ _ _ _ _ Est). exists None, s1. split_and!; [done..|]. right. split; [done|]. lia. }
  destruct (gap_test s1 l len (mm_ok _ _ HM1) ltac:(lia) l1 l2 p El ltac:(lia)) as (st & Est & Et).
  rewrite (bindV _ _ _ _ _ Est), Et, Ear. clear Et. case_bool_decide as Hgap; [exists (Some p), s1|exists None, s1]; (split_and!; [done..|]); [left|right].
  - split_and!; [done|done|lia|]. apply (free_above s l len (mm_ok _ _ HM) l1 l2); done.
  - split; [done|]. intros (_ & _ & Hun). apply Hgap. destruct l2 as [|a l2]; [by left|right].
    cbn [hd0 hd]. specialize (Hhigh a ltac:(left)). destruct (Hun a); [rewrite El; set_solver|lia|done].
Qed.

Lemma arch_area_correct s l addr len : Mm s l -> 0 < len ->
  exists r s', arch_get_unmapped_area addr len s = Ok (r, s') /\ cached s s' /\ Mm s' l /\ chosen s l addr len r.
Proof.
  intros HM Hlen. unfold arch_get_unmapped_area.
  assert (Hbase : TASK_UNMAPPED_BASE = 1073741824) by done. destruct (PAGE_ALIGN_range addr) as [Hpr Hpa].
  destruct (Z.ltb_spec TASK_SIZE len) as [Hbig|Hsmall].
  { eexists _, s. split_and!; [done|by destruct s|done|]. right. split_and!; [done| |].
    - intros (_ & H & _). lia.
    - intros b Hb. unfold TASK_SIZE in *. lia. }
  destruct (hint_area_correct s l addr len HM ltac:(lia)) as (h & s1 & E & Hc & HM1 & Hh). rewrite (bindV _ _ _ _ _ E). clear E.
  pose proof (cached_ar _ _ Hc) as Ear.
  destruct Hh as [[-> Hh]|[-> Hh]].
  { exists (PAGE_ALIGN addr), s1. split_and!; try done. left. split_and!; try tauto; try lia; apply Hh. }
  change (PAGE_ALIGN TASK_UNMAPPED_BASE) with TASK_UNMAPPED_BASE. cbv zeta.
  destruct (find_vma_split s1 l TASK_UNMAPPED_BASE HM1) as (l1 & l2 & s2 & (El & Hlow & Hhigh) & E & Hc2 & HM2).
  rewrite (bindV _ _ _ _ _ E). pose proof (cached_ar _ _ Hc2) as Ear2.
  rewrite Forall_forall in Hlow, Hhigh. unfold low, high in *.
  destruct (mm_tree _ _ (mm_ok _ _ HM2)) as (t & HT & _ & Hin). pose proof (walk_fuel _ _ _ HT) as Hf.
  destruct (unmapped_loop_correct s2 l len (mm_ok _ _ HM2) ltac:(lia) TASK_UNMAPPED_BASE (S (size (nodes (mm_rb s2)))) l1 l2 TASK_UNMAPPED_BASE)
    as (r & Er & Hr); try done.
  - rewrite Hin, El, length_app in Hf. lia.
  - by exists 262144.
  - rewrite Ear2. auto.
  - intros b Hb. lia.
  - intros Hne. rewrite Ear2. apply Hhigh. by apply hd0_elem.
  - exists r, s2. split_and!; [exact Er|by eapply cached_trans|done|].
    assert (Hun : forall a b, unmapped s2 l a b <-> unmapped s l a b) by (intros; unfold unmapped; by rewrite Ear2, Ear).
    assert (Hno : forall a b, no_room s2 l len a b -> no_room s l len a b) by (intros a b H c Hc'; rewrite <- Hun; by apply H).
    destruct Hr as [(H1 & H2 & H3 & H4%Hun & H5)|[-> H1]]; [left|right].
    + split_and!; try done; try tauto; try (intros; split; auto). unfold TASK_SIZE in *. lia.
    + split_and!; auto.
Qed.

Section Mmap.
  Context (g : memory) (lim : limits) (files : Z -> finfo) (has_open has_close : Z -> bool).
  (** The file that [shmem_zero_setup] makes, or a negative error, and its operations. *)
  Context (shmem_file shmem_vm_ops : Z).

Definition munmap_of (addr len extra : Z) : V Z :=
  do_munmap (max_map_count lim) has_open has_close addr len extra.

Definition get_unmapped_area (file addr len pgoff flags : Z) : V Z :=
  if truth (flags .& MAP_FIXED) then
    if u32 (TASK_SIZE - len) <? addr then mret (err ENOMEM)
    else if truth (addr .& Z.lnot PAGE_MASK) then mret (err EINVAL)
    else mret addr
  else
    match (if truth file then f_get_area (files file) else None) with
    | Some f => mret (f addr len pgoff flags)
    | None => arch_get_unmapped_area addr len
    end.

(** ** Mapping *)

(** The label [munmap_back]: old mappings of the range are removed; [None] if that fails. *)
Fixpoint munmap_back (fuel : nat) (addr len extra : Z) : V (option place) :=
  match fuel with
  | O => BUG
  | S fuel =>
    p ← find_vma_prepare addr;
    match p with
    | Covered v | Place v _ _ _ =>
      st ← (if truth v then vma_get v vm_start else mret 0);
      if truth v && (st <? u32 (addr + len)) then
        r ← munmap_of addr len extra;
        if truth r then mret None else munmap_back fuel addr len extra
      else mret (Some p)
    end
  end.

(** The flags for the kind of mapping, or an error. *)
Definition map_flags (file prot flags vm_flags : Z) : Z + Z :=
  let type := flags .& MAP_TYPE in
  if truth file then
    let f := files file in
    let read_ok (vm_flags : Z) : Z + Z :=
      if negb (truth (f_mode f .& FMODE_READ)) then inr EACCES else inl vm_flags in
    if type =? MAP_SHARED then
      if truth (prot .& PROT_WRITE) && negb (truth (f_mode f .& FMODE_WRITE)) then inr EACCES
      else if f_append f && truth (f_mode f .& FMODE_WRITE) then inr EACCES
      else if truth (f_locked f) then inr EAGAIN
      else
        let vm_flags := vm_flags .| VM_SHARED .| VM_MAYSHARE in
        read_ok (if negb (truth (f_mode f .& FMODE_WRITE))
                 then vm_flags .& Z.lnot (VM_MAYWRITE .| VM_SHARED) else vm_flags)
    else if type =? MAP_PRIVATE then read_ok vm_flags
    else inr EINVAL
  else
    let vm_flags := vm_flags .| VM_SHARED .| VM_MAYSHARE in
    if type =? MAP_PRIVATE then inl (vm_flags .& Z.lnot (VM_SHARED .| VM_MAYSHARE))
    else if type =? MAP_SHARED then inl vm_flags
    else inr EINVAL.

Definition locked_too_much (vm_flags len : Z) : V bool :=
  locked ← mm_get locked_vm;
  mret (truth (vm_flags .& VM_LOCKED) && (rlim_memlock lim <? u32 (u32 (locked .<< PAGE_SHIFT) + len))).
Definition too_big (len : Z) : V bool :=
  total ← mm_get total_vm;
  mret (rlim_as lim <? u32 (u32 (total .<< PAGE_SHIFT) + len)).

(** The end of a mapping, at the label [out]. *)
Definition mapped_out (addr len vm_flags : Z) : V Z :=
  mm_set (fun s => s <| total_vm := u32 (total_vm s + (len .>> PAGE_SHIFT)) |>);;
  whenV (truth (vm_flags .& VM_LOCKED))
    (mm_set (fun s => s <| locked_vm := u32 (locked_vm s + (len .>> PAGE_SHIFT)) |>);;
     call_out (Make_pages_present addr (u32 (addr + len))));;
  mret addr.

(** The object that is mapped: the file's operation, or a shared memory file for a shared anonymous
    mapping. The result is an error and whether the write count is to be corrected. *)
Definition map_object (file vma flags vm_flags : Z) : V (Z * bool) :=
  if truth file then
    if truth (vm_flags .& (VM_GROWSDOWN .| VM_GROWSUP)) then
      call_out (Kmem_cache_free vma);; mret (- EINVAL, false)
    else
      let deny := truth (vm_flags .& VM_DENYWRITE) in
      if deny && truth (f_deny (files file)) then
        call_out (Kmem_cache_free vma);; mret (f_deny (files file), false)
      else
        whenV deny (call_out (Writecount_dec file));;
        vma_set vma (fun v => v <| vm_file := file |>);;
        call_out (Get_file file);;
        v ← vma_get vma id;
        match f_mmap (files file) with
        | None => BUG
        | Some op =>
          let '(error, v') := op v in
          vma_set vma (fun _ => v');;
          if truth error then
            whenV deny (call_out (Writecount_inc file));;
            vma_set vma (fun v => v <| vm_file := 0 |>);;
            call_out (Fput file);;
            st ← vma_get vma vm_start;
            e ← vma_get vma vm_end;
            call_out (Zap_page_range st (u32 (e - st)));;
            call_out (Kmem_cache_free vma);;
            mret (error, false)
          else mret (0, deny)
        end
  else if truth (flags .& MAP_SHARED) then
    if shmem_file <? 0 then call_out (Kmem_cache_free vma);; mret (shmem_file, false)
    else
      vma_set vma (fun v => v <| vm_file := shmem_file |> <| vm_ops := shmem_vm_ops |>);;
      mret (0, false)
  else mret (0, false).

(** A new area is made and linked in at the place [p]. *)
Definition map_new (file addr len flags pgoff vm_flags : Z) (p : place) (new : Z) : V Z :=
  if negb (truth new) then mret (err ENOMEM)
  else
    let vma := new in
    vma_set vma (fun _ => mk_vm_area addr (u32 (addr + len)) (get protection_map (vm_flags .& 0xf))
                            vm_flags 0 pgoff 0 0 0);;
    '(error, correct_wcount) ← map_object file vma flags vm_flags;
    if truth error then mret (u32 error)
    else
      st ← vma_get vma vm_start;
      '(addr, p) ←
        (if addr =? st then mret (addr, p)
         else
           q ← find_vma_prepare st;
           match q with
           | Covered v | Place v _ _ _ =>
             vst ← (if truth v then vma_get v vm_start else mret 0);
             e ← vma_get vma vm_end;
             if truth v && (vst <? e) then BUG else mret (st, q)
           end);
      match p with
      | Covered _ => BUG
      | Place _ prev rb_link rb_parent =>
        vma_link vma prev rb_link rb_parent;;
        whenV correct_wcount (call_out (Writecount_inc file));;
        mapped_out addr len vm_flags
      end.

(** From the label [munmap_back] on. *)
Definition map_room (file addr len flags pgoff vm_flags extra new : Z) : V Z :=
  p ← munmap_back 2 addr len extra;
  match p with
  | None => mret (err ENOMEM)
  | Some p =>
    big ← too_big len;
    if big : bool then mret (err ENOMEM)
    else if (vm_flags .& (VM_SHARED .| VM_WRITE) =? VM_WRITE) && negb (truth (flags .& MAP_NORESERVE)) &&
            negb (vm_enough_memory g (len .>> PAGE_SHIFT)) then mret (err ENOMEM)
    else
      merged ←
        match p with
        | Covered _ => BUG
        | Place _ prev _ rb_parent =>
          if negb (truth file) && negb (truth (vm_flags .& VM_SHARED)) && truth rb_parent
          then vma_merge prev rb_parent addr (u32 (addr + len)) vm_flags else mret false
        end;
      if merged : bool then mapped_out addr len vm_flags
      else map_new file addr len flags pgoff vm_flags p new
  end.

Definition do_mmap_pgoff (file addr len prot flags pgoff extra new : Z) : V Z :=
  if truth file && negb (bool_decide (is_Some (f_mmap (files file)))) then mret (err ENODEV)
  else
  let len := PAGE_ALIGN len in
  if len =? 0 then mret addr
  else if TASK_SIZE <? len then mret (err EINVAL)
  else if u32 (pgoff + (len .>> PAGE_SHIFT)) <? pgoff then mret (err EINVAL)
  else
  count ← mm_get map_count;
  if max_map_count lim <? count then mret (err ENOMEM)
  else
  addr ← get_unmapped_area file addr len pgoff flags;
  if truth (addr .& Z.lnot PAGE_MASK) then mret addr
  else
  def ← mm_get def_flags;
  let vm_flags := calc_vm_flags prot flags .| def .| VM_MAYREAD .| VM_MAYWRITE .| VM_MAYEXEC in
  locked ← locked_too_much vm_flags len;
  if locked : bool then mret (err EAGAIN)
  else
  match map_flags file prot flags vm_flags with
  | inr e => mret (err e)
  | inl vm_flags => map_room file addr len flags pgoff vm_flags extra new
  end.

(** ** The heap *)
(** A new area for the heap. *)
Definition brk_new (addr len flags prev : Z) (rb_link : link) (rb_parent new : Z) : V Z :=
  if negb (truth new) then mret (err ENOMEM)
  else
    vma_set new (fun v => mk_vm_area addr (u32 (addr + len)) (get protection_map (flags .& 0xf))
                            flags 0 0 0 (vm_raend v) 0);;
    vma_link new prev rb_link rb_parent;;
    mapped_out addr len flags.

Definition do_brk (addr len extra new : Z) : V Z :=
  let len := PAGE_ALIGN len in
  if len =? 0 then mret addr
  else
  def ← mm_get def_flags;
  locked ← locked_too_much def len;
  if locked : bool then mret (err EAGAIN)
  else
  p ← munmap_back 2 addr len extra;
  match p with
  | None => mret (err ENOMEM)
  | Some p =>
    big ← too_big len;
    count ← mm_get map_count;
    if (big : bool) || (max_map_count lim <? count) || negb (vm_enough_memory g (len .>> PAGE_SHIFT))
    then mret (err ENOMEM)
    else
      let flags := VM_DATA_DEFAULT_FLAGS .| def in
      match p with
      | Covered _ => BUG
      | Place _ prev rb_link rb_parent =>
        merged ← (if truth rb_parent then vma_merge prev rb_parent addr (u32 (addr + len)) flags else mret false);
        if merged : bool then mapped_out addr len flags
        else brk_new addr len flags prev rb_link rb_parent new
      end
  end.

(** The labels [out] and [set_brk] of [sys_brk]. *)
Definition brk_out : V Z := mm_get brk.
Definition set_brk (new_brk : Z) : V Z := mm_set (fun s => s <| brk := new_brk |>);; brk_out.

(** The heap shrinks. *)
Definition brk_shrink (new_brk newbrk oldbrk extra : Z) : V Z :=
  r ← munmap_of newbrk (u32 (oldbrk - newbrk)) extra;
  if negb (truth r) then set_brk new_brk else brk_out.

(** The heap grows. *)
Definition brk_grow (new_brk newbrk oldbrk extra new : Z) : V Z :=
  sd ← mm_get start_data;
  if (rlim_data lim <? RLIM_INFINITY) && (rlim_data lim <? u32 (new_brk - sd)) then brk_out
  else
  v ← find_vma_intersection oldbrk (u32 (newbrk + PAGE_SIZE));
  if truth v then brk_out
  else if negb (vm_enough_memory g (u32 (newbrk - oldbrk) .>> PAGE_SHIFT)) then brk_out
  else
  r ← do_brk oldbrk (u32 (newbrk - oldbrk)) extra new;
  if negb (r =? oldbrk) then brk_out else set_brk new_brk.

Definition sys_brk (new_brk extra new : Z) : V Z :=
  ec ← mm_get end_code;
  if new_brk <? ec then brk_out
  else
  let newbrk := PAGE_ALIGN new_brk in
  old ← mm_get brk;
  let oldbrk := PAGE_ALIGN old in
  if oldbrk =? newbrk then set_brk new_brk
  else if new_brk <=? old then brk_shrink new_brk newbrk oldbrk extra
  else brk_grow new_brk newbrk oldbrk extra new.

(** ** Making room *)

(** The place of a free range: the areas [before k] end before it and the areas [after k] start
    after it. *)
Record free_place (s : mm_struct) (l : list Z) (addr end_ : Z) (k : list frame) : Prop := {
  fp_list : l = before k ++ after k;
  fp_tree : Tree (nodes (mm_rb s)) (mm_rb s) (plug k Leaf);
  fp_rb : rb_tree (plug k Leaf);
  fp_low : forall b, b ∈ before k -> vm_end (ar s b) <= addr;
  fp_high : forall b, b ∈ after k -> end_ <= vm_start (ar s b)
}.
Definition place_of (k : list frame) : place := Place (hd0 (after k)) (last0 (before k)) (link_of k) (top k).

(** Whether the first area after the address overlaps the range. *)
Lemma overlap_test s l v end_ : Areas s l -> v = 0 \/ v ∈ l ->
  exists st, (if truth v then vma_get v vm_start else mret 0) s = Ok (st, s) /\
    (truth v && (st <? end_)) = bool_decide (v ∈ l /\ vm_start (ar s v) < end_).
Proof.
  intros HM Hv. destruct (decide (v ∈ l)) as [Hin|Hout].
  - rewrite truth_nz by (by eapply Areas_nonzero). eexists. split; [apply vma_get_ok; by apply HM|]. cbn [andb].
    case_cmp; [by rewrite bool_decide_eq_true_2|rewrite bool_decide_eq_false_2; [done|lia]].
  - destruct Hv as [->|]; [|done]. exists 0. split; [done|]. rewrite bool_decide_eq_false_2; [done|tauto].
Qed.

Lemma hd0_cases (l l' : list Z) : (forall a, a ∈ l' -> a ∈ l) -> hd0 l' = 0 \/ hd0 l' ∈ l.
Proof. intros H. destruct l' as [|a l']; [by left|right]. apply H. left. Qed.

Section Room.
Context (addr len extra : Z).
Hypothesis Hrange : 0 <= addr /\ 0 < len /\ addr + len <= TASK_SIZE.
Hypothesis Hal : (PAGE_SIZE | addr) /\ (PAGE_SIZE | len).

Lemma not_bad : ~ bad_range addr len.
Proof using All. unfold bad_range. intros [H|[H|[H|H]]]; [by apply H, Hal|lia..]. Qed.

(** The test of [munmap_back], and what it says. *)
Lemma prepare_test s l : Areas s l ->
  exists p v st, find_vma_prepare addr s = Ok (p, s) /\ (p = Covered v \/ exists a b c, p = Place v a b c) /\
    (if truth v then vma_get v vm_start else mret 0) s = Ok (st, s) /\
    if truth v && (st <? u32 (addr + len)) then exists a, a ∈ l /\ vm_start (ar s a) < addr + len /\ addr < vm_end (ar s a)
    else exists k, p = place_of k /\ free_place s l addr (addr + len) k.
Proof using All.
  intros HM. rewrite (u32_id (addr + len)) by (unfold TASK_SIZE in *; lia).
  destruct (prepare_correct s l addr HM) as (p & E & [(a & l1 & l2 & -> & (El & _ & Hh) & Ha)|(k & -> & HT & Hrb & El & Hlow & Hab)]).
  - assert (Hin : a ∈ l) by (rewrite El; set_solver).
    destruct (overlap_test s l a (addr + len) HM (or_intror Hin)) as (st & Est & Et).
    exists (Covered a), a, st. split_and!; [done|by left|done|]. rewrite Et.
    rewrite bool_decide_eq_true_2 by (split; [done|]; lia). exists a.
    apply Forall_cons in Hh as [Hh _]. unfold high in Hh. split_and!; [done|lia|done].
  - destruct (overlap_test s l (hd0 (after k)) (addr + len) HM) as (st & Est & Et).
    { apply hd0_cases. rewrite El. set_solver. }
    exists (place_of k), (hd0 (after k)), st. split_and!; [done|right; by eexists _, _, _|done|]. rewrite Et.
    rewrite Forall_forall in Hlow, Hab. case_bool_decide as Hov.
    { destruct Hov as [Hin Hst]. exists (hd0 (after k)). split_and!; [done|done|].
      assert (Hk : hd0 (after k) ∈ after k).
      { destruct (after k); [|left]. by apply (Areas_nonzero _ _ _ HM) in Hin. }
      specialize (Hab _ Hk). destruct (mm_areas _ _ HM _ Hin) as [_ Hok]. unfold area_ok in Hok. lia. }
    exists k. split; [done|].
    constructor; try done. intros b Hb.
    destruct (after k) as [|c l2] eqn:Ek; [by apply elem_of_nil in Hb|]. cbn [hd0 hd] in Hov.
    assert (Hc : addr + len <= vm_start (ar s c)) 
      by (assert (c ∈ l) by (rewrite El; set_solver); destruct (Z.le_gt_cases (addr + len) (vm_start (ar s c))); tauto).
    apply elem_of_cons in Hb as [->|Hb]; [done|].
    destruct (sorted_split _ _ HM _ _ _ El) as [_ Hs]. rewrite Forall_forall in Hs. specialize (Hs b Hb).
    destruct (mm_areas _ _ HM c) as [_ Hok]; [rewrite El; set_solver|]. unfold below, area_ok in *. lia.
Qed.

Lemma munmap_back_correct s l : Mm s l -> extra = 0 \/ (area_mem s extra /\ extra ∉ l) ->
  exists r s', munmap_back 2 addr len extra s = Ok (r, s') /\
    ((r = None /\ s' = s) \/
     exists k l', r = Some (place_of k) /\ unmapped_range s l addr (addr + len) extra s' l' /\
       free_place s' l' addr (addr + len) k).
Proof using All.
  intros HM Hx. pose proof (mm_ok _ _ HM) as HA.
  assert (Hfree : forall k, free_place s l addr (addr + len) k -> unmapped s l addr (addr + len)).
  { intros k HF a Ha. rewrite (fp_list _ _ _ _ _ HF) in Ha. apply elem_of_app in Ha as [Ha|Ha];
      [left; by apply HF|right; by apply HF]. }
  cbn [munmap_back]. destruct (prepare_test s l HA) as (p & v & st & E & Hp & Est & Ht). rewrite (bindV _ _ _ _ _ E).
  assert (Hbody : exists r s', (st ← (if truth v then vma_get v vm_start else mret 0);
      if truth v && (st <? u32 (addr + len)) then
        r ← munmap_of addr len extra;
        if truth r then mret None else munmap_back 1 addr len extra
      else mret (Some p)) s = Ok (r, s') /\
    ((r = None /\ s' = s) \/
     exists k l', r = Some (place_of k) /\ unmapped_range s l addr (addr + len) extra s' l' /\
       free_place s' l' addr (addr + len) k)).
  { rewrite (bindV _ _ _ _ _ Est). destruct (truth v && (st <? u32 (addr + len))).
    - assert (Hr32 : 0 <= addr < 4294967296 /\ 0 <= len < 4294967296) by (unfold TASK_SIZE in *; lia).
      destruct (do_munmap_correct (max_map_count lim) has_open has_close s l addr len extra HM (proj1 Hr32) (proj2 Hr32) Hx)
        as (ret & s1 & E1 & [(_ & Hb & _)|[(-> & _ & -> & _)|(-> & _ & l1 & HU)]]);
        [by destruct not_bad|..]; unfold munmap_of; rewrite (bindV _ _ _ _ _ E1).
      + exists None, s. split; [done|]. by left.
      + change (truth 0) with false. cbv iota. cbn [munmap_back].
        rewrite (PAGE_ALIGN_id len) in HU by (unfold TASK_SIZE in *; lia || apply Hal).
        pose proof (um_mm _ _ _ _ _ _ _ HU) as HM1. pose proof (mm_ok _ _ HM1) as HA1.
        destruct (prepare_test s1 l1 HA1) as (p1 & v1 & st1 & E2 & Hp1 & Est1 & Ht1). rewrite (bindV _ _ _ _ _ E2).
        assert (Hno : truth v1 && (st1 <? u32 (addr + len)) = false).
        { destruct (truth v1 && _); [exfalso|done]. destruct Ht1 as (a & Ha & H1 & H2).
          destruct (unmapped_mapped s1 l1 addr (addr + len) HA1 ltac:(lia)) with a; [|done|lia..].
          intros x w Hxw. by apply HU in Hxw as [_ ?]. }
        rewrite Hno in Ht1. destruct Ht1 as (k & -> & HF).
        exists (Some (place_of k)), s1. split; [|right; by exists k, l1].
        destruct Hp1 as [|(? & ? & ? & Hp1)]; [done|]. unfold place_of in Hp1. injection Hp1 as <- _ _ _.
        unfold place_of. rewrite (bindV _ _ _ _ _ Est1), Hno. done.
    - destruct Ht as (k & -> & HF). exists (Some (place_of k)), s. split; [done|]. right. exists k, l.
      split; [done|]. split; [|done]. apply nothing_unmapped; [done|]. by eapply Hfree. }
  destruct Hp as [->|(a & b & c & ->)]; exact Hbody.
Qed.
End Room.

(** ** A new mapping *)

(** The range has the attributes [w0], and nothing else changes. *)
Record mapped_range (s : mm_struct) (l : list Z) (addr end_ : Z) (w0 : Z -> Z * Z * Z) (s' : mm_struct) (l' : list Z) : Prop := {
  mr_mm : Mm s' l';
  mr_mapped : forall x w, mapped_as s' l' x w <->
    (addr <= x < end_ /\ w = w0 x) \/ (~ (addr <= x < end_) /\ mapped_as s l x w);
  mr_mem : mem_kept s s';
  mr_total : accounted s l [] -> accounted s' l' [];
  mr_rest : brk s' = brk s /\ end_code s' = end_code s /\ start_data s' = start_data s /\ def_flags s' = def_flags s
}.

(** The areas are there; the accounts follow. *)
Record placed_range (s : mm_struct) (l : list Z) (addr end_ : Z) (w0 : Z -> Z * Z * Z) (s' : mm_struct) (l' : list Z) : Prop := {
  pr_mm : Mm s' l';
  pr_mapped : forall x w, mapped_as s' l' x w <-> (addr <= x < end_ /\ w = w0 x) \/ mapped_as s l x w;
  pr_mem : mem_kept s s';
  pr_bytes : bytes s' l' = bytes s l + (end_ - addr);
  pr_total : total_vm s' = total_vm s;
  pr_rest : brk s' = brk s /\ end_code s' = end_code s /\ start_data s' = start_data s /\ def_flags s' = def_flags s
}.

Lemma mapped_out_result s l s1 l1 addr len flags w0 :
  0 < len -> (PAGE_SIZE | len) -> placed_range s l addr (addr + len) w0 s1 l1 ->
  exists s', mapped_out addr len flags s1 = Ok (addr, s') /\
    forall s0 l0 extra, unmapped_range s0 l0 addr (addr + len) extra s l -> mapped_range s0 l0 addr (addr + len) w0 s' l1.
Proof.
  intros Hpos [q Hq] [P1 P2 P3 P4 P5 P6]. unfold mapped_out.
  rewrite (bindV _ (mm_set _) _ _ _ eq_refl). set (s2 := s1 <| total_vm := _ |>).
  assert (HQ : quietly (whenV (truth (flags .& VM_LOCKED))
    (mm_set (fun s => s <| locked_vm := u32 (locked_vm s + (len .>> PAGE_SHIFT)) |>);;
     call_out (Make_pages_present addr (u32 (addr + len)))))).
  { apply quietly_when, quietly_seq; [|apply quietly_call]. intros x. eexists. split; [done|]. by destruct x. }
  destruct (HQ s2) as (s3 & E & Q). rewrite (bindV _ _ _ _ _ E). exists s3. split; [done|]. intros s0 l0 extra [U1 U2 U3 _ U4 U5].
  pose proof (quiet_ar _ _ Q) as Ear. change (ar s2) with (ar s1) in Ear.
  pose proof (quiet_mem _ _ Q) as Hm. 
  assert (HA : Areas s3 l1) by (apply (quiet_areas _ _ _ Q); apply (areas_ext s1); try done; apply P1).
  apply quiet_fields in Q as (T1 & T2 & T3 & T4 & T5 & T6 & T7 & T8 & T9 & T10 & T11).
  constructor.
  - constructor; [done|rewrite T5; apply P1|rewrite T6; apply P1].
  - intros x w. rewrite (mapped_ext s1 s3) by (intros; by rewrite Ear). rewrite P2, U2. tauto.
  - intros b Hb. apply Hm. change (area_mem s1 b). auto.
  - intros Ht. apply U4 in Ht. unfold accounted in *. rewrite T7. change (total_vm s2) with (u32 (total_vm s1 + (len .>> PAGE_SHIFT))).
    rewrite !(bytes_ext s1 s3) by (intros; by rewrite Ear). rewrite P4, P5, Ht. cbn [bytes].
    replace (addr + len - addr) with len by lia. unfold PAGE_SHIFT, PAGE_SIZE in *.
    rewrite !Z.shiftr_div_pow2 by lia. change (2 ^ 12) with 4096. rewrite Hq, Z.div_mul by lia.
    replace (bytes s l + q * 4096 + 0) with (bytes s l + 0 + q * 4096) by ring. rewrite Z.div_add by lia.
    unfold u32. by rewrite Zplus_mod_idemp_l.
  - rewrite T8, T9, T10, T11. change (brk s1 = brk s0 /\ end_code s1 = end_code s0 /\ start_data s1 = start_data s0 /\ def_flags s1 = def_flags s0).
    destruct P6 as (-> & -> & -> & ->). done.
Qed.

Lemma mapped_out_correct s0 l0 s l s1 l1 addr len extra flags w0 :
  0 < len -> (PAGE_SIZE | len) ->
  unmapped_range s0 l0 addr (addr + len) extra s l -> placed_range s l addr (addr + len) w0 s1 l1 ->
  exists s', mapped_out addr len flags s1 = Ok (addr, s') /\ mapped_range s0 l0 addr (addr + len) w0 s' l1.
Proof.
  intros Hpos Hal HU HP. destruct (mapped_out_result s l s1 l1 addr len flags w0 Hpos Hal HP) as (s' & E & H).
  exists s'. split; [done|]. by eapply H.
Qed.

Lemma merged_placed s l addr end_ flags s' l' :
  Mm s l -> merged s l addr end_ flags s' l' -> placed_range s l addr end_ (fun _ => (flags, 0, 0)) s' l'.
Proof.
  intros HM [M1 M2 M3 M4 M5 M6 M7 M8 (R1 & R2 & R3 & R4 & R5 & R6)]. constructor; try done.
  constructor; [done| |].
  - pose proof (mm_count _ _ HM). lia.
  - destruct (mm_cache _ _ HM) as [H0|Hin]; [|right; auto].
    destruct M6 as [->|]; [by left|by right].
Qed.

(** A new area of the address space. *)
Lemma link_new_correct s l addr end_ k new v :
  Mm s l -> free_place s l addr end_ k -> area_mem s new -> new ∉ l ->
  area_ok v -> vm_start v = addr -> vm_end v = end_ -> vmas s !! new = Some v ->
  exists s', vma_link new (last0 (before k)) (link_of k) (top k) s = Ok (tt, s') /\
    placed_range s l addr end_ (attr v) s' (before k ++ new :: after k).
Proof.
  intros HM [F1 F2 F3 F4 F5] Hmem Hout Hok Hst He Hv. rewrite F1 in *.
  assert (Har : ar s new = v) by (unfold ar; by rewrite Hv).
  destruct (vma_link_correct s k new) as (s' & E & HA & Hvm & (R1 & R2 & R3 & R4 & R5 & R6 & R7) & Hm & _ & Hc & _); try done.
  { apply HM. }
  { split; [by rewrite Har|]. rewrite !Forall_forall. unfold below. rewrite Har. split; intros b Hb; [by rewrite Hst; apply F4|by rewrite He; apply F5]. }
  exists s'. split; [done|].
  assert (Hp : before k ++ new :: after k ≡ₚ new :: before k ++ after k) by (by rewrite Permutation_middle).
  pose proof (ar_ext _ _ Hvm) as Ear. constructor; try done.
  - constructor; [done| |].
    + rewrite Hc, (mm_count _ _ HM), Hp. cbn [length]. pose proof (Areas_length _ _ (mm_ok _ _ HM)).
      unfold s32. rewrite Z.mod_small; lia.
    + rewrite R1. destruct (mm_cache _ _ HM) as [|Hin]; [by left|right]. set_solver.
  - intros x w. rewrite (mapped_perm _ _ _ _ _ Hp), mapped_cons, Ear, Har.
    rewrite (mapped_ext s s') by (intros; by rewrite Ear). unfold covers. rewrite Hst, He. tauto.
  - rewrite (bytes_perm _ _ _ Hp). cbn [bytes]. rewrite Ear, Har, Hst, He.
    rewrite (bytes_ext s s') by (intros; by rewrite Ear). lia.
Qed.
(** ** The object that is mapped *)

(** What the mapping relies on: an operation returns 0 or a negative error code; the [mmap] of a file may
    move the area, but leaves it aligned, in the user's addresses and as long as it was; and an address that a
    file chooses is an error code or one of the user's. *)
Definition errno (e : Z) : Prop := -4096 < e <= 0.
Record files_ok : Prop := {
  fo_mmap : forall file op v, f_mmap (files file) = Some op ->
    errno (op v).1 /\ ((op v).1 = 0 -> area_ok v -> vm_end v <= TASK_SIZE -> area_ok (op v).2 /\ vm_end (op v).2 <= TASK_SIZE /\ vm_end (op v).2 - vm_start (op v).2 = vm_end v - vm_start v);
  fo_area : forall file f addr len pgoff flags, f_get_area (files file) = Some f ->
    0 <= f addr len pgoff flags < 4294967296 /\
    ((PAGE_SIZE | f addr len pgoff flags) -> f addr len pgoff flags + len <= TASK_SIZE);
  fo_deny : forall file, errno (f_deny (files file));
  fo_shmem : -4096 < shmem_file
}.

(** The area of a mapping. *)
Definition plain_area (addr len pgoff vm_flags : Z) : vm_area :=
  mk_vm_area addr (u32 (addr + len)) (get protection_map (vm_flags .& 0xf)) vm_flags 0 pgoff 0 0 0.
Definition new_area (file addr len flags pgoff vm_flags : Z) : vm_area :=
  let v := plain_area addr len pgoff vm_flags in
  if truth file then
    match f_mmap (files file) with
    | Some op => (op (v <| vm_file := file |>)).2
    | None => v
    end
  else if truth (flags .& MAP_SHARED) then v <| vm_file := shmem_file |> <| vm_ops := shmem_vm_ops |>
  else v.

Lemma map_object_correct file addr len flags pgoff vm_flags new s :
  files_ok -> (truth file = true -> is_Some (f_mmap (files file))) ->
  vmas s !! new = Some (plain_area addr len pgoff vm_flags) ->
  area_ok (plain_area addr len pgoff vm_flags) -> u32 (addr + len) = addr + len -> addr + len <= TASK_SIZE ->
  exists e b s', map_object file new flags vm_flags s = Ok ((e, b), s') /\ errno e /\ only_areas [new] s s' /\
    (e = 0 -> vmas s' !! new = Some (new_area file addr len flags pgoff vm_flags) /\
              area_ok (new_area file addr len flags pgoff vm_flags) /\ vm_end (new_area file addr len flags pgoff vm_flags) <= TASK_SIZE /\
              vm_end (new_area file addr len flags pgoff vm_flags) = vm_start (new_area file addr len flags pgoff vm_flags) + len /\
              (truth file = false -> vm_start (new_area file addr len flags pgoff vm_flags) = addr)).
Proof using All.
  intros HF Hop Ev Hok Hu Htask. assert (Hv : vm_end (plain_area addr len pgoff vm_flags) <= TASK_SIZE) by (by rewrite <- Hu in Htask). assert (HA : only_areas [new] s s) by reflexivity.
  unfold map_object, new_area. set (v := plain_area _ _ _ _) in *. destruct (truth file) eqn:Hfile.
  - destruct (truth (vm_flags .& _)).
    { stepX s1 HA. eexists _, _, s1. split_and!; [done|done|done|done]. }
    destruct (truth (vm_flags .& VM_DENYWRITE) && _) eqn:Hd.
    { stepX s1 HA. eexists _, _, s1. split_and!; [done|apply HF|done|]. intros H.
      apply andb_true_iff in Hd as [_ Hd]. by rewrite H in Hd. }
    stepX s1 HA. stepX s2 HA. stepX s3 HA.
    rewrite (bindV _ _ _ _ _ (get_area _ _ _ id Ev)). unfold id.
    destruct (Hop eq_refl) as [op Eop]. rewrite Eop.
    destruct (fo_mmap HF _ _ (v <| vm_file := file |>) Eop) as [He Hkeep]. destruct (op _) as [error v'] eqn:Er. cbn [fst snd] in *.
    stepX s4 HA. destruct (truth error) eqn:Ht.
    + stepX s5 HA. stepX s6 HA. stepX s7 HA.
      rewrite (bindV _ _ _ _ _ (get_area _ _ _ vm_start Ev)), (bindV _ _ _ _ _ (get_area _ _ _ vm_end Ev)).
      stepX sa HA. stepX sb HA. eexists _, _, sb. split_and!; [done|done|done|]. by intros ->.
    + eexists _, _, s4. split_and!; [done|done|done|]. intros _. split; [done|]. destruct Hkeep as (K1 & K3 & K2); [unfold truth in Ht; by destruct (Z.eqb_spec error 0)|done|done|].
      change (vm_end v' - vm_start v' = u32 (addr + len) - addr) in K2. rewrite Hu in K2. split_and!; [done|done|lia|done].
  - destruct (truth (flags .& MAP_SHARED)).
    + destruct (Z.ltb_spec shmem_file 0) as [Hneg|Hpos].
      * stepX s1 HA. eexists _, _, s1. split_and!; [done| |done|lia]. pose proof (fo_shmem HF). unfold errno. lia.
      * stepX s1 HA. eexists _, _, s1. split_and!; done.
    + eexists _, _, s. split_and!; done.
Qed.

(** ** The new area *)
Lemma unmapped_range_only s0 l0 addr end_ extra s l a s' :
  unmapped_range s0 l0 addr end_ extra s l -> only_areas [a] s s' -> is_Some (vmas s !! a) -> a ∉ l ->
  unmapped_range s0 l0 addr end_ extra s' l.
Proof using.
  clear g lim files has_open has_close shmem_file shmem_vm_ops.
  intros [U1 U2 U3 U4 U5 U6] Ho Ha Hl.
  destruct (only_mm [a] s s' l Ho (only_one _ _ Hl)) as (Ear & Hm & _ & Ht & (T1 & T2 & T3 & T4) & HM). constructor; rewrite ?T1, ?T2, ?T3, ?T4; auto.
  - intros x w. by rewrite (mapped_ext s s') by done.
  - intros b Hb. auto.
  - intros Hacc. apply U5 in Hacc. unfold accounted in *. rewrite Ht. by rewrite !(bytes_ext s s') by (done || by intros b ?%elem_of_nil).
Qed.

Lemma free_place_only s l addr end_ k a s' :
  free_place s l addr end_ k -> only_areas [a] s s' -> is_Some (vmas s !! a) -> a ∉ l -> free_place s' l addr end_ k.
Proof using.
  clear g lim files has_open has_close shmem_file shmem_vm_ops.
  intros [F1 F2 F3 F4 F5] Ho Ha Hl. destruct (only_mm [a] s s' l Ho (only_one _ _ Hl)) as (Ear & _ & Hr & _).
  constructor; rewrite ?Hr; try done; intros b Hb; (rewrite Ear; [auto|rewrite F1; set_solver]).
Qed.

Lemma placed_only s l addr end_ w0 s' l' a s0 : placed_range s l addr end_ w0 s' l' ->
  only_areas [a] s0 s -> is_Some (vmas s0 !! a) -> a ∉ l -> placed_range s0 l addr end_ w0 s' l'.
Proof using.
  clear g lim files has_open has_close shmem_file shmem_vm_ops.
  intros [P1 P2 P3 P4 P5 P6] Ho Ha Hl.
  destruct (only_mm [a] s0 s l Ho (only_one _ _ Hl)) as (Ear & Hm & _ & Ht & (T1 & T2 & T3 & T4) & HM).
  rewrite T1, T2, T3, T4, Ht in *. constructor; try done.
  - intros x w. rewrite P2. by rewrite (mapped_ext s0 s) by done.
  - intros b Hb. auto.
  - by rewrite P4, (bytes_ext s0 s) by done.
Qed.
Lemma placed_quiet s l addr end_ w0 s1 s' l' : placed_range s l addr end_ w0 s1 l' -> quiet s1 s' ->
  placed_range s l addr end_ w0 s' l'.
Proof using.
  clear g lim files has_open has_close shmem_file shmem_vm_ops.
  intros [P1 P2 P3 P4 P5 P6] Q. pose proof (quiet_ar _ _ Q) as Ear. pose proof (quiet_mem _ _ Q) as Hm.
  pose proof (quiet_areas _ _ l' Q) as HA.
  apply quiet_fields in Q as (T1 & T2 & T3 & T4 & T5 & T6 & T7 & T8 & T9 & T10 & T11). constructor.
  - constructor; [apply HA, P1|by rewrite T5; apply P1|rewrite T6; apply P1].
  - intros x w. by rewrite (mapped_ext s1 s') by (intros; by rewrite Ear).
  - intros b Hb. auto.
  - by rewrite (bytes_ext s1 s') by (intros; by rewrite Ear).
  - by rewrite T7.
  - by rewrite T8, T9, T10, T11.
Qed.

Lemma err_unaligned e : errno e -> e <> 0 -> ~ (PAGE_SIZE | u32 e).
Proof using.
  clear g lim files has_open has_close shmem_file shmem_vm_ops.
  unfold errno. intros H H0 [q Hq]. unfold u32, PAGE_SIZE in *.
  rewrite <- (Z_mod_plus_full e 1) in Hq. rewrite Z.mod_small in Hq by lia. lia.
Qed.

(** The result of an allocation: none, or memory of an area that is not in use. *)
Definition spare (s : mm_struct) (l : list Z) (a : Z) : Prop := a = 0 \/ (area_mem s a /\ a ∉ l).

Lemma spare_kept s l addr end_ extra s' l' new : unmapped_range s l addr end_ extra s' l' ->
  spare s l new -> (extra = new -> new = 0) -> spare s' l' new.
Proof using.
  clear g lim files has_open has_close shmem_file shmem_vm_ops.
  intros HU [->|[Hm Hl]] Hne; [by left|right]. split; [by apply (um_mem _ _ _ _ _ _ _ HU)|].
  intros Hin. destruct (um_sub _ _ _ _ _ _ _ HU _ Hin) as [|E]; [done|]. destruct Hm as [H0 _]. auto.
Qed.

Section New.
Context (s0 : mm_struct) (l0 : list Z) (addr len extra : Z).
Hypothesis Hrange : 0 <= addr /\ 0 < len /\ addr + len <= TASK_SIZE.
Hypothesis Hal : (PAGE_SIZE | addr) /\ (PAGE_SIZE | len).

(** The area [v] is there, at the range or, if the file's [mmap] moved it, at another one that was free. *)
Definition placed_at (v : vm_area) (r : Z) (s' : mm_struct) : Prop :=
  r = vm_start v /\ ((PAGE_SIZE | r) /\ 0 <= r /\ r + len <= TASK_SIZE) /\ exists l',
  (r = addr /\ mapped_range s0 l0 addr (addr + len) (attr v) s' l') \/
  (r <> addr /\ exists s1 l1, unmapped_range s0 l0 addr (addr + len) extra s1 l1 /\ unmapped s1 l1 r (r + len) /\
     mapped_range s1 l1 r (r + len) (attr v) s' l').
(** It was moved over another area. *)
Definition collides (v : vm_area) : Prop :=
  vm_start v <> addr /\ exists x w, vm_start v <= x < vm_start v + len /\ ~ (addr <= x < addr + len) /\ mapped_as s0 l0 x w.
(** The mapping is there, or an error is returned and the range is unmapped. *)
Definition map_result (v : vm_area) (r : Z) (s' : mm_struct) : Prop :=
  placed_at v r s' \/
  (~ (PAGE_SIZE | r) /\ exists l', unmapped_range s0 l0 addr (addr + len) extra s' l').

Lemma map_new_correct s l k file flags pgoff vm_flags new :
  files_ok -> (truth file = true -> is_Some (f_mmap (files file))) ->
  unmapped_range s0 l0 addr (addr + len) extra s l -> free_place s l addr (addr + len) k ->
  new = 0 \/ (area_mem s new /\ new ∉ l) ->
  (exists r s', map_new file addr len flags pgoff vm_flags (place_of k) new s = Ok (r, s') /\
    map_result (new_area file addr len flags pgoff vm_flags) r s') \/
  (map_new file addr len flags pgoff vm_flags (place_of k) new s = Bug /\ truth file = true /\ collides (new_area file addr len flags pgoff vm_flags)).
Proof using All.
  intros HF Hop HU HP Hnew. unfold map_new, map_result. destruct Hnew as [->|[Hmem Hout]].
  { left. eexists _, s. split; [done|]. right. split; [by apply err_unaligned|by exists l]. }
  pose proof Hmem as (Hn0 & Hn & _). rewrite truth_nz by done. cbn [negb]. pose proof Hn as [v Ev].
  assert (HA : only_areas [new] s s) by reflexivity. stepX s1 HA.
  assert (Hu : u32 (addr + len) = addr + len) by (apply u32_id; unfold TASK_SIZE in *; lia).
  assert (Hplain : area_ok (plain_area addr len pgoff vm_flags)).
  { unfold area_ok, plain_area. cbn. rewrite Hu. unfold TASK_SIZE in *. split_and!; try lia; [apply Hal|]. by apply Z.divide_add_r; apply Hal. }
  destruct (map_object_correct file addr len flags pgoff vm_flags new s1 HF Hop Ev Hplain Hu ltac:(lia)) as (e & b & s2 & E & He & Ho & Hv).
  rewrite (bindV _ _ _ _ _ E). pose proof (transitivity HA Ho) as HA2. clear HA E Ho Ev.
  unfold truth at 1 6. destruct (Z.eqb_spec e 0) as [He0|He0]; cbn [negb].
  2: { left. eexists _, s2. split; [done|]. right. split; [by apply err_unaligned|]. exists l. by eapply unmapped_range_only. }
  destruct (Hv He0) as (Ev & Hok & Htask & Hend & Hfile). set (na := new_area _ _ _ _ _ _) in *.
  rewrite !(bindV _ _ _ _ _ (get_area _ _ _ vm_start Ev)).
  destruct (only_mm [new] s s2 l HA2 (only_one _ _ Hout)) as (Ear & Hm2 & _ & _ & _ & HM2).
  (* the area is linked in at a free place *)
  assert (Hlinks : forall k' a, free_place s2 l a (a + len) k' -> vm_start na = a ->
    exists s5 l', (match place_of k' with Covered _ => BUG | Place _ prev rb_link rb_parent =>
        vma_link new prev rb_link rb_parent;; whenV b (call_out (Writecount_inc file));; mapped_out a len vm_flags end) s2 = Ok (a, s5) /\
      forall s0' l0', unmapped_range s0' l0' a (a + len) extra s l -> mapped_range s0' l0' a (a + len) (attr na) s5 l').
  { intros k' a HP' Ha. unfold place_of.
    destruct (link_new_correct s2 l a (a + len) k' new na) as (s3 & E3 & HP3); try done; [apply HM2, HU|by apply Hm2|rewrite Hend; lia|].
    rewrite (bindV _ _ _ _ _ E3). runQ s4 Q4. apply (placed_quiet _ _ _ _ _ _ s4) in HP3; [|done].
    eapply placed_only in HP3; [|exact HA2|done|done].
    destruct (mapped_out_result s l s4 _ a len vm_flags (attr na) ltac:(lia) (proj2 Hal) HP3) as (s5 & E5 & HR).
    exists s5, (before k' ++ new :: after k'). split; [exact E5|]. intros s0' l0' HU'. by eapply HR. }
  destruct (Z.eqb_spec addr (vm_start na)) as [Hst|Hst].
  - left. rewrite (bindV _ (mret (addr, place_of k)) s2 _ _ eq_refl).
    destruct (Hlinks k addr) as (s5 & l' & E5 & HR); [by eapply free_place_only|done|]. rewrite E5.
    exists addr, s5. split; [done|]. left. split; [done|]. split; [split_and!; [apply Hal|lia|lia]|]. exists l'. left. auto.
  - rewrite bindV_assoc. pose proof (mm_ok _ _ (HM2 (um_mm _ _ _ _ _ _ _ HU))) as HA'.
    pose proof Hok as (K1 & K2 & K3 & K4 & _). unfold TASK_SIZE in *.
    destruct (prepare_test (vm_start na) len extra ltac:(unfold TASK_SIZE; lia) (conj K4 (proj2 Hal)) s2 l HA') as (p & v' & st & Ep & Hp & Est & Ht).
    rewrite (bindV _ _ _ _ _ Ep).
    assert (Hu' : u32 (vm_start na + len) = vm_end na) by (rewrite Hend; apply u32_id; lia). rewrite Hu' in Ht.
    assert (Hbody : forall f : Z * place -> V Z, (x ← (vst ← (if truth v' then vma_get v' vm_start else mret 0);
        e0 ← vma_get new vm_end; if truth v' && (vst <? e0) then BUG else mret (vm_start na, p)); f x) s2 =
      (if truth v' && (st <? vm_end na) then Bug else f (vm_start na, p) s2)).
    { intros f. rewrite bindV_assoc, (bindV _ _ _ _ _ Est), bindV_assoc, (bindV _ _ _ _ _ (get_area _ _ _ vm_end Ev)). by destruct (truth v' && _). }
    assert (Hpick : forall f : Z * place -> V Z, (x ← (match p with Covered v | Place v _ _ _ => vst ← (if truth v then vma_get v vm_start else mret 0);
        e0 ← vma_get new vm_end; if truth v && (vst <? e0) then BUG else mret (vm_start na, p) end); f x) s2 =
      (if truth v' && (st <? vm_end na) then Bug else f (vm_start na, p) s2)) by (intros f; destruct Hp as [->|(? & ? & ? & ->)]; apply Hbody).
    rewrite !Hpick. destruct (truth v' && (st <? vm_end na)).
    + right. split; [done|]. split; [destruct (truth file); [done|by destruct (Hst (eq_sym (Hfile eq_refl)))]|]. split; [done|].
      destruct Ht as (a & Ha & H1 & H2). set (x := Z.max (vm_start na) (vm_start (ar s2 a))).
      assert (Hm : mapped_as s l x (attr (ar s a) x)).
      { exists a. split; [done|]. split; [|done]. unfold covers. rewrite <- Ear by done. destruct (mm_areas _ _ HA' _ Ha) as [_ Hoa]. unfold area_ok in Hoa. unfold x. lia. }
      apply (um_mapped _ _ _ _ _ _ _ HU) in Hm as [Hm Hx]. exists x, (attr (ar s a) x). split_and!; [unfold x|unfold x|done|done]; lia.
    + left. destruct Ht as (k' & -> & HP').
      destruct (Hlinks k' (vm_start na) HP' eq_refl) as (s5 & l' & E5 & HR). rewrite E5.
      exists (vm_start na), s5. split; [done|]. left. split; [done|]. split; [unfold TASK_SIZE; split_and!; [done|lia|lia]|]. exists l'. right. split; [done|]. exists s, l.
      assert (Hfree : unmapped s l (vm_start na) (vm_start na + len)).
      { intros a Ha. rewrite <- Ear by done. rewrite (fp_list _ _ _ _ _ HP') in Ha.
        apply elem_of_app in Ha as [Ha|Ha]; [left; by apply HP'|right; by apply HP']. }
      split_and!; [done|done|]. apply HR. apply nothing_unmapped; [apply HU|done].
Qed.
Lemma mapped_range_ext w0 w1 s' l' : (forall x, w0 x = w1 x) ->
  mapped_range s0 l0 addr (addr + len) w0 s' l' -> mapped_range s0 l0 addr (addr + len) w1 s' l'.
Proof using.
  clear g lim files has_open has_close shmem_file shmem_vm_ops.
  intros Hw [M1 M2 M3 M4 M5]. constructor; try done. intros x w. by rewrite M2, Hw.
Qed.

(** Joining the range to its neighbours, where that is possible. *)
Lemma merge_correct s l k flags :
  unmapped_range s0 l0 addr (addr + len) extra s l -> free_place s l addr (addr + len) k -> truth (top k) = true ->
  exists b s1, vma_merge (last0 (before k)) (top k) addr (u32 (addr + len)) flags s = Ok (b, s1) /\
    if b : bool then exists s' l', mapped_out addr len flags s1 = Ok (addr, s') /\
      mapped_range s0 l0 addr (addr + len) (fun _ => (flags, 0, 0)) s' l'
    else s1 = s.
Proof using All.
  intros HU HP Htop. pose proof (um_mm _ _ _ _ _ _ _ HU) as HM. pose proof (fp_list _ _ _ _ _ HP) as El.
  rewrite (u32_id (addr + len)) by (unfold TASK_SIZE in *; lia).
  destruct (vma_merge_correct s (before k) (after k) (top k) addr (addr + len) flags) as (b & s1 & E & Hb).
  - rewrite <- El. apply HM.
  - rewrite <- El. apply HM.
  - unfold TASK_SIZE in *. split_and!; try lia; [apply Hal|]. apply Z.divide_add_r; apply Hal.
  - apply HP.
  - apply HP.
  - destruct k as [|[[] c a sib] k]; [done|..]; simpl; intros H; apply (f_equal length) in H;
      rewrite !length_app in H; cbn [length] in H; rewrite ?length_app in H; simpl in H; lia.
  - apply before_nil_top.
  - exists b, s1. split; [done|]. destruct b; [|done]. destruct Hb as (l' & Hm). rewrite <- El in Hm.
    apply merged_placed in Hm; [|done].
    destruct (mapped_out_correct s0 l0 s l s1 l' addr len extra flags _ ltac:(lia) (proj2 Hal) HU Hm) as (s' & E' & HR).
    by exists s', l'.
Qed.

(** The same for the heap. *)
Lemma brk_new_correct s l k flags new :
  unmapped_range s0 l0 addr (addr + len) extra s l -> free_place s l addr (addr + len) k -> spare s l new ->
  exists r s', brk_new addr len flags (last0 (before k)) (link_of k) (top k) new s = Ok (r, s') /\
    ((r = addr /\ exists l', mapped_range s0 l0 addr (addr + len) (fun _ => (flags, 0, 0)) s' l') \/
     (~ (PAGE_SIZE | r) /\ exists l', unmapped_range s0 l0 addr (addr + len) extra s' l')).
Proof using All.
  intros HU HP Hnew. unfold brk_new. rewrite (u32_id (addr + len)) by (unfold TASK_SIZE in *; lia).
  destruct Hnew as [->|[Hmem Hout]].
  { eexists _, s. split; [done|]. right. split; [by apply err_unaligned|by exists l]. }
  pose proof Hmem as (Hn0 & Hn & _). rewrite truth_nz by done. cbn [negb]. pose proof Hn as [v Ev].
  assert (HA : only_areas [new] s s) by reflexivity. stepX s1 HA.
  destruct (only_mm [new] s s1 l HA (only_one _ _ Hout)) as (_ & Hm1 & _ & _ & _ & HM1).
  lazymatch type of Ev with _ = Some ?nv => set (na := nv) in Ev end.
  destruct (link_new_correct s1 l addr (addr + len) k new na) as (s2 & E2 & HP2); try done.
  - apply HM1, HU.
  - by eapply free_place_only.
  - by apply Hm1.
  - unfold area_ok, TASK_SIZE in *. simpl. split_and!; try lia; [apply Hal|]. apply Z.divide_add_r; apply Hal.
  - rewrite (bindV _ _ _ _ _ E2). eapply placed_only in HP2; [|exact HA|done|done].
    destruct (mapped_out_correct s0 l0 s l s2 _ addr len extra flags _ ltac:(lia) (proj2 Hal) HU HP2) as (s3 & E3 & HR).
    exists addr, s3. split; [done|]. left. split; [done|]. eexists. eapply mapped_range_ext; [|exact HR]. done.
Qed.
End New.

(** ** [do_mmap_pgoff] *)

Lemma cached_unmapped s s1 l addr end_ extra s' l' : cached s s1 ->
  unmapped_range s1 l addr end_ extra s' l' -> unmapped_range s l addr end_ extra s' l'.
Proof using.
  clear g lim files has_open has_close shmem_file shmem_vm_ops.
  intros Hc [U1 U2 U3 U4 U5 U6]. pose proof (cached_ar _ _ Hc) as Ear. rewrite Hc in U3, U5, U6.
  constructor; try done.
  - intros x w. by rewrite U2, (mapped_ext s s1) by (intros; by rewrite Ear).
  - intros H. apply U5. unfold accounted in *. by rewrite !(bytes_ext s (s <| mmap_cache := _ |>)) by done.
Qed.

(** Where a mapping goes. *)
Definition requested (s : mm_struct) (l : list Z) (file addr len pgoff flags r : Z) : Prop :=
  if truth (flags .& MAP_FIXED) then r = addr
  else match (if truth file then f_get_area (files file) else None) with
  | Some f => r = f addr len pgoff flags
  | None => chosen s l addr len r
  end.

Lemma get_unmapped_correct s l file addr len pgoff flags :
  files_ok -> Mm s l -> 0 <= addr < 4294967296 -> 0 < len <= TASK_SIZE ->
  exists r s1, get_unmapped_area file addr len pgoff flags s = Ok (r, s1) /\ cached s s1 /\ Mm s1 l /\
    if truth (r .& Z.lnot PAGE_MASK) then ~ (PAGE_SIZE | r)
    else (PAGE_SIZE | r) /\ 0 <= r /\ r + len <= TASK_SIZE /\ requested s l file addr len pgoff flags r.
Proof using All.
  intros HF HM Ha Hlen. unfold get_unmapped_area, requested.
  assert (Hself : cached s s) by (by destruct s).
  assert (Hcase : forall r (P : Prop), ((PAGE_SIZE | r) -> P) ->
    if truth (r .& Z.lnot PAGE_MASK) then ~ (PAGE_SIZE | r) else (PAGE_SIZE | r) /\ P).
  { intros r P HP. destruct (truth _) eqn:E.
    - intros H%page_aligned. congruence.
    - apply page_aligned in E. auto. }
  destruct (truth (flags .& MAP_FIXED)).
  - rewrite (u32_id (TASK_SIZE - len)) by (unfold TASK_SIZE in *; lia).
    destruct (Z.ltb_spec (TASK_SIZE - len) addr); [|destruct (truth (addr .& _)) eqn:Eal]; eexists _, s;
      (split_and!; [done..|]); apply Hcase; intros Hr.
    + exfalso. by apply (err_unaligned (- ENOMEM)) in Hr.
    + exfalso. by apply (err_unaligned (- EINVAL)) in Hr.
    + split_and!; [lia|lia|done].
  - destruct (if truth file then _ else _) as [f|] eqn:Ef.
    + destruct (truth file); [|done]. destruct (fo_area HF file f addr len pgoff flags Ef) as [H1 H2].
      eexists _, s. split_and!; [done..|]. apply Hcase. intros Hr. split_and!; [lia|auto|done].
    + destruct (arch_area_correct s l addr len HM ltac:(lia)) as (r & s1 & E & Hc & HM1 & Hch).
      exists r, s1. split_and!; [done..|]. apply Hcase. intros Hr. split_and!; [..|done].
      all: destruct Hch as [(H1 & H2 & _)|(-> & _)]; [done|exfalso]; by apply (err_unaligned (- ENOMEM)) in Hr.
Qed.

Lemma map_room_correct s l file addr len flags pgoff vm_flags extra new :
  files_ok -> (truth file = true -> is_Some (f_mmap (files file))) ->
  (truth file = false -> truth (vm_flags .& VM_SHARED) = false -> truth (flags .& MAP_SHARED) = false) ->
  Mm s l -> 0 <= addr /\ 0 < len /\ addr + len <= TASK_SIZE -> (PAGE_SIZE | addr) /\ (PAGE_SIZE | len) ->
  spare s l extra -> spare s l new -> (extra = new -> new = 0) ->
  (exists r s', map_room file addr len flags pgoff vm_flags extra new s = Ok (r, s') /\
    ((~ (PAGE_SIZE | r) /\ s' = s) \/
     map_result s l addr len extra (new_area file addr len flags pgoff vm_flags) r s')) \/
  (map_room file addr len flags pgoff vm_flags extra new s = Bug /\ truth file = true /\
   collides s l addr len (new_area file addr len flags pgoff vm_flags)).
Proof using All.
  intros HF Hop Hsh HM Hrange Hal Hx Hnew Hne. unfold map_room.
  destruct (munmap_back_correct addr len extra Hrange Hal s l HM Hx) as (r & s1 & E & [[-> ->]|(k & l1 & -> & HU & HP)]);
    rewrite !(bindV _ _ _ _ _ E).
  { left. eexists _, s. split; [done|]. left. split; [by apply err_unaligned|done]. }
  assert (Hfail : map_result s l addr len extra (new_area file addr len flags pgoff vm_flags) (err ENOMEM) s1).
  { right. split; [by apply err_unaligned|by exists l1]. }
  unfold too_big. rewrite !bindV_assoc, !(bindV _ (mm_get total_vm) _ _ _ eq_refl), !(bindV _ (mret _) _ _ _ eq_refl).
  destruct (rlim_as lim <? _); [by left; eexists _, s1; split; [|right]|].
  destruct (_ && negb (vm_enough_memory _ _)); [by left; eexists _, s1; split; [|right]|]. cbn [place_of].
  assert (Hlink : (exists r s', map_new file addr len flags pgoff vm_flags (place_of k) new s1 = Ok (r, s') /\
    ((~ (PAGE_SIZE | r) /\ s' = s) \/
     map_result s l addr len extra (new_area file addr len flags pgoff vm_flags) r s')) \/
    (map_new file addr len flags pgoff vm_flags (place_of k) new s1 = Bug /\ truth file = true /\
     collides s l addr len (new_area file addr len flags pgoff vm_flags))).
  { destruct (map_new_correct s l addr len extra Hrange Hal s1 l1 k file flags pgoff vm_flags new) as [(r & s' & E' & HR)|HB];
      try done; [by eapply spare_kept| |by right]. left. exists r, s'. by split; [|right]. }
  destruct (_ && truth (top k)) eqn:Em; [|by rewrite !(bindV _ (mret false) _ _ _ eq_refl)].
  apply andb_true_iff in Em as [[Hfile Hshared]%andb_true_iff Htop]. apply negb_true_iff in Hfile, Hshared.
  destruct (merge_correct s l addr len extra Hrange Hal s1 l1 k vm_flags HU HP Htop) as (b & s2 & E2 & Hb).
  rewrite !(bindV _ _ _ _ _ E2). destruct b; [|by subst s2].
  destruct Hb as (s' & l' & E3 & HR). left. exists addr, s'. split; [done|]. right. left.
  split; [unfold new_area; by rewrite Hfile, Hsh|]. split; [split_and!; [apply Hal|lia|lia]|]. exists l'. left. split; [done|].
  eapply mapped_range_ext; [|exact HR]. intros x. unfold new_area. by rewrite Hfile, Hsh.
Qed.

(** A private mapping without a file is not a shared one. *)
Lemma map_flags_shared file prot flags vf vm_flags : map_flags file prot flags vf = inl vm_flags ->
  truth file = false -> truth (vm_flags .& VM_SHARED) = false -> truth (flags .& MAP_SHARED) = false.
Proof using.
  clear g lim has_open has_close shmem_file shmem_vm_ops.
  unfold map_flags. intros E Hf. rewrite Hf in E. destruct (Z.eqb_spec (flags .& MAP_TYPE) MAP_PRIVATE) as [Hp|].
  - intros _. unfold MAP_SHARED, MAP_TYPE, MAP_PRIVATE in *. change 1 with (2 ^ 0) at 1. rewrite truth_testbit by lia.
    apply (f_equal (fun z => Z.testbit z 0)) in Hp. rewrite Z.land_spec in Hp. by rewrite andb_true_r in Hp.
  - destruct (Z.eqb_spec (flags .& MAP_TYPE) MAP_SHARED); [|done]. injection E as <-. intros H. exfalso.
    unfold VM_SHARED in *. change 8 with (2 ^ 3) in H at 2. rewrite truth_testbit in H by lia.
    rewrite !Z.lor_spec in H. by rewrite orb_true_r in H.
Qed.

(** The flags that are asked for, before the kind of mapping is looked at. *)
Definition wanted_flags (s : mm_struct) (prot flags : Z) : Z :=
  calc_vm_flags prot flags .| def_flags s .| VM_MAYREAD .| VM_MAYWRITE .| VM_MAYEXEC.
(** The outcome of a mapping of [len] bytes, rounded up. *)
Definition mmap_done (s : mm_struct) (l : list Z) (file addr len prot flags pgoff extra r : Z) (s' : mm_struct) : Prop :=
  ((PAGE_SIZE | r) /\ 0 <= r /\ r + len <= TASK_SIZE /\
   exists a vm_flags, requested s l file addr len pgoff flags a /\ map_flags file prot flags (wanted_flags s prot flags) = inl vm_flags /\
     placed_at s l a len extra (new_area file a len flags pgoff vm_flags) r s') \/
  (~ (PAGE_SIZE | r) /\
   ((cached s s' /\ Mm s' l) \/
    exists a l', requested s l file addr len pgoff flags a /\ unmapped_range s l a (a + len) extra s' l')).
(** The file's [mmap] moved the area over another one. *)
Definition mmap_buggy (s : mm_struct) (l : list Z) (file addr len prot flags pgoff : Z) : Prop :=
  truth file = true /\ exists a vm_flags, requested s l file addr len pgoff flags a /\
    map_flags file prot flags (wanted_flags s prot flags) = inl vm_flags /\ collides s l a len (new_area file a len flags pgoff vm_flags).

Lemma cached_mapped s s1 l addr end_ w0 s' l' : cached s s1 ->
  mapped_range s1 l addr end_ w0 s' l' -> mapped_range s l addr end_ w0 s' l'.
Proof using.
  clear g lim files has_open has_close shmem_file shmem_vm_ops.
  intros Hc [M1 M2 M3 M4 M5]. pose proof (cached_ar _ _ Hc) as Ear. rewrite Hc in M3, M4, M5.
  constructor; try done.
  - intros x w. by rewrite M2, (mapped_ext s s1) by (intros; by rewrite Ear).
  - intros H. apply M4. unfold accounted in *. by rewrite !(bytes_ext s (s <| mmap_cache := _ |>)) by done.
Qed.
Lemma cached_spare s s1 l a : cached s s1 -> spare s l a -> spare s1 l a.
Proof using. clear g lim files has_open has_close shmem_file shmem_vm_ops. by intros ->. Qed.

Lemma map_flags_errno file prot flags vf e : map_flags file prot flags vf = inr e -> 0 < e < 4096.
Proof using.
  clear g lim has_open has_close shmem_file shmem_vm_ops. unfold map_flags. cbv zeta.
  intros E. repeat (case_match; try discriminate E; try (injection E as <-; done)).
Qed.

Lemma align_wraps len : 4294963200 < len < 4294967296 -> PAGE_ALIGN len = 0.
Proof using.
  clear g lim files has_open has_close shmem_file shmem_vm_ops.
  intros Hlen. unfold PAGE_ALIGN, PAGE_SIZE, u32. rewrite page_mask. unfold PAGE_SIZE.
  rewrite <- (Z_mod_plus_full _ (-1)), Z.mod_small by lia. rewrite Z.div_small; lia.
Qed.
Lemma cached_placed s s1 l a len extra v r s' : cached s s1 -> placed_at s1 l a len extra v r s' -> placed_at s l a len extra v r s'.
Proof using.
  clear g lim files has_open has_close shmem_file shmem_vm_ops.
  intros Hc (Er & Hr & l' & [[Ea H]|(Hne & s2 & l2 & H1 & H2 & H3)]); (split; [done|]); (split; [done|]); exists l'.
  - left. split; [done|]. by eapply cached_mapped.
  - right. split; [done|]. exists s2, l2. split_and!; [by eapply cached_unmapped|done|done].
Qed.
Lemma cached_collides s s1 l a len v : cached s s1 -> collides s1 l a len v -> collides s l a len v.
Proof using.
  clear g lim files has_open has_close shmem_file shmem_vm_ops.
  intros Hc (Hne & x & w & H1 & H2 & H3). split; [done|]. exists x, w. split_and!; try done; try tauto.
  by rewrite (mapped_ext s s1) in H3 by (intros; by rewrite (cached_ar _ _ Hc)).
Qed.
(** C18. [do_mmap_pgoff], for every address and length of 32 bits. A length that rounds up to 0 maps nothing and
    returns the address (-ENODEV for a file without [mmap]). Otherwise, when an address is returned, the range there
    is page aligned and one of the user's. It is the address that was asked for, that the file
    chose, or the first free range: every address of it now has the flags, the file and the page of
    the file that the arguments stand for (as the file's [mmap] operation left them), and every other
    address has what it had. Or the file's [mmap] moved the area: then the range first chosen is unmapped, the
    area is where it was moved to, which was free, and all other addresses have what they had. In both cases
    the areas are again a sorted list with a matching red-black tree, count
    and cache, and the pages are accounted for. When it returns an error, the areas are unchanged or
    exactly the range is unmapped. It never loops, and faults only in one case, the BUG() for a file whose [mmap] moved the
    area over a mapping outside of the range. Of the operations of files it is assumed ([files_ok]) that
    error codes are small, that an area is moved only within the user's addresses, to a page boundary and without a change of its
    length, and that an address which a file chooses is an error or leaves room for the range. *)
Theorem mmap_exact s l file addr len prot flags pgoff extra new :
  files_ok -> Mm s l -> 0 <= addr < 4294967296 -> 0 <= len < 4294967296 ->
  spare s l extra -> spare s l new -> (extra = new -> new = 0) ->
  (PAGE_ALIGN len = 0 -> do_mmap_pgoff file addr len prot flags pgoff extra new s =
     Ok (if truth file && negb (bool_decide (is_Some (f_mmap (files file)))) then err ENODEV else addr, s)) /\
  (PAGE_ALIGN len <> 0 ->
   (exists r s', do_mmap_pgoff file addr len prot flags pgoff extra new s = Ok (r, s') /\
      mmap_done s l file addr (PAGE_ALIGN len) prot flags pgoff extra r s') \/
   (do_mmap_pgoff file addr len prot flags pgoff extra new s = Bug /\
      mmap_buggy s l file addr (PAGE_ALIGN len) prot flags pgoff)).
Proof using All.
  intros HF HM Ha Hlen0 Hx Hnew Hne. unfold do_mmap_pgoff. split.
  { intros ->. destruct (truth file && _); done. }
  intros Hz. assert (Hlen : 0 < len <= 4294963200).
  { destruct (decide (len = 0)) as [->|]; [done|]. destruct (decide (4294963200 < len)); [|lia]. by rewrite align_wraps in Hz by lia. }
  destruct (PAGE_ALIGN_spec len) as [Hlal Hlb]; [lia|]. 
  assert (Hself : cached s s) by (by destruct s).
  assert (Hfail : forall e s1, 0 < e < 4096 -> cached s s1 -> Mm s1 l -> (exists r s', (mret (err e) : V Z) s1 = Ok (r, s') /\
    mmap_done s l file addr (PAGE_ALIGN len) prot flags pgoff extra r s') \/
    ((mret (err e) : V Z) s1 = Bug /\ mmap_buggy s l file addr (PAGE_ALIGN len) prot flags pgoff)).
  { intros e s1 He Hc HM1. left. eexists _, s1. split; [done|]. right. split; [|by left]. apply err_unaligned; unfold errno; lia. }
  set (L := PAGE_ALIGN len) in *.
  destruct (truth file && _) eqn:Ef; [by apply Hfail|].
  cbv zeta. fold L. destruct (Z.eqb_spec L 0); [done|].
  destruct (Z.ltb_spec TASK_SIZE L); [by apply Hfail|].
  destruct (u32 (pgoff + _) <? pgoff); [by apply Hfail|].
  rewrite !(bindV _ (mm_get map_count) _ _ _ eq_refl).
  destruct (max_map_count lim <? map_count s); [by apply Hfail|].
  destruct (get_unmapped_correct s l file addr L pgoff flags HF HM Ha ltac:(lia)) as (r & s1 & E & Hc & HM1 & Hr).
  rewrite !(bindV _ _ _ _ _ E). clear E.
  destruct (truth (r .& _)); [left; eexists _, s1; split; [done|]; right; split; [done|by left]|].
  destruct Hr as (Hral & Hr0 & Hrt & Hreq).
  rewrite !(bindV _ (mm_get def_flags) _ _ _ eq_refl). unfold locked_too_much.
  rewrite !bindV_assoc, !(bindV _ (mm_get locked_vm) _ _ _ eq_refl), !(bindV _ (mret _) _ _ _ eq_refl).
  destruct (_ && (rlim_memlock lim <? _)); [by apply Hfail|].
  replace (def_flags s1) with (def_flags s) by (rewrite Hc; by destruct s). fold (wanted_flags s prot flags).
  destruct (map_flags file prot flags _) as [vm_flags|e] eqn:Efl.
  2: { apply Hfail; [|done|done]. by eapply map_flags_errno. }
  assert (Hop : truth file = true -> is_Some (f_mmap (files file))).
  { intros Hfile. rewrite Hfile in Ef. cbn [andb] in Ef. apply negb_false_iff in Ef. by apply bool_decide_eq_true_1 in Ef. }
  destruct (map_room_correct s1 l file r L flags pgoff vm_flags extra new) as [(r' & s' & E & HR)|(E & Hfile & HB)]; try done.
  - by eapply map_flags_shared.
  - lia.
  - by eapply cached_spare.
  - by eapply cached_spare.
  - left. exists r', s'. split; [done|]. destruct HR as [[Hu ->]|[HR|(Hu & l' & HR)]]; [right|left|right].
    + split; [done|by left].
    + apply (cached_placed s) in HR; [|done]. pose proof HR as (_ & (K1 & K2 & K3) & _). split_and!; [done|done|done|]. by exists r, vm_flags.
    + split; [done|]. right. exists r, l'. split; [done|]. by eapply cached_unmapped.
  - right. split; [done|]. split; [done|]. exists r, vm_flags. split_and!; [done|done|]. by eapply cached_collides.
Qed.

(** ** [do_brk] and [sys_brk] *)
Definition brk_flags (s : mm_struct) : Z := VM_DATA_DEFAULT_FLAGS .| def_flags s.

Lemma do_brk_correct s l addr len extra new :
  Mm s l -> 0 <= addr /\ 0 < len /\ addr + len <= TASK_SIZE -> (PAGE_SIZE | addr) /\ (PAGE_SIZE | len) ->
  spare s l extra -> spare s l new -> (extra = new -> new = 0) ->
  exists r s', do_brk addr len extra new s = Ok (r, s') /\
    ((r = addr /\ exists l', mapped_range s l addr (addr + len) (fun _ => (brk_flags s, 0, 0)) s' l') \/
     (~ (PAGE_SIZE | r) /\ exists l', unmapped_range s l addr (addr + len) extra s' l') \/
     (~ (PAGE_SIZE | r) /\ s' = s)).
Proof using All.
  intros HM Hrange Hal Hx Hnew Hne. unfold do_brk.
  rewrite (PAGE_ALIGN_id len) by (unfold TASK_SIZE in *; lia || apply Hal). cbv zeta.
  destruct (Z.eqb_spec len 0); [lia|]. rewrite (bindV _ (mm_get def_flags) _ _ _ eq_refl). unfold locked_too_much.
  rewrite bindV_assoc, (bindV _ (mm_get locked_vm) _ _ _ eq_refl), (bindV _ (mret _) _ _ _ eq_refl).
  destruct (_ && (rlim_memlock lim <? _)).
  { eexists _, s. split; [done|]. right; right. split; [by apply err_unaligned|done]. }
  destruct (munmap_back_correct addr len extra Hrange Hal s l HM Hx) as (r & s1 & E & [[-> ->]|(k & l1 & -> & HU & HP)]);
    rewrite (bindV _ _ _ _ _ E).
  { eexists _, s. split; [done|]. right; right. split; [by apply err_unaligned|done]. }
  assert (Hfail : (~ (PAGE_SIZE | err ENOMEM) /\ exists l', unmapped_range s l addr (addr + len) extra s1 l')).
  { split; [by apply err_unaligned|by exists l1]. }
  unfold too_big. rewrite bindV_assoc, (bindV _ (mm_get total_vm) _ _ _ eq_refl), (bindV _ (mret _) _ _ _ eq_refl).
  rewrite (bindV _ (mm_get map_count) _ _ _ eq_refl).
  destruct (_ || negb (vm_enough_memory _ _)); [by eexists _, s1; split; [|right; left]|]. cbn [place_of].
  fold (brk_flags s). set (flags := brk_flags s).
  assert (Hlink : exists r s', brk_new addr len flags (last0 (before k)) (link_of k) (top k) new s1 = Ok (r, s') /\
    ((r = addr /\ exists l', mapped_range s l addr (addr + len) (fun _ => (flags, 0, 0)) s' l') \/
     (~ (PAGE_SIZE | r) /\ exists l', unmapped_range s l addr (addr + len) extra s' l') \/
     (~ (PAGE_SIZE | r) /\ s' = s))).
  { destruct (brk_new_correct s l addr len extra Hrange Hal s1 l1 k flags new HU HP) as (r & s' & Er & [H|H]);
      [by eapply spare_kept|..]; exists r, s'; (split; [done|]); [by left|by right; left]. }
  destruct (truth (top k)) eqn:Htop; [|by rewrite (bindV _ (mret false) _ _ _ eq_refl)].
  destruct (merge_correct s l addr len extra Hrange Hal s1 l1 k flags HU HP Htop) as (b & s2 & E2 & Hb).
  rewrite (bindV _ _ _ _ _ E2). destruct b; [|by subst s2].
  destruct Hb as (s' & l' & E3 & HR). exists addr, s'. split; [done|]. left. split; [done|]. by exists l'.
Qed.

Lemma intersection_correct s l start_addr end_addr : Mm s l -> start_addr < end_addr ->
  exists v s', find_vma_intersection start_addr end_addr s = Ok (v, s') /\ cached s s' /\ Mm s' l /\
    (truth v = false <-> unmapped s l start_addr end_addr).
Proof using.
  clear g lim files has_open has_close shmem_file shmem_vm_ops.
  intros HM Hlt. unfold find_vma_intersection.
  destruct (find_vma_split s l start_addr HM) as (l1 & l2 & s1 & (El & Hlow & Hhigh) & E & Hc & HM1).
  rewrite (bindV _ _ _ _ _ E). pose proof (cached_ar _ _ Hc) as Ear. rewrite Forall_forall in Hlow, Hhigh. unfold low, high in *.
  pose proof (mm_ok _ _ HM) as HA.
  destruct l2 as [|a l2].
  { exists 0, s1. split_and!; try done. split; [|done]. intros _ b Hb. left. apply Hlow. by rewrite El, app_nil_r in Hb. }
  cbn [hd0 hd]. assert (Ha : a ∈ l) by (rewrite El; set_solver). pose proof (Hhigh a ltac:(left)) as Hha.
  pose proof (Areas_nonzero _ _ _ HA Ha) as Ha0. rewrite truth_nz by done.
  rewrite (bindV _ _ _ _ _ (vma_get_ok s1 a vm_start (area_of _ _ (mm_ok _ _ HM1) _ Ha))), Ear.
  destruct (Z.leb_spec end_addr (vm_start (ar s a))) as [Hle|Hgt]; eexists _, s1; (split_and!; [done..|]).
  - split; [|done]. intros _. replace end_addr with (start_addr + (end_addr - start_addr)) by lia.
    apply (free_above s l (end_addr - start_addr) HA l1 (a :: l2)); [done|done|]. right. simpl. lia.
  - rewrite truth_nz by done. split; [done|]. intros Hun. destruct (Hun a Ha); lia.
Qed.

(** The heap ends where it was, or at the address asked for, with the pages between mapped or not. *)
Definition brk_done (s : mm_struct) (l : list Z) (new_brk : Z) (s' : mm_struct) (l' : list Z) : Prop :=
  let oldbrk := PAGE_ALIGN (brk s) in
  let newbrk := PAGE_ALIGN new_brk in
  Mm s' l' /\ (accounted s l [] -> accounted s' l' []) /\
  ((brk s' = new_brk /\ (oldbrk < newbrk -> unmapped s l oldbrk newbrk) /\
    forall x w, mapped_as s' l' x w <->
      (oldbrk <= x < newbrk /\ w = (brk_flags s, 0, 0)) \/ (mapped_as s l x w /\ ~ (newbrk <= x < oldbrk))) \/
   (brk s' = brk s /\ forall x w, mapped_as s' l' x w <-> mapped_as s l x w)).

Lemma set_brk_mm s b l : (Mm s l -> Mm (s <| brk := b |>) l) /\ (accounted s l [] -> accounted (s <| brk := b |>) l []) /\
  (forall x w, mapped_as (s <| brk := b |>) l x w <-> mapped_as s l x w).
Proof using.
  clear g lim files has_open has_close shmem_file shmem_vm_ops. split_and!.
  - intros [M1 M2 M3]. constructor; [|done|done]. by apply (areas_ext s).
  - unfold accounted. intros H. by rewrite !(bytes_ext s (s <| brk := b |>)) by done.
  - intros x w. by apply mapped_ext.
Qed.

Lemma PAGE_ALIGN_le x y : 0 <= x <= y -> y <= 4294963200 -> PAGE_ALIGN x <= PAGE_ALIGN y.
Proof using.
  clear g lim files has_open has_close shmem_file shmem_vm_ops. intros Hx Hy.
  destruct (PAGE_ALIGN_spec x) as [[p Hp] Hbx]; [lia|]. destruct (PAGE_ALIGN_spec y) as [[q Hq] Hby]; [lia|].
  unfold PAGE_SIZE in *. lia.
Qed.

(** An outcome of [sys_brk] that leaves the heap as it was. *)
Lemma brk_kept s l new_brk s' l' : Mm s' l' -> (accounted s l [] -> accounted s' l' []) -> brk s' = brk s ->
  (forall x w, mapped_as s' l' x w <-> mapped_as s l x w) ->
  exists s'', brk_out s' = Ok (brk s'', s'') /\ exists l', brk_done s l new_brk s'' l'.
Proof using.
  intros HM Ha Hb Hm. exists s'. split; [done|]. exists l'. unfold brk_done. split_and!; [done|done|by right].
Qed.
(** An outcome that moves its end. *)
Lemma brk_moved s l new_brk s' l' : Mm s' l' -> (accounted s l [] -> accounted s' l' []) ->
  (PAGE_ALIGN (brk s) < PAGE_ALIGN new_brk -> unmapped s l (PAGE_ALIGN (brk s)) (PAGE_ALIGN new_brk)) ->
  (forall x w, mapped_as s' l' x w <->
    (PAGE_ALIGN (brk s) <= x < PAGE_ALIGN new_brk /\ w = (brk_flags s, 0, 0)) \/
    (mapped_as s l x w /\ ~ (PAGE_ALIGN new_brk <= x < PAGE_ALIGN (brk s)))) ->
  exists s'', set_brk new_brk s' = Ok (brk s'', s'') /\
    exists l', brk_done s l new_brk s'' l'.
Proof using.
  intros HM Ha Hun Hm. eexists. split; [done|]. exists l'. destruct (set_brk_mm s' new_brk l') as (H1 & H2 & H3).
  unfold brk_done. split_and!; [auto|auto|]. left. split_and!; [done|done|]. intros x w. by rewrite H3.
Qed.

Section Brk.
Context (s : mm_struct) (l : list Z) (new_brk extra new : Z).
Hypothesis HM : Mm s l.
Hypothesis Hb : 0 <= brk s <= TASK_SIZE.
Hypothesis Hn : 0 <= new_brk <= TASK_SIZE.
Hypothesis Hx : spare s l extra.

Lemma brk_aligned b : 0 <= b <= TASK_SIZE ->
  (PAGE_SIZE | PAGE_ALIGN b) /\ b <= PAGE_ALIGN b < b + PAGE_SIZE /\ PAGE_ALIGN b <= TASK_SIZE.
Proof using.
  intros H. destruct (PAGE_ALIGN_spec b) as [H1 H2]; [unfold TASK_SIZE in *; lia|]. split_and!; try apply H2; [done|].
  exact (PAGE_ALIGN_le b TASK_SIZE ltac:(lia) ltac:(done)).
Qed.

Lemma brk_shrink_correct : PAGE_ALIGN new_brk < PAGE_ALIGN (brk s) ->
  exists s', brk_shrink new_brk (PAGE_ALIGN new_brk) (PAGE_ALIGN (brk s)) extra s = Ok (brk s', s') /\
    exists l', brk_done s l new_brk s' l'.
Proof using All.
  intros Hlt. destruct (brk_aligned _ Hb) as (Hoal & Hob & HoT). destruct (brk_aligned _ Hn) as (Hnal & Hnb & HnT).
  unfold brk_shrink.
  rewrite (u32_id (_ - _)) by (unfold TASK_SIZE in *; lia).
  assert (Hlen : PAGE_ALIGN (PAGE_ALIGN (brk s) - PAGE_ALIGN new_brk) = PAGE_ALIGN (brk s) - PAGE_ALIGN new_brk).
  { apply PAGE_ALIGN_id; [unfold TASK_SIZE in *; lia|by apply Z.divide_sub_r]. }
  destruct (do_munmap_correct (max_map_count lim) has_open has_close s l (PAGE_ALIGN new_brk)
              (PAGE_ALIGN (brk s) - PAGE_ALIGN new_brk) extra HM) as (ret & s1 & E & Hret); try done;
    [unfold TASK_SIZE in *; lia..|].
  unfold munmap_of. rewrite (bindV _ _ _ _ _ E).
  destruct Hret as [(-> & Hbad & ->)|[(-> & _ & -> & _)|(-> & _ & l1 & [U1 U2 U3 _ U4 U5])]].
  + exfalso. unfold bad_range in Hbad. destruct Hbad as [H|[H|[H|H]]]; [done|lia..].
  + by apply brk_kept with l.
  + rewrite Hlen, Zplus_minus in *. apply (brk_moved s l new_brk s1 l1); [done|done|lia|].
    intros x w. rewrite U2. split; [by right|]. intros [[? _]|?]; [lia|done].
Qed.

Hypothesis Hnew : spare s l new.
Hypothesis Hne : extra = new -> new = 0.

Lemma brk_grow_correct : PAGE_ALIGN (brk s) < PAGE_ALIGN new_brk ->
  exists s', brk_grow new_brk (PAGE_ALIGN new_brk) (PAGE_ALIGN (brk s)) extra new s = Ok (brk s', s') /\
    exists l', brk_done s l new_brk s' l'.
Proof using All.
  intros Hlt. destruct (brk_aligned _ Hb) as (Hoal & Hob & HoT). destruct (brk_aligned _ Hn) as (Hnal & Hnb & HnT).
  unfold brk_grow.
  rewrite (bindV _ (mm_get start_data) _ _ _ eq_refl). destruct (_ && _); [by apply brk_kept with l|].
  rewrite (u32_id (_ + PAGE_SIZE)), (u32_id (_ - PAGE_ALIGN (brk s))) by (unfold TASK_SIZE, PAGE_SIZE in *; lia).
  destruct (intersection_correct s l (PAGE_ALIGN (brk s)) (PAGE_ALIGN new_brk + PAGE_SIZE)) as (v & s1 & E & Hc & HM1 & Hv);
    [done|unfold PAGE_SIZE; lia|].
  rewrite (bindV _ _ _ _ _ E). clear E. pose proof (cached_ar _ _ Hc) as Ear.
  assert (Hkept : exists s'', brk_out s1 = Ok (brk s'', s'') /\ exists l', brk_done s l new_brk s'' l').
  { apply brk_kept with l; [done| |rewrite Hc; by destruct s|].
    - rewrite Hc. unfold accounted. intros H. by rewrite !(bytes_ext s (s <| mmap_cache := _ |>)) by done.
    - intros x w. apply mapped_ext. intros; by rewrite Ear. }
  destruct (truth v); [done|]. destruct Hv as [Hun _]. specialize (Hun eq_refl).
  destruct (negb (vm_enough_memory g _)); [done|].
  assert (Hun' : unmapped s l (PAGE_ALIGN (brk s)) (PAGE_ALIGN new_brk)).
  { intros a Ha. destruct (Hun a Ha); [by left|right; unfold PAGE_SIZE in *; lia]. }
  destruct (do_brk_correct s1 l (PAGE_ALIGN (brk s)) (PAGE_ALIGN new_brk - PAGE_ALIGN (brk s)) extra new)
    as (r & s2 & E & HR); try done; [lia|by split; [|apply Z.divide_sub_r]|by eapply cached_spare..|].
  rewrite (bindV _ _ _ _ _ E). rewrite Zplus_minus in HR.
  destruct HR as [(-> & l' & HR)|[(Hr & l' & HR)|(Hr & ->)]].
  + rewrite Z.eqb_refl. cbn [negb]. eapply cached_mapped in HR; [|done]. destruct HR as [M1 M2 M3 M4 M5].
    apply (brk_moved s l new_brk s2 l'); [done|done|done|]. intros x w. rewrite M2.
    replace (brk_flags s1) with (brk_flags s) by (rewrite Hc; by destruct s). split.
    * intros [H|[H1 H2]]; [by left|right; split; [done|lia]].
    * intros [H|[(a & Ha & Hcov & Hw) H2]]; [by left|right]. split; [|by exists a].
      destruct (Hun' a Ha); unfold covers in Hcov; lia.
  + destruct (Z.eqb_spec r (PAGE_ALIGN (brk s))) as [->|]; [done|]. cbn [negb].
    eapply cached_unmapped in HR; [|done]. destruct HR as [U1 U2 U3 _ U4 U5].
    apply brk_kept with l'; [done|done|apply U5|]. intros x w. rewrite U2. split; [tauto|].
    intros H. split; [done|]. destruct H as (a & Ha & Hcov & Hw). destruct (Hun' a Ha); unfold covers in Hcov; lia.
  + destruct (Z.eqb_spec r (PAGE_ALIGN (brk s))) as [->|]; [done|]. done.
Qed.
End Brk.

Lemma sys_brk_correct s l new_brk extra new :
  Mm s l -> 0 <= brk s <= TASK_SIZE -> 0 <= new_brk <= TASK_SIZE ->
  spare s l extra -> spare s l new -> (extra = new -> new = 0) ->
  exists s', sys_brk new_brk extra new s = Ok (brk s', s') /\ exists l', brk_done s l new_brk s' l'.
Proof using All.
  intros HM Hb Hn Hx Hnew Hne. unfold sys_brk. cbv zeta. rewrite (bindV _ (mm_get end_code) _ _ _ eq_refl).
  destruct (new_brk <? end_code s); [by apply brk_kept with l|].
  rewrite (bindV _ (mm_get brk) _ _ _ eq_refl).
  destruct (Z.eqb_spec (PAGE_ALIGN (brk s)) (PAGE_ALIGN new_brk)) as [Heq|Hneq].
  { apply (brk_moved s l new_brk s l); [done|done|lia|]. intros x w. rewrite Heq.
    split; [intros; right; split; [done|lia]|intros [[? _]|[? _]]; [lia|done]]. }
  destruct (Z.leb_spec new_brk (brk s)) as [Hle|Hgt].
  - pose proof (PAGE_ALIGN_le new_brk (brk s) ltac:(lia) ltac:(unfold TASK_SIZE in *; lia)).
    apply brk_shrink_correct; [done..|lia].
  - pose proof (PAGE_ALIGN_le (brk s) new_brk ltac:(lia) ltac:(unfold TASK_SIZE in *; lia)).
    apply brk_grow_correct; [done..|lia].
Qed.

End Mmap.

(** [arch_get_unmapped_area] never faults and its loop ends. It returns the address that was
    asked for, rounded up to a page, if the range there is free and one of the user's; else the
    lowest address from [TASK_UNMAPPED_BASE] on where the range is free, and [-ENOMEM] only if there
    is none. At most the cache of [find_vma] changes. *)
Theorem unmapped_area_exact s l addr len : Mm s l -> 0 < len ->
  exists r s', arch_get_unmapped_area addr len s = Ok (r, s') /\ cached s s' /\ Mm s' l /\ chosen s l addr len r.
Proof. apply arch_area_correct. Qed.

Lemma unmapped_area_exact_witness :
  exists r s', arch_get_unmapped_area 0x9001 8192 sample_mm = Ok (r, s') /\ cached sample_mm s' /\
    Mm s' sample_areas /\ chosen sample_mm sample_areas 0x9001 8192 r.
Proof. apply (unmapped_area_exact sample_mm sample_areas 0x9001 8192 sample_mm_ok). lia. Defined.

(** ** A system *)
Definition sample_memory : memory := Build_memory 1 0 0 0 0 0 0.
Definition sample_limits : limits := Build_limits RLIM_INFINITY RLIM_INFINITY RLIM_INFINITY 65536.
(** A file whose [mmap] sets the operations of the area, and that chooses no address. *)
Definition sample_file : finfo := Build_finfo 3 false 0 0 (Some (fun v => (0, v <| vm_ops := 5 |>))) None.
Lemma sample_files_ok : files_ok (fun _ => sample_file) 11.
Proof. constructor; [|done|done|done]. intros file op v [= <-]. split; [done|]. intros _ H1 H2. cbn. auto. Qed.
(** One whose [mmap] moves the area by 16 MB, if it stays in the user's addresses. *)
Definition moving_file : finfo :=
  Build_finfo 3 false 0 0 (Some (fun v => if vm_end v <=? 0xb0000000 then (0, v <| vm_start := vm_start v + 0x1000000 |> <| vm_end := vm_end v + 0x1000000 |>) else (- EINVAL, v))) None.
Lemma moving_files_ok : files_ok (fun _ => moving_file) 11.
Proof.
  constructor; [|done|done|done]. intros file op v [= <-]. destruct (Z.leb_spec (vm_end v) 0xb0000000); [|done]. split; [done|].
  intros _ (H1 & H2 & H3 & H4 & H5) _. cbn. unfold area_ok, TASK_SIZE, PAGE_SIZE in *. cbn.
  split_and!; try lia; apply Z.divide_add_r; try done; by exists 4096.
Qed.

(** The file 7 is mapped over the end of the heap; and it is moved. *)
Lemma mmap_exact_witness :
  (exists r s', do_mmap_pgoff sample_memory sample_limits (fun _ => sample_file) (fun _ => false) (fun _ => false) 11 12
      7 0xd000 8192 (PROT_READ .| PROT_WRITE) (MAP_FIXED .| MAP_SHARED) 3 8 9 sample_mm = Ok (r, s') /\
    mmap_done (fun _ => sample_file) 11 12 sample_mm sample_areas 7 0xd000 (PAGE_ALIGN 8192)
      (PROT_READ .| PROT_WRITE) (MAP_FIXED .| MAP_SHARED) 3 8 r s') /\
  exists s', do_mmap_pgoff sample_memory sample_limits (fun _ => moving_file) (fun _ => false) (fun _ => false) 11 12
      7 0xd000 8192 (PROT_READ .| PROT_WRITE) (MAP_FIXED .| MAP_SHARED) 3 8 9 sample_mm = Ok (0x100d000, s') /\
    mmap_done (fun _ => moving_file) 11 12 sample_mm sample_areas 7 0xd000 (PAGE_ALIGN 8192)
      (PROT_READ .| PROT_WRITE) (MAP_FIXED .| MAP_SHARED) 3 8 0x100d000 s'.
Proof.
  assert (H8 : spare sample_mm sample_areas 8) by (right; apply sample_spare; by left).
  assert (H9 : spare sample_mm sample_areas 9) by (right; apply sample_spare; by right).
  split.
  - destruct (mmap_exact sample_memory sample_limits (fun _ => sample_file) (fun _ => false) (fun _ => false) 11 12
      sample_mm sample_areas 7 0xd000 8192 (PROT_READ .| PROT_WRITE) (MAP_FIXED .| MAP_SHARED) 3 8 9 sample_files_ok sample_mm_ok
      ltac:(lia) ltac:(lia) H8 H9 ltac:(done)) as [_ H]. destruct (H ltac:(done)) as [H'|[HB _]]; [exact H'|]. vm_compute in HB. discriminate HB.
  - destruct (mmap_exact sample_memory sample_limits (fun _ => moving_file) (fun _ => false) (fun _ => false) 11 12
      sample_mm sample_areas 7 0xd000 8192 (PROT_READ .| PROT_WRITE) (MAP_FIXED .| MAP_SHARED) 3 8 9 moving_files_ok sample_mm_ok
      ltac:(lia) ltac:(lia) H8 H9 ltac:(done)) as [_ H]. destruct (H ltac:(done)) as [(r & s' & E & H')|[HB _]]; [|vm_compute in HB; discriminate HB].
    assert (r = 0x100d000) as -> by (vm_compute in E; injection E as <- _; reflexivity). exists s'. split; [exact E|exact H'].
Defined.

(** C35. For an address of the user's, [sys_brk] never faults; it returns the end of the heap, which
    is the address asked for or the old one. In the first case exactly the pages between the old and
    the new end were added (they were free before) or removed; in the second all mappings are as
    they were. The structure of the areas and the account of the pages are kept. *)
Theorem brk_exact g lim has_open has_close s l new_brk extra new :
  Mm s l -> 0 <= brk s <= TASK_SIZE -> 0 <= new_brk <= TASK_SIZE ->
  spare s l extra -> spare s l new -> (extra = new -> new = 0) ->
  exists s', sys_brk g lim has_open has_close new_brk extra new s = Ok (brk s', s') /\ exists l', brk_done s l new_brk s' l'.
Proof. apply (sys_brk_correct g lim (fun _ => sample_file) has_open has_close 0 0). Qed.

(** The heap grows by three pages. *)
Lemma brk_exact_witness :
  exists s', sys_brk sample_memory sample_limits (fun _ => false) (fun _ => false) 0x10f00 8 9 sample_mm = Ok (brk s', s') /\
    exists l', brk_done sample_mm sample_areas 0x10f00 s' l'.
Proof.
  apply (brk_exact sample_memory sample_limits (fun _ => false) (fun _ => false) sample_mm sample_areas 0x10f00 8 9 sample_mm_ok).
  - done.
  - done.
  - right. apply sample_spare. by left.
  - right. apply sample_spare. by right.
  - done.
Defined.

(** ** Ranges that are not checked *)

(** [do_brk] and [sys_brk] do not compare the range with [TASK_SIZE]: where nothing is mapped above the
    heap, it grows over the addresses of the kernel. *)
Theorem brk_maps_kernel :
  exists s', (munmap_of sample_limits (fun _ => false) (fun _ => false) 0x40000000 8192 8;;
      sys_brk sample_memory sample_limits (fun _ => false) (fun _ => false) 0xc8000000 8 9) sample_mm = Ok (0xc8000000, s') /\
    covers (ar s' 3) (TASK_SIZE + 0x1000) /\ attr (ar s' 3) (TASK_SIZE + 0x1000) = (sample_flags, 0, 0).
Proof. eexists. split; [vm_compute; reflexivity|]. by vm_compute. Qed.

(** An address whose page is the last one is rounded up to 0, and the heap ends before it starts; its
    pages are not found any more. *)
Theorem brk_wraps_around :
  exists s', sys_brk sample_memory sample_limits (fun _ => false) (fun _ => false) 0xffffffff 8 9 sample_mm = Ok (0xffffffff, s') /\
    vm_start (ar s' 3) = 0xc000 /\ vm_end (ar s' 3) = 0 /\
    find_vma 0xd000 sample_mm = Ok (3, sample_mm) /\
    exists s'', find_vma 0xd000 s' = Ok (4, s'').
Proof. eexists. split; [vm_compute; reflexivity|]. split_and!; try done. eexists. vm_compute. reflexivity. Qed.

(** A length in the last page is rounded up to 0: [do_mmap_pgoff] returns the address as if it had
    mapped the range, and maps nothing. *)
Theorem mmap_wraps_around g lim files has_open has_close shmem_file shmem_vm_ops addr len prot flags pgoff extra new s :
  4294963200 < len < 4294967296 ->
  do_mmap_pgoff g lim files has_open has_close shmem_file shmem_vm_ops 0 addr len prot flags pgoff extra new s = Ok (addr, s).
Proof.
  intros Hlen. unfold do_mmap_pgoff. change (truth 0) with false. cbn [andb].
  by rewrite (align_wraps len Hlen).
Qed.
