(* ===== verification/Mprotect.v ===== *)
(** Changing the flags of a range of addresses: mm/mprotect.c.

    [sys_mprotect] walks over the areas of the range, cuts the first and the last one where they
    reach beyond it, and joins areas that have become alike. The two areas that it may allocate are
    parameters: [n1] for the cut at the start of the range and [n2] for the one at its end, 0 if the
    allocation fails. A copy of an area, [*n = *vma], includes its links in the list and the tree;
    they are set anew when it is inserted, and are left out here.

    The theorem [mprotect_exact]: what is mapped stays mapped, and the flags of exactly the range (of
    a part at its start, if there is an error) are replaced; no page gets an access that its area
    does not allow. The lemmas on cutting and joining are stated for any change of flags, and are
    used for mm/mlock.c too. *)
From stdpp Require Import sorting.
From S2P Require Import Prelude Bootmem Rbtree Vma Munmap Mmap.

Section Mprotect.
  Context (has_open : Z -> bool).

(** Whether the area can be joined to the previous one, once its flags are [newflags]. *)
Definition can_join (prev vma newflags : Z) : V bool :=
  if truth prev then
    pe ← vma_get prev vm_end;
    st ← vma_get vma vm_start;
    if pe =? st then
      ok ← can_vma_merge prev newflags;
      file ← vma_get vma vm_file;
      flags ← vma_get vma vm_flags;
      mret (ok && negb (truth file) && negb (truth (flags .& VM_SHARED)))
    else mret false
  else mret false.

(** The area is joined to the previous one. *)
Definition join_areas (prev vma : Z) : V unit :=
  e ← vma_get vma vm_end;
  vma_set prev (fun v => v <| vm_end := e |>);;
  __vma_unlink vma prev;;
  call_out (Kmem_cache_free vma);;
  count_map (-1).

(** The fixups return an error and the area that is then the previous one. *)
Definition mprotect_fixup_all (vma prev newflags prot : Z) : V (Z * Z) :=
  join ← can_join prev vma newflags;
  if join : bool then
    join_areas prev vma;;
    mret (0, prev)
  else
    vma_set vma (fun v => v <| vm_flags := newflags |> <| vm_page_prot := prot |>);;
    mret (0, vma).

(** What the copies of an area take: a reference to its file, and the operation [open]. *)
Definition hold_copy (n : Z) (v : vm_area) : V unit :=
  whenV (truth (vm_file v)) (call_out (Get_file (vm_file v)));;
  whenV (truth (vm_ops v) && has_open (vm_ops v)) (call_out (Vm_open (vm_ops v) n)).

Definition mprotect_fixup_start (vma prev end_ newflags prot n : Z) : V (Z * Z) :=
  join ← can_join prev vma newflags;
  if join : bool then
    vma_set prev (fun v => v <| vm_end := end_ |>);;
    vma_set vma (fun v => v <| vm_start := end_ |>);;
    mret (0, vma)
  else if negb (truth n) then mret (- ENOMEM, vma)
  else
    v ← vma_get vma id;
    vma_set n (fun _ => v <| vm_end := end_ |> <| vm_flags := newflags |> <| vm_raend := 0 |> <| vm_page_prot := prot |>);;
    hold_copy n v;;
    vma_set vma (fun v => v <| vm_pgoff := u32 (vm_pgoff v + (u32 (end_ - vm_start v) .>> PAGE_SHIFT)) |>);;
    vma_set vma (fun v => v <| vm_start := end_ |>);;
    __insert_vm_struct n;;
    mret (0, vma).

Definition mprotect_fixup_end (vma prev start newflags prot n : Z) : V (Z * Z) :=
  if negb (truth n) then mret (- ENOMEM, prev)
  else
    v ← vma_get vma id;
    vma_set n (fun _ => v <| vm_start := start |>
      <| vm_pgoff := u32 (vm_pgoff v + (u32 (start - vm_start v) .>> PAGE_SHIFT)) |>
      <| vm_flags := newflags |> <| vm_raend := 0 |> <| vm_page_prot := prot |>);;
    hold_copy n v;;
    vma_set vma (fun v => v <| vm_end := start |>);;
    __insert_vm_struct n;;
    mret (0, n).

Definition mprotect_fixup_middle (vma prev start end_ newflags prot left right : Z) : V (Z * Z) :=
  if negb (truth left) then mret (- ENOMEM, prev)
  else if negb (truth right) then call_out (Kmem_cache_free left);; mret (- ENOMEM, prev)
  else
    v ← vma_get vma id;
    vma_set left (fun _ => v <| vm_end := start |> <| vm_raend := 0 |>);;
    vma_set right (fun _ => v <| vm_start := end_ |>
      <| vm_pgoff := u32 (vm_pgoff v + (u32 (end_ - vm_start v) .>> PAGE_SHIFT)) |> <| vm_raend := 0 |>);;
    whenV (truth (vm_file v)) (call_out (Get_file (vm_file v));; call_out (Get_file (vm_file v)));;
    whenV (truth (vm_ops v) && has_open (vm_ops v))
      (call_out (Vm_open (vm_ops v) left);; call_out (Vm_open (vm_ops v) right));;
    vma_set vma (fun v => v <| vm_pgoff := u32 (vm_pgoff v + (u32 (start - vm_start v) .>> PAGE_SHIFT)) |>
      <| vm_raend := 0 |> <| vm_page_prot := prot |>);;
    vma_set vma (fun v => v <| vm_start := start |> <| vm_end := end_ |> <| vm_flags := newflags |>);;
    __insert_vm_struct left;;
    __insert_vm_struct right;;
    mret (0, right).

Definition mprotect_fixup (vma prev start end_ newflags n1 n2 : Z) : V (Z * Z) :=
  flags ← vma_get vma vm_flags;
  if newflags =? flags then mret (0, vma)
  else
    let newprot := get protection_map (newflags .& 0xf) in
    st ← vma_get vma vm_start;
    e ← vma_get vma vm_end;
    '(error, prev) ←
      (if start =? st then
         if end_ =? e then mprotect_fixup_all vma prev newflags newprot
         else mprotect_fixup_start vma prev end_ newflags newprot n2
       else if end_ =? e then mprotect_fixup_end vma prev start newflags newprot n1
       else mprotect_fixup_middle vma prev start end_ newflags newprot n1 n2);
    if truth error then mret (error, prev)
    else
      call_out (Change_protection start end_ newprot);;
      mret (0, prev).

Definition new_flags (prot flags : Z) : Z :=
  prot .| (flags .& Z.lnot (PROT_READ .| PROT_WRITE .| PROT_EXEC)).
Definition denied (newflags : Z) : bool := truth ((newflags .& Z.lnot (newflags .>> 4)) .& 0xf).

(** The loop; it returns the last area and the next one when the range ends with an area. *)
Fixpoint mprotect_loop (fuel : nat) (vma prev nstart end_ prot n1 n2 : Z) : V (Z * option (Z * Z)) :=
  match fuel with
  | O => BUG
  | S fuel =>
    flags ← vma_get vma vm_flags;
    let newflags := new_flags prot flags in
    if denied newflags then mret (- EACCES, None)
    else
      e ← vma_get vma vm_end;
      if end_ <? e then
        '(error, _) ← mprotect_fixup vma prev nstart end_ newflags n1 n2;
        mret (error, None)
      else
        let last := e =? end_ in
        next ← next_get vma;
        '(error, prev) ← mprotect_fixup vma prev nstart e newflags n1 n2;
        if truth error then mret (error, None)
        else if last then mret (0, Some (prev, next))
        else if negb (truth next) then mret (- ENOMEM, None)
        else
          st ← vma_get next vm_start;
          if negb (st =? e) then mret (- ENOMEM, None)
          else mprotect_loop fuel next prev e end_ prot n1 n2
  end.

(** The last area is joined with the one after the range. *)
Definition join_next (prev next : Z) : V unit :=
  if truth next then
    pe ← vma_get prev vm_end;
    st ← vma_get next vm_start;
    if pe =? st then
      flags ← vma_get prev vm_flags;
      ok ← can_vma_merge next flags;
      file ← vma_get prev vm_file;
      if ok && negb (truth file) && negb (truth (flags .& VM_SHARED)) then join_areas prev next
      else mret tt
    else mret tt
  else mret tt.

Definition sys_mprotect (start len prot n1 n2 : Z) : V Z :=
  if truth (start .& Z.lnot PAGE_MASK) then mret (- EINVAL)
  else
  let len := PAGE_ALIGN len in
  let end_ := u32 (start + len) in
  if end_ <? start then mret (- EINVAL)
  else if truth (prot .& Z.lnot (PROT_READ .| PROT_WRITE .| PROT_EXEC)) then mret (- EINVAL)
  else if end_ =? start then mret 0
  else
  '(vma, prev) ← find_vma_prev start;
  st ← (if truth vma then vma_get vma vm_start else mret 0);
  if negb (truth vma) || (start <? st) then mret (- ENOMEM)
  else
    '(error, rest) ← walk (fun fuel => mprotect_loop fuel vma prev start end_ prot n1 n2);
    match rest with
    | Some (prev, next) => join_next prev next;; mret error
    | None => mret error
    end.

End Mprotect.

(** ** Changing the flags of a range *)

(** What is at the address [x] when the flags of the range change. *)
Definition chg (nf : Z -> Z) (lo hi x : Z) (w : Z * Z * Z) : Z * Z * Z :=
  if (lo <=? x) && (x <? hi) then (nf w.1.1, w.1.2, w.2) else w.

(** The flags of the range are changed by [nf]; all else is kept. New areas are among [X]. *)
Record changed (nf : Z -> Z) (X : list Z) (s : mm_struct) (l : list Z) (lo hi : Z) (s' : mm_struct) (l' : list Z) : Prop := {
  ch_mm : Mm s' l';
  ch_mapped : forall x w, mapped_as s' l' x w <-> exists w0, mapped_as s l x w0 /\ w = chg nf lo hi x w0;
  ch_mem : mem_kept s s';
  ch_bytes : bytes s' l' = bytes s l;
  ch_total : total_vm s' = total_vm s;
  ch_sub : forall b, b ∈ l' -> b ∈ l \/ b ∈ X;
  ch_rest : brk s' = brk s /\ end_code s' = end_code s /\ start_data s' = start_data s /\ def_flags s' = def_flags s
}.

Lemma chg_in nf lo hi x w : lo <= x < hi -> chg nf lo hi x w = (nf w.1.1, w.1.2, w.2).
Proof. intros. unfold chg. by do 2 (case_cmp; [|lia]). Qed.
Lemma chg_out nf lo hi x w : ~ (lo <= x < hi) -> chg nf lo hi x w = w.
Proof. intros. unfold chg. destruct (Z.leb_spec lo x); destruct (Z.ltb_spec x hi); try done. lia. Qed.
Lemma chg_join nf lo m hi x w : lo <= m <= hi -> chg nf m hi x (chg nf lo m x w) = chg nf lo hi x w.
Proof.
  intros Hm. destruct (Z.lt_ge_cases x m).
  - rewrite (chg_out nf m hi) by lia. destruct (Z.le_gt_cases lo x); [by rewrite !chg_in by lia|by rewrite !chg_out by lia].
  - rewrite (chg_out nf lo m) by lia. destruct (Z.lt_ge_cases x hi); [by rewrite !chg_in by lia|by rewrite !chg_out by lia].
Qed.

Lemma changed_trans nf X s l lo m hi s1 l1 s2 l2 : lo <= m <= hi ->
  changed nf X s l lo m s1 l1 -> changed nf X s1 l1 m hi s2 l2 -> changed nf X s l lo hi s2 l2.
Proof.
  intros Hm [A1 A2 A3 A4 A5 A6 (A7 & A8 & A9 & A10)] [B1 B2 B3 B4 B5 B6 (B7 & B8 & B9 & B10)].
  constructor; try done; try congruence.
  - intros x w. rewrite B2. split.
    + intros (w1 & (w0 & H0 & ->)%A2 & ->). exists w0. by rewrite chg_join.
    + intros (w0 & H0 & ->). exists (chg nf lo m x w0). rewrite chg_join by done. split; [|done]. apply A2. by exists w0.
  - intros b Hb. auto.
  - intros b Hb. destruct (B6 b Hb); [auto|by right].
  - rewrite B7, B8, B9, B10. done.
Qed.

Lemma quiet_mm s s' l : quiet s s' -> Mm s l -> Mm s' l.
Proof.
  intros Q [M1 M2 M3]. pose proof (quiet_areas _ _ l Q M1) as HA.
  apply quiet_fields in Q as (_ & _ & _ & _ & E5 & E6 & _). constructor; [done|by rewrite E5|by rewrite E6].
Qed.
Lemma changed_nothing nf X s l lo s' : Mm s l -> quiet s s' -> changed nf X s l lo lo s' l.
Proof.
  intros HM Q. pose proof (quiet_ar _ _ Q) as Ear. pose proof (quiet_mm _ _ l Q HM) as HM'.
  pose proof (quiet_mem _ _ Q) as Hmem.
  apply quiet_fields in Q as (T1 & T2 & T3 & T4 & T5 & T6 & T7 & T8 & T9 & T10 & T11). constructor; try done.
  - intros x w. rewrite (mapped_ext s s') by (intros; by rewrite Ear). split.
    + intros H. exists w. by rewrite chg_out by lia.
    + intros (w0 & H & ->). by rewrite chg_out by lia.
  - apply bytes_ext. intros; by rewrite Ear.
  - tauto.
Qed.
(** Calls afterwards do not matter. *)
Lemma changed_quiet nf X s l lo hi s' l' s'' : changed nf X s l lo hi s' l' -> quiet s' s'' -> lo <= hi ->
  changed nf X s l lo hi s'' l'.
Proof.
  intros HC Q Hle. eapply changed_trans; [|exact HC|]; [lia|]. apply changed_nothing; [apply HC|done].
Qed.

(** One area of the list is replaced by the areas [P]. *)
Section Pieces.
Context (nf : Z -> Z) (X : list Z) (s : mm_struct) (l1 l2 : list Z) (a lo hi : Z).
Hypothesis HM : Mm s (l1 ++ a :: l2).
Hypothesis Hpart : vm_start (ar s a) <= lo /\ lo <= hi /\ hi <= vm_end (ar s a).

Lemma others_apart x b : b ∈ l1 ++ l2 -> covers (ar s b) x -> ~ covers (ar s a) x.
Proof using HM.
  intros Hb Hx Ha. destruct (sorted_split _ _ (mm_ok _ _ HM) _ _ _ eq_refl) as [H1 H2].
  rewrite Forall_forall in H1, H2. unfold covers, below in *.
  apply elem_of_app in Hb as [Hb|Hb]; [specialize (H1 b Hb)|specialize (H2 b Hb)]; lia.
Qed.

Lemma mapped_changed (M : Z -> Z * Z * Z -> Prop) :
  (forall x w, M x w <-> mapped_as s (l1 ++ l2) x w \/ (covers (ar s a) x /\ w = chg nf lo hi x (attr (ar s a) x))) ->
  forall x w, M x w <-> exists w0, mapped_as s (l1 ++ a :: l2) x w0 /\ w = chg nf lo hi x w0.
Proof using HM Hpart.
  intros HMap x w. rewrite HMap. split.
  - intros [H|[Hc ->]]; [|exists (attr (ar s a) x); split; [|done]; apply mapped_middle; by left].
    exists w. split; [apply mapped_middle; by right|]. destruct H as (b & Hb & Hc & _).
    rewrite chg_out; [done|]. intros Hx. apply (others_apart x b Hb Hc). unfold covers. lia.
  - intros (w0 & H & ->). apply mapped_middle in H as [[Hc ->]|H]; [by right|left].
    pose proof H as (b & Hb & Hc & _). rewrite chg_out; [done|].
    intros Hx. apply (others_apart x b Hb Hc). unfold covers. lia.
Qed.

Lemma pieces_changed s' l' P :
  Mm s' l' -> l' ≡ₚ P ++ l1 ++ l2 -> (forall b, b ∈ l1 ++ l2 -> ar s' b = ar s b) ->
  (forall x w, mapped_as s' P x w <-> covers (ar s a) x /\ w = chg nf lo hi x (attr (ar s a) x)) ->
  bytes s' P = vm_end (ar s a) - vm_start (ar s a) -> mem_kept s s' -> total_vm s' = total_vm s ->
  (forall b, b ∈ P -> b = a \/ b ∈ X) ->
  brk s' = brk s /\ end_code s' = end_code s /\ start_data s' = start_data s /\ def_flags s' = def_flags s ->
  changed nf X s (l1 ++ a :: l2) lo hi s' l'.
Proof using All.
  intros HM' Hp Hsame Hmap Hby Hmem Ht Hsub Hrest. constructor; try done.
  - apply mapped_changed. intros x w. rewrite (mapped_perm _ _ _ _ _ Hp), mapped_app, Hmap.
    rewrite (mapped_ext s s') by done. tauto.
  - rewrite (bytes_perm _ _ _ Hp), !bytes_app, Hby. rewrite !(bytes_ext s s') by (intros; apply Hsame; set_solver).
    cbn [bytes]. lia.
  - intros b. rewrite Hp. intros [Hb|Hb]%elem_of_app; [|left; set_solver].
    destruct (Hsub b Hb) as [->|]; [left; set_solver|by right].
Qed.
End Pieces.

(** ** Cutting *)

(** An area changes where it is, or shrinks. *)
Lemma only_resize X s t l1 a l2 va : Mm s (l1 ++ a :: l2) -> only_areas X s t -> (forall b, b ∈ l1 ++ l2 -> b ∉ X) ->
  vmas t !! a = Some va -> area_ok va -> vm_start (ar s a) <= vm_start va -> vm_end va <= vm_end (ar s a) ->
  Mm t (l1 ++ a :: l2).
Proof.
  intros HM Ho HX Ea Hok Hs He. pose proof (only_fields _ _ _ Ho) as (F1 & F2 & F3 & F4 & F5 & _).
  destruct (sorted_split _ _ (mm_ok _ _ HM) _ _ _ eq_refl) as [H1 H2]. rewrite Forall_forall in H1, H2. unfold below in *.
  constructor; [|by rewrite F4; apply HM|rewrite F5; apply HM].
  apply (areas_agree (with_vmas s (<[a := va]> (vmas s)))); [done|done|done| |].
  - intros b Hb. change (vmas (with_vmas s (<[a := va]> (vmas s)))) with (<[a := va]> (vmas s)).
    destruct (decide (b = a)) as [->|Hne]; [by rewrite lookup_insert_eq|].
    rewrite lookup_insert_ne by done. apply Ho, HX. set_solver.
  - apply areas_resize; [apply HM|done|..]; intros b Hb; [specialize (H1 b Hb)|specialize (H2 b Hb)]; lia.
Qed.

Lemma insert_piece t l1 l2 n : Mm t (l1 ++ l2) -> area_mem t n -> n ∉ l1 ++ l2 -> fits t l1 n l2 ->
  exists s', __insert_vm_struct n t = Ok (tt, s') /\ Mm s' (l1 ++ n :: l2) /\ vmas s' = vmas t /\ mem_kept t s' /\
    total_vm s' = total_vm t /\
    brk s' = brk t /\ end_code s' = end_code t /\ start_data s' = start_data t /\ def_flags s' = def_flags t.
Proof.
  intros HM Hmem Hn Hfit.
  destruct (insert_between t l1 l2 n (mm_ok _ _ HM) Hmem Hn Hfit)
    as (s' & E & [I1 I2 I3 (R1 & R2 & R3 & R4 & R5 & R6 & R7) I5 I6 _ _ _]).
  exists s'. split_and!; try done. constructor; [done| |].
  - rewrite I6, (mm_count _ _ HM). pose proof (Areas_length _ _ (mm_ok _ _ HM)).
    rewrite !length_app in *. cbn [length]. unfold s32. rewrite Z.mod_small; lia.
  - rewrite R1. destruct (mm_cache _ _ HM) as [|Hin]; [by left|right]. set_solver.
Qed.

(** A part of the area [A] with the flags [f]. *)
Record part_of (A v : vm_area) (lo hi f : Z) : Prop := {
  pt_start : vm_start v = lo;
  pt_end : vm_end v = hi;
  pt_flags : vm_flags v = f;
  pt_file : vm_file v = vm_file A;
  pt_pgoff : (lo = vm_start A /\ vm_pgoff v = vm_pgoff A) \/
    vm_pgoff v = u32 (vm_pgoff A + (u32 (lo - vm_start A) .>> PAGE_SHIFT))
}.

Lemma part_attr A v lo hi f x : area_ok A -> part_of A v lo hi f -> vm_start A <= lo -> (PAGE_SIZE | lo) ->
  lo <= x < 4294967296 -> attr v x = (f, (attr A x).1.2, (attr A x).2).
Proof.
  intros Hok [P1 P2 P3 P4 P5] Hlo Hal Hx. destruct P5 as [[P5 P6]|P5].
  - unfold attr. simpl. by rewrite P1, P3, P4, P5, P6.
  - rewrite <- (upper_attr A lo x Hok Hlo Hal Hx). unfold attr, upper_part, update. simpl. by rewrite P1, P3, P4, P5.
Qed.
Lemma part_ok A v lo hi f : area_ok A -> part_of A v lo hi f -> vm_start A <= lo < hi -> hi <= vm_end A ->
  (PAGE_SIZE | lo) /\ (PAGE_SIZE | hi) -> area_ok v.
Proof. intros (H1 & H2 & H3 & _) [P1 P2 _ _ _] ? ? [? ?]. unfold area_ok. rewrite P1, P2. split_and!; try done; lia. Qed.

(** What a part maps: the area with its flags changed, or as it was. *)
Lemma part_changed nf A v lo hi lo' hi' x w : area_ok A ->
  part_of A v lo' hi' (nf (vm_flags A)) -> vm_start A <= lo' -> hi' <= vm_end A -> (PAGE_SIZE | lo') -> lo <= lo' -> hi' <= hi ->
  covers v x /\ w = attr v x <-> lo' <= x < hi' /\ w = chg nf lo hi x (attr A x).
Proof.
  intros Hok HP H1 H2 H3 H4 H5. unfold covers. rewrite (pt_start _ _ _ _ _ HP), (pt_end _ _ _ _ _ HP).
  split; intros [Hx ->]; (split; [done|]); pose proof Hok as (_ & _ & Hmax & _);
    rewrite (part_attr A v lo' hi' _ x Hok HP) by (done || lia); by rewrite chg_in by lia.
Qed.
Lemma part_same nf A v lo hi lo' hi' x w : area_ok A ->
  part_of A v lo' hi' (vm_flags A) -> vm_start A <= lo' -> hi' <= vm_end A -> (PAGE_SIZE | lo') -> hi' <= lo \/ hi <= lo' ->
  covers v x /\ w = attr v x <-> lo' <= x < hi' /\ w = chg nf lo hi x (attr A x).
Proof.
  intros Hok HP H1 H2 H3 H4. unfold covers. rewrite (pt_start _ _ _ _ _ HP), (pt_end _ _ _ _ _ HP).
  split; intros [Hx ->]; (split; [done|]); pose proof Hok as (_ & _ & Hmax & _);
    rewrite (part_attr A v lo' hi' _ x Hok HP) by (done || lia); rewrite chg_out by lia; done.
Qed.

Lemma elem_mid (a : Z) l1 l2 : a ∈ l1 ++ a :: l2.
Proof. apply elem_of_app. right. left. Qed.

Section Cut.
Context (s t : mm_struct) (l1 l2 : list Z) (a : Z) (X : list Z) (va : vm_area).
Hypothesis HM : Mm s (l1 ++ a :: l2).
Hypothesis HX : forall b, b ∈ X -> b = a \/ (area_mem s b /\ b ∉ l1 ++ a :: l2).
Hypothesis HaX : a ∈ X.
Hypothesis Ho : only_areas X s t.
Hypothesis Ea : vmas t !! a = Some va.

Lemma cut_ok : area_ok (ar s a).
Proof using HM. apply (mm_areas _ _ (mm_ok _ _ HM)), elem_mid. Qed.
Lemma cut_others b : b ∈ l1 ++ l2 -> b ∉ X.
Proof using All.
  intros Hb HbX. destruct (nodup_out _ _ _ _ (mm_ok _ _ HM)) as [H1 H2].
  destruct (HX b HbX) as [->|[_ Hn]]; set_solver.
Qed.
Lemma cut_same b : b ∈ l1 ++ l2 -> ar t b = ar s b.
Proof using All. intros Hb. unfold ar. by rewrite (proj1 (proj2 Ho)) by (by apply cut_others). Qed.
Lemma cut_around b : (b ∈ l1 -> vm_end (ar t b) <= vm_start (ar s a)) /\ (b ∈ l2 -> vm_end (ar s a) <= vm_start (ar t b)).
Proof using All.
  destruct (sorted_split _ _ (mm_ok _ _ HM) _ _ _ eq_refl) as [H1 H2]. rewrite Forall_forall in H1, H2. unfold below in *.
  split; intros Hb; rewrite cut_same by set_solver; auto.
Qed.
Lemma cut_area b v : vmas t !! b = Some v -> ar t b = v.
Proof using. unfold ar. by intros ->. Qed.
Lemma cut_new n : n ∈ X -> n <> a -> area_mem t n /\ n ∉ l1 ++ a :: l2.
Proof using All.
  intros Hn Hne. destruct (HX n Hn) as [|[Hm Hl]]; [done|]. split; [|done].
  by apply (only_fields _ _ _ Ho).
Qed.

(** The area is cut in two at [m]; [n] is the lower part. *)
Lemma cut_low n m vn f1 f2 : n ∈ X -> n <> a -> vmas t !! n = Some vn ->
  vm_start (ar s a) < m < vm_end (ar s a) -> (PAGE_SIZE | m) ->
  part_of (ar s a) vn (vm_start (ar s a)) m f1 -> part_of (ar s a) va m (vm_end (ar s a)) f2 ->
  exists s', __insert_vm_struct n t = Ok (tt, s') /\ Mm s' (l1 ++ n :: a :: l2) /\ vmas s' = vmas t /\ mem_kept s s' /\
    total_vm s' = total_vm s /\
    brk s' = brk s /\ end_code s' = end_code s /\ start_data s' = start_data s /\ def_flags s' = def_flags s.
Proof using All.
  intros Hn Hne En Hm Hal P1 P2. pose proof cut_ok as Hok. pose proof Hok as (_ & _ & _ & Hal1 & Hal2).
  destruct (cut_new n Hn Hne) as [Hmem Hout].
  assert (HMt : Mm t (l1 ++ a :: l2)).
  { eapply only_resize; [exact HM|exact Ho|exact cut_others|exact Ea| | |].
    - eapply part_ok; [exact Hok|exact P2|lia|lia|tauto].
    - rewrite (pt_start _ _ _ _ _ P2). lia.
    - rewrite (pt_end _ _ _ _ _ P2). lia. }
  destruct (insert_piece t l1 (a :: l2) n HMt Hmem Hout) as (s' & E & HM' & Hv & Hk & Ht & Hr).
  - split_and!; [|apply Forall_forall|apply Forall_cons; split; [|apply Forall_forall]]; unfold below;
      rewrite ?(cut_area n vn En), ?(cut_area a va Ea), ?(pt_start _ _ _ _ _ P1), ?(pt_end _ _ _ _ _ P1), ?(pt_start _ _ _ _ _ P2).
    + eapply part_ok; [exact Hok|exact P1|lia|lia|tauto].
    + intros b Hb. by apply cut_around.
    + done.
    + intros b Hb. pose proof (proj2 (cut_around b) Hb). lia.
  - pose proof (only_fields _ _ _ Ho) as (_ & _ & _ & _ & _ & F6 & (F7 & F8 & F9 & F10) & F11).
    destruct Hr as (R1 & R2 & R3 & R4). exists s'. split_and!; try done; try congruence. intros b Hb. auto.
Qed.

(** The area is cut in two at [m]; [n] is the upper part. *)
Lemma cut_high n m vn f1 f2 : n ∈ X -> n <> a -> vmas t !! n = Some vn ->
  vm_start (ar s a) < m < vm_end (ar s a) -> (PAGE_SIZE | m) ->
  part_of (ar s a) va (vm_start (ar s a)) m f1 -> part_of (ar s a) vn m (vm_end (ar s a)) f2 ->
  exists s', __insert_vm_struct n t = Ok (tt, s') /\ Mm s' (l1 ++ a :: n :: l2) /\ vmas s' = vmas t /\ mem_kept s s' /\
    total_vm s' = total_vm s /\
    brk s' = brk s /\ end_code s' = end_code s /\ start_data s' = start_data s /\ def_flags s' = def_flags s.
Proof using All.
  intros Hn Hne En Hm Hal P1 P2. pose proof cut_ok as Hok. pose proof Hok as (_ & _ & _ & Hal1 & Hal2).
  destruct (cut_new n Hn Hne) as [Hmem Hout].
  assert (HMt : Mm t (l1 ++ a :: l2)).
  { eapply only_resize; [exact HM|exact Ho|exact cut_others|exact Ea| | |].
    - eapply part_ok; [exact Hok|exact P1|lia|lia|tauto].
    - rewrite (pt_start _ _ _ _ _ P1). lia.
    - rewrite (pt_end _ _ _ _ _ P1). lia. }
  rewrite (cons_middle a l1 l2), (app_assoc l1) in HMt.
  destruct (insert_piece t (l1 ++ [a]) l2 n HMt Hmem) as (s' & E & HM' & Hv & Hk & Ht & Hr).
  - by rewrite <- app_assoc.
  - split_and!; [|apply Forall_app; split; [|apply Forall_singleton]|]; rewrite ?Forall_forall; unfold below;
      rewrite ?(cut_area n vn En), ?(cut_area a va Ea), ?(pt_start _ _ _ _ _ P2), ?(pt_end _ _ _ _ _ P1), ?(pt_end _ _ _ _ _ P2).
    + eapply part_ok; [exact Hok|exact P2|lia|lia|tauto].
    + intros b Hb. pose proof (proj1 (cut_around b) Hb). lia.
    + done.
    + intros b Hb. by apply cut_around.
  - rewrite <- app_assoc in HM'.
    pose proof (only_fields _ _ _ Ho) as (_ & _ & _ & _ & _ & F6 & (F7 & F8 & F9 & F10) & F11).
    destruct Hr as (R1 & R2 & R3 & R4). exists s'. split_and!; try done; try congruence. intros b Hb. auto.
Qed.

(** The area is cut in three; it keeps the middle. *)
Lemma cut_mid n n' lo hi vn vn' f1 f2 f3 : n ∈ X -> n <> a -> n' ∈ X -> n' <> a -> n <> n' ->
  vmas t !! n = Some vn -> vmas t !! n' = Some vn' ->
  vm_start (ar s a) < lo -> lo < hi -> hi < vm_end (ar s a) -> (PAGE_SIZE | lo) /\ (PAGE_SIZE | hi) ->
  part_of (ar s a) vn (vm_start (ar s a)) lo f1 -> part_of (ar s a) va lo hi f2 -> part_of (ar s a) vn' hi (vm_end (ar s a)) f3 ->
  exists s', (__insert_vm_struct n;; __insert_vm_struct n') t = Ok (tt, s') /\
    Mm s' (l1 ++ n :: a :: n' :: l2) /\ vmas s' = vmas t /\ mem_kept s s' /\
    total_vm s' = total_vm s /\
    brk s' = brk s /\ end_code s' = end_code s /\ start_data s' = start_data s /\ def_flags s' = def_flags s.
Proof using All.
  intros Hn Hne Hn' Hne' Hnn En En' H1 H2 H3 Hal P1 P2 P3. pose proof cut_ok as Hok. pose proof Hok as (_ & _ & _ & Hal1 & Hal2).
  destruct (cut_new n Hn Hne) as [Hmem Hout]. destruct (cut_new n' Hn' Hne') as [Hmem' Hout'].
  pose proof (cut_area n vn En) as An. pose proof (cut_area n' vn' En') as An'. pose proof (cut_area a va Ea) as Aa.
  pose proof P1 as [S1 T1 _ _ _]. pose proof P2 as [S2 T2 _ _ _]. pose proof P3 as [S3 T3 _ _ _].
  assert (HMt : Mm t (l1 ++ a :: l2)).
  { eapply only_resize; [exact HM|exact Ho|exact cut_others|exact Ea| |lia|lia].
    eapply part_ok; [exact Hok|exact P2|lia|lia|tauto]. }
  destruct (insert_piece t l1 (a :: l2) n HMt Hmem Hout) as (s1 & E1 & HM1 & Hv1 & Hk1 & Ht1 & Hr1).
  { split_and!; [|apply Forall_forall|apply Forall_cons; split; [|apply Forall_forall]]; unfold below; rewrite An, ?Aa.
    - eapply part_ok; [exact Hok|exact P1|lia|lia|tauto].
    - intros b Hb. pose proof (proj1 (cut_around b) Hb). lia.
    - lia.
    - intros b Hb. pose proof (proj2 (cut_around b) Hb). lia. }
  replace (l1 ++ n :: a :: l2) with ((l1 ++ [n; a]) ++ l2) in HM1 by (by rewrite <- app_assoc).
  pose proof (ar_ext _ _ Hv1) as Ar1.
  destruct (insert_piece s1 (l1 ++ [n; a]) l2 n' HM1) as (s' & E & HM' & Hv & Hk & Ht & Hr).
  - by apply Hk1.
  - set_solver.
  - split_and!; [|apply Forall_app; split; [|apply Forall_cons; split; [|apply Forall_singleton]]|]; rewrite ?Forall_forall;
      unfold below; rewrite Ar1, An', ?An, ?Aa.
    + eapply part_ok; [exact Hok|exact P3|lia|lia|tauto].
    + intros b Hb. pose proof (proj1 (cut_around b) Hb). lia.
    + lia.
    + lia.
    + intros b Hb. pose proof (proj2 (cut_around b) Hb). lia.
  - rewrite <- app_assoc in HM'. rewrite (bindV _ _ _ _ _ E1).
    pose proof (only_fields _ _ _ Ho) as (_ & _ & _ & _ & _ & F6 & (F7 & F8 & F9 & F10) & F11).
    destruct Hr1 as (R1 & R2 & R3 & R4). destruct Hr as (R1' & R2' & R3' & R4').
    exists s'. split_and!; try done; try congruence. intros b Hb. auto.
Qed.
End Cut.

Lemma perm_pull (l1 P l2 : list Z) : l1 ++ P ++ l2 ≡ₚ P ++ l1 ++ l2.
Proof. by rewrite !app_assoc, (Permutation_app_comm l1 P). Qed.

Lemma two_ranges (P : Prop) x a m b : a <= m <= b ->
  (a <= x < m /\ P) \/ (m <= x < b /\ P) \/ False <-> a <= x < b /\ P.
Proof.
  intros Hm. split.
  - intros [[? ?]|[[? ?]|[]]]; (split; [lia|done]).
  - intros [Hx HP]. destruct (Z.lt_ge_cases x m); [left|right; left]; (split; [lia|done]).
Qed.
Lemma three_ranges (P : Prop) x a m m' b : a <= m <= m' -> m' <= b ->
  (a <= x < m /\ P) \/ (m <= x < m' /\ P) \/ (m' <= x < b /\ P) \/ False <-> a <= x < b /\ P.
Proof.
  intros H1 H2. rewrite (two_ranges P x m m' b) by lia. rewrite <- (two_ranges P x a m b) by lia. tauto.
Qed.

(** The three ways to change a part of an area. *)
Section CutChanged.
Context (nf : Z -> Z) (s t : mm_struct) (l1 l2 : list Z) (a : Z) (va : vm_area).
Hypothesis HM : Mm s (l1 ++ a :: l2).
Hypothesis Ea : vmas t !! a = Some va.

Lemma changed_low n hi vn : only_areas [a; n] s t -> area_mem s n -> n ∉ l1 ++ a :: l2 -> vmas t !! n = Some vn ->
  vm_start (ar s a) < hi < vm_end (ar s a) -> (PAGE_SIZE | hi) ->
  part_of (ar s a) vn (vm_start (ar s a)) hi (nf (vm_flags (ar s a))) ->
  part_of (ar s a) va hi (vm_end (ar s a)) (vm_flags (ar s a)) ->
  exists s', __insert_vm_struct n t = Ok (tt, s') /\ vmas s' = vmas t /\
    changed nf [n] s (l1 ++ a :: l2) (vm_start (ar s a)) hi s' (l1 ++ n :: a :: l2).
Proof using All.
  intros Ho Hmem Hout En Hm Hal P1 P2.
  assert (HX : forall b, b ∈ [a; n] -> b = a \/ (area_mem s b /\ b ∉ l1 ++ a :: l2)).
  { intros b [->|Hb]%elem_of_cons; [by left|]. apply list_elem_of_singleton in Hb as ->. by right. }
  assert (Hne : n <> a) by (intros ->; apply Hout, elem_mid).
  destruct (cut_low s t l1 l2 a [a; n] va HM HX ltac:(left) Ho Ea n hi vn _ _ ltac:(set_solver) Hne En Hm Hal P1 P2)
    as (s' & E & HM' & Hv & Hk & Ht & Hr).
  exists s'. split; [done|]. split; [done|]. pose proof (cut_ok s l1 l2 a HM) as Hok. pose proof Hok as (_ & _ & _ & Hal1 & _).
  assert (An : ar s' n = vn) by (unfold ar; by rewrite Hv, En). assert (Aa : ar s' a = va) by (unfold ar; by rewrite Hv, Ea).
  apply (pieces_changed nf [n] s l1 l2 a (vm_start (ar s a)) hi HM ltac:(lia) s' _ [n; a]); try done.
  - exact (perm_pull l1 [n; a] l2).
  - intros b Hb. rewrite (ar_ext _ _ Hv). exact (cut_same s t l1 l2 a [a; n] va HM HX ltac:(left) Ho Ea b Hb).
  - intros x w. rewrite !mapped_cons, mapped_nil, An, Aa.
    rewrite (part_changed nf (ar s a) vn (vm_start (ar s a)) hi _ _ x w Hok P1) by (done || lia).
    rewrite (part_same nf (ar s a) va (vm_start (ar s a)) hi _ _ x w Hok P2) by (done || lia).
    apply two_ranges. lia.
  - cbn [bytes]. rewrite An, Aa, (pt_start _ _ _ _ _ P1), (pt_end _ _ _ _ _ P1), (pt_start _ _ _ _ _ P2), (pt_end _ _ _ _ _ P2). lia.
  - intros b [->|Hb]%elem_of_cons; [right; left|]. apply list_elem_of_singleton in Hb as ->. by left.
Qed.

Lemma changed_high n lo vn : only_areas [a; n] s t -> area_mem s n -> n ∉ l1 ++ a :: l2 -> vmas t !! n = Some vn ->
  vm_start (ar s a) < lo < vm_end (ar s a) -> (PAGE_SIZE | lo) ->
  part_of (ar s a) va (vm_start (ar s a)) lo (vm_flags (ar s a)) ->
  part_of (ar s a) vn lo (vm_end (ar s a)) (nf (vm_flags (ar s a))) ->
  exists s', __insert_vm_struct n t = Ok (tt, s') /\ vmas s' = vmas t /\
    changed nf [n] s (l1 ++ a :: l2) lo (vm_end (ar s a)) s' (l1 ++ a :: n :: l2).
Proof using All.
  intros Ho Hmem Hout En Hm Hal P1 P2.
  assert (HX : forall b, b ∈ [a; n] -> b = a \/ (area_mem s b /\ b ∉ l1 ++ a :: l2)).
  { intros b [->|Hb]%elem_of_cons; [by left|]. apply list_elem_of_singleton in Hb as ->. by right. }
  assert (Hne : n <> a) by (intros ->; apply Hout, elem_mid).
  destruct (cut_high s t l1 l2 a [a; n] va HM HX ltac:(left) Ho Ea n lo vn _ _ ltac:(set_solver) Hne En Hm Hal P1 P2)
    as (s' & E & HM' & Hv & Hk & Ht & Hr).
  exists s'. split; [done|]. split; [done|]. pose proof (cut_ok s l1 l2 a HM) as Hok. pose proof Hok as (_ & _ & _ & Hal1 & _).
  assert (An : ar s' n = vn) by (unfold ar; by rewrite Hv, En). assert (Aa : ar s' a = va) by (unfold ar; by rewrite Hv, Ea).
  apply (pieces_changed nf [n] s l1 l2 a lo (vm_end (ar s a)) HM ltac:(lia) s' _ [a; n]); try done.
  - exact (perm_pull l1 [a; n] l2).
  - intros b Hb. rewrite (ar_ext _ _ Hv). exact (cut_same s t l1 l2 a [a; n] va HM HX ltac:(left) Ho Ea b Hb).
  - intros x w. rewrite !mapped_cons, mapped_nil, An, Aa.
    rewrite (part_same nf (ar s a) va lo (vm_end (ar s a)) _ _ x w Hok P1) by (done || lia).
    rewrite (part_changed nf (ar s a) vn lo (vm_end (ar s a)) _ _ x w Hok P2) by (done || lia).
    apply two_ranges. lia.
  - cbn [bytes]. rewrite An, Aa, (pt_start _ _ _ _ _ P1), (pt_end _ _ _ _ _ P1), (pt_start _ _ _ _ _ P2), (pt_end _ _ _ _ _ P2). lia.
  - intros b [->|Hb]%elem_of_cons; [by left|right]. done.
Qed.

Lemma changed_mid n n' lo hi vn vn' : only_areas [a; n; n'] s t ->
  area_mem s n -> n ∉ l1 ++ a :: l2 -> area_mem s n' -> n' ∉ l1 ++ a :: l2 -> n <> n' ->
  vmas t !! n = Some vn -> vmas t !! n' = Some vn' ->
  vm_start (ar s a) < lo -> lo < hi -> hi < vm_end (ar s a) -> (PAGE_SIZE | lo) /\ (PAGE_SIZE | hi) ->
  part_of (ar s a) vn (vm_start (ar s a)) lo (vm_flags (ar s a)) ->
  part_of (ar s a) va lo hi (nf (vm_flags (ar s a))) ->
  part_of (ar s a) vn' hi (vm_end (ar s a)) (vm_flags (ar s a)) ->
  exists s', (__insert_vm_struct n;; __insert_vm_struct n') t = Ok (tt, s') /\ vmas s' = vmas t /\
    changed nf [n; n'] s (l1 ++ a :: l2) lo hi s' (l1 ++ n :: a :: n' :: l2).
Proof using All.
  intros Ho Hmem Hout Hmem' Hout' Hnn En En' H1 H2 H3 [Hal Hal'] P1 P2 P3.
  assert (HX : forall b, b ∈ [a; n; n'] -> b = a \/ (area_mem s b /\ b ∉ l1 ++ a :: l2)).
  { intros b [->|[->|Hb]%elem_of_cons]%elem_of_cons; [by left|by right|]. apply list_elem_of_singleton in Hb as ->. by right. }
  assert (Hne : n <> a) by (intros ->; apply Hout, elem_mid). assert (Hne' : n' <> a) by (intros ->; apply Hout', elem_mid).
  destruct (cut_mid s t l1 l2 a [a; n; n'] va HM HX ltac:(left) Ho Ea n n' lo hi vn vn' _ _ _ ltac:(set_solver) Hne
    ltac:(set_solver) Hne' Hnn En En' H1 H2 H3 (conj Hal Hal') P1 P2 P3) as (s' & E & HM' & Hv & Hk & Ht & Hr).
  exists s'. split; [done|]. split; [done|]. pose proof (cut_ok s l1 l2 a HM) as Hok. pose proof Hok as (_ & _ & _ & Hal1 & _).
  assert (An : ar s' n = vn) by (unfold ar; by rewrite Hv, En). assert (Aa : ar s' a = va) by (unfold ar; by rewrite Hv, Ea).
  assert (An' : ar s' n' = vn') by (unfold ar; by rewrite Hv, En').
  apply (pieces_changed nf [n; n'] s l1 l2 a lo hi HM ltac:(lia) s' _ [n; a; n']); try done.
  - exact (perm_pull l1 [n; a; n'] l2).
  - intros b Hb. rewrite (ar_ext _ _ Hv). exact (cut_same s t l1 l2 a [a; n; n'] va HM HX ltac:(left) Ho Ea b Hb).
  - intros x w. rewrite !mapped_cons, mapped_nil, An, Aa, An'.
    rewrite (part_same nf (ar s a) vn lo hi _ _ x w Hok P1) by (done || lia).
    rewrite (part_changed nf (ar s a) va lo hi _ _ x w Hok P2) by (done || lia).
    rewrite (part_same nf (ar s a) vn' lo hi _ _ x w Hok P3) by (done || lia).
    apply three_ranges; lia.
  - cbn [bytes]. rewrite An, Aa, An'. destruct P1 as [-> -> _ _ _], P2 as [-> -> _ _ _], P3 as [-> -> _ _ _]. lia.
  - intros b [->|[->|Hb]%elem_of_cons]%elem_of_cons; [right; left|by left|]. apply list_elem_of_singleton in Hb as ->. right. right. left.
Qed.

(** The whole area changes. *)
Lemma changed_all : only_areas [a] s t -> part_of (ar s a) va (vm_start (ar s a)) (vm_end (ar s a)) (nf (vm_flags (ar s a))) ->
  changed nf [] s (l1 ++ a :: l2) (vm_start (ar s a)) (vm_end (ar s a)) t (l1 ++ a :: l2).
Proof using All.
  intros Ho P. pose proof (cut_ok s l1 l2 a HM) as Hok. pose proof Hok as (_ & Hlt & _ & Hal1 & Hal2).
  destruct (nodup_out _ _ _ _ (mm_ok _ _ HM)) as [N1 N2].
  assert (HX : forall b, b ∈ l1 ++ l2 -> b ∉ [a]) by (apply only_one; set_solver).
  pose proof (only_fields _ _ _ Ho) as (_ & _ & _ & _ & _ & F6 & (F7 & F8 & F9 & F10) & F11).
  assert (Aa : ar t a = va) by (unfold ar; by rewrite Ea).
  apply (pieces_changed nf [] s l1 l2 a (vm_start (ar s a)) (vm_end (ar s a)) HM ltac:(lia) t _ [a]); try done.
  - eapply only_resize; [exact HM|exact Ho|done|exact Ea| | |].
    + eapply part_ok; [exact Hok|exact P|lia|lia|done].
    + rewrite (pt_start _ _ _ _ _ P). lia.
    + rewrite (pt_end _ _ _ _ _ P). lia.
  - exact (perm_pull l1 [a] l2).
  - intros b Hb. unfold ar. by rewrite (proj1 (proj2 Ho)) by auto.
  - intros x w. rewrite mapped_cons, mapped_nil, Aa.
    rewrite (part_changed nf (ar s a) va (vm_start (ar s a)) (vm_end (ar s a)) _ _ x w Hok P) by (done || lia).
    unfold covers. tauto.
  - cbn [bytes]. rewrite Aa, (pt_start _ _ _ _ _ P), (pt_end _ _ _ _ _ P). lia.
  - intros b Hb. apply list_elem_of_singleton in Hb as ->. by left.
Qed.
End CutChanged.

(** ** Joining *)
Lemma join_correct s l1 p a l2 : Mm s (l1 ++ p :: a :: l2) -> vm_end (ar s p) = vm_start (ar s a) ->
  exists s', join_areas p a s = Ok (tt, s') /\ Mm s' (l1 ++ p :: l2) /\
    (forall x w, mapped_as s' (l1 ++ p :: l2) x w <->
      (vm_start (ar s p) <= x < vm_end (ar s a) /\ w = attr (ar s p) x) \/ mapped_as s (l1 ++ l2) x w) /\
    ar s' p = (ar s p) <| vm_end := vm_end (ar s a) |> /\ (forall b, b <> p -> ar s' b = ar s b) /\
    bytes s' (l1 ++ p :: l2) = bytes s (l1 ++ p :: a :: l2) /\ mem_kept s s' /\ total_vm s' = total_vm s /\
    brk s' = brk s /\ end_code s' = end_code s /\ start_data s' = start_data s /\ def_flags s' = def_flags s.
Proof.
  intros HM Hadj. pose proof (mm_ok _ _ HM) as HA.
  assert (Hpin : p ∈ l1 ++ p :: a :: l2) by set_solver. assert (Hain : a ∈ l1 ++ p :: a :: l2) by set_solver.
  destruct (mm_areas _ _ HA p Hpin) as [Hp Hokp]. destruct (mm_areas _ _ HA a Hain) as [Ha Hoka].
  unfold join_areas. runV. rewrite (bindV _ _ _ _ _ (vma_set_ok _ _ _ Hp)).
  set (v := (ar s p) <| vm_end := vm_end (ar s a) |>).
  destruct (vma_unlink_correct _ _ _ _ _ HA) as (s1 & E & HA1 & Hv & Hmem & _ & Hcnt & Hcache & T1 & T2 & T3 & T4 & T5 & T6).
  rewrite (bindV _ _ _ _ _ (unlink_with_vmas _ _ _ _ (<[p := v]> (vmas s)) E)). rewrite <- Hv.
  set (s2 := with_vmas s1 (<[p := v]> (vmas s1))).
  rewrite (bindV _ (call_out _) _ _ _ eq_refl). eexists. split; [done|].
  pose proof (ar_ext _ _ Hv) as Ear.
  destruct (sorted_split _ _ HA _ _ _ eq_refl) as [Hs1 _].
  assert (HA' : Areas s ((l1 ++ [p]) ++ a :: l2)) by (by rewrite <- app_assoc).
  destruct (sorted_split _ _ HA' _ _ _ eq_refl) as [_ Hs2]. rewrite Forall_forall in Hs1, Hs2. unfold below in *.
  assert (HA2 : Areas s2 (l1 ++ p :: l2)).
  { apply areas_resize; [done| | |].
    - unfold area_ok in *. unfold v, update; cbn. split_and!; try lia; apply Hokp || apply Hoka.
    - intros b Hb. rewrite Ear. by apply Hs1.
    - intros b Hb. rewrite Ear. by apply Hs2. }
  split_and!; try done.
  - constructor; [by apply (areas_ext s2)| |].
    + change (s32 (map_count s1 + -1) = Z.of_nat (length (l1 ++ p :: l2))).
      pose proof (Areas_length _ _ HA). rewrite Hcnt, (mm_count _ _ HM). rewrite !length_app in *. cbn [length] in *.
      unfold s32. rewrite Z.mod_small; lia.
    + change (mmap_cache s1 = 0 \/ mmap_cache s1 ∈ l1 ++ p :: l2). rewrite Hcache.
      case_cmp; [right; set_solver|]. destruct (mm_cache _ _ HM) as [|Hin]; [by left|right; set_solver].
  - intros x w. rewrite (mapped_ext s2) by done. unfold s2. rewrite mapped_resize by done.
    rewrite (mapped_ext s s1) by (intros; by rewrite Ear). done.
  - change (ar s2 p = v). unfold s2. by rewrite ar_insert, decide_True.
  - intros b Hb. change (ar s2 b = ar s b). unfold s2. rewrite ar_insert_ne by done. by rewrite Ear.
  - rewrite (bytes_ext s2) by done. unfold s2. rewrite bytes_resize by done.
    rewrite (bytes_ext s s1) by (intros; by rewrite Ear). rewrite !bytes_app. cbn [bytes]. unfold v, update; cbn. lia.
  - intros b Hb. apply Hmem in Hb. by apply (mem_with_vmas s1 p v) in Hb.
Qed.

Lemma no_file_attr v x : vm_file v = 0 -> attr v x = (vm_flags v, 0, 0).
Proof. intros E. unfold attr. by rewrite E. Qed.

(** The area takes the flags of the previous one and is joined to it. *)
Lemma changed_join nf s l1 p a l2 : Mm s (l1 ++ p :: a :: l2) -> vm_end (ar s p) = vm_start (ar s a) ->
  mergeable (ar s p) (nf (vm_flags (ar s a))) = true -> vm_file (ar s a) = 0 ->
  exists s', join_areas p a s = Ok (tt, s') /\ (forall b, b <> p -> ar s' b = ar s b) /\
    vm_end (ar s' p) = vm_end (ar s a) /\
    changed nf [] s (l1 ++ p :: a :: l2) (vm_start (ar s a)) (vm_end (ar s a)) s' (l1 ++ p :: l2).
Proof.
  intros HM Hadj Hm Hf. destruct (join_correct s l1 p a l2 HM Hadj) as (s' & E & HM' & Hmap & Hp & Ho & Hby & Hmem & Ht & Hr).
  exists s'. split_and!; [done|done|by rewrite Hp|].
  destruct (mm_areas _ _ (mm_ok _ _ HM) p ltac:(set_solver)) as [_ Hokp].
  destruct (mm_areas _ _ (mm_ok _ _ HM) a ltac:(set_solver)) as [_ Hoka]. unfold area_ok in Hokp, Hoka.
  assert (El : l1 ++ p :: a :: l2 = (l1 ++ [p]) ++ a :: l2) by (by rewrite <- app_assoc).
  constructor; try done.
  - rewrite El in *. apply (mapped_changed nf s (l1 ++ [p]) l2 a (vm_start (ar s a)) (vm_end (ar s a)) HM); [lia|].
    intros x w. rewrite Hmap. rewrite <- app_assoc. cbn [app]. rewrite mapped_middle. unfold covers.
    rewrite (mergeable_attr (ar s p) _ x Hm), (no_file_attr (ar s a) x Hf).
    split.
    + intros [[Hx ->]|H]; [|by left; right]. destruct (Z.lt_ge_cases x (vm_end (ar s p))); [left; left; split; [lia|done]|].
      right. split; [lia|]. by rewrite chg_in by lia.
    + intros [[[Hx ->]|H]|[Hx ->]]; [left; split; [lia|done]|by right|]. left. split; [lia|]. by rewrite chg_in by lia.
  - intros b Hb. left. set_solver.
Qed.

(** Two areas that are alike are joined: nothing changes. *)
Lemma changed_alike nf s l1 p a l2 lo : Mm s (l1 ++ p :: a :: l2) -> vm_end (ar s p) = vm_start (ar s a) ->
  mergeable (ar s a) (vm_flags (ar s p)) = true -> vm_file (ar s p) = 0 ->
  exists s', join_areas p a s = Ok (tt, s') /\ changed nf [] s (l1 ++ p :: a :: l2) lo lo s' (l1 ++ p :: l2).
Proof.
  intros HM Hadj Hm Hf. destruct (join_correct s l1 p a l2 HM Hadj) as (s' & E & HM' & Hmap & Hp & Ho & Hby & Hmem & Ht & Hr).
  exists s'. split; [done|].
  destruct (mm_areas _ _ (mm_ok _ _ HM) p ltac:(set_solver)) as [_ Hokp].
  destruct (mm_areas _ _ (mm_ok _ _ HM) a ltac:(set_solver)) as [_ Hoka]. unfold area_ok in Hokp, Hoka.
  assert (El : l1 ++ p :: a :: l2 = (l1 ++ [p]) ++ a :: l2) by (by rewrite <- app_assoc).
  constructor; try done; [|intros b Hb; left; set_solver].
  intros x w. rewrite Hmap, El. transitivity (mapped_as s ((l1 ++ [p]) ++ a :: l2) x w).
  - rewrite mapped_middle, <- app_assoc. cbn [app]. rewrite mapped_middle.
    rewrite (mergeable_attr (ar s a) _ x Hm), (no_file_attr (ar s p) x Hf). unfold covers. split.
    + intros [[Hx ->]|H]; [|by right; right]. destruct (Z.lt_ge_cases x (vm_end (ar s p))); [right; left|left]; (split; [lia|done]).
    + intros [[Hx ->]|[[Hx ->]|H]]; [left|left|by right]; (split; [lia|done]).
  - split; [intros H; exists w; by rewrite chg_out by lia|]. intros (w0 & H & ->). by rewrite chg_out by lia.
Qed.

(** The start of the area takes the flags of the previous one and goes over to it. *)
Lemma changed_shift nf s t l1 p a l2 hi : Mm s (l1 ++ p :: a :: l2) -> vm_end (ar s p) = vm_start (ar s a) ->
  mergeable (ar s p) (nf (vm_flags (ar s a))) = true -> vm_file (ar s a) = 0 ->
  vm_start (ar s a) < hi < vm_end (ar s a) -> (PAGE_SIZE | hi) -> only_areas [p; a] s t ->
  vmas t !! p = Some ((ar s p) <| vm_end := hi |>) -> vmas t !! a = Some ((ar s a) <| vm_start := hi |>) ->
  changed nf [] s (l1 ++ p :: a :: l2) (vm_start (ar s a)) hi t (l1 ++ p :: a :: l2).
Proof.
  intros HM Hadj Hm Hf Hhi Hal Ho Ep Ea. pose proof (mm_ok _ _ HM) as HA.
  destruct (mm_areas _ _ HA p ltac:(set_solver)) as [_ Hokp].
  destruct (mm_areas _ _ HA a ltac:(set_solver)) as [_ Hoka].
  assert (El : l1 ++ p :: a :: l2 = (l1 ++ [p]) ++ a :: l2) by (by rewrite <- app_assoc).
  destruct (nodup_out _ _ _ _ HA) as [Np1 Np2]. pose proof HA as HA'. rewrite El in HA'.
  destruct (nodup_out _ _ _ _ HA') as [Na1 Na2]. assert (Hpa : p <> a) by set_solver.
  set (vp := (ar s p) <| vm_end := hi |>) in *. set (va := (ar s a) <| vm_start := hi |>) in *.
  pose proof (only_fields _ _ _ Ho) as (F1 & F2 & F3 & F4 & F5 & F6 & F7 & F8).
  assert (Hsame : forall b, b ∈ l1 ++ l2 -> ar t b = ar s b).
  { intros b Hb. unfold ar. rewrite (proj1 (proj2 Ho)); [done|]. set_solver. }
  assert (Ap : ar t p = vp) by (unfold ar; by rewrite Ep). assert (Aa : ar t a = va) by (unfold ar; by rewrite Ea).
  destruct (sorted_split _ _ HA _ _ _ eq_refl) as [Hs1 _]. destruct (sorted_split _ _ HA' _ _ _ eq_refl) as [_ Hs2].
  rewrite Forall_forall in Hs1, Hs2. unfold below in *.
  assert (HAt : Areas t (l1 ++ p :: a :: l2)).
  { set (s1 := with_vmas s (<[a := va]> (vmas s))).
    assert (HA1 : Areas s1 (l1 ++ p :: a :: l2)).
    { rewrite El. apply areas_resize; [done| | |].
      - unfold area_ok in *. unfold va, update; cbn. split_and!; try lia; apply Hoka || done.
      - intros b Hb. destruct (sorted_split _ _ HA' _ _ _ eq_refl) as [H _]. rewrite Forall_forall in H.
        specialize (H b Hb). unfold va, update, below in *; cbn. lia.
      - intros b Hb. unfold va, update; cbn. by apply Hs2. }
    assert (Eq : forall b, b <> a -> ar s1 b = ar s b) by (intros; by apply ar_insert_ne).
    apply (areas_agree (with_vmas s1 (<[p := vp]> (vmas s1)))); [done|done|done| |].
    - intros b Hb. change (vmas t !! b = <[p := vp]> (<[a := va]> (vmas s)) !! b). rewrite !lookup_insert.
      repeat case_decide; subst; try done. apply Ho. set_solver.
    - apply areas_resize; [done| | |].
      + unfold area_ok in *. unfold vp, update; cbn. split_and!; try lia; apply Hokp || done.
      + intros b Hb. rewrite Eq by set_solver. by apply Hs1.
      + intros b Hb. unfold vp, update; cbn. apply elem_of_cons in Hb as [->|Hb].
        * unfold s1. by rewrite ar_insert, decide_True.
        * rewrite Eq by set_solver. specialize (Hs2 b Hb). unfold area_ok in *. lia. }
  unfold area_ok in Hokp, Hoka. constructor; try done; try apply F7.
  - constructor; [done|by rewrite F4; apply HM|rewrite F5; apply HM].
  - rewrite El in *. apply (mapped_changed nf s (l1 ++ [p]) l2 a (vm_start (ar s a)) hi HM); [lia|].
    intros x w. rewrite mapped_middle, <- !app_assoc. cbn [app]. rewrite !mapped_middle, Ap, Aa.
    rewrite (mapped_ext s t) by done. rewrite (no_file_attr (ar s a) x Hf).
    rewrite (no_file_attr va x Hf), (mergeable_attr vp _ x Hm), (mergeable_attr (ar s p) _ x Hm).
    unfold covers, va, vp, update; cbn. split.
    + intros [[Hx ->]|[[Hx ->]|H]]; [right|..|by left; right].
      * split; [lia|]. by rewrite chg_out by lia.
      * destruct (Z.lt_ge_cases x (vm_end (ar s p))); [left; left; split; [lia|done]|].
        right. split; [lia|]. by rewrite chg_in by lia.
    + intros [[[Hx ->]|H]|[Hx ->]]; [right; left; split; [lia|done]|by right; right|].
      destruct (Z.lt_ge_cases x hi); [right; left; split; [lia|by rewrite chg_in by lia]|left; split; [lia|by rewrite chg_out by lia]].
  - rewrite !bytes_app. cbn [bytes]. rewrite Ap, Aa. rewrite !(bytes_ext s t) by (intros; apply Hsame; set_solver).
    unfold vp, va, update; cbn. lia.
  - tauto.
Qed.

(** The flags are those already. *)
Lemma changed_id nf X s l1 a l2 lo hi : Mm s (l1 ++ a :: l2) ->
  vm_start (ar s a) <= lo /\ lo <= hi /\ hi <= vm_end (ar s a) -> nf (vm_flags (ar s a)) = vm_flags (ar s a) ->
  changed nf X s (l1 ++ a :: l2) lo hi s (l1 ++ a :: l2).
Proof.
  intros HM Hpart Hid. constructor; try done; [|by intros b|tauto].
  apply (mapped_changed nf s l1 l2 a lo hi HM Hpart). intros x w.
  replace (chg nf lo hi x (attr (ar s a) x)) with (attr (ar s a) x); [rewrite mapped_middle; tauto|].
  unfold chg, attr. destruct (_ && _); [|done]. simpl. by rewrite Hid.
Qed.
Lemma changed_sub nf X X' s l lo hi s' l' : changed nf X s l lo hi s' l' -> (forall b, b ∈ X -> b ∈ X') ->
  changed nf X' s l lo hi s' l'.
Proof. intros [C1 C2 C3 C4 C5 C6 C7] HX. constructor; try done. intros b Hb. destruct (C6 b Hb); auto. Qed.

(** ** The fixups of [mprotect] *)
Lemma can_join_ok s l1 a l2 newflags : Mm s (l1 ++ a :: l2) ->
  exists b, can_join (last0 l1) a newflags s = Ok (b, s) /\
    (b = true -> exists l1' p, l1 = l1' ++ [p] /\ vm_end (ar s p) = vm_start (ar s a) /\
       mergeable (ar s p) newflags = true /\ vm_file (ar s a) = 0).
Proof.
  intros HM. unfold can_join. pose proof (area_of _ _ (mm_ok _ _ HM) a (elem_mid _ _ _)) as Ha.
  destruct l1 as [|p l1' _] using rev_ind; [by exists false|]. rewrite last0_snoc.
  assert (Hpin : p ∈ (l1' ++ [p]) ++ a :: l2) by set_solver.
  pose proof (area_of _ _ (mm_ok _ _ HM) p Hpin) as Hp.
  rewrite truth_nz by (by eapply Areas_nonzero; [apply HM|]). do 2 runV.
  destruct (Z.eqb_spec (vm_end (ar s p)) (vm_start (ar s a))) as [Hadj|]; [|by exists false].
  rewrite (bindV _ _ _ _ _ (can_vma_merge_ok _ _ _ Hp)). do 2 runV. eexists. split; [done|].
  intros [[Hm Hf]%andb_true_iff _]%andb_true_iff. exists l1', p. split_and!; try done.
  unfold truth in Hf. by destruct (Z.eqb_spec (vm_file (ar s a)) 0).
Qed.

Lemma quietly_hold_copy has_open n v : quietly (hold_copy has_open n v).
Proof. unfold hold_copy. auto with quiet. Qed.
#[export] Hint Resolve quietly_hold_copy : quiet.

Section Fix.
Context (has_open : Z -> bool) (nf : Z -> Z) (s : mm_struct) (l1 l2 : list Z) (a : Z) (n1 n2 : Z).
Hypothesis HM : Mm s (l1 ++ a :: l2).

(** The range from [lo] to the end of the area is done; [prev] is the last area of it. *)
Definition done_to_end (X : list Z) (lo prev : Z) (s' : mm_struct) : Prop :=
  exists l1', l1' <> [] /\ last0 l1' = prev /\ (forall b, b ∈ l2 -> ar s' b = ar s b) /\
    vm_end (ar s' prev) = vm_end (ar s a) /\
    changed nf X s (l1 ++ a :: l2) lo (vm_end (ar s a)) s' (l1' ++ l2).

Lemma l2_apart b : b ∈ l2 -> b <> a /\ b ∉ l1.
Proof using HM.
  intros Hb. pose proof (Areas_nodup _ _ (mm_ok _ _ HM)) as Hnd. apply NoDup_app in Hnd as (_ & Hd & Hnd).
  apply NoDup_cons in Hnd as [Hn _]. split; [by intros ->|]. intros H. apply (Hd b H). by right.
Qed.

Lemma fixup_all_correct prot : 
  exists prev s', mprotect_fixup_all a (last0 l1) (nf (vm_flags (ar s a))) prot s = Ok ((0, prev), s') /\
    done_to_end [] (vm_start (ar s a)) prev s'.
Proof using All.
  unfold mprotect_fixup_all. destruct (can_join_ok s l1 a l2 (nf (vm_flags (ar s a))) HM) as (b & E & Hb).
  rewrite (bindV _ _ _ _ _ E). destruct b.
  - destruct (Hb eq_refl) as (l1' & p & El & Hadj & Hm & Hf). pose proof HM as HM'. rewrite El, <- app_assoc in HM'.
    destruct (changed_join nf s l1' p a l2 HM' Hadj Hm Hf) as (s' & Ej & Ho & He & HC).
    rewrite El, last0_snoc. rewrite (bindV _ _ _ _ _ Ej). exists p, s'. split; [done|].
    exists (l1' ++ [p]). split_and!; [by destruct l1'|by rewrite last0_snoc| |done|].
    + intros c Hc. apply Ho. intros ->. apply l2_apart in Hc as [_ Hc]. rewrite El in Hc. set_solver.
    + rewrite El, <- !app_assoc. exact HC.
  - pose proof (area_of _ _ (mm_ok _ _ HM) a (elem_mid _ _ _)) as [v Ev].
    assert (Av : ar s a = v) by (unfold ar; by rewrite Ev).
    assert (HO : only_areas [a] s s) by reflexivity. stepX s1 HO. exists a, s1. split; [done|].
    exists (l1 ++ [a]). split_and!; [by destruct l1|by rewrite last0_snoc|..].
    + intros c Hc. unfold ar. rewrite (proj1 (proj2 HO)); [done|]. apply l2_apart in Hc as [? _]. set_solver.
    + unfold ar at 1. rewrite Ev. simpl. by rewrite Av.
    + rewrite <- app_assoc. eapply changed_all; [done|exact Ev|done|]. rewrite Av. by constructor; [..|left].
Qed.

Lemma area_value : exists v, vmas s !! a = Some v /\ ar s a = v.
Proof using HM.
  pose proof (area_of _ _ (mm_ok _ _ HM) a (elem_mid _ _ _)) as [v Ev]. exists v. split; [done|]. unfold ar. by rewrite Ev.
Qed.
Lemma new_apart n : n ∉ l1 ++ a :: l2 -> n <> a.
Proof using. intros Hn ->. apply Hn, elem_mid. Qed.

Lemma fixup_end_correct lo prev prot : spare s (l1 ++ a :: l2) n1 -> vm_start (ar s a) < lo < vm_end (ar s a) -> (PAGE_SIZE | lo) ->
  exists error prev' s', mprotect_fixup_end has_open a prev lo (nf (vm_flags (ar s a))) prot n1 s = Ok ((error, prev'), s') /\
    ((error = 0 /\ done_to_end [n1] lo prev' s') \/ (error = - ENOMEM /\ quiet s s')).
Proof using All.
  intros Hsp Hlo Hal. unfold mprotect_fixup_end. destruct Hsp as [->|[Hmem Hout]].
  { eexists _, _, s. split; [done|]. right. by split. }
  pose proof Hmem as (Hn0 & [vn En] & _). rewrite truth_nz by done. cbn [negb].
  pose proof (new_apart n1 Hout) as Hne. destruct area_value as (v & Ev & Av).
  rewrite (bindV _ _ _ _ _ (get_area _ _ _ id Ev)). unfold id. rewrite Av in *.
  assert (HO : only_areas [a; n1] s s) by reflexivity. stepX s1 HO. stepX s2 HO. stepX s3 HO.
  rewrite <- Av in *.
  destruct (changed_high nf s s3 l1 l2 a _ HM Ev n1 lo _ HO Hmem Hout En ltac:(lia) Hal) as (s' & E & Hv & HC).
  { by constructor; [..|left]. }
  { by constructor; [..|right]. }
  rewrite (bindV _ _ _ _ _ E). exists 0, n1, s'. split; [done|]. left. split; [done|].
  exists (l1 ++ [a; n1]). split_and!.
  - by destruct l1.
  - change [a; n1] with ([a] ++ [n1]). rewrite app_assoc. apply last0_snoc.
  - intros c Hc. assert (Hcn : c <> n1) by (intros ->; apply Hout, elem_of_app; right; by right).
    unfold ar. rewrite Hv, (proj1 (proj2 HO)); [done|]. apply l2_apart in Hc as [Hca _].
    rewrite elem_of_cons, list_elem_of_singleton. tauto.
  - unfold ar at 1. by rewrite Hv, En.
  - by rewrite <- app_assoc.
Qed.

Lemma fixup_start_correct hi prot : spare s (l1 ++ a :: l2) n2 -> vm_start (ar s a) < hi < vm_end (ar s a) -> (PAGE_SIZE | hi) ->
  exists error prev' s', mprotect_fixup_start has_open a (last0 l1) hi (nf (vm_flags (ar s a))) prot n2 s = Ok ((error, prev'), s') /\
    ((error = 0 /\ exists l', changed nf [n2] s (l1 ++ a :: l2) (vm_start (ar s a)) hi s' l') \/ (error = - ENOMEM /\ quiet s s')).
Proof using All.
  intros Hsp Hhi Hal. unfold mprotect_fixup_start. destruct (can_join_ok s l1 a l2 (nf (vm_flags (ar s a))) HM) as (b & E & Hb).
  rewrite (bindV _ _ _ _ _ E). destruct area_value as (v & Ev & Av). destruct b.
  - destruct (Hb eq_refl) as (l1' & p & El & Hadj & Hm & Hf). pose proof HM as HM'. rewrite El, <- app_assoc in HM'.
    rewrite El, last0_snoc. pose proof (area_of _ _ (mm_ok _ _ HM') p (elem_mid _ _ _)) as [vp Ep].
    assert (Ap : ar s p = vp) by (unfold ar; by rewrite Ep).
    assert (Hpa : p <> a).
    { pose proof (nodup_out _ _ _ _ (mm_ok _ _ HM')) as [_ H]. set_solver. }
    assert (HO : only_areas [p; a] s s) by reflexivity. stepX s1 HO. stepX s2 HO. eexists _, _, s2. split; [done|].
    left. split; [done|]. exists (l1' ++ p :: a :: l2). rewrite <- app_assoc. cbn [app].
    apply (changed_sub nf []); [|by intros ? ?%elem_of_nil].
    apply (changed_shift nf s s2 l1' p a l2 hi); try done; [by rewrite Ap|by rewrite Av].
  - destruct Hsp as [->|[Hmem Hout]]; [eexists _, _, s; split; [done|]; right; by split|].
    pose proof Hmem as (Hn0 & [vn En] & _). rewrite truth_nz by done. cbn [negb].
    pose proof (new_apart n2 Hout) as Hne. rewrite (bindV _ _ _ _ _ (get_area _ _ _ id Ev)). unfold id. rewrite Av in *.
    assert (HO : only_areas [a; n2] s s) by reflexivity. stepX s1 HO. stepX s2 HO. stepX s3 HO. stepX s4 HO.
    rewrite <- Av in *.
    destruct (changed_low nf s s4 l1 l2 a _ HM Ev n2 hi _ HO Hmem Hout En ltac:(lia) Hal) as (s' & E' & _ & HC).
    { by constructor; [..|left]. }
    { by constructor; [..|right]. }
    rewrite (bindV _ _ _ _ _ E'). eexists _, _, s'. split; [done|]. left. split; [done|]. by eexists.
Qed.

Lemma fixup_middle_correct lo hi prev prot : spare s (l1 ++ a :: l2) n1 -> spare s (l1 ++ a :: l2) n2 -> (n1 = n2 -> n2 = 0) ->
  vm_start (ar s a) < lo -> lo < hi -> hi < vm_end (ar s a) -> (PAGE_SIZE | lo) /\ (PAGE_SIZE | hi) ->
  exists error prev' s', mprotect_fixup_middle has_open a prev lo hi (nf (vm_flags (ar s a))) prot n1 n2 s = Ok ((error, prev'), s') /\
    ((error = 0 /\ exists l', changed nf [n1; n2] s (l1 ++ a :: l2) lo hi s' l') \/ (error = - ENOMEM /\ quiet s s')).
Proof using All.
  intros Hsp1 Hsp2 Hnn H1 H2 H3 Hal. unfold mprotect_fixup_middle.
  destruct Hsp1 as [->|[Hmem1 Hout1]]; [eexists _, _, s; split; [done|]; right; by split|].
  pose proof Hmem1 as (Hn1 & [vn1 En1] & _). rewrite truth_nz by done. cbn [negb].
  destruct Hsp2 as [->|[Hmem2 Hout2]]; [change (negb (truth 0)) with true; cbv iota; runQ s1 Q; eexists _, _, s1; split; [done|]; right; by split|].
  pose proof Hmem2 as (Hn2 & [vn2 En2] & _). rewrite truth_nz by done. cbn [negb].
  pose proof (new_apart n1 Hout1) as Hne1. pose proof (new_apart n2 Hout2) as Hne2.
  assert (Hn12 : n1 <> n2) by (intros E; apply Hn2; auto).
  destruct area_value as (v & Ev & Av). rewrite (bindV _ _ _ _ _ (get_area _ _ _ id Ev)). unfold id. rewrite Av in *.
  assert (HO : only_areas [a; n1; n2] s s) by reflexivity.
  stepX t1 HO. stepX t2 HO. stepX t3 HO. stepX t4 HO. stepX t5 HO. stepX t6 HO. rewrite <- Av in *.
  destruct (changed_mid nf s t6 l1 l2 a _ HM Ev n1 n2 lo hi _ _ HO Hmem1 Hout1 Hmem2 Hout2 Hn12 En1 En2 ltac:(lia) H2 ltac:(lia) Hal)
    as (s' & E' & _ & HC).
  { by constructor; [..|left]. }
  { by constructor; [..|right]. }
  { by constructor; [..|right]. }
  rewrite <- bindV_assoc, (bindV _ _ _ _ _ E'). eexists _, _, s'. split; [done|]. left. split; [done|]. by eexists.
Qed.

Lemma done_sub X X' lo prev s' : done_to_end X lo prev s' -> (forall b, b ∈ X -> b ∈ X') -> done_to_end X' lo prev s'.
Proof using. intros (l1' & H1 & H2 & H3 & H4 & HC) HX. exists l1'. split_and!; try done. by eapply changed_sub. Qed.

(** The protection of the pages is changed at the end. *)
Lemma done_quiet X lo prev s' s'' : done_to_end X lo prev s' -> quiet s' s'' -> lo <= vm_end (ar s a) -> done_to_end X lo prev s''.
Proof using.
  intros (l1' & H1 & H2 & H3 & H4 & HC) Q Hlo. pose proof (quiet_ar _ _ Q) as Ear. exists l1'.
  rewrite Ear. split_and!; try done. by eapply changed_quiet.
Qed.

Lemma fixup_full lo : vm_start (ar s a) <= lo < vm_end (ar s a) -> (PAGE_SIZE | lo) ->
  lo = vm_start (ar s a) \/ spare s (l1 ++ a :: l2) n1 ->
  exists error prev' s',
    mprotect_fixup has_open a (last0 l1) lo (vm_end (ar s a)) (nf (vm_flags (ar s a))) n1 n2 s = Ok ((error, prev'), s') /\
    ((error = 0 /\ done_to_end [n1] lo prev' s') \/ (error = - ENOMEM /\ quiet s s')).
Proof using All.
  intros Hlo Hal Hsp. unfold mprotect_fixup. pose proof (area_of _ _ (mm_ok _ _ HM) a (elem_mid _ _ _)) as Ha. runV.
  destruct (Z.eqb_spec (nf (vm_flags (ar s a))) (vm_flags (ar s a))) as [Hid|_].
  { exists 0, a, s. split; [done|]. left. split; [done|]. exists (l1 ++ [a]).
    split_and!; [by destruct l1|by rewrite last0_snoc|done|done|]. rewrite <- app_assoc. apply changed_id; [done|lia|done]. }
  do 2 runV. rewrite Z.eqb_refl. destruct (Z.eqb_spec lo (vm_start (ar s a))) as [->|Hne].
  - destruct (fixup_all_correct (get protection_map (nf (vm_flags (ar s a)) .& 0xf))) as (prev' & s' & E & HD).
    rewrite (bindV _ _ _ _ _ E). cbv iota beta. change (truth 0) with false. cbv iota. runQ s'' Q.
    exists 0, prev', s''. split; [done|]. left. split; [done|]. eapply done_quiet; [|exact Q|lia].
    eapply done_sub; [exact HD|]. by intros b ?%elem_of_nil.
  - destruct Hsp as [|Hsp]; [done|].
    destruct (fixup_end_correct lo (last0 l1) (get protection_map (nf (vm_flags (ar s a)) .& 0xf)) Hsp ltac:(lia) Hal)
      as (error & prev' & s' & E & [[-> HD]|[-> Q]]); rewrite (bindV _ _ _ _ _ E); cbv iota beta.
    + change (truth 0) with false. cbv iota. runQ s'' Q. exists 0, prev', s''. split; [done|]. left. split; [done|].
      eapply done_quiet; [exact HD|exact Q|lia].
    + eexists _, _, s'. split; [done|]. by right.
Qed.

Lemma mprotect_part lo hi : vm_start (ar s a) <= lo -> lo < hi -> hi < vm_end (ar s a) -> (PAGE_SIZE | lo) -> (PAGE_SIZE | hi) ->
  lo = vm_start (ar s a) \/ spare s (l1 ++ a :: l2) n1 -> spare s (l1 ++ a :: l2) n2 -> (n1 = n2 -> n2 = 0) ->
  exists error prev' s',
    mprotect_fixup has_open a (last0 l1) lo hi (nf (vm_flags (ar s a))) n1 n2 s = Ok ((error, prev'), s') /\
    ((error = 0 /\ exists l', changed nf [n1; n2] s (l1 ++ a :: l2) lo hi s' l') \/ (error = - ENOMEM /\ quiet s s')).
Proof using All.
  intros Hlo Hlh Hhi Hal Hal' Hsp1 Hsp2 Hnn. unfold mprotect_fixup.
  pose proof (area_of _ _ (mm_ok _ _ HM) a (elem_mid _ _ _)) as Ha. runV.
  destruct (Z.eqb_spec (nf (vm_flags (ar s a))) (vm_flags (ar s a))) as [Hid|_].
  { exists 0, a, s. split; [done|]. left. split; [done|]. exists (l1 ++ a :: l2). apply changed_id; [done|lia|done]. }
  do 2 runV. destruct (Z.eqb_spec hi (vm_end (ar s a))) as [|_]; [lia|].
  set (prot := get protection_map _).
  assert (Hfix : exists error prev' s', (if lo =? vm_start (ar s a) then mprotect_fixup_start has_open a (last0 l1) hi (nf (vm_flags (ar s a))) prot n2
      else mprotect_fixup_middle has_open a (last0 l1) lo hi (nf (vm_flags (ar s a))) prot n1 n2) s = Ok ((error, prev'), s') /\
    ((error = 0 /\ exists l', changed nf [n1; n2] s (l1 ++ a :: l2) lo hi s' l') \/ (error = - ENOMEM /\ quiet s s'))).
  { destruct (Z.eqb_spec lo (vm_start (ar s a))) as [->|Hne].
    - destruct (fixup_start_correct hi prot Hsp2 ltac:(lia) Hal') as (error & prev' & s' & E & [[-> (l' & HC)]|HQ]);
        eexists _, prev', s'; (split; [exact E|]); [left|by right].
      split; [done|]. exists l'. eapply changed_sub; [exact HC|]. intros b. rewrite !elem_of_cons. tauto.
    - destruct Hsp1 as [|Hsp1]; [done|]. apply fixup_middle_correct; try done; lia. }
  destruct Hfix as (error & prev' & s' & E & [[-> (l' & HC)]|[-> Q]]); rewrite (bindV _ _ _ _ _ E); cbv iota beta.
  - change (truth 0) with false. cbv iota. runQ s'' Q. exists 0, prev', s''. split; [done|]. left. split; [done|].
    exists l'. eapply changed_quiet; [exact HC|exact Q|lia].
  - eexists _, _, s'. split; [done|]. by right.
Qed.

(** Only the area itself maps its addresses. *)
Lemma mapped_here x w : covers (ar s a) x -> (mapped_as s (l1 ++ a :: l2) x w <-> w = attr (ar s a) x).
Proof using HM.
  intros Hc. rewrite mapped_middle. split; [|by left].
  intros [[_ ->]|(b & Hb & Hcb & _)]; [done|]. by destruct (others_apart s l1 l2 a HM x b Hb Hcb).
Qed.
End Fix.

Lemma changed_beyond nf X s l lo m s1 l1 x w : changed nf X s l lo m s1 l1 -> m <= x ->
  (mapped_as s1 l1 x w <-> mapped_as s l x w).
Proof.
  intros HC Hx. rewrite (ch_mapped _ _ _ _ _ _ _ _ HC). split.
  - intros (w0 & H & ->). by rewrite chg_out by lia.
  - intros H. exists w. by rewrite chg_out by lia.
Qed.

(** ** The range *)

(** A call that changes the flags of the range up to [end_] by [nf], area after area; [den] tells the
    flags that it refuses with [-EACCES], and [fails] its other errors. *)
Section Range.
Context (nf : Z -> Z) (den : Z -> bool) (fails : Z -> Prop) (X : list Z) (end_ : Z).
Hypothesis Hfails : ~ fails 0.

(** The range up to [m] is mapped, its new flags are allowed, and they are set. *)
Record flags_set (s : mm_struct) (l : list Z) (lo m error : Z) (s' : mm_struct) (l' : list Z) : Prop := {
  fs_range : lo <= m <= end_;
  fs_changed : changed nf X s l lo m s' l';
  fs_there : forall x, lo <= x < m -> exists w, mapped_as s l x w;
  fs_allowed : forall x w, lo <= x < m -> mapped_as s l x w -> den (nf w.1.1) = false;
  fs_success : error = 0 -> m = end_;
  fs_error : error = 0 \/ fails error \/
    (error = - EACCES /\ exists x w, m <= x < end_ /\ mapped_as s l x w /\ den (nf w.1.1) = true)
}.

(** What comes first and what comes after. *)
Lemma flags_set_step s l lo m s1 l1 m' error s' l' :
  lo <= m <= end_ -> changed nf X s l lo m s1 l1 ->
  (forall x, lo <= x < m -> exists w, mapped_as s l x w /\ den (nf w.1.1) = false) ->
  (forall x w w', mapped_as s l x w -> mapped_as s l x w' -> w = w') ->
  flags_set s1 l1 m m' error s' l' -> flags_set s l lo m' error s' l'.
Proof using.
  intros Hm HC Hhere Huniq [P1 P2 P3 P4 P5 P6].
  assert (Hb : forall x w, m <= x -> (mapped_as s1 l1 x w <-> mapped_as s l x w)) by (intros; by eapply changed_beyond).
  constructor; try done; try lia.
  - eapply changed_trans; [|exact HC|exact P2]. lia.
  - intros x Hx. destruct (Z.lt_ge_cases x m); [destruct (Hhere x) as (w & ? & _); [lia|by exists w]|].
    destruct (P3 x) as [w Hw]; [lia|]. exists w. apply Hb; [lia|done].
  - intros x w Hx Hw. destruct (Z.lt_ge_cases x m).
    + destruct (Hhere x) as (w' & Hw' & Hd); [lia|]. by rewrite (Huniq x w w').
    + apply (P4 x); [lia|]. apply Hb; [lia|done].
  - destruct P6 as [?|[?|(? & x & w & Hx & Hw & Hd)]]; [by left|by right; left|]. right; right. split; [done|].
    exists x, w. split_and!; [lia..| |done]. apply Hb; [lia|done].
Qed.

(** Nothing has been done yet. *)
Lemma flags_set_none s l lo error s' : Mm s l -> quiet s s' -> lo < end_ ->
  fails error \/ (error = - EACCES /\ exists x w, lo <= x < end_ /\ mapped_as s l x w /\ den (nf w.1.1) = true) ->
  flags_set s l lo lo error s' l.
Proof using Hfails.
  intros HM Q Hlo He. constructor; try lia; try done.
  - by apply changed_nothing.
  - intros ->. by destruct He as [|[? _]].
  - destruct He as [?|?]; [by right; left|by right; right].
Qed.
(** Nothing is left. *)
Lemma flags_set_end s l s' : Mm s l -> quiet s s' -> flags_set s l end_ end_ 0 s' l.
Proof using. intros HM Q. constructor; try lia; try done. by apply changed_nothing. Qed.

(** The part of the range in an area. *)
Lemma area_there s l1 a l2 lo m : Mm s (l1 ++ a :: l2) -> vm_start (ar s a) <= lo -> m <= vm_end (ar s a) ->
  den (nf (vm_flags (ar s a))) = false ->
  forall x, lo <= x < m -> exists w, mapped_as s (l1 ++ a :: l2) x w /\ den (nf w.1.1) = false.
Proof using.
  intros HM Hlo Hm Hd x Hx. exists (attr (ar s a) x). split; [|done]. apply mapped_middle. left. split; [|done].
  unfold covers. lia.
Qed.
End Range.

Lemma mapped_unique s l x w w' : Areas s l -> mapped_as s l x w -> mapped_as s l x w' -> w = w'.
Proof.
  intros HA (a & Ha & Hc & ->) (b & Hb & Hcb & ->). destruct (decide (a = b)) as [->|Hne]; [done|exfalso].
  apply list_elem_of_split in Ha as (x1 & x2 & El). destruct (sorted_split _ _ HA _ _ _ El) as [H1 H2].
  rewrite Forall_forall in H1, H2. unfold below, covers in *. rewrite El in Hb.
  apply elem_of_app in Hb as [Hb|[->|Hb]%elem_of_cons]; [specialize (H1 b Hb); lia|done|specialize (H2 b Hb); lia].
Qed.

(** ** The loop of [mprotect] *)
Section Loop.
Context (has_open : Z -> bool) (prot end_ n1 n2 : Z).
Hypothesis Hend : (PAGE_SIZE | end_).
Hypothesis Hnn : n1 = n2 -> n2 = 0.
Let nf : Z -> Z := new_flags prot.

Definition protected : mm_struct -> list Z -> Z -> Z -> Z -> mm_struct -> list Z -> Prop :=
  flags_set nf denied (fun e => e = - ENOMEM) [n1; n2] end_.
Lemma protected_none s l lo error s' : Mm s l -> quiet s s' -> lo < end_ ->
  error = - ENOMEM \/ (error = - EACCES /\ exists x w, lo <= x < end_ /\ mapped_as s l x w /\ denied (nf w.1.1) = true) ->
  protected s l lo lo error s' l.
Proof using. exact (flags_set_none nf denied (fun e => e = - ENOMEM) [n1; n2] end_ ltac:(done) s l lo error s'). Qed.

(** Where the loop stops at the end of an area. *)
Definition stopped (rest : option (Z * Z)) (error : Z) (l' : list Z) : Prop :=
  match rest with
  | None => True
  | Some (prev, next) => error = 0 /\ exists l1 l2, l' = l1 ++ l2 /\ l1 <> [] /\ last0 l1 = prev /\ hd0 l2 = next
  end.

Lemma loop_correct fuel : forall s l1 a l2 nstart,
  Mm s (l1 ++ a :: l2) -> (length l2 < fuel)%nat -> vm_start (ar s a) <= nstart < vm_end (ar s a) -> nstart < end_ ->
  (PAGE_SIZE | nstart) -> nstart = vm_start (ar s a) \/ spare s (l1 ++ a :: l2) n1 -> spare s (l1 ++ a :: l2) n2 ->
  exists error rest s', mprotect_loop has_open fuel a (last0 l1) nstart end_ prot n1 n2 s = Ok ((error, rest), s') /\
    exists m l', protected s (l1 ++ a :: l2) nstart m error s' l' /\ stopped rest error l'.
Proof using All.
  induction fuel as [|fuel IH]; intros s l1 a l2 nstart HM Hf Hst Hlt Hal Hsp1 Hsp2; [lia|]. cbn [mprotect_loop].
  pose proof (mm_areas _ _ (mm_ok _ _ HM) a (elem_mid _ _ _)) as [Ha Hok]. runV. fold nf.
  assert (Huniq : forall x w w', mapped_as s (l1 ++ a :: l2) x w -> mapped_as s (l1 ++ a :: l2) x w' -> w = w')
    by (intros x w w'; apply mapped_unique, HM).
  destruct (denied (nf (vm_flags (ar s a)))) eqn:Hd.
  { eexists _, None, s. split; [done|]. exists nstart, (l1 ++ a :: l2). split; [|done]. apply protected_none; try done.
    right. split; [done|]. exists nstart, (attr (ar s a) nstart). split_and!; [lia|lia| |done].
    apply mapped_middle. left. split; [|done]. unfold covers. lia. }
  runV. destruct (Z.ltb_spec end_ (vm_end (ar s a))) as [Hpart|Hfull].
  - destruct (mprotect_part has_open nf s l1 l2 a n1 n2 HM nstart end_) as (error & prev' & s' & E & HR); try done; [lia|].
    rewrite (bindV _ _ _ _ _ E). exists error, None, s'. split; [done|].
    destruct HR as [[-> (l' & HC)]|[-> Q]].
    + exists end_, l'. split; [|done]. eapply (flags_set_step _ _ _ _ _ s _ nstart end_ s' l'); [lia|exact HC| |done|].
      * apply (area_there nf denied s l1 a l2); [done|lia|lia|done].
      * apply flags_set_end; [apply HC|done].
    + exists nstart, (l1 ++ a :: l2). split; [|done]. apply protected_none; [done|done|lia|by left].
  - pose proof (mm_linked _ _ (mm_ok _ _ HM)) as Hl. apply linked_next in Hl.
    rewrite (bindV _ _ _ (hd0 l2) s) by (unfold next_get; by rewrite Hl).
    destruct (fixup_full has_open nf s l1 l2 a n1 n2 HM nstart) as (error & prev' & s1 & E & HR); try done.
    rewrite (bindV _ _ _ _ _ E). cbv beta iota. destruct HR as [[-> HD]|[-> Q]].
    2: { exists (- ENOMEM), None, s1. split; [done|]. exists nstart, (l1 ++ a :: l2). split; [|done].
         apply protected_none; [done|done|lia|by left]. }
    change (truth 0) with false. cbv iota. destruct HD as (l1' & Hne & Hlast & Hsame & Hpe & HC0).
    assert (HC : changed nf [n1; n2] s (l1 ++ a :: l2) nstart (vm_end (ar s a)) s1 (l1' ++ l2)).
    { eapply changed_sub; [exact HC0|]. intros b. rewrite !elem_of_cons. tauto. }
    pose proof (area_there nf denied s l1 a l2 nstart (vm_end (ar s a)) HM ltac:(lia) ltac:(lia) Hd) as Hhere.
    pose proof (ch_mm _ _ _ _ _ _ _ _ HC) as HM1.
    destruct (Z.eqb_spec (vm_end (ar s a)) end_) as [Elast|Hmore].
    { exists 0, (Some (prev', hd0 l2)), s1. split; [done|]. exists end_, (l1' ++ l2). split; [|split; [done|]; by exists l1', l2].
      rewrite Elast in *. eapply (flags_set_step _ _ _ _ _ s _ nstart end_ s1 (l1' ++ l2)); [lia|exact HC|done|done|].
      by apply flags_set_end. }
    assert (Hstop : exists m l', protected s (l1 ++ a :: l2) nstart m (- ENOMEM) s1 l' /\ stopped None (- ENOMEM) l').
    { exists (vm_end (ar s a)), (l1' ++ l2). split; [|done].
      eapply (flags_set_step _ _ _ _ _ s _ nstart (vm_end (ar s a)) s1 (l1' ++ l2)); [lia|exact HC|done|done|].
      apply protected_none; [done|done|lia|by left]. }
    destruct l2 as [|c l2]; [by exists (- ENOMEM), None, s1|]. cbn [hd0 hd].
    destruct (mm_areas _ _ (mm_ok _ _ HM1) c) as [Hc Hokc]; [set_solver|].
    rewrite truth_nz by (eapply Areas_nonzero; [apply HM1|set_solver]). cbn [negb]. runV.
    destruct (Z.eqb_spec (vm_start (ar s1 c)) (vm_end (ar s a))) as [Hadj|]; cbn [negb]; [|by exists (- ENOMEM), None, s1].
    rewrite <- Hlast.
    destruct (IH s1 l1' c l2 (vm_end (ar s a))) as (error & rest & s' & E' & m & l' & HP & Hrest); try done.
    + simpl in Hf. lia.
    + unfold area_ok in Hokc. lia.
    + lia.
    + apply Hok.
    + by left.
    + destruct Hsp2 as [->|[Hm2 Hout2]]; [by left|right]. split; [by apply (ch_mem _ _ _ _ _ _ _ _ HC)|].
      intros Hin. destruct (ch_sub _ _ _ _ _ _ _ _ HC0 n2 Hin) as [|H12]; [done|].
      apply list_elem_of_singleton in H12. destruct Hm2 as [H0 _]. auto.
    + exists error, rest, s'. split; [done|]. exists m, l'. split; [|done].
      eapply (flags_set_step _ _ _ _ _ s _ nstart (vm_end (ar s a)) s1 (l1' ++ c :: l2)); [lia|exact HC|done|done|done].
Qed.
End Loop.

Lemma join_next_correct nf s l1 l2 lo : Mm s (l1 ++ l2) -> l1 <> [] ->
  exists s' l', join_next (last0 l1) (hd0 l2) s = Ok (tt, s') /\ changed nf [] s (l1 ++ l2) lo lo s' l'.
Proof.
  intros HM Hne. unfold join_next.
  assert (Hid : exists s' l', (mret tt : V unit) s = Ok (tt, s') /\ changed nf [] s (l1 ++ l2) lo lo s' l').
  { exists s, (l1 ++ l2). split; [done|]. by apply changed_nothing. }
  destruct l2 as [|a l2]; [exact Hid|]. cbn [hd0 hd]. destruct l1 as [|p l1 _] using rev_ind; [done|]. rewrite last0_snoc.
  rewrite <- app_assoc in *. cbn [app] in *.
  pose proof (area_of _ _ (mm_ok _ _ HM) p ltac:(set_solver)) as Hp.
  assert (Hain : a ∈ l1 ++ p :: a :: l2) by set_solver. pose proof (area_of _ _ (mm_ok _ _ HM) a Hain) as Ha.
  rewrite truth_nz by (by eapply Areas_nonzero; [apply HM|]). do 2 runV.
  destruct (Z.eqb_spec (vm_end (ar s p)) (vm_start (ar s a))) as [Hadj|]; [|exact Hid]. runV.
  rewrite (bindV _ _ _ _ _ (can_vma_merge_ok _ _ _ Ha)). runV.
  destruct (_ && negb (truth (vm_flags (ar s p) .& _))) eqn:Eok; [|exact Hid].
  apply andb_true_iff in Eok as [[Hm Hf]%andb_true_iff _].
  destruct (changed_alike nf s l1 p a l2 lo HM Hadj Hm) as (s' & E & HC).
  { unfold truth in Hf. by destruct (Z.eqb_spec (vm_file (ar s p)) 0). }
  by exists s', (l1 ++ p :: l2).
Qed.

(** The arguments that are refused. *)
Definition bad_mprotect (start len prot : Z) : Prop :=
  ~ (PAGE_SIZE | start) \/ 4294967296 <= start + PAGE_ALIGN len \/
  prot .& Z.lnot (PROT_READ .| PROT_WRITE .| PROT_EXEC) <> 0.

Lemma mprotect_checks start len prot : 0 <= start < 4294967296 ->
  if truth (start .& Z.lnot PAGE_MASK) || (u32 (start + PAGE_ALIGN len) <? start) ||
     truth (prot .& Z.lnot (PROT_READ .| PROT_WRITE .| PROT_EXEC)) then bad_mprotect start len prot
  else ~ bad_mprotect start len prot /\ (PAGE_SIZE | start) /\ start + PAGE_ALIGN len < 4294967296.
Proof.
  intros Hs. unfold bad_mprotect. destruct (PAGE_ALIGN_range len) as [Hl _].
  destruct (truth (start .& Z.lnot PAGE_MASK)) eqn:E1; cbn [orb].
  { left. intros H. apply page_aligned in H. congruence. }
  apply page_aligned in E1. destruct (Z.lt_ge_cases (start + PAGE_ALIGN len) 4294967296) as [Hlt|Hge].
  - rewrite u32_id by lia. destruct (Z.ltb_spec (start + PAGE_ALIGN len) start); [lia|]. cbn [orb].
    set (b := prot .& _). unfold truth. destruct (Z.eqb_spec b 0) as [E3|E3]; cbn [negb]; [|by right; right].
    split; [|done]. intros [?|[?|?]]; [done|lia|done].
  - assert (E : u32 (start + PAGE_ALIGN len) = start + PAGE_ALIGN len - 4294967296).
    { unfold u32. rewrite <- (Z_mod_plus_full _ (-1)), Z.mod_small; lia. }
    rewrite E. destruct (Z.ltb_spec (start + PAGE_ALIGN len - 4294967296) start); [|lia]. cbn [orb]. by right; left.
Qed.

(** C19. [sys_mprotect] never faults and its loop ends. It returns [-EINVAL], and changes nothing,
    exactly for a start that is not page aligned, a range that wraps around and unknown protection
    bits. Else there is an address [m] of the range such that every address before it was mapped,
    and has its old flags with the three protection bits replaced, its file and its page of the
    file; these flags were allowed by the area ([VM_MAYREAD] and so on); every other address has
    what it had; the areas, cut and joined, are again a sorted list with a matching red-black tree
    and count, and they have as many pages as before. On success [m] is the end of the range;
    [-EACCES] is returned only if an area does not allow the new flags. *)
Theorem mprotect_exact has_open s l start len prot n1 n2 :
  Mm s l -> 0 <= start < 4294967296 -> spare s l n1 -> spare s l n2 -> (n1 = n2 -> n2 = 0) ->
  exists error s', sys_mprotect has_open start len prot n1 n2 s = Ok (error, s') /\
    ((error = - EINVAL /\ bad_mprotect start len prot /\ s' = s) \/
     (~ bad_mprotect start len prot /\
      exists m l', protected prot (start + PAGE_ALIGN len) n1 n2 s l start m error s' l')).
Proof.
  intros HM Hs Hsp1 Hsp2 Hnn. unfold sys_mprotect. pose proof (mprotect_checks start len prot Hs) as Hc.
  destruct (PAGE_ALIGN_range len) as [Hlr Hlal]. cbv zeta.
  destruct (truth (start .& Z.lnot PAGE_MASK)); cbn [orb] in Hc; [by eexists _, s; split; [|left]|].
  destruct (u32 (start + PAGE_ALIGN len) <? start); cbn [orb] in Hc; [by eexists _, s; split; [|left]|].
  destruct (truth (prot .& _)); cbn [orb] in Hc; [by eexists _, s; split; [|left]|].
  destruct Hc as (Hgood & Hal & Hlt). rewrite u32_id by lia. set (end_ := start + PAGE_ALIGN len).
  assert (Hend : (PAGE_SIZE | end_)) by (by apply Z.divide_add_r).
  assert (Hself : quiet s s) by done.
  destruct (Z.eqb_spec end_ start) as [He|He].
  { exists 0, s. split; [done|]. right. split; [done|]. exists start, l. constructor; try done; try lia.
    by apply changed_nothing. }
  destruct (find_vma_prev_split s l start (mm_ok _ _ HM)) as (l1 & l2 & (El & Hlow & Hhigh) & E).
  rewrite (bindV _ _ _ _ _ E). clear E. cbv beta iota.
  assert (Hnone : exists error s', (mret (- ENOMEM) : V Z) s = Ok (error, s') /\
    ((error = - EINVAL /\ bad_mprotect start len prot /\ s' = s) \/
     (~ bad_mprotect start len prot /\ exists m l', protected prot end_ n1 n2 s l start m error s' l'))).
  { exists (- ENOMEM), s. split; [done|]. right. split; [done|]. exists start, l. apply protected_none; [done|done|lia|by left]. }
  destruct l2 as [|a l2]; [exact Hnone|]. cbn [hd0 hd]. destruct (decide (a :: l2 = [])); [done|].
  rewrite Forall_forall in Hhigh. specialize (Hhigh a ltac:(left)). unfold high in Hhigh.
  rewrite El in *. pose proof (area_of _ _ (mm_ok _ _ HM) a (elem_mid _ _ _)) as Ha.
  rewrite truth_nz by (eapply Areas_nonzero; [apply HM|apply elem_mid]). runV. cbn [negb orb].
  destruct (Z.ltb_spec start (vm_start (ar s a))); [exact Hnone|].
  destruct (loop_correct has_open prot end_ n1 n2 Hend Hnn (S (size (nodes (mm_rb s)))) s l1 a l2 start)
    as (error & rest & s1 & E & m & l' & HP & Hrest); try done.
  - destruct (mm_tree _ _ (mm_ok _ _ HM)) as (t & HT & _ & Hin). pose proof (walk_fuel _ _ _ HT) as Hf.
    rewrite Hin, length_app in Hf. simpl in Hf. lia.
  - lia.
  - by right.
  - rewrite (bindV _ (walk _) _ _ _ E). cbv beta iota. destruct rest as [[prev next]|].
    + destruct Hrest as (-> & l1' & l2' & -> & Hne & <- & <-).
      destruct (join_next_correct (new_flags prot) s1 l1' l2' m) as (s' & l' & Ej & HC); [apply HP|done|].
      rewrite (bindV _ _ _ _ _ Ej). exists 0, s'. split; [done|]. right. split; [done|]. exists m, l'.
      destruct HP as [P1 P2 P3 P4 P5 P6]. constructor; try done.
      eapply changed_trans; [|exact P2|eapply changed_sub; [exact HC|]]; [lia|by intros b ?%elem_of_nil].
    + exists error, s1. split; [done|]. right. split; [done|]. by exists m, l'.
Qed.

(** The end of the data and the start of the heap become read-only. *)
Lemma mprotect_exact_witness :
  exists error s', sys_mprotect (fun _ => true) 0xb000 8192 PROT_READ 8 9 sample_mm = Ok (error, s') /\
    ((error = - EINVAL /\ bad_mprotect 0xb000 8192 PROT_READ /\ s' = sample_mm) \/
     (~ bad_mprotect 0xb000 8192 PROT_READ /\
      exists m l', protected PROT_READ (0xb000 + PAGE_ALIGN 8192) 8 9 sample_mm sample_areas 0xb000 m error s' l')).
Proof.
  apply (mprotect_exact (fun _ => true) sample_mm sample_areas 0xb000 8192 PROT_READ 8 9 sample_mm_ok).
  - lia.
  - right. apply sample_spare. by left.
  - right. apply sample_spare. by right.
  - done.
Defined.

(** A length of the last page of the 32-bit range is rounded up to 0: the call succeeds, and the
    protection of nothing changes. *)
Lemma mprotect_wraps_around has_open s start len prot n1 n2 :
  (PAGE_SIZE | start) -> 0 <= start < 4294967296 -> prot .& Z.lnot (PROT_READ .| PROT_WRITE .| PROT_EXEC) = 0 ->
  4294963200 < len < 4294967296 -> sys_mprotect has_open start len prot n1 n2 s = Ok (0, s).
Proof.
  intros Hal Hs Hp Hlen. unfold sys_mprotect. apply page_aligned in Hal. rewrite Hal.
  rewrite (align_wraps len Hlen), Z.add_0_r, u32_id, Z.ltb_irrefl by lia.
  rewrite Hp, Z.eqb_refl. done.
Qed.
