(* ===== verification/Mlock.v ===== *)
(** Locking pages in memory: mm/mlock.c.

    [do_mlock] walks over the areas of a range like [sys_mprotect], but joins none; [do_mlockall]
    changes all areas. The two areas that may be allocated are the parameters [n1], for the cut at
    the start of the range, and [n2], for the one at its end; whether the caller has [CAP_IPC_LOCK],
    its limit and the number of pages of the machine are parameters too.

    The theorems: exactly the range (a part at its start, if there is an error) gets or loses the
    flag [VM_LOCKED] ([mlock_exact]), and so do all areas with [mlockall] ([mlockall_exact]). *)
From stdpp Require Import sorting.
From S2P Require Import Prelude Bootmem Rbtree Vma Munmap Mmap Mprotect.

Definition EPERM : Z := 1.
Definition MCL_CURRENT : Z := 1.
Definition MCL_FUTURE : Z := 2.

Section Mlock.
  Context (has_open : Z -> bool) (capable : bool) (rlim_memlock num_physpages : Z).

Definition mlock_fixup_all (vma newflags : Z) : V Z :=
  vma_set vma (fun v => v <| vm_flags := newflags |>);;
  mret 0.

Definition mlock_fixup_start (vma end_ newflags n : Z) : V Z :=
  if negb (truth n) then mret (- EAGAIN)
  else
    v ← vma_get vma id;
    vma_set n (fun _ => v <| vm_end := end_ |> <| vm_flags := newflags |> <| vm_raend := 0 |>);;
    hold_copy has_open n v;;
    vma_set vma (fun v => v <| vm_pgoff := u32 (vm_pgoff v + (u32 (end_ - vm_start v) .>> PAGE_SHIFT)) |>);;
    vma_set vma (fun v => v <| vm_start := end_ |>);;
    __insert_vm_struct n;;
    mret 0.

Definition mlock_fixup_end (vma start newflags n : Z) : V Z :=
  if negb (truth n) then mret (- EAGAIN)
  else
    v ← vma_get vma id;
    vma_set n (fun _ => v <| vm_start := start |>
      <| vm_pgoff := u32 (vm_pgoff v + (u32 (start - vm_start v) .>> PAGE_SHIFT)) |>
      <| vm_flags := newflags |> <| vm_raend := 0 |>);;
    hold_copy has_open n v;;
    vma_set vma (fun v => v <| vm_end := start |>);;
    __insert_vm_struct n;;
    mret 0.

Definition mlock_fixup_middle (vma start end_ newflags left right : Z) : V Z :=
  if negb (truth left) then mret (- EAGAIN)
  else if negb (truth right) then call_out (Kmem_cache_free left);; mret (- EAGAIN)
  else
    v ← vma_get vma id;
    vma_set left (fun _ => v <| vm_end := start |> <| vm_raend := 0 |>);;
    vma_set right (fun _ => v <| vm_start := end_ |>
      <| vm_pgoff := u32 (vm_pgoff v + (u32 (end_ - vm_start v) .>> PAGE_SHIFT)) |> <| vm_raend := 0 |>);;
    vma_set vma (fun v => v <| vm_flags := newflags |>);;
    whenV (truth (vm_file v)) (call_out (Get_file (vm_file v));; call_out (Get_file (vm_file v)));;
    whenV (truth (vm_ops v) && has_open (vm_ops v))
      (call_out (Vm_open (vm_ops v) left);; call_out (Vm_open (vm_ops v) right));;
    vma_set vma (fun v => v <| vm_raend := 0 |>
      <| vm_pgoff := u32 (vm_pgoff v + (u32 (start - vm_start v) .>> PAGE_SHIFT)) |>);;
    vma_set vma (fun v => v <| vm_start := start |> <| vm_end := end_ |> <| vm_flags := newflags |>);;
    __insert_vm_struct left;;
    __insert_vm_struct right;;
    mret 0.

(** The account of the locked pages. *)
Definition count_locked (start end_ newflags : Z) : V unit :=
  let pages := u32 (end_ - start) .>> PAGE_SHIFT in
  if truth (newflags .& VM_LOCKED) then
    call_out (Make_pages_present start end_);;
    mm_set (fun s => s <| locked_vm := u32 (locked_vm s + pages) |>)
  else mm_set (fun s => s <| locked_vm := u32 (locked_vm s - pages) |>).

Definition mlock_fixup (vma start end_ newflags n1 n2 : Z) : V Z :=
  flags ← vma_get vma vm_flags;
  if newflags =? flags then mret 0
  else
    st ← vma_get vma vm_start;
    e ← vma_get vma vm_end;
    retval ←
      (if start =? st then
         if end_ =? e then mlock_fixup_all vma newflags
         else mlock_fixup_start vma end_ newflags n2
       else if end_ =? e then mlock_fixup_end vma start newflags n1
       else mlock_fixup_middle vma start end_ newflags n1 n2);
    whenV (negb (truth retval)) (count_locked start end_ newflags);;
    mret retval.

Definition lock_flags (on : bool) (flags : Z) : Z :=
  let newflags := flags .| VM_LOCKED in
  if on then newflags else newflags .& Z.lnot VM_LOCKED.

Fixpoint mlock_loop (fuel : nat) (vma nstart end_ : Z) (on : bool) (n1 n2 : Z) : V Z :=
  match fuel with
  | O => BUG
  | S fuel =>
    flags ← vma_get vma vm_flags;
    let newflags := lock_flags on flags in
    e ← vma_get vma vm_end;
    if end_ <=? e then mlock_fixup vma nstart end_ newflags n1 n2
    else
      next ← next_get vma;
      error ← mlock_fixup vma nstart e newflags n1 n2;
      if truth error then mret error
      else if negb (truth next) then mret (- ENOMEM)
      else
        st ← vma_get next vm_start;
        if negb (st =? e) then mret (- ENOMEM)
        else mlock_loop fuel next e end_ on n1 n2
  end.

Definition do_mlock (start len : Z) (on : bool) (n1 n2 : Z) : V Z :=
  if on && negb capable then mret (- EPERM)
  else
  let len := PAGE_ALIGN len in
  let end_ := u32 (start + len) in
  if end_ <? start then mret (- EINVAL)
  else if end_ =? start then mret 0
  else
  vma ← find_vma start;
  st ← (if truth vma then vma_get vma vm_start else mret 0);
  if negb (truth vma) || (start <? st) then mret (- ENOMEM)
  else walk (fun fuel => mlock_loop fuel vma start end_ on n1 n2).

Definition sys_mlock (start len n1 n2 : Z) : V Z :=
  let len := PAGE_ALIGN (u32 (len + (start .& Z.lnot PAGE_MASK))) in
  let start := start .& PAGE_MASK in
  l ← mm_get locked_vm;
  let locked := u32 ((len .>> PAGE_SHIFT) + l) in
  if (rlim_memlock .>> PAGE_SHIFT <? locked) || (num_physpages / 2 <? locked) then mret (- ENOMEM)
  else do_mlock start len true n1 n2.

Definition sys_munlock (start len n1 n2 : Z) : V Z :=
  let len := PAGE_ALIGN (u32 (len + (start .& Z.lnot PAGE_MASK))) in
  do_mlock (start .& PAGE_MASK) len false n1 n2.

Fixpoint mlockall_loop (fuel : nat) (vma : Z) (current : bool) : V Z :=
  match fuel with
  | O => BUG
  | S fuel =>
    if truth vma then
      v ← vma_get vma id;
      error ← mlock_fixup vma (vm_start v) (vm_end v) (lock_flags current (vm_flags v)) 0 0;
      if truth error then mret error
      else
        next ← next_get vma;
        mlockall_loop fuel next current
    else mret 0
  end.

Definition do_mlockall (flags : Z) : V Z :=
  if negb capable then mret (- EPERM)
  else
    mm_set (fun s => s <| def_flags := if truth (flags .& MCL_FUTURE) then VM_LOCKED else 0 |>);;
    vma ← mm_get mmap;
    walk (fun fuel => mlockall_loop fuel vma (truth (flags .& MCL_CURRENT))).

Definition sys_mlockall (flags : Z) : V Z :=
  if negb (truth flags) || truth (flags .& Z.lnot (MCL_CURRENT .| MCL_FUTURE)) then mret (- EINVAL)
  else
  total ← mm_get total_vm;
  if (rlim_memlock .>> PAGE_SHIFT <? total) || (num_physpages / 2 <? total) then mret (- ENOMEM)
  else do_mlockall flags.

Definition sys_munlockall : V Z := do_mlockall 0.

(** ** The account of locked pages *)
Definition locked_at (s : mm_struct) (l : list Z) (x : Z) : bool :=
  existsb (fun a => (vm_start (ar s a) <=? x) && (x <? vm_end (ar s a)) && truth (vm_flags (ar s a) .& VM_LOCKED)) l.
Fixpoint count_pages (f : Z -> bool) (n : nat) : Z :=
  match n with
  | O => 0
  | S n => count_pages f n + Z.b2z (f (Z.of_nat n * PAGE_SIZE))
  end.
Lemma all_pages_exist : exists n, Z.of_nat n = 1048576.
Proof using. exists (Z.to_nat 1048576). by apply Z2Nat.id. Qed.
(** The pages of the locked areas. *)
Fixpoint locked_pages (s : mm_struct) (l : list Z) : Z :=
  match l with
  | [] => 0
  | a :: l => (if truth (vm_flags (ar s a) .& VM_LOCKED) then (vm_end (ar s a) - vm_start (ar s a)) / PAGE_SIZE else 0) + locked_pages s l
  end.
(** [locked_vm] stays the number of locked pages. *)
Definition counted (s : mm_struct) (l : list Z) (s' : mm_struct) (l' : list Z) : Prop :=
  locked_vm s = locked_pages s l -> locked_vm s' = locked_pages s' l'.

Lemma locked_pages_ext s s' l : ar s' = ar s -> locked_pages s' l = locked_pages s l.
Proof using. intros E. induction l as [|b l IH]; [done|]. cbn [locked_pages]. by rewrite IH, E. Qed.
Lemma count_range f n : 0 <= count_pages f n <= Z.of_nat n.
Proof. induction n as [|n IH]; [done|]. cbn [count_pages]. destruct (f _); simpl Z.b2z; lia. Qed.
(** The pages from [lo] to [hi] go from [b] to [b']. *)
Lemma count_change f g b b' lo hi n : 0 <= lo <= hi ->
  (forall x, lo * PAGE_SIZE <= x < hi * PAGE_SIZE -> f x = b /\ g x = b') ->
  (forall x, ~ (lo * PAGE_SIZE <= x < hi * PAGE_SIZE) -> g x = f x) ->
  count_pages g n - count_pages f n = (Z.b2z b' - Z.b2z b) * (Z.min (Z.of_nat n) hi - Z.min (Z.of_nat n) lo).
Proof.
  intros Hlh Hin Hout. induction n as [|n IH]; [cbn [count_pages]; rewrite !Z.min_l by lia; lia|].
  cbn [count_pages]. change PAGE_SIZE with 4096 in *.
  destruct (decide (lo <= Z.of_nat n < hi)) as [H|H].
  - destruct (Hin (Z.of_nat n * 4096)) as [-> ->]; [lia|].
    replace (Z.min (Z.of_nat (S n)) hi) with (Z.min (Z.of_nat n) hi + 1) by lia.
    replace (Z.min (Z.of_nat (S n)) lo) with (Z.min (Z.of_nat n) lo) by lia. lia.
  - rewrite (Hout (Z.of_nat n * 4096)) by lia.
    replace (Z.min (Z.of_nat (S n)) hi - Z.min (Z.of_nat (S n)) lo) with (Z.min (Z.of_nat n) hi - Z.min (Z.of_nat n) lo) by lia.
    lia.
Qed.

Lemma locked_at_spec s l x : locked_at s l x = true <-> exists w, mapped_as s l x w /\ truth (w.1.1 .& VM_LOCKED) = true.
Proof.
  unfold locked_at. rewrite existsb_exists. split.
  - intros (a & Ha & [[H1%Z.leb_le H2%Z.ltb_lt]%andb_true_iff Hl]%andb_true_iff). exists (attr (ar s a) x). split; [|done]. exists a.
    split_and!; [by apply list_elem_of_In|unfold covers; lia|done].
  - intros (w & (a & Ha & Hc & ->) & Hl). exists a. split; [by apply list_elem_of_In|]. unfold covers in Hc.
    cbn in Hl. by rewrite Hl, (proj2 (Z.leb_le _ _)), (proj2 (Z.ltb_lt _ _)) by lia.
Qed.
Lemma locked_at_ext s l s' l' x x' : 
  (forall w, truth (w.1.1 .& VM_LOCKED) = true -> (mapped_as s' l' x' w <-> mapped_as s l x w)) -> locked_at s' l' x' = locked_at s l x.
Proof.
  intros H. apply eq_bool_prop_intro. rewrite !Is_true_true, !locked_at_spec.
  split; intros (w & Hw & Hl); exists w; (split; [|done]); by apply H.
Qed.

(** The pages, counted one by one. *)
Lemma locked_pages_count n s l : Z.of_nat n = 1048576 -> Areas s l -> locked_pages s l = count_pages (locked_at s l) n.
Proof using.
  clear has_open capable rlim_memlock num_physpages. intros Hn HA. pose proof (mm_sorted _ _ HA) as Hs. pose proof (fun a Ha => proj2 (mm_areas _ _ HA a Ha)) as Hok. clear HA.
  induction l as [|a l IH]; [clear; induction n as [|n IH]; cbn [count_pages] in *; [done|by rewrite <- IH]|].
  apply StronglySorted_cons in Hs as [Ha Hs]. cbn [locked_pages]. rewrite IH by (set_solver || done). rewrite Forall_forall in Ha.
  destruct (Hok a ltac:(left)) as (H1 & H2 & H3 & [p Hp] & [q Hq]). unfold below in Ha. change PAGE_SIZE with 4096 in *.
  set (b := truth (vm_flags (ar s a) .& VM_LOCKED)) in *.
  assert (Hcons : forall x, locked_at s (a :: l) x = (vm_start (ar s a) <=? x) && (x <? vm_end (ar s a)) && b || locked_at s l x) by done.
  assert (Hc : count_pages (locked_at s (a :: l)) n - count_pages (locked_at s l) n = (Z.b2z b - Z.b2z false) * (q - p)).
  { rewrite (count_change _ _ false b p q); change PAGE_SIZE with 4096; [|lia| |].
    - by rewrite !Z.min_r by lia.
    - intros x Hx. assert (Hf : locked_at s l x = false).
      { apply not_true_is_false. intros (w & (c & Hcl & Hcc & _) & _)%locked_at_spec. specialize (Ha c Hcl). unfold covers in Hcc. lia. }
      split; [done|]. rewrite Hcons, Hf, orb_false_r, (proj2 (Z.leb_le _ _)), (proj2 (Z.ltb_lt _ _)) by lia. done.
    - intros x Hx. rewrite Hcons. destruct (Z.leb_spec (vm_start (ar s a)) x); destruct (Z.ltb_spec x (vm_end (ar s a))); try done. lia. }
  rewrite Hp, Hq, <- Z.mul_sub_distr_r, Z.div_mul by done. destruct b; cbn [Z.b2z] in Hc; lia.
Qed.

(** Setting and clearing the flag. *)
Lemma lock_flags_bit on f : truth (lock_flags on f .& VM_LOCKED) = on.
Proof.
  unfold lock_flags. change VM_LOCKED with (2 ^ 13). destruct on.
  - rewrite Z.land_lor_distr_l, Z.land_diag. unfold truth. apply negb_true_iff, Z.eqb_neq. intros H%Z.lor_eq_0_iff. by destruct H.
  - replace (_ .& _) with 0; [done|]. symmetry. apply Z.bits_inj'. intros i Hi. by rewrite !Z.land_spec, Z.lnot_spec, Z.bits_0,
      <- andb_assoc, andb_negb_l, andb_false_r by done.
Qed.
Lemma lock_flags_same on f : truth (f .& VM_LOCKED) = on -> lock_flags on f = f.
Proof.
  unfold lock_flags, truth. change VM_LOCKED with (2 ^ 13). intros Hb.
  assert (Hbit : Z.testbit f 13 = on).
  { destruct (Z.testbit f 13) eqn:E; [|].
    - rewrite <- Hb. symmetry. apply negb_true_iff, Z.eqb_neq. intros H. apply (f_equal (fun z => Z.testbit z 13)) in H.
      by rewrite Z.land_spec, E, Z.bits_0 in H.
    - rewrite <- Hb. symmetry. apply negb_false_iff, Z.eqb_eq. apply Z.bits_inj'. intros i Hi.
      rewrite Z.land_spec, Z.bits_0, Z.pow2_bits_eqb by done. destruct (Z.eqb_spec 13 i) as [<-|]; [by rewrite E|apply andb_false_r]. }
  apply Z.bits_inj'. intros i Hi. destruct on; rewrite ?Z.land_spec, ?Z.lnot_spec, Z.lor_spec, Z.pow2_bits_eqb by done;
    destruct (Z.eqb_spec 13 i) as [<-|]; rewrite ?Hbit, ?orb_true_r, ?orb_false_r, ?andb_true_r; done.
Qed.
Lemma lock_flags_flip on f : lock_flags on f <> f -> truth (f .& VM_LOCKED) = negb on.
Proof. intros H. destruct (truth (f .& VM_LOCKED)) eqn:E, on; try done; by destruct H; apply lock_flags_same. Qed.

(** *** What leaves the account alone *)
Definition keeps {A} (m : V A) : Prop := forall s a s', m s = Ok (a, s') -> locked_vm s' = locked_vm s.
Create HintDb keeps.
Lemma keeps_bind {A B} (m : V A) (f : A -> V B) : keeps m -> (forall a, keeps (f a)) -> keeps (m ≫= f).
Proof.
  intros Hm Hf s b s'. unfold mbind, V_bind. destruct (m s) as [[a s1]|] eqn:E; [|done]. intros H%Hf. by rewrite H, (Hm _ _ _ E).
Qed.
Lemma keeps_ret {A} (a : A) : keeps (mret a).
Proof. by intros s b s' [= _ <-]. Qed.
Lemma keeps_get {A} a (f : vm_area -> A) : keeps (vma_get a f).
Proof. intros s b s'. unfold vma_get. destruct (vmas s !! a); [by intros [= _ <-]|done]. Qed.
Lemma keeps_set a f : keeps (vma_set a f).
Proof. intros s b s'. unfold vma_set. destruct (vmas s !! a); [by intros [= _ <-]|done]. Qed.
Lemma keeps_next a : keeps (next_get a).
Proof. intros s b s'. unfold next_get. destruct (vm_next s !! a); [by intros [= _ <-]|done]. Qed.
Lemma keeps_next_set a n : keeps (next_set a n).
Proof. intros s b s'. unfold next_set. destruct (vm_next s !! a); [by intros [= _ <-]|done]. Qed.
Lemma keeps_mm {A} (f : mm_struct -> A) : keeps (mm_get f).
Proof. by intros s b s' [= _ <-]. Qed.
Lemma keeps_mm_set f : (forall s, locked_vm (f s) = locked_vm s) -> keeps (mm_set f).
Proof. intros H s b s' [= _ <-]. apply H. Qed.
Lemma keeps_rb {A} (m : M A) : keeps (on_rb m).
Proof. intros s b s'. unfold on_rb. destruct (m _) as [[]|]; [by intros [= _ <-]|done]. Qed.
Lemma keeps_call c : keeps (call_out c).
Proof. by apply keeps_mm_set. Qed.
Lemma keeps_bug {A} : keeps (BUG : V A).
Proof. by intros s b s'. Qed.
Lemma keeps_when c m : keeps m -> keeps (whenV c m).
Proof. intros H. destruct c; [done|apply keeps_ret]. Qed.
#[local] Hint Resolve keeps_ret keeps_get keeps_set keeps_next keeps_next_set keeps_mm keeps_rb keeps_call keeps_bug : keeps.
Ltac keeps := repeat (first [solve [auto with keeps]|apply keeps_bind; [|intros]|apply keeps_when|apply keeps_mm_set; done|case_match]).

Lemma keeps_prepare fuel : forall addr vma rb_link rb_parent rb_prev, keeps (prepare_loop fuel addr vma rb_link rb_parent rb_prev).
Proof. induction fuel as [|fuel IH]; intros; cbn [prepare_loop]; keeps. Qed.
Lemma keeps_insert n : keeps (__insert_vm_struct n).
Proof.
  unfold __insert_vm_struct, __vma_link, __vma_link_list, __vma_link_rb, __vma_link_file, count_map, find_vma_prepare.
  apply keeps_bind; [|intros]; [keeps|]. apply keeps_bind; [|intros; keeps]. intros s b s'. apply keeps_prepare.
Qed.
#[local] Hint Resolve keeps_insert : keeps.
Lemma keeps_hold n v : keeps (hold_copy has_open n v).
Proof. unfold hold_copy. keeps. Qed.
#[local] Hint Resolve keeps_hold : keeps.
Lemma keeps_fixups vma start end_ newflags n1 n2 :
  keeps (mlock_fixup_all vma newflags) /\ keeps (mlock_fixup_start vma end_ newflags n2) /\
  keeps (mlock_fixup_end vma start newflags n1) /\ keeps (mlock_fixup_middle vma start end_ newflags n1 n2).
Proof.
  unfold mlock_fixup_all, mlock_fixup_start, mlock_fixup_end, mlock_fixup_middle. split_and!; keeps.
Qed.

(** ** The fixups *)
Lemma quietly_count start end_ newflags : quietly (count_locked start end_ newflags).
Proof using.
  unfold count_locked. destruct (truth _); [apply quietly_seq; [apply quietly_call|]|];
    intros s; eexists; (split; [done|]); by destruct s.
Qed.
Hint Resolve quietly_count : quiet.

Section Fix.
Context (nf : Z -> Z) (s : mm_struct) (l1 l2 : list Z) (a : Z) (n1 n2 : Z).
Hypothesis HM : Mm s (l1 ++ a :: l2).

(** The new areas: only that at the start if the end of the area is reached. *)
Definition used (hi : Z) : list Z := if hi =? vm_end (ar s a) then [n1] else [n1; n2].
Lemma used_end : used (vm_end (ar s a)) = [n1].
Proof using. unfold used. by rewrite Z.eqb_refl. Qed.
Lemma used_part hi : hi < vm_end (ar s a) -> used hi = [n1; n2].
Proof using. intros H. unfold used. destruct (Z.eqb_spec hi (vm_end (ar s a))); [lia|done]. Qed.
Lemma used_in hi b : b ∈ used hi -> b ∈ [n1; n2].
Proof using. unfold used. case_match; [|done]. intros ->%list_elem_of_singleton. left. Qed.
(** The range of the area is done; the areas after it are as they were. *)
Definition range_done (lo hi : Z) (s' : mm_struct) : Prop :=
  exists l1', (forall b, b ∈ l2 -> ar s' b = ar s b) /\ changed nf (used hi) s (l1 ++ a :: l2) lo hi s' (l1' ++ l2).

Lemma l2_outside X t b : only_areas X s t -> (forall c, c ∈ X -> c = a \/ c ∉ l1 ++ a :: l2) -> b ∈ l2 -> ar t b = ar s b.
Proof using HM.
  intros HO HX Hb. unfold ar. rewrite (proj1 (proj2 HO)); [done|]. intros HbX.
  destruct (HX b HbX) as [->|Hn]; [by apply (l2_apart s l1 l2 a HM) in Hb as [? _]|].
  apply Hn, elem_of_app. right. by right.
Qed.

Lemma mlock_all_correct :
  exists s', mlock_fixup_all a (nf (vm_flags (ar s a))) s = Ok (0, s') /\
    range_done (vm_start (ar s a)) (vm_end (ar s a)) s'.
Proof using All.
  unfold mlock_fixup_all. destruct (area_value s l1 l2 a HM) as (v & Ev & Av).
  assert (HO : only_areas [a] s s) by reflexivity. stepX s1 HO. exists s1. split; [done|].
  exists (l1 ++ [a]). split.
  - intros b Hb. apply (l2_outside [a] s1 b HO); [|done]. intros c Hc%list_elem_of_singleton. by left.
  - rewrite <- app_assoc. eapply changed_sub; [eapply changed_all; [done|exact Ev|done|]|by intros ? ?%elem_of_nil].
    rewrite Av. by constructor; [..|left].
Qed.

Lemma mlock_start_correct hi : spare s (l1 ++ a :: l2) n2 -> vm_start (ar s a) < hi < vm_end (ar s a) -> (PAGE_SIZE | hi) ->
  exists error s', mlock_fixup_start a hi (nf (vm_flags (ar s a))) n2 s = Ok (error, s') /\
    ((error = 0 /\ range_done (vm_start (ar s a)) hi s') \/ (error = - EAGAIN /\ (n1 = 0 \/ n2 = 0) /\ quiet s s')).
Proof using All.
  intros Hsp Hhi Hal. unfold mlock_fixup_start. destruct (area_value s l1 l2 a HM) as (v & Ev & Av).
  destruct Hsp as [->|[Hmem Hout]]; [eexists _, s; split; [done|]; right; split_and!; [done|by auto|done]|].
  pose proof Hmem as (Hn0 & [vn En] & _). rewrite truth_nz by done. cbn [negb].
  pose proof (new_apart l1 l2 a n2 Hout) as Hne. rewrite (bindV _ _ _ _ _ (get_area _ _ _ id Ev)). unfold id. rewrite Av in *.
  assert (HO : only_areas [a; n2] s s) by reflexivity. stepX t1 HO. stepX t2 HO. stepX t3 HO. stepX t4 HO.
  rewrite <- Av in *.
  destruct (changed_low nf s t4 l1 l2 a _ HM Ev n2 hi _ HO Hmem Hout En ltac:(lia) Hal) as (s' & E' & Hv & HC).
  { by constructor; [..|left]. }
  { by constructor; [..|right]. }
  rewrite (bindV _ _ _ _ _ E'). eexists _, s'. split; [done|]. left. split; [done|]. exists (l1 ++ [n2; a]). split.
  - intros b Hb. rewrite (ar_ext _ _ Hv). apply (l2_outside [a; n2] t4 b HO); [|done].
    intros c [->|Hc]%elem_of_cons; [by left|]. apply list_elem_of_singleton in Hc as ->. by right.
  - rewrite <- app_assoc, used_part by lia. eapply changed_sub; [exact HC|]. intros b. rewrite !elem_of_cons. tauto.
Qed.

Lemma mlock_end_correct lo : spare s (l1 ++ a :: l2) n1 -> vm_start (ar s a) < lo < vm_end (ar s a) -> (PAGE_SIZE | lo) ->
  exists error s', mlock_fixup_end a lo (nf (vm_flags (ar s a))) n1 s = Ok (error, s') /\
    ((error = 0 /\ range_done lo (vm_end (ar s a)) s') \/ (error = - EAGAIN /\ (n1 = 0 \/ n2 = 0) /\ quiet s s')).
Proof using All.
  intros Hsp Hlo Hal. unfold mlock_fixup_end. destruct (area_value s l1 l2 a HM) as (v & Ev & Av).
  destruct Hsp as [->|[Hmem Hout]]; [eexists _, s; split; [done|]; right; split_and!; [done|by auto|done]|].
  pose proof Hmem as (Hn0 & [vn En] & _). rewrite truth_nz by done. cbn [negb].
  pose proof (new_apart l1 l2 a n1 Hout) as Hne. rewrite (bindV _ _ _ _ _ (get_area _ _ _ id Ev)). unfold id. rewrite Av in *.
  assert (HO : only_areas [a; n1] s s) by reflexivity. stepX t1 HO. stepX t2 HO. stepX t3 HO.
  rewrite <- Av in *.
  destruct (changed_high nf s t3 l1 l2 a _ HM Ev n1 lo _ HO Hmem Hout En ltac:(lia) Hal) as (s' & E' & Hv & HC).
  { by constructor; [..|left]. }
  { by constructor; [..|right]. }
  rewrite (bindV _ _ _ _ _ E'). eexists _, s'. split; [done|]. left. split; [done|]. exists (l1 ++ [a; n1]). split.
  - intros b Hb. rewrite (ar_ext _ _ Hv). apply (l2_outside [a; n1] t3 b HO); [|done].
    intros c [->|Hc]%elem_of_cons; [by left|]. apply list_elem_of_singleton in Hc as ->. by right.
  - by rewrite <- app_assoc, used_end.
Qed.

Lemma mlock_middle_correct lo hi : spare s (l1 ++ a :: l2) n1 -> spare s (l1 ++ a :: l2) n2 -> (n1 = n2 -> n2 = 0) ->
  vm_start (ar s a) < lo -> lo < hi -> hi < vm_end (ar s a) -> (PAGE_SIZE | lo) /\ (PAGE_SIZE | hi) ->
  exists error s', mlock_fixup_middle a lo hi (nf (vm_flags (ar s a))) n1 n2 s = Ok (error, s') /\
    ((error = 0 /\ range_done lo hi s') \/ (error = - EAGAIN /\ (n1 = 0 \/ n2 = 0) /\ quiet s s')).
Proof using All.
  intros Hsp1 Hsp2 Hnn H1 H2 H3 Hal. unfold mlock_fixup_middle.
  destruct Hsp1 as [->|[Hmem1 Hout1]]; [eexists _, s; split; [done|]; right; split_and!; [done|by auto|done]|].
  pose proof Hmem1 as (Hn1 & [vn1 En1] & _). rewrite truth_nz by done. cbn [negb].
  destruct Hsp2 as [->|[Hmem2 Hout2]];
    [change (negb (truth 0)) with true; cbv iota; runQ s1 Q; eexists _, s1; split; [done|]; right; split_and!; [done|by auto|done]|].
  pose proof Hmem2 as (Hn2 & [vn2 En2] & _). rewrite truth_nz by done. cbn [negb].
  pose proof (new_apart l1 l2 a n1 Hout1) as Hne1. pose proof (new_apart l1 l2 a n2 Hout2) as Hne2.
  assert (Hn12 : n1 <> n2) by (intros E; apply Hn2; auto).
  destruct (area_value s l1 l2 a HM) as (v & Ev & Av).
  rewrite (bindV _ _ _ _ _ (get_area _ _ _ id Ev)). unfold id. rewrite Av in *.
  assert (HO : only_areas [a; n1; n2] s s) by reflexivity.
  stepX t1 HO. stepX t2 HO. stepX t3 HO. stepX t4 HO. stepX t5 HO. stepX t6 HO. stepX t7 HO. rewrite <- Av in *.
  destruct (changed_mid nf s t7 l1 l2 a _ HM Ev n1 n2 lo hi _ _ HO Hmem1 Hout1 Hmem2 Hout2 Hn12 En1 En2 ltac:(lia) H2 ltac:(lia) Hal)
    as (s' & E' & Hv & HC).
  { by constructor; [..|left]. }
  { by constructor; [..|right]. }
  { by constructor; [..|right]. }
  rewrite <- bindV_assoc, (bindV _ _ _ _ _ E'). eexists _, s'. split; [done|]. left. split; [done|].
  exists (l1 ++ [n1; a; n2]). split; [|by rewrite <- app_assoc, used_part by lia].
  intros b Hb. rewrite (ar_ext _ _ Hv). apply (l2_outside [a; n1; n2] t7 b HO); [|done].
  intros c [->|[->|Hc]%elem_of_cons]%elem_of_cons; [by left|by right|]. apply list_elem_of_singleton in Hc as ->. by right.
Qed.

Lemma mlock_fixup_correct lo hi : vm_start (ar s a) <= lo -> lo < hi -> hi <= vm_end (ar s a) ->
  (PAGE_SIZE | lo) -> (PAGE_SIZE | hi) -> lo = vm_start (ar s a) \/ spare s (l1 ++ a :: l2) n1 ->
  hi = vm_end (ar s a) \/ spare s (l1 ++ a :: l2) n2 -> (n1 = n2 -> n2 = 0) ->
  exists error s', mlock_fixup a lo hi (nf (vm_flags (ar s a))) n1 n2 s = Ok (error, s') /\
    ((error = 0 /\ range_done lo hi s') \/ (error = - EAGAIN /\ (n1 = 0 \/ n2 = 0) /\ quiet s s')).
Proof using All.
  intros Hlo Hlh Hhi Hal Hal' Hsp1 Hsp2 Hnn. unfold mlock_fixup.
  pose proof (area_of _ _ (mm_ok _ _ HM) a (elem_mid _ _ _)) as Ha. runV.
  destruct (Z.eqb_spec (nf (vm_flags (ar s a))) (vm_flags (ar s a))) as [Hid|_].
  { exists 0, s. split; [done|]. left. split; [done|]. exists (l1 ++ [a]). split; [done|]. rewrite <- app_assoc.
    apply changed_id; [done|lia|done]. }
  do 2 runV.
  assert (Hfix : exists error s', (if lo =? vm_start (ar s a) then
         if hi =? vm_end (ar s a) then mlock_fixup_all a (nf (vm_flags (ar s a)))
         else mlock_fixup_start a hi (nf (vm_flags (ar s a))) n2
       else if hi =? vm_end (ar s a) then mlock_fixup_end a lo (nf (vm_flags (ar s a))) n1
       else mlock_fixup_middle a lo hi (nf (vm_flags (ar s a))) n1 n2) s = Ok (error, s') /\
    ((error = 0 /\ range_done lo hi s') \/ (error = - EAGAIN /\ (n1 = 0 \/ n2 = 0) /\ quiet s s'))).
  { destruct (Z.eqb_spec lo (vm_start (ar s a))) as [->|Hne]; destruct (Z.eqb_spec hi (vm_end (ar s a))) as [->|Hne'].
    - destruct mlock_all_correct as (s' & E & HD). exists 0, s'. split; [done|]. by left.
    - destruct Hsp2 as [|Hsp2]; [done|]. apply mlock_start_correct; [done|lia|done].
    - destruct Hsp1 as [|Hsp1]; [done|]. apply mlock_end_correct; [done|lia|done].
    - destruct Hsp1 as [|Hsp1]; [done|]. destruct Hsp2 as [|Hsp2]; [done|]. apply mlock_middle_correct; try done; lia. }
  destruct Hfix as (error & s' & E & HR). rewrite (bindV _ _ _ _ _ E). runQ s'' Q. exists error, s''. split; [done|].
  destruct HR as [[-> (l1' & Hs & HC)]|(-> & Hz & Q0)]; [left|right; split_and!; [done|done|by transitivity s']].
  split; [done|]. exists l1'. rewrite (quiet_ar _ _ Q). split; [done|]. eapply changed_quiet; [exact HC|exact Q|lia].
Qed.
(** A whole area. *)
Lemma mlock_fixup_full :
  exists s', mlock_fixup a (vm_start (ar s a)) (vm_end (ar s a)) (nf (vm_flags (ar s a))) n1 n2 s = Ok (0, s') /\
    (forall b, vm_end (ar s' b) = vm_end (ar s b)) /\
    changed nf [] s (l1 ++ a :: l2) (vm_start (ar s a)) (vm_end (ar s a)) s' (l1 ++ a :: l2).
Proof using All.
  unfold mlock_fixup. destruct (area_value s l1 l2 a HM) as (v & Ev & Av).
  destruct (mm_areas _ _ (mm_ok _ _ HM) a (elem_mid _ _ _)) as [Ha Hok]. unfold area_ok in Hok. runV.
  destruct (Z.eqb_spec (nf (vm_flags (ar s a))) (vm_flags (ar s a))) as [Hid|_].
  { exists s. split_and!; [done|done|]. apply changed_id; [done|lia|done]. }
  do 2 runV. rewrite !Z.eqb_refl. unfold mlock_fixup_all. assert (HO : only_areas [a] s s) by reflexivity.
  rewrite bindV_assoc. stepX s1 HO. rewrite (bindV _ (mret 0) _ _ _ eq_refl). change (negb (truth 0)) with true. runQ s' Q.
  exists s'. split; [done|]. split.
  - intros b. rewrite (quiet_ar _ _ Q). destruct (decide (b = a)) as [->|Hb].
    + unfold ar. by rewrite Ev, <- Av.
    + unfold ar. rewrite (proj1 (proj2 HO)); [done|]. by intros ->%list_elem_of_singleton.
  - eapply changed_quiet; [|exact Q|lia]. eapply changed_all; [done|exact Ev|done|]. rewrite Av. by constructor; [..|left].
Qed.
End Fix.

(** The number of locked pages when the flags of a part of an area change. *)
Lemma pages_changed on X s l1 a l2 lo hi s' l' : Mm s (l1 ++ a :: l2) ->
  vm_start (ar s a) <= lo -> lo <= hi -> hi <= vm_end (ar s a) -> (PAGE_SIZE | lo) -> (PAGE_SIZE | hi) ->
  changed (lock_flags on) X s (l1 ++ a :: l2) lo hi s' l' ->
  locked_pages s' l' - locked_pages s (l1 ++ a :: l2) =
    (Z.b2z on - Z.b2z (truth (vm_flags (ar s a) .& VM_LOCKED))) * (u32 (hi - lo) .>> PAGE_SHIFT).
Proof using.
  intros HM Hlo Hlh Hhi [p ->] [q ->] HC. destruct (mm_areas _ _ (mm_ok _ _ HM) a (elem_mid _ _ _)) as [_ Hok].
  unfold area_ok in Hok. change PAGE_SIZE with 4096 in *. rewrite u32_id by lia.
  destruct all_pages_exist as [n Hn]. rewrite (locked_pages_count n s _ Hn (mm_ok _ _ HM)).
  rewrite (locked_pages_count n s' _ Hn (mm_ok _ _ (ch_mm _ _ _ _ _ _ _ _ HC))). erewrite (count_change _ _ (truth (vm_flags (ar s a) .& VM_LOCKED)) on p q).
  - rewrite !Z.min_r by lia. rewrite Z.shiftr_div_pow2 by done. change (2 ^ PAGE_SHIFT) with 4096.
    rewrite <- Z.mul_sub_distr_r, Z.div_mul by done. done.
  - lia.
  - change PAGE_SIZE with 4096. intros x Hx. assert (Hc : covers (ar s a) x) by (unfold covers; lia).
    pose proof (fun w => mapped_here s l1 l2 a HM x w Hc) as Hhere. split; apply eq_bool_prop_intro; rewrite !Is_true_true, locked_at_spec.
    + split; [intros (w & ->%Hhere & ?); done|]. intros Hl. exists (attr (ar s a) x). by rewrite Hhere.
    + split.
      * intros (w & (w0 & ->%Hhere & ->)%(ch_mapped _ _ _ _ _ _ _ _ HC) & Hl). rewrite chg_in in Hl by lia. cbn in Hl. by rewrite lock_flags_bit in Hl.
      * intros ->. exists (lock_flags true (vm_flags (ar s a)), vm_file (ar s a), (attr (ar s a) x).2). split; [|apply lock_flags_bit].
        apply (ch_mapped _ _ _ _ _ _ _ _ HC). exists (attr (ar s a) x). rewrite Hhere, chg_in by lia. done.
  - change PAGE_SIZE with 4096. intros x Hx. apply locked_at_ext. intros w _. rewrite (ch_mapped _ _ _ _ _ _ _ _ HC). split.
    + intros (w0 & H & ->). by rewrite chg_out.
    + intros H. exists w. by rewrite chg_out.
Qed.

Lemma mlock_fixup_account a lo hi newflags n1 n2 s error s' :
  mlock_fixup a lo hi newflags n1 n2 s = Ok (error, s') ->
  locked_vm s' = if (newflags =? vm_flags (ar s a)) || negb (error =? 0) then locked_vm s
    else u32 (locked_vm s + (if truth (newflags .& VM_LOCKED) then 1 else -1) * (u32 (hi - lo) .>> PAGE_SHIFT)).
Proof using.
  unfold mlock_fixup, mbind, V_bind, vma_get, ar. destruct (vmas s !! a) as [v|] eqn:Ev; [|done]. cbv beta iota. cbn [default from_option id].
  destruct (newflags =? vm_flags v); [by intros [= <- <-]|]. rewrite Ev. cbv beta iota. rewrite Ev. cbv beta iota. cbn [orb].
  destruct (keeps_fixups a lo hi newflags n1 n2) as (K1 & K2 & K3 & K4).
  assert (Hk : keeps (if lo =? vm_start v then if hi =? vm_end v then mlock_fixup_all a newflags else mlock_fixup_start a hi newflags n2
    else if hi =? vm_end v then mlock_fixup_end a lo newflags n1 else mlock_fixup_middle a lo hi newflags n1 n2)) by keeps.
  lazymatch type of Hk with keeps ?m => destruct (m s) as [[r s1]|] eqn:E; [|done] end. rewrite <- (Hk _ _ _ E). unfold truth at 1. rewrite negb_involutive.
  destruct (r =? 0) eqn:Er; cbn [whenV]; [|by intros [= <- <-]; rewrite Er].
  unfold count_locked. destruct (truth (newflags .& VM_LOCKED)); intros [= <- <-]; rewrite Er; cbn; f_equal; lia.
Qed.

Lemma fixup_counted on X s l1 a l2 lo hi n1 n2 error s' l' : Mm s (l1 ++ a :: l2) ->
  vm_start (ar s a) <= lo -> lo <= hi -> hi <= vm_end (ar s a) -> (PAGE_SIZE | lo) -> (PAGE_SIZE | hi) ->
  mlock_fixup a lo hi (lock_flags on (vm_flags (ar s a))) n1 n2 s = Ok (error, s') ->
  changed (lock_flags on) X s (l1 ++ a :: l2) lo (if error =? 0 then hi else lo) s' l' ->
  counted s (l1 ++ a :: l2) s' l'.
Proof using.
  intros HM Hlo Hlh Hhi Hal Hal' E HC Hin. apply mlock_fixup_account in E. rewrite E, Hin. clear E.
  assert (Hp := fun h H1 H2 H3 H => pages_changed on X s l1 a l2 lo h s' l' HM Hlo H1 H2 Hal H3 H).
  assert (Hr : 0 <= locked_pages s' l' <= 1048576).
  { destruct all_pages_exist as [n Hn]. rewrite (locked_pages_count n s' l' Hn (mm_ok _ _ (ch_mm _ _ _ _ _ _ _ _ HC))), <- Hn. apply count_range. }
  destruct (error =? 0); cbn [negb]; rewrite ?orb_true_r, ?orb_false_r.
  - specialize (Hp hi ltac:(lia) ltac:(lia) Hal' HC). destruct (Z.eqb_spec (lock_flags on (vm_flags (ar s a))) (vm_flags (ar s a))) as [Hs|Hs].
    + rewrite <- Hs, lock_flags_bit in Hp. lia.
    + rewrite lock_flags_bit. apply lock_flags_flip in Hs. rewrite Hs in Hp.
      revert Hp Hr. generalize (locked_pages s' l') (locked_pages s (l1 ++ a :: l2)) (u32 (hi - lo) .>> PAGE_SHIFT).
      clear. intros p q d Hp Hr. destruct on; cbn [negb Z.b2z] in *; rewrite u32_id by lia; lia.
  - specialize (Hp lo ltac:(lia) ltac:(lia) Hal HC). rewrite (Z.sub_diag lo) in Hp. change (u32 0 .>> PAGE_SHIFT) with 0 in Hp. lia.
Qed.
(** Nothing is mapped between the areas [l1] and [l2]. *)
Lemma hole s l1 l2 x w : Areas s (l1 ++ l2) -> Forall (low s x) l1 -> l2 = [] \/ x < vm_start (ar s (hd0 l2)) ->
  ~ mapped_as s (l1 ++ l2) x w.
Proof using.
  intros HA Hlow Hx (b & Hb & Hc & _). rewrite Forall_forall in Hlow. unfold low, covers in *.
  apply elem_of_app in Hb as [Hb|Hb]; [specialize (Hlow b Hb); lia|]. destruct l2 as [|c l2]; [by apply elem_of_nil in Hb|].
  destruct Hx as [|Hx]; [done|]. cbn in Hx. destruct (sorted_split _ _ HA _ _ _ eq_refl) as [_ Hs]. rewrite Forall_forall in Hs.
  destruct (mm_areas _ _ HA c (elem_mid _ _ _)) as [_ Hok]. unfold area_ok, below in *.
  apply elem_of_cons in Hb as [->|Hb]; [lia|]. specialize (Hs b Hb). lia.
Qed.
Lemma hole_after s l1 a l2 w : Areas s (l1 ++ a :: l2) -> l2 = [] \/ vm_start (ar s (hd0 l2)) <> vm_end (ar s a) ->
  ~ mapped_as s (l1 ++ a :: l2) (vm_end (ar s a)) w.
Proof using.
  intros HA Hn. destruct (sorted_split _ _ HA _ _ _ eq_refl) as [H1 H2]. rewrite Forall_forall in H1, H2.
  destruct (mm_areas _ _ HA a (elem_mid _ _ _)) as [_ Hok]. unfold area_ok, below in *.
  change (a :: l2) with ([a] ++ l2) in *. rewrite app_assoc in *. apply hole; [done| |].
  - apply Forall_forall. intros b Hb. unfold low. apply elem_of_app in Hb as [Hb|Hb%list_elem_of_singleton].
    + specialize (H1 b Hb). lia.
    + subst b. lia.
  - destruct Hn as [|Hn]; [by left|]. destruct l2 as [|c l2]; [by left|]. right. specialize (H2 c ltac:(left)). cbn in *. lia.
Qed.

(** ** The loop of [mlock] *)
Section Loop.
Context (on : bool) (end_ n1 n2 : Z).
Hypothesis Hend : (PAGE_SIZE | end_).
Hypothesis Hnn : n1 = n2 -> n2 = 0.
Let nf : Z -> Z := lock_flags on.

Definition lock_fails (error : Z) : Prop := error = - ENOMEM \/ error = - EAGAIN.
(** The range up to [m] is mapped and has the flag set, or cleared; the account is kept. *)
Record locked_range (s : mm_struct) (l : list Z) (lo m error : Z) (s' : mm_struct) (l' : list Z) : Prop := {
  lr_flags : flags_set nf (fun _ => false) lock_fails [n1; n2] end_ s l lo m error s' l';
  lr_counted : counted s l s' l';
  lr_hole : error = - ENOMEM -> m < end_ /\ forall w, ~ mapped_as s l m w;
  lr_memory : error = - EAGAIN -> n1 = 0 \/ n2 = 0
}.

Lemma locked_range_step s l lo m s1 l1 m' error s' l' :
  lo <= m <= end_ -> Mm s l -> changed nf [n1; n2] s l lo m s1 l1 -> (forall x, lo <= x < m -> exists w, mapped_as s l x w) ->
  counted s l s1 l1 -> locked_range s1 l1 m m' error s' l' -> locked_range s l lo m' error s' l'.
Proof using.
  intros Hm HM HC Hthere Hcnt [R1 R2 R3 R4]. pose proof (fs_range _ _ _ _ _ _ _ _ _ _ _ _ R1) as Hm'. constructor; [|by intros H%Hcnt%R2| |done].
  - eapply flags_set_step; [done|exact HC| |intros x w w'; apply mapped_unique, HM|done].
    intros x Hx. destruct (Hthere x Hx) as [w Hw]. exists w. exact (conj Hw eq_refl).
  - intros He. destruct (R3 He) as [Hlt Hno]. split; [done|]. intros w Hw. apply (Hno w). eapply changed_beyond; [exact HC|lia|done].
Qed.
Lemma locked_range_none s l lo error s' : Mm s l -> quiet s s' -> locked_vm s' = locked_vm s -> lo < end_ -> lock_fails error ->
  (error = - ENOMEM -> forall w, ~ mapped_as s l lo w) -> (error = - EAGAIN -> n1 = 0 \/ n2 = 0) ->
  locked_range s l lo lo error s' l.
Proof using.
  intros HM Q El Hlo Hf Hh Hmem. constructor; [|  |by intros H; split; [lia|auto]|done].
  - apply flags_set_none; [by intros [?|?]|done|done|done|by left].
  - intros H. rewrite El, H. symmetry. by apply locked_pages_ext, quiet_ar.
Qed.

Lemma locked_range_end s l : Mm s l -> locked_range s l end_ end_ 0 s l.
Proof using. intros HM. constructor; [by apply flags_set_end|intros H; exact H|done|done]. Qed.

(** The part of the range in one area. *)
Lemma here s l1 l2 a lo hi : Mm s (l1 ++ a :: l2) -> vm_start (ar s a) <= lo < vm_end (ar s a) -> (PAGE_SIZE | lo) ->
  lo = vm_start (ar s a) \/ spare s (l1 ++ a :: l2) n1 -> spare s (l1 ++ a :: l2) n2 ->
  lo < hi -> hi <= vm_end (ar s a) -> hi <= end_ -> (PAGE_SIZE | hi) ->
  exists error s1, mlock_fixup a lo hi (nf (vm_flags (ar s a))) n1 n2 s = Ok (error, s1) /\
    ((error = 0 /\ exists l1', (forall b, b ∈ l2 -> ar s1 b = ar s b) /\
        changed nf (used s a n1 n2 hi) s (l1 ++ a :: l2) lo hi s1 (l1' ++ l2) /\ counted s (l1 ++ a :: l2) s1 (l1' ++ l2)) \/
     (error <> 0 /\ locked_range s (l1 ++ a :: l2) lo lo error s1 (l1 ++ a :: l2))).
Proof using All.
  intros HM Hlo Hal Hsp1 Hsp2 Hlh Hhi He Hal'.
  destruct (mlock_fixup_correct nf s l1 l2 a n1 n2 HM lo hi) as (error & s1 & E & HR); [lia|done|done|done|done|done|by right|done|].
  exists error, s1. split; [exact E|]. destruct HR as [[-> (l1' & Hs & HC)]|(-> & Hz & Q)].
  - left. split; [done|]. exists l1'. split; [done|]. split; [done|].
    eapply (fixup_counted on _ s l1 a l2 lo hi n1 n2 0); [exact HM|lia|lia|lia|done|done|exact E|exact HC].
  - right. split; [done|]. apply locked_range_none; [done|done| |lia|by right|done|done].
    apply mlock_fixup_account in E. rewrite E. change (- EAGAIN =? 0) with false. by rewrite orb_true_r.
Qed.

Lemma mlock_loop_correct fuel : forall s l1 a l2 nstart,
  Mm s (l1 ++ a :: l2) -> (length l2 < fuel)%nat -> vm_start (ar s a) <= nstart < vm_end (ar s a) -> nstart < end_ ->
  (PAGE_SIZE | nstart) -> nstart = vm_start (ar s a) \/ spare s (l1 ++ a :: l2) n1 -> spare s (l1 ++ a :: l2) n2 ->
  exists error s', mlock_loop fuel a nstart end_ on n1 n2 s = Ok (error, s') /\
    exists m l', locked_range s (l1 ++ a :: l2) nstart m error s' l'.
Proof using All.
  induction fuel as [|fuel IH]; intros s l1 a l2 nstart HM Hf Hst Hlt Hal Hsp1 Hsp2; [lia|]. cbn [mlock_loop].
  pose proof (mm_areas _ _ (mm_ok _ _ HM) a (elem_mid _ _ _)) as [Ha Hok]. do 2 runV. fold nf.
  pose proof (fun hi => here s l1 l2 a nstart hi HM Hst Hal Hsp1 Hsp2) as Hfix.
  assert (Hthere : forall hi, hi <= vm_end (ar s a) -> forall x, nstart <= x < hi -> exists w, mapped_as s (l1 ++ a :: l2) x w).
  { intros hi Hhi x Hx. exists (attr (ar s a) x). apply mapped_middle. left. split; [|done]. unfold covers. lia. }
  destruct (Z.leb_spec end_ (vm_end (ar s a))) as [Hlast|Hmore].
  - destruct (Hfix end_ ltac:(lia) Hlast ltac:(lia) Hend) as (error & s1 & E & HR).
    exists error, s1. split; [exact E|]. destruct HR as [(-> & l1' & _ & HC0 & Hcnt)|[_ HR]]; [|by eexists _, _].
    pose proof (changed_sub _ _ [n1; n2] _ _ _ _ _ _ HC0 (used_in s a n1 n2 _)) as HC.
    exists end_, (l1' ++ l2). eapply locked_range_step; [|exact HM|exact HC|by apply Hthere|exact Hcnt|]; [lia|].
    apply locked_range_end, (ch_mm _ _ _ _ _ _ _ _ HC).
  - pose proof (mm_linked _ _ (mm_ok _ _ HM)) as Hl. apply linked_next in Hl.
    rewrite (bindV _ _ _ (hd0 l2) s) by (unfold next_get; by rewrite Hl).
    destruct (Hfix (vm_end (ar s a)) ltac:(lia) ltac:(lia) ltac:(lia) ltac:(apply Hok)) as (error & s1 & E & HR).
    rewrite (bindV _ _ _ _ _ E). destruct HR as [(-> & l1' & Hsame & HC0 & Hcnt)|[Hne HR]].
    2: { rewrite truth_nz by done. exists error, s1. split; [done|]. by eexists _, _. }
    change (truth 0) with false. cbv iota. pose proof (ch_mm _ _ _ _ _ _ _ _ HC0) as HM1.
    pose proof (changed_sub _ _ [n1; n2] _ _ _ _ _ _ HC0 (used_in s a n1 n2 _)) as HC.
    pose proof (fun m' error s' l' => locked_range_step s _ nstart (vm_end (ar s a)) s1 _ m' error s' l'
      ltac:(lia) HM HC (Hthere (vm_end (ar s a)) ltac:(lia)) Hcnt) as Hstep.
    assert (Hstop : l2 = [] \/ vm_start (ar s (hd0 l2)) <> vm_end (ar s a) ->
      exists m l', locked_range s (l1 ++ a :: l2) nstart m (- ENOMEM) s1 l').
    { intros Hn. exists (vm_end (ar s a)), (l1' ++ l2). apply Hstep, locked_range_none; [done|done|done|lia|by left| |done].
      intros _ w Hw. apply (hole_after s l1 a l2 w (mm_ok _ _ HM) Hn).
      exact (proj1 (changed_beyond _ _ _ _ _ _ _ _ _ w HC (Z.le_refl _)) Hw). }
    destruct l2 as [|c l2]; [exists (- ENOMEM), s1; split; [done|auto]|]. cbn [hd0 hd] in *.
    destruct (mm_areas _ _ (mm_ok _ _ HM1) c) as [Hc Hokc]; [set_solver|].
    rewrite truth_nz by (eapply Areas_nonzero; [apply HM1|set_solver]). cbn [negb]. runV. rewrite (Hsame c) by left.
    destruct (Z.eqb_spec (vm_start (ar s c)) (vm_end (ar s a))) as [Hadj|Hn]; cbn [negb]; [|exists (- ENOMEM), s1; split; [done|auto]].
    rewrite <- (Hsame c) in Hadj by left.
    destruct (IH s1 l1' c l2 (vm_end (ar s a))) as (error & s' & E' & m & l' & HP); [done|simpl in Hf; lia| |lia|apply Hok|by left| |].
    + unfold area_ok in Hokc. lia.
    + destruct Hsp2 as [->|[Hm2 Hout2]]; [by left|right]. split; [by apply (ch_mem _ _ _ _ _ _ _ _ HC)|].
      intros Hin. destruct (ch_sub _ _ _ _ _ _ _ _ HC0 n2 Hin) as [|H12]; [done|]. rewrite used_end in H12.
      apply list_elem_of_singleton in H12. destruct Hm2 as [H0 _]. auto.
    + exists error, s'. split; [done|]. exists m, l'. by apply Hstep.
Qed.

(** The cache that [find_vma] sets does not matter. *)
Lemma locked_range_cached s s1 l lo m error s' l' : cached s s1 -> Mm s1 l ->
  locked_range s1 l lo m error s' l' -> locked_range s l lo m error s' l'.
Proof using.
  intros Hc HM1 [[F1 [C1 C2 C3 C4 C5 C6 C7] F3 F4 F5 F6] R2 R3 R4]. pose proof (cached_ar _ _ Hc) as Ear.
  assert (Hmap : forall x w, mapped_as s1 l x w <-> mapped_as s l x w) by (intros; apply mapped_ext; intros; by rewrite Ear).
  pose proof (locked_pages_ext _ _ l Ear) as Hlp.
  rewrite Hc in C3, C5, C7. constructor; [constructor|..]; try done.
  - constructor; try done; [|by rewrite C4; apply bytes_ext; intros; rewrite Ear]. intros x w. rewrite C2. by setoid_rewrite Hmap.
  - intros x Hx. destruct (F3 x Hx) as [w Hw]. exists w. by apply Hmap.
  - destruct F6 as [?|[?|(? & x & w & ? & ? & ?)]]; [by left|by right; left|done].
  - intros H. apply R2. rewrite Hlp, <- H. by rewrite Hc.
  - intros He. destruct (R3 He) as [? Hno]. split; [done|]. intros w Hw. apply (Hno w). by apply Hmap.
Qed.
End Loop.

(** ** The system calls *)
Lemma align_aligned x : 0 <= x < 4294967296 -> (PAGE_SIZE | x) -> PAGE_ALIGN x = x.
Proof using.
  intros Hx [k ->]. unfold PAGE_ALIGN. rewrite page_mask. unfold PAGE_SIZE in *.
  rewrite u32_id by lia. by rewrite <- (Z.div_unique (k * 4096 + 4096 - 1) 4096 k 4095) by lia.
Qed.

Lemma do_mlock_correct on s l start len n1 n2 :
  Mm s l -> 0 <= start < 4294967296 -> (PAGE_SIZE | start) -> 0 <= len < 4294967296 -> (PAGE_SIZE | len) ->
  spare s l n1 -> spare s l n2 -> (n1 = n2 -> n2 = 0) ->
  exists error s', do_mlock start len on n1 n2 s = Ok (error, s') /\
    ((on = true /\ capable = false /\ error = - EPERM /\ s' = s) \/
     ((on = true -> capable = true) /\ 4294967296 <= start + len /\ error = - EINVAL /\ s' = s) \/
     ((on = true -> capable = true) /\ start + len < 4294967296 /\
      exists m l', locked_range on (start + len) n1 n2 s l start m error s' l')).
Proof using All.
  intros HM Hs Hal Hlen Hlal Hsp1 Hsp2 Hnn. unfold do_mlock. cbv zeta. rewrite (align_aligned len) by done.
  destruct (on && negb capable) eqn:Hcap.
  { apply andb_true_iff in Hcap as [-> Hcap%negb_true_iff]. eexists _, s. split; [done|]. by left. }
  assert (Hallowed : on = true -> capable = true) by (intros ->; by destruct capable).
  destruct (Z.lt_ge_cases (start + len) 4294967296) as [Hlt|Hge].
  2: { assert (E : u32 (start + len) = start + len - 4294967296).
       { unfold u32. rewrite <- (Z_mod_plus_full _ (-1)), Z.mod_small; lia. }
       rewrite E. destruct (Z.ltb_spec (start + len - 4294967296) start); [|lia]. eexists _, s. split; [done|]. by right; left. }
  rewrite u32_id by lia. set (end_ := start + len). assert (Hend : (PAGE_SIZE | end_)) by (by apply Z.divide_add_r).
  destruct (Z.ltb_spec end_ start); [lia|].
  enough (exists error s', (if end_ =? start then mret 0 else
      vma ← find_vma start;
      st ← (if truth vma then vma_get vma vm_start else mret 0);
      if negb (truth vma) || (start <? st) then mret (- ENOMEM)
      else walk (fun fuel => mlock_loop fuel vma start end_ on n1 n2)) s = Ok (error, s') /\
      exists m l', locked_range on end_ n1 n2 s l start m error s' l') as (error & s' & E & HR).
  { exists error, s'. split; [exact E|]. right. right. done. }
  destruct (Z.eqb_spec end_ start) as [He|He].
  { exists 0, s. split; [done|]. exists end_, l. pattern start at 1. rewrite <- He. by apply locked_range_end. }
  destruct (find_vma_split s l start HM) as (l1 & l2 & s1 & (El & Hlow & Hhigh) & E & Hc & HM1).
  rewrite (bindV _ _ _ _ _ E). clear E. pose proof (cached_ar _ _ Hc) as Ear.
  assert (Hnone : l2 = [] \/ start < vm_start (ar s (hd0 l2)) -> exists error s', (mret (- ENOMEM) : V Z) s1 = Ok (error, s') /\
    exists m l', locked_range on end_ n1 n2 s l start m error s' l').
  { intros Hn. exists (- ENOMEM), s1. split; [done|]. exists start, l. apply (locked_range_cached _ _ _ _ s s1); [done|done|].
    apply locked_range_none; [done|done|done|lia|by left| |done]. intros _ w (b & Hb & Hcv & Hw).
    rewrite El in *. apply (hole s l1 l2 start w (mm_ok _ _ HM) Hlow Hn). exists b. by rewrite Ear in *. }
  destruct l2 as [|a l2]; [apply Hnone; by left|]. cbn [hd0 hd] in *.
  rewrite Forall_forall in Hhigh. specialize (Hhigh a ltac:(left)). unfold high in Hhigh.
  subst l. pose proof (area_of _ _ (mm_ok _ _ HM1) a (elem_mid _ _ _)) as Ha.
  rewrite truth_nz by (eapply Areas_nonzero; [apply HM1|apply elem_mid]). runV. rewrite Ear. cbn [negb orb].
  destruct (Z.ltb_spec start (vm_start (ar s a))); [apply Hnone; by right|].
  assert (Hspare : forall n, spare s (l1 ++ a :: l2) n -> spare s1 (l1 ++ a :: l2) n) by (intros n; by apply cached_spare).
  destruct (mlock_loop_correct on end_ n1 n2 Hend Hnn (S (size (nodes (mm_rb s1)))) s1 l1 a l2 start HM1)
    as (error & s' & E & m & l' & HR); try done.
  - destruct (mm_tree _ _ (mm_ok _ _ HM1)) as (t & HT & _ & Hin). pose proof (walk_fuel _ _ _ HT) as Hf.
    rewrite Hin, length_app in Hf. simpl in Hf. lia.
  - rewrite Ear. lia.
  - lia.
  - right. auto.
  - auto.
  - exists error, s'. split; [exact E|]. exists m, l'. by eapply locked_range_cached.
Qed.

(** *** All areas *)
Lemma changed_empty nf X s l lo hi : Mm s l -> (forall x w, lo <= x < hi -> ~ mapped_as s l x w) -> changed nf X s l lo hi s l.
Proof using.
  clear has_open capable rlim_memlock num_physpages. intros HM Hno. constructor; try done; [|by intros b|tauto]. intros x w. split.
  - intros H. exists w. rewrite chg_out; [done|]. intros Hx. by apply (Hno x w).
  - intros (w0 & H & ->). rewrite chg_out; [done|]. intros Hx. by apply (Hno x w0).
Qed.
Lemma low_mono s lo x l : lo <= x -> Forall (low s lo) l -> Forall (low s x) l.
Proof using. intros Hx H. eapply Forall_impl; [exact H|]. intros b. unfold low. clear -Hx. lia. Qed.

Lemma mlockall_loop_correct cur fuel : forall s l1 l2 lo, Mm s (l1 ++ l2) -> (length l2 < fuel)%nat ->
  Forall (low s lo) l1 -> lo <= 4294967296 -> Forall (fun b => lo <= vm_start (ar s b)) l2 ->
  exists s', mlockall_loop fuel (hd0 l2) cur s = Ok (0, s') /\
    changed (lock_flags cur) [] s (l1 ++ l2) lo 4294967296 s' (l1 ++ l2) /\ counted s (l1 ++ l2) s' (l1 ++ l2).
Proof using All.
  induction fuel as [|fuel IH]; intros s l1 l2 lo HM Hf Hlow Hlo Hst; [lia|]. cbn [mlockall_loop].
  destruct l2 as [|a l2].
  { exists s. split; [done|]. split; [|by intros H]. apply changed_empty; [done|]. intros x w Hx.
    apply hole; [apply HM|eapply low_mono; [|done]; lia|by left]. }
  cbn [hd0 hd]. destruct (mm_areas _ _ (mm_ok _ _ HM) a (elem_mid _ _ _)) as [Ha Hok]. pose proof Hok as (H1 & H2 & H3 & Hal & Hal').
  rewrite Forall_cons in Hst. destruct Hst as [Hsta _].
  rewrite truth_nz by (eapply Areas_nonzero; [apply HM|apply elem_mid]). runV. unfold id.
  destruct (mlock_fixup_full (lock_flags cur) s l1 l2 a 0 0 HM) as (s1 & E & Hends & HC).
  rewrite (bindV _ _ _ _ _ E). change (truth 0) with false. cbv iota. pose proof (ch_mm _ _ _ _ _ _ _ _ HC) as HM1.
  pose proof (fixup_counted cur [] s l1 a l2 (vm_start (ar s a)) (vm_end (ar s a)) 0 0 0 s1 _ HM ltac:(lia) ltac:(lia) ltac:(lia) Hal Hal' E HC) as Hcnt.
  pose proof (mm_linked _ _ (mm_ok _ _ HM1)) as Hl. apply linked_next in Hl.
  rewrite (bindV _ _ _ (hd0 l2) s1) by (unfold next_get; by rewrite Hl).
  assert (El : l1 ++ a :: l2 = (l1 ++ [a]) ++ l2) by (by rewrite <- app_assoc).
  destruct (sorted_split _ _ (mm_ok _ _ HM1) _ _ _ eq_refl) as [Hb1 Hb2].
  destruct (IH s1 (l1 ++ [a]) l2 (vm_end (ar s a))) as (s' & E' & HC' & Hcnt').
  - by rewrite <- El.
  - simpl in Hf. lia.
  - apply Forall_app. split; [|constructor; [unfold low; rewrite Hends; lia|done]]. eapply Forall_impl; [exact Hlow|].
    intros b. unfold low. rewrite Hends. lia.
  - lia.
  - eapply Forall_impl; [exact Hb2|]. intros b. unfold below. by rewrite Hends.
  - exists s'. rewrite El in *. split; [done|]. split; [|by intros H%Hcnt%Hcnt'].
    apply (changed_trans _ _ _ _ _ (vm_start (ar s a)) _ s ((l1 ++ [a]) ++ l2)); [lia| |].
    + apply changed_empty; [done|]. intros x w Hx. rewrite <- El. apply hole; [rewrite El; apply HM|eapply low_mono; [|done]; lia|right; cbn; lia].
    + eapply changed_trans; [|exact HC|exact HC']. lia.
Qed.

(** The limit on locked pages, and half of the memory. *)
Definition over_limit (pages : Z) : Prop := rlim_memlock .>> PAGE_SHIFT < pages \/ num_physpages / 2 < pages.
Lemma limit_spec pages : if (rlim_memlock .>> PAGE_SHIFT <? pages) || (num_physpages / 2 <? pages) then over_limit pages else ~ over_limit pages.
Proof using. unfold over_limit. destruct (Z.ltb_spec (rlim_memlock .>> PAGE_SHIFT) pages); destruct (Z.ltb_spec (num_physpages / 2) pages); cbn [orb]; lia. Qed.

(** C20. [sys_mlock] ([on]) and [sys_munlock] never fault and their loop ends. The range is rounded to
    pages. [sys_mlock] returns [-ENOMEM] over the limit and [-EPERM] without the capability, both
    return [-EINVAL] for a range that wraps around; nothing is changed then. Else there is an
    address [m] of the range such that every address before it was mapped and now has [VM_LOCKED]
    set (cleared), with its other flags, its file and its page of the file as before; every other
    address has what it had, the areas are again a sorted list with a matching red-black tree and
    count, and if [locked_vm] was the number of pages of the locked areas, it is again. On success
    [m] is the end of the range; [-ENOMEM] is returned only if nothing is mapped at [m], and
    [-EAGAIN] only if an area could not be allocated. *)
Theorem mlock_exact (on : bool) s l start len n1 n2 :
  Mm s l -> 0 <= start < 4294967296 -> spare s l n1 -> spare s l n2 -> (n1 = n2 -> n2 = 0) ->
  let first := start .& PAGE_MASK in
  let size := PAGE_ALIGN (u32 (len + (start .& Z.lnot PAGE_MASK))) in
  let over := over_limit (u32 ((size .>> PAGE_SHIFT) + locked_vm s)) in
  exists error s', (if on then sys_mlock start len n1 n2 else sys_munlock start len n1 n2) s = Ok (error, s') /\
    ((on = true /\ over /\ error = - ENOMEM /\ s' = s) \/
     (on = true /\ ~ over /\ capable = false /\ error = - EPERM /\ s' = s) \/
     ((on = true -> ~ over /\ capable = true) /\ 4294967296 <= first + size /\ error = - EINVAL /\ s' = s) \/
     ((on = true -> ~ over /\ capable = true) /\ first + size < 4294967296 /\
      exists m l', locked_range on (first + size) n1 n2 s l first m error s' l')).
Proof using All.
  intros HM Hs Hsp1 Hsp2 Hnn first size over.
  assert (Hf : 0 <= first < 4294967296 /\ (PAGE_SIZE | first)).
  { unfold first. rewrite page_mask. split; [|by exists (start / PAGE_SIZE)]. unfold PAGE_SIZE.
    pose proof (Z.mul_div_le start 4096). pose proof (Z.div_pos start 4096). lia. }
  destruct Hf as [Hf1 Hf2]. destruct (PAGE_ALIGN_range (u32 (len + (start .& Z.lnot PAGE_MASK)))) as [Hr1 Hr2]. fold size in Hr1, Hr2.
  destruct (do_mlock_correct on s l first size n1 n2 HM Hf1 Hf2 Hr1 Hr2 Hsp1 Hsp2 Hnn) as (error & s' & E & HR).
  destruct on.
  - unfold sys_mlock. fold first size. cbv zeta. rewrite (bindV _ (mm_get locked_vm) _ _ _ eq_refl).
    pose proof (limit_spec (u32 ((size .>> PAGE_SHIFT) + locked_vm s))) as Hlim. fold over in Hlim.
    destruct (_ || _); [eexists _, s; split; [done|by left]|]. exists error, s'. split; [exact E|]. right.
    destruct HR as [(_ & ? & ? & ?)|[(H & ?)|(H & ?)]]; [by left|right; left|right; right]; (split; [auto|done]).
  - exists error, s'. split; [exact E|]. right.
    destruct HR as [(? & _)|[(H & ?)|(H & ?)]]; [done|right; left|right; right]; (split; [done|done]).
Qed.

(** [sys_mlockall] refuses no flags and unknown flags with [-EINVAL], an address space over the
    limit with [-ENOMEM], and a caller without the capability with [-EPERM], and changes nothing
    then; [sys_munlockall] is the call with no flags, and asks for the capability only. Else they
    succeed: [def_flags], the flags of the areas to come, is [VM_LOCKED] or 0 as [MCL_FUTURE] says,
    all that is mapped has [VM_LOCKED] set or cleared as [MCL_CURRENT] says and is otherwise as it
    was, in the same areas, and [locked_vm] remains the number of locked pages. *)
Theorem mlockall_exact s l (unlock : bool) flags : Mm s l ->
  let refused := flags = 0 \/ flags .& Z.lnot (MCL_CURRENT .| MCL_FUTURE) <> 0 in
  let over := over_limit (total_vm s) in
  let flags' := if unlock then 0 else flags in
  let s0 := s <| def_flags := if truth (flags' .& MCL_FUTURE) then VM_LOCKED else 0 |> in
  exists error s', (if unlock then sys_munlockall else sys_mlockall flags) s = Ok (error, s') /\
    ((unlock = false /\ refused /\ error = - EINVAL /\ s' = s) \/
     (unlock = false /\ ~ refused /\ over /\ error = - ENOMEM /\ s' = s) \/
     ((unlock = false -> ~ refused /\ ~ over) /\ capable = false /\ error = - EPERM /\ s' = s) \/
     ((unlock = false -> ~ refused /\ ~ over) /\ capable = true /\ error = 0 /\
      changed (lock_flags (truth (flags' .& MCL_CURRENT))) [] s0 l 0 4294967296 s' l /\ counted s l s' l)).
Proof using All.
  intros HM refused over flags' s0.
  assert (Hall : exists error s', do_mlockall flags' s = Ok (error, s') /\
    ((capable = false /\ error = - EPERM /\ s' = s) \/ (capable = true /\ error = 0 /\
      changed (lock_flags (truth (flags' .& MCL_CURRENT))) [] s0 l 0 4294967296 s' l /\ counted s l s' l))).
  { unfold do_mlockall. destruct capable; cbn [negb]; [|eexists _, s; split; [done|by left]].
    rewrite (bindV _ (mm_set _) _ tt s0) by done. rewrite (bindV _ (mm_get mmap) _ (mmap s0) s0) by done.
    assert (HM0 : Mm s0 l) by (destruct HM as [[] ? ?]; by constructor; [constructor|..]).
    destruct (mlockall_loop_correct (truth (flags' .& MCL_CURRENT)) (S (size (nodes (mm_rb s0)))) s0 [] l 0 HM0)
      as (s' & E & HC & Hcnt); [|done|lia| |].
    - destruct (mm_tree _ _ (mm_ok _ _ HM0)) as (t & HT & _ & Hin). pose proof (walk_fuel _ _ _ HT) as Hf. by rewrite Hin in Hf.
    - apply Forall_forall. intros b Hb. apply (mm_areas _ _ (mm_ok _ _ HM0) b Hb).
    - exists 0, s'. assert (Eh : hd0 l = mmap s0).
      { pose proof (mm_linked _ _ (mm_ok _ _ HM0)) as Hl. destruct l; [by rewrite Hl|]. by destruct Hl as [-> _]. }
      rewrite Eh in E. split; [exact E|]. right. split_and!; [done|done|exact HC|].
      intros H. apply Hcnt. change (locked_vm s0) with (locked_vm s). rewrite H.
      symmetry. by apply locked_pages_ext. }
  destruct Hall as (error & s' & E & HR). unfold flags' in *. destruct unlock.
  { exists error, s'. split; [exact E|]. right; right. destruct HR; [by left|by right]. }
  unfold sys_mlockall. destruct (negb (truth flags) || truth (flags .& Z.lnot (MCL_CURRENT .| MCL_FUTURE))) eqn:Hb.
  { eexists _, s. split; [done|]. left. split_and!; [done| |done|done]. unfold refused, truth in *.
    apply orb_true_iff in Hb as [Hb|Hb]; [left|right]; bool_hyps; done. }
  assert (Hok : ~ refused).
  { unfold refused, truth in *. bool_hyps. intros [?|?]; done. }
  rewrite (bindV _ (mm_get total_vm) _ _ _ eq_refl). pose proof (limit_spec (total_vm s)) as Hlim. fold over in Hlim.
  clear Hb. destruct ((rlim_memlock .>> PAGE_SHIFT <? total_vm s) || _); [eexists _, s; split; [done|by right; left]|]. exists error, s'. split; [exact E|].
  right; right. destruct HR; [by left|by right].
Qed.
End Mlock.

(** Half of the heap is locked. *)
Lemma mlock_exact_witness :
  let first := 0xc010 .& PAGE_MASK in
  let size := PAGE_ALIGN (u32 (100 + (0xc010 .& Z.lnot PAGE_MASK))) in
  let over := over_limit 0x100000 0x4000 (u32 ((size .>> PAGE_SHIFT) + locked_vm sample_mm)) in
  exists error s', sys_mlock (fun _ => true) true 0x100000 0x4000 0xc010 100 8 9 sample_mm = Ok (error, s') /\
    ((true = true /\ over /\ error = - ENOMEM /\ s' = sample_mm) \/
     (true = true /\ ~ over /\ true = false /\ error = - EPERM /\ s' = sample_mm) \/
     ((true = true -> ~ over /\ true = true) /\ 4294967296 <= first + size /\ error = - EINVAL /\ s' = sample_mm) \/
     ((true = true -> ~ over /\ true = true) /\ first + size < 4294967296 /\
      exists m l', locked_range true (first + size) 8 9 sample_mm sample_areas first m error s' l')).
Proof.
  apply (mlock_exact (fun _ => true) true 0x100000 0x4000 true sample_mm sample_areas 0xc010 100 8 9 sample_mm_ok).
  - lia.
  - right. apply sample_spare. by left.
  - right. apply sample_spare. by right.
  - done.
Defined.

Lemma mlockall_exact_witness :
  let refused := MCL_CURRENT = 0 \/ MCL_CURRENT .& Z.lnot (MCL_CURRENT .| MCL_FUTURE) <> 0 in
  let over := over_limit 0x100000 0x4000 (total_vm sample_mm) in
  let s0 := sample_mm <| def_flags := if truth (MCL_CURRENT .& MCL_FUTURE) then VM_LOCKED else 0 |> in
  exists error s', sys_mlockall (fun _ => true) true 0x100000 0x4000 MCL_CURRENT sample_mm = Ok (error, s') /\
    ((false = false /\ refused /\ error = - EINVAL /\ s' = sample_mm) \/
     (false = false /\ ~ refused /\ over /\ error = - ENOMEM /\ s' = sample_mm) \/
     ((false = false -> ~ refused /\ ~ over) /\ true = false /\ error = - EPERM /\ s' = sample_mm) \/
     ((false = false -> ~ refused /\ ~ over) /\ true = true /\ error = 0 /\
      changed (lock_flags (truth (MCL_CURRENT .& MCL_CURRENT))) [] s0 sample_areas 0 4294967296 s' sample_areas /\
      counted sample_mm sample_areas s' sample_areas)).
Proof. exact (mlockall_exact (fun _ => true) true 0x100000 0x4000 sample_mm sample_areas false MCL_CURRENT sample_mm_ok). Defined.
