(* ===== verification/MmLife.v ===== *)
(** The life of an address space: fork, growth of the stack, exit.

    [dup_mmap] of kernel/fork.c copies the areas of the parent one by one and builds the tree of the
    copy with [build_mmap_rb]; [find_extend_vma] and [expand_stack] extend an area that grows down;
    [exit_mmap] releases all areas, also of a copy that was given up half-way. The parent is an
    argument of [dup_mmap]; the state is the copy, for which copy_mm has copied the struct of the
    parent, and its memory, the areas that can be allocated for it. [news] are the areas that the
    allocator returns in turn, 0 if there is none, and [copy_result] is what copy_page_range
    returns for an area; what these functions do is recorded in [calls]. The list of all address
    spaces, of use for swapping only, and rss, the number of pages present, are left out.

    The theorems: a fork gives the child exactly what the parent has mapped, without the locks
    ([fork_exact]); a fork that fails and is cleaned up gives back all that it took ([fork_undone]);
    an exit releases every area once ([exit_exact]); the stack grows down to the address and over
    nothing else ([extend_exact]). *)
From stdpp Require Import sorting.
From S2P Require Import Prelude Bootmem Rbtree Vma Munmap Mmap Mprotect Mlock.

Definition VM_DONTCOPY : Z := 0x20000.
Definition USER_PTRS_PER_PGD : Z := TASK_SIZE / PGDIR_SIZE - FIRST_USER_PGD_NR.

(** ** The tree of a list *)
Fixpoint build_loop (fuel : nat) (vma : Z) (rb_link : link) (rb_parent : Z) : V unit :=
  match fuel with
  | O => BUG
  | S fuel =>
    if truth vma then
      __vma_link_rb vma rb_link rb_parent;;
      next ← next_get vma;
      build_loop fuel next (AtRight vma) vma
    else mret tt
  end.

Definition build_mmap_rb : V unit :=
  mm_set (fun s => s <| mm_rb := RB_ROOT (nodes (mm_rb s)) |>);;
  vma ← mm_get mmap;
  walk (fun fuel => build_loop fuel vma AtRoot 0).

Definition insert_vm_struct (vma : Z) : V unit :=
  st ← vma_get vma vm_start;
  p ← find_vma_prepare st;
  match p with
  | Covered v | Place v _ _ _ =>
    vst ← (if truth v then vma_get v vm_start else mret 0);
    e ← vma_get vma vm_end;
    if truth v && (vst <? e) then BUG
    else match p with
    | Covered _ => BUG
    | Place _ prev rb_link rb_parent => vma_link vma prev rb_link rb_parent
    end
  end.

Definition sys_munmap := do_munmap.

(** ** Fork *)
Definition copy_area (v : vm_area) : vm_area := v <| vm_flags := vm_flags v .& Z.lnot VM_LOCKED |>.

Section Fork.
Context (has_open : Z -> bool) (copy_result : Z -> Z) (parent : mm_struct).

(** The list of the copy ends at [pprev]: the head, or the field of its last area. *)
Definition set_pprev (pprev : option Z) (tmp : Z) : V unit :=
  match pprev with
  | None => mm_set (fun s => s <| mmap := tmp |>)
  | Some p => next_set p tmp
  end.

(** One area is copied and appended to the list. *)
Definition dup_one (v : vm_area) (tmp : Z) (pprev : option Z) : V unit :=
  vma_set tmp (fun _ => copy_area v);;
  next_set tmp 0;;
  flags ← vma_get tmp vm_flags;
  whenV (truth (vm_file v))
    (call_out (Get_file (vm_file v));;
     whenV (truth (flags .& VM_DENYWRITE)) (call_out (Writecount_dec (vm_file v)));;
     call_out (I_mmap_add tmp));;
  set_pprev pprev tmp;;
  count_map 1;;
  call_out (Copy_page_range tmp);;
  whenV (truth (vm_ops v) && has_open (vm_ops v)) (call_out (Vm_open (vm_ops v) tmp)).

Fixpoint dup_loop (fuel : nat) (mpnt : Z) (news : list Z) (pprev : option Z) : V Z :=
  match fuel with
  | O => BUG
  | S fuel =>
    if truth mpnt then
      match vmas parent !! mpnt, vm_next parent !! mpnt with
      | Some v, Some next =>
        if truth (vm_flags v .& VM_DONTCOPY) then dup_loop fuel next news pprev
        else
          let tmp := hd 0 news in
          if negb (truth tmp) then mret (- ENOMEM)
          else
            dup_one v tmp pprev;;
            let retval := copy_result tmp in
            if truth retval then mret retval
            else dup_loop fuel next (tl news) (Some tmp)
      | _, _ => BUG
      end
    else mret 0
  end.

Definition dup_mmap (news : list Z) : V Z :=
  mm_set (fun s => s <| locked_vm := 0 |> <| mmap := 0 |> <| mmap_cache := 0 |> <| map_count := 0 |>);;
  retval ← dup_loop (S (size (nodes (mm_rb parent)))) (mmap parent) news None;
  whenV (negb (truth retval)) build_mmap_rb;;
  mret retval.
End Fork.

(** ** Growth of the stack *)
Section Grow.
Context (rlim_stack rlim_as : Z).

Definition expand_stack (vma address : Z) : V Z :=
  let address := address .& PAGE_MASK in
  st ← vma_get vma vm_start;
  e ← vma_get vma vm_end;
  total ← mm_get total_vm;
  let grow := u32 (st - address) .>> PAGE_SHIFT in
  if (rlim_stack <? u32 (e - address)) || (rlim_as <? u32 (u32 (total + grow) .<< PAGE_SHIFT)) then mret (- ENOMEM)
  else
    vma_set vma (fun v => v <| vm_start := address |> <| vm_pgoff := u32 (vm_pgoff v - grow) |>);;
    mm_set (fun s => s <| total_vm := u32 (total_vm s + grow) |>);;
    flags ← vma_get vma vm_flags;
    whenV (truth (flags .& VM_LOCKED)) (mm_set (fun s => s <| locked_vm := u32 (locked_vm s + grow) |>));;
    mret 0.

Definition find_extend_vma (addr : Z) : V Z :=
  let addr := addr .& PAGE_MASK in
  vma ← find_vma addr;
  if negb (truth vma) then mret 0
  else
    start ← vma_get vma vm_start;
    if start <=? addr then mret vma
    else
      flags ← vma_get vma vm_flags;
      if negb (truth (flags .& VM_GROWSDOWN)) then mret 0
      else
        r ← expand_stack vma addr;
        if truth r then mret 0
        else
          flags ← vma_get vma vm_flags;
          whenV (truth (flags .& VM_LOCKED)) (call_out (Make_pages_present addr start));;
          mret vma.
End Grow.

(** ** Exit *)
Section Exit.
Context (has_close : Z -> bool).

Fixpoint exit_unmap_loop (fuel : nat) (mpnt : Z) : V unit :=
  match fuel with
  | O => BUG
  | S fuel =>
    if truth mpnt then
      start ← vma_get mpnt vm_start;
      end_ ← vma_get mpnt vm_end;
      count_map (-1);;
      __remove_shared_vm_struct mpnt;;
      call_out (Unmap_page_range start end_);;
      next ← next_get mpnt;
      exit_unmap_loop fuel next
    else mret tt
  end.

Fixpoint exit_free_loop (fuel : nat) (mpnt : Z) : V unit :=
  match fuel with
  | O => BUG
  | S fuel =>
    if truth mpnt then
      next ← next_get mpnt;
      ops ← vma_get mpnt vm_ops;
      whenV (truth ops && has_close ops) (call_out (Vm_close ops mpnt));;
      file ← vma_get mpnt vm_file;
      whenV (truth file) (call_out (Fput file));;
      call_out (Kmem_cache_free mpnt);;
      exit_free_loop fuel next
    else mret tt
  end.

Definition exit_mmap : V unit :=
  mpnt ← mm_get mmap;
  walk (fun fuel => exit_unmap_loop fuel mpnt);;
  c ← mm_get map_count;
  if truth c then BUG
  else
    mpnt ← mm_get mmap;
    mm_set (fun s => s <| mmap := 0 |> <| mmap_cache := 0 |> <| mm_rb := RB_ROOT (nodes (mm_rb s)) |>
      <| total_vm := 0 |> <| locked_vm := 0 |>);;
    call_out (Clear_page_tables FIRST_USER_PGD_NR USER_PTRS_PER_PGD);;
    walk (fun fuel => exit_free_loop fuel mpnt).
End Exit.

(** ** Lists of areas *)

(** The list of an address space, whatever its tree is. *)
Record Listed (s : mm_struct) (l : list Z) : Prop := {
  li_linked : linked (vm_next s) (mmap s) l;
  li_mem : forall a, a ∈ l -> area_mem s a;
  li_nodup : NoDup l;
  li_count : map_count s = Z.of_nat (length l);
  li_length : Z.of_nat (length l) <= 1048576
}.

Lemma linked_is_next nx p l a : linked nx p l -> a ∈ l -> is_Some (nx !! a).
Proof.
  revert p. induction l as [|b l IH]; intros p; [by intros _ ?%elem_of_nil|]. intros (_ & n & Hb & Hl) [->|Ha]%elem_of_cons; [by exists n|].
  by eapply IH.
Qed.
Lemma Mm_listed s l : Mm s l -> Listed s l.
Proof.
  intros [HA Hc _]. constructor; [apply HA| |by eapply Areas_nodup|done|by eapply Areas_length].
  intros a Ha. split_and!; [by eapply Areas_nonzero|by apply HA|eapply linked_is_next; [apply HA|done]|].
  destruct (mm_tree _ _ HA) as (t & HT & _ & El). rewrite <- El in Ha.
  destruct (focus_exists _ _ Ha) as (k & c & tl & tr & ->). destruct (focus_holds _ _ _ _ HT) as (_ & H & _). by eexists.
Qed.
(** The fuel of a walk is enough. *)
Lemma listed_fuel s l : (forall a, a ∈ l -> is_Some (nodes (mm_rb s) !! a)) -> NoDup l -> (length l < S (size (nodes (mm_rb s))))%nat.
Proof.
  intros Hin Hnd. assert (H : size (list_to_set l : gset Z) = length l) by (by apply size_list_to_set).
  enough (size (list_to_set l : gset Z) <= size (dom (nodes (mm_rb s))))%nat by (rewrite size_dom in *; lia).
  apply subseteq_size. intros a. rewrite elem_of_list_to_set, elem_of_dom. apply Hin.
Qed.

(** The two ways to insert an area do the same. *)
Lemma insert_vm_struct_same vma s : insert_vm_struct vma s = __insert_vm_struct vma s.
Proof.
  unfold insert_vm_struct, __insert_vm_struct, vma_link, mbind, V_bind. destruct (vma_get vma vm_start s) as [[st s1]|]; [|done].
  destruct (find_vma_prepare st s1) as [[p s2]|]; [|done]. by destruct p.
Qed.

(** ** The tree that is built *)
Lemma rightmost_hole t l a : inorder t = l ++ [a] -> exists k, t = plug k Leaf /\ link_of k = AtRight a /\ top k = a /\ before k = l ++ [a] /\ after k = [].
Proof.
  intros E. assert (Hgo : forall k0 l', after k0 = [] -> before k0 ++ inorder t = l' ++ [a] -> inorder t <> [] ->
    exists k, plug k0 t = plug k Leaf /\ link_of k = AtRight a /\ top k = a /\ before k = l' ++ [a] /\ after k = []).
  { clear. induction t as [|c tl _ b tr IH]; intros k0 l' Ha Hb Hne; [done|]. set (k1 := mk_frame R c b tl :: k0).
    destruct (decide (tr = Leaf)) as [->|Hr].
    - cbn [inorder] in Hb. rewrite app_assoc in Hb. apply app_inj_tail in Hb as [<- ->].
      exists k1. split_and!; try done. cbn. by rewrite <- app_assoc.
    - destruct (IH k1 l') as (k & Ek & Hk); [done| |by destruct tr; [|intros []%app_nil; done]|].
      + rewrite <- Hb. cbn. by rewrite <- !app_assoc.
      + exists k. split; [|done]. rewrite <- Ek. done. }
  destruct (Hgo [] l) as (k & Ek & Hk); [done|done|rewrite E; by destruct l|]. by exists k.
Qed.

Lemma build_loop_correct fuel : forall s l1 l2 t rb_link rb_parent F, 
  (length l2 < fuel)%nat -> linked (vm_next s) (hd0 l2) l2 -> Tree F (mm_rb s) t -> rb_tree t -> inorder t = l1 ->
  NoDup (l1 ++ l2) -> (forall a, a ∈ l2 -> a <> 0 /\ is_Some (F !! a)) ->
  (rb_link, rb_parent) = (if decide (l1 = []) then (AtRoot, 0) else (AtRight (last0 l1), last0 l1)) ->
  exists r t', build_loop fuel (hd0 l2) rb_link rb_parent s = Ok (tt, s <| mm_rb := r |>) /\
    Tree F r t' /\ rb_tree t' /\ inorder t' = l1 ++ l2.
Proof.
  induction fuel as [|fuel IH]; intros s l1 l2 t rb_link rb_parent F Hf Hl HT Hrb Hin Hnd HF Hat; [lia|]. cbn [build_loop].
  destruct l2 as [|a l2]; [exists (mm_rb s), t; rewrite app_nil_r; by destruct s|]. cbn [hd0 hd].
  destruct (HF a ltac:(left)) as [Ha0 HaF]. rewrite truth_nz by done.
  assert (Hk : exists k, t = plug k Leaf /\ link_of k = rb_link /\ top k = rb_parent /\ before k = l1 /\ after k = []).
  { destruct (decide (l1 = [])) as [->|Hne].
    - injection Hat as -> ->. destruct t as [|c tl b tr]; [by exists []|]. cbn in Hin. by destruct (inorder tl).
    - injection Hat as -> ->. destruct l1 as [|b l1 _] using rev_ind; [done|]. rewrite last0_snoc. by apply rightmost_hole. }
  destruct Hk as (k & -> & <- & <- & Hbk & Hak).
  destruct (insert_at_hole F (mm_rb s) k a) as (r & t' & E & HT' & Hrb' & Hin'); try done.
  { rewrite inorder_plug, Hbk, Hak, app_nil_r. apply NoDup_app in Hnd as (_ & Hd & _). intros H. apply (Hd a H). left. }
  unfold __vma_link_rb. destruct Hl as (_ & n & Hn & Hl). pose proof (linked_hd _ _ _ Hl) as ->.
  rewrite (bindV _ (on_rb _;; on_rb _) s tt (s <| mm_rb := r |>)) by (rewrite on_rb_seq; by apply on_rb_ok).
  rewrite (bindV _ (next_get a) _ (hd0 l2) (s <| mm_rb := r |>)) by (unfold next_get; simpl; by rewrite Hn).
  destruct (IH (s <| mm_rb := r |>) (l1 ++ [a]) l2 t' (AtRight a) a F) as (r' & t'' & E' & HT'' & Hrb'' & Hin''); try done.
  - simpl in Hf. lia.
  - by rewrite Hin', Hbk, Hak.
  - by rewrite <- app_assoc.
  - intros b Hb. apply HF. by right.
  - rewrite decide_False by (by destruct l1). by rewrite last0_snoc.
  - exists r', t''. split; [exact E'|]. split_and!; try done. by rewrite Hin'', <- app_assoc.
Qed.

Lemma build_correct s l : Listed s l -> (forall a, a ∈ l -> area_ok (ar s a)) -> StronglySorted (below s) l -> mmap_cache s = 0 ->
  exists r, build_mmap_rb s = Ok (tt, s <| mm_rb := r |>) /\ Mm (s <| mm_rb := r |>) l /\
    (forall a, is_Some (nodes (mm_rb s) !! a) -> is_Some (nodes r !! a)).
Proof.
  intros [L1 L2 L3 L4 L5] Hok Hs Hc. unfold build_mmap_rb. set (s0 := s <| mm_rb := RB_ROOT (nodes (mm_rb s)) |>).
  rewrite (bindV _ (mm_set _) s tt s0) by done. rewrite (bindV _ (mm_get mmap) s0 (hd0 l) s0) by (unfold mm_get; do 2 f_equal; by apply (linked_hd (vm_next s))).
  destruct (build_loop_correct (S (size (nodes (mm_rb s0)))) s0 [] l Leaf AtRoot 0 (nodes (mm_rb s0))) as (r & t & E & HT & Hrb & Hin); try done.
  - apply listed_fuel; [intros a Ha; by apply L2|done].
  - by rewrite <- (linked_hd _ _ _ L1).
  - constructor; [done|done|constructor|done].
  - by exists 0%nat; constructor.
  - intros a Ha. split; by apply L2.
  - exists r. split; [exact E|]. split.
    + constructor; [constructor|done|by left]; try done.
      * exists t. split_and!; try done. by apply (Tree_self _ _ _ HT).
      * intros a Ha. split; [by apply L2|by apply Hok].
    + intros a Ha. by eapply Tree_cells.
Qed.

(** ** Exit *)
Definition unlink_calls (v : vm_area) (a : Z) : list call :=
  if truth (vm_file v) then
    (if truth (vm_flags v .& VM_DENYWRITE) then [Writecount_inc (vm_file v)] else []) ++ [I_mmap_del a]
  else [].
(** What is done for an area before and after the page tables are cleared. *)
Definition unmap_calls (s : mm_struct) (a : Z) : list call :=
  unlink_calls (ar s a) a ++ [Unmap_page_range (vm_start (ar s a)) (vm_end (ar s a))].
Definition free_calls (has_close : Z -> bool) (s : mm_struct) (a : Z) : list call :=
  (if truth (vm_ops (ar s a)) && has_close (vm_ops (ar s a)) then [Vm_close (vm_ops (ar s a)) a] else []) ++
  (if truth (vm_file (ar s a)) then [Fput (vm_file (ar s a))] else []) ++ [Kmem_cache_free a].

Lemma mm_ext s s' : mmap s = mmap s' -> mm_rb s = mm_rb s' -> mmap_cache s = mmap_cache s' -> map_count s = map_count s' ->
  end_code s = end_code s' -> start_data s = start_data s' -> brk s = brk s' -> total_vm s = total_vm s' -> locked_vm s = locked_vm s' ->
  def_flags s = def_flags s' -> vmas s = vmas s' -> vm_next s = vm_next s' -> calls s = calls s' -> s = s'.
Proof. destruct s, s'. cbn. by intros -> -> -> -> -> -> -> -> -> -> -> -> ->. Qed.
Definition called (s : mm_struct) (c : list call) : mm_struct := s <| calls := calls s ++ c |>.
Lemma call_out_called c s : call_out c s = Ok (tt, called s [c]).
Proof. done. Qed.
Lemma when_called (b : bool) m c s : (b = true -> m s = Ok (tt, called s c)) -> whenV b m s = Ok (tt, called s (if b then c else [])).
Proof. intros H. destruct b; [by apply H|]. unfold called, update. rewrite app_nil_r. by destruct s. Qed.
Lemma called_app s c c' : called (called s c) c' = called s (c ++ c').
Proof. unfold called, update. cbn. by rewrite app_assoc. Qed.
Lemma called_nil s : called s [] = s.
Proof. unfold called, update. rewrite app_nil_r. by destruct s. Qed.

Lemma unlink_file_ok s a : is_Some (vmas s !! a) -> __remove_shared_vm_struct a s = Ok (tt, called s (unlink_calls (ar s a) a)).
Proof.
  intros Ha. unfold __remove_shared_vm_struct, unlink_calls. do 2 runV. apply when_called. intros _.
  rewrite (bindV _ _ s tt _ (when_called _ _ _ s (fun _ => call_out_called (Writecount_inc (vm_file (ar s a))) s))).
  rewrite call_out_called, called_app. done.
Qed.

Lemma exit_unmap_correct l : forall fuel p s, linked (vm_next s) p l -> (forall a, a ∈ l -> a <> 0 /\ is_Some (vmas s !! a)) ->
  (length l < fuel)%nat -> Z.of_nat (length l) <= map_count s <= 1048576 ->
  exit_unmap_loop fuel p s = Ok (tt, called (s <| map_count := map_count s - Z.of_nat (length l) |>) (flat_map (unmap_calls s) l)).
Proof.
  induction l as [|a l IH]; intros fuel p s Hl Ha Hf Hc; (destruct fuel as [|fuel]; [simpl in Hf; lia|]); cbn [exit_unmap_loop].
  { rewrite Hl. change (truth 0) with false. cbn. rewrite called_nil, Z.sub_0_r. by destruct s. }
  destruct Hl as (-> & n & Hn & Hl). destruct (Ha a ltac:(left)) as [Ha0 Hv]. rewrite truth_nz by done. do 2 runV.
  rewrite (bindV _ (count_map (-1)) s tt (s <| map_count := map_count s - 1 |>)).
  2: { unfold count_map, mm_set. unfold s32. rewrite Z.mod_small by (simpl in Hc; lia). do 3 f_equal. lia. }
  set (s1 := s <| map_count := map_count s - 1 |>). rewrite (bindV _ _ _ _ _ (unlink_file_ok s1 a Hv)).
  rewrite (bindV _ _ _ _ _ (call_out_called _ _)), called_app.
  erewrite (bindV _ (next_get a)) by (unfold next_get, called; simpl; by rewrite Hn).
  rewrite IH; [|done|intros b Hb; apply Ha; by right|simpl in Hf; lia|simpl in *; lia].
  unfold called, s1, update. cbn [mmap mm_rb mmap_cache map_count end_code start_data brk total_vm locked_vm def_flags vmas vm_next calls].
  cbn [flat_map length]. rewrite <- app_assoc. by replace (map_count s - 1 - Z.of_nat (length l)) with (map_count s - Z.of_nat (S (length l))) by lia.
Qed.

Lemma exit_free_correct has_close l : forall fuel p s, linked (vm_next s) p l -> (forall a, a ∈ l -> a <> 0 /\ is_Some (vmas s !! a)) ->
  (length l < fuel)%nat ->
  exit_free_loop has_close fuel p s = Ok (tt, called s (flat_map (free_calls has_close s) l)).
Proof.
  induction l as [|a l IH]; intros fuel p s Hl Ha Hf; (destruct fuel as [|fuel]; [simpl in Hf; lia|]); cbn [exit_free_loop].
  { rewrite Hl. change (truth 0) with false. by rewrite called_nil. }
  destruct Hl as (-> & n & Hn & Hl). destruct (Ha a ltac:(left)) as [Ha0 Hv]. rewrite truth_nz by done.
  erewrite (bindV _ (next_get a)) by (unfold next_get; by rewrite Hn). runV.
  rewrite (bindV _ _ _ _ _ (when_called _ _ _ s (fun _ => call_out_called _ s))).
  set (s1 := called s _). rewrite (bindV _ (vma_get a vm_file) s1 _ _ (vma_get_ok s1 a vm_file Hv)). change (ar s1 a) with (ar s a).
  rewrite (bindV _ _ _ _ _ (when_called _ _ _ s1 (fun _ => call_out_called _ s1))).
  rewrite (bindV _ _ _ _ _ (call_out_called _ _)). unfold s1. rewrite !called_app. rewrite IH; [|done|intros b Hb; apply Ha; by right|simpl in Hf; lia].
  rewrite called_app. cbn [flat_map]. unfold free_calls at 2. by rewrite <- !app_assoc.
Qed.

(** The calls of an exit. *)
Definition exit_calls (has_close : Z -> bool) (s : mm_struct) (l : list Z) : list call :=
  flat_map (unmap_calls s) l ++ [Clear_page_tables FIRST_USER_PGD_NR USER_PTRS_PER_PGD] ++ flat_map (free_calls has_close s) l.
Definition emptied (s : mm_struct) : mm_struct :=
  s <| mmap := 0 |> <| mmap_cache := 0 |> <| mm_rb := RB_ROOT (nodes (mm_rb s)) |> <| total_vm := 0 |> <| locked_vm := 0 |> <| map_count := 0 |>.

Lemma exit_correct has_close s l : Listed s l -> exit_mmap has_close s = Ok (tt, called (emptied s) (exit_calls has_close s l)).
Proof.
  intros [L1 L2 L3 L4 L5]. unfold exit_mmap. rewrite (bindV _ (mm_get mmap) s _ s eq_refl).
  assert (Hm : forall a, a ∈ l -> a <> 0 /\ is_Some (vmas s !! a)) by (intros a Ha; split; by apply L2).
  assert (Hf : (length l < S (size (nodes (mm_rb s))))%nat) by (apply listed_fuel; [intros a Ha; by apply L2|done]).
  rewrite (bindV _ (walk _) s tt _ (exit_unmap_correct l _ _ s L1 Hm Hf ltac:(lia))).
  set (s1 := called _ _). rewrite (bindV _ (mm_get map_count) s1 0 s1) by (unfold mm_get, s1, called; simpl; rewrite L4, Z.sub_diag; done).
  change (truth 0) with false. cbv iota. rewrite (bindV _ (mm_get mmap) s1 _ s1 eq_refl), (bindV _ (mm_set _) s1 tt _ eq_refl).
  rewrite (bindV _ _ _ _ _ (call_out_called _ _)). set (s2 := called _ _).
  unfold walk. rewrite (exit_free_correct has_close l) by done. change (free_calls has_close s2) with (free_calls has_close s).
  do 2 f_equal. apply mm_ext; try done.
  - change (map_count s - Z.of_nat (length l) = 0). lia.
  - change (((calls s ++ flat_map (unmap_calls s) l) ++ [Clear_page_tables FIRST_USER_PGD_NR USER_PTRS_PER_PGD])
      ++ flat_map (free_calls has_close s) l = calls s ++ exit_calls has_close s l). unfold exit_calls. by rewrite <- !app_assoc.
Qed.

(** C34. An exit never faults: the loops end, and the count of the areas comes out as 0. For each area,
    in the order of their addresses, first its pages are unmapped and it is taken from the list of
    its file, which may be written again if the area denied that; then the page tables are cleared;
    then, in the same order, each area is closed, gives back its file and is freed, each exactly
    once. The address space that is left is empty. *)
Theorem exit_exact has_close s l : Mm s l ->
  exists s', exit_mmap has_close s = Ok (tt, s') /\ Mm s' [] /\ total_vm s' = 0 /\ locked_vm s' = 0 /\
    calls s' = calls s ++ flat_map (unmap_calls s) l ++
      [Clear_page_tables FIRST_USER_PGD_NR USER_PTRS_PER_PGD] ++ flat_map (free_calls has_close s) l.
Proof.
  intros HM. rewrite (exit_correct has_close s l (Mm_listed s l HM)). eexists. split; [done|]. split_and!; try done.
  constructor; [|done|by left]. constructor; [done| |by intros a ?%elem_of_nil|constructor].
  exists Leaf. split_and!; [|by exists 0%nat; constructor|done]. constructor; [done|done|constructor|done].
Qed.
Lemma exit_exact_witness :
  exists s', exit_mmap (fun _ => true) sample_mm = Ok (tt, s') /\ Mm s' [] /\ total_vm s' = 0 /\ locked_vm s' = 0 /\
    calls s' = calls sample_mm ++ flat_map (unmap_calls sample_mm) sample_areas ++
      [Clear_page_tables FIRST_USER_PGD_NR USER_PTRS_PER_PGD] ++ flat_map (free_calls (fun _ => true) sample_mm) sample_areas.
Proof. exact (exit_exact (fun _ => true) sample_mm sample_areas sample_mm_ok). Defined.

(** ** Fork *)

(** What is done for the copy of an area. *)
Definition kept (parent : mm_struct) (a : Z) : Prop := vm_flags (ar parent a) .& VM_DONTCOPY = 0.
#[export] Instance kept_dec parent a : Decision (kept parent a).
Proof. unfold kept. apply _. Defined.

Definition dup_calls (has_open : Z -> bool) (v : vm_area) (a : Z) : list call :=
  (if truth (vm_file v) then Get_file (vm_file v) :: link_calls v a else []) ++
  [Copy_page_range a] ++ (if truth (vm_ops v) && has_open (vm_ops v) then [Vm_open (vm_ops v) a] else []).

(** What a copy of areas leaves alone. *)
Definition same_fields (s s' : mm_struct) : Prop :=
  mm_rb s' = mm_rb s /\ same_rest s s'.
#[export] Instance same_fields_preorder : PreOrder same_fields.
Proof.
  split; [by intros s|]. unfold same_fields, same_rest. intros s1 s2 s3 (A1 & A2 & A3 & A4 & A5 & A6 & A7 & A8) (B1 & B2 & B3 & B4 & B5 & B6 & B7 & B8).
  by rewrite B1, B2, B3, B4, B5, B6, B7, B8.
Qed.

Lemma linked_snoc nx p l n : NoDup l -> linked nx p l -> n ∉ l ->
  linked (match last l with None => <[n := 0]> nx | Some q => <[q := n]> (<[n := 0]> nx) end) (match l with [] => n | _ => p end) (l ++ [n]).
Proof.
  intros Hnd Hl Hn. rewrite <- (app_nil_r l) in Hl. apply (linked_replace nx p l [] [n]); try done.
  - intros a Ha Hne. destruct (last l) as [q|] eqn:E; [|apply last_None in E as ->; by apply elem_of_nil in Ha].
    assert (q = last0 l) as -> by (unfold last0; rewrite E; reflexivity). rewrite !lookup_insert_ne; [done|intros ->; done|congruence].
  - intros Hne. destruct (last l) as [q|] eqn:E; [|by apply last_None in E as ->].
    assert (q = last0 l) as -> by (unfold last0; rewrite E; reflexivity). by rewrite lookup_insert_eq.
  - split; [done|]. exists 0. split; [|done]. destruct (last l) as [q|] eqn:E; [|by rewrite lookup_insert_eq].
    rewrite lookup_insert_ne; [by rewrite lookup_insert_eq|]. intros ->. by apply last_Some_elem_of in E.
Qed.

Section Dup.
Context (has_open : Z -> bool) (copy_result : Z -> Z) (parent : mm_struct).

Record appended (c : mm_struct) (cl : list Z) (v : vm_area) (n : Z) (c' : mm_struct) : Prop := {
  ap_listed : Listed c' (cl ++ [n]);
  ap_area : vmas c' = <[n := v]> (vmas c);
  ap_calls : calls c' = calls c ++ dup_calls has_open v n;
  ap_mem : mem_kept c c';
  ap_rest : same_fields c c'
}.

Lemma dup_one_correct c cl v n : Listed c cl -> area_mem c n -> n ∉ cl -> Z.of_nat (length cl) < 1048576 ->
  exists c', dup_one has_open v n (last cl) c = Ok (tt, c') /\ appended c cl (copy_area v) n c'.
Proof using.
  intros [L1 L2 L3 L4 L5] Hmem Hout Hlen. pose proof Hmem as (Hn0 & [vn Ev] & [nn En] & Hrb). unfold dup_one.
  set (va := copy_area v). set (c1 := c <| vmas := <[n := va]> (vmas c) |>).
  rewrite (bindV _ (vma_set n _) c tt c1) by (unfold vma_set; by rewrite Ev).
  set (c2 := c1 <| vm_next := <[n := 0]> (vm_next c) |>).
  rewrite (bindV _ (next_set n 0) c1 tt c2) by (unfold next_set; simpl; by rewrite En).
  assert (Hva : vma_get n vm_flags c2 = Ok (vm_flags va, c2)) by (unfold vma_get; simpl; by rewrite lookup_insert_eq).
  rewrite (bindV _ _ _ _ _ Hva).
  assert (Hcall : whenV (truth (vm_file v)) (call_out (Get_file (vm_file v));;
     whenV (truth (vm_flags va .& VM_DENYWRITE)) (call_out (Writecount_dec (vm_file v)));; call_out (I_mmap_add n)) c2 =
     Ok (tt, called c2 (if truth (vm_file v) then Get_file (vm_file v) :: link_calls va n else []))).
  { apply when_called. intros Hf. rewrite (bindV _ _ _ _ _ (call_out_called _ _)).
    set (c3 := called _ _). rewrite (bindV _ _ c3 tt _ (when_called _ _ _ c3 (fun _ => call_out_called (Writecount_dec (vm_file v)) c3))).
    rewrite call_out_called. unfold c3. rewrite !called_app. unfold link_calls. change (vm_file va) with (vm_file v). by rewrite Hf. }
  rewrite (bindV _ _ _ _ _ Hcall). set (c3 := called _ _).
  set (nx := match last cl with None => <[n := 0]> (vm_next c) | Some q => <[q := n]> (<[n := 0]> (vm_next c)) end).
  set (c4 := c3 <| vm_next := nx |> <| mmap := match cl with [] => n | _ => mmap c end |>).
  assert (Hset : set_pprev (last cl) n c3 = Ok (tt, c4)).
  { unfold set_pprev, nx in *. destruct (last cl) as [q|] eqn:El.
    - assert (Hq : is_Some (vm_next c3 !! q)).
      { apply last_Some_elem_of in El. destruct (L2 q El) as (_ & _ & H & _). simpl. destruct (decide (n = q)) as [->|]; [done|].
        by rewrite lookup_insert_ne. }
      destruct Hq as [x Hq]. unfold next_set. rewrite Hq. do 2 f_equal. apply mm_ext; try done. destruct cl; [done|done].
    - apply last_None in El as ->. unfold mm_set. by do 2 f_equal. }
  rewrite (bindV _ _ _ _ _ Hset). set (c5 := c4 <| map_count := map_count c + 1 |>).
  rewrite (bindV _ (count_map 1) c4 tt c5).
  2: { unfold count_map, mm_set. do 2 f_equal. apply mm_ext; try done. change (s32 (map_count c + 1) = map_count c + 1).
       unfold s32. rewrite L4, Z.mod_small by lia. lia. }
  rewrite (bindV _ _ _ _ _ (call_out_called _ _)), (when_called _ _ _ _ (fun _ => call_out_called _ _)), called_app.
  assert (Hkept : forall a, area_mem c a -> a <> 0 /\ is_Some (<[n := va]> (vmas c) !! a) /\ is_Some (nx !! a) /\ is_Some (nodes (mm_rb c) !! a)).
  { intros a (A1 & A2 & A3 & A4). split_and!; [done| | |done]; unfold nx; [|destruct (last cl)];
      repeat (rewrite lookup_insert; case_decide; [done|]); done. }
  eexists. split; [done|]. constructor; [|done| |done|done].
  - constructor.
    + by apply linked_snoc.
    + intros a Ha. assert (Hm : area_mem c a) by (apply elem_of_app in Ha as [Ha| ->%list_elem_of_singleton]; [by apply L2|done]).
      by apply Hkept.
    + apply NoDup_app. split_and!; [done|by intros x Hx ->%list_elem_of_singleton|apply NoDup_singleton].
    + change (map_count c + 1 = Z.of_nat (length (cl ++ [n]))). rewrite length_app. simpl. lia.
    + rewrite length_app. simpl. lia.
  - change ((calls c ++ (if truth (vm_file v) then Get_file (vm_file v) :: link_calls va n else [])) ++
      [Copy_page_range n] ++ (if truth (vm_ops v) && has_open (vm_ops v) then [Vm_open (vm_ops v) n] else []) = calls c ++ dup_calls has_open va n).
    by rewrite <- app_assoc.
Qed.

(** The areas that are allocated are free, and different. *)
Definition fresh (c : mm_struct) (cl news : list Z) : Prop :=
  (forall n, n ∈ news -> n = 0 \/ (area_mem c n /\ n ∉ cl)) /\ NoDup (filter (fun n => n <> 0) news).
Lemma fresh_cons c cl n news c' v : fresh c cl (n :: news) -> n <> 0 -> appended c cl v n c' -> fresh c' (cl ++ [n]) news.
Proof using.
  intros [Hf Hnd] Hn HA. rewrite filter_cons_True in Hnd by done. apply NoDup_cons in Hnd as [Hnew Hnd]. split; [|done].
  intros m Hm. destruct (decide (m = 0)) as [->|Hm0]; [by left|right]. destruct (Hf m ltac:(by right)) as [|[Hmem Hout]]; [done|].
  split; [by apply (ap_mem _ _ _ _ _ HA)|]. rewrite elem_of_app, list_elem_of_singleton. intros [?| ->]; [done|].
  apply Hnew. by apply list_elem_of_filter.
Qed.

(** The copies [cl'] of the areas [pl1], the first ones of [pl] that are to be copied. *)
Record copied (c : mm_struct) (cl pl news : list Z) (r : Z) (c' : mm_struct) (pl1 pl2 cl' : list Z) : Prop := {
  cp_split : filter (kept parent) pl = pl1 ++ pl2;
  cp_areas : Forall2 (fun a b => ar c' b = copy_area (ar parent a)) pl1 cl';
  cp_done : r = 0 -> pl2 = [];
  cp_listed : Listed c' (cl ++ cl');
  cp_others : forall b, b ∉ cl' -> vmas c' !! b = vmas c !! b;
  cp_calls : calls c' = calls c ++ flat_map (fun b => dup_calls has_open (ar c' b) b) cl';
  cp_mem : mem_kept c c';
  cp_rest : same_fields c c';
  cp_news : forall b, b ∈ cl' -> b ∉ cl;
  cp_error : r = 0 \/ (exists b, b ∈ cl' /\ copy_result b = r) \/ (r = - ENOMEM /\ nth (length cl') news 0 = 0)
}.

Lemma copied_none c cl pl news r : Listed c cl -> (r = 0 /\ filter (kept parent) pl = []) \/ (r = - ENOMEM /\ nth 0 news 0 = 0) ->
  copied c cl pl news r c [] (filter (kept parent) pl) [].
Proof using.
  intros HL Hr. assert (Hr' : r = 0 -> filter (kept parent) pl = []) by (destruct Hr as [[_ ?]|[-> _]]; done).
  constructor; try done; cbn; rewrite ?app_nil_r; try done; first [by intros b|by intros b ?%elem_of_nil|tauto].
Qed.

Lemma dup_loop_correct pl : forall fuel p news c cl,
  linked (vm_next parent) p pl -> (forall a, a ∈ pl -> a <> 0 /\ is_Some (vmas parent !! a)) -> (length pl < fuel)%nat ->
  Listed c cl -> Z.of_nat (length cl + length pl) <= 1048576 -> fresh c cl news ->
  exists r c' pl1 pl2 cl', dup_loop has_open copy_result parent fuel p news (last cl) c = Ok (r, c') /\ copied c cl pl news r c' pl1 pl2 cl'.
Proof using.
  induction pl as [|a pl IH]; intros fuel p news c cl Hl Hp Hf HL Hlen Hnew; (destruct fuel as [|fuel]; [simpl in Hf; lia|]); cbn [dup_loop].
  { rewrite Hl. change (truth 0) with false. cbv iota. exists 0, c, [], [], []. split; [done|].
    apply (copied_none c cl []); [done|by left]. }
  destruct Hl as (-> & nx & Hnx & Hl). destruct (Hp a ltac:(left)) as [Ha0 [v Ev]]. rewrite truth_nz, Ev, Hnx by done.
  assert (Av : ar parent a = v) by (unfold ar; by rewrite Ev). simpl in Hf, Hlen.
  assert (Hp' : forall b, b ∈ pl -> b <> 0 /\ is_Some (vmas parent !! b)) by (intros b Hb; apply Hp; by right).
  destruct (truth (vm_flags v .& VM_DONTCOPY)) eqn:Hk.
  { destruct (IH fuel nx news c cl) as (r & c' & pl1 & pl2 & cl' & E & HC); try done; try lia.
    exists r, c', pl1, pl2, cl'. split; [exact E|]. destruct HC as [C1 C2 C3 C4 C5 C6 C7 C8 C9 C10]. constructor; try done.
    rewrite filter_cons_False; [done|]. unfold kept. rewrite Av. unfold truth in Hk. by destruct (Z.eqb_spec (vm_flags v .& VM_DONTCOPY) 0). }
  assert (Hkeep : filter (kept parent) (a :: pl) = a :: filter (kept parent) pl).
  { apply filter_cons_True. unfold kept. rewrite Av. unfold truth in Hk. by destruct (Z.eqb_spec (vm_flags v .& VM_DONTCOPY) 0). }
  cbv zeta. destruct (decide (hd 0 news = 0)) as [Hz|Hn].
  { rewrite Hz. change (negb (truth 0)) with true. cbv iota. exists (- ENOMEM), c, [], (filter (kept parent) (a :: pl)), []. split; [done|].
    apply copied_none; [done|right]. by destruct news. }
  rewrite truth_nz by done. cbn [negb]. destruct news as [|n news]; [done|]. cbn [hd tl] in *.
  destruct (proj1 Hnew n ltac:(left)) as [|[Hmem Hout]]; [done|].
  destruct (dup_one_correct c cl v n HL Hmem Hout ltac:(lia)) as (c1 & E1 & HA). rewrite (bindV _ _ _ _ _ E1).
  pose proof (fresh_cons _ _ _ _ _ _ Hnew Hn HA) as Hnew1. destruct HA as [A1 A2 A3 A4 A5].
  assert (An : ar c1 n = copy_area v) by (unfold ar; by rewrite A2, lookup_insert_eq).
  assert (Hoth : forall b, b <> n -> vmas c1 !! b = vmas c !! b) by (intros b Hb; by rewrite A2, lookup_insert_ne).
  unfold truth. destruct (Z.eqb_spec (copy_result n) 0) as [Hr|Hr]; cbn [negb].
  - destruct (IH fuel nx news c1 (cl ++ [n])) as (r & c' & pl1 & pl2 & cl' & E & HC); try done; [lia|rewrite length_app; simpl; lia|].
    rewrite last_snoc in E. exists r, c', (a :: pl1), pl2, (n :: cl'). split; [exact E|].
    destruct HC as [C1 C2 C3 C4 C5 C6 C7 C8 C9 C10].
    assert (Hnc : n ∉ cl') by (intros H; apply (C9 n H); set_solver).
    assert (An' : ar c' n = copy_area v) by (unfold ar; rewrite C5 by done; exact An). constructor.
    + by rewrite Hkeep, C1.
    + constructor; [by rewrite An', Av|done].
    + done.
    + by rewrite <- app_assoc in C4.
    + intros b [Hb1 Hb2]%not_elem_of_cons. by rewrite C5, Hoth.
    + rewrite C6, A3. cbn [flat_map]. by rewrite An', <- app_assoc.
    + intros b Hb. auto.
    + by transitivity c1.
    + intros b [->|Hb]%elem_of_cons; [done|]. specialize (C9 b Hb). set_solver.
    + destruct C10 as [?|[(b & Hb & ?)|?]]; [by left|right; left; exists b; by split; [right|]|by right; right].
  - exists (copy_result n), c1, [a], (filter (kept parent) pl), [n]. split; [done|]. constructor; try done.
    + constructor; [by rewrite An, Av|constructor].
    + intros b Hb. apply Hoth. set_solver.
    + rewrite A3. cbn [flat_map]. by rewrite An, app_nil_r.
    + intros b ->%list_elem_of_singleton. done.
    + right; left. exists n. by split; [left|].
Qed.

Lemma Forall2_in_r {A B} (P : A -> B -> Prop) l l' b : Forall2 P l l' -> b ∈ l' -> exists a, a ∈ l /\ P a b.
Proof using.
  intros HF [i Hi]%list_elem_of_lookup. destruct (Forall2_lookup_r _ _ _ _ _ HF Hi) as (a & Ha & HP). exists a.
  split; [by eapply list_elem_of_lookup_2|done].
Qed.
Lemma Forall2_in_l {A B} (P : A -> B -> Prop) l l' a : Forall2 P l l' -> a ∈ l -> exists b, b ∈ l' /\ P a b.
Proof using.
  intros HF [i Hi]%list_elem_of_lookup. destruct (Forall2_lookup_l _ _ _ _ _ HF Hi) as (b & Hb & HP). exists b.
  split; [by eapply list_elem_of_lookup_2|done].
Qed.
(** The copies are in the order of the originals. *)
Lemma sorted_kept {A} (R : A -> A -> Prop) (P : A -> Prop) `{forall x, Decision (P x)} l : StronglySorted R l -> StronglySorted R (filter P l).
Proof using.
  induction 1 as [|x l Hl IH Hx]; [constructor|]. destruct (decide (P x)); [rewrite filter_cons_True by done|by rewrite filter_cons_False].
  constructor; [done|]. rewrite Forall_forall in *. intros y Hy%list_elem_of_filter. apply Hx, Hy.
Qed.
Lemma sorted_copy {A B} (R : A -> A -> Prop) (R' : B -> B -> Prop) (C : A -> B -> Prop) l l' :
  (forall a a' b b', C a b -> C a' b' -> R a a' -> R' b b') -> Forall2 C l l' -> StronglySorted R l -> StronglySorted R' l'.
Proof using.
  intros HC HF. induction HF as [|a b l l' Hab HF IH]; intros Hs; [constructor|].
  apply StronglySorted_cons in Hs as [Ha Hs]. constructor; [auto|]. apply Forall_forall. intros b' Hb'.
  apply (Forall2_in_r _ _ _ b') in HF as (a' & Ha' & Hab'); [|done]. rewrite Forall_forall in Ha. eapply HC; [done|done|auto].
Qed.

Lemma dup_correct l c news : Mm parent l -> fresh c [] news ->
  exists r c' pl1 pl2 cl', dup_mmap has_open copy_result parent news c = Ok (r, c') /\
    copied (c <| locked_vm := 0 |> <| mmap := 0 |> <| mmap_cache := 0 |> <| map_count := 0 |>) [] l news r
      (if decide (r = 0) then c' <| mm_rb := mm_rb c |> else c') pl1 pl2 cl' /\ (r = 0 -> Mm c' cl').
Proof using.
  intros HM Hfresh. unfold dup_mmap. set (c0 := c <| locked_vm := 0 |> <| mmap := 0 |> <| mmap_cache := 0 |> <| map_count := 0 |>).
  erewrite (bindV _ (mm_set _)) by reflexivity. fold c0. destruct (Mm_listed _ _ HM) as [L1 L2 L3 L4 L5].
  destruct (dup_loop_correct l (S (size (nodes (mm_rb parent)))) (mmap parent) news c0 []) as (r & c' & pl1 & pl2 & cl' & E & HC).
  - done.
  - intros a Ha. split; by apply L2.
  - apply listed_fuel; [intros a Ha; by apply L2|done].
  - constructor; [done|by intros a ?%elem_of_nil|constructor|done|simpl; lia].
  - simpl. lia.
  - done.
  - rewrite (bindV _ _ _ _ _ E). unfold truth. destruct (Z.eqb_spec r 0) as [->|Hr]; cbn [negb whenV].
    2: { exists r, c', pl1, pl2, cl'. split; [done|]. by rewrite decide_False. }
    destruct HC as [C1 C2 C3 C4 C5 C6 C7 C8 C9 C10]. rewrite (C3 eq_refl), app_nil_r in *. subst pl1.
    destruct (build_correct c' cl') as (rb & Eb & HMb & Hrb).
    + done.
    + intros b Hb. apply (Forall2_in_r _ _ _ b) in C2 as (a & [_ Ha]%list_elem_of_filter & ->); [|done].
      destruct (mm_areas _ _ (mm_ok _ _ HM) a Ha) as [_ Hok]. exact Hok.
    + eapply (sorted_copy (below parent)); [|exact C2|apply sorted_kept, HM]. unfold below. intros a a' b b' -> -> H. exact H.
    + apply C8.
    + rewrite (bindV _ _ _ _ _ Eb). exists 0, (c' <| mm_rb := rb |>), (filter (kept parent) l), [], cl'. split; [done|]. split; [|done].
      rewrite decide_True by done. assert (c' <| mm_rb := rb |> <| mm_rb := mm_rb c |> = c') as ->.
      { apply mm_ext; try done. symmetry. apply C8. }
      constructor; try done. by rewrite app_nil_r.
Qed.
End Dup.

(** The attributes of an address of the child. *)
Definition unlocked (w : Z * Z * Z) : Z * Z * Z := (w.1.1 .& Z.lnot VM_LOCKED, w.1.2, w.2).

Lemma copies_mapped parent l c cl : Forall2 (fun a b => ar c b = copy_area (ar parent a)) (filter (kept parent) l) cl ->
  forall x w, mapped_as c cl x w <-> exists w0, mapped_as parent l x w0 /\ w0.1.1 .& VM_DONTCOPY = 0 /\ w = unlocked w0.
Proof.
  intros HF x w. split.
  - intros (b & Hb & Hc & ->). destruct (Forall2_in_r _ _ _ b HF Hb) as (a & [Hk Ha]%list_elem_of_filter & E). rewrite E in *.
    exists (attr (ar parent a) x). split_and!; [by exists a|exact Hk|done].
  - intros (w0 & (a & Ha & Hc & ->) & Hk & ->). destruct (Forall2_in_l _ _ _ a HF) as (b & Hb & E); [by apply list_elem_of_filter|].
    exists b. rewrite E. by split_and!.
Qed.

(** C21. A fork never faults. The areas of the parent that are not marked [VM_DONTCOPY] are copied in
    order, without [VM_LOCKED]; each copy takes a reference to its file, joins the list of the file,
    denies writing if the original does, has its pages copied and is opened. On success all are
    copied: the child is a well-formed address space, with a tree built from the list, in which
    exactly the addresses of these areas are mapped, with the flags (but the lock), the file and the
    page of the file of the parent; nothing is counted as locked. It fails only if an area cannot be
    allocated or pages cannot be copied, and then the child has the list of the areas copied so far. *)
Theorem fork_exact has_open copy_result parent l c news : Mm parent l -> fresh c [] news ->
  exists r c' pl1 pl2 cl', dup_mmap has_open copy_result parent news c = Ok (r, c') /\
    filter (kept parent) l = pl1 ++ pl2 /\ Forall2 (fun a b => ar c' b = copy_area (ar parent a)) pl1 cl' /\
    calls c' = calls c ++ flat_map (fun b => dup_calls has_open (ar c' b) b) cl' /\ locked_vm c' = 0 /\
    total_vm c' = total_vm c /\ brk c' = brk c /\ def_flags c' = def_flags c /\
    ((r = 0 /\ pl2 = [] /\ Mm c' cl' /\
      forall x w, mapped_as c' cl' x w <-> exists w0, mapped_as parent l x w0 /\ w0.1.1 .& VM_DONTCOPY = 0 /\ w = unlocked w0) \/
     (r <> 0 /\ Listed c' cl' /\
      ((exists b, b ∈ cl' /\ copy_result b = r) \/ (r = - ENOMEM /\ nth (length cl') news 0 = 0)))).
Proof.
  intros HM Hf. destruct (dup_correct has_open copy_result parent l c news HM Hf) as (r & c' & pl1 & pl2 & cl' & E & [C1 C2 C3 C4 C5 C6 C7 C8 C9 C10] & HMc).
  destruct C8 as (_ & _ & _ & _ & B1 & B2 & B3 & B4). exists r, c', pl1, pl2, cl'. split; [done|]. split; [done|].
  destruct (decide (r = 0)) as [->|Hr].
  - specialize (C3 eq_refl) as ->. rewrite app_nil_r in C1. split_and!; try done. left. split_and!; try done; [by apply HMc|].
    apply copies_mapped. by rewrite C1.
  - split_and!; try done. right. split_and!; try done. by destruct C10.
Qed.

(** *** A fork that fails *)
#[export] Instance call_eq_dec : EqDecision call.
Proof. solve_decision. Defined.
Definition times (x : call) (cs : list call) : nat := length (filter (fun y => y = x) cs).
Lemma times_app x cs cs' : times x (cs ++ cs') = (times x cs + times x cs')%nat.
Proof. unfold times. by rewrite filter_app, length_app. Qed.
Lemma times_cons x y cs : times x (y :: cs) = ((if decide (y = x) then 1 else 0) + times x cs)%nat.
Proof. unfold times. rewrite filter_cons. by destruct (decide (y = x)). Qed.

Lemma times_if x (b : bool) cs : times x (if b then cs else []) = if b then times x cs else 0%nat.
Proof. by destruct b. Qed.
Lemma times_one x y : times x [y] = if decide (y = x) then 1%nat else 0%nat.
Proof. rewrite times_cons. change (times x []) with 0%nat. by destruct (decide (y = x)). Qed.

(** The call that takes back what another one did. *)
Definition undo (has_open has_close : Z -> bool) (x : call) : option call :=
  match x with
  | Get_file f => Some (Fput f)
  | Writecount_dec f => Some (Writecount_inc f)
  | I_mmap_add a => Some (I_mmap_del a)
  | Vm_open ops a => if eqb (has_open ops) (has_close ops) then Some (Vm_close ops a) else None
  | Copy_page_range _ => None
  | _ => None
  end.

(** Area by area, what the copy did is taken back. *)
Lemma area_undone has_open has_close s a x y : undo has_open has_close x = Some y ->
  times x (dup_calls has_open (ar s a) a) = (times y (unmap_calls s a) + times y (free_calls has_close s a))%nat.
Proof.
  intros Hu. unfold dup_calls, link_calls, unmap_calls, unlink_calls, free_calls.
  destruct x; simpl in Hu; try discriminate Hu; try (destruct (eqb _ _) eqn:He; [apply eqb_prop in He|discriminate Hu]); injection Hu as <-;
    repeat (rewrite ?times_app, ?times_if, ?times_one, ?times_cons); change (times _ []) with 0%nat;
    repeat (case_decide; simplify_eq); rewrite ?He; repeat case_match; done.
Qed.

Lemma times_flat_map {A} x y (f g h : A -> list call) l :
  (forall a, a ∈ l -> times x (f a) = (times y (g a) + times y (h a))%nat) ->
  times x (flat_map f l) = (times y (flat_map g l) + times y (flat_map h l))%nat.
Proof.
  induction l as [|a l IH]; intros H; [done|]. cbn [flat_map]. rewrite !times_app, H, IH; [lia| |left]. intros b Hb. apply H. by right.
Qed.
Lemma exit_balanced has_open has_close s l x y : undo has_open has_close x = Some y ->
  times x (flat_map (fun b => dup_calls has_open (ar s b) b) l) = times y (exit_calls has_close s l).
Proof.
  intros Hu. unfold exit_calls. rewrite !times_app, times_one.
  rewrite (times_flat_map x y _ (unmap_calls s) (free_calls has_close s)) by (intros a _; by eapply area_undone).
  rewrite decide_False; [lia|]. destruct x; simpl in Hu; try discriminate Hu; try (destruct (eqb _ _); [|discriminate Hu]); by injection Hu as <-.
Qed.
Lemma copies_freed has_open has_close s l a :
  times (Copy_page_range a) (flat_map (fun b => dup_calls has_open (ar s b) b) l) = times (Kmem_cache_free a) (exit_calls has_close s l).
Proof.
  unfold exit_calls. rewrite !times_app, times_one, decide_False by done.
  rewrite (times_flat_map _ (Kmem_cache_free a) _ (unmap_calls s) (free_calls has_close s)); [lia|]. intros b _.
  unfold dup_calls, link_calls, unmap_calls, unlink_calls, free_calls.
  repeat (rewrite ?times_app, ?times_if, ?times_one, ?times_cons); change (times _ []) with 0%nat;
    repeat (case_decide; simplify_eq); repeat case_match; done.
Qed.

(** C22. Whether a fork succeeds or fails half-way, the exit of the child finds a list that it can
    release without a fault, and takes back all that the fork did: as many references to each file
    are dropped as were taken, each area leaves the list of its file as often as it joined, writing
    is allowed as often as it was denied, each area that was opened is closed (if its operations
    have both), and each area that was allocated is freed. The child is left empty. *)
Theorem fork_undone has_open has_close copy_result parent l c news : Mm parent l -> fresh c [] news ->
  exists r c' s' done undone, dup_mmap has_open copy_result parent news c = Ok (r, c') /\ calls c' = calls c ++ done /\
    exit_mmap has_close c' = Ok (tt, s') /\ calls s' = calls c' ++ undone /\ mmap s' = 0 /\ map_count s' = 0 /\ total_vm s' = 0 /\
    (forall x y, undo has_open has_close x = Some y -> times x done = times y undone) /\
    (forall a, times (Copy_page_range a) done = times (Kmem_cache_free a) undone).
Proof.
  intros HM Hf. destruct (dup_correct has_open copy_result parent l c news HM Hf) as (r & c' & pl1 & pl2 & cl' & E & HC & HMc).
  assert (HL : Listed c' cl' /\ calls c' = calls c ++ flat_map (fun b => dup_calls has_open (ar c' b) b) cl').
  { destruct HC as [_ _ _ C4 _ C6 _ _ _ _]. destruct (decide (r = 0)) as [->|Hr]; [|done]. split; [by apply Mm_listed, HMc|done]. }
  destruct HL as [HL Hc]. exists r, c'. rewrite (exit_correct has_close c' cl' HL).
  eexists _, (flat_map (fun b => dup_calls has_open (ar c' b) b) cl'), (exit_calls has_close c' cl').
  split; [done|]. split; [done|]. split; [done|]. split_and!; try done; [by apply exit_balanced|by apply copies_freed].
Qed.

(** A child for the address space [sample_mm], with five areas that can be allocated. *)
Definition sample_child : mm_struct :=
  sample_mm <| mm_rb := mk_rb_state (list_to_map (map (fun a => (a, mk_rb_node 0 0 0 0)) [11; 12; 13; 14; 15])) 2 |>
    <| vmas := list_to_map (map (fun a => (a, no_area)) [11; 12; 13; 14; 15]) |>
    <| vm_next := list_to_map (map (fun a => (a, 0)) [11; 12; 13; 14; 15]) |>.
Lemma sample_fresh news : NoDup (filter (fun n => n <> 0) news) -> (forall n, n ∈ news -> n ∈ [0; 11; 12; 13; 14; 15]) -> fresh sample_child [] news.
Proof.
  intros Hnd Hin. split; [|done]. intros n [->|Hn]%Hin%elem_of_cons; [by left|right].
  split; [|by intros ?%elem_of_nil]. repeat (apply elem_of_cons in Hn as [->|Hn]; [split_and!; [done|by eexists..]|]). by apply elem_of_nil in Hn.
Qed.

Lemma fork_exact_witness :
  exists r c' pl1 pl2 cl', dup_mmap (fun _ => true) (fun _ => 0) sample_mm [11; 12; 13; 14; 15] sample_child = Ok (r, c') /\
    filter (kept sample_mm) sample_areas = pl1 ++ pl2 /\ Forall2 (fun a b => ar c' b = copy_area (ar sample_mm a)) pl1 cl' /\
    calls c' = calls sample_child ++ flat_map (fun b => dup_calls (fun _ => true) (ar c' b) b) cl' /\ locked_vm c' = 0 /\
    total_vm c' = total_vm sample_child /\ brk c' = brk sample_child /\ def_flags c' = def_flags sample_child /\
    ((r = 0 /\ pl2 = [] /\ Mm c' cl' /\
      forall x w, mapped_as c' cl' x w <-> exists w0, mapped_as sample_mm sample_areas x w0 /\ w0.1.1 .& VM_DONTCOPY = 0 /\ w = unlocked w0) \/
     (r <> 0 /\ Listed c' cl' /\
      ((exists b, b ∈ cl' /\ 0 = r) \/ (r = - ENOMEM /\ nth (length cl') [11; 12; 13; 14; 15] 0 = 0)))).
Proof.
  apply (fork_exact (fun _ => true) (fun _ => 0) sample_mm sample_areas sample_child [11; 12; 13; 14; 15] sample_mm_ok).
  apply sample_fresh; [decide_now|]. intros n Hn. by right.
Defined.

(** The third area cannot be allocated. *)
Lemma fork_undone_witness :
  exists r c' s' done undone, dup_mmap (fun _ => true) (fun _ => 0) sample_mm [11; 12; 0] sample_child = Ok (r, c') /\ calls c' = calls sample_child ++ done /\
    exit_mmap (fun _ => true) c' = Ok (tt, s') /\ calls s' = calls c' ++ undone /\ mmap s' = 0 /\ map_count s' = 0 /\ total_vm s' = 0 /\
    (forall x y, undo (fun _ => true) (fun _ => true) x = Some y -> times x done = times y undone) /\
    (forall a, times (Copy_page_range a) done = times (Kmem_cache_free a) undone).
Proof.
  apply (fork_undone (fun _ => true) (fun _ => true) (fun _ => 0) sample_mm sample_areas sample_child [11; 12; 0] sample_mm_ok).
  apply sample_fresh; [decide_now|]. intros n Hn. set_solver.
Defined.

(** The size of the address space is copied with the struct, and is not reduced for the areas that are
    not copied: the child is charged for pages that it does not have. *)
Lemma fork_counts_uncopied :
  let parent := sample_mm <| vmas := alter (fun v => v <| vm_flags := vm_flags v .| VM_DONTCOPY |>) 4 (vmas sample_mm) |> in
  exists c', dup_mmap (fun _ => true) (fun _ => 0) parent [11; 12; 13] sample_child = Ok (0, c') /\
    linked (vm_next c') (mmap c') [11; 12; 13] /\ total_vm c' = 8 /\ bytes c' [11; 12; 13] = 6 * PAGE_SIZE.
Proof. eexists. split; [vm_compute; reflexivity|]. split; [|done]. repeat (split; [done|eexists; split; [done|]]). done. Qed.

(** ** Growth of the stack *)
Section Extend.
Context (rlim_stack rlim_as : Z).

(** The area [a] of [l1 ++ a :: l2] grows down to [addr]. *)
Lemma grow_correct s l1 a l2 addr : Mm s (l1 ++ a :: l2) -> Forall (low s addr) l1 -> 0 <= addr -> (PAGE_SIZE | addr) -> addr < vm_start (ar s a) ->
  exists r s', expand_stack rlim_stack rlim_as a addr s = Ok (r, s') /\
    ((r = - ENOMEM /\ s' = s) \/
     (r = 0 /\ Mm s' (l1 ++ a :: l2) /\ vm_end (ar s a) - addr <= rlim_stack /\
      ar s' a = (ar s a) <| vm_start := addr |> <| vm_pgoff := u32 (vm_pgoff (ar s a) - (vm_start (ar s a) - addr) / PAGE_SIZE) |> /\
      (forall b, b <> a -> ar s' b = ar s b) /\ total_vm s' = u32 (total_vm s + (vm_start (ar s a) - addr) / PAGE_SIZE) /\
      brk s' = brk s /\ calls s' = calls s)).
Proof using.
  intros HM Hlow H0 Hal Hlt. unfold expand_stack. destruct (mm_areas _ _ (mm_ok _ _ HM) a (elem_mid _ _ _)) as [Ha Hok].
  pose proof Hok as (O1 & O2 & O3 & O4 & O5). cbv zeta.
  assert (Hmask : addr .& PAGE_MASK = addr) by (rewrite page_mask; destruct Hal as [k ->]; by rewrite Z.div_mul).
  rewrite Hmask. do 2 runV. rewrite (bindV _ (mm_get total_vm) _ _ _ eq_refl).
  assert (Hg : u32 (vm_start (ar s a) - addr) .>> PAGE_SHIFT = (vm_start (ar s a) - addr) / PAGE_SIZE).
  { rewrite u32_id by lia. by rewrite Z.shiftr_div_pow2. }
  rewrite Hg, (u32_id (vm_end (ar s a) - addr)) by lia. set (grow := (vm_start (ar s a) - addr) / PAGE_SIZE).
  destruct (Z.ltb_spec rlim_stack (vm_end (ar s a) - addr)) as [|Hst]; cbn [orb]; [eexists _, s; split; [done|by left]|].
  destruct (Z.ltb rlim_as _); [eexists _, s; split; [done|by left]|].
  set (va := (ar s a) <| vm_start := addr |> <| vm_pgoff := u32 (vm_pgoff (ar s a) - grow) |>).
  rewrite (bindV _ _ _ _ _ (vma_set_ok s a _ Ha)). fold va. set (s1 := with_vmas s (<[a := va]> (vmas s))).
  set (s2 := s1 <| total_vm := u32 (total_vm s + grow) |>). erewrite (bindV _ (mm_set _) s1 tt s2) by reflexivity.
  assert (Ea : vmas s2 !! a = Some va) by apply lookup_insert_eq. rewrite (bindV _ _ _ _ _ (get_area s2 a va vm_flags Ea)).
  assert (HA1 : Areas s1 (l1 ++ a :: l2)).
  { destruct (sorted_split _ _ (mm_ok _ _ HM) _ _ _ eq_refl) as [_ Hs]. rewrite Forall_forall in Hlow, Hs.
    apply areas_resize; [apply HM| |exact Hlow|exact Hs]. split_and!; try done. change (addr < vm_end (ar s a)). lia. }
  assert (Hq : exists s', whenV (truth (vm_flags va .& VM_LOCKED)) (mm_set (fun s => s <| locked_vm := u32 (locked_vm s + grow) |>)) s2 = Ok (tt, s') /\
    quiet s2 s' /\ calls s' = calls s2) by (destruct (truth _); eexists; split; try done).
  destruct Hq as (s' & E & Q & Hcalls). rewrite (bindV _ _ _ _ _ E). exists 0, s'. split; [done|]. right.
  assert (Ear : forall b, ar s' b = ar s1 b) by (intros b; by rewrite (quiet_ar _ _ Q)).
  assert (HM' : Mm s' (l1 ++ a :: l2)).
  { apply (quiet_mm s2 s' _ Q). constructor; [|apply HM|apply HM]. eapply areas_ext; [..|exact HA1]; done. }
  apply quiet_fields in Q as (_ & _ & _ & _ & _ & _ & Q). split_and!; try done; try apply Q.
  - rewrite Ear. unfold s1. by rewrite ar_insert, decide_True.
  - intros b Hb. rewrite Ear. unfold s1. by rewrite ar_insert_ne.
Qed.

(** The addresses that an area had keep what they had. *)
Lemma grown_attr v addr x : (PAGE_SIZE | vm_start v) -> (PAGE_SIZE | addr) -> addr <= vm_start v -> 
  attr (v <| vm_start := addr |> <| vm_pgoff := u32 (vm_pgoff v - (vm_start v - addr) / PAGE_SIZE) |>) x = attr v x.
Proof using.
  intros [k Hk] [j Hj] Hle. unfold attr, update. cbn. destruct (truth (vm_file v)); [|done]. f_equal.
  rewrite !Z.shiftr_div_pow2 by done. change (2 ^ PAGE_SHIFT) with 4096. change PAGE_SIZE with 4096 in *. unfold u32.
  rewrite Z.add_mod_idemp_l by done. f_equal. rewrite Hk, Hj, <- Z.mul_sub_distr_r, Z.div_mul by done.
  replace (x - j * 4096) with (x - k * 4096 + (k - j) * 4096) by lia. rewrite Z.div_add by done. lia.
Qed.

(** [find_extend_vma] never faults, and looks at the page of the address. If it returns no area,
    nothing is mapped there and only the cache of the last area found changes. Else it returns the
    area that covers the page, or an area marked [VM_GROWSDOWN] that starts after it, with nothing
    mapped in between, and extends it down to the page, within the limit of the stack: what was
    mapped keeps its flags and its page of the file, and the new addresses continue the area
    downwards; they are added to the pages in use. *)
Theorem extend_exact s l addr : Mm s l -> 0 <= addr < 4294967296 ->
  let page := addr .& PAGE_MASK in
  exists r s', find_extend_vma rlim_stack rlim_as addr s = Ok (r, s') /\ Mm s' l /\ brk s' = brk s /\
    ((r = 0 /\ (forall w, ~ mapped_as s l page w) /\ cached s s') \/
     (r ∈ l /\ covers (ar s r) page /\ cached s s') \/
     (r ∈ l /\ vm_flags (ar s r) .& VM_GROWSDOWN <> 0 /\ page < vm_start (ar s r) /\ vm_end (ar s r) - page <= rlim_stack /\
      (forall x w, page <= x < vm_start (ar s r) -> ~ mapped_as s l x w) /\
      total_vm s' = u32 (total_vm s + (vm_start (ar s r) - page) / PAGE_SIZE) /\
      forall x w, mapped_as s' l x w <-> mapped_as s l x w \/ (page <= x < vm_start (ar s r) /\ w = attr (ar s r) x))).
Proof using.
  intros HM Haddr page. unfold find_extend_vma. fold page. cbv zeta.
  assert (Hp : 0 <= page /\ (PAGE_SIZE | page)).
  { unfold page. rewrite page_mask. split; [|by exists (addr / PAGE_SIZE)]. unfold PAGE_SIZE. pose proof (Z.div_pos addr 4096). lia. }
  destruct Hp as [Hp0 Hpal].
  destruct (find_vma_split s l page HM) as (l1 & l2 & s1 & (El & Hlow & Hhigh) & E & Hc & HM1).
  rewrite (bindV _ _ _ _ _ E). pose proof (cached_ar _ _ Hc) as Ear. assert (Hbrk : brk s1 = brk s) by (by rewrite Hc).
  destruct l2 as [|a l2].
  { cbn [hd0 hd]. change (negb (truth 0)) with true. cbv iota. exists 0, s1. split_and!; try done. left. split_and!; try done.
    intros w. rewrite El. apply hole; [rewrite <- El; apply HM|done|by left]. }
  cbn [hd0 hd]. subst l. rewrite truth_nz by (eapply Areas_nonzero; [apply HM1|apply elem_mid]). cbn [negb].
  destruct (mm_areas _ _ (mm_ok _ _ HM1) a (elem_mid _ _ _)) as [Ha Hok]. runV. rewrite Ear in *.
  rewrite Forall_cons in Hhigh. destruct Hhigh as [Hhigh _]. unfold high in Hhigh.
  destruct (Z.leb_spec (vm_start (ar s a)) page) as [Hin|Hbelow].
  { exists a, s1. split_and!; try done. right; left. split_and!; [apply elem_mid|unfold covers; lia|done]. }
  assert (Hhole : forall x w, page <= x < vm_start (ar s a) -> ~ mapped_as s (l1 ++ a :: l2) x w).
  { intros x w Hx. apply hole; [apply HM|eapply low_mono; [|exact Hlow]; lia|right; cbn; lia]. }
  assert (Hnone : exists r s', (mret 0 : V Z) s1 = Ok (r, s') /\ Mm s' (l1 ++ a :: l2) /\ brk s' = brk s /\
    (r = 0 /\ (forall w, ~ mapped_as s (l1 ++ a :: l2) page w) /\ cached s s')).
  { exists 0, s1. split_and!; try done. intros w. apply Hhole. lia. }
  runV. rewrite Ear. unfold truth at 1. destruct (Z.eqb_spec (vm_flags (ar s a) .& VM_GROWSDOWN) 0) as [_|Hdown]; cbn [negb].
  { destruct Hnone as (r & s' & E' & H1 & H2 & H3). exists r, s'. split_and!; try done. by left. }
  assert (Hlow1 : Forall (low s1 page) l1) by (unfold low; by rewrite Ear).
  destruct (grow_correct s1 l1 a l2 page HM1 Hlow1 Hp0 Hpal) as (r & s2 & Eg & HR); [by rewrite Ear|].
  rewrite (bindV _ _ _ _ _ Eg). destruct HR as [[-> ->]|(-> & HM2 & Hlim & Har & Hoth & Htot & Hbrk2 & _)].
  { change (truth (- ENOMEM)) with true. cbv iota. destruct Hnone as (r & s' & E' & H1 & H2 & H3). exists r, s'. split_and!; try done. by left. }
  change (truth 0) with false. cbv iota. pose proof (area_of _ _ (mm_ok _ _ HM2) a (elem_mid _ _ _)) as Ha2. runV. runQ s3 Q.
  rewrite Ear in *. assert (Htot1 : total_vm s1 = total_vm s) by (by rewrite Hc). pose proof (quiet_mm _ _ _ Q HM2) as HM3.
  pose proof (quiet_ar _ _ Q) as Ear3. apply quiet_fields in Q as (_ & _ & _ & _ & _ & _ & Q1 & Q2 & _).
  exists a, s3. split_and!; [done|done|congruence|]. right; right.
  split_and!; [apply elem_mid|done|lia|done|done|by rewrite Q1, Htot, Htot1|].
  destruct Hok as (_ & O2 & _ & O4 & _). intros x w. rewrite !mapped_middle, Ear3, Har, grown_attr by (done || lia).
  rewrite (mapped_ext s s3); [|intros b Hb; rewrite Ear3, Hoth; [done|]]; cycle 1.
  { intros ->. destruct (nodup_out _ _ _ _ (mm_ok _ _ HM)). apply elem_of_app in Hb as [?|?]; done. }
  unfold covers, update. cbn. split.
  - intros [[Hx ->]|H]; [|by left; right]. destruct (Z.lt_ge_cases x (vm_start (ar s a))); [right; split; [lia|done]|left; left; split; [lia|done]].
  - intros [[[Hx ->]|H]|[Hx ->]]; [left; split; [lia|done]|by right|left; split; [lia|done]].
Qed.
End Extend.

(** The private mapping at 0x40000000 of [sample_mm] as a stack, that grows by two pages. *)
Definition sample_stack : mm_struct :=
  sample_mm <| vmas := alter (fun v => v <| vm_flags := vm_flags v .| VM_GROWSDOWN |>) 4 (vmas sample_mm) |>.
Lemma sample_stack_ok : Mm sample_stack sample_areas.
Proof.
  destruct sample_mm_ok as [[A1 A2 A3 A4] ? ?].
  assert (Hb : forall a, vm_start (ar sample_stack a) = vm_start (ar sample_mm a) /\ vm_end (ar sample_stack a) = vm_end (ar sample_mm a)).
  { intros a. unfold ar, sample_stack, update. cbn [vmas]. rewrite lookup_alter. case_decide; [subst a; by vm_compute|done]. }
  constructor; [constructor|done|done]; try done.
  - intros a Ha. destruct (A3 a Ha) as [H1 H2]. destruct (Hb a) as [E1 E2]. split.
    + unfold sample_stack, update. cbn [vmas]. rewrite lookup_alter. case_decide; [subst a; by eexists|done].
    + unfold area_ok in *. by rewrite E1, E2.
  - eapply StronglySorted_impl_in; [|exact A4]. intros x y _ _. unfold below. destruct (Hb x) as [_ ->]. by destruct (Hb y) as [-> _].
Qed.
Lemma extend_exact_witness :
  let page := 0x3fffe010 .& PAGE_MASK in
  exists r s', find_extend_vma 0x800000 0x10000000 0x3fffe010 sample_stack = Ok (r, s') /\ Mm s' sample_areas /\ brk s' = brk sample_stack /\
    ((r = 0 /\ (forall w, ~ mapped_as sample_stack sample_areas page w) /\ cached sample_stack s') \/
     (r ∈ sample_areas /\ covers (ar sample_stack r) page /\ cached sample_stack s') \/
     (r ∈ sample_areas /\ vm_flags (ar sample_stack r) .& VM_GROWSDOWN <> 0 /\ page < vm_start (ar sample_stack r) /\
      vm_end (ar sample_stack r) - page <= 0x800000 /\
      (forall x w, page <= x < vm_start (ar sample_stack r) -> ~ mapped_as sample_stack sample_areas x w) /\
      total_vm s' = u32 (total_vm sample_stack + (vm_start (ar sample_stack r) - page) / PAGE_SIZE) /\
      forall x w, mapped_as s' sample_areas x w <->
        mapped_as sample_stack sample_areas x w \/ (page <= x < vm_start (ar sample_stack r) /\ w = attr (ar sample_stack r) x))).
Proof. apply (extend_exact 0x800000 0x10000000 sample_stack sample_areas 0x3fffe010 sample_stack_ok). lia. Defined.
