(* ===== verification/SigQueue.v ===== *)
(** Sets of signals and the queues of pending signals: include/linux/signal.h, [ffz] of
    include/asm-arm/bitops.h, [siginfo_t] of include/asm-arm/siginfo.h, and the functions of
    kernel/signal.c that work on a [struct sigpending].

    A queue is a chain of nodes on a heap, [nodes], that all tasks share; [tail] is the place where
    the next node is linked: the field [head] or the field [next] of the last node. The sets have
    two words of 32 bits (_NSIG_WORDS is 2). Access to an address that is no node is [Bug]. *)
From S2P Require Import Prelude Task.

(** ** Sets of signals *)
Definition _NSIG : Z := 64.
Definition _NSIG_BPW : Z := 32.
Definition SIGRTMIN : Z := 32.

Record sigset_t := Sigset { sig0 : Z; sig1 : Z }.
#[export] Instance sigset_fields : Fields sigset_t := fun s => Sigset (sig0 s) (sig1 s).
#[export] Instance sigset_eq_dec : EqDecision sigset_t.
Proof. solve_decision. Defined.

(** [set->sig[i]] *)
Definition word (s : sigset_t) (i : Z) : Z := if i =? 0 then sig0 s else sig1 s.
Definition set_word (s : sigset_t) (i v : Z) : sigset_t :=
  if i =? 0 then s <| sig0 := v |> else s <| sig1 := v |>.
Definition not32 (x : Z) : Z := u32 (Z.lnot x).
(** [1UL << n] *)
Definition bit (n : Z) : Z := u32 (1 .<< n).

Definition sigaddset (s : sigset_t) (_sig : Z) : sigset_t :=
  let sig := u32 (_sig - 1) in
  set_word s (sig / _NSIG_BPW) (word s (sig / _NSIG_BPW) .| bit (sig mod _NSIG_BPW)).
Definition sigdelset (s : sigset_t) (_sig : Z) : sigset_t :=
  let sig := u32 (_sig - 1) in
  set_word s (sig / _NSIG_BPW) (word s (sig / _NSIG_BPW) .& not32 (bit (sig mod _NSIG_BPW))).
Definition sigismember (s : sigset_t) (_sig : Z) : bool :=
  let sig := u32 (_sig - 1) in
  truth (1 .& (word s (sig / _NSIG_BPW) .>> (sig mod _NSIG_BPW))).
Definition sigmask (sig : Z) : Z := bit (sig - 1).

Definition sig_set_binop (op : Z -> Z -> Z) (a b : sigset_t) : sigset_t :=
  Sigset (op (sig0 a) (sig0 b)) (op (sig1 a) (sig1 b)).
Definition sigorsets : sigset_t -> sigset_t -> sigset_t := sig_set_binop Z.lor.
Definition sigandsets : sigset_t -> sigset_t -> sigset_t := sig_set_binop Z.land.
Definition signandsets : sigset_t -> sigset_t -> sigset_t := sig_set_binop (fun x y => x .& not32 y).
Definition signotset (s : sigset_t) : sigset_t := Sigset (not32 (sig0 s)) (not32 (sig1 s)).
Definition sigemptyset : sigset_t := Sigset 0 0.
Definition sigfillset : sigset_t := Sigset (not32 0) (not32 0).
Definition sigaddsetmask (s : sigset_t) (mask : Z) : sigset_t := s <| sig0 := sig0 s .| mask |>.
Definition sigdelsetmask (s : sigset_t) (mask : Z) : sigset_t := s <| sig0 := sig0 s .& not32 mask |>.
Definition siginitset (mask : Z) : sigset_t := Sigset mask 0.

(** One line of [ffz]: [if (word & mask) { k -= n; word <<= n; }] *)
Definition ffz_step (mask n : Z) (kw : Z * Z) : Z * Z :=
  let '(k, word) := kw in if truth (word .& mask) then (k - n, u32 (word .<< n)) else (k, word).
Definition ffz (word : Z) : Z :=
  let word := not32 word in
  let kw := (31, word) in
  let kw := ffz_step 0x0000ffff 16 kw in
  let kw := ffz_step 0x00ff0000 8 kw in
  let kw := ffz_step 0x0f000000 4 kw in
  let kw := ffz_step 0x30000000 2 kw in
  let kw := ffz_step 0x40000000 1 kw in
  fst kw.

Definition has_pending_signals (signal blocked : sigset_t) : bool :=
  let ready := sig1 signal .& not32 (sig1 blocked) in
  let ready := ready .| (sig0 signal .& not32 (sig0 blocked)) in
  truth ready.

(** [next_signal] on the set of the pending signals. *)
Definition next_signal (s mask : sigset_t) : Z :=
  let x := sig0 s .& not32 (sig0 mask) in
  if truth x then 1 + ffz (not32 x)
  else
    let x := sig1 s .& not32 (sig1 mask) in
    if truth x then (_NSIG_BPW + 1) + ffz (not32 x) else 0.

(** ** What a signal carries *)

(** The union [_sifields] is its 29 words; its members lie over each other. *)
Definition SI_PAD_SIZE : Z := 128 / 4 - 3.
Record siginfo := Siginfo { si_signo : Z; si_errno : Z; si_code : Z; _sifields : list Z }.
#[export] Instance siginfo_fields : Fields siginfo := fun i =>
  Siginfo (si_signo i) (si_errno i) (si_code i) (_sifields i).
#[export] Instance siginfo_eq_dec : EqDecision siginfo.
Proof. solve_decision. Defined.

Definition set_field (n v : Z) (i : siginfo) : siginfo := i <| _sifields := set_at (_sifields i) n v |>.
Definition set_si_pid : Z -> siginfo -> siginfo := set_field 0.
Definition set_si_uid : Z -> siginfo -> siginfo := set_field 1.
Definition set_si_status : Z -> siginfo -> siginfo := set_field 2.
Definition set_si_utime : Z -> siginfo -> siginfo := set_field 3.
Definition set_si_stime : Z -> siginfo -> siginfo := set_field 4.
Definition si_pid (i : siginfo) : Z := get (_sifields i) 0.
Definition si_uid (i : siginfo) : Z := get (_sifields i) 1.

Definition SI_USER : Z := 0.
Definition SI_KERNEL : Z := 0x80.
Definition SI_TKILL : Z := -6.
Definition SI_FROMUSER (i : siginfo) : bool := si_code i <=? 0.

(** The five assignments that fill in a [siginfo] for a sender. *)
Definition fill_info (signo code pid uid : Z) (i : siginfo) : siginfo :=
  set_si_uid uid (set_si_pid pid (i <| si_signo := signo |> <| si_errno := 0 |> <| si_code := code |>)).

(** [memcpy] of the whole structure, or of its first words: [_sigchld] has five. *)
Definition copy_siginfo (to from : siginfo) : siginfo :=
  if si_code from <? 0 then from
  else Siginfo (si_signo from) (si_errno from) (si_code from)
         (take 5 (_sifields from) ++ drop 5 (_sifields to)).

(** The argument [struct siginfo *info] of the functions that send: 0, 1 or a structure. *)
Inductive info_arg := Info_user | Info_kernel | Info (i : siginfo).

(** ** The queues *)
Record sigqueue := Sigqueue { next : Z; info : siginfo }.
#[export] Instance sigqueue_fields : Fields sigqueue := fun q => Sigqueue (next q) (info q).

(** A [struct sigqueue **]: the field [head] of the list at hand, or a field [next]. *)
Inductive slot := Head | Next (q : Z).
#[export] Instance slot_eq_dec : EqDecision slot.
Proof. solve_decision. Defined.

Record sigpending := Sigpending { head : Z; tail : slot; signal : sigset_t }.
#[export] Instance sigpending_fields : Fields sigpending := fun s =>
  Sigpending (head s) (tail s) (signal s).
Definition init_sigpending : sigpending := Sigpending 0 Head sigemptyset.

(** The heap, the counter and the limit, the lists of the tasks by pid, and the answers that the
    slab allocator is going to give: an address and what the memory there contains. *)
Record store := Store {
  nodes : gmap Z sigqueue;
  nr_queued_signals : Z; max_queued_signals : Z;
  pendings : gmap Z sigpending;
  slab : list (option (Z * siginfo)) }.
#[export] Instance store_fields : Fields store := fun s =>
  Store (nodes s) (nr_queued_signals s) (max_queued_signals s) (pendings s) (slab s).

Definition Q (A : Type) : Type := store -> outcome (A * store).
#[export] Instance Q_ret : MRet Q := fun A a s => Ok (a, s).
#[export] Instance Q_bind : MBind Q := fun A B f m s =>
  match m s with Ok (a, s) => f a s | Bug => Bug end.

Definition fault {A} : Q A := fun _ => Bug.
Definition qgets {A} (f : store -> A) : Q A := fun s => Ok (f s, s).
Definition qmodify (f : store -> store) : Q unit := fun s => Ok (tt, f s).

Definition node (a : Z) : Q sigqueue := fun s =>
  match nodes s !! a with Some n => Ok (n, s) | None => Bug end.
Definition set_node (a : Z) (n : sigqueue) : Q unit := qmodify (fun s => s <| nodes := <[a := n]> (nodes s) |>).
Definition pending (p : Z) : Q sigpending := fun s =>
  match pendings s !! p with Some l => Ok (l, s) | None => Bug end.
Definition set_pending (p : Z) (l : sigpending) : Q unit :=
  qmodify (fun s => s <| pendings := <[p := l]> (pendings s) |>).
Definition atomic_add (n : Z) : Q unit :=
  qmodify (fun s => s <| nr_queued_signals := s32 (nr_queued_signals s + n) |>).

(** [*pp] and [*pp = v] *)
Definition load (p : Z) (pp : slot) : Q Z :=
  match pp with
  | Head => l ← pending p; mret (head l)
  | Next a => n ← node a; mret (next n)
  end.
Definition assign (p : Z) (pp : slot) (v : Z) : Q unit :=
  match pp with
  | Head => l ← pending p; set_pending p (l <| head := v |>)
  | Next a => n ← node a; set_node a (n <| next := v |>)
  end.

(** [kmem_cache_alloc(sigqueue_cachep, GFP_ATOMIC)]: an answer that is not a free object of the
    right size counts as a failure. *)
Definition usable (s : store) (a : Z) (i : siginfo) : bool :=
  negb (a =? 0) && bool_decide (nodes s !! a = None) && (len (_sifields i) =? SI_PAD_SIZE).
Definition kmem_cache_alloc : Q (option Z) := fun s =>
  match slab s with
  | [] => Ok (None, s)
  | r :: l =>
      let s := s <| slab := l |> in
      match r with
      | Some (a, i) =>
          if usable s a i then Ok (Some a, s <| nodes := <[a := Sigqueue 0 i]> (nodes s) |>) else Ok (None, s)
      | None => Ok (None, s)
      end
  end.
(** [kmem_cache_free] and [atomic_dec] *)
Definition kmem_cache_free (a : Z) : Q unit := qmodify (fun s => s <| nodes := delete a (nodes s) |>).
Definition free_node (q : Z) : Q unit := _ ← kmem_cache_free q; atomic_add (-1).

Definition sigdel (p sig : Z) : Q unit :=
  l ← pending p; set_pending p (l <| signal := sigdelset (signal l) sig |>).

(** A loop walks a chain of different nodes. *)
Definition fuel (s : store) : nat := S (S (size (nodes s))).

Fixpoint flush_loop (n : nat) (q : Z) : Q unit :=
  match n with
  | O => fault
  | S k =>
      if q =? 0 then mret tt
      else x ← node q; _ ← free_node q; flush_loop k (next x)
  end.
Definition flush_sigqueue (p : Z) : Q unit :=
  l ← pending p;
  _ ← set_pending p (Sigpending 0 Head sigemptyset);
  n ← qgets fuel; flush_loop n (head l).

(** [while ((q = *pp) != NULL) { if (q->info.si_signo == sig) goto ...; pp = &q->next; }]: where
    the loop is left, or the end of the list. *)
Fixpoint find_loop (n : nat) (p sig : Z) (pp : slot) : Q (option slot) :=
  match n with
  | O => fault
  | S k =>
      q ← load p pp;
      if q =? 0 then mret None
      else
        x ← node q;
        if si_signo (info x) =? sig then mret (Some pp) else find_loop k p sig (Next q)
  end.

(** [ *pp = q->next], and [list->tail = pp] when that is NULL. *)
Definition unlink_node (p : Z) (pp : slot) (x : sigqueue) : Q unit :=
  _ ← assign p pp (next x);
  if next x =? 0 then l ← pending p; set_pending p (l <| tail := pp |>) else mret tt.

Definition collect_signal (sig p : Z) (inf : siginfo) : Q (bool * siginfo) :=
  l ← pending p;
  if sigismember (signal l) sig then
    n ← qgets fuel;
    r ← find_loop n p sig Head;
    match r with
    | None => _ ← sigdel p sig; mret (true, fill_info sig 0 0 0 inf)
    | Some pp =>
        q ← load p pp;
        x ← node q;
        _ ← unlink_node p pp x;
        let inf := copy_siginfo inf (info x) in
        _ ← free_node q;
        r ← (if SIGRTMIN <=? sig then find_loop n p sig pp else mret None);
        match r with
        | Some _ => mret (true, inf)
        | None => _ ← sigdel p sig; mret (true, inf)
        end
    end
  else mret (false, inf).

Fixpoint rm_loop (n : nat) (p sig : Z) (pp : slot) : Q unit :=
  match n with
  | O => fault
  | S k =>
      q ← load p pp;
      if q =? 0 then mret tt
      else
        x ← node q;
        if si_signo (info x) =? sig then
          _ ← unlink_node p pp x; _ ← free_node q; rm_loop k p sig pp
        else rm_loop k p sig (Next q)
  end.
Definition rm_from_queue (sig p : Z) : Q bool :=
  l ← pending p;
  if negb (sigismember (signal l) sig) then mret false
  else
    _ ← sigdel p sig;
    n ← qgets fuel;
    _ ← rm_loop n p sig Head; mret true.

(** What the [switch] writes to the new node, for a sender with these numbers. *)
Definition queued_info (sig pid uid : Z) (a : info_arg) (i : siginfo) : siginfo :=
  match a with
  | Info_user => fill_info sig SI_USER pid uid i
  | Info_kernel => fill_info sig SI_KERNEL 0 0 i
  | Info j => copy_siginfo i j
  end.

(** [q->next = NULL; *signals->tail = q; signals->tail = &q->next;] *)
Definition link_node (p q : Z) : Q unit :=
  x ← node q;
  _ ← set_node q (x <| next := 0 |>);
  l ← pending p;
  _ ← assign p (tail l) q;
  l ← pending p;
  set_pending p (l <| tail := Next q |>).

(** The condition under which a signal that cannot be queued is refused. *)
Definition must_queue (sig : Z) (a : info_arg) : bool :=
  (SIGRTMIN <=? sig) && match a with Info i => negb (si_code i =? SI_USER) | _ => false end.

Definition send_signal (sig pid uid : Z) (a : info_arg) (p : Z) : Q Z :=
  room ← qgets (fun s => nr_queued_signals s <? max_queued_signals s);
  q ← (if (room : bool) then kmem_cache_alloc else mret None);
  let add : Q Z := l ← pending p; _ ← set_pending p (l <| signal := sigaddset (signal l) sig |>); mret 0 in
  match q with
  | Some q =>
      _ ← atomic_add 1;
      _ ← link_node p q;
      x ← node q;
      _ ← set_node q (x <| info := queued_info sig pid uid a (info x) |>);
      add
  | None => if must_queue sig a then mret (- EAGAIN) else add
  end.

(** ** Lemmas on sets *)
Definition is_word (x : Z) : Prop := 0 <= x < 2 ^ 32.
Definition wf_set (s : sigset_t) : Prop := is_word (sig0 s) /\ is_word (sig1 s).
Definition is_signal (n : Z) : Prop := 1 <= n <= _NSIG.

Lemma u32_testbit x n : 0 <= n < 32 -> Z.testbit (u32 x) n = Z.testbit x n.
Proof. intros H. unfold u32. change 4294967296 with (2 ^ 32). apply Z.mod_pow2_bits_low. lia. Qed.
Lemma not32_testbit x n : 0 <= n < 32 -> Z.testbit (not32 x) n = negb (Z.testbit x n).
Proof. intros H. unfold not32. rewrite u32_testbit, Z.lnot_spec by lia. done. Qed.
Lemma bit_testbit k n : 0 <= k < 32 -> 0 <= n < 32 -> Z.testbit (bit k) n = (n =? k).
Proof.
  intros Hk Hn. unfold bit. rewrite u32_testbit, Z.shiftl_mul_pow2, Z.mul_1_l by lia.
  destruct (Z.eqb_spec n k) as [->|]; [apply Z.pow2_bits_true; lia|]. apply Z.pow2_bits_false. lia.
Qed.
Lemma u32_word x : is_word (u32 x).
Proof. apply u32_range. Qed.
Lemma land_word x y : is_word x -> is_word (x .& y).
Proof.
  intros [H1 H2]. split.
  - apply Z.land_nonneg. by left.
  - destruct (Z.eq_dec (x .& y) 0) as [->|Hn]; [done|].
    assert (0 <= x .& y) by (apply Z.land_nonneg; by left).
    apply Z.log2_lt_pow2; [lia|]. destruct (Z.lt_ge_cases (Z.log2 (x .& y)) 32) as [|Hge]; [done|exfalso].
    pose proof (Z.bit_log2 (x .& y) ltac:(lia)) as Hb. rewrite Z.land_spec in Hb. apply andb_prop in Hb as [Hb _].
    rewrite (testbit_small x 32) in Hb; done.
Qed.
Lemma lor_word x y : is_word x -> is_word y -> is_word (x .| y).
Proof. intros. by apply lor_range. Qed.
Lemma word_eq x y : is_word x -> is_word y -> (forall n, 0 <= n < 32 -> Z.testbit x n = Z.testbit y n) -> x = y.
Proof. intros Hx Hy H. by apply (bits_ext 32). Qed.
Create HintDb sig.
#[export] Hint Resolve u32_word land_word lor_word : sig.

(** [sigismember] as a bit of a word. *)
Lemma member_bit s n : is_signal n ->
  sigismember s n = Z.testbit (word s ((n - 1) / 32)) ((n - 1) mod 32).
Proof.
  unfold is_signal, _NSIG. intros H. unfold sigismember, _NSIG_BPW. rewrite u32_id by lia.
  rewrite Z.land_comm. etransitivity; [apply (truth_testbit _ 0); lia|].
  rewrite Z.shiftr_spec by lia. by rewrite Z.add_0_l.
Qed.

Lemma sig_split n : is_signal n -> exists i j, (i = 0 \/ i = 1) /\ 0 <= j < 32 /\ (n - 1) / 32 = i /\ (n - 1) mod 32 = j /\ n = 32 * i + j + 1.
Proof. unfold is_signal, _NSIG. intros H. exists ((n - 1) / 32), ((n - 1) mod 32). split_and!; dm. Qed.
Lemma sig_u32 n : is_signal n -> u32 (n - 1) = n - 1.
Proof. unfold is_signal, _NSIG. intros. apply u32_id. lia. Qed.
Lemma word_set s i k v : i = 0 \/ i = 1 -> k = 0 \/ k = 1 -> word (set_word s i v) k = if k =? i then v else word s k.
Proof. intros [-> | ->] [-> | ->]; done. Qed.
Lemma word_word s i : wf_set s -> is_word (word s i).
Proof. unfold word. intros []. by case_cmp. Qed.
Lemma set_word_wf s i v : wf_set s -> is_word v -> wf_set (set_word s i v).
Proof. unfold set_word. intros [] ?. by case_cmp. Qed.
#[export] Hint Resolve word_word set_word_wf : sig.

Lemma member_add s n m : is_signal n -> is_signal m ->
  sigismember (sigaddset s n) m = (m =? n) || sigismember s m.
Proof.
  intros Hn Hm. rewrite !member_bit by done. unfold sigaddset, _NSIG_BPW. rewrite sig_u32 by done.
  destruct (sig_split n Hn) as (i & j & Hi & Hj & -> & -> & En), (sig_split m Hm) as (i' & j' & Hi' & Hj' & -> & -> & Em).
  rewrite word_set by done. destruct (Z.eqb_spec i' i) as [->|].
  - rewrite Z.lor_spec, bit_testbit by done. rewrite orb_comm. do 2 case_cmp; try done; lia.
  - case_cmp; [lia|done].
Qed.
Lemma member_del s n m : is_signal n -> is_signal m ->
  sigismember (sigdelset s n) m = negb (m =? n) && sigismember s m.
Proof.
  intros Hn Hm. rewrite !member_bit by done. unfold sigdelset, _NSIG_BPW. rewrite sig_u32 by done.
  destruct (sig_split n Hn) as (i & j & Hi & Hj & -> & -> & En), (sig_split m Hm) as (i' & j' & Hi' & Hj' & -> & -> & Em).
  rewrite word_set by done. destruct (Z.eqb_spec i' i) as [->|].
  - rewrite Z.land_spec, not32_testbit, bit_testbit by done. rewrite andb_comm. do 2 case_cmp; try done; lia.
  - case_cmp; [lia|done].
Qed.
Lemma member_empty n : is_signal n -> sigismember sigemptyset n = false.
Proof. intros H. rewrite member_bit by done. unfold word. case_cmp; apply Z.bits_0. Qed.
Lemma member_binop op f a b n :
  (forall x y k, 0 <= k < 32 -> Z.testbit (op x y) k = f (Z.testbit x k) (Z.testbit y k)) -> is_signal n ->
  sigismember (sig_set_binop op a b) n = f (sigismember a n) (sigismember b n).
Proof.
  intros Hop H. rewrite !member_bit by done. destruct (sig_split n H) as (i & j & [-> | ->] & Hj & -> & -> & _); by apply Hop.
Qed.
Lemma member_or a b n : is_signal n -> sigismember (sigorsets a b) n = sigismember a n || sigismember b n.
Proof. intros H. apply (member_binop _ orb); [|done]. intros. apply Z.lor_spec. Qed.
Lemma member_and a b n : is_signal n -> sigismember (sigandsets a b) n = sigismember a n && sigismember b n.
Proof. intros H. apply (member_binop _ andb); [|done]. intros. apply Z.land_spec. Qed.
Lemma member_nand a b n : is_signal n -> sigismember (signandsets a b) n = sigismember a n && negb (sigismember b n).
Proof.
  intros H. apply (member_binop _ (fun x y => x && negb y)); [|done]. intros. by rewrite Z.land_spec, not32_testbit.
Qed.
Lemma member_not a n : is_signal n -> sigismember (signotset a) n = negb (sigismember a n).
Proof.
  intros H. rewrite !member_bit by done. destruct (sig_split n H) as (i & j & [-> | ->] & Hj & -> & -> & _); by apply not32_testbit.
Qed.
(** Only the first 32 signals have a bit in a mask. *)
Lemma member_low s n : 1 <= n <= 32 -> sigismember s n = Z.testbit (sig0 s) (n - 1).
Proof.
  intros H. rewrite member_bit by (unfold is_signal, _NSIG; lia).
  replace ((n - 1) / 32) with 0 by dm. by replace ((n - 1) mod 32) with (n - 1) by dm.
Qed.
Lemma member_high s n : 33 <= n <= 64 -> sigismember s n = Z.testbit (sig1 s) (n - 33).
Proof.
  intros H. rewrite member_bit by (unfold is_signal, _NSIG; lia).
  replace ((n - 1) / 32) with 1 by dm. by replace ((n - 1) mod 32) with (n - 33) by dm.
Qed.
#[export] Hint Rewrite member_add member_del member_empty member_or member_and member_nand member_not using done : sig.

Lemma sigadd_wf s n : wf_set s -> wf_set (sigaddset s n).
Proof. unfold sigaddset, bit. auto 6 with sig. Qed.
Lemma sigdel_wf s n : wf_set s -> wf_set (sigdelset s n).
Proof. unfold sigdelset. auto 6 with sig. Qed.
Lemma empty_wf : wf_set sigemptyset.
Proof. by split. Qed.
Lemma or_wf a b : wf_set a -> wf_set b -> wf_set (sigorsets a b).
Proof. intros [] []. split; cbn; auto with sig. Qed.
Lemma and_wf a b : wf_set a -> wf_set (sigandsets a b).
Proof. intros []. split; cbn; auto with sig. Qed.
Lemma nand_wf a b : wf_set a -> wf_set (signandsets a b).
Proof. intros []. split; cbn; auto with sig. Qed.
Lemma not_wf a : wf_set (signotset a).
Proof. split; cbn; apply u32_word. Qed.
Lemma delmask_wf a m : wf_set a -> wf_set (sigdelsetmask a m).
Proof. intros []. split; cbn; auto with sig. Qed.
Lemma addmask_wf a m : wf_set a -> is_word m -> wf_set (sigaddsetmask a m).
Proof. intros []. split; cbn; auto with sig. Qed.
#[export] Hint Resolve sigadd_wf sigdel_wf empty_wf or_wf and_wf nand_wf not_wf delmask_wf addmask_wf : sig.

(** Sets are equal when they have the same members. *)
Lemma set_ext a b : wf_set a -> wf_set b -> (forall n, is_signal n -> sigismember a n = sigismember b n) -> a = b.
Proof.
  intros [Ha0 Ha1] [Hb0 Hb1] H. destruct a as [a0 a1], b as [b0 b1]. cbn in *. f_equal; apply word_eq; try done; intros n Hn.
  - specialize (H (n + 1)). rewrite !member_low in H by lia. cbn in H. replace (n + 1 - 1) with n in H by lia. apply H. unfold is_signal, _NSIG. lia.
  - specialize (H (n + 33)). rewrite !member_high in H by lia. cbn in H. replace (n + 33 - 33) with n in H by lia. apply H. unfold is_signal, _NSIG. lia.
Qed.

(** *** The first bit of a word *)

(** [b] is the lowest bit that is set in [w]. *)
Definition lowest (w b : Z) : Prop := 0 <= b < 32 /\ Z.testbit w b = true /\ forall k, 0 <= k < b -> Z.testbit w k = false.

Lemma lowest_exists w : is_word w -> w <> 0 -> exists b, lowest w b.
Proof.
  intros Hw Hn.
  assert (Hall : forall m, (m <= 32)%nat -> (exists b, lowest w b) \/ forall k, 0 <= k < Z.of_nat m -> Z.testbit w k = false).
  { induction m as [|m IH]; intros Hm; [right; lia|]. destruct IH as [|IH]; [lia|by left|].
    destruct (Z.testbit w (Z.of_nat m)) eqn:E.
    - left. exists (Z.of_nat m). split_and!; try lia; try done.
    - right. intros k Hk. destruct (Z.eq_dec k (Z.of_nat m)) as [->|]; [done|]. apply IH. lia. }
  destruct (Hall 32%nat ltac:(lia)) as [|H]; [done|]. destruct Hn. apply word_eq; [done|by split|].
  intros n Hn. rewrite Z.bits_0. apply H. lia.
Qed.

Lemma mask_bits lo hi i : 0 <= lo <= hi -> 0 <= i -> Z.testbit (Z.ones (hi - lo) .<< lo) i = (lo <=? i) && (i <? hi).
Proof.
  intros H Hi. rewrite Z.shiftl_spec by done. destruct (Z.leb_spec lo i); cbn.
  - destruct (Z.ltb_spec i hi); [apply Z.ones_spec_low; lia|apply Z.ones_spec_high; lia].
  - apply Z.testbit_neg_r. lia.
Qed.

(** One step: the lowest bit, known to be at least [lo], is moved to at least [hi]. *)
Lemma ffz_step_ok mask lo hi n k w b :
  mask = Z.ones (hi - lo) .<< lo -> 0 <= lo <= hi -> hi <= 32 -> n = hi - lo -> hi = 32 - n ->
  lowest w b -> lo <= b ->
  exists k' w' b', ffz_step mask n (k, w) = (k', w') /\ lowest w' b' /\ hi <= b' /\ k' + b' = k + b.
Proof.
  intros -> H1 H2 Hn H3 (Hb & Ht & Hlow) Hlo. unfold ffz_step.
  destruct (truth (w .& (Z.ones (hi - lo) .<< lo))) eqn:E.
  - assert (Hbh : b < hi).
    { apply Znot_ge_lt. intros Hge. unfold truth in E. apply negb_true_iff, Z.eqb_neq in E. apply E.
      apply Z.bits_inj'. intros i Hi. rewrite Z.land_spec, mask_bits, Z.bits_0 by done.
      destruct (Z.leb_spec lo i), (Z.ltb_spec i hi); rewrite ?andb_false_r; try done. rewrite Hlow by lia. done. }
    exists (k - n), (u32 (w .<< n)), (b + n). split_and!; try done; try lia. split_and!; try lia.
    + rewrite u32_testbit, Z.shiftl_spec by lia. by replace (b + n - n) with b by lia.
    + intros j Hj. rewrite u32_testbit, Z.shiftl_spec by lia.
      destruct (Z.lt_ge_cases j n); [apply Z.testbit_neg_r; lia|apply Hlow; lia].
  - exists k, w, b. split_and!; try done; try lia. apply Znot_gt_le. intros Hgt.
    unfold truth in E. apply negb_false_iff, Z.eqb_eq in E.
    apply (f_equal (fun z => Z.testbit z b)) in E. rewrite Z.land_spec, mask_bits, Ht, Z.bits_0 in E by lia.
    destruct (Z.leb_spec lo b), (Z.ltb_spec b hi); done || lia.
Qed.

Lemma not32_not32 x : is_word x -> not32 (not32 x) = x.
Proof.
  intros H. apply word_eq; [apply u32_word|done|]. intros n Hn. rewrite !not32_testbit by done. apply negb_involutive.
Qed.

Lemma ffz_correct x b : is_word x -> lowest x b -> ffz (not32 x) = b.
Proof.
  intros Hx Hb. unfold ffz. rewrite not32_not32 by done.
  destruct (ffz_step_ok 0x0000ffff 0 16 16 31 x b) as (k1 & w1 & b1 & -> & L1 & B1 & E1); try done; [destruct Hb; lia|].
  destruct (ffz_step_ok 0x00ff0000 16 24 8 k1 w1 b1) as (k2 & w2 & b2 & -> & L2 & B2 & E2); try done.
  destruct (ffz_step_ok 0x0f000000 24 28 4 k2 w2 b2) as (k3 & w3 & b3 & -> & L3 & B3 & E3); try done.
  destruct (ffz_step_ok 0x30000000 28 30 2 k3 w3 b3) as (k4 & w4 & b4 & -> & L4 & B4 & E4); try done.
  destruct (ffz_step_ok 0x40000000 30 31 1 k4 w4 b4) as (k5 & w5 & b5 & -> & L5 & B5 & E5); try done.
  cbn. destruct L5. lia.
Qed.

(** ** The next signal *)
Definition deliverable (s mask : sigset_t) (n : Z) : bool := sigismember s n && negb (sigismember mask n).

(** [next_signal] is 0 when no signal is deliverable, and otherwise the least deliverable one. *)
Definition is_next (s mask : sigset_t) (n : Z) : Prop :=
  (n = 0 /\ forall m, is_signal m -> deliverable s mask m = false)
  \/ (is_signal n /\ deliverable s mask n = true /\ forall m, 1 <= m < n -> deliverable s mask m = false).

Lemma truth_zero x : truth x = false <-> x = 0.
Proof. unfold truth. rewrite negb_false_iff. apply Z.eqb_eq. Qed.
Lemma truth_true x : truth x = true <-> x <> 0.
Proof. unfold truth. rewrite negb_true_iff. apply Z.eqb_neq. Qed.

Lemma deliverable_low s mask n : 1 <= n <= 32 -> deliverable s mask n = Z.testbit (sig0 s .& not32 (sig0 mask)) (n - 1).
Proof. intros H. unfold deliverable. rewrite !member_low, Z.land_spec, not32_testbit by lia. done. Qed.
Lemma deliverable_high s mask n : 33 <= n <= 64 -> deliverable s mask n = Z.testbit (sig1 s .& not32 (sig1 mask)) (n - 33).
Proof. intros H. unfold deliverable. rewrite !member_high, Z.land_spec, not32_testbit by lia. done. Qed.

Lemma next_signal_is_next s mask : wf_set s -> is_next s mask (next_signal s mask).
Proof.
  intros [H0 H1]. unfold next_signal, is_next, is_signal, _NSIG, _NSIG_BPW.
  assert (Hw0 : is_word (sig0 s .& not32 (sig0 mask))) by auto with sig.
  assert (Hw1 : is_word (sig1 s .& not32 (sig1 mask))) by auto with sig.
  destruct (truth _) eqn:E0.
  { right. apply truth_true in E0. destruct (lowest_exists _ Hw0 E0) as (b & Hb). rewrite (ffz_correct _ b) by done.
    destruct Hb as (Hr & Ht & Hl). split_and!; try lia.
    - rewrite deliverable_low by lia. by replace (1 + b - 1) with b by lia.
    - intros m Hm. rewrite deliverable_low by lia. apply Hl. lia. }
  apply truth_zero in E0.
  assert (Hlow : forall m, 1 <= m <= 32 -> deliverable s mask m = false).
  { intros m Hm. rewrite deliverable_low, E0 by lia. apply Z.bits_0. }
  destruct (truth (sig1 s .& _)) eqn:E1.
  { right. apply truth_true in E1. destruct (lowest_exists _ Hw1 E1) as (b & Hb). rewrite (ffz_correct _ b) by done.
    destruct Hb as (Hr & Ht & Hl). split_and!; try lia.
    - rewrite deliverable_high by lia. by replace (32 + 1 + b - 33) with b by lia.
    - intros m Hm. destruct (Z.le_gt_cases m 32); [apply Hlow; lia|]. rewrite deliverable_high by lia. apply Hl. lia. }
  left. apply truth_zero in E1. split; [done|]. intros m Hm.
  destruct (Z.le_gt_cases m 32); [apply Hlow; lia|]. rewrite deliverable_high, E1 by lia. apply Z.bits_0.
Qed.

Lemma next_unique s mask n m : is_next s mask n -> is_next s mask m -> n = m.
Proof.
  intros [[-> Hn]|(Hn & Hd & Hl)] [[-> Hm]|(Hm & Hd' & Hl')]; [done| | |].
  - specialize (Hn m Hm). congruence.
  - specialize (Hm n Hn). congruence.
  - destruct (Z.lt_trichotomy n m) as [?|[?|?]]; [|done|].
    + rewrite Hl' in Hd by (destruct Hn; lia). done.
    + rewrite Hl in Hd' by (destruct Hm; lia). done.
Qed.

Lemma has_pending_next s mask : wf_set s -> has_pending_signals s mask = negb (next_signal s mask =? 0).
Proof.
  intros Hw. pose proof (next_signal_is_next s mask Hw) as Hn. unfold has_pending_signals.
  destruct Hw as [H0 H1].
  assert (Hw : is_word ((sig1 s .& not32 (sig1 mask)) .| (sig0 s .& not32 (sig0 mask)))) by auto with sig.
  destruct Hn as [[-> Hn]|(Hn & Hd & _)].
  - cbn. apply truth_zero, word_eq; [done|by split|]. intros n Hr. rewrite Z.lor_spec, Z.bits_0.
    pose proof (Hn (n + 1)) as Ha. pose proof (Hn (n + 33)) as Hb. unfold is_signal, _NSIG in *.
    rewrite deliverable_low in Ha by lia. rewrite deliverable_high in Hb by lia.
    replace (n + 1 - 1) with n in Ha by lia. replace (n + 33 - 33) with n in Hb by lia. by rewrite Ha, Hb by lia.
  - destruct (Z.eqb_spec (next_signal s mask) 0) as [E|_]; [destruct Hn; lia|]. cbn. apply truth_true. intros E.
    set (n := next_signal s mask) in *. apply Z.lor_eq_0_iff in E as [E1 E0]. unfold is_signal, _NSIG in Hn.
    destruct (Z.le_gt_cases n 32).
    + rewrite deliverable_low, E0, Z.bits_0 in Hd by lia. done.
    + rewrite deliverable_high, E1, Z.bits_0 in Hd by lia. done.
Qed.

(** ** The shape of the queues *)

(** The nodes of a queue with their contents, in order; where it starts, and where a node that
    follows it is linked. *)
Notation entry := (Z * siginfo)%type.
Definition first (e : Z) (l : list entry) : Z := match l with [] => e | (q, _) :: _ => q end.
Definition lastslot (l : list entry) : slot := match last l with None => Head | Some (q, _) => Next q end.
Fixpoint seg (h : gmap Z sigqueue) (l : list entry) (e : Z) : Prop :=
  match l with
  | [] => True
  | (q, i) :: l' => q <> 0 /\ h !! q = Some (Sigqueue (first e l') i) /\ seg h l' e
  end.
Definition upd {A} (qs : Z -> A) (p : Z) (l : A) : Z -> A := fun x => if decide (x = p) then l else qs x.

Lemma upd_same {A} (qs : Z -> A) p l : upd qs p l p = l.
Proof. unfold upd. by rewrite decide_True. Qed.
Lemma upd_other {A} (qs : Z -> A) p l x : x <> p -> upd qs p l x = qs x.
Proof. intros H. unfold upd. by rewrite decide_False. Qed.

(** The queues [qs] of the tasks lie apart on the heap, every node belongs to one, and the counter
    counts them. *)
Record Queues (s : store) (qs : Z -> list entry) : Prop := {
  q_ends : forall p pd, pendings s !! p = Some pd -> head pd = first 0 (qs p) /\ tail pd = lastslot (qs p);
  q_none : forall p, pendings s !! p = None -> qs p = [];
  q_seg : forall p, seg (nodes s) (qs p) 0;
  q_nodup : forall p, NoDup (qs p).*1;
  q_apart : forall p p' a, a ∈ (qs p).*1 -> a ∈ (qs p').*1 -> p = p';
  q_owned : forall a, is_Some (nodes s !! a) -> exists p, a ∈ (qs p).*1;
  q_count : nr_queued_signals s = Z.of_nat (size (nodes s));
  q_small : Z.of_nat (size (nodes s)) < 2 ^ 31;
  q_limit : max_queued_signals s < 2 ^ 31
}.

Lemma first_app e l1 l2 : first e (l1 ++ l2) = first (first e l2) l1.
Proof. by destruct l1 as [|[]]. Qed.
Lemma seg_app h l1 l2 e : seg h (l1 ++ l2) e <-> seg h l1 (first e l2) /\ seg h l2 e.
Proof.
  induction l1 as [|[q i] l1 IH]; cbn; [tauto|]. rewrite first_app, IH. tauto.
Qed.
Lemma seg_ext h h' l e : (forall a, a ∈ l.*1 -> h' !! a = h !! a) -> seg h l e -> seg h' l e.
Proof.
  induction l as [|[q i] l IH]; cbn; [done|]. intros H (Hq & Hl & Hs). rewrite H by left.
  split_and!; [done|done|]. apply IH; [|done]. intros a Ha. apply H. by right.
Qed.
Lemma seg_nonzero h l e a : seg h l e -> a ∈ l.*1 -> a <> 0 /\ is_Some (h !! a).
Proof.
  induction l as [|[q i] l IH]; cbn; [by intros _ ?%elem_of_nil|].
  intros (Hq & Hl & Hs) [-> |]%elem_of_cons; [rewrite Hl; eauto|auto].
Qed.
Lemma lastslot_snoc l q i : lastslot (l ++ [(q, i)]) = Next q.
Proof. unfold lastslot. by rewrite last_snoc. Qed.
Lemma lastslot_app l1 l2 : l2 <> [] -> lastslot (l1 ++ l2) = lastslot l2.
Proof. intros H. unfold lastslot. rewrite last_app. destruct (last l2) eqn:E; [done|]. by apply last_None in E. Qed.

Lemma lastslot_cons x l : l <> [] -> lastslot (x :: l) = lastslot l.
Proof. apply (lastslot_app [x]). Qed.

(** The heap after a store to the place behind [l]. *)
Definition relink (h : gmap Z sigqueue) (l : list entry) (v : Z) : gmap Z sigqueue :=
  match last l with None => h | Some (q, i) => <[q := Sigqueue v i]> h end.

Lemma relink_seg h l e v : NoDup l.*1 -> seg h l e -> seg (relink h l v) l v.
Proof.
  destruct (last l) as [[q i]|] eqn:E; [|by apply last_None in E as ->].
  apply last_Some in E as [l' ->]. unfold relink. rewrite last_snoc, fmap_app, seg_app. cbn.
  intros (_ & Hd & _)%NoDup_app (H1 & Hq & _ & _). rewrite seg_app. cbn. split_and!; [|done|by rewrite lookup_insert_eq|done].
  eapply seg_ext; [|exact H1]. intros a Ha. apply lookup_insert_ne. intros ->. apply (Hd a Ha). by left.
Qed.
Lemma relink_other h l v a : a ∉ l.*1 -> relink h l v !! a = h !! a.
Proof.
  intros H. unfold relink. destruct (last l) as [[q i]|] eqn:E; [|done]. apply lookup_insert_ne. intros ->. apply H.
  apply last_Some in E as [l' ->]. rewrite fmap_app. apply elem_of_app. right. by left.
Qed.
Lemma relink_some h l e v a : seg h l e -> is_Some (relink h l v !! a) <-> is_Some (h !! a).
Proof.
  intros Hs. unfold relink. destruct (last l) as [[q i]|] eqn:E; [|done].
  destruct (decide (a = q)) as [->|]; [|by rewrite lookup_insert_ne].
  rewrite lookup_insert_eq. split; [|by eauto]. intros _. eapply (seg_nonzero _ _ _ q Hs).
  apply last_Some in E as [l' ->]. rewrite fmap_app. apply elem_of_app. right. by left.
Qed.
Lemma relink_size h l e v : seg h l e -> size (relink h l v) = size h.
Proof.
  intros Hs. unfold relink. destruct (last l) as [[q i]|] eqn:E; [|done].
  destruct (seg_nonzero _ _ _ q Hs) as [_ Hq]; [|by rewrite map_size_insert_Some].
  apply last_Some in E as [l' ->]. rewrite fmap_app. apply elem_of_app. right. by left.
Qed.

(** How the queue of one task changes: to [l'], whose nodes are old ones or new ones. *)
Lemma Queues_change s s' qs p pd' l' :
  Queues s qs ->
  pendings s' = <[p := pd']> (pendings s) -> head pd' = first 0 l' -> tail pd' = lastslot l' ->
  seg (nodes s') l' 0 -> NoDup l'.*1 ->
  (forall a, a ∈ l'.*1 -> (a ∈ (qs p).*1) \/ nodes s !! a = None) ->
  (forall a, a ∉ (qs p).*1 -> a ∉ l'.*1 -> nodes s' !! a = nodes s !! a) ->
  (forall a, a ∈ (qs p).*1 -> a ∉ l'.*1 -> nodes s' !! a = None) ->
  nr_queued_signals s' = Z.of_nat (size (nodes s')) -> Z.of_nat (size (nodes s')) < 2 ^ 31 -> max_queued_signals s' < 2 ^ 31 ->
  Queues s' (upd qs p l').
Proof.
  intros I Hp Hh Ht Hs Hnd Hl Hsame Hgone Hn Hsm Hmax.
  assert (Hapart : forall p' a, p' <> p -> a ∈ (qs p').*1 -> (a ∉ (qs p).*1) /\ (a ∉ l'.*1)).
  { intros p' a Hne Ha. split.
    - intros Hb. destruct Hne. by apply (q_apart _ _ I p' p a).
    - intros Hb. destruct (Hl a Hb) as [Hc|Hc]; [destruct Hne; by apply (q_apart _ _ I p' p a)|].
      destruct (seg_nonzero _ _ _ a (q_seg _ _ I p') Ha) as [_ [x Hx]]. congruence. }
  constructor; try done.
  - intros p' pd. rewrite Hp. destruct (decide (p' = p)) as [->|Hne].
    + rewrite lookup_insert_eq, upd_same. by intros [= <-].
    + rewrite lookup_insert_ne, upd_other by done. apply I.
  - intros p'. rewrite Hp. destruct (decide (p' = p)) as [->|Hne]; [by rewrite lookup_insert_eq|].
    rewrite lookup_insert_ne, upd_other by done. apply I.
  - intros p'. destruct (decide (p' = p)) as [->|Hne]; [by rewrite upd_same|]. rewrite upd_other by done.
    eapply seg_ext; [|apply I]. intros a Ha. by apply Hsame; apply (Hapart p').
  - intros p'. destruct (decide (p' = p)) as [->|Hne]; [by rewrite upd_same|]. rewrite upd_other by done. apply I.
  - intros p1 p2 a. unfold upd. do 2 case_decide; subst; try done.
    + intros H1 H2. by destruct (Hapart p2 a) as [_ []].
    + intros H1 H2. by destruct (Hapart p1 a) as [_ []].
    + apply I.
  - intros a Ha. destruct (decide (a ∈ l'.*1)) as [H1|H1]; [exists p; by rewrite upd_same|].
    destruct (decide (a ∈ (qs p).*1)) as [H2|H2]; [rewrite Hgone in Ha by done; by destruct Ha|].
    rewrite Hsame in Ha by done. destruct (q_owned _ _ I a Ha) as [p' Hp']. exists p'. rewrite upd_other; [done|]. intros ->. done.
Qed.

(** ** The operations on the heap *)
Ltac run := unfold mbind, Q_bind, mret, Q_ret, qgets, qmodify in *.

Lemma store_eq (s : store) (n : gmap Z sigqueue) (c : Z) (pds : gmap Z sigpending) :
  nodes s = n -> nr_queued_signals s = c -> pendings s = pds ->
  s = Store n c (max_queued_signals s) pds (slab s).
Proof. destruct s. cbn. by intros -> -> ->. Qed.

Section Local.
Context (s : store) (qs : Z -> list entry) (I : Queues s qs) (p : Z) (pd : sigpending).
Context (Hpd : pendings s !! p = Some pd).

Lemma pending_ok : pending p s = Ok (pd, s).
Proof using Hpd. unfold pending. by rewrite Hpd. Qed.
Lemma node_ok l1 q i l2 : qs p = l1 ++ (q, i) :: l2 -> node q s = Ok (Sigqueue (first 0 l2) i, s).
Proof using I.
  clear Hpd. intros E. pose proof (q_seg _ _ I p) as Hs. rewrite E, seg_app in Hs. destruct Hs as (_ & _ & Hs & _).
  unfold node. by rewrite Hs.
Qed.
Lemma load_ok l1 l2 : qs p = l1 ++ l2 -> load p (lastslot l1) s = Ok (first 0 l2, s).
Proof using I Hpd.
  intros E. unfold lastslot. destruct (last l1) as [[q i]|] eqn:El.
  - apply last_Some in El as [l ->]. unfold load. run. erewrite node_ok; [done|]. by rewrite E, <- app_assoc.
  - apply last_None in El as ->. unfold load. run. rewrite pending_ok. f_equal. f_equal.
    by rewrite (proj1 (q_ends _ _ I p pd Hpd)), E.
Qed.
Lemma addr_nonzero l1 q i l2 : qs p = l1 ++ (q, i) :: l2 -> (q =? 0) = false.
Proof using I.
  clear Hpd. intros E. apply Z.eqb_neq. eapply (seg_nonzero _ _ _ q (q_seg _ _ I p)). rewrite E, fmap_app. apply elem_of_app. right. by left.
Qed.
Lemma fuel_ok : (length (qs p) < fuel s)%nat.
Proof using I.
  clear Hpd. unfold fuel. assert (length (qs p) <= size (nodes s))%nat; [|lia].
  rewrite <- (length_fmap fst), <- (size_list_to_set (C := gset Z)) by apply I.
  rewrite <- (size_dom (D := gset Z)). apply subseteq_size. intros a Ha%elem_of_list_to_set.
  apply elem_of_dom. by eapply (seg_nonzero _ _ _ a (q_seg _ _ I p)).
Qed.

(** The list of the task when its queue is [l]. *)
Definition pd_of (l : list entry) (set : sigset_t) : sigpending := Sigpending (first 0 l) (lastslot l) set.
Lemma pd_eq : pd = pd_of (qs p) (signal pd).
Proof using I Hpd. destruct pd, (q_ends _ _ I p _ Hpd). cbn in *. subst. done. Qed.

(** The store after the removal of one node. *)
Definition removed (l1 : list entry) (q : Z) (l2 : list entry) : store :=
  s <| nodes := delete q (relink (nodes s) l1 (first 0 l2)) |> <| nr_queued_signals := nr_queued_signals s - 1 |>
    <| pendings := <[p := pd_of (l1 ++ l2) (signal pd)]> (pendings s) |>.

Lemma unlink_ok l1 q i l2 : qs p = l1 ++ (q, i) :: l2 ->
  unlink_node p (lastslot l1) (Sigqueue (first 0 l2) i) s =
  Ok (tt, s <| nodes := relink (nodes s) l1 (first 0 l2) |> <| pendings := <[p := pd_of (l1 ++ l2) (signal pd)]> (pendings s) |>).
Proof using I Hpd.
  intros E. pose proof pd_eq as Ep. rewrite E in Ep. unfold unlink_node. cbn [next]. run.
  assert (Hz : (first 0 l2 =? 0) = match l2 with [] => true | _ => false end).
  { destruct l2 as [|[q' i'] l2]; [done|]. cbn. apply (addr_nonzero (l1 ++ [(q, i)]) _ i' l2). rewrite E, <- app_assoc. done. }
  destruct (last l1) as [[a j]|] eqn:El.
  - pose proof El as [l ->]%last_Some. rewrite lastslot_snoc. unfold assign. run.
    erewrite node_ok by (by rewrite E, <- app_assoc). cbn. rewrite Hz. unfold relink. rewrite El. destruct l2 as [|e l2].
    + unfold pending. cbn. rewrite Hpd. unfold set_pending. run. cbn. unfold pd_of. do 2 f_equal. unfold update. cbn. f_equal. f_equal.
      rewrite Ep. unfold pd_of. cbn. rewrite app_nil_r, !first_app. cbn. by rewrite lastslot_snoc.
    + unfold set_node. run. do 2 f_equal. unfold update. cbn. f_equal. symmetry. apply insert_id. rewrite Hpd, Ep. f_equal.
      unfold pd_of. cbn. rewrite !first_app, !lastslot_app by done. by rewrite lastslot_cons.
  - apply last_None in El as ->. cbn [lastslot last]. unfold assign. run. rewrite pending_ok. unfold set_pending, set_node. run. rewrite Hz.
    unfold relink. cbn [last app]. destruct l2 as [|e l2].
    + unfold pending. cbn. rewrite lookup_insert_eq. cbn. do 2 f_equal. unfold update. cbn. f_equal. by rewrite insert_insert_eq.
    + do 2 f_equal. unfold update. cbn. f_equal. f_equal. rewrite Ep. unfold pd_of. cbn [head tail signal app first].
      by rewrite (lastslot_cons (q, i)).
Qed.

Lemma queue_node_facts l1 q i l2 : qs p = l1 ++ (q, i) :: l2 ->
  NoDup (l1.*1 ++ l2.*1) /\ (q ∉ l1.*1 ++ l2.*1) /\ seg (nodes s) l1 q /\ seg (nodes s) l2 0
  /\ nodes s !! q = Some (Sigqueue (first 0 l2) i).
Proof using I.
  clear Hpd. intros E. pose proof (q_seg _ _ I p) as Hs. pose proof (q_nodup _ _ I p) as Hnd. rewrite E in Hs, Hnd.
  rewrite fmap_app in Hnd. cbn in Hnd. apply seg_app in Hs as (H1 & H2 & H3 & H4).
  rewrite <- Permutation_middle in Hnd. apply NoDup_cons in Hnd as [Hq Hnd]. done.
Qed.

Lemma count_pos l1 q i l2 : qs p = l1 ++ (q, i) :: l2 -> s32 (nr_queued_signals s + -1) = nr_queued_signals s - 1 /\ (0 < size (nodes s))%nat.
Proof using I.
  clear Hpd. intros E. destruct (queue_node_facts _ _ _ _ E) as (_ & _ & _ & _ & Hq).
  assert (0 < size (nodes s))%nat. { apply Nat.neq_0_lt_0. intros H0%map_size_empty_inv. rewrite H0 in Hq. by rewrite lookup_empty in Hq. }
  pose proof (q_count _ _ I). pose proof (q_small _ _ I). split; [|done]. apply s32_id. lia.
Qed.

Lemma removed_Queues l1 q i l2 : qs p = l1 ++ (q, i) :: l2 -> Queues (removed l1 q l2) (upd qs p (l1 ++ l2)).
Proof using I.
  clear Hpd. intros E. destruct (queue_node_facts _ _ _ _ E) as (Hnd & Hq & H1 & H2 & Hx). destruct (count_pos _ _ _ _ E) as [_ Hpos].
  assert (Hq1 : q ∉ l1.*1) by (intros H; apply Hq, elem_of_app; by left).
  assert (Hq2 : q ∉ l2.*1) by (intros H; apply Hq, elem_of_app; by right).
  assert (NoDup l1.*1 /\ forall a, a ∈ l1.*1 -> a ∉ l2.*1) as [Hn1 Hn12] by (apply NoDup_app in Hnd; tauto).
  assert (Hsz : Z.of_nat (size (delete q (relink (nodes s) l1 (first 0 l2)))) = Z.of_nat (size (nodes s)) - 1).
  { rewrite map_size_delete, relink_other, Hx, (relink_size _ _ q) by done. unfold id. lia. }
  pose proof (q_count _ _ I). pose proof (q_small _ _ I).
  apply (Queues_change s _ _ _ (pd_of (l1 ++ l2) (signal pd))); try done; cbn [nodes removed update].
  - apply seg_app. split.
    + eapply (seg_ext (relink (nodes s) l1 (first 0 l2))); [|by apply (relink_seg _ _ q)]. intros a Ha. apply lookup_delete_ne. intros <-. done.
    + eapply seg_ext; [|exact H2]. intros a Ha. rewrite lookup_delete_ne by (intros <-; done).
      apply relink_other. intros Hb. by apply (Hn12 a).
  - by rewrite fmap_app.
  - intros a. rewrite E, !fmap_app, !elem_of_app. intros [|]; left; [by left|right; by right].
  - intros a Ha Hb. rewrite E, !fmap_app, !elem_of_app in *. cbn in Ha. rewrite elem_of_cons in Ha.
    rewrite lookup_delete_ne by (intros <-; tauto). apply relink_other. tauto.
  - intros a Ha Hb. rewrite E, !fmap_app, !elem_of_app in *. cbn in Ha. rewrite elem_of_cons in Ha.
    assert (a = q) as -> by tauto. apply lookup_delete_eq.
  - cbn. change (nr_queued_signals s - 1 = Z.of_nat (size (delete q (relink (nodes s) l1 (first 0 l2))))). lia.
  - change (Z.of_nat (size (delete q (relink (nodes s) l1 (first 0 l2)))) < 2 ^ 31). lia.
  - apply I.
Qed.

Lemma free_ok l1 q i l2 : qs p = l1 ++ (q, i) :: l2 ->
  free_node q (s <| nodes := relink (nodes s) l1 (first 0 l2) |> <| pendings := <[p := pd_of (l1 ++ l2) (signal pd)]> (pendings s) |>)
  = Ok (tt, removed l1 q l2).
Proof using I.
  clear Hpd. intros E. destruct (count_pos _ _ _ _ E) as [Hc _]. unfold free_node, kmem_cache_free, atomic_add, removed. run. cbn.
  unfold update. cbn. by rewrite Hc.
Qed.
End Local.

Lemma Queues_ext s qs qs' : (forall p, qs p = qs' p) -> Queues s qs -> Queues s qs'.
Proof.
  intros E I. constructor; intros *; rewrite <- ?E; try apply I. intros H. destruct (q_owned _ _ I a H) as [p Hp]. exists p. by rewrite <- E.
Qed.
Lemma upd_upd {A} (qs : Z -> A) p l l' x : upd (upd qs p l) p l' x = upd qs p l' x.
Proof. unfold upd. by case_decide. Qed.
Lemma upd_id {A} (qs : Z -> A) p x : upd qs p (qs p) x = qs x.
Proof. unfold upd. case_decide; by subst. Qed.

(** [s'] differs from [s] in the queue of [p], which is [l] now, and in its set of signals. *)
Record moved (qs : Z -> list entry) (p : Z) (l : list entry) (set : sigset_t) (s s' : store) : Prop := {
  mv_queues : Queues s' (upd qs p l);
  mv_pendings : pendings s' = <[p := pd_of l set]> (pendings s);
  mv_max : max_queued_signals s' = max_queued_signals s
}.

Lemma queues_moved_trans qs p l l' set set' s s1 s2 :
  moved qs p l set s s1 -> moved (upd qs p l) p l' set' s1 s2 -> moved qs p l' set' s s2.
Proof.
  intros [H1 H2 H3] [H1' H2' H3']. constructor.
  - eapply Queues_ext; [|exact H1']. intros. apply upd_upd.
  - by rewrite H2', H2, insert_insert_eq.
  - congruence.
Qed.

(** The nodes before the first one with the signal. *)
Fixpoint before (sig : Z) (l : list entry) : option (list entry) :=
  match l with
  | [] => None
  | e :: l => if si_signo e.2 =? sig then Some [] else (cons e) <$> before sig l
  end.
Lemma before_Some sig l la : before sig l = Some la ->
  exists q i lb, l = la ++ (q, i) :: lb /\ si_signo i = sig /\ Forall (fun e => si_signo e.2 <> sig) la.
Proof.
  revert la. induction l as [|[q i] l IH]; intros la; cbn; [done|]. case_cmp.
  - intros [= <-]. by exists q, i, l.
  - destruct (before sig l) as [lc|]; [|done]. intros [= <-]. destruct (IH lc eq_refl) as (q' & i' & lb & -> & Hi & Hf).
    exists q', i', lb. split_and!; [done|done|by constructor].
Qed.
Lemma before_None sig l : before sig l = None -> Forall (fun e => si_signo e.2 <> sig) l.
Proof.
  induction l as [|[q i] l IH]; cbn; [constructor|]. case_cmp; [done|]. destruct (before sig l); [done|]. constructor; auto.
Qed.

Lemma find_loop_ok s qs p pd sig n : Queues s qs -> pendings s !! p = Some pd -> forall l1 l2,
  qs p = l1 ++ l2 -> (length l2 < n)%nat ->
  find_loop n p sig (lastslot l1) s = Ok ((fun la => lastslot (l1 ++ la)) <$> before sig l2, s).
Proof.
  intros I Hpd. induction n as [|n IH]; intros l1 l2 E Hn; [lia|]. cbn [find_loop]. run.
  erewrite load_ok by done. destruct l2 as [|[q i] l2]; [done|]. cbn [first before snd].
  erewrite addr_nonzero, node_ok by done. cbn [info]. case_cmp; [cbn; by rewrite app_nil_r|].
  rewrite <- (lastslot_snoc l1 q i), (IH _ l2) by (by rewrite <- ?app_assoc || (cbn in Hn; lia)). destruct (before sig l2); [|done]. cbn. by rewrite <- app_assoc.
Qed.

Lemma removed_moved s qs p pd l1 q i l2 : Queues s qs -> qs p = l1 ++ (q, i) :: l2 ->
  moved qs p (l1 ++ l2) (signal pd) s (removed s p pd l1 q l2).
Proof. intros I E. constructor; [by eapply removed_Queues|done|done]. Qed.

(** What is left of a queue when a signal is removed. *)
Definition without (sig : Z) (l : list entry) : list entry := filter (fun e => si_signo e.2 <> sig) l.

Lemma rm_loop_ok p sig n : forall s qs pd l1 l2, Queues s qs -> pendings s !! p = Some pd ->
  qs p = l1 ++ l2 -> (length l2 < n)%nat ->
  exists s', rm_loop n p sig (lastslot l1) s = Ok (tt, s') /\ moved qs p (l1 ++ without sig l2) (signal pd) s s'.
Proof.
  induction n as [|n IH]; intros s qs pd l1 l2 I Hpd E Hn; [lia|]. cbn [rm_loop]. run.
  erewrite load_ok by done. destruct l2 as [|[q i] l2].
  { exists s. split; [done|]. cbn. rewrite app_nil_r in *. constructor; [|by rewrite <- E, <- (pd_eq _ _ I _ _ Hpd), insert_id|done].
    eapply Queues_ext; [|exact I]. intros x. rewrite <- E. symmetry. apply upd_id. }
  cbn [first]. erewrite addr_nonzero, node_ok by done. cbn [info]. unfold without. rewrite filter_cons. cbn [snd]. cbn in Hn. case_cmp.
  - erewrite unlink_ok, free_ok by done. rewrite decide_False by tauto.
    destruct (IH (removed s p pd l1 q l2) (upd qs p (l1 ++ l2)) (pd_of (l1 ++ l2) (signal pd)) l1 l2) as (s' & -> & Hm).
    + by eapply removed_Queues.
    + by apply lookup_insert_eq.
    + by rewrite upd_same.
    + lia.
    + exists s'. split; [done|]. eapply queues_moved_trans; [by eapply removed_moved|exact Hm].
  - rewrite decide_True by done.
    destruct (IH s qs pd (l1 ++ [(q, i)]) l2) as (s' & Hr & Hm); [done|done|by rewrite <- app_assoc|lia|].
    rewrite lastslot_snoc in Hr. rewrite Hr. exists s'. split; [done|]. by rewrite <- app_assoc in Hm.
Qed.

(** Another set of signals, the same queue. *)
Lemma set_signal_moved s qs p pd x : Queues s qs -> pendings s !! p = Some pd ->
  moved qs p (qs p) x s (s <| pendings := <[p := pd <| signal := x |>]> (pendings s) |>).
Proof.
  intros I Hpd. constructor; [|cbn; by rewrite (pd_eq _ _ I _ _ Hpd) at 1|done].
  eapply Queues_ext; [intros y; symmetry; apply upd_id|]. destruct I. constructor; try done; cbn [pendings update].
  - intros p' pd'. destruct (decide (p' = p)) as [->|]; [|by rewrite lookup_insert_ne; auto].
    rewrite lookup_insert_eq. intros [= <-]. exact (q_ends0 p pd Hpd).
  - intros p'. destruct (decide (p' = p)) as [->|]; [by rewrite lookup_insert_eq|]. rewrite lookup_insert_ne; auto.
Qed.
Lemma unchanged_moved s qs p pd : Queues s qs -> pendings s !! p = Some pd -> moved qs p (qs p) (signal pd) s s.
Proof.
  intros I Hpd. constructor; [|by rewrite <- (pd_eq _ _ I _ _ Hpd), insert_id|done].
  eapply Queues_ext; [|exact I]. intros y. symmetry. apply upd_id.
Qed.
Lemma sigdel_ok s qs p pd sig : Queues s qs -> pendings s !! p = Some pd ->
  exists s', sigdel p sig s = Ok (tt, s') /\ moved qs p (qs p) (sigdelset (signal pd) sig) s s' /\ nodes s' = nodes s.
Proof.
  intros I Hpd. unfold sigdel, set_pending. run. rewrite (pending_ok _ _ _ Hpd). eexists. split; [done|]. split; [|done].
  by apply set_signal_moved.
Qed.
Lemma moved_pending qs p l set s s' : moved qs p l set s s' -> pendings s' !! p = Some (pd_of l set).
Proof. intros H. rewrite (mv_pendings _ _ _ _ _ _ H). apply lookup_insert_eq. Qed.

Lemma rm_from_queue_ok s qs p pd sig : Queues s qs -> pendings s !! p = Some pd ->
  exists s', rm_from_queue sig p s = Ok (sigismember (signal pd) sig, s') /\
    moved qs p (if sigismember (signal pd) sig then without sig (qs p) else qs p)
      (if sigismember (signal pd) sig then sigdelset (signal pd) sig else signal pd) s s'.
Proof.
  intros I Hpd. unfold rm_from_queue. run. rewrite (pending_ok _ _ _ Hpd). destruct (sigismember (signal pd) sig); cbn.
  - destruct (sigdel_ok s qs p pd sig I Hpd) as (s1 & -> & Hm & Hn). pose proof (mv_queues _ _ _ _ _ _ Hm) as I1.
    destruct (rm_loop_ok p sig (fuel s1) s1 _ _ [] (qs p) I1 (moved_pending _ _ _ _ _ _ Hm)) as (s2 & Hr & Hm2).
    + by rewrite upd_same.
    + rewrite <- (upd_same qs p (qs p)) at 1. by eapply fuel_ok.
    + cbn in Hr. rewrite Hr. exists s2. split; [done|]. by eapply queues_moved_trans.
  - exists s. split; [done|]. by apply unchanged_moved.
Qed.

(** The oldest entry of a signal, and the queue without it. *)
Fixpoint take_sig (sig : Z) (l : list entry) : option (siginfo * list entry) :=
  match l with
  | [] => None
  | e :: l => if si_signo e.2 =? sig then Some (e.2, l) else (fun r => (r.1, e :: r.2)) <$> take_sig sig l
  end.
Definition queued (sig : Z) (l : list entry) : bool := existsb (fun e => si_signo e.2 =? sig) l.

(** What [collect_signal] returns and leaves for a signal that is pending. *)
Definition collected (sig : Z) (l : list entry) (set : sigset_t) (inf : siginfo) : siginfo * list entry * sigset_t :=
  match take_sig sig l with
  | None => (fill_info sig 0 0 0 inf, l, sigdelset set sig)
  | Some (i, l') => (copy_siginfo inf i, l', if (SIGRTMIN <=? sig) && queued sig l' then set else sigdelset set sig)
  end.

Lemma before_take sig l la q i lb : before sig l = Some la -> l = la ++ (q, i) :: lb -> take_sig sig l = Some (i, la ++ lb).
Proof.
  intros Hb ->. revert Hb. induction la as [|e la IH]; cbn.
  - case_cmp; [done|]. by destruct (before sig lb).
  - case_cmp; [done|]. destruct (before sig (la ++ _)) as [lc|]; [|done]. intros [= ->]. by rewrite IH.
Qed.
Lemma before_take_None sig l : before sig l = None -> take_sig sig l = None.
Proof. induction l as [|e l IH]; cbn; [done|]. case_cmp; [done|]. destruct (before sig l); [done|]. intros _. by rewrite IH. Qed.
Lemma queued_before sig l : queued sig l = match before sig l with Some _ => true | None => false end.
Proof. unfold queued. induction l as [|e l IH]; cbn; [done|]. case_cmp; [done|]. cbn. rewrite IH. by destruct (before sig l). Qed.
Lemma queued_app sig l l' : queued sig (l ++ l') = queued sig l || queued sig l'.
Proof. apply existsb_app. Qed.
Lemma queued_none sig l : Forall (fun e => si_signo e.2 <> sig) l -> queued sig l = false.
Proof. unfold queued. induction 1 as [|e l He Hl IH]; cbn; [done|]. by case_cmp. Qed.

Lemma collect_ok s qs p pd sig inf inf' l' set' : Queues s qs -> pendings s !! p = Some pd ->
  sigismember (signal pd) sig = true -> collected sig (qs p) (signal pd) inf = (inf', l', set') ->
  exists s', collect_signal sig p inf s = Ok ((true, inf'), s') /\ moved qs p l' set' s s'.
Proof.
  intros I Hpd Hmem. unfold collected, collect_signal. run. rewrite (pending_ok _ _ _ Hpd), Hmem. pose proof (fuel_ok _ _ I p) as Hf.
  change Head with (lastslot []). rewrite (find_loop_ok s qs p pd sig (fuel s) I Hpd [] (qs p)) by done. destruct (before sig (qs p)) as [la|] eqn:Eb; cbn [fmap option_fmap option_map app].
  2:{ rewrite before_take_None by done. intros [= <- <- <-]. destruct (sigdel_ok s qs p pd sig I Hpd) as (s1 & -> & Hm & _). by exists s1. }
  destruct (before_Some _ _ _ Eb) as (q & i & lb & El & Hi & Hla). rewrite (before_take _ _ _ _ _ _ Eb El).
  erewrite load_ok by done. cbn [first]. erewrite node_ok, unlink_ok, free_ok by done. cbn [info].
  pose proof (removed_moved s qs p pd la q i lb I El) as Hm. set (s1 := removed s p pd la q lb) in *.
  pose proof (mv_queues _ _ _ _ _ _ Hm) as I1. pose proof (moved_pending _ _ _ _ _ _ Hm) as Hp1.
  rewrite queued_app, (queued_none sig la), queued_before by done. rewrite El, length_app in Hf. cbn in Hf.
  assert (Hr : (if SIGRTMIN <=? sig then find_loop (fuel s) p sig (lastslot la) else fun s => Ok (None, s)) s1
               = Ok (if SIGRTMIN <=? sig then (fun lc => lastslot (la ++ lc)) <$> before sig lb else None, s1)).
  { destruct (SIGRTMIN <=? sig); [|done]. apply (find_loop_ok s1 _ p _ sig (fuel s) I1 Hp1 la lb); [by rewrite upd_same|lia]. }
  rewrite Hr. destruct (sigdel_ok s1 _ p _ sig I1 Hp1) as (s2 & Hd & Hm2 & _). rewrite upd_same in Hm2.
  destruct (SIGRTMIN <=? sig), (before sig lb); cbn; intros [= <- <- <-]; try (exists s1; done).
  all: rewrite Hd; exists s2; split; [done|]; by eapply queues_moved_trans.
Qed.

(** *** Flushing *)
Definition cleared (h : gmap Z sigqueue) (l : list entry) : gmap Z sigqueue := foldl (fun h e => delete e.1 h) h l.
Lemma cleared_lookup l : forall h a, cleared h l !! a = if decide (a ∈ l.*1) then None else h !! a.
Proof.
  induction l as [|[q i] l IH]; intros h a; cbn; [done|]. etransitivity; [apply IH|]. cbn.
  destruct (decide (a ∈ l.*1)) as [Ha|Ha]; [rewrite decide_True; [done|by right]|].
  destruct (decide (a = q)) as [->|Hne]; [rewrite decide_True by left; apply lookup_delete_eq|].
  rewrite decide_False by (rewrite elem_of_cons; tauto). by apply lookup_delete_ne.
Qed.

Lemma flush_loop_ok n : forall s l, NoDup l.*1 -> seg (nodes s) l 0 -> (length l < n)%nat ->
  nr_queued_signals s = Z.of_nat (size (nodes s)) -> Z.of_nat (size (nodes s)) < 2 ^ 31 ->
  exists s', flush_loop n (first 0 l) s = Ok (tt, s') /\ nodes s' = cleared (nodes s) l /\ pendings s' = pendings s
    /\ max_queued_signals s' = max_queued_signals s /\ nr_queued_signals s' = Z.of_nat (size (nodes s')) /\ (size (nodes s') <= size (nodes s))%nat.
Proof.
  induction n as [|n IH]; intros s l Hnd Hs Hn Hc Hsm; [lia|]. destruct l as [|[q i] l]; cbn [flush_loop first].
  { exists s. cbn. done. }
  cbn in Hs, Hnd, Hn. destruct Hs as (Hq & Hx & Hs). apply NoDup_cons in Hnd as [Hql Hnd]. run.
  apply Z.eqb_neq in Hq as ->. unfold node at 1. rewrite Hx. unfold free_node, kmem_cache_free, atomic_add. run. cbn [next nodes update nr_queued_signals].
  assert (Hsz : size (nodes s) = S (size (delete q (nodes s)))).
  { rewrite map_size_delete, Hx. cbn. destruct (size (nodes s)) eqn:E; [|done].
    apply map_size_empty_inv in E. rewrite E in Hx. by rewrite lookup_empty in Hx. }
  match goal with |- context [flush_loop n _ ?s1] => destruct (IH s1 l) as (s' & Hr & Hn' & Hp & Hmx & Hc' & Hle) end; [done| |lia| | |].
  - eapply seg_ext; [|exact Hs]. intros a Ha. apply lookup_delete_ne. intros <-. done.
  - cbn. rewrite Hc, s32_id by lia. lia.
  - cbn. lia.
  - exists s'. split_and!; try done. cbn [nodes update] in Hle. rewrite Hsz. unfold update in Hle. cbn in Hle. lia.
Qed.

Lemma flush_ok s qs p pd : Queues s qs -> pendings s !! p = Some pd ->
  exists s', flush_sigqueue p s = Ok (tt, s') /\ moved qs p [] sigemptyset s s'.
Proof.
  intros I Hpd. unfold flush_sigqueue, set_pending. run. rewrite (pending_ok _ _ _ Hpd).
  rewrite (proj1 (q_ends _ _ I _ _ Hpd)).
  match goal with |- context [flush_loop (fuel ?s1) _ ?s1] =>
    destruct (flush_loop_ok (fuel s1) s1 (qs p)) as (s' & Hr & Hn & Hp & Hmx & Hc & Hle) end; try apply I.
  { apply (fuel_ok _ _ I). }
  rewrite Hr. exists s'. split; [done|]. constructor; [|done|done].
  pose proof (q_small _ _ I). cbn in Hn, Hle.
  apply (Queues_change s _ _ _ (Sigpending 0 Head sigemptyset)); try done.
  - constructor.
  - by intros a ?%elem_of_nil.
  - intros a Ha _. rewrite Hn. etransitivity; [apply cleared_lookup|]. by rewrite decide_False.
  - intros a Ha _. rewrite Hn. etransitivity; [apply cleared_lookup|]. by rewrite decide_True.
  - unfold update in Hle. cbn in Hle. lia.
  - rewrite Hmx. apply I.
Qed.

(** *** Sending *)

(** The node that the slab allocator is going to give, when the limit allows one. *)
Definition room (s : store) : option entry :=
  if nr_queued_signals s <? max_queued_signals s then
    match slab s with Some (a, i) :: _ => if usable s a i then Some (a, i) else None | _ => None end
  else None.
(** The new queue, the new set and the result of [send_signal]. *)
Definition sent (q : option entry) (sig pid uid : Z) (a : info_arg) (l : list entry) (set : sigset_t) : Z * list entry * sigset_t :=
  match q with
  | Some (q, i) => (0, l ++ [(q, queued_info sig pid uid a i)], sigaddset set sig)
  | None => if must_queue sig a then (- EAGAIN, l, set) else (0, l, sigaddset set sig)
  end.

Lemma link_ok s l p pd q i : pd = pd_of l (signal pd) -> seg (nodes s) l 0 -> pendings s !! p = Some pd -> q ∉ l.*1 ->
  link_node p q (s <| nodes := <[q := Sigqueue 0 i]> (nodes s) |>)
  = Ok (tt, s <| nodes := <[q := Sigqueue 0 i]> (relink (nodes s) l q) |> <| pendings := <[p := pd_of (l ++ [(q, i)]) (signal pd)]> (pendings s) |>).
Proof.
  intros Ep Hs Hpd Hql.
  unfold link_node, node at 1. run. cbn. rewrite lookup_insert_eq. cbn. unfold pending at 1. cbn. rewrite Hpd.
  rewrite insert_insert_eq. unfold pd_of. rewrite lastslot_snoc, first_app. cbn [first]. unfold update at 1 2. cbn.
  destruct (last l) as [[a j]|] eqn:El.
  - pose proof El as [l' E]%last_Some. assert (Ha : a <> q). { intros ->. apply Hql. rewrite E, fmap_app. apply elem_of_app. right. by left. }
    rewrite E, seg_app in Hs. destruct Hs as (_ & _ & Hs & _). rewrite Ep. unfold pd_of, lastslot. rewrite El. cbn. unfold assign, node. run. cbn.
    rewrite lookup_insert_ne by done. rewrite Hs. cbn. unfold pending, set_pending. run. cbn. rewrite Hpd. do 2 f_equal. unfold update. cbn. f_equal.
    + rewrite insert_insert_ne by done. do 2 f_equal. unfold relink. by rewrite El.
    + f_equal. rewrite Ep. unfold pd_of. cbn. f_equal. rewrite E, !first_app. done.
  - apply last_None in El. rewrite El in *. rewrite Ep. cbn. unfold assign, pending, set_pending. run. cbn. rewrite Hpd. cbn. rewrite lookup_insert_eq. cbn.
    do 2 f_equal. unfold update. cbn. f_equal. by rewrite insert_insert_eq.
Qed.

(** A node with other contents at the end of a queue. *)
Lemma linked_seg h l q i j : NoDup l.*1 -> q ∉ l.*1 -> q <> 0 -> seg h l 0 ->
  seg (<[q := Sigqueue 0 j]> (<[q := Sigqueue 0 i]> (relink h l q))) (l ++ [(q, j)]) 0.
Proof.
  intros Hnd Hq Hz Hs. rewrite insert_insert_eq. apply seg_app. split.
  - cbn [first]. eapply seg_ext; [|by apply (relink_seg h l 0 q)]. intros a Ha. apply lookup_insert_ne. intros ->. done.
  - cbn. by rewrite lookup_insert_eq.
Qed.

Lemma room_facts s q i : room s = Some (q, i) ->
  nr_queued_signals s < max_queued_signals s /\ q <> 0 /\ nodes s !! q = None /\ len (_sifields i) = SI_PAD_SIZE
  /\ exists l, slab s = Some (q, i) :: l.
Proof.
  unfold room, usable. destruct (Z.ltb_spec (nr_queued_signals s) (max_queued_signals s)); [|done].
  destruct (slab s) as [|[[a k]|] l]; try done. destruct (_ && _) eqn:E; [|done]. intros [= -> ->].
  bool_hyps. apply bool_decide_eq_true in H2. eauto 10.
Qed.

Lemma Queues_slab s qs x : Queues s qs -> Queues (s <| slab := x |>) qs.
Proof. intros []. by constructor. Qed.
Lemma no_room s : room s = None -> exists x,
  (if nr_queued_signals s <? max_queued_signals s then kmem_cache_alloc else mret None) s = Ok (None, s <| slab := x |>).
Proof.
  unfold room. destruct (_ <? _).
  - intros H. unfold kmem_cache_alloc. destruct (slab s) as [|[[a i]|] l] eqn:E.
    + exists []. rewrite <- E. by destruct s.
    + exists l. change (usable (s <| slab := l |>) a i) with (usable s a i). by destruct (usable s a i).
    + by exists l.
  - intros _. exists (slab s). by destruct s.
Qed.

(** The store with a new node at the end of a queue. *)
Definition appended (s : store) (p q : Z) (l : list entry) (i j : siginfo) (set : sigset_t) (x : list (option entry)) : store :=
  Store (<[q := Sigqueue 0 j]> (<[q := Sigqueue 0 i]> (relink (nodes s) l q))) (nr_queued_signals s + 1) (max_queued_signals s)
    (<[p := pd_of (l ++ [(q, j)]) set]> (pendings s)) x.

Lemma appended_moved s qs p q i j set x : Queues s qs -> q <> 0 -> nodes s !! q = None -> nr_queued_signals s < max_queued_signals s ->
  moved qs p (qs p ++ [(q, j)]) set s (appended s p q (qs p) i j set x).
Proof.
  intros I Hz Hq Hlt. constructor; [|done|done].
  assert (Hql : q ∉ (qs p).*1). { intros H. destruct (seg_nonzero _ _ _ _ (q_seg _ _ I p) H) as [_ [y Hy]]. congruence. }
  assert (Hsz : size (nodes (appended s p q (qs p) i j set x)) = S (size (nodes s))).
  { cbn. rewrite insert_insert_eq, map_size_insert_None by (by rewrite relink_other). f_equal. apply (relink_size _ _ 0), I. }
  pose proof (q_count _ _ I). pose proof (q_small _ _ I). pose proof (q_limit _ _ I).
  apply (Queues_change s _ _ _ (pd_of (qs p ++ [(q, j)]) set)); try done.
  - apply linked_seg; [apply I|done|done|apply I].
  - rewrite fmap_app. cbn. apply NoDup_app. split_and!; [apply I| |apply NoDup_singleton].
    intros a Ha ->%list_elem_of_singleton. done.
  - intros a. rewrite fmap_app, elem_of_app. cbn. rewrite list_elem_of_singleton. intros [| ->]; [by left|by right].
  - intros a Ha Hb. rewrite fmap_app, elem_of_app in Hb. cbn in Hb. rewrite list_elem_of_singleton in Hb. cbn.
    rewrite insert_insert_eq, lookup_insert_ne by (intros ->; tauto). by apply relink_other.
  - intros a Ha []. rewrite fmap_app, elem_of_app. by left.
  - rewrite Hsz. cbn. lia.
  - rewrite Hsz. lia.
Qed.

Lemma send_ok s qs p pd sig pid uid a r l' set' : Queues s qs -> pendings s !! p = Some pd ->
  sent (room s) sig pid uid a (qs p) (signal pd) = (r, l', set') ->
  exists s', send_signal sig pid uid a p s = Ok (r, s') /\ moved qs p l' set' s s'.
Proof.
  intros I Hpd. unfold sent, send_signal. run. destruct (room s) as [[q i]|] eqn:Er.
  - intros [= <- <- <-]. destruct (room_facts _ _ _ Er) as (Hlt & Hz & Hq & Hlen & x & Hx).
    exists (appended s p q (qs p) i (queued_info sig pid uid a i) (sigaddset (signal pd) sig) x).
    split; [|by apply appended_moved]. unfold room in Er. rewrite Hx in Er. apply Z.ltb_lt in Hlt. rewrite Hlt in *.
    unfold kmem_cache_alloc. rewrite Hx. change (usable (s <| slab := x |>) q i) with (usable s q i). destruct (usable s q i); [|done].
    assert (Hql : q ∉ (qs p).*1). { intros H. destruct (seg_nonzero _ _ _ _ (q_seg _ _ I p) H) as [_ [y Hy]]. congruence. }
    pose proof (q_count _ _ I). pose proof (q_small _ _ I). pose proof (q_limit _ _ I). unfold atomic_add. run. cbn [update].
    apply Z.ltb_lt in Hlt. cbn. rewrite s32_id by lia.
    pose proof (link_ok (Store (nodes s) (nr_queued_signals s + 1) (max_queued_signals s) (pendings s) x) (qs p) p pd q i (pd_eq _ _ I _ _ Hpd) (q_seg _ _ I p) Hpd Hql) as Hl.
    unfold update in Hl. cbn in Hl. unfold update. cbn. rewrite Hl. unfold node, set_node, pending, set_pending. run. cbn.
    do 3 (rewrite ?lookup_insert_eq; cbn). do 2 f_equal. unfold appended, update. cbn. f_equal. rewrite insert_insert_eq. f_equal.
    unfold pd_of. cbn. rewrite !lastslot_snoc, !first_app. done.
  - destruct (no_room s Er) as [x Hx]. run. rewrite Hx. pose proof (Queues_slab s qs x I) as I'. destruct (must_queue sig a).
    + intros [= <- <- <-]. eexists. split; [done|]. destruct (unchanged_moved s qs p pd I Hpd). constructor; [by apply Queues_slab|done|done].
    + intros [= <- <- <-]. unfold pending. cbn [pendings update]. change (pendings (s <| slab := x |>)) with (pendings s). rewrite Hpd. eexists. split; [done|].
      destruct (set_signal_moved (s <| slab := x |>) qs p pd (sigaddset (signal pd) sig) I' Hpd). by constructor.
Qed.

(** ** What a queue holds *)
Definition signo (e : entry) : Z := si_signo e.2.
Definition wf_info (i : siginfo) : Prop := is_signal (si_signo i) /\ len (_sifields i) = SI_PAD_SIZE.

(** Every entry belongs to a signal of the set; a signal below SIGRTMIN has at most one. *)
Record good (l : list entry) (set : sigset_t) : Prop := {
  g_set : wf_set set;
  g_info : Forall (fun e => wf_info e.2) l;
  g_pending : Forall (fun e => sigismember set (signo e) = true) l;
  g_once : NoDup (filter (fun n => n < SIGRTMIN) (signo <$> l))
}.

Lemma good_nil set : wf_set set -> good [] set.
Proof. intros H. constructor; [done|constructor|constructor|constructor]. Qed.
Lemma signo_sub l l' : l' `sublist_of` l -> NoDup (filter (fun n => n < SIGRTMIN) (signo <$> l)) -> NoDup (filter (fun n => n < SIGRTMIN) (signo <$> l')).
Proof.
  intros Hs H. eapply sublist_NoDup; [exact H|clear H]. induction Hs as [|x l1 l2 Hs IH|x l1 l2 Hs IH]; rewrite ?fmap_cons, ?filter_cons; [done| |].
  - case_decide; [by constructor|done].
  - case_decide; [by constructor|done].
Qed.
(** A part of a queue is good for a set that has its signals. *)
Lemma good_sub l l' set set' : good l set -> l' `sublist_of` l -> wf_set set' ->
  (forall e, e ∈ l' -> sigismember set (signo e) = true -> sigismember set' (signo e) = true) -> good l' set'.
Proof.
  intros [H1 H2 H3 H4] Hs Hw Hm. constructor; [done| | |by eapply signo_sub].
  - eapply Forall_forall. intros e He. rewrite Forall_forall in H2. apply H2. by eapply elem_of_sublist.
  - eapply Forall_forall. intros e He. apply Hm; [done|]. rewrite Forall_forall in H3. apply H3. by eapply elem_of_sublist.
Qed.
Lemma good_del l l' set sig : good l set -> is_signal sig -> l' `sublist_of` l -> queued sig l' = false -> good l' (sigdelset set sig).
Proof.
  intros Hg Hsig Hs Hq. eapply good_sub; [done|done|apply sigdel_wf, Hg|]. intros e He Hm.
  pose proof (g_info _ _ Hg) as Hi. rewrite Forall_forall in Hi. destruct (Hi e) as [Hse _]; [by eapply elem_of_sublist|].
  rewrite member_del, Hm, andb_true_r by done. apply negb_true_iff, Z.eqb_neq. intros E.
  apply not_true_iff_false in Hq. apply Hq. unfold queued. apply existsb_exists. exists e. split; [by apply list_elem_of_In|]. by apply Z.eqb_eq.
Qed.
Lemma queued_without sig l : queued sig (without sig l) = false.
Proof. apply queued_none, Forall_forall. intros e [He _]%list_elem_of_filter. done. Qed.
Lemma without_none sig l : queued sig l = false -> without sig l = l.
Proof.
  unfold queued, without. induction l as [|e l IH]; [done|]. rewrite filter_cons. cbn [existsb]. destruct (Z.eqb_spec (si_signo e.2) sig); cbn; [done|].
  intros H. rewrite decide_True by done. f_equal. auto.
Qed.
Lemma not_queued l set sig : good l set -> is_signal sig -> sigismember set sig = false -> queued sig l = false.
Proof.
  intros Hg Hs Hn. apply queued_none, Forall_forall. intros e He E. pose proof (g_pending _ _ Hg) as Hp. rewrite Forall_forall in Hp.
  specialize (Hp e He). unfold signo in Hp. rewrite E in Hp. congruence.
Qed.
(** Removing a signal: the set and the queue lose it, whether it was pending or not. *)
Lemma sigdel_absent set sig : wf_set set -> is_signal sig -> sigismember set sig = false -> sigdelset set sig = set.
Proof.
  intros Hw Hs Hn. apply set_ext; [by apply sigdel_wf|done|]. intros n Hns. rewrite member_del by done.
  destruct (Z.eqb_spec n sig) as [->|]; [by rewrite Hn|done].
Qed.

Lemma rm_good_ok s qs p pd sig : Queues s qs -> pendings s !! p = Some pd -> good (qs p) (signal pd) -> is_signal sig ->
  exists s', rm_from_queue sig p s = Ok (sigismember (signal pd) sig, s') /\
    moved qs p (without sig (qs p)) (sigdelset (signal pd) sig) s s' /\ good (without sig (qs p)) (sigdelset (signal pd) sig).
Proof.
  intros I Hpd Hg Hs. destruct (rm_from_queue_ok s qs p pd sig I Hpd) as (s' & Hr & Hm). exists s'. split; [done|].
  assert (good (without sig (qs p)) (sigdelset (signal pd) sig)).
  { eapply good_del; [done|done|apply sublist_filter|apply queued_without]. }
  split; [|done]. destruct (sigismember (signal pd) sig) eqn:E; [done|]. rewrite (without_none sig) by (by eapply not_queued).
  rewrite sigdel_absent by (done || apply Hg). done.
Qed.

Lemma take_sig_split sig l i l' : take_sig sig l = Some (i, l') -> exists la q lb, l = la ++ (q, i) :: lb /\ l' = la ++ lb /\ si_signo i = sig.
Proof.
  revert l'. induction l as [|[q j] l IH]; intros l'; cbn; [done|]. case_cmp.
  - intros [= <- <-]. by exists [], q, l.
  - destruct (take_sig sig l) as [[k lr]|]; [|done]. intros [= -> <-]. destruct (IH lr eq_refl) as (la & q' & lb & -> & -> & Hk).
    by exists ((q, j) :: la), q', lb.
Qed.
Lemma once_gone l set la q i lb : good l set -> l = la ++ (q, i) :: lb -> si_signo i < SIGRTMIN -> queued (si_signo i) (la ++ lb) = false.
Proof.
  intros Hg E Hlt. pose proof (g_once _ _ Hg) as H. rewrite E, fmap_app, filter_app, fmap_cons, filter_cons in H. cbn in H.
  rewrite decide_True in H by done. rewrite <- Permutation_middle in H. apply NoDup_cons in H as [H _].
  apply queued_none, Forall_forall. intros e He Es. apply H. rewrite <- filter_app, <- fmap_app. apply list_elem_of_filter. split; [done|].
  apply list_elem_of_fmap. by exists e.
Qed.
Lemma collected_good sig l set inf inf' l' set' : good l set -> is_signal sig -> collected sig l set inf = (inf', l', set') -> good l' set'.
Proof.
  intros Hg Hs. unfold collected. destruct (take_sig sig l) as [[i lr]|] eqn:Et.
  - destruct (take_sig_split _ _ _ _ Et) as (la & q & lb & -> & -> & Hi). intros [= <- <- <-].
    assert (Hsub : la ++ lb `sublist_of` la ++ (q, i) :: lb) by (apply sublist_app; [done|by constructor]).
    destruct ((SIGRTMIN <=? sig) && queued sig (la ++ lb)) eqn:Eq.
    + eapply good_sub; [done|done|apply Hg|done].
    + eapply good_del; [done|done|done|]. destruct (Z.leb_spec SIGRTMIN sig); [done|].
      rewrite <- Hi. eapply once_gone; [exact Hg|done|lia].
  - intros [= <- <- <-]. eapply good_del; [done|done|done|]. clear -Et. unfold queued.
    induction l as [|e l IH]; cbn in *; [done|]. destruct (si_signo e.2 =? sig); [done|]. cbn. apply IH. by destruct (take_sig sig l).
Qed.

(** A sender's structure names the signal that is sent. *)
Definition arg_ok (sig : Z) (a : info_arg) : Prop :=
  match a with Info i => si_signo i = sig /\ len (_sifields i) = SI_PAD_SIZE | _ => True end.

(** What [copy_siginfo] carries over. *)
Definition visible (i : siginfo) : Z * Z * Z * list Z :=
  (si_signo i, si_errno i, si_code i, if si_code i <? 0 then _sifields i else take 5 (_sifields i)).
Lemma visible_copy to from : len (_sifields from) = SI_PAD_SIZE -> visible (copy_siginfo to from) = visible from.
Proof.
  intros H. unfold visible, copy_siginfo. destruct (si_code from <? 0) eqn:E; [by rewrite E|].
  cbn [si_signo si_errno si_code _sifields]. rewrite E. f_equal. rewrite take_app_le, take_take; [done|]. unfold len, SI_PAD_SIZE in H. change (128 / 4 - 3) with 29 in H. rewrite length_take. lia.
Qed.
Lemma copy_len to from : len (_sifields from) = SI_PAD_SIZE -> len (_sifields to) = SI_PAD_SIZE -> len (_sifields (copy_siginfo to from)) = SI_PAD_SIZE.
Proof.
  intros H H'. unfold copy_siginfo. destruct (_ <? _); [done|]. cbn. unfold len, SI_PAD_SIZE in *. change (128 / 4 - 3) with 29 in *.
  rewrite length_app, length_take, length_drop. lia.
Qed.
Lemma fill_len n c pid uid i : len (_sifields (fill_info n c pid uid i)) = len (_sifields i).
Proof. unfold fill_info, set_si_uid, set_si_pid, set_field. cbn. by rewrite !len_set. Qed.
Lemma copy_signo to from : si_signo (copy_siginfo to from) = si_signo from.
Proof. unfold copy_siginfo. by destruct (_ <? _). Qed.

Lemma queued_info_wf sig pid uid a i : is_signal sig -> arg_ok sig a -> len (_sifields i) = SI_PAD_SIZE ->
  wf_info (queued_info sig pid uid a i) /\ si_signo (queued_info sig pid uid a i) = sig.
Proof.
  intros Hs Ha Hl. destruct a as [| |j]; unfold wf_info, queued_info.
  1, 2: rewrite fill_len; done.
  destruct Ha as [Hj Hlj]. rewrite copy_signo, Hj, copy_len; done.
Qed.

Lemma sent_good q sig pid uid a l set r l' set' : good l set -> (forall b i, q = Some (b, i) -> len (_sifields i) = SI_PAD_SIZE) -> is_signal sig -> arg_ok sig a ->
  (sig < SIGRTMIN -> sigismember set sig = false) -> sent q sig pid uid a l set = (r, l', set') -> good l' set'.
Proof.
  intros Hg Hlen Hs Ha Hnew. unfold sent.
  assert (Hadd : good l (sigaddset set sig)).
  { eapply good_sub; [done|done|apply sigadd_wf, Hg|]. intros e He Hm. pose proof (g_info _ _ Hg) as Hi. rewrite Forall_forall in Hi.
    destruct (Hi e He) as [Hse _]. rewrite member_add, Hm by done. apply orb_true_r. }
  destruct q as [[b i]|].
  - pose proof (Hlen b i eq_refl) as Hl. intros [= <- <- <-].
    destruct (queued_info_wf sig pid uid a i Hs Ha Hl) as [Hw Hsig]. constructor.
    + apply Hadd.
    + apply Forall_app. split; [apply Hg|]. by constructor.
    + apply Forall_app. split; [apply Hadd|]. constructor; [|constructor]. unfold signo. cbn. rewrite Hsig, member_add, Z.eqb_refl; done.
    + rewrite fmap_app. replace (signo <$> [(b, queued_info sig pid uid a i)]) with [sig] by (unfold signo; cbn [fmap list_fmap snd]; by rewrite Hsig).
      rewrite filter_app, filter_cons, filter_nil. case_decide as Hlt; [|rewrite app_nil_r; apply Hg].
      apply NoDup_app. split_and!; [apply Hg| |apply NoDup_singleton]. intros n [_ (e & -> & He)%list_elem_of_fmap]%list_elem_of_filter Hn%list_elem_of_singleton.
      specialize (Hnew Hlt). pose proof (g_pending _ _ Hg) as Hp. rewrite Forall_forall in Hp. specialize (Hp e He). rewrite Hn in Hp. congruence.
  - destruct (must_queue sig a); by intros [= <- <- <-].
Qed.

(** A task has something to notice when a pending signal is not blocked. *)
Lemma has_pending_iff s b : wf_set s -> has_pending_signals s b = true <-> exists n, is_signal n /\ deliverable s b n = true.
Proof.
  intros Hw. rewrite has_pending_next by done. destruct (next_signal_is_next s b Hw) as [[-> Hn]|(Hn & Hd & _)].
  - split; [done|]. intros (n & H1 & H2). by rewrite Hn in H2.
  - split; [by eauto|]. intros _. apply negb_true_iff, Z.eqb_neq. destruct Hn. lia.
Qed.
