(* ===== verification/Signal.v ===== *)
(** Signals: kernel/signal.c, with the inline functions of include/linux/sched.h that it uses.

    The state is that of Task (credentials, sessions, the list of tasks), the heap of SigQueue, and
    for each task the fields that belong to signals; the handlers are shared by the tasks that point
    to the same [signal_struct]. A lookup of something that does not exist is [Bug].

    Locks are not modelled: each function runs with the lock that the source takes around it. Waking
    a task sets its state; the run queue is not modelled. *)
From S2P Require Import Prelude Task SigQueue.

Definition EINTR : Z := 4.
Definition ENOMEM : Z := 12.
Definition SIGKILL : Z := 9.
Definition SIGSEGV : Z := 11.
Definition SIGCHLD : Z := 17.
Definition SIGCONT : Z := 18.
Definition SIGSTOP : Z := 19.
Definition SIGTSTP : Z := 20.
Definition SIGTTIN : Z := 21.
Definition SIGTTOU : Z := 22.
Definition SIGURG : Z := 23.
Definition SIGWINCH : Z := 28.
Definition SIG_DFL : Z := 0.
Definition SIG_IGN : Z := 1.
Definition SIG_BLOCK : Z := 0.
Definition SIG_UNBLOCK : Z := 1.
Definition SIG_SETMASK : Z := 2.
Definition SS_ONSTACK : Z := 1.
Definition SS_DISABLE : Z := 2.
Definition MINSIGSTKSZ : Z := 2048.
Definition TASK_RUNNING : Z := 0.
Definition TASK_INTERRUPTIBLE : Z := 1.
Definition TASK_STOPPED : Z := 8.
Definition CAP_KILL : Z := 5.
Definition CLD_EXITED : Z := (4 .<< 16) .| 1.
Definition CLD_KILLED : Z := (4 .<< 16) .| 2.
Definition CLD_DUMPED : Z := (4 .<< 16) .| 3.
Definition CLD_TRAPPED : Z := (4 .<< 16) .| 4.
Definition CLD_STOPPED : Z := (4 .<< 16) .| 5.

(** ** Data *)
Record sigaction := Sigaction { sa_handler : Z; sa_flags : Z; sa_restorer : Z; sa_mask : sigset_t }.
#[export] Instance sigaction_fields : Fields sigaction := fun a =>
  Sigaction (sa_handler a) (sa_flags a) (sa_restorer a) (sa_mask a).
Record signal_struct := Signal_struct { scount : Z; action : list sigaction }.
#[export] Instance signal_struct_fields : Fields signal_struct := fun s => Signal_struct (scount s) (action s).

(** What a task has besides the fields of [Task.task] and its list of pending signals; [sig] is the
    address of its handlers or 0, [notifier_mask] the set that the pointer names. *)
Record sigtask := Sigtask {
  tgid : Z; tstate : Z; ptraced : bool; sigpending : bool;
  blocked : sigset_t; sig : Z;
  exit_code : Z; signaled : bool;
  notifier : Z; notifier_data : Z; notifier_mask : sigset_t;
  sas_ss_sp : Z; sas_ss_size : Z;
  next_thread : Z; tms_utime : Z; tms_stime : Z }.
#[export] Instance sigtask_fields : Fields sigtask := fun t =>
  Sigtask (tgid t) (tstate t) (ptraced t) (sigpending t) (blocked t) (sig t) (exit_code t) (signaled t)
    (notifier t) (notifier_data t) (notifier_mask t) (sas_ss_sp t) (sas_ss_size t) (next_thread t)
    (tms_utime t) (tms_stime t).

(** [waked]: the wait queues [wait_chldexit] that were woken up, by task. *)
Record world := World {
  sys : system; sq : store;
  stasks : gmap Z sigtask; hands : gmap Z signal_struct;
  waked : list Z }.
#[export] Instance world_fields : Fields world := fun w =>
  World (sys w) (sq w) (stasks w) (hands w) (waked w).

(** ** The monad *)
Definition W (A : Type) : Type := world -> outcome (A * world).
#[export] Instance W_ret : MRet W := fun A a w => Ok (a, w).
#[export] Instance W_bind : MBind W := fun A B f m w =>
  match m w with Ok (a, w) => f a w | Bug => Bug end.

Definition wgets {A} (f : world -> A) : W A := fun w => Ok (f w, w).
Definition wmodify (f : world -> world) : W unit := fun w => Ok (tt, f w).
Definition on_store {A} (m : Q A) : W A := fun w =>
  match m (sq w) with Ok (a, s) => Ok (a, w <| sq := s |>) | Bug => Bug end.
Definition on_system {A} (m : M A) : W A := fun w => let '(a, s) := m (sys w) in Ok (a, w <| sys := s |>).
Definition when (c : bool) (m : W unit) : W unit := if c then m else mret tt.

Definition the_task (p : Z) : W sigtask := fun w =>
  match stasks w !! p with Some t => Ok (t, w) | None => Bug end.
Definition set_stask (p : Z) (f : sigtask -> sigtask) : W unit :=
  t ← the_task p; wmodify (fun w => w <| stasks := <[p := f t]> (stasks w) |>).
Definition hand (a : Z) : W signal_struct := fun w =>
  match hands w !! a with Some h => Ok (h, w) | None => Bug end.
Definition set_hand (a : Z) (h : signal_struct) : W unit :=
  wmodify (fun w => w <| hands := <[a := h]> (hands w) |>).
Definition the_current : W Z := wgets (fun w => current (sys w)).
Definition creds (p : Z) : W task := wgets (fun w => task_at (sys w) p).

Definition given {A} (o : option A) : W A := fun w => match o with Some a => Ok (a, w) | None => Bug end.
(** [signals->action[sig-1]] *)
Definition the_action (a n : Z) : W sigaction :=
  h ← hand a;
  given (if 1 <=? n then action h !! Z.to_nat (n - 1) else None).
Definition set_action (a n : Z) (k : sigaction) : W unit :=
  h ← hand a; set_hand a (h <| action := <[Z.to_nat (n - 1) := k]> (action h) |>).

(** ** Functions of include/linux/sched.h *)
Definition recalc_sigpending (p : Z) : W unit :=
  t ← the_task p;
  l ← on_store (pending p);
  set_stask p (fun t => t <| sigpending := has_pending_signals (signal l) (blocked t) |>).
Definition on_sig_stack (t : sigtask) (sp : Z) : bool := u32 (sp - sas_ss_sp t) <? sas_ss_size t.
Definition sas_ss_flags (t : sigtask) (sp : Z) : Z :=
  if sas_ss_size t =? 0 then SS_DISABLE else if on_sig_stack t sp then SS_ONSTACK else 0.
Definition thread_group_leader (p : Z) (t : sigtask) : bool := p =? tgid t.

(** ** Flushing *)
Definition flush_signals (p : Z) : W unit :=
  _ ← set_stask p (fun t => t <| sigpending := false |>); on_store (flush_sigqueue p).

(** [kmem_cache_free] of the handlers takes them off the heap. *)
Definition exit_sighand (p : Z) : W unit :=
  t ← the_task p;
  _ ← when (negb (sig t =? 0))
        (_ ← set_stask p (fun t => t <| sig := 0 |>);
         h ← hand (sig t);
         let h := h <| scount := s32 (scount h - 1) |> in
         _ ← set_hand (sig t) h;
         when (scount h =? 0) (wmodify (fun w => w <| hands := delete (sig t) (hands w) |>)));
  _ ← set_stask p (fun t => t <| sigpending := false |>);
  on_store (flush_sigqueue p).

Definition flushed_action (k : sigaction) : sigaction :=
  let k := if negb (sa_handler k =? SIG_IGN) then k <| sa_handler := SIG_DFL |> else k in
  k <| sa_flags := 0 |> <| sa_mask := sigemptyset |>.
Definition flush_signal_handlers (p : Z) : W unit :=
  t ← the_task p;
  h ← hand (sig t);
  set_hand (sig t) (h <| action := (flushed_action <$> take (Z.to_nat _NSIG) (action h)) ++ drop (Z.to_nat _NSIG) (action h) |>).

(** ** The notifier of a driver *)
Definition block_all_signals (fn priv : Z) (mask : sigset_t) : W unit :=
  c ← the_current;
  set_stask c (fun t => t <| notifier_mask := mask |> <| notifier_data := priv |> <| notifier := fn |>).
Definition unblock_all_signals : W unit :=
  c ← the_current;
  _ ← set_stask c (fun t => t <| notifier := 0 |> <| notifier_data := 0 |>);
  recalc_sigpending c.

Section Notifier.
(** What the notifier of a driver returns for its data. *)
Context (call_notifier : Z -> Z -> bool).

(** The number of the signal, or 0, and what [info] holds afterwards. *)
Definition dequeue_signal (mask : sigset_t) (info : siginfo) : W (Z * siginfo) :=
  c ← the_current;
  t ← the_task c;
  l ← on_store (pending c);
  let sig := next_signal (signal l) mask in
  if truth sig && truth (notifier t) && sigismember (notifier_mask t) sig
     && negb (call_notifier (notifier t) (notifier_data t)) then
    _ ← set_stask c (fun t => t <| sigpending := false |>); mret (0, info)
  else
    r ← (if truth sig then
           x ← on_store (collect_signal sig c info);
           let '(found, info) := x in mret (if (found : bool) then sig else 0, info)
         else mret (sig, info));
    _ ← recalc_sigpending c;
    mret r.
End Notifier.

(** ** Sending *)

(** The conditions of [bad_signal] before [capable]. *)
Definition from_user (a : info_arg) : bool :=
  match a with Info_user => true | Info_kernel => false | Info i => SI_FROMUSER i end.
Definition foreign (sig : Z) (c t : task) : bool :=
  (negb (sig =? SIGCONT) || negb (session c =? session t))
  && truth (euid c .^ suid t) && truth (euid c .^ uid t)
  && truth (uid c .^ suid t) && truth (uid c .^ uid t).
Definition bad_signal (sig : Z) (a : info_arg) (p : Z) : W bool :=
  c ← the_current;
  me ← creds c;
  t ← creds p;
  on_system (refused (from_user a && foreign sig me t) CAP_KILL).

(** The rest of [signal_type], once the handler is known. *)
Definition handler_type (n handler : Z) : Z :=
  if 1 <? handler then 1
  else if handler =? 1 then (if n =? SIGCHLD then 1 else 0)
  else if existsb (Z.eqb n) [SIGCONT; SIGWINCH; SIGCHLD; SIGURG] then 0
  else if existsb (Z.eqb n) [SIGTSTP; SIGTTIN; SIGTTOU] then 1
  else -1.
Definition signal_type (n signals : Z) : W Z :=
  if signals =? 0 then mret 0
  else k ← the_action signals n; mret (handler_type n (sa_handler k)).

Definition ignored_signal (n p : Z) : W bool :=
  t ← the_task p;
  if ptraced t || sigismember (blocked t) n then mret false
  else ty ← signal_type n (sig t); mret (ty =? 0).

Definition wake_up_process (p : Z) : W unit := set_stask p (fun t => t <| tstate := TASK_RUNNING |>).
Definition rm_sig_from_queue (n p : Z) : W bool := on_store (rm_from_queue n p).

Definition handle_stop_signal (n p : Z) : W unit :=
  if existsb (Z.eqb n) [SIGKILL; SIGCONT] then
    t ← the_task p;
    _ ← when (tstate t =? TASK_STOPPED) (wake_up_process p);
    _ ← set_stask p (fun t => t <| exit_code := 0 |>);
    _ ← rm_sig_from_queue SIGSTOP p;
    _ ← rm_sig_from_queue SIGTSTP p;
    _ ← rm_sig_from_queue SIGTTOU p;
    _ ← rm_sig_from_queue SIGTTIN p;
    mret tt
  else if existsb (Z.eqb n) [SIGSTOP; SIGTSTP; SIGTTIN; SIGTTOU] then
    _ ← rm_sig_from_queue SIGCONT p; mret tt
  else mret tt.

Definition signal_wake_up (p : Z) : W unit :=
  _ ← set_stask p (fun t => t <| sigpending := true |>);
  t ← the_task p;
  when (truth (tstate t .& TASK_INTERRUPTIBLE)) (wake_up_process p).

Definition deliver_signal (n : Z) (a : info_arg) (p : Z) : W Z :=
  c ← the_current;
  me ← creds c;
  retval ← on_store (send_signal n c (uid me) a p);
  t ← the_task p;
  _ ← when (negb (truth retval) && negb (sigismember (blocked t) n)) (signal_wake_up p);
  mret retval.

Definition send_sig_info (n : Z) (a : info_arg) (p : Z) : W Z :=
  if (n <? 0) || (_NSIG <? n) then mret (- EINVAL)
  else
    bad ← bad_signal n a p;
    if (bad : bool) then mret (- EPERM)
    else
      t ← the_task p;
      if negb (truth n) || (sig t =? 0) then mret 0
      else
        _ ← handle_stop_signal n p;
        ign ← ignored_signal n p;
        if (ign : bool) then mret 0
        else
          l ← on_store (pending p);
          if (n <? SIGRTMIN) && sigismember (signal l) n then mret 0
          else deliver_signal n a p.

Definition force_sig_info (n : Z) (a : info_arg) (p : Z) : W Z :=
  t ← the_task p;
  if sig t =? 0 then mret (- ESRCH)
  else
    k ← the_action (sig t) n;
    _ ← when (sa_handler k =? SIG_IGN) (set_action (sig t) n (k <| sa_handler := SIG_DFL |>));
    _ ← set_stask p (fun t => t <| blocked := sigdelset (blocked t) n |>);
    _ ← recalc_sigpending p;
    send_sig_info n a p.

(** [for_each_task] *)
Fixpoint each {A} (f : Z -> A -> W A) (ps : list Z) (a : A) : W A :=
  match ps with
  | [] => mret a
  | p :: ps => a ← f p a; each f ps a
  end.
Definition for_each {A} (f : Z -> A -> W A) (a : A) : W A :=
  ps ← wgets (fun w => task_list (sys w)); each f ps a.

(** [if (retval) retval = err;] *)
Definition first_ok (retval err : Z) : Z := if truth retval then err else retval.

Definition kill_pg_info (n : Z) (a : info_arg) (pg : Z) : W Z :=
  if 0 <? pg then
    for_each (fun p retval =>
      t ← the_task p; c ← creds p;
      if (pgrp c =? pg) && thread_group_leader p t then
        err ← send_sig_info n a p; mret (first_ok retval err)
      else mret retval) (- ESRCH)
  else mret (- EINVAL).

Definition kill_sl_info (n : Z) (a : info_arg) (sess : Z) : W Z :=
  if 0 <? sess then
    for_each (fun p retval =>
      c ← creds p;
      if leader c && (session c =? sess) then
        err ← send_sig_info n a p; mret (first_ok retval err)
      else mret retval) (- ESRCH)
  else mret (- EINVAL).

(** The task with a number, if there is one. *)
Definition find_pid (pid : Z) : W (option Z) := wgets (fun w => (fun _ => pid) <$> stasks w !! pid).

Definition kill_proc_info (n : Z) (a : info_arg) (pid : Z) : W Z :=
  p ← find_pid pid;
  match p with
  | None => mret (- ESRCH)
  | Some p =>
      t ← the_task p;
      p ← (if negb (thread_group_leader p t) then
             tg ← find_pid (tgid t);
             mret (match tg with Some tg => tg | None => p end)
           else mret p);
      send_sig_info n a p
  end.

Definition kill_something_info (n : Z) (a : info_arg) (pid : Z) : W Z :=
  if negb (truth pid) then c ← the_current; me ← creds c; kill_pg_info n a (pgrp me)
  else if pid =? -1 then
    me ← the_current;
    r ← for_each (fun p rc =>
          let '(retval, count) := rc in
          t ← the_task p;
          if (1 <? p) && negb (p =? me) && thread_group_leader p t then
            err ← send_sig_info n a p;
            mret (if negb (err =? - EPERM) then err else retval, count + 1)
          else mret rc) (0, 0);
    let '(retval, count) := r in
    mret (if truth count then retval else - ESRCH)
  else if pid <? 0 then kill_pg_info n a (s32 (- pid))
  else kill_proc_info n a pid.

(** [(void* )(long)(priv != 0)] *)
Definition priv_info (priv : Z) : info_arg := if truth priv then Info_kernel else Info_user.
Definition send_sig (n p priv : Z) : W Z := send_sig_info n (priv_info priv) p.
Definition force_sig (n p : Z) : W unit := _ ← force_sig_info n Info_kernel p; mret tt.
Definition kill_pg (pg n priv : Z) : W Z := kill_pg_info n (priv_info priv) pg.
Definition kill_sl (sess n priv : Z) : W Z := kill_sl_info n (priv_info priv) sess.
Definition kill_proc (pid n priv : Z) : W Z := kill_proc_info n (priv_info priv) pid.

(** ** Telling the parent *)

(** [do { ... tsk = next_thread(tsk); } while (tsk != parent);], at most [n] times. *)
Fixpoint wake_loop (n : nat) (tsk parent : Z) : W unit :=
  match n with
  | O => given None
  | S n =>
      _ ← wmodify (fun w => w <| waked := waked w ++ [tsk] |>);
      t ← the_task tsk;
      if negb (next_thread t =? parent) then wake_loop n (next_thread t) parent else mret tt
  end.
(** A ring of different tasks is walked. *)
Definition ring_fuel (w : world) : nat := S (size (stasks w)).
Definition wake_up_parent (parent : Z) : W unit := n ← wgets ring_fuel; wake_loop n parent parent.

(** [why] and [status] *)
Definition child_code (t : sigtask) : Z * Z :=
  let status := exit_code t .& 0x7f in
  if tstate t =? TASK_STOPPED then (if ptraced t then CLD_TRAPPED else CLD_STOPPED, status)
  else if truth (exit_code t .& 0x80) then (CLD_DUMPED, status)
  else if truth (exit_code t .& 0x7f) then (CLD_KILLED, status)
  else (CLD_EXITED, exit_code t .>> 8).

(** [stack] is what the local variable [info] holds when it comes into being. *)
Definition do_notify_parent (stack : siginfo) (p n : Z) : W unit :=
  t ← the_task p;
  c ← creds p;
  let info := stack <| si_signo := n |> <| si_errno := 0 |> in
  let info := set_si_uid (uid c) (set_si_pid p info) in
  let info := set_si_stime (tms_stime t) (set_si_utime (tms_utime t) info) in
  let '(why, status) := child_code t in
  let info := set_si_status status (info <| si_code := why |>) in
  _ ← send_sig_info n (Info info) (p_pptr c);
  wake_up_parent (p_pptr c).
Definition notify_parent : siginfo -> Z -> Z -> W unit := do_notify_parent.

Section Exit.
Context (do_exit : Z -> W unit).

Fixpoint thread_loop (n : nat) (sig : Z) (a : info_arg) (t me : Z) : W unit :=
  match n with
  | O => given None
  | S n =>
      if t =? me then mret tt
      else _ ← force_sig_info sig a t; x ← the_task t; thread_loop n sig a (next_thread x) me
  end.
Definition sig_exit (sig code : Z) (a : info_arg) : W unit :=
  c ← the_current;
  l ← on_store (pending c);
  _ ← on_store (set_pending c (l <| signal := sigaddset (signal l) sig |>));
  _ ← recalc_sigpending c;
  _ ← set_stask c (fun t => t <| signaled := true |>);
  _ ← when (match a with Info i => negb (si_code i =? SI_TKILL) | _ => false end)
        (n ← wgets ring_fuel; t ← the_task c; thread_loop n sig a (next_thread t) c);
  do_exit code.
End Exit.

(** ** System calls *)

(** A pointer to user memory that is read: NULL, not readable, or what is there; one that is written
    to: NULL, not writable or writable. *)
Inductive from (A : Type) := From_null | From_bad | From (a : A).
Arguments From_null {A}. Arguments From_bad {A}. Arguments From {A} a.
Inductive to := To_null | To_bad | To_good.
Definition to_null (o : to) : bool := match o with To_null => true | _ => false end.

(** A system call returns its result and what it stored for the user. *)
Definition sizeof_sigset : Z := 8.
(** [if (copy_to_user(dst, &v, n)) return -EFAULT;] *)
Definition copy_out {A} (o : to) (v : A) : W (Z * option A) :=
  match o with To_good => mret (0, Some v) | _ => mret (- EFAULT, None) end.
Definition unblockable : Z := sigmask SIGKILL .| sigmask SIGSTOP.

Definition sys_rt_sigprocmask (how : Z) (set : from sigset_t) (oset : to) (sigsetsize : Z) : W (Z * option sigset_t) :=
  c ← the_current;
  if negb (sigsetsize =? sizeof_sigset) then mret (- EINVAL, None)
  else
    match set with
    | From_bad => mret (- EFAULT, None)
    | From new_set =>
        let new_set := sigdelsetmask new_set unblockable in
        t ← the_task c;
        let old_set := blocked t in
        let '(error, new_set) :=
          if how =? SIG_BLOCK then (0, sigorsets old_set new_set)
          else if how =? SIG_UNBLOCK then (0, signandsets old_set new_set)
          else if how =? SIG_SETMASK then (0, new_set)
          else (- EINVAL, new_set) in
        _ ← set_stask c (fun t => t <| blocked := new_set |>);
        _ ← recalc_sigpending c;
        if truth error then mret (error, None)
        else if negb (to_null oset) then copy_out oset old_set
        else mret (0, None)
    | From_null =>
        if negb (to_null oset) then t ← the_task c; copy_out oset (blocked t) else mret (0, None)
    end.

(** The words of a set as the bytes in memory, least significant first. *)
Definition word_bytes (x : Z) : list Z := (fun i => u8 (x .>> i)) <$> [0; 8; 16; 24].
Definition set_bytes (s : sigset_t) : list Z := word_bytes (sig0 s) ++ word_bytes (sig1 s).
(** A copy of no bytes succeeds at any address. *)
Definition do_sigpending (set : to) (sigsetsize : Z) : W (Z * option (list Z)) :=
  if sizeof_sigset <? sigsetsize then mret (- EINVAL, None)
  else
    c ← the_current;
    t ← the_task c;
    l ← on_store (pending c);
    let pending := sigandsets (blocked t) (signal l) in
    if sigsetsize =? 0 then mret (0, Some []) else copy_out set (take (Z.to_nat sigsetsize) (set_bytes pending)).
Definition sys_rt_sigpending : to -> Z -> W (Z * option (list Z)) := do_sigpending.
Definition sys_sigpending (set : to) : W (Z * option (list Z)) := do_sigpending set 4.

(** [copy_siginfo_to_user] to memory that holds [dst]; [None] is a fault. *)
Definition user_info (dst from : siginfo) : siginfo :=
  if si_code from <? 0 then from
  else
    let dst := dst <| si_signo := si_signo from |> <| si_errno := si_errno from |> <| si_code := s16 (si_code from) |> in
    let dst := set_si_pid (si_pid from) dst in
    let kind := si_code from .>> 16 in
    if kind =? 3 then dst
    else
      let dst := if kind =? 4 then
                   set_si_status (get (_sifields from) 2)
                     (set_si_stime (get (_sifields from) 4) (set_si_utime (get (_sifields from) 3) dst))
                 else dst in
      set_si_uid (si_uid from) dst.
Definition copy_siginfo_to_user (o : to) (dst from : siginfo) : Z * option siginfo :=
  match o with To_good => (0, Some (user_info dst from)) | _ => (- EFAULT, None) end.

Section Sleep.
Context (call_notifier : Z -> Z -> bool).
(** Sleeping for a time or until woken; what happens meanwhile is part of the action. *)
Context (schedule_timeout : Z -> W Z).

Definition HZ : Z := 100.
Definition LONG_MAX : Z := 2 ^ 31 - 1.
Definition MAX_SCHEDULE_TIMEOUT : Z := LONG_MAX.
Definition MAX_JIFFY_OFFSET : Z := LONG_MAX - 1.
Definition timespec_to_jiffies (tv_sec tv_nsec : Z) : Z :=
  if MAX_JIFFY_OFFSET / HZ <=? u32 tv_sec then MAX_JIFFY_OFFSET
  else
    let nsec := s32 (tv_nsec + (1000000000 / HZ - 1)) in
    let nsec := Z.quot nsec (1000000000 / HZ) in
    u32 (HZ * u32 tv_sec + nsec).

(** [stack]: what [info] holds at first; [dst]: what the memory at [uinfo] holds. *)
Definition sys_rt_sigtimedwait (stack dst : siginfo) (uthese : from sigset_t) (uinfo : to) (uts : from (Z * Z)) (sigsetsize : Z)
    : W (Z * option siginfo) :=
  if negb (sigsetsize =? sizeof_sigset) then mret (- EINVAL, None)
  else
    match uthese with
    | From_null | From_bad => mret (- EFAULT, None)
    | From these =>
        let these := signotset (sigdelsetmask these unblockable) in
        match uts with
        | From_bad => mret (- EFAULT, None)
        | _ =>
          let ts := match uts with From ts => ts | _ => (0, 0) end in
          let '(tv_sec, tv_nsec) := ts in
          let given_ts := match uts with From _ => true | _ => false end in
          if given_ts && ((1000000000 <=? tv_nsec) || (tv_nsec <? 0) || (tv_sec <? 0)) then mret (- EINVAL, None)
          else
            c ← the_current;
            r ← dequeue_signal call_notifier these stack;
            let '(sig, info) := r in
            r ← (if negb (truth sig) then
                   let timeout := if given_ts then s32 (timespec_to_jiffies tv_sec tv_nsec + (if truth tv_sec || truth tv_nsec then 1 else 0))
                                  else MAX_SCHEDULE_TIMEOUT in
                   if truth timeout then
                     t ← the_task c;
                     let oldblocked := blocked t in
                     _ ← set_stask c (fun t => t <| blocked := sigandsets (blocked t) these |>);
                     _ ← recalc_sigpending c;
                     _ ← set_stask c (fun t => t <| tstate := TASK_INTERRUPTIBLE |>);
                     timeout ← schedule_timeout timeout;
                     r ← dequeue_signal call_notifier these info;
                     let '(sig, info) := r in
                     _ ← set_stask c (fun t => t <| blocked := oldblocked |>);
                     _ ← recalc_sigpending c;
                     mret (sig, info, timeout)
                   else mret (sig, info, timeout)
                 else mret (sig, info, 0));
            let '(sig, info, timeout) := r in
            if truth sig then
              if negb (to_null uinfo) then
                let '(err, stored) := copy_siginfo_to_user uinfo dst info in
                mret (if truth err then - EFAULT else sig, stored)
              else mret (sig, None)
            else mret (if truth timeout then - EINTR else - EAGAIN, None)
        end
    end.
End Sleep.

Definition sys_kill (stack : siginfo) (pid n : Z) : W Z :=
  c ← the_current; me ← creds c;
  kill_something_info n (Info (fill_info n SI_USER c (uid me) stack)) pid.

Definition sys_tkill (stack : siginfo) (pid n : Z) : W Z :=
  if pid <=? 0 then mret (- EINVAL)
  else
    c ← the_current; me ← creds c;
    let info := fill_info n SI_TKILL c (uid me) stack in
    p ← find_pid pid;
    match p with
    | Some p => send_sig_info n (Info info) p
    | None => mret (- ESRCH)
    end.

Definition sys_rt_sigqueueinfo (pid n : Z) (uinfo : from siginfo) : W Z :=
  match uinfo with
  | From info =>
      if 0 <=? si_code info then mret (- EPERM)
      else kill_proc_info n (Info (info <| si_signo := n |>)) pid
  | _ => mret (- EFAULT)
  end.

(** Whether setting this action discards a pending signal. *)
Definition discards (n : Z) (k : sigaction) : bool :=
  (sa_handler k =? SIG_IGN) || ((sa_handler k =? SIG_DFL) && existsb (Z.eqb n) [SIGCONT; SIGCHLD; SIGURG; SIGWINCH]).

(** [oact] is given back always: the caller ignores it when it passed NULL. *)
Definition do_sigaction (n : Z) (act : option sigaction) : W (Z * option sigaction) :=
  if (n <? 1) || (_NSIG <? n) || (bool_decide (is_Some act) && ((n =? SIGKILL) || (n =? SIGSTOP))) then mret (- EINVAL, None)
  else
    c ← the_current;
    t ← the_task c;
    k ← the_action (sig t) n;
    match act with
    | None => mret (0, Some k)
    | Some act =>
        let k' := act <| sa_mask := sigdelsetmask (sa_mask act) unblockable |> in
        _ ← set_action (sig t) n k';
        _ ← when (discards n k')
              (found ← rm_sig_from_queue n c; when found (recalc_sigpending c));
        mret (0, Some k)
    end.

Definition sys_rt_sigaction (n : Z) (act : from sigaction) (oact : to) (sigsetsize : Z) : W (Z * option sigaction) :=
  if negb (sigsetsize =? sizeof_sigset) then mret (- EINVAL, None)
  else
    match act with
    | From_bad => mret (- EFAULT, None)
    | _ =>
      r ← do_sigaction n (match act with From a => Some a | _ => None end);
      match r with
      | (0, Some old) => if negb (to_null oact) then copy_out oact old else mret (0, None)
      | (ret, _) => mret (ret, None)
      end
    end.

(** [stack_t] as the triple of [ss_sp], [ss_flags] and [ss_size]. *)
Definition do_sigaltstack (uss : from (Z * Z * Z)) (uoss : to) (sp : Z) : W (Z * option (Z * Z * Z)) :=
  c ← the_current;
  t ← the_task c;
  let oss := (sas_ss_sp t, sas_ss_flags t sp, sas_ss_size t) in
  let out : W (Z * option (Z * Z * Z)) := if negb (to_null uoss) then copy_out uoss oss else mret (0, None) in
  match uss with
  | From_null => out
  | From_bad => mret (- EFAULT, None)
  | From (ss_sp, ss_flags, ss_size) =>
      if on_sig_stack t sp then mret (- EPERM, None)
      else if negb (ss_flags =? SS_DISABLE) && negb (ss_flags =? SS_ONSTACK) && negb (ss_flags =? 0) then mret (- EINVAL, None)
      else if ss_flags =? SS_DISABLE then
        _ ← set_stask c (fun t => t <| sas_ss_sp := 0 |> <| sas_ss_size := 0 |>); out
      else if ss_size <? MINSIGSTKSZ then mret (- ENOMEM, None)
      else _ ← set_stask c (fun t => t <| sas_ss_sp := ss_sp |> <| sas_ss_size := ss_size |>); out
  end.

Definition sys_sigprocmask (how : Z) (set : from Z) (oset : to) : W (Z * option Z) :=
  c ← the_current;
  match set with
  | From_bad => mret (- EFAULT, None)
  | From new_set =>
      let new_set := new_set .& not32 unblockable in
      t ← the_task c;
      let old_set := sig0 (blocked t) in
      let '(error, b) :=
        if how =? SIG_BLOCK then (0, sigaddsetmask (blocked t) new_set)
        else if how =? SIG_UNBLOCK then (0, sigdelsetmask (blocked t) new_set)
        else if how =? SIG_SETMASK then (0, (blocked t) <| sig0 := new_set |>)
        else (- EINVAL, blocked t) in
      _ ← set_stask c (fun t => t <| blocked := b |>);
      _ ← recalc_sigpending c;
      if truth error then mret (error, None)
      else if negb (to_null oset) then copy_out oset old_set
      else mret (0, None)
  | From_null =>
      if negb (to_null oset) then t ← the_task c; copy_out oset (sig0 (blocked t)) else mret (0, None)
  end.

(** ** The invariant *)

(** Signals that cannot be blocked. *)
Definition safe_set (b : sigset_t) : Prop :=
  wf_set b /\ sigismember b SIGKILL = false /\ sigismember b SIGSTOP = false.

(** A table of handlers: complete, SIGKILL and SIGSTOP with their default action, and masks that do
    not block them. *)
Record handlers_ok (h : signal_struct) : Prop := {
  h_len : length (action h) = Z.to_nat _NSIG;
  h_default : forall n k, n = SIGKILL \/ n = SIGSTOP -> action h !! Z.to_nat (n - 1) = Some k -> sa_handler k = SIG_DFL;
  h_masks : Forall (fun k => safe_set (sa_mask k)) (action h)
}.
(** The tasks that use the handlers at [a]. *)
Definition users (ts : gmap Z sigtask) (a : Z) : gmap Z sigtask := filter (fun pt => sig pt.2 = a) ts.

Record task_ok (t : sigtask) (set : sigset_t) : Prop := {
  t_blocked : safe_set (blocked t);
  t_seen : notifier t = 0 -> has_pending_signals set (blocked t) = true -> sigpending t = true
}.

Record Inv (w : world) (qs : Z -> list entry) : Prop := {
  i_queues : Queues (sq w) qs;
  i_good : forall p pd, pendings (sq w) !! p = Some pd -> good (qs p) (signal pd);
  i_both : forall p, is_Some (stasks w !! p) <-> is_Some (pendings (sq w) !! p);
  i_task : forall p t pd, stasks w !! p = Some t -> pendings (sq w) !! p = Some pd -> task_ok t (signal pd);
  i_hands : forall a h, hands w !! a = Some h -> a <> 0 /\ handlers_ok h /\ scount h = Z.of_nat (size (users (stasks w) a)) /\ 0 < scount h < 2 ^ 31;
  i_sig : forall p t, stasks w !! p = Some t -> sig t <> 0 -> is_Some (hands w !! sig t);
  i_current : is_Some (stasks w !! current (sys w));
  i_list : forall p, p ∈ task_list (sys w) -> is_Some (stasks w !! p)
}.

(** ** One task at a time *)

(** The world after task [p] and the queues changed. *)
Definition put (w : world) (p : Z) (t : sigtask) (s : store) : world :=
  World (sys w) s (<[p := t]> (stasks w)) (hands w) (waked w).
Lemma put_put w p t s t' s' : put (put w p t s) p t' s' = put w p t' s'.
Proof. unfold put. cbn. by rewrite insert_insert_eq. Qed.

(** What a function knows of the task it works on: its fields, its queue and its pending set. *)
Record here (w : world) (qs : Z -> list entry) (p : Z) (t : sigtask) (l : list entry) (set : sigset_t) : Prop := {
  e_queues : Queues (sq w) qs;
  e_task : stasks w !! p = Some t;
  e_queue : qs p = l;
  e_pending : pendings (sq w) !! p = Some (pd_of l set);
  e_good : good l set
}.
(** [m] returns [a], and changes only task [p]: its fields to [t], its queue to [l], its pending set to [set]. *)
Definition does {A} (m : W A) (w : world) (qs : Z -> list entry) (p : Z) (a : A) (t : sigtask) (l : list entry) (set : sigset_t) : Prop :=
  exists s, m w = Ok (a, put w p t s) /\ moved qs p l set (sq w) s /\ good l set.

Lemma does_here {A} (m : W A) w qs p a t l set : does m w qs p a t l set ->
  exists s, m w = Ok (a, put w p t s) /\ here (put w p t s) (upd qs p l) p t l set.
Proof.
  intros (s & Hr & Hm & Hg). exists s. split; [done|]. constructor; [apply Hm|apply lookup_insert_eq|apply upd_same|by eapply moved_pending|done].
Qed.
Lemma does_ret {A} (a : A) w qs p t l set : here w qs p t l set -> does (mret a) w qs p a t l set.
Proof.
  intros [H1 H2 H3 H4 H5]. exists (sq w). split_and!; [|by rewrite <- H3; apply (unchanged_moved _ _ _ _ H1 H4)|done].
  unfold put. rewrite insert_id by done. by destruct w.
Qed.
Lemma does_bind {A B} (m : W A) (f : A -> W B) w qs p a t1 l1 set1 b t2 l2 set2 :
  does m w qs p a t1 l1 set1 ->
  (forall w1, here w1 (upd qs p l1) p t1 l1 set1 -> sys w1 = sys w -> hands w1 = hands w -> does (f a) w1 (upd qs p l1) p b t2 l2 set2) ->
  does (m ≫= f) w qs p b t2 l2 set2.
Proof.
  intros Hd Hf. pose proof Hd as (s & Hr & Hm & Hg). destruct (does_here _ _ _ _ _ _ _ _ Hd) as (s' & Hr' & Hh).
  rewrite Hr in Hr'. injection Hr' as <-. destruct (Hf _ Hh eq_refl eq_refl) as (s2 & Hr2 & Hm2 & Hg2).
  exists s2. split_and!; [|by eapply queues_moved_trans|done]. unfold mbind, W_bind. by rewrite Hr, Hr2, put_put.
Qed.

Lemma does_next {A B} (m : W A) (f : A -> W B) w qs p a t1 l1 set1 s b t2 l2 set2 :
  m w = Ok (a, put w p t1 s) -> moved qs p l1 set1 (sq w) s -> does (f a) (put w p t1 s) (upd qs p l1) p b t2 l2 set2 ->
  does (m ≫= f) w qs p b t2 l2 set2.
Proof.
  intros Hr Hm (s2 & Hr2 & Hm2 & Hg2). exists s2. split_and!; [|by eapply queues_moved_trans|done]. unfold mbind, W_bind. by rewrite Hr, Hr2, put_put.
Qed.
(** A step that reads. *)
Lemma does_read {A B} (m : W A) (f : A -> W B) w qs p a b t l set :
  m w = Ok (a, w) -> does (f a) w qs p b t l set -> does (m ≫= f) w qs p b t l set.
Proof. intros Hr (s & H). exists s. unfold mbind, W_bind. by rewrite Hr. Qed.
Lemma does_gets {A} (f : world -> A) w qs p t l set : here w qs p t l set -> does (wgets f) w qs p (f w) t l set.
Proof. apply does_ret. Qed.
Lemma does_the_task w qs p t l set : here w qs p t l set -> does (the_task p) w qs p t t l set.
Proof.
  intros H. destruct (does_ret t _ _ _ _ _ _ H) as (s & Hr & Hm). exists s. split; [|done]. rewrite <- Hr.
  unfold the_task. by rewrite (e_task _ _ _ _ _ _ H).
Qed.
(** An action on the queues. *)
Lemma does_store {A} (m : Q A) w qs p a t l set l' set' s : here w qs p t l set ->
  m (sq w) = Ok (a, s) -> moved qs p l' set' (sq w) s -> good l' set' -> does (on_store m) w qs p a t l' set'.
Proof.
  intros H Hr Hm Hg. exists s. split_and!; [|done|done]. unfold on_store. rewrite Hr. unfold put. rewrite insert_id by apply H. by destruct w.
Qed.
Lemma does_pending w qs p t l set : here w qs p t l set -> does (on_store (pending p)) w qs p (pd_of l set) t l set.
Proof.
  intros H. eapply does_store; [done|by apply pending_ok, H| |apply H]. rewrite <- (e_queue _ _ _ _ _ _ H) at 1.
  apply (unchanged_moved _ _ _ _ (e_queues _ _ _ _ _ _ H) (e_pending _ _ _ _ _ _ H)).
Qed.
Lemma does_set f w qs p t l set : here w qs p t l set -> does (set_stask p f) w qs p tt (f t) l set.
Proof.
  intros H. exists (sq w). split_and!; [| |apply H].
  - unfold set_stask, the_task, mbind, W_bind. by rewrite (e_task _ _ _ _ _ _ H).
  - rewrite <- (e_queue _ _ _ _ _ _ H) at 1. apply (unchanged_moved _ _ _ _ (e_queues _ _ _ _ _ _ H) (e_pending _ _ _ _ _ _ H)).
Qed.
Lemma does_rm n w qs p t l set : here w qs p t l set -> is_signal n ->
  does (rm_sig_from_queue n p) w qs p (sigismember set n) t (without n l) (sigdelset set n).
Proof.
  intros H Hn. destruct H as [H1 H2 H3 H4 H5]. pose proof (rm_good_ok (sq w) qs p _ n H1 H4) as H. rewrite H3 in H.
  destruct (H H5 Hn) as (s & Hr & Hm & Hg). by eapply does_store; [constructor; done|done| |].
Qed.
Lemma does_when (c : bool) m w qs p t l set t' : here w qs p t l set ->
  (c = true -> does m w qs p tt t' l set) -> does (when c m) w qs p tt (if c then t' else t) l set.
Proof. intros H Hm. destruct c; [by apply Hm|]. by apply does_ret. Qed.

Lemma does_eq {A} (m : W A) w qs p a t l set a' t' l' set' :
  does m w qs p a t l set -> a = a' -> t = t' -> l = l' -> set = set' -> does m w qs p a' t' l' set'.
Proof. by intros ? <- <- <- <-. Qed.

(** A step of a sequence, with the facts about the new world. *)
Ltac step lem := eapply does_bind; [solve [eapply lem; eauto] | intros ?w' ?Hw' ?Hsys ?Hhands].

Definition seen (t : sigtask) (set : sigset_t) : sigtask := t <| sigpending := has_pending_signals set (blocked t) |>.
Lemma does_recalc w qs p t l set : here w qs p t l set -> does (recalc_sigpending p) w qs p tt (seen t set) l set.
Proof.
  intros H. unfold recalc_sigpending. step does_the_task. step does_pending. by apply (does_set (fun t => t <| sigpending := has_pending_signals set (blocked t) |>)).
Qed.

(** ** Stop signals *)
Definition is_stop (n : Z) : bool := existsb (Z.eqb n) [SIGSTOP; SIGTSTP; SIGTTIN; SIGTTOU].
Definition continues (n : Z) : bool := existsb (Z.eqb n) [SIGKILL; SIGCONT].
Definition resumed (t : sigtask) : sigtask :=
  (if tstate t =? TASK_STOPPED then t <| tstate := TASK_RUNNING |> else t) <| exit_code := 0 |>.
(** The task, its queue and its set after [handle_stop_signal]. *)
Definition stop_task (n : Z) (t : sigtask) : sigtask := if continues n then resumed t else t.
Definition stop_queue (n : Z) (l : list entry) : list entry :=
  if continues n then without SIGTTIN (without SIGTTOU (without SIGTSTP (without SIGSTOP l)))
  else if is_stop n then without SIGCONT l else l.
Definition stop_set (n : Z) (set : sigset_t) : sigset_t :=
  if continues n then sigdelset (sigdelset (sigdelset (sigdelset set SIGSTOP) SIGTSTP) SIGTTOU) SIGTTIN
  else if is_stop n then sigdelset set SIGCONT else set.

Lemma does_stop n w qs p t l set : here w qs p t l set ->
  does (handle_stop_signal n p) w qs p tt (stop_task n t) (stop_queue n l) (stop_set n set).
Proof.
  intros H. unfold handle_stop_signal, stop_task, stop_queue, stop_set, continues, is_stop.
  destruct (existsb (Z.eqb n) [SIGKILL; SIGCONT]).
  - step does_the_task. eapply does_bind; [eapply does_when; [done|]; intros _; by apply does_set|]. intros w1 H1 _ _.
    step (does_set (fun t => t <| exit_code := 0 |>)). do 4 (eapply does_bind; [apply does_rm; [done|by split]|intros ? ? _ _]).
    by apply does_ret.
  - destruct (existsb (Z.eqb n) [SIGSTOP; SIGTSTP; SIGTTIN; SIGTTOU]); [|by apply does_ret].
    eapply does_bind; [apply does_rm; [done|by split]|intros ? ? _ _]. by apply does_ret.
Qed.

(** ** Sending to one task *)
Definition action_of (w : world) (a n : Z) : option sigaction :=
  h ← hands w !! a; if 1 <=? n then action h !! Z.to_nat (n - 1) else None.
Lemma action_run w a n k : action_of w a n = Some k -> the_action a n w = Ok (k, w).
Proof.
  unfold action_of, the_action, hand. unfold mbind, W_bind, option_bind. destruct (hands w !! a); [|done]. unfold given. by intros ->.
Qed.
Lemma action_hands w w' a n : hands w' = hands w -> action_of w' a n = action_of w a n.
Proof. unfold action_of. by intros ->. Qed.
Lemma does_pure {A} (m : W A) a w qs p t l set : here w qs p t l set -> m w = Ok (a, w) -> does m w qs p a t l set.
Proof. intros H Hr. destruct (does_ret a _ _ _ _ _ _ H) as (s & Hr' & Hm). exists s. split; [|done]. by rewrite Hr. Qed.

Definition ignores (n : Z) (k : sigaction) (t : sigtask) : bool :=
  negb (ptraced t || sigismember (blocked t) n) && (handler_type n (sa_handler k) =? 0).
Lemma ignored_run n k w qs p t l set : here w qs p t l set -> sig t <> 0 -> action_of w (sig t) n = Some k ->
  ignored_signal n p w = Ok (ignores n k t, w).
Proof.
  intros H Hs Hk. unfold ignored_signal, ignores, the_task, signal_type, mbind, W_bind. rewrite (e_task _ _ _ _ _ _ H).
  destruct (ptraced t || sigismember (blocked t) n); [done|]. apply Z.eqb_neq in Hs as ->. by rewrite (action_run _ _ _ _ Hk).
Qed.

(** The task when it is told of a signal. *)
Definition woken (t : sigtask) : sigtask :=
  let t := t <| sigpending := true |> in
  if truth (tstate t .& TASK_INTERRUPTIBLE) then t <| tstate := TASK_RUNNING |> else t.
Lemma does_wake w qs p t l set : here w qs p t l set -> does (signal_wake_up p) w qs p tt (woken t) l set.
Proof.
  intros H. unfold signal_wake_up. step (does_set (fun t => t <| sigpending := true |>)). step does_the_task.
  eapply does_eq; [eapply does_when; [done|intros _; by apply does_set]|done..].
Qed.

Definition sender (w : world) : Z * Z := (current (sys w), uid (task_at (sys w) (current (sys w)))).
Definition delivered (q : option entry) (who : Z * Z) (a : info_arg) (n : Z) (t : sigtask) (l : list entry) (set : sigset_t)
    : Z * sigtask * list entry * sigset_t :=
  let '(r, l', set') := sent q n (fst who) (snd who) a l set in
  (r, if negb (truth r) && negb (sigismember (blocked t) n) then woken t else t, l', set').

Lemma does_deliver n a w qs p t l set r t' l' set' : here w qs p t l set -> is_signal n -> arg_ok n a ->
  (n < SIGRTMIN -> sigismember set n = false) -> delivered (room (sq w)) (sender w) a n t l set = (r, t', l', set') ->
  does (deliver_signal n a p) w qs p r t' l' set'.
Proof.
  intros H Hn Ha Hnew. unfold delivered. destruct (sent _ _ _ _ _ _ _) as [[r1 l1] set1] eqn:Es. intros [= <- <- <- <-].
  unfold deliver_signal. eapply does_read; [done|]. eapply does_read; [done|].
  destruct (send_ok (sq w) qs p _ n (fst (sender w)) (snd (sender w)) a r1 l1 set1 (e_queues _ _ _ _ _ _ H) (e_pending _ _ _ _ _ _ H)) as (s & Hr & Hm).
  { by rewrite (e_queue _ _ _ _ _ _ H). }
  eapply does_bind.
  { eapply does_store; [done|exact Hr|done|]. eapply sent_good; [apply H| |done|done|done|exact Es]. intros b i E. by destruct (room_facts _ _ _ E) as (_ & _ & _ & ? & _). }
  intros w1 H1 _ _. step does_the_task. eapply does_bind; [eapply does_when; [done|intros _; by apply does_wake]|]. intros w2 H2 _ _. by apply does_ret.
Qed.

(** What [send_sig_info] does once it is allowed, for a signal and a task that has handlers. *)
Definition posted (q : option entry) (who : Z * Z) (a : info_arg) (n : Z) (k : sigaction) (t : sigtask) (l : list entry) (set : sigset_t)
    : Z * sigtask * list entry * sigset_t :=
  let t := stop_task n t in
  let l := stop_queue n l in
  let set := stop_set n set in
  if ignores n k t then (0, t, l, set)
  else if (n <? SIGRTMIN) && sigismember set n then (0, t, l, set)
  else delivered q who a n t l set.

Lemma stop_task_same n t : sig (stop_task n t) = sig t /\ blocked (stop_task n t) = blocked t /\ notifier (stop_task n t) = notifier t
  /\ sigpending (stop_task n t) = sigpending t /\ ptraced (stop_task n t) = ptraced t.
Proof. unfold stop_task, resumed. destruct (continues n); [|done]. by destruct (_ =? _). Qed.

Definition post (n : Z) (a : info_arg) (p : Z) : W Z :=
  _ ← handle_stop_signal n p;
  ign ← ignored_signal n p;
  if (ign : bool) then mret 0
  else
    l ← on_store (pending p);
    if (n <? SIGRTMIN) && sigismember (signal l) n then mret 0
    else deliver_signal n a p.

(** A node, if there is one, is what the allocator gives; nothing else is freed before unless the signal stops or continues. *)
Definition offered (w : world) (n : Z) (q : option entry) : Prop :=
  (exists s, q = room s /\ max_queued_signals s = max_queued_signals (sq w)) /\ (continues n = false -> is_stop n = false -> q = room (sq w)).

Lemma handle_stop_other n p w : continues n = false -> is_stop n = false -> handle_stop_signal n p w = Ok (tt, w).
Proof. unfold continues, is_stop, handle_stop_signal. by intros -> ->. Qed.

Lemma does_post n a k w qs p t l set : here w qs p t l set -> is_signal n -> arg_ok n a -> sig t <> 0 -> action_of w (sig t) n = Some k ->
  exists q r t' l' set', offered w n q /\ posted q (sender w) a n k t l set = (r, t', l', set') /\ does (post n a p) w qs p r t' l' set'.
Proof.
  intros H Hn Ha Hs Hk. destruct (does_stop n _ _ _ _ _ _ H) as (s & Hrun & Hm & Hg).
  assert (Hh : here (put w p (stop_task n t) s) (upd qs p (stop_queue n l)) p (stop_task n t) (stop_queue n l) (stop_set n set)).
  { constructor; [apply Hm|apply lookup_insert_eq|apply upd_same|by eapply moved_pending|done]. }
  destruct (stop_task_same n t) as (Es & Eb & _).
  exists (room s). destruct (posted (room s) (sender w) a n k t l set) as [[[r t'] l'] set'] eqn:Ep. exists r, t', l', set'. split_and!.
  - split; [exists s; split; [done|apply Hm]|]. intros H1 H2. rewrite handle_stop_other in Hrun by done. injection Hrun as Hw.
    rewrite Hw. done.
  - done.
  - eapply does_next; [exact Hrun|exact Hm|]. unfold posted in Ep. rewrite <- Es in Hs, Hk.
    eapply does_read.
    { eapply ignored_run; [exact Hh|done|exact Hk]. }
    destruct (ignores n k (stop_task n t)); [injection Ep as <- <- <- <-; by apply does_ret|].
    eapply does_read; [unfold on_store; rewrite (pending_ok _ _ _ (e_pending _ _ _ _ _ _ Hh)); done|]. cbn [signal pd_of].
    destruct (_ && _) eqn:Ec; [injection Ep as <- <- <- <-; by apply does_ret|].
    eapply does_deliver; [exact Hh|done|done| |exact Ep]. intros Hlt%Z.ltb_lt. by rewrite Hlt in Ec.
Qed.

(** ** The invariant is kept *)
Lemma users_put ts p t t' a : ts !! p = Some t -> sig t' = sig t -> size (users (<[p := t']> ts) a) = size (users ts a).
Proof.
  intros Hp Hs. rewrite <- !(size_dom (D := gset Z)). f_equal. apply set_eq. intros x. rewrite !elem_of_dom. unfold users, is_Some.
  setoid_rewrite map_lookup_filter_Some. destruct (decide (x = p)) as [->|Hne].
  - rewrite lookup_insert_eq, Hp. split; intros (y & [= <-] & H); cbn in *; [exists t|exists t']; split; done || congruence.
  - by rewrite lookup_insert_ne.
Qed.

Lemma put_Inv w qs p t t' l set s : Inv w qs -> stasks w !! p = Some t -> moved qs p l set (sq w) s -> good l set ->
  sig t' = sig t -> task_ok t' set -> Inv (put w p t' s) (upd qs p l).
Proof.
  intros I Hp Hm Hg Hs Hok. pose proof (mv_pendings _ _ _ _ _ _ Hm) as Hpd. constructor; cbn [sq put stasks hands sys].
  - apply Hm.
  - intros p' pd. rewrite Hpd. destruct (decide (p' = p)) as [->|Hne].
    + rewrite lookup_insert_eq, upd_same. by intros [= <-].
    + rewrite lookup_insert_ne, upd_other by done. apply I.
  - intros p'. rewrite Hpd, !lookup_insert_is_Some. pose proof (i_both _ _ I p'). tauto.
  - intros p' t1 pd. rewrite Hpd. destruct (decide (p' = p)) as [->|Hne].
    + rewrite !lookup_insert_eq. by intros [= <-] [= <-].
    + rewrite !lookup_insert_ne by done. apply I.
  - intros a h Hh. rewrite (users_put _ _ t) by done. by apply I.
  - intros p' t1. destruct (decide (p' = p)) as [->|Hne].
    + rewrite lookup_insert_eq. intros [= <-]. rewrite Hs. by apply (i_sig _ _ I p).
    + rewrite lookup_insert_ne by done. apply I.
  - apply lookup_insert_is_Some. destruct (decide (p = current (sys w))); [by left|right; split; [done|apply (i_current _ _ I)]].
  - intros p' Hp'. apply lookup_insert_is_Some. destruct (decide (p = p')); [by left|right; split; [done|by apply (i_list _ _ I)]].
Qed.

(** The state of a task under the invariant. *)
Lemma inv_here w qs p t : Inv w qs -> stasks w !! p = Some t ->
  exists set, here w qs p t (qs p) set /\ task_ok t set.
Proof.
  intros I Hp. destruct (proj1 (i_both _ _ I p)) as [pd Hpd]; [by eauto|]. exists (signal pd). split; [|by eapply i_task].
  constructor; [apply I|done|done| |by eapply i_good]. rewrite Hpd. f_equal. apply (pd_eq _ _ (i_queues _ _ I) _ _ Hpd).
Qed.
Lemma inv_action w qs p t n : Inv w qs -> stasks w !! p = Some t -> sig t <> 0 -> is_signal n -> exists k h, hands w !! sig t = Some h /\ action h !! Z.to_nat (n - 1) = Some k /\ action_of w (sig t) n = Some k.
Proof.
  intros I Hp Hs Hn. destruct (i_sig _ _ I p t Hp Hs) as [h Hh]. destruct (i_hands _ _ I _ _ Hh) as (_ & Hok & _).
  destruct (lookup_lt_is_Some_2 (action h) (Z.to_nat (n - 1))) as [k Hk].
  { rewrite (h_len _ Hok). unfold is_signal, _NSIG in *. lia. }
  exists k, h. split_and!; [done|done|]. unfold action_of. rewrite Hh. cbn. destruct (Z.leb_spec 1 n); [done|]. unfold is_signal in Hn. lia.
Qed.

(** Fewer pending signals, or more of the blocked ones: nothing new to notice. *)
Lemma pending_mono s s' b : wf_set s -> wf_set s' -> (forall n, is_signal n -> sigismember s' n = true -> sigismember b n = true \/ sigismember s n = true) ->
  has_pending_signals s' b = true -> has_pending_signals s b = true.
Proof.
  intros Hw Hw' H. rewrite !has_pending_iff by done. intros (n & Hn & Hd). exists n. split; [done|]. unfold deliverable in *.
  apply andb_prop in Hd as [H1 H2]. destruct (H n Hn H1) as [H3|H3]; [by rewrite H3 in H2|]. by rewrite H3, H2.
Qed.
Lemma stop_set_sub n s m : is_signal m -> sigismember (stop_set n s) m = true -> sigismember s m = true.
Proof.
  intros Hm. unfold stop_set. destruct (continues n); [|destruct (is_stop n); [|done]]; rewrite !member_del by (done || by split).
  - intros H. bool_hyps. done.
  - intros H. bool_hyps. done.
Qed.
Lemma stop_set_wf n s : wf_set s -> wf_set (stop_set n s).
Proof. intros H. unfold stop_set. destruct (continues n); [|destruct (is_stop n); [|done]]; auto 6 with sig. Qed.

Lemma woken_same t : sig (woken t) = sig t /\ blocked (woken t) = blocked t /\ notifier (woken t) = notifier t /\ sigpending (woken t) = true.
Proof. unfold woken. cbv zeta. destruct (truth _); done. Qed.

Lemma posted_ok q who a n k t l set r t' l' set' : good l set -> task_ok t set -> is_signal n -> good l' set' ->
  posted q who a n k t l set = (r, t', l', set') -> sig t' = sig t /\ blocked t' = blocked t /\ task_ok t' set'.
Proof.
  intros Hg [Hb Hsee] Hn Hg'. pose proof (g_set _ _ Hg) as Hw. pose proof (stop_set_wf n _ Hw) as Hws. unfold posted.
  destruct (stop_task_same n t) as (E1 & E2 & E3 & E4 & _).
  assert (Hstop : task_ok (stop_task n t) (stop_set n set)).
  { constructor; rewrite ?E2; [done|]. rewrite E3, E4. intros H1 H2. apply Hsee; [done|]. eapply pending_mono; [..|exact H2]; try done.
    intros m Hm H. right. by eapply stop_set_sub. }
  destruct (ignores n k (stop_task n t)); [by intros [= <- <- <- <-]|]. destruct (_ && sigismember (stop_set n set) n); [by intros [= <- <- <- <-]|].
  unfold delivered. destruct (sent _ _ _ _ _ _ _) as [[r1 l1] set1] eqn:Es. rewrite E2. intros [= <- <- <- <-].
  destruct (negb (truth r1) && negb (sigismember (blocked t) n)) eqn:Ec.
  - destruct (woken_same (stop_task n t)) as (F1 & F2 & F3 & F4). split_and!; [congruence|congruence|]. constructor; [by rewrite F2, E2|done].
  - split_and!; [done|done|]. constructor; rewrite E2; [done|]. rewrite E3, E4. intros H1 H2. apply Hsee; [done|].
    eapply pending_mono; [done| |..|exact H2]; [apply Hg'|]. intros m Hm Hmem. unfold sent in Es.
    assert (Hcase : sigismember (stop_set n set) m = true \/ (r1 = 0 /\ m = n)).
    { destruct q as [[b i]|]; [injection Es as <- <- <-|destruct (must_queue n a); injection Es as <- <- <-; [by left|]];
      rewrite member_add in Hmem by done; apply orb_prop in Hmem as [->%Z.eqb_eq|]; auto. }
    destruct Hcase as [Hc|[-> ->]]; [right; by eapply stop_set_sub|]. left. cbn in Ec. by destruct (sigismember (blocked t) n).
Qed.

(** ** Permission *)
Definition denied (w : world) (n : Z) (a : info_arg) (p : Z) : bool :=
  let me := task_at (sys w) (current (sys w)) in
  from_user a && foreign n me (task_at (sys w) p) && negb (cap_raised (cap_effective me) CAP_KILL).
(** The use of the capability is noted in the flags of the sender. *)
Definition noted (w : world) (n : Z) (a : info_arg) (p : Z) : system :=
  let me := task_at (sys w) (current (sys w)) in
  if from_user a && foreign n me (task_at (sys w) p) && cap_raised (cap_effective me) CAP_KILL then
    set_task (current (sys w)) (fun t => t <| superpriv := true |>) (sys w)
  else sys w.
Definition with_sys (w : world) (s : system) : world := World s (sq w) (stasks w) (hands w) (waked w).

Definition with_store (w : world) (s : store) : world := World (sys w) s (stasks w) (hands w) (waked w).

Lemma with_sys_id w : with_sys w (sys w) = w.
Proof. by destruct w. Qed.
Lemma bad_signal_run w n a p : bad_signal n a p w = Ok (denied w n a p, with_sys w (noted w n a p)).
Proof.
  unfold bad_signal, denied, noted, the_current, creds, wgets, on_system, refused, capable, gets, mbind, W_bind, M_bind, mret, M_ret, cur.
  destruct (from_user a && foreign _ _ _); [|done]. by destruct (cap_raised _ _).
Qed.
Lemma noted_frame w n a p : current (noted w n a p) = current (sys w) /\ task_list (noted w n a p) = task_list (sys w)
  /\ forall x, uid (task_at (noted w n a p) x) = uid (task_at (sys w) x).
Proof.
  unfold noted. destruct (_ && _); [|done]. split_and!; [done|done|]. intros x. rewrite task_at_set. by case_decide; subst.
Qed.
Lemma sys_Inv w qs s : Inv w qs -> current s = current (sys w) -> task_list s = task_list (sys w) -> Inv (with_sys w s) qs.
Proof. intros [] H1 H2. constructor; cbn; try done; rewrite ?H1, ?H2; done. Qed.
Lemma sender_noted w n a p : sender (with_sys w (noted w n a p)) = sender w.
Proof. destruct (noted_frame w n a p) as (E1 & _ & E3). unfold sender. cbn. by rewrite E1, E3. Qed.

(** The last part of [send_sig_info], for a task with handlers. *)
Lemma send_post w qs n a p t : Inv w qs -> stasks w !! p = Some t -> is_signal n -> arg_ok n a -> denied w n a p = false -> sig t <> 0 ->
  exists k q r t' l' set set' s, action_of w (sig t) n = Some k /\ offered w n q /\ pendings (sq w) !! p = Some (pd_of (qs p) set) /\
    posted q (sender w) a n k t (qs p) set = (r, t', l', set') /\
    send_sig_info n a p w = Ok (r, put (with_sys w (noted w n a p)) p t' s) /\
    moved qs p l' set' (sq w) s /\ Inv (put (with_sys w (noted w n a p)) p t' s) (upd qs p l') /\ blocked t' = blocked t.
Proof.
  intros I Hp Hn Ha Hd Hs. destruct (noted_frame w n a p) as (E1 & E2 & _). pose proof (sys_Inv w qs _ I E1 E2) as I1.
  set (w1 := with_sys w (noted w n a p)) in *. destruct (inv_here w1 qs p t I1 Hp) as (set & Hh & Hok).
  destruct (inv_action w1 qs p t n I1 Hp Hs Hn) as (k & h & _ & _ & Hk).
  destruct (does_post n a k w1 qs p t (qs p) set Hh Hn Ha Hs Hk) as (q & r & t' & l' & set' & Hq & Hpost & s & Hr & Hm & Hg).
  destruct (posted_ok _ _ _ _ _ _ _ _ _ _ _ _ (e_good _ _ _ _ _ _ Hh) Hok Hn Hg Hpost) as (Es & Eb & Hok').
  exists k, q, r, t', l', set, set', s. split_and!; try done.
  - apply Hh.
  - by rewrite <- Hpost, <- (sender_noted w n a p).
  - unfold send_sig_info, is_signal in *. destruct (Z.ltb_spec n 0); [lia|]. destruct (Z.ltb_spec _NSIG n); [lia|]. cbn [orb].
    etransitivity; [|exact Hr]. unfold mbind, W_bind at 1. rewrite bad_signal_run, Hd. unfold W_bind at 1, the_task at 1. cbn [stasks with_sys]. rewrite Hp.
    unfold truth. destruct (Z.eqb_spec n 0); [lia|]. apply Z.eqb_neq in Hs. rewrite Hs. done.
  - by eapply put_Inv.
Qed.

Lemma send_early w qs n a p t : Inv w qs -> stasks w !! p = Some t ->
  (n < 0 \/ _NSIG < n -> send_sig_info n a p w = Ok (- EINVAL, w)) /\
  (0 <= n <= _NSIG -> denied w n a p = true -> send_sig_info n a p w = Ok (- EPERM, w)) /\
  (0 <= n <= _NSIG -> denied w n a p = false -> n = 0 \/ sig t = 0 -> send_sig_info n a p w = Ok (0, with_sys w (noted w n a p))).
Proof.
  intros I Hp. unfold send_sig_info. split_and!.
  - intros H. destruct (Z.ltb_spec n 0), (Z.ltb_spec _NSIG n); done || lia.
  - intros H Hd. destruct (Z.ltb_spec n 0), (Z.ltb_spec _NSIG n); try lia. cbn [orb]. unfold mbind at 1, W_bind. rewrite bad_signal_run, Hd.
    unfold noted. unfold denied in Hd. apply andb_prop in Hd as [-> Hc%negb_true_iff]. rewrite Hc. by rewrite with_sys_id.
  - intros H Hd Hz. destruct (Z.ltb_spec n 0), (Z.ltb_spec _NSIG n); try lia. cbn [orb]. unfold mbind, W_bind. rewrite bad_signal_run, Hd.
    unfold the_task. cbn [stasks with_sys]. rewrite Hp. unfold truth. destruct Hz as [-> |Hz]; [done|]. rewrite Hz, orb_true_r. done.
Qed.

(** ** Sequences of operations *)

(** What the calls do not change: the running task and which tasks there are. *)
Record same (w w' : world) : Prop := {
  s_current : current (sys w') = current (sys w);
  s_list : task_list (sys w') = task_list (sys w);
  s_tasks : forall p, is_Some (stasks w' !! p) <-> is_Some (stasks w !! p)
}.
Lemma same_refl w : same w w.
Proof. by constructor. Qed.
Lemma same_trans w1 w2 w3 : same w1 w2 -> same w2 w3 -> same w1 w3.
Proof. intros [H1 H2 H3] [H4 H5 H6]. constructor; [congruence|congruence|]. intros p. by rewrite H6, H3. Qed.
Definition Good (w : world) : Prop := exists qs, Inv w qs.

(** [m] runs without a fault and keeps the invariant. *)
Definition ok {A} (m : W A) (w : world) : Prop := exists a w', m w = Ok (a, w') /\ Good w' /\ same w w'.

Lemma ok_ret {A} (a : A) w : Good w -> ok (mret a) w.
Proof. intros H. exists a, w. split_and!; [done|done|apply same_refl]. Qed.
Lemma ok_then {A B} (m : W A) (f : A -> W B) w a w1 : m w = Ok (a, w1) -> same w w1 -> ok (f a) w1 -> ok (m ≫= f) w.
Proof.
  intros Hr Hs (b & w2 & Hr2 & H2 & Hs2). exists b, w2. split_and!; [|done|by eapply same_trans]. unfold mbind, W_bind. by rewrite Hr.
Qed.
Lemma ok_read {A B} (m : W A) (f : A -> W B) w a : m w = Ok (a, w) -> ok (f a) w -> ok (m ≫= f) w.
Proof. intros Hr H. eapply ok_then; [done|apply same_refl|done]. Qed.
Lemma ok_bind {A B} (m : W A) (f : A -> W B) w : ok m w -> (forall a w', Good w' -> same w w' -> ok (f a) w') -> ok (m ≫= f) w.
Proof. intros (a & w' & Hr & Hg & Hs) H. eapply ok_then; [done|done|auto]. Qed.
Lemma bind_run {A B} (m : W A) (f : A -> W B) w a w1 : m w = Ok (a, w1) -> (m ≫= f) w = f a w1.
Proof. intros H. unfold mbind, W_bind. by rewrite H. Qed.
Lemma bind_assoc_run {A B C} (m : W A) (g : A -> W B) (f : B -> W C) w b w1 : (m ≫= g) w = Ok (b, w1) -> (x ← m; y ← g x; f y) w = f b w1.
Proof. unfold mbind, W_bind. destruct (m w) as [[a w2]|]; [|done]. by intros ->. Qed.
Lemma ok_assoc {A B C} (m : W A) (g : A -> W B) (f : B -> W C) w : ok ((m ≫= g) ≫= f) w -> ok (x ← m; y ← g x; f y) w.
Proof. unfold ok, mbind, W_bind. by destruct (m w) as [[a w1]|]. Qed.
Lemma same_put w p t t' s : stasks w !! p = Some t -> same w (put w p t' s).
Proof.
  intros Hp. constructor; [done|done|]. intros x. cbn. destruct (decide (x = p)) as [->|]; [rewrite lookup_insert_eq, Hp; by split; eauto|by rewrite lookup_insert_ne].
Qed.
Lemma ok_does {A} (m : W A) w qs p a t t' l set : Inv w qs -> stasks w !! p = Some t -> does m w qs p a t' l set -> sig t' = sig t -> task_ok t' set ->
  ok m w.
Proof.
  intros I Hp (s & Hr & Hm & Hg) Hs Hok. exists a, (put w p t' s). split_and!; [done| |by eapply same_put]. exists (upd qs p l). by eapply put_Inv.
Qed.
Lemma task_run w p t : stasks w !! p = Some t -> the_task p w = Ok (t, w).
Proof. unfold the_task. by intros ->. Qed.

Lemma ok_send n a p w : Good w -> is_Some (stasks w !! p) -> arg_ok n a -> ok (send_sig_info n a p) w.
Proof.
  intros [qs I] [t Hp] Ha. destruct (send_early w qs n a p t I Hp) as (H1 & H2 & H3). pose proof (noted_frame w n a p) as (E1 & E2 & _).
  destruct (decide (n < 0 \/ _NSIG < n)) as [Hn|Hn]; [exists (- EINVAL), w; split_and!; [auto|by exists qs|apply same_refl]|].
  destruct (denied w n a p) eqn:Hd; [exists (- EPERM), w; split_and!; [apply H2; [lia|done]|by exists qs|apply same_refl]|].
  destruct (decide (n = 0 \/ sig t = 0)) as [Hz|Hz].
  { exists 0, (with_sys w (noted w n a p)). split_and!; [apply H3; [lia|done|done]|exists qs; by apply sys_Inv|by constructor]. }
  destruct (send_post w qs n a p t I Hp) as (k & q & r & t' & l' & set & set' & s & _ & _ & _ & _ & Hr & _ & I' & _); [unfold is_signal; lia|done|done|tauto|].
  eexists r, _. split_and!; [exact Hr|by eexists|].
  eapply same_trans; [|eapply (same_put (with_sys w (noted w n a p))); exact Hp]. by constructor.
Qed.

(** *** The handlers *)
Definition with_hands (w : world) (h : gmap Z signal_struct) : world := World (sys w) (sq w) (stasks w) h (waked w).
Lemma hands_Inv w qs a h h' : Inv w qs -> hands w !! a = Some h -> scount h' = scount h -> handlers_ok h' -> Inv (with_hands w (<[a := h']> (hands w))) qs.
Proof.
  intros I Ha Hc Hok. destruct I. constructor; cbn; try done.
  - intros b g. destruct (decide (b = a)) as [->|].
    + rewrite lookup_insert_eq. intros [= <-]. rewrite Hc. destruct (i_hands0 a h Ha) as (? & _ & ? & ?). done.
    + rewrite lookup_insert_ne by done. auto.
  - intros p t Hp Hs. apply lookup_insert_is_Some. destruct (decide (a = sig t)); [by left|right; split; [done|by eapply i_sig0]].
Qed.
Lemma set_action_run w a n k h : hands w !! a = Some h ->
  set_action a n k w = Ok (tt, with_hands w (<[a := h <| action := <[Z.to_nat (n - 1) := k]> (action h) |>]> (hands w))).
Proof. intros Ha. unfold set_action, hand, mbind, W_bind. by rewrite Ha. Qed.
Lemma action_set_ok h n k : handlers_ok h -> is_signal n -> safe_set (sa_mask k) -> (n = SIGKILL \/ n = SIGSTOP -> sa_handler k = SIG_DFL) ->
  handlers_ok (h <| action := <[Z.to_nat (n - 1) := k]> (action h) |>).
Proof.
  intros [H1 H2 H3] Hn Hm Hk. constructor; cbn.
  - by rewrite length_insert.
  - intros m k' Hm' Hl. destruct (decide (m = n)) as [->|Hne].
    + rewrite list_lookup_insert_eq in Hl; [injection Hl as <-; auto|]. rewrite H1. unfold is_signal, _NSIG in *. lia.
    + rewrite list_lookup_insert_ne in Hl; [by eapply H2|]. unfold is_signal, SIGKILL, SIGSTOP in *. lia.
  - apply Forall_insert; done.
Qed.
Lemma action_mask h n k : handlers_ok h -> action h !! n = Some k -> safe_set (sa_mask k).
Proof. intros Hh Hk. exact (Forall_lookup_1 _ _ _ _ (h_masks _ Hh) Hk). Qed.

Lemma del_safe b n : safe_set b -> is_signal n -> safe_set (sigdelset b n).
Proof.
  intros (Hw & H1 & H2) Hn. split_and!; [by apply sigdel_wf| |]; rewrite member_del by (done || by split); [rewrite H1|rewrite H2]; apply andb_false_r.
Qed.
Lemma seen_ok t set : safe_set (blocked t) -> task_ok (seen t set) set.
Proof. intros H. by constructor. Qed.

Lemma ok_force n a p w : Good w -> is_Some (stasks w !! p) -> is_signal n -> arg_ok n a -> ok (force_sig_info n a p) w.
Proof.
  intros [qs I] [t Hp] Hn Ha. unfold force_sig_info. eapply ok_read; [by apply task_run|]. destruct (Z.eqb_spec (sig t) 0) as [Hz|Hz]; [apply ok_ret; by exists qs|].
  destruct (inv_action w qs p t n I Hp Hz Hn) as (k & h & Hh & Hk & Hact). eapply ok_read; [by apply action_run|].
  destruct (i_hands _ _ I _ _ Hh) as (_ & Hok & _).
  set (w1 := if sa_handler k =? SIG_IGN then with_hands w (<[sig t := h <| action := <[Z.to_nat (n - 1) := k <| sa_handler := SIG_DFL |>]> (action h) |>]> (hands w)) else w).
  eapply (ok_then _ _ w tt w1).
  { unfold w1, when. destruct (_ =? _); [by apply set_action_run|done]. }
  { unfold w1. destruct (_ =? _); [by constructor|apply same_refl]. }
  assert (I1 : Inv w1 qs).
  { unfold w1. destruct (_ =? _); [|done]. eapply hands_Inv; [done|done|done|]. apply action_set_ok; [done|done|exact (action_mask _ _ _ Hok Hk)|done]. }
  assert (Hp1 : stasks w1 !! p = Some t) by (unfold w1; by destruct (_ =? _)).
  destruct (inv_here w1 qs p t I1 Hp1) as (set & Hhere & [Hb _]).
  apply ok_assoc. apply ok_bind.
  - eapply ok_does; [done|done| | |].
    + step (does_set (fun t => t <| blocked := sigdelset (blocked t) n |>)). by apply does_recalc.
    + done.
    + apply seen_ok. by apply del_safe.
  - intros _ w2 Hg2 Hs2. apply ok_send; [done|apply Hs2; by eauto|done].
Qed.

(** *** Sending to several tasks *)
Lemma ok_each {A} (f : Z -> A -> W A) ps : forall a w, Good w -> (forall p, p ∈ ps -> is_Some (stasks w !! p)) ->
  (forall p a w', p ∈ ps -> Good w' -> is_Some (stasks w' !! p) -> ok (f p a) w') -> ok (each f ps a) w.
Proof.
  induction ps as [|p ps IH]; intros a w Hg Hps Hf; [by apply ok_ret|]. cbn [each]. apply ok_bind.
  - apply Hf; [left|done|apply Hps; left].
  - intros b w' Hg' Hs. apply IH; [done| |]; intros q; [intros Hq; apply Hs, Hps; by right|]. intros c w2 Hq. apply Hf. by right.
Qed.
Lemma ok_for_each {A} (f : Z -> A -> W A) a w : Good w ->
  (forall p a w', Good w' -> is_Some (stasks w' !! p) -> ok (f p a) w') -> ok (for_each f a) w.
Proof.
  intros Hg Hf. unfold for_each. eapply ok_read; [done|]. apply ok_each; [done| |by auto]. destruct Hg as [qs I]. apply (i_list _ _ I).
Qed.

Lemma ok_kill_pg n a g w : Good w -> arg_ok n a -> ok (kill_pg_info n a g) w.
Proof.
  intros Hg Ha. unfold kill_pg_info. destruct (0 <? g); [|by apply ok_ret]. apply ok_for_each; [done|]. intros p r w' Hg' [t Hp].
  eapply ok_read; [by apply task_run|]. eapply ok_read; [done|]. destruct (_ && _); [|by apply ok_ret].
  apply ok_bind; [apply ok_send; [done|by eauto|done]|]. intros. by apply ok_ret.
Qed.
Lemma ok_kill_sl n a g w : Good w -> arg_ok n a -> ok (kill_sl_info n a g) w.
Proof.
  intros Hg Ha. unfold kill_sl_info. destruct (0 <? g); [|by apply ok_ret]. apply ok_for_each; [done|]. intros p r w' Hg' Hp.
  eapply ok_read; [done|]. destruct (_ && _); [|by apply ok_ret]. apply ok_bind; [by apply ok_send|]. intros. by apply ok_ret.
Qed.
Lemma ok_kill_proc n a pid w : Good w -> arg_ok n a -> ok (kill_proc_info n a pid) w.
Proof.
  intros Hg Ha. unfold kill_proc_info. eapply ok_read; [done|]. destruct (stasks w !! pid) as [t|] eqn:Hp; [|by apply ok_ret]. cbn.
  eapply ok_read; [by apply task_run|]. destruct (negb _).
  - eapply ok_read; [reflexivity|]. destruct (stasks w !! tgid t) eqn:Ht; cbn; apply ok_send; eauto.
  - eapply ok_read; [done|]. apply ok_send; eauto.
Qed.
Lemma ok_kill_something n a pid w : Good w -> arg_ok n a -> ok (kill_something_info n a pid) w.
Proof.
  intros Hg Ha. unfold kill_something_info. destruct (negb (truth pid)); [do 2 (eapply ok_read; [done|]); by apply ok_kill_pg|].
  destruct (pid =? -1).
  - eapply ok_read; [done|]. apply ok_bind.
    + apply ok_for_each; [done|]. intros p [r c] w' Hg' [t Hp]. eapply ok_read; [by apply task_run|]. destruct (_ && _); [|by apply ok_ret].
      apply ok_bind; [apply ok_send; eauto|]. intros. by apply ok_ret.
    + intros [r c] w' Hg' _. by apply ok_ret.
  - destruct (pid <? 0); [by apply ok_kill_pg|by apply ok_kill_proc].
Qed.

(** *** Taking a signal *)
Lemma next_is_signal s m : wf_set s -> next_signal s m <> 0 -> is_signal (next_signal s m) /\ sigismember s (next_signal s m) = true.
Proof.
  intros Hw Hn. destruct (next_signal_is_next s m Hw) as [[]|(H1 & H2 & _)]; [done|]. split; [done|]. unfold deliverable in H2. by apply andb_prop in H2 as [].
Qed.

(** The driver keeps the signal away from the task. *)
Definition held (call_notifier : Z -> Z -> bool) (t : sigtask) (n : Z) : bool :=
  truth (notifier t) && sigismember (notifier_mask t) n && negb (call_notifier (notifier t) (notifier_data t)).
(** What [dequeue_signal] returns and leaves, for the next signal [n]. *)
Definition taken (call_notifier : Z -> Z -> bool) (n : Z) (t : sigtask) (l : list entry) (set : sigset_t) (inf : siginfo)
    : Z * siginfo * sigtask * list entry * sigset_t :=
  if n =? 0 then (0, inf, seen t set, l, set)
  else if held call_notifier t n then (0, inf, t <| sigpending := false |>, l, set)
  else let '(inf', l', set') := collected n l set inf in (n, inf', seen t set', l', set').

Lemma does_dequeue cn mask inf w qs c t l set n r inf' t' l' set' : here w qs c t l set -> c = current (sys w) -> n = next_signal set mask ->
  taken cn n t l set inf = (r, inf', t', l', set') -> does (dequeue_signal cn mask inf) w qs c (r, inf') t' l' set'.
Proof.
  intros H -> En Ht. unfold dequeue_signal. eapply does_read; [done|]. eapply does_read; [apply task_run, H|].
  eapply does_read; [unfold on_store; rewrite (pending_ok _ _ _ (e_pending _ _ _ _ _ _ H)); by destruct w|]. cbn [signal pd_of]. rewrite <- En.
  pose proof (g_set _ _ (e_good _ _ _ _ _ _ H)) as Hw. revert Ht. unfold taken. unfold truth at 1 3. destruct (Z.eqb_spec n 0) as [Hz|Hz]; cbn [negb andb].
  - intros [= <- <- <- <- <-]. rewrite Hz. eapply does_bind; [by apply does_ret|]. intros w1 H1 _ _.
    eapply does_bind; [by apply does_recalc|]. intros w2 H2 _ _. by apply does_ret.
  - change (truth (notifier t) && sigismember (notifier_mask t) n && negb (cn (notifier t) (notifier_data t))) with (held cn t n).
    destruct (held cn t n).
    + intros [= <- <- <- <- <-]. eapply does_bind; [by apply (does_set (fun t => t <| sigpending := false |>))|]. intros w1 H1 _ _. by apply does_ret.
    + destruct (collected n l set inf) as [[inf1 l1] set1] eqn:Ec. intros [= <- <- <- <- <-].
      destruct (next_is_signal set mask Hw) as [Hn Hmem]; [congruence|]. rewrite <- En in Hn, Hmem.
      destruct (collect_ok (sq w) qs _ _ n inf inf1 l1 set1 (e_queues _ _ _ _ _ _ H) (e_pending _ _ _ _ _ _ H) Hmem) as (s & Hr & Hm).
      { by rewrite (e_queue _ _ _ _ _ _ H). }
      eapply does_bind; [eapply does_bind; [eapply does_store; [done|exact Hr|exact Hm|]|]|].
      * eapply collected_good; [apply H|done|exact Ec].
      * intros w1 H1 _ _. by apply does_ret.
      * intros w1 H1 _ _. eapply does_bind; [by apply does_recalc|]. intros w2 H2 _ _. by apply does_ret.
Qed.

Lemma taken_ok cn n t l set inf r inf' t' l' set' : task_ok t set -> taken cn n t l set inf = (r, inf', t', l', set') -> sig t' = sig t /\ task_ok t' set'.
Proof.
  intros [Hb Hs]. unfold taken. destruct (n =? 0); [intros [= <- <- <- <- <-]; split; [done|by apply seen_ok]|].
  destruct (held cn t n) eqn:Eh.
  - intros [= <- <- <- <- <-]. split; [done|]. constructor; [done|]. cbn. intros Hz. unfold held in Eh. by rewrite Hz in Eh.
  - destruct (collected _ _ _ _) as [[inf1 l1] set1]. intros [= <- <- <- <- <-]. split; [done|by apply seen_ok].
Qed.
Lemma ok_dequeue cn mask inf w : Good w -> ok (dequeue_signal cn mask inf) w.
Proof.
  intros [qs I]. destruct (i_current _ _ I) as [t Hp]. destruct (inv_here _ _ _ _ I Hp) as (set & Hh & Hok).
  destruct (taken cn (next_signal set mask) t (qs (current (sys w))) set inf) as [[[[r inf'] t'] l'] set'] eqn:Et.
  destruct (taken_ok _ _ _ _ _ _ _ _ _ _ _ Hok Et) as [Hs Hok']. eapply ok_does; [done|done| |done|done]. by eapply does_dequeue.
Qed.

(** *** Masks *)
Lemma delmask_member s n : is_signal n -> sigismember (sigdelsetmask s unblockable) n = sigismember s n && negb ((n =? SIGKILL) || (n =? SIGSTOP)).
Proof.
  unfold is_signal, _NSIG. intros Hn. destruct (Z.le_gt_cases n 32).
  - rewrite !member_low by lia. cbn [sig0 sigdelsetmask update]. change (sig0 (sigdelsetmask s unblockable)) with (sig0 s .& not32 unblockable).
    rewrite Z.land_spec, not32_testbit by lia. do 2 f_equal.
    assert (Hall : all_below 32 (fun i => Bool.eqb (Z.testbit unblockable i) ((i + 1 =? SIGKILL) || (i + 1 =? SIGSTOP))) = true) by done.
    pose proof (all_below_spec _ _ (n - 1) Hall ltac:(lia)) as Hb. cbv beta in Hb. apply eqb_prop in Hb. by replace (n - 1 + 1) with n in Hb by lia.
  - rewrite !member_high by lia. change (sig1 (sigdelsetmask s unblockable)) with (sig1 s).
    unfold SIGKILL, SIGSTOP. destruct (Z.eqb_spec n 9), (Z.eqb_spec n 19); try lia. by rewrite andb_true_r.
Qed.
Lemma delmask_safe s : wf_set s -> safe_set (sigdelsetmask s unblockable).
Proof.
  intros Hw. split_and!; [by apply delmask_wf| |]; rewrite delmask_member by (by split); apply andb_false_r.
Qed.
Lemma or_safe a b : safe_set a -> safe_set b -> safe_set (sigorsets a b).
Proof.
  intros (H1 & H2 & H3) (H4 & H5 & H6). split_and!; [by apply or_wf| |]; rewrite member_or by (by split); by rewrite ?H2, ?H3, ?H5, ?H6.
Qed.
Lemma and_safe a b : safe_set a -> safe_set (sigandsets a b).
Proof. intros (H1 & H2 & H3). split_and!; [by apply and_wf| |]; rewrite member_and by (by split); by rewrite ?H2, ?H3. Qed.
Lemma nand_safe a b : safe_set a -> safe_set (signandsets a b).
Proof. intros (H1 & H2 & H3). split_and!; [by apply nand_wf| |]; rewrite member_nand by (by split); by rewrite ?H2, ?H3. Qed.
#[export] Hint Resolve delmask_safe or_safe and_safe nand_safe del_safe : sig.

(** A new mask, and the look at what is pending under it. *)
Lemma does_mask b w qs p t l set : here w qs p t l set ->
  does (_ ← set_stask p (fun t => t <| blocked := b |>); recalc_sigpending p) w qs p tt (seen (t <| blocked := b |>) set) l set.
Proof. intros H. step (does_set (fun t => t <| blocked := b |>)). by apply does_recalc. Qed.
Lemma ok_mask b w : Good w -> safe_set b ->
  ok (_ ← set_stask (current (sys w)) (fun t => t <| blocked := b |>); recalc_sigpending (current (sys w))) w.
Proof.
  intros [qs I] Hb. destruct (i_current _ _ I) as [t Hp]. destruct (inv_here _ _ _ _ I Hp) as (set & Hh & Hok).
  eapply ok_does; [done|done|by apply does_mask|done|by apply seen_ok].
Qed.
Lemma ok_mask_then {A} b (f : W A) w : Good w -> safe_set b -> (forall w', Good w' -> same w w' -> ok f w') ->
  ok (_ ← set_stask (current (sys w)) (fun t => t <| blocked := b |>); _ ← recalc_sigpending (current (sys w)); f) w.
Proof. intros Hg Hb Hf. apply ok_assoc. apply ok_bind; [by apply ok_mask|]. auto. Qed.
Lemma ok_copy_out {A} o (v : A) w : Good w -> ok (copy_out o v) w.
Proof. intros. unfold copy_out. by destruct o; apply ok_ret. Qed.
Lemma good_current w : Good w -> exists t, stasks w !! current (sys w) = Some t /\ safe_set (blocked t).
Proof. intros [qs I]. destruct (i_current _ _ I) as [t Hp]. destruct (inv_here _ _ _ _ I Hp) as (set & Hh & [Hb _]). by exists t. Qed.

(** What a user can pass: words of 32 bits, structures of their size. *)
Definition wf_from {A} (P : A -> Prop) (x : from A) : Prop := match x with From a => P a | _ => True end.

Lemma ok_rt_sigprocmask how set oset sz w : Good w -> wf_from wf_set set -> ok (sys_rt_sigprocmask how set oset sz) w.
Proof.
  intros Hg Hset. destruct (good_current w Hg) as (t & Hp & Hb). unfold sys_rt_sigprocmask. eapply ok_read; [done|].
  destruct (negb _); [by apply ok_ret|]. destruct set as [| |new]; [|by apply ok_ret|].
  - destruct (negb (to_null oset)); [|by apply ok_ret]. eapply ok_read; [by apply task_run|]. by apply ok_copy_out.
  - eapply ok_read; [by apply task_run|]. cbn in Hset. set (x := if how =? SIG_BLOCK then _ else _).
    assert (Hx : safe_set (snd x)) by (unfold x; repeat destruct (_ =? _); cbn; auto with sig). destruct x as [e b]. cbn in Hx.
    apply ok_mask_then; [done|done|]. intros w' Hg' _. destruct (truth e); [by apply ok_ret|]. destruct (negb (to_null oset)); [by apply ok_copy_out|by apply ok_ret].
Qed.
Lemma sig0_safe b x : safe_set b -> is_word x -> safe_set (sigdelsetmask (b <| sig0 := x |>) unblockable).
Proof. intros (Hw & _) Hx. apply delmask_safe. by destruct Hw. Qed.
Lemma addmask_safe b x : safe_set b -> is_word x -> safe_set (sigaddsetmask b (x .& not32 unblockable)).
Proof.
  intros Hb Hx. pose proof (delmask_safe (Sigset x 0) ltac:(by split)) as Hd. pose proof (or_safe _ _ Hb Hd) as H.
  unfold sigorsets, sig_set_binop, sigdelsetmask, update in H. cbn in H. rewrite Z.lor_0_r in H. by destruct b.
Qed.
Lemma deletemask_safe b x : safe_set b -> safe_set (sigdelsetmask b x).
Proof.
  intros (Hw & H1 & H2). split_and!; [by apply delmask_wf| |].
  all: rewrite member_low in * by (unfold SIGKILL, SIGSTOP; lia). all: cbn [sig0 sigdelsetmask]. all: unfold update; cbn; rewrite Z.land_spec; by rewrite ?H1, ?H2.
Qed.
Lemma ok_sigprocmask how set oset w : Good w -> wf_from is_word set -> ok (sys_sigprocmask how set oset) w.
Proof.
  intros Hg Hset. destruct (good_current w Hg) as (t & Hp & Hb). unfold sys_sigprocmask. eapply ok_read; [done|].
  destruct set as [| |new]; [|by apply ok_ret|].
  - destruct (negb (to_null oset)); [|by apply ok_ret]. eapply ok_read; [by apply task_run|]. by apply ok_copy_out.
  - eapply ok_read; [by apply task_run|]. cbn in Hset. set (x := if how =? SIG_BLOCK then _ else _).
    assert (Hx : safe_set (snd x)).
    { unfold x. repeat destruct (_ =? _); cbn; [by apply addmask_safe|by apply deletemask_safe|by apply (sig0_safe (blocked t) new)|done]. }
    destruct x as [e b]. cbn in Hx.
    apply ok_mask_then; [done|done|]. intros w' Hg' _. destruct (truth e); [by apply ok_ret|]. destruct (negb (to_null oset)); [by apply ok_copy_out|by apply ok_ret].
Qed.

(** *** The other calls *)
Lemma ok_sigpending set sz w : Good w -> ok (do_sigpending set sz) w.
Proof.
  intros Hg. unfold do_sigpending. destruct (_ <? _); [by apply ok_ret|]. pose proof Hg as [qs I]. destruct (i_current _ _ I) as [t Hp].
  destruct (inv_here _ _ _ _ I Hp) as (s & Hh & _). eapply ok_read; [done|]. eapply ok_read; [by apply task_run|].
  eapply ok_read; [unfold on_store; rewrite (pending_ok _ _ _ (e_pending _ _ _ _ _ _ Hh)); by destruct w|].
  destruct (sz =? 0); [by apply ok_ret|by apply ok_copy_out].
Qed.

(** A change of fields that the invariant does not mention. *)
Lemma ok_fields f w : Good w -> (forall t, sig (f t) = sig t /\ blocked (f t) = blocked t /\ notifier (f t) = notifier t /\ sigpending (f t) = sigpending t) ->
  ok (set_stask (current (sys w)) f) w.
Proof.
  intros [qs I] Hf. destruct (i_current _ _ I) as [t Hp]. destruct (inv_here _ _ _ _ I Hp) as (s & Hh & [Hb Hs]). destruct (Hf t) as (H1 & H2 & H3 & H4).
  eapply ok_does; [done|done|by apply does_set|done|]. constructor; rewrite ?H2, ?H3, ?H4; done.
Qed.
Lemma ok_sigaltstack uss uoss sp w : Good w -> ok (do_sigaltstack uss uoss sp) w.
Proof.
  intros Hg. destruct (good_current w Hg) as (t & Hp & _). unfold do_sigaltstack. eapply ok_read; [done|]. eapply ok_read; [by apply task_run|].
  set (out := if negb (to_null uoss) then _ else _). assert (Hout : forall w', Good w' -> ok out w').
  { intros. unfold out. destruct (negb _); [by apply ok_copy_out|by apply ok_ret]. }
  destruct uss as [| |[[a b] c]]; [by apply Hout|by apply ok_ret|]. destruct (on_sig_stack t sp); [by apply ok_ret|]. destruct (_ && _ && _); [by apply ok_ret|].
  destruct (b =? SS_DISABLE); [|destruct (c <? _); [by apply ok_ret|]]; (apply ok_bind; [by apply ok_fields|auto]).
Qed.

Lemma rm_seen_ok n w : Good w -> is_signal n -> ok (found ← rm_sig_from_queue n (current (sys w)); when found (recalc_sigpending (current (sys w)))) w.
Proof.
  intros [qs I] Hn. destruct (i_current _ _ I) as [t Hp]. destruct (inv_here _ _ _ _ I Hp) as (set & Hh & Hok). pose proof (g_set _ _ (e_good _ _ _ _ _ _ Hh)) as Hw.
  eapply ok_does; [done|done| | |].
  - eapply does_bind; [by apply does_rm|]. intros w1 H1 _ _. eapply does_when; [done|]. intros _. by apply does_recalc.
  - by destruct (sigismember set n).
  - destruct Hok as [Hb Hs]. destruct (sigismember set n) eqn:E; [by apply seen_ok|]. constructor; [done|]. by rewrite sigdel_absent.
Qed.
Lemma ok_sigaction n act w : Good w -> (forall t, stasks w !! current (sys w) = Some t -> sig t <> 0) ->
  (forall k, act = Some k -> wf_set (sa_mask k)) -> ok (do_sigaction n act) w.
Proof.
  intros Hg Hsig Hact. unfold do_sigaction. destruct (_ || _) eqn:E; [by apply ok_ret|]. apply orb_false_iff in E as [E1 E2]. apply orb_false_iff in E1 as [E3 E4].
  apply Z.ltb_ge in E3, E4. assert (Hn : is_signal n) by (split; lia).
  pose proof Hg as [qs I]. destruct (i_current _ _ I) as [t Hp]. specialize (Hsig t Hp). destruct (inv_action _ _ _ _ n I Hp Hsig Hn) as (k & h & Hh & Hk & Hka).
  destruct (i_hands _ _ I _ _ Hh) as (_ & Hok & _).
  eapply ok_read; [done|]. eapply ok_read; [by apply task_run|]. eapply ok_read; [by apply action_run|]. destruct act as [a|]; [|by apply ok_ret].
  set (k' := a <| sa_mask := sigdelsetmask (sa_mask a) unblockable |>). eapply ok_then; [by apply set_action_run|by constructor|].
  assert (Hg1 : Good (with_hands w (<[sig t := h <| action := <[Z.to_nat (n - 1) := k']> (action h) |>]> (hands w)))).
  { exists qs. eapply hands_Inv; [done|done|done|]. apply action_set_ok; [done|done|apply delmask_safe; auto|].
    rewrite bool_decide_eq_true_2 in E2 by eauto. cbn in E2. apply orb_false_iff in E2 as [?%Z.eqb_neq ?%Z.eqb_neq]. by intros [|]. }
  apply ok_bind; [|intros; by apply ok_ret]. unfold when. destruct (discards n k'); [|by apply ok_ret].
  match type of Hg1 with Good ?w1 => exact (rm_seen_ok n w1 Hg1 Hn) end.
Qed.
Lemma ok_rt_sigaction n act oact sz w : Good w -> (forall t, stasks w !! current (sys w) = Some t -> sig t <> 0) ->
  wf_from (fun k => wf_set (sa_mask k)) act -> ok (sys_rt_sigaction n act oact sz) w.
Proof.
  intros Hg Hs Ha. unfold sys_rt_sigaction. destruct (negb _); [by apply ok_ret|]. destruct act as [| |a]; [|by apply ok_ret|].
  all: apply ok_bind; [apply ok_sigaction; try done; by intros k [= <-]|].
  all: intros [[|r|r] [old|]] w' Hg' _; try (by apply ok_ret); destruct (negb _); [by apply ok_copy_out|by apply ok_ret].
Qed.

Lemma ok_sys_kill stack pid n w : Good w -> len (_sifields stack) = SI_PAD_SIZE -> ok (sys_kill stack pid n) w.
Proof.
  intros Hg Hl. unfold sys_kill. do 2 (eapply ok_read; [done|]). apply ok_kill_something; [done|]. split; [done|]. by rewrite fill_len.
Qed.
Lemma ok_sys_tkill stack pid n w : Good w -> len (_sifields stack) = SI_PAD_SIZE -> ok (sys_tkill stack pid n) w.
Proof.
  intros Hg Hl. unfold sys_tkill. destruct (_ <=? _); [by apply ok_ret|]. do 3 (eapply ok_read; [done|]).
  destruct (stasks w !! pid) as [t|] eqn:Hp; cbn; [|by apply ok_ret]. apply ok_send; [done|by eauto|]. split; [done|]. by rewrite fill_len.
Qed.
Lemma ok_sigqueueinfo pid n u w : Good w -> wf_from (fun i => len (_sifields i) = SI_PAD_SIZE) u -> ok (sys_rt_sigqueueinfo pid n u) w.
Proof.
  intros Hg Hu. unfold sys_rt_sigqueueinfo. destruct u as [| |i]; try by apply ok_ret. destruct (_ <=? _); [by apply ok_ret|]. by apply ok_kill_proc.
Qed.

Lemma ok_flush p w : Good w -> is_Some (stasks w !! p) -> ok (flush_signals p) w.
Proof.
  intros [qs I] [t Hp]. destruct (inv_here _ _ _ _ I Hp) as (set & Hh & [Hb _]). unfold flush_signals. eapply ok_does; [done|done| | |].
  - step (does_set (fun t => t <| sigpending := false |>)). destruct Hw' as [H1 H2 H3 H4 H5]. destruct (flush_ok (sq w') _ p _ H1 H4) as (s & Hr & Hm).
    eapply does_store; [by constructor|exact Hr|exact Hm|]. apply good_nil, empty_wf.
  - done.
  - constructor; [done|]. cbn. intros _ (n & Hn & Hd)%has_pending_iff; [|apply empty_wf]. unfold deliverable in Hd. by rewrite member_empty in Hd.
Qed.

Lemma ok_block fn priv mask w : Good w -> fn <> 0 -> ok (block_all_signals fn priv mask) w.
Proof.
  intros [qs I] Hf. unfold block_all_signals. eapply ok_read; [done|]. destruct (i_current _ _ I) as [t Hp]. destruct (inv_here _ _ _ _ I Hp) as (set & Hh & [Hb _]).
  eapply ok_does; [done|done|by apply does_set|done|]. constructor; [done|]. cbn. by intros ->.
Qed.
Lemma ok_unblock w : Good w -> ok unblock_all_signals w.
Proof.
  intros [qs I]. unfold unblock_all_signals. eapply ok_read; [done|]. destruct (i_current _ _ I) as [t Hp]. destruct (inv_here _ _ _ _ I Hp) as (set & Hh & [Hb _]).
  eapply ok_does; [done|done| | |].
  - step (does_set (fun t => t <| notifier := 0 |> <| notifier_data := 0 |>)). by apply does_recalc.
  - done.
  - by apply seen_ok.
Qed.

(** *** The end of a task *)
Lemma users_lookup ts a p t : users ts a !! p = Some t <-> ts !! p = Some t /\ sig t = a.
Proof. unfold users. by rewrite map_lookup_filter_Some. Qed.
Lemma users_drop ts p t t' : ts !! p = Some t -> sig t' <> sig t -> S (size (users (<[p := t']> ts) (sig t))) = size (users ts (sig t)).
Proof.
  intros Hp Hs. assert (E : users (<[p := t']> ts) (sig t) = delete p (users ts (sig t))).
  { apply map_eq. intros x. apply option_eq. intros y. rewrite users_lookup, lookup_delete_Some, users_lookup. destruct (decide (x = p)) as [->|Hne].
    - rewrite lookup_insert_eq. split; [intros ([= <-] & ?); done|intros [? _]; done].
    - rewrite lookup_insert_ne by done. split; [intros; split_and!; tauto || congruence|tauto]. }
  rewrite E. assert (Hu : users ts (sig t) !! p = Some t) by (by apply users_lookup). rewrite map_size_delete, Hu. cbn.
  destruct (size (users ts (sig t))) eqn:Esz; [|done]. apply map_size_empty_inv in Esz. rewrite Esz in Hu. by rewrite lookup_empty in Hu.
Qed.
Lemma users_other ts p t t' a : ts !! p = Some t -> sig t <> a -> sig t' <> a -> size (users (<[p := t']> ts) a) = size (users ts a).
Proof.
  intros Hp H1 H2. f_equal. apply map_eq. intros x. apply option_eq. intros y. rewrite !users_lookup. destruct (decide (x = p)) as [->|Hne].
  - rewrite lookup_insert_eq, Hp. split; intros ([= <-] & ?); done.
  - by rewrite lookup_insert_ne.
Qed.

Lemma size_pos {V} (m : gmap Z V) q x : m !! q = Some x -> (0 < size m)%nat.
Proof. intros H. apply Nat.neq_0_lt_0. intros H0%map_size_empty_inv. rewrite H0 in H. by rewrite lookup_empty in H. Qed.
(** The handlers after a task has given up its share. *)
Definition less_hand (h : signal_struct) : signal_struct := h <| scount := scount h - 1 |>.
Definition left_hands (hs : gmap Z signal_struct) (a : Z) (h : signal_struct) : gmap Z signal_struct :=
  if scount h - 1 =? 0 then delete a (<[a := less_hand h]> hs) else <[a := less_hand h]> hs.
Definition gone (w : world) (p : Z) (t : sigtask) (h : signal_struct) : world :=
  World (sys w) (sq w) (<[p := t <| sig := 0 |>]> (stasks w)) (left_hands (hands w) (sig t) h) (waked w).

Lemma left_hands_lookup hs a h b g : left_hands hs a h !! b = Some g ->
  (b = a /\ g = less_hand h /\ scount h - 1 <> 0) \/ (b <> a /\ hs !! b = Some g).
Proof.
  unfold left_hands. destruct (Z.eqb_spec (scount h - 1) 0) as [E|E].
  - rewrite lookup_delete_Some. intros [Hne Hl]. rewrite lookup_insert_ne in Hl by done. auto.
  - destruct (decide (b = a)) as [->|]; [rewrite lookup_insert_eq; intros [= <-]; by left|]. rewrite lookup_insert_ne by done. auto.
Qed.
Lemma gone_Inv w qs p t h : Inv w qs -> stasks w !! p = Some t -> sig t <> 0 -> hands w !! sig t = Some h -> Inv (gone w p t h) qs.
Proof.
  intros I Hp Hs Hh. destruct (i_hands _ _ I _ _ Hh) as (_ & Hok & Hc & Hr). assert (H0 : sig (t <| sig := 0 |>) = 0) by done.
  pose proof (users_drop (stasks w) p t (t <| sig := 0 |>) Hp ltac:(rewrite H0; congruence)) as Hd.
  constructor; cbn [sq stasks hands sys gone]; try apply I.
  - intros q. rewrite lookup_insert_is_Some. rewrite <- (i_both _ _ I q). destruct (decide (p = q)) as [->|]; [rewrite Hp; split; eauto|tauto].
  - intros q t1 pd. destruct (decide (q = p)) as [->|].
    + rewrite lookup_insert_eq. intros [= <-] Hpd. destruct (i_task _ _ I p t pd Hp Hpd). by constructor.
    + rewrite lookup_insert_ne by done. apply I.
  - intros a g Hg. destruct (left_hands_lookup _ _ _ _ _ Hg) as [(-> & -> & Hne)|[Hne Hl]].
    + split_and!; [done|by destruct Hok|cbn; lia..].
    + destruct (i_hands _ _ I _ _ Hl) as (Hz & ? & ? & ?). rewrite (users_other _ p t) by (done || congruence). done.
  - intros q t1 Hq Hs1. destruct (decide (q = p)) as [->|Hqp]; [rewrite lookup_insert_eq in Hq; by injection Hq as <-|].
    rewrite lookup_insert_ne in Hq by done. destruct (i_sig _ _ I q t1 Hq Hs1) as [g Hg]. unfold left_hands.
    destruct (Z.eqb_spec (scount h - 1) 0) as [E|E]; [|apply lookup_insert_is_Some; destruct (decide (sig t = sig t1)); [by left|right; split; [done|by rewrite Hg]]].
    rewrite lookup_delete_ne, lookup_insert_ne; [by rewrite Hg| |].
    all: intros Heq; assert (Hin : (0 < size (users (<[p := t <| sig := 0%Z |>]> (stasks w)) (sig t)))%nat); [|lia].
    all: apply (size_pos _ q t1), users_lookup; split; [by rewrite lookup_insert_ne|congruence].
  - apply lookup_insert_is_Some. destruct (decide (p = current (sys w))); [by left|right; split; [done|apply (i_current _ _ I)]].
  - intros q Hq. apply lookup_insert_is_Some. destruct (decide (p = q)); [by left|right; split; [done|by apply (i_list _ _ I)]].
Qed.

Lemma ok_exit_sighand p w : Good w -> is_Some (stasks w !! p) -> ok (exit_sighand p) w.
Proof.
  intros Hg [t Hp]. pose proof Hg as [qs I]. unfold exit_sighand. eapply ok_read; [by apply task_run|].
  destruct (Z.eqb_spec (sig t) 0) as [Hz|Hz]; cbn [negb when].
  { eapply ok_read; [done|]. apply ok_flush; eauto. }
  destruct (i_sig _ _ I p t Hp Hz) as [h Hh]. destruct (i_hands _ _ I _ _ Hh) as (_ & _ & Hc & Hr). pose proof (gone_Inv w qs p t h I Hp Hz Hh) as I1.
  eapply (ok_then _ _ w tt (gone w p t h)).
  - unfold set_stask, hand, set_hand, when, mbind, W_bind, wmodify. rewrite (task_run _ _ _ Hp). cbn [hands]. change (hands (w <| stasks := _ |>)) with (hands w). rewrite Hh.
    cbn [scount]. change (scount (h <| scount := ?x |>)) with x. rewrite s32_id by lia. unfold gone, left_hands, less_hand. by destruct (_ =? 0).
  - constructor; [done|done|]. intros q. cbn. destruct (decide (q = p)) as [->|]; [rewrite lookup_insert_eq, Hp; by split; eauto|by rewrite lookup_insert_ne].
  - apply (ok_flush p (gone w p t h)); [by exists qs|]. cbn. rewrite lookup_insert_eq. by eauto.
Qed.

Lemma flush_handlers_ok h : handlers_ok h -> handlers_ok (h <| action := (flushed_action <$> take (Z.to_nat _NSIG) (action h)) ++ drop (Z.to_nat _NSIG) (action h) |>).
Proof.
  intros [H1 H2 H3]. assert (E : (flushed_action <$> take (Z.to_nat _NSIG) (action h)) ++ drop (Z.to_nat _NSIG) (action h) = flushed_action <$> action h).
  { rewrite take_ge, drop_ge by lia. apply app_nil_r. }
  constructor; cbn [action]; change (action (h <| action := ?x |>)) with x; rewrite E.
  - by rewrite length_fmap.
  - intros n k Hn. rewrite list_lookup_fmap. destruct (action h !! Z.to_nat (n - 1)) as [k0|] eqn:Ek; [|done]. intros [= <-].
    unfold flushed_action. rewrite (H2 n k0 Hn Ek). done.
  - apply Forall_fmap, Forall_forall. intros k Hk. unfold compose, flushed_action. destruct (negb _); split_and!; done.
Qed.
Lemma ok_flush_handlers p w t : Good w -> stasks w !! p = Some t -> sig t <> 0 -> ok (flush_signal_handlers p) w.
Proof.
  intros [qs I] Hp Hs. unfold flush_signal_handlers. eapply ok_read; [by apply task_run|]. destruct (i_sig _ _ I p t Hp Hs) as [h Hh].
  eapply ok_read; [unfold hand; by rewrite Hh|]. destruct (i_hands _ _ I _ _ Hh) as (_ & Hok & _).
  eexists tt, _. split_and!; [done| |]; [|by constructor]. exists qs. eapply (hands_Inv w qs (sig t) h); [done|done|done|by apply flush_handlers_ok].
Qed.

(** *** Waiting for a signal *)
Lemma ok_timedwait cn (sch : Z -> W Z) stack dst these uinfo uts sz w :
  (forall x w, Good w -> ok (sch x) w) -> Good w -> ok (sys_rt_sigtimedwait cn sch stack dst these uinfo uts sz) w.
Proof.
  intros Hsch Hg. unfold sys_rt_sigtimedwait. destruct (negb _); [by apply ok_ret|]. destruct these as [| |these]; try by apply ok_ret.
  set (mask := signotset _). destruct uts as [| |[sec nsec]]; [|by apply ok_ret|].
  all: cbv iota; destruct (_ && _); [by apply ok_ret|]; eapply ok_read; [done|]; apply ok_bind; [by apply ok_dequeue|].
  all: intros [n inf] w1 Hg1 Hs1; rewrite <- (s_current _ _ Hs1); apply ok_bind.
  2, 4: intros [[n2 inf2] tm2] w2 Hg2 Hs2; destruct (truth n2); [|by apply ok_ret]; destruct (negb _); [by destruct uinfo; apply ok_ret|by apply ok_ret].
  all: destruct (negb (truth n)); [|by apply ok_ret]; match goal with |- context [if truth ?x then _ else _] => destruct (truth x) end; [|by apply ok_ret].
  all: destruct (good_current w1 Hg1) as (t & Hp & Hb); eapply ok_read; [by apply task_run|].
  all: assert (E : forall f g, f t = g t -> set_stask (current (sys w1)) f w1 = set_stask (current (sys w1)) g w1)
         by (intros f g Hfg; unfold set_stask, mbind, W_bind; rewrite (task_run _ _ _ Hp); unfold wmodify; by rewrite Hfg).
  all: assert (Hm : ok (_ ← set_stask (current (sys w1)) (fun t => t <| blocked := sigandsets (blocked t) mask |>); recalc_sigpending (current (sys w1))) w1)
         by (pose proof (ok_mask (sigandsets (blocked t) mask) w1 Hg1 (and_safe _ _ Hb)) as H; unfold ok, mbind, W_bind in *;
             by rewrite (E _ (fun t0 => t0 <| blocked := sigandsets (blocked t) mask |>))).
  all: apply ok_assoc; apply ok_bind; [exact Hm|]; intros _ w2 Hg2 Hs2; rewrite <- (s_current _ _ Hs2).
  all: apply ok_bind; [by apply ok_fields|]; intros _ w3 Hg3 Hs3; rewrite <- (s_current _ _ Hs3).
  all: apply ok_bind; [by apply Hsch|]; intros tm w4 Hg4 Hs4; apply ok_bind; [by apply ok_dequeue|]; intros [n5 inf5] w5 Hg5 Hs5.
  all: rewrite <- (s_current _ _ Hs4), <- (s_current _ _ Hs5); apply ok_mask_then; [done|done|]; intros; by apply ok_ret.
Qed.

(** *** Waking the threads of the parent *)

(** [l] are the threads from [p] on, up to the one before [e]. *)
Fixpoint ring (w : world) (p : Z) (l : list Z) (e : Z) : Prop :=
  match l with
  | [] => False
  | [q] => q = p /\ exists t, stasks w !! p = Some t /\ next_thread t = e
  | q :: l => q = p /\ exists t, stasks w !! p = Some t /\ next_thread t <> e /\ ring w (next_thread t) l e
  end.
Definition with_waked (w : world) (l : list Z) : world := World (sys w) (sq w) (stasks w) (hands w) l.
Lemma wake_loop_ok n : forall w p l e, ring w p l e -> (length l <= n)%nat -> wake_loop n p e w = Ok (tt, with_waked w (waked w ++ l)).
Proof.
  induction n as [|n IH]; intros w p l e Hr Hn; [destruct l; [done|cbn in Hn; lia]|]. destruct l as [|q l]; [done|]. cbn [wake_loop].
  unfold mbind, W_bind, wmodify, the_task. cbn [stasks]. change (stasks (w <| waked := ?x |>)) with (stasks w).
  destruct l as [|r l].
  - destruct Hr as (-> & t & -> & <-). rewrite Z.eqb_refl. done.
  - destruct Hr as (-> & t & -> & Hne & Hr). apply Z.eqb_neq in Hne as ->. cbn [negb]. etransitivity; [apply (IH _ _ (r :: l) e)|].
    + assert (Hx : forall l w a, ring w a l e -> ring (with_waked w (waked w ++ [p])) a l e); [|by apply Hx].
      clear. induction l as [|q l IH]; [done|]. intros w a. destruct l; [done|]. intros (? & t & ? & ? & ?). split; [done|]. exists t. split_and!; auto.
    + cbn in *. lia.
    + unfold with_waked. cbn. by rewrite <- app_assoc.
Qed.
Lemma ring_exist w l : forall p e, ring w p l e -> forall q, q ∈ l -> is_Some (stasks w !! q).
Proof.
  induction l as [|r l IH]; [done|]. intros p e Hr q Hq. destruct l as [|r' l].
  - apply list_elem_of_singleton in Hq as ->. destruct Hr as (-> & t & ? & _). eauto.
  - destruct Hr as (-> & t & ? & _ & Hr). apply elem_of_cons in Hq as [-> |Hq]; [eauto|by eapply IH].
Qed.
(** Every thread of the group is woken up, once, from [parent] on. *)
Lemma wake_up_parent_ok w parent l : ring w parent l parent -> NoDup l -> wake_up_parent parent w = Ok (tt, with_waked w (waked w ++ l)).
Proof.
  intros Hr Hnd. unfold wake_up_parent, mbind, W_bind, wgets. apply wake_loop_ok; [done|]. unfold ring_fuel.
  rewrite <- (size_list_to_set (C := gset Z)) by done. rewrite <- (size_dom (D := gset Z)). apply le_S, subseteq_size.
  intros q Hq%elem_of_list_to_set. apply elem_of_dom. by eapply ring_exist.
Qed.

(** ** Taking all signals *)

(** Repeated calls of [dequeue_signal], until it returns 0. *)
Fixpoint drain (n : nat) (cn : Z -> Z -> bool) (mask : sigset_t) (inf : siginfo) : W (list (Z * siginfo)) :=
  match n with
  | O => given None
  | S n =>
      r ← dequeue_signal cn mask inf;
      let '(sig, inf) := r in
      if truth sig then rest ← drain n cn mask inf; mret ((sig, inf) :: rest) else mret []
  end.

(** The entries of one signal, in the order of their arrival. *)
Definition entries (n : Z) (l : list entry) : list siginfo := snd <$> filter (fun e => signo e = n) l.

Lemma entries_none n l : queued n l = false -> entries n l = [].
Proof.
  unfold queued, entries. induction l as [|e l IH]; [done|]. cbn [existsb]. intros [H1 H2]%orb_false_iff. rewrite filter_cons.
  rewrite decide_False; [by apply IH|]. unfold signo. by apply Z.eqb_neq.
Qed.
Lemma entries_take n l i l' : take_sig n l = Some (i, l') -> entries n l = i :: entries n l'.
Proof.
  revert l'. unfold entries. induction l as [|[q j] l IH]; intros l'; cbn [take_sig snd]; [done|]. rewrite filter_cons. unfold signo at 1. cbn [snd].
  destruct (Z.eqb_spec (si_signo j) n) as [E|E].
  - intros [= <- <-]. by rewrite decide_True.
  - rewrite decide_False by done. destruct (take_sig n l) as [[k lr]|]; [|done]. intros [= -> <-]. rewrite filter_cons. cbn [fst snd].
    rewrite decide_False by done. by apply IH.
Qed.
Lemma entries_other n m l i l' : take_sig n l = Some (i, l') -> m <> n -> entries m l' = entries m l.
Proof.
  intros H Hne. destruct (take_sig_split _ _ _ _ H) as (la & q & lb & -> & -> & Hi). unfold entries. rewrite !filter_app, filter_cons.
  rewrite decide_False; [done|]. unfold signo. cbn. congruence.
Qed.
Lemma take_none n l : take_sig n l = None -> queued n l = false.
Proof.
  unfold queued. induction l as [|e l IH]; cbn; [done|]. destruct (si_signo e.2 =? n); [done|]. cbn. intros H. apply IH. by destruct (take_sig n l).
Qed.

(** What the calls return, in order: for each signal that is not blocked, from 1 on, its entries, or
    no information ([None]) when none could be queued. *)
Definition due (n : Z) (l : list entry) : list (option siginfo) :=
  match entries n l with [] => [None] | es => Some <$> es end.
Definition drained (mask : sigset_t) (l : list entry) (set : sigset_t) : list (Z * option siginfo) :=
  flat_map (fun n => if deliverable set mask n then pair n <$> due n l else []) (seqZ 1 _NSIG).
(** The caller gets what was sent, or a structure with the number of the signal and zeros. *)
Definition tells (r : Z * siginfo) (d : Z * option siginfo) : Prop :=
  fst r = fst d /\ match snd d with
  | Some i => visible (snd r) = visible i
  | None => si_signo (snd r) = fst d /\ si_errno (snd r) = 0 /\ si_code (snd r) = 0 /\ si_pid (snd r) = 0 /\ si_uid (snd r) = 0
  end.

Lemma flat_map_same {A B} (f g : A -> list B) l : (forall x, x ∈ l -> f x = g x) -> flat_map f l = flat_map g l.
Proof.
  induction l as [|x l IH]; intros H; cbn; [done|]. rewrite H by left. f_equal. apply IH. intros y Hy. apply H. by right.
Qed.
Lemma signals_split n : is_signal n -> seqZ 1 _NSIG = seqZ 1 (n - 1) ++ n :: seqZ (n + 1) (_NSIG - n).
Proof.
  unfold is_signal. intros H. replace _NSIG with ((n - 1) + (_NSIG - (n - 1))) at 1 by lia. rewrite seqZ_app by lia. f_equal.
  replace (1 + (n - 1)) with n by lia. rewrite seqZ_cons by lia. f_equal. f_equal; lia.
Qed.

Lemma fill_tells n inf : len (_sifields inf) = SI_PAD_SIZE -> tells (n, fill_info n 0 0 0 inf) (n, None).
Proof.
  intros H. assert (2 <= len (_sifields inf)) by (rewrite H; by vm_compute). unfold tells. cbn [fst snd]. split_and!; [done..| |].
  - change (get (set_at (set_at (_sifields inf) 0 0) 1 0) 0 = 0). by rewrite get_set_ne, get_set_eq by lia.
  - change (get (set_at (set_at (_sifields inf) 0 0) 1 0) 1 = 0). rewrite get_set_eq; [done|]. rewrite len_set. lia.
Qed.

(** One call takes the first of what is due. *)
Lemma drained_step mask l set inf n inf' l' set' : good l set -> len (_sifields inf) = SI_PAD_SIZE ->
  n = next_signal set mask -> n <> 0 -> collected n l set inf = (inf', l', set') ->
  exists o, drained mask l set = (n, o) :: drained mask l' set' /\ tells (n, inf') (n, o) /\ len (_sifields inf') = SI_PAD_SIZE.
Proof.
  intros Hg Hlen En Hz Hc. pose proof (g_set _ _ Hg) as Hw. destruct (next_signal_is_next set mask Hw) as [[E _]|(Hn & Hd & Hlow)]; [congruence|].
  rewrite <- En in Hn, Hd, Hlow.
  assert (Hset : set' = set \/ set' = sigdelset set n).
  { unfold collected in Hc. destruct (take_sig n l) as [[i lr]|]; [destruct (_ && _)|]; injection Hc as <- <- <-; auto. }
  assert (Hoth : forall m, is_signal m -> m <> n -> deliverable set' mask m = deliverable set mask m).
  { intros m Hm Hne. destruct Hset as [-> | ->]; [done|]. unfold deliverable. rewrite member_del by done. by apply Z.eqb_neq in Hne as ->. }
  assert (Hent : forall m, m <> n -> entries m l' = entries m l).
  { intros m Hne. unfold collected in Hc. destruct (take_sig n l) as [[i lr]|] eqn:Et; injection Hc as _ <- _; [by eapply entries_other|done]. }
  assert (Hhere : exists o, pair n <$> due n l = (n, o) :: (if deliverable set' mask n then pair n <$> due n l' else []) /\ tells (n, inf') (n, o) /\ len (_sifields inf') = SI_PAD_SIZE).
  { unfold collected in Hc. destruct (take_sig n l) as [[i lr]|] eqn:Et.
    - injection Hc as <- <- Hs. exists (Some i). unfold due at 1. rewrite (entries_take _ _ _ _ Et).
      destruct (take_sig_split _ _ _ _ Et) as (la & q & lb & El & -> & Hi).
      assert (Hli : len (_sifields i) = SI_PAD_SIZE).
      { pose proof (g_info _ _ Hg) as H. rewrite Forall_forall in H. apply (H (q, i)). rewrite El. apply elem_of_app. right. by left. }
      split_and!; [|split; [done|by apply visible_copy]|by apply copy_len]. cbn. f_equal. destruct ((SIGRTMIN <=? n) && queued n (la ++ lb)) eqn:Eq.
      + subst set'. rewrite Hd. apply andb_prop in Eq as [_ Eq]. unfold due. destruct (entries n (la ++ lb)) eqn:Ee; [|done].
        exfalso. clear -Eq Ee. unfold queued in Eq. apply existsb_exists in Eq as (e & He & Hs). apply list_elem_of_In in He. unfold entries in Ee. apply fmap_nil_inv in Ee.
        assert (Hin : e ∈ filter (fun e => signo e = n) (la ++ lb)) by (apply list_elem_of_filter; split; [by apply Z.eqb_eq|done]). rewrite Ee in Hin. by apply elem_of_nil in Hin.
      + subst set'. unfold deliverable at 1. rewrite member_del, Z.eqb_refl by done. cbn. rewrite entries_none; [done|].
        apply andb_false_iff in Eq as [Eq|]; [|done]. apply Z.leb_gt in Eq. rewrite <- Hi. eapply once_gone; [exact Hg|exact El|lia].
    - injection Hc as <- <- <-. exists None. unfold due at 1. rewrite (entries_none n l) by (by apply take_none). split_and!.
      + cbn. f_equal. unfold deliverable at 1. by rewrite member_del, Z.eqb_refl.
      + by apply fill_tells.
      + by rewrite fill_len. }
  destruct Hhere as (o & Ho & Ht & Hl). exists o. split_and!; [|done|done]. unfold drained. rewrite (signals_split n) by done. rewrite !flat_map_app. cbn [flat_map].
  unfold is_signal in *. rewrite Hd, Ho.
  assert (Hz1 : forall st lx, (forall m, 1 <= m < n -> deliverable st mask m = false) -> flat_map (fun m => if deliverable st mask m then pair m <$> due m lx else []) (seqZ 1 (n - 1)) = []).
  { intros st lx Hst. rewrite (flat_map_same _ (fun _ => [])); [by induction (seqZ 1 (n - 1))|]. intros m Hm%elem_of_seqZ. by rewrite Hst by lia. }
  rewrite !Hz1; [|intros m Hm; rewrite Hoth by lia; apply Hlow; lia|done]. cbn. f_equal. f_equal. apply flat_map_same. intros m Hm%elem_of_seqZ.
  rewrite Hoth by lia. destruct (deliverable set mask m); [|done]. unfold due. by rewrite Hent by lia.
Qed.

Lemma drained_nil mask l set : (forall m, is_signal m -> deliverable set mask m = false) -> drained mask l set = [].
Proof.
  intros H. unfold drained. rewrite (flat_map_same _ (fun _ => [])); [by induction (seqZ 1 _NSIG)|]. intros m Hm%elem_of_seqZ.
  rewrite H; [done|]. unfold is_signal, _NSIG in *. lia.
Qed.

(** One call of [dequeue_signal] by a task without notifier, under the invariant. *)
Lemma dequeue_run cn mask inf w qs t pd : Inv w qs -> stasks w !! current (sys w) = Some t -> pendings (sq w) !! current (sys w) = Some pd ->
  exists r inf' t' l' set' s, taken cn (next_signal (signal pd) mask) t (qs (current (sys w))) (signal pd) inf = (r, inf', t', l', set') /\
    dequeue_signal cn mask inf w = Ok ((r, inf'), put w (current (sys w)) t' s) /\ moved qs (current (sys w)) l' set' (sq w) s /\
    Inv (put w (current (sys w)) t' s) (upd qs (current (sys w)) l').
Proof.
  intros I Hp Hpd. destruct (inv_here _ _ _ _ I Hp) as (set & Hh & Hok). pose proof (e_pending _ _ _ _ _ _ Hh) as Hpd'. rewrite Hpd in Hpd'. injection Hpd' as ->. cbn [signal pd_of].
  destruct (taken cn (next_signal set mask) t (qs (current (sys w))) set inf) as [[[[r inf'] t'] l'] set'] eqn:Et.
  destruct (taken_ok _ _ _ _ _ _ _ _ _ _ _ Hok Et) as [Hs Hok'].
  destruct (does_dequeue cn mask inf w qs _ t _ set _ _ _ _ _ _ Hh eq_refl eq_refl Et) as (s & Hr & Hm & Hg).
  exists r, inf', t', l', set', s. split_and!; [done|done|done|]. by eapply put_Inv.
Qed.


(** Taking one signal. [dequeue_signal] takes the lowest pending signal outside the mask, and of
    its entries the oldest: the caller gets what the sender told, the entry leaves the queue and its
    node is freed, and the signal leaves the set unless it is a real-time signal with more entries.
    Nothing else changes but [sigpending], which says again whether something is left to take. When
    there is no such signal, or the notifier of a driver holds it back, nothing is taken. *)
Theorem dequeue_exact cn mask inf w qs t pd : Inv w qs -> stasks w !! current (sys w) = Some t ->
  pendings (sq w) !! current (sys w) = Some pd ->
  exists n r inf' t' l' set' s, is_next (signal pd) mask n /\
    taken cn n t (qs (current (sys w))) (signal pd) inf = (r, inf', t', l', set') /\
    dequeue_signal cn mask inf w = Ok ((r, inf'), put w (current (sys w)) t' s) /\
    moved qs (current (sys w)) l' set' (sq w) s /\ Inv (put w (current (sys w)) t' s) (upd qs (current (sys w)) l') /\
    (r <> 0 -> forall i l2, take_sig n (qs (current (sys w))) = Some (i, l2) -> visible inf' = visible i /\ l' = l2).
Proof.
  intros I Hp Hpd. pose proof (i_good _ _ I _ pd Hpd) as Hg.
  destruct (dequeue_run cn mask inf w qs t pd I Hp Hpd) as (r & inf' & t' & l' & set' & s & Ht & Hr & Hm & I').
  exists (next_signal (signal pd) mask), r, inf', t', l', set', s. split_and!; try done; [apply next_signal_is_next, Hg|].
  intros Hnz i l2 Hts. unfold taken in Ht. destruct (_ =? 0); [by injection Ht as <-|]. destruct (held _ _ _); [by injection Ht as <-|].
  unfold collected in Ht. rewrite Hts in Ht. injection Ht as <- <- <- <- <-. split; [|done]. apply visible_copy.
  destruct (take_sig_split _ _ _ _ Hts) as (la & q & lb & El & _ & _). pose proof (g_info _ _ Hg) as H. rewrite Forall_forall in H. apply (H (q, i)). rewrite El.
  apply elem_of_app. right. by left.
Qed.

(** C12. Sending. [send_sig_info] refuses a number outside 0.._NSIG with -EINVAL and, without a change,
    a sender that may not signal the task (another user without CAP_KILL; SIGCONT within the session
    is always allowed) with -EPERM. The null signal, and one to a task without handlers, changes
    nothing but the sender's note that a capability was used. Otherwise the task, its queue and its
    set become what [posted] says for the handler that is installed: a stop signal and SIGCONT (or
    SIGKILL) cancel each other, an ignored signal is dropped, a signal below SIGRTMIN is not queued
    twice, and every other one is appended with its sender's information and wakes the task unless it
    is blocked; -EAGAIN only for a real-time signal that must be queued and cannot. All other tasks
    and the handlers stay as they are, and the invariant is kept. *)
Theorem send_exact w qs n a p t : Inv w qs -> stasks w !! p = Some t -> arg_ok n a ->
  (n < 0 \/ _NSIG < n -> send_sig_info n a p w = Ok (- EINVAL, w)) /\
  (0 <= n <= _NSIG -> denied w n a p = true -> send_sig_info n a p w = Ok (- EPERM, w)) /\
  (0 <= n <= _NSIG -> denied w n a p = false -> n = 0 \/ sig t = 0 -> send_sig_info n a p w = Ok (0, with_sys w (noted w n a p))) /\
  (is_signal n -> denied w n a p = false -> sig t <> 0 ->
   exists k q r t' l' set set' s, action_of w (sig t) n = Some k /\ offered w n q /\ pendings (sq w) !! p = Some (pd_of (qs p) set) /\
    posted q (sender w) a n k t (qs p) set = (r, t', l', set') /\
    send_sig_info n a p w = Ok (r, put (with_sys w (noted w n a p)) p t' s) /\
    moved qs p l' set' (sq w) s /\ Inv (put (with_sys w (noted w n a p)) p t' s) (upd qs p l')).
Proof.
  intros I Hp Ha. destruct (send_early w qs n a p t I Hp) as (H1 & H2 & H3). split_and!; [done|done|done|]. intros Hn Hd Hs.
  destruct (send_post w qs n a p t I Hp Hn Ha Hd Hs) as (k & q & r & t' & l' & set & set' & s & H).
  exists k, q, r, t', l', set, set', s. tauto.
Qed.

Lemma kill_not_ignored k t : sa_handler k = SIG_DFL -> ignores SIGKILL k t = false.
Proof. intros H. unfold ignores. rewrite H. change (handler_type SIGKILL SIG_DFL =? 0) with false. apply andb_false_r. Qed.
Lemma stop_set_gone n m s : is_signal m -> continues n = true -> is_stop m = true -> sigismember (stop_set n s) m = false.
Proof.
  intros Hm Hc Hs. unfold stop_set. rewrite Hc, !member_del by (done || by split). unfold is_stop in Hs. cbn in Hs.
  destruct (m =? SIGSTOP), (m =? SIGTSTP), (m =? SIGTTOU), (m =? SIGTTIN); cbn in *; done.
Qed.
Lemma member_add_same s n : is_signal n -> sigismember (sigaddset s n) n = true.
Proof. intros H. by rewrite member_add, Z.eqb_refl. Qed.

(** C13. SIGKILL cannot be escaped. When the sender may signal the task and it has handlers, sending
    SIGKILL succeeds whatever mask and handlers the task has set and however full the queues are:
    afterwards SIGKILL is pending and not blocked, the task has been told (its [sigpending] is set,
    unless a driver's notifier is installed), it is not stopped, and no stop signal is pending. *)
Theorem sigkill_certain w qs a p t : Inv w qs -> stasks w !! p = Some t -> arg_ok SIGKILL a ->
  denied w SIGKILL a p = false -> sig t <> 0 ->
  exists w' t' pd', send_sig_info SIGKILL a p w = Ok (0, w') /\ stasks w' !! p = Some t' /\ pendings (sq w') !! p = Some pd' /\
    sigismember (signal pd') SIGKILL = true /\ sigismember (blocked t') SIGKILL = false /\
    (notifier t' = 0 -> sigpending t' = true) /\ tstate t' <> TASK_STOPPED /\
    forall m, is_signal m -> is_stop m = true -> sigismember (signal pd') m = false.
Proof.
  intros I Hp Ha Hd Hs. destruct (inv_action w qs p t SIGKILL I Hp Hs ltac:(by split)) as (k & h & Hh & Hk & Hact).
  destruct (send_post w qs SIGKILL a p t I Hp ltac:(by split) Ha Hd Hs) as (k' & q & r & t' & l' & set & set' & s & Hk' & _ & Hpd & Hpost & Hr & Hm & I' & Hb).
  rewrite Hact in Hk'. injection Hk' as <-. destruct (i_hands _ _ I _ _ Hh) as (_ & Hok & _).
  pose proof (h_default _ Hok SIGKILL k ltac:(by left) Hk) as Hdfl. assert (Hp' : stasks (put (with_sys w (noted w SIGKILL a p)) p t' s) !! p = Some t') by apply lookup_insert_eq.
  pose proof (moved_pending _ _ _ _ _ _ Hm) as Hpd'. destruct (i_task _ _ I' p t' _ Hp' Hpd') as [(Hwb & Hkb & _) Hsee]. cbn [signal pd_of] in Hsee.
  assert (Hstopped : tstate (stop_task SIGKILL t) <> TASK_STOPPED).
  { unfold stop_task, resumed. change (continues SIGKILL) with true. destruct (Z.eqb_spec (tstate t) TASK_STOPPED); done. }
  assert (Hres : r = 0 /\ sigismember set' SIGKILL = true /\ tstate t' <> TASK_STOPPED /\ forall m, is_signal m -> is_stop m = true -> sigismember set' m = false).
  { unfold posted in Hpost. rewrite kill_not_ignored in Hpost by done. change (SIGKILL <? SIGRTMIN) with true in Hpost. cbn [andb] in Hpost.
    assert (Hgone : forall m, is_signal m -> is_stop m = true -> sigismember (stop_set SIGKILL set) m = false) by (intros; by apply stop_set_gone).
    destruct (sigismember (stop_set SIGKILL set) SIGKILL) eqn:Em; [by injection Hpost as <- <- <- <-|]. unfold delivered, sent in Hpost.
    change (must_queue SIGKILL a) with false in Hpost. destruct (stop_task_same SIGKILL t) as (_ & Eb & _). rewrite Eb, <- Hb, Hkb in Hpost.
    assert (Hst : tstate (woken (stop_task SIGKILL t)) <> TASK_STOPPED) by (unfold woken; cbv zeta; destruct (truth _); done).
    destruct q as [[b i]|]; injection Hpost as <- <- <- <-; rewrite member_add_same by (by split).
    all: split_and!; try done. all: intros m Hms Hst2; rewrite member_add by (done || by split); rewrite Hgone by done.
    all: destruct (Z.eqb_spec m SIGKILL) as [->|]; done. }
  destruct Hres as (-> & Hmem & Hst & Hno). eexists _, t', _. split_and!; [exact Hr|exact Hp'|exact Hpd'|done|done| |done|done].
  intros Hz. apply Hsee; [done|]. apply has_pending_iff.
  - apply (g_set _ _ (i_good _ _ I' p _ Hpd')).
  - exists SIGKILL. split; [by split|]. unfold deliverable. cbn. by rewrite Hmem, Hkb.
Qed.

(** ** All interleavings *)
Section Calls.
Context (call_notifier : Z -> Z -> bool) (schedule_timeout : Z -> W Z).

(** What tasks, drivers and the rest of the kernel do; [stack] and [dst] as above. *)
Inductive call :=
| Do_kill (stack : siginfo) (pid n : Z) | Do_tkill (stack : siginfo) (pid n : Z) | Do_sigqueueinfo (pid n : Z) (u : from siginfo)
| Do_rt_sigprocmask (how : Z) (set : from sigset_t) (oset : to) (sz : Z) | Do_sigprocmask (how : Z) (set : from Z) (oset : to)
| Do_sigpending (set : to) (sz : Z) | Do_rt_sigaction (n : Z) (act : from sigaction) (oact : to) (sz : Z)
| Do_sigaltstack (uss : from (Z * Z * Z)) (uoss : to) (sp : Z)
| Do_sigtimedwait (stack dst : siginfo) (these : from sigset_t) (uinfo : to) (uts : from (Z * Z)) (sz : Z)
| Do_dequeue (mask : sigset_t) (inf : siginfo) | Do_send (n : Z) (a : info_arg) (p : Z) | Do_force (n : Z) (a : info_arg) (p : Z)
| Do_kill_pg (n : Z) (a : info_arg) (g : Z) | Do_kill_sl (n : Z) (a : info_arg) (g : Z)
| Do_block (fn priv : Z) (mask : sigset_t) | Do_unblock | Do_flush (p : Z) | Do_exit_sighand (p : Z) | Do_flush_handlers (p : Z).

Definition perform (c : call) : W unit :=
  let quiet {A} (m : W A) : W unit := _ ← m; mret tt in
  match c with
  | Do_kill st pid n => quiet (sys_kill st pid n) | Do_tkill st pid n => quiet (sys_tkill st pid n)
  | Do_sigqueueinfo pid n u => quiet (sys_rt_sigqueueinfo pid n u)
  | Do_rt_sigprocmask how set oset sz => quiet (sys_rt_sigprocmask how set oset sz)
  | Do_sigprocmask how set oset => quiet (sys_sigprocmask how set oset)
  | Do_sigpending set sz => quiet (do_sigpending set sz)
  | Do_rt_sigaction n act oact sz => quiet (sys_rt_sigaction n act oact sz)
  | Do_sigaltstack uss uoss sp => quiet (do_sigaltstack uss uoss sp)
  | Do_sigtimedwait st dst these uinfo uts sz => quiet (sys_rt_sigtimedwait call_notifier schedule_timeout st dst these uinfo uts sz)
  | Do_dequeue mask inf => quiet (dequeue_signal call_notifier mask inf)
  | Do_send n a p => quiet (send_sig_info n a p) | Do_force n a p => quiet (force_sig_info n a p)
  | Do_kill_pg n a g => quiet (kill_pg_info n a g) | Do_kill_sl n a g => quiet (kill_sl_info n a g)
  | Do_block fn priv mask => block_all_signals fn priv mask | Do_unblock => unblock_all_signals
  | Do_flush p => flush_signals p | Do_exit_sighand p => exit_sighand p | Do_flush_handlers p => flush_signal_handlers p
  end.

(** What a caller has to see to: the sizes of the C types, the signal named in a structure, and that
    the task exists and, for its handlers, has some. *)
Definition sized (i : siginfo) : Prop := len (_sifields i) = SI_PAD_SIZE.
Definition has_handlers (w : world) (p : Z) : Prop := exists t, stasks w !! p = Some t /\ sig t <> 0.
Definition enabled (w : world) (c : call) : Prop :=
  match c with
  | Do_kill st _ _ | Do_tkill st _ _ => sized st
  | Do_sigqueueinfo _ _ u => wf_from sized u
  | Do_rt_sigprocmask _ set _ _ => wf_from wf_set set
  | Do_sigprocmask _ set _ => wf_from is_word set
  | Do_rt_sigaction _ act _ _ => wf_from (fun k => wf_set (sa_mask k)) act /\ has_handlers w (current (sys w))
  | Do_send n a p => is_Some (stasks w !! p) /\ arg_ok n a
  | Do_force n a p => is_Some (stasks w !! p) /\ is_signal n /\ arg_ok n a
  | Do_kill_pg n a _ | Do_kill_sl n a _ => arg_ok n a
  | Do_block fn _ _ => fn <> 0
  | Do_flush p | Do_exit_sighand p => is_Some (stasks w !! p)
  | Do_flush_handlers p => has_handlers w p
  | Do_sigpending _ _ | Do_sigaltstack _ _ _ | Do_sigtimedwait _ _ _ _ _ _ | Do_dequeue _ _ | Do_unblock => True
  end.

Lemma quiet_ok {A} (m : W A) w : ok m w -> ok (_ ← m; mret tt : W unit) w.
Proof. intros H. apply ok_bind; [done|]. intros. by apply ok_ret. Qed.

Context (Hsleep : forall x w, Good w -> ok (schedule_timeout x) w).
Lemma perform_ok c w : Good w -> enabled w c -> ok (perform c) w.
Proof using Hsleep.
  intros Hg He. destruct c; cbn [perform enabled] in *; try apply quiet_ok.
  - by apply ok_sys_kill.
  - by apply ok_sys_tkill.
  - by apply ok_sigqueueinfo.
  - by apply ok_rt_sigprocmask.
  - by apply ok_sigprocmask.
  - by apply ok_sigpending.
  - destruct He as [Ha (t & Hp & Hs)]. apply ok_rt_sigaction; [done| |done]. intros t' Hp'. congruence.
  - by apply ok_sigaltstack.
  - by apply ok_timedwait.
  - by apply ok_dequeue.
  - destruct He. by apply ok_send.
  - destruct He as (? & ? & ?). by apply ok_force.
  - by apply ok_kill_pg.
  - by apply ok_kill_sl.
  - by apply ok_block.
  - by apply ok_unblock.
  - by apply ok_flush.
  - by apply ok_exit_sighand.
  - destruct He as (t & Hp & Hs). by eapply ok_flush_handlers.
Qed.

(** A step: a call; a change in the rest of the kernel (another task runs, credentials change); the
    slab allocator changes its mind about what it will answer. *)
Inductive sstep : world -> world -> Prop :=
| step_call w c w' : enabled w c -> perform c w = Ok (tt, w') -> sstep w w'
| step_system w s : is_Some (stasks w !! current s) -> (forall p, p ∈ task_list s -> is_Some (stasks w !! p)) -> sstep w (with_sys w s)
| step_slab w x : sstep w (with_store w ((sq w) <| slab := x |>)).

Lemma sstep_good w w' : Good w -> sstep w w' -> Good w'.
Proof using Hsleep.
  intros Hg Hs. destruct Hs as [w c w' He Hr|w s H1 H2|w x].
  - destruct (perform_ok c w Hg He) as (u & w1 & Hr' & Hg' & _). congruence.
  - destruct Hg as [qs []]. exists qs. by constructor.
  - destruct Hg as [qs I]. exists qs. destruct I. constructor; try done. by apply Queues_slab.
Qed.
End Calls.

(** C10. The state of signals stays sound. Whatever calls, faults, drivers and exits follow each
    other, whichever tasks run and whatever the slab allocator answers, from a sound state on: no
    enabled call ever faults or loops; every node of the heap is in exactly one queue and
    [nr_queued_signals] counts them; every queued entry names a signal of its task's pending set,
    one below SIGRTMIN at most once; SIGKILL and SIGSTOP are never blocked and keep their default
    action; and a task with a pending signal that it does not block always has [sigpending] set,
    unless a driver's notifier is installed: no signal goes unnoticed. *)
Theorem signals_sound cn sch w0 w : (forall x w, Good w -> ok (sch x) w) -> Good w0 -> rtc (sstep cn sch) w0 w ->
  (forall c, enabled w c -> exists w', perform cn sch c w = Ok (tt, w')) /\
  exists qs, Queues (sq w) qs /\ nr_queued_signals (sq w) = Z.of_nat (size (nodes (sq w))) /\
  forall p t, stasks w !! p = Some t -> exists pd, pendings (sq w) !! p = Some pd /\ good (qs p) (signal pd) /\
    (sigismember (blocked t) SIGKILL = false /\ sigismember (blocked t) SIGSTOP = false) /\
    (forall n k, n = SIGKILL \/ n = SIGSTOP -> action_of w (sig t) n = Some k -> sa_handler k = SIG_DFL) /\
    (notifier t = 0 -> forall n, is_signal n -> sigismember (signal pd) n = true -> sigismember (blocked t) n = false -> sigpending t = true).
Proof.
  intros Hsleep Hg Hr. assert (Hgw : Good w) by (induction Hr; eauto using sstep_good). clear Hg Hr. split.
  { intros c Hc. destruct (perform_ok cn sch Hsleep c w Hgw Hc) as ([] & w' & H & _). by exists w'. }
  destruct Hgw as [qs I]. exists qs. split_and!; [apply I|apply (q_count _ _ (i_queues _ _ I))|]. intros p t Hp.
  destruct (proj1 (i_both _ _ I p)) as [pd Hpd]; [by eauto|]. pose proof (i_good _ _ I p pd Hpd) as Hgood. destruct (i_task _ _ I p t pd Hp Hpd) as [(_ & Hb1 & Hb2) Hs].
  exists pd. split_and!; [done|done|done|done| |].
  - intros n k Hn Hk. unfold action_of in Hk. destruct (hands w !! sig t) as [h|] eqn:Hh; [|done]. cbn in Hk. destruct (i_hands _ _ I _ _ Hh) as (_ & Hok & _).
    eapply (h_default _ Hok n); [done|]. by destruct (1 <=? n).
  - intros Hz n Hn Hm Hb. apply Hs; [done|]. apply has_pending_iff; [apply Hgood|]. exists n. split; [done|]. unfold deliverable. by rewrite Hm, Hb.
Qed.

(** ** A small world *)

(** Init and a task 2 that share their handlers; task 2 runs and has one real-time signal queued. *)
Definition blank : siginfo := Siginfo 0 0 0 (replicate 29 0).
Definition queued40 : siginfo := Siginfo 40 0 (-1) (replicate 29 7).
Definition demo_task (p : Z) (pending : bool) : sigtask :=
  Sigtask p TASK_RUNNING false pending sigemptyset 100 0 false 0 0 sigemptyset 0 0 p 0 0.
Definition demo_hands : signal_struct := Signal_struct 2 (replicate 64 (Sigaction SIG_DFL 0 0 sigemptyset)).
Definition demo_store : store :=
  Store {[500 := Sigqueue 0 queued40]} 1 1024
    {[1 := init_sigpending; 2 := Sigpending 500 (Next 500) (sigaddset sigemptyset 40)]} [Some (600, blank); None].
Definition demo_system : system :=
  System {[1 := no_task; 2 := no_task]} [1; 2] 2 ∅ ∅ ∅ ∅ 0 [] [] 0.
Definition demo : world :=
  World demo_system demo_store {[1 := demo_task 1 false; 2 := demo_task 2 true]} {[100 := demo_hands]} [].
Definition demo_queues : Z -> list entry := fun p => if decide (p = 2) then [(500, queued40)] else [].

Lemma two_lookup {A} (a b x : A) p : ({[1 := a; 2 := b]} : gmap Z A) !! p = Some x -> (p = 1 /\ x = a) \/ (p = 2 /\ x = b).
Proof. intros [[<- <-]|[_ [<- <-]%lookup_singleton_Some]]%lookup_insert_Some; auto. Qed.
Lemma two_some {A} (a b : A) p : is_Some (({[1 := a; 2 := b]} : gmap Z A) !! p) <-> p = 1 \/ p = 2.
Proof.
  split; [intros [x [[-> _]|[-> _]]%two_lookup]; auto|]. intros [-> | ->]; by eexists.
Qed.

Lemma demo_Queues : Queues demo_store demo_queues.
Proof.
  assert (Hcase : forall p, (p = 2 /\ demo_queues p = [(500, queued40)]) \/ (p <> 2 /\ demo_queues p = [])).
  { intros p. unfold demo_queues. case_decide; auto. }
  constructor.
  - intros p pd [[-> ->]|[-> ->]]%two_lookup; done.
  - intros p Hp. destruct (Hcase p) as [[-> _]|[_ ->]]; [|done]. done.
  - intros p. destruct (Hcase p) as [[_ ->]|[_ ->]]; cbn; [|done]. split_and!; done.
  - intros p. destruct (Hcase p) as [[_ ->]|[_ ->]]; cbn; [apply NoDup_singleton|constructor].
  - intros p p' a. destruct (Hcase p) as [[-> ->]|[_ ->]], (Hcase p') as [[-> ->]|[_ ->]]; cbn; try done; (by intros ?%elem_of_nil) || (by intros _ ?%elem_of_nil).
  - intros a [x Hx]. cbn in Hx. apply lookup_singleton_Some in Hx as [<- _]. exists 2. by left.
  - done.
  - by vm_compute.
  - by vm_compute.
Qed.
Lemma demo_Inv : Inv demo demo_queues.
Proof.
  constructor.
  - apply demo_Queues.
  - intros p pd [[-> ->]|[-> ->]]%two_lookup; [by apply good_nil, empty_wf|].
    constructor; [by apply sigadd_wf, empty_wf|repeat constructor; by vm_compute|repeat constructor; by vm_compute|apply NoDup_nil_2].
  - intros p. etransitivity; [apply two_some|]. symmetry. apply two_some.
  - intros p t pd [[-> ->]|[-> ->]]%two_lookup [[H ->]|[H ->]]%two_lookup; try done; by repeat split.
  - intros a h Hh. cbn in Hh. apply lookup_singleton_Some in Hh as [<- <-]. split_and!; try by vm_compute. constructor; [done| |].
    + intros n k _ [-> _]%lookup_replicate_1. done.
    + apply Forall_replicate. by repeat split.
  - intros p t [[-> ->]|[-> ->]]%two_lookup _; by eexists.
  - by eexists.
  - intros p Hp. apply two_some. cbn in Hp. set_solver.
Qed.
Lemma demo_good : Good demo.
Proof. exists demo_queues. apply demo_Inv. Qed.

Lemma dequeue_exact_witness : exists n r inf' t' l' set' s, is_next (sigaddset sigemptyset 40) sigemptyset n /\
  taken (fun _ _ => true) n (demo_task 2 true) (demo_queues 2) (sigaddset sigemptyset 40) blank = (r, inf', t', l', set') /\
  dequeue_signal (fun _ _ => true) sigemptyset blank demo = Ok ((r, inf'), put demo 2 t' s) /\
  moved demo_queues 2 l' set' demo_store s /\ Inv (put demo 2 t' s) (upd demo_queues 2 l') /\
  (r <> 0 -> forall i l2, take_sig n (demo_queues 2) = Some (i, l2) -> visible inf' = visible i /\ l' = l2).
Proof.
  apply (dequeue_exact (fun _ _ => true) sigemptyset blank demo demo_queues (demo_task 2 true) (Sigpending 500 (Next 500) (sigaddset sigemptyset 40)));
    [apply demo_Inv|reflexivity|reflexivity].
Defined.
Lemma send_exact_witness : exists k q r t' l' set set' s, action_of demo 100 15 = Some k /\ offered demo 15 q /\
  pendings demo_store !! 1 = Some (pd_of (demo_queues 1) set) /\ posted q (sender demo) Info_user 15 k (demo_task 1 false) (demo_queues 1) set = (r, t', l', set') /\
  send_sig_info 15 Info_user 1 demo = Ok (r, put (with_sys demo (noted demo 15 Info_user 1)) 1 t' s) /\
  moved demo_queues 1 l' set' demo_store s /\ Inv (put (with_sys demo (noted demo 15 Info_user 1)) 1 t' s) (upd demo_queues 1 l').
Proof.
  apply (send_exact demo demo_queues 15 Info_user 1 (demo_task 1 false)); [apply demo_Inv|reflexivity|exact I|by split|reflexivity|done].
Defined.
Lemma sigkill_certain_witness : exists w' t' pd', send_sig_info SIGKILL Info_kernel 1 demo = Ok (0, w') /\ stasks w' !! 1 = Some t' /\ pendings (sq w') !! 1 = Some pd' /\
  sigismember (signal pd') SIGKILL = true /\ sigismember (blocked t') SIGKILL = false /\ (notifier t' = 0 -> sigpending t' = true) /\ tstate t' <> TASK_STOPPED /\
  forall m, is_signal m -> is_stop m = true -> sigismember (signal pd') m = false.
Proof.
  apply (sigkill_certain demo demo_queues Info_kernel 1 (demo_task 1 false)); [apply demo_Inv|reflexivity|exact I|reflexivity|done].
Defined.

Definition no_sleep : Z -> W Z := fun _ => mret 0.
(** Task 2 asks for the signal and gets it: the world after the call. *)
Definition demo_after : world :=
  match perform (fun _ _ => true) no_sleep (Do_dequeue sigemptyset blank) demo with Ok (_, w) => w | Bug => demo end.
Lemma signals_sound_witness :
  (forall c, enabled demo_after c -> exists w', perform (fun _ _ => true) no_sleep c demo_after = Ok (tt, w')) /\
  exists qs, Queues (sq demo_after) qs /\ nr_queued_signals (sq demo_after) = Z.of_nat (size (nodes (sq demo_after))) /\
  forall p t, stasks demo_after !! p = Some t -> exists pd, pendings (sq demo_after) !! p = Some pd /\ good (qs p) (signal pd) /\
    (sigismember (blocked t) SIGKILL = false /\ sigismember (blocked t) SIGSTOP = false) /\
    (forall n k, n = SIGKILL \/ n = SIGSTOP -> action_of demo_after (sig t) n = Some k -> sa_handler k = SIG_DFL) /\
    (notifier t = 0 -> forall n, is_signal n -> sigismember (signal pd) n = true -> sigismember (blocked t) n = false -> sigpending t = true).
Proof.
  apply (signals_sound (fun _ _ => true) no_sleep demo demo_after).
  - intros x w Hg. by apply ok_ret.
  - apply demo_good.
  - apply rtc_once. by apply (step_call _ _ demo (Do_dequeue sigemptyset blank) demo_after).
Defined.

(** ** What the code does against its intention *)

(** [sys_rt_sigprocmask] with a [how] that is none of the three returns -EINVAL, and yet has
    replaced the mask by the user's set; [sys_sigprocmask] leaves it alone. *)
Theorem rt_sigprocmask_invalid_how w qs how new oset : how <> SIG_BLOCK -> how <> SIG_UNBLOCK -> how <> SIG_SETMASK -> Inv w qs ->
  exists w' t', sys_rt_sigprocmask how (From new) oset sizeof_sigset w = Ok ((- EINVAL, None), w') /\
    stasks w' !! current (sys w) = Some t' /\ blocked t' = sigdelsetmask new unblockable.
Proof.
  intros H1 H2 H3 I. apply Z.eqb_neq in H1, H2, H3. destruct (i_current _ _ I) as [t Hp]. destruct (inv_here _ _ _ _ I Hp) as (set & Hh & _).
  destruct (does_mask (sigdelsetmask new unblockable) _ _ _ _ _ _ Hh) as (s & Hr & _). unfold sys_rt_sigprocmask.
  rewrite (bind_run the_current _ w (current (sys w)) w) by done. change (sizeof_sigset =? sizeof_sigset) with true. cbn [negb].
  rewrite (bind_run (the_task _) _ w t w) by (by apply task_run). rewrite H1, H2, H3. erewrite bind_assoc_run by exact Hr.
  eexists _, _. split_and!; [done|apply lookup_insert_eq|done].
Qed.

(** The information that [sys_tkill] sends holds words of the kernel stack, all of which reach the
    receiver: its code is negative, so that the whole structure is copied each time. *)
Theorem tkill_leaks n pid uid stack node dst : drop 2 (_sifields (user_info dst (copy_siginfo node (fill_info n SI_TKILL pid uid stack)))) = drop 2 (_sifields stack).
Proof.
  assert (E : user_info dst (copy_siginfo node (fill_info n SI_TKILL pid uid stack)) = fill_info n SI_TKILL pid uid stack) by done. rewrite E.
  change (_sifields (fill_info n SI_TKILL pid uid stack)) with (<[1%nat := uid]> (<[0%nat := pid]> (_sifields stack))).
  by rewrite !drop_insert_lt by lia.
Qed.
