(* ===== verification/SigFrame.v ===== *)
(** Signal frames: arch/arm/kernel/signal.c, what the ARM port does to run a handler in user mode and
    to come back from it.

    User memory is a map of the words that the process can access, by address; an access to another
    address faults, as [__put_user] and [__get_user] report. The SA-1110 has no Thumb instructions
    (CONFIG_ARM_THUMB is not set), so that [thumb] is 0. *)
From S2P Require Import Prelude Task SigQueue Signal.

Definition SIGTRAP : Z := 5.
Definition SA_SIGINFO : Z := 0x00000004.
Definition SA_THIRTYTWO : Z := 0x02000000.
Definition SA_RESTORER : Z := 0x04000000.
Definition SA_ONSTACK : Z := 0x08000000.
Definition SA_NODEFER : Z := 0x40000000.
Definition SA_ONESHOT : Z := 0x80000000.
Definition USR_MODE : Z := 0x10.
Definition MODE_MASK : Z := 0x1f.
Definition F_BIT : Z := 0x40.
Definition I_BIT : Z := 0x80.
Definition CC_BITS : Z := (1 .<< 28) .| (1 .<< 29) .| (1 .<< 30) .| (1 .<< 31).
Definition TASK_SIZE : Z := 0xc0000000.
Definition SWI_SYS_SIGRETURN : Z := 0xef000000 .| (0x900000 + 119).
Definition SWI_SYS_RT_SIGRETURN : Z := 0xef000000 .| (0x900000 + 173).

(** ** Registers and memory *)

(** [struct pt_regs]: [uregs[18]], all as unsigned words. *)
Definition ARM_r0 : Z := 0.
Definition ARM_r1 : Z := 1.
Definition ARM_r2 : Z := 2.
Definition ARM_sp : Z := 13.
Definition ARM_lr : Z := 14.
Definition ARM_pc : Z := 15.
Definition ARM_cpsr : Z := 16.

(** The kernel, the memory of the process, its registers, and [current->thread]. *)
Record machine := Machine {
  kw : world; mem : gmap Z Z; regs : list Z;
  trap_no : Z; error_code : Z; address : Z }.
#[export] Instance machine_fields : Fields machine := fun m =>
  Machine (kw m) (mem m) (regs m) (trap_no m) (error_code m) (address m).

(** Whether the registers are suitable for user mode; if not, CPSR is forced to something logical. *)
Definition valid_user_regs (r : list Z) : bool * list Z :=
  if (get r ARM_cpsr .& 0xf =? 0) && (get r ARM_cpsr .& (F_BIT .| I_BIT) =? 0) then (true, r)
  else (false, set_at r ARM_cpsr (get r ARM_cpsr .& (CC_BITS .| 0x10))).

Definition access_ok (a n : Z) : bool := a + n <=? TASK_SIZE.
(** [__put_user_error(v, a, err)] *)
Definition poke (me : gmap Z Z * bool) (av : Z * Z) : gmap Z Z * bool :=
  let '(m, err) := me in
  match m !! fst av with Some _ => (<[fst av := snd av]> m, err) | None => (m, true) end.
(** Stores at byte offsets from [base]. *)
Definition pokes (base : Z) (l : list (Z * Z)) (me : gmap Z Z * bool) : gmap Z Z * bool :=
  foldl poke me ((fun ov => (base + fst ov, snd ov)) <$> l).
(** [__get_user_error(x, a, err)]: on a fault [x] is 0. *)
Definition peek (m : gmap Z Z) (a : Z) : Z * bool := match m !! a with Some v => (v, false) | None => (0, true) end.

(** ** The layout of the frames, in bytes *)

(** [struct sigcontext]: [trap_no], [error_code], [oldmask], r0 to cpsr, [fault_address]. *)
Definition sc_reg (i : Z) : Z := 4 * (3 + i).
Definition sizeof_sigcontext : Z := 4 * 21.
Definition sigframe_extramask : Z := sizeof_sigcontext.
Definition sigframe_retcode : Z := sizeof_sigcontext + 4.
Definition sizeof_sigframe : Z := sizeof_sigcontext + 8.
(** [struct rt_sigframe]: [pinfo], [puc], [info] of 128 bytes, [uc], [retcode]; in [uc] 20 bytes are
    before [uc_mcontext], and [uc_sigmask] comes after it. *)
Definition rt_info : Z := 8.
Definition rt_uc : Z := 8 + 128.
Definition rt_mcontext : Z := rt_uc + 20.
Definition rt_sigmask : Z := rt_mcontext + sizeof_sigcontext.
Definition rt_retcode : Z := rt_sigmask + 8.
Definition sizeof_rt_sigframe : Z := rt_retcode + 4.

(** ** Setting up *)

(** What [setup_sigcontext] stores, in its order. *)
Definition sigcontext_words (m : machine) (mask : Z) : list (Z * Z) :=
  ((fun i => (sc_reg i, get (regs m) i)) <$> seqZ 0 17)
  ++ [(0, trap_no m); (4, error_code m); (4 * 20, address m); (8, mask)].
Definition setup_sigcontext (m : machine) (sc mask : Z) (me : gmap Z Z * bool) : gmap Z Z * bool :=
  pokes sc (sigcontext_words m mask) me.

Definition get_sigframe (t : sigtask) (ka : sigaction) (r : list Z) (framesize : Z) : Z :=
  let sp := get r ARM_sp in
  let sp := if truth (sa_flags ka .& SA_ONSTACK) && negb (truth (sas_ss_flags t sp)) then u32 (sas_ss_sp t + sas_ss_size t) else sp in
  u32 (sp - framesize) .& not32 7.

(** [rc]: the address of [retcode]. *)
Definition setup_return (r : list Z) (ka : sigaction) (rc frame usig : Z) (m : gmap Z Z) : bool * list Z * gmap Z Z :=
  let cpsr := get r ARM_cpsr in
  let cpsr := if truth (sa_flags ka .& SA_THIRTYTWO) then (cpsr .& not32 MODE_MASK) .| USR_MODE else cpsr in
  let '(m, err, retcode) :=
    if truth (sa_flags ka .& SA_RESTORER) then (m, false, sa_restorer ka)
    else
      let code := if truth (sa_flags ka .& SA_SIGINFO) then SWI_SYS_RT_SIGRETURN else SWI_SYS_SIGRETURN in
      let '(m, err) := poke (m, false) (rc, code) in (m, err, rc) in
  if (err : bool) then (true, r, m)
  else
    let r := set_at r ARM_r0 usig in
    let r := set_at r ARM_sp frame in
    let r := set_at r ARM_lr retcode in
    let r := set_at r ARM_pc (sa_handler ka) in
    let r := set_at r ARM_cpsr cpsr in
    (false, r, m).

(** Whether it failed, the registers and the memory. *)
Definition setup_frame (usig : Z) (ka : sigaction) (set : sigset_t) (t : sigtask) (m : machine) : bool * list Z * gmap Z Z :=
  let frame := get_sigframe t ka (regs m) sizeof_sigframe in
  if negb (access_ok frame sizeof_sigframe) then (true, regs m, mem m)
  else
    let me := setup_sigcontext m frame (sig0 set) (mem m, false) in
    let '(um, err) := poke me (frame + sigframe_extramask, sig1 set) in
    if (err : bool) then (true, regs m, um)
    else setup_return (regs m) ka (frame + sigframe_retcode) frame usig um.

(** What [copy_siginfo_to_user] stores, at offsets in the structure. *)
Definition info_words (i : siginfo) : list (Z * Z) :=
  if si_code i <? 0 then
    (fun k => (4 * k, get (si_signo i :: si_errno i :: si_code i :: _sifields i) k)) <$> seqZ 0 32
  else
    [(0, si_signo i); (4, si_errno i); (8, s16 (si_code i)); (12, si_pid i)]
    ++ (let kind := si_code i .>> 16 in
        if kind =? 3 then []
        else (if kind =? 4 then [(24, get (_sifields i) 3); (28, get (_sifields i) 4); (20, get (_sifields i) 2)] else [])
             ++ [(16, si_uid i)]).

Definition setup_rt_frame (usig : Z) (ka : sigaction) (info : siginfo) (set : sigset_t) (t : sigtask) (m : machine) : bool * list Z * gmap Z Z :=
  let frame := get_sigframe t ka (regs m) sizeof_rt_sigframe in
  if negb (access_ok frame sizeof_rt_sigframe) then (true, regs m, mem m)
  else
    let me := pokes frame [(0, frame + rt_info); (4, frame + rt_uc)] (mem m, false) in
    let me := pokes (frame + rt_info) (info_words info) me in
    let me := pokes (frame + rt_uc) ((fun i => (4 * i, 0)) <$> seqZ 0 5) me in
    let me := setup_sigcontext m (frame + rt_mcontext) (sig0 set) me in
    let '(um, err) := pokes (frame + rt_sigmask) [(0, sig0 set); (4, sig1 set)] me in
    if (err : bool) then (true, regs m, um)
    else
      let '(err, r, um) := setup_return (regs m) ka (frame + rt_retcode) frame usig um in
      if (err : bool) then (true, r, um)
      else
        let r := set_at r ARM_r1 (fst (peek um frame)) in
        let r := set_at r ARM_r2 (fst (peek um (frame + 4))) in
        (false, r, um).

(** ** Running a handler *)

(** [usig]: the number that the handler is told ([exec_domain->signal_invmap]); [a], [n]: the entry
    [ka] of the handlers; [oldset]: the mask that the return restores. *)
Definition handle_signal (usig a n : Z) (info : siginfo) (oldset : sigset_t) (m : machine) : outcome machine :=
  let c := current (sys (kw m)) in
  match the_task c (kw m), the_action a n (kw m) with
  | Ok (t, _), Ok (ka, _) =>
      let '(fail, r, um) :=
        if truth (sa_flags ka .& SA_SIGINFO) then setup_rt_frame usig ka info oldset t m
        else setup_frame usig ka oldset t m in
      let '(valid, r) := valid_user_regs r in
      let act : W unit :=
        if negb fail && valid then
          _ ← when (truth (sa_flags ka .& SA_ONESHOT)) (set_action a n (ka <| sa_handler := SIG_DFL |>));
          when (negb (truth (sa_flags ka .& SA_NODEFER)))
            (_ ← set_stask c (fun t => t <| blocked := sigaddset (sigorsets (blocked t) (sa_mask ka)) n |>);
             recalc_sigpending c)
        else
          _ ← when (n =? SIGSEGV) (set_action a n (ka <| sa_handler := SIG_DFL |>));
          force_sig SIGSEGV c in
      match act (kw m) with
      | Ok (_, w) => Ok (Machine w um r (trap_no m) (error_code m) (address m))
      | Bug => Bug
      end
  | _, _ => Bug
  end.

(** ** Coming back *)
Definition restore_reg (sc : Z) (m : gmap Z Z) (re : list Z * bool) (i : Z) : list Z * bool :=
  let '(r, err) := re in
  let '(v, fault) := peek m (sc + sc_reg i) in
  (set_at r i v, err || fault).
Definition restore_sigcontext (r : list Z) (sc : Z) (m : gmap Z Z) : bool * list Z :=
  let '(r, err) := foldl (restore_reg sc m) (r, false) (seqZ 0 17) in
  let '(valid, r) := valid_user_regs r in
  (err || negb valid, r).

(** [step]: what [ptrace_cancel_bpt] returns. The frame of [n] bytes at the stack pointer, its
    context, and where its mask is. *)
Definition return_from (n sc mask0 mask1 : Z) (step : bool) (m : machine) : outcome (Z * machine) :=
  let c := current (sys (kw m)) in
  let badframe (m : machine) : outcome (Z * machine) :=
    match force_sig SIGSEGV c (kw m) with Ok (_, w) => Ok (0, m <| kw := w |>) | Bug => Bug end in
  let frame := get (regs m) ARM_sp in
  if truth (frame .& 7) then badframe m
  else if negb (access_ok frame n) then badframe m
  else
    let '(s0, e0) := peek (mem m) (frame + mask0) in
    let '(s1, e1) := peek (mem m) (frame + mask1) in
    if e0 || e1 then badframe m
    else
      let set := sigdelsetmask (Sigset s0 s1) unblockable in
      match (_ ← set_stask c (fun t => t <| blocked := set |>); recalc_sigpending c : W unit) (kw m) with
      | Bug => Bug
      | Ok (_, w) =>
          let '(err, r) := restore_sigcontext (regs m) (frame + sc) (mem m) in
          let m := m <| kw := w |> <| regs := r |> in
          if (err : bool) then badframe m
          else if step then
            match send_sig SIGTRAP c 1 (kw m) with Ok (_, w) => Ok (get r ARM_r0, m <| kw := w |>) | Bug => Bug end
          else Ok (get r ARM_r0, m)
      end.
Definition sys_sigreturn : bool -> machine -> outcome (Z * machine) := return_from sizeof_sigframe 0 8 sigframe_extramask.
Definition sys_rt_sigreturn : bool -> machine -> outcome (Z * machine) :=
  return_from sizeof_rt_sigframe rt_mcontext rt_sigmask (rt_sigmask + 4).

(** ** Stores *)
Definition shift (base : Z) (l : list (Z * Z)) : list (Z * Z) := (fun ov => (base + fst ov, snd ov)) <$> l.

(** The words at [base] with these offsets can be accessed. *)
Definition mapped (m : gmap Z Z) (base : Z) (os : list Z) : Prop := forall o, o ∈ os -> is_Some (m !! (base + o)).

Lemma pokes_ok base l : forall m e, mapped m base l.*1 -> exists m', pokes base l (m, e) = (m', e) /\
  (forall a, is_Some (m' !! a) <-> is_Some (m !! a)) /\ (forall a, (forall o, o ∈ l.*1 -> a <> base + o) -> m' !! a = m !! a) /\
  (NoDup l.*1 -> forall o v, (o, v) ∈ l -> m' !! (base + o) = Some v).
Proof.
  unfold pokes. induction l as [|[o v] l IH]; intros m e Hm; cbn.
  { exists m. split_and!; try done. by intros _ o v ?%elem_of_nil. }
  destruct (Hm o) as [x Hx]; [by left|]. rewrite Hx. destruct (IH (<[base + o := v]> m) e) as (m' & Hr & Hs & Hoth & Hin).
  { intros o' Ho'. apply lookup_insert_is_Some. destruct (decide (base + o = base + o')); [by left|right; split; [done|apply Hm; by right]]. }
  exists m'. split_and!; [done| | |].
  - intros a. rewrite Hs, lookup_insert_is_Some. destruct (decide (base + o = a)) as [<-|]; [rewrite Hx; split; eauto|tauto].
  - intros a Ha. rewrite Hoth by (intros o' Ho'; apply Ha; by right). apply lookup_insert_ne. intros <-. by apply (Ha o); [left|].
  - intros [Hno Hnd]%NoDup_cons o' v' [[= -> ->]|Hin']%elem_of_cons; [|by apply Hin].
    rewrite Hoth; [apply lookup_insert_eq|]. intros o' Ho' E. apply Hno. by replace o with o' by lia.
Qed.
Lemma pokes_shift base k l me : pokes (base + k) l me = pokes base (shift k l) me.
Proof. unfold pokes, shift. f_equal. rewrite <- list_fmap_compose. apply list_fmap_ext. intros i [o v] _. cbn. f_equal. lia. Qed.
Lemma pokes_app base l l' me : pokes base (l ++ l') me = pokes base l' (pokes base l me).
Proof. unfold pokes. by rewrite fmap_app, foldl_app. Qed.

(** ** The frame holds the registers and the mask *)
Record framed (m : gmap Z Z) (sc mask0 mask1 : Z) (r : list Z) (set : sigset_t) : Prop := {
  f_regs : forall i, 0 <= i < 17 -> m !! (sc + sc_reg i) = Some (get r i);
  f_mask0 : m !! mask0 = Some (sig0 set);
  f_mask1 : m !! mask1 = Some (sig1 set)
}.

Definition context_offsets : list Z := (sc_reg <$> seqZ 0 17) ++ [0; 4; 80; 8].
Lemma context_fst m mask : (sigcontext_words m mask).*1 = context_offsets.
Proof. done. Qed.
Lemma context_nodup : NoDup context_offsets.
Proof. decide_now. Qed.
Lemma context_reg m mask i : 0 <= i < 17 -> (sc_reg i, get (regs m) i) ∈ sigcontext_words m mask.
Proof. intros H. apply elem_of_app. left. apply list_elem_of_fmap. exists i. split; [done|]. apply elem_of_seqZ. lia. Qed.
Lemma context_mask m mask : (8, mask) ∈ sigcontext_words m mask.
Proof. apply elem_of_app. right. set_solver. Qed.

(** ** Restoring *)
Lemma restore_loop sc m R r k : (k <= 17)%nat -> (17 <= length R)%nat -> (17 <= length r)%nat ->
  (forall i, 0 <= i < 17 -> m !! (sc + sc_reg i) = Some (get R i)) ->
  foldl (restore_reg sc m) (r, false) (seqZ 0 (Z.of_nat k)) = (take k R ++ drop k r, false).
Proof.
  intros Hk HR Hr Hm. induction k as [|k IH]; [done|]. rewrite seqZ_S, foldl_app, IH by lia. cbn [foldl restore_reg]. unfold peek. rewrite Z.add_0_l, Hm by lia. f_equal.
  apply list_eq. intros i. unfold set_at. rewrite Nat2Z.id. assert (Hlen : length (take k R ++ drop k r) = length r) by (rewrite length_app, length_take, length_drop; lia).
  destruct (decide (i = k)) as [->|Hne].
  - rewrite list_lookup_insert_eq by lia. rewrite lookup_app_l, lookup_take_lt by (rewrite ?length_take; lia).
    symmetry. rewrite <- (Nat2Z.id k) at 1. apply lookup_get. unfold len. lia.
  - rewrite list_lookup_insert_ne by done. destruct (decide (i < k)%nat).
    + rewrite !lookup_app_l, !lookup_take_lt by (rewrite ?length_take; lia). done.
    + rewrite !lookup_app_r by (rewrite length_take; lia). rewrite !lookup_drop, !length_take. f_equal. lia.
Qed.
Lemma get_restored R r i : (17 <= length R)%nat -> 0 <= i < 17 -> get (take 17 R ++ drop 17 r) i = get R i.
Proof.
  intros HR Hi. unfold get. rewrite app_nth1 by (rewrite length_take; lia). change (take 17 R) with (take (Z.to_nat 17) R). apply get_take. lia.
Qed.
Lemma valid_same r r' : get r' ARM_cpsr = get r ARM_cpsr -> fst (valid_user_regs r) = true -> valid_user_regs r' = (true, r').
Proof. unfold valid_user_regs. intros ->. by destruct (_ && _). Qed.

Lemma restored_mask set : safe_set set -> sigdelsetmask (Sigset (sig0 set) (sig1 set)) unblockable = set.
Proof.
  intros (Hw & H1 & H2). replace (Sigset (sig0 set) (sig1 set)) with set by (by destruct set). apply set_ext; [by apply delmask_wf|done|].
  intros n Hn. rewrite delmask_member by done. destruct (Z.eqb_spec n SIGKILL) as [->|]; [by rewrite H1|]. destruct (Z.eqb_spec n SIGSTOP) as [->|]; [by rewrite H2|]. apply andb_true_r.
Qed.

(** The return from a frame that holds the registers [R] and the mask [set]. *)
Lemma return_ok n sc mask0 mask1 m R set : Good (kw m) -> get (regs m) ARM_sp .& 7 = 0 -> access_ok (get (regs m) ARM_sp) n = true ->
  framed (mem m) (get (regs m) ARM_sp + sc) (get (regs m) ARM_sp + mask0) (get (regs m) ARM_sp + mask1) R set ->
  length R = 18%nat -> length (regs m) = 18%nat -> fst (valid_user_regs R) = true -> safe_set set ->
  exists m', return_from n sc mask0 mask1 false m = Ok (get R ARM_r0, m') /\ take 17 (regs m') = take 17 R /\
    Good (kw m') /\ exists t, stasks (kw m') !! current (sys (kw m)) = Some t /\ blocked t = set.
Proof.
  intros Hg Hal Hacc [Hf0 Hf1 Hf2] HR Hr Hv Hs. unfold return_from. rewrite Hal, Hacc. change (truth 0) with false. cbn [negb]. unfold peek. rewrite Hf1, Hf2. cbn [orb].
  rewrite restored_mask by done. pose proof Hg as [qs I]. destruct (i_current _ _ I) as [t Hp]. destruct (inv_here _ _ _ _ I Hp) as (st & Hh & _).
  destruct (does_mask set _ _ _ _ _ _ Hh) as (s & Hrun & _). destruct (ok_mask set (kw m) Hg Hs) as (u & w' & Hrun' & Hg' & _).
  rewrite Hrun in Hrun'. injection Hrun' as <- <-. rewrite Hrun. unfold restore_sigcontext.
  rewrite (restore_loop _ _ R (regs m) 17) by (lia || done). rewrite (valid_same R) by (done || (apply get_restored; [lia|done])). cbn [orb negb].
  eexists. split_and!; [f_equal; f_equal; apply get_restored; [lia|done]| |done|].
  - cbn. rewrite take_app_le, take_take; [done|]. rewrite length_take. lia.
  - eexists. split; [apply lookup_insert_eq|done].
Qed.

(** ** Setting up *)
Lemma frame_aligned t ka r n : get_sigframe t ka r n .& 7 = 0.
Proof.
  unfold get_sigframe. apply Z.bits_inj'. intros i Hi. rewrite !Z.land_spec, Z.bits_0. destruct (Z.lt_ge_cases i 3) as [H|H].
  - rewrite not32_testbit by lia. assert (i = 0 \/ i = 1 \/ i = 2) as [-> |[-> | ->]] by lia; cbn; apply andb_false_intro1, andb_false_r.
  - rewrite (testbit_small 7 3) by (done || lia). apply andb_false_r.
Qed.

(** The registers with which the handler starts. *)
Record started (r r' : list Z) (ka : sigaction) (frame usig : Z) : Prop := {
  st_len : length r' = length r;
  st_r0 : get r' ARM_r0 = usig;
  st_sp : get r' ARM_sp = frame;
  st_pc : get r' ARM_pc = sa_handler ka;
  st_valid : fst (valid_user_regs r) = true -> valid_user_regs r' = (true, r')
}.

Lemma user_mode_valid c : (c .& 0xf =? 0) && (c .& (F_BIT .| I_BIT) =? 0) = true ->
  (((c .& not32 MODE_MASK) .| USR_MODE) .& 0xf =? 0) && (((c .& not32 MODE_MASK) .| USR_MODE) .& (F_BIT .| I_BIT) =? 0) = true.
Proof.
  intros [H1%Z.eqb_eq H2%Z.eqb_eq]%andb_prop. apply andb_true_intro. split; apply Z.eqb_eq; rewrite Z.land_lor_distr_l.
  - rewrite <- Z.land_assoc, (Z.land_comm (not32 MODE_MASK)), Z.land_assoc, H1. done.
  - rewrite <- Z.land_assoc, (Z.land_comm (not32 MODE_MASK)), Z.land_assoc, H2. done.
Qed.

Lemma setup_return_ok r ka rc frame usig m : length r = 18%nat -> is_Some (m !! rc) ->
  exists r' m', setup_return r ka rc frame usig m = (false, r', m') /\ started r r' ka frame usig /\
    (forall a, a <> rc -> m' !! a = m !! a) /\ forall a, is_Some (m' !! a) <-> is_Some (m !! a).
Proof.
  intros Hr [x Hx]. unfold setup_return.
  set (cpsr := if truth (sa_flags ka .& SA_THIRTYTWO) then _ else _).
  set (r' := fun lr => set_at (set_at (set_at (set_at (set_at r ARM_r0 usig) ARM_sp frame) ARM_lr lr) ARM_pc (sa_handler ka)) ARM_cpsr cpsr).
  assert (Hst : forall lr, started r (r' lr) ka frame usig).
  { intros lr. unfold r', ARM_r0, ARM_sp, ARM_lr, ARM_pc, ARM_cpsr. assert (Hl : len r = 18) by (unfold len; lia). constructor; unfold ARM_r0, ARM_sp, ARM_pc.
    - unfold set_at. by rewrite !length_insert.
    - do 4 rewrite get_set_ne by lia. by rewrite get_set_eq by lia.
    - do 3 rewrite get_set_ne by lia. by rewrite get_set_eq by (rewrite ?len_set; lia).
    - by rewrite get_set_ne, get_set_eq by (rewrite ?len_set; lia).
    - unfold valid_user_regs, ARM_cpsr. rewrite get_set_eq by (rewrite !len_set; lia). destruct (_ && _) eqn:E; [|done]. intros _.
      assert (E' : (cpsr .& 0xf =? 0) && (cpsr .& (F_BIT .| I_BIT) =? 0) = true) by (unfold cpsr; destruct (truth _); [by apply user_mode_valid|done]). by rewrite E'. }
  destruct (truth (sa_flags ka .& SA_RESTORER)).
  - eexists _, m. by split_and!; [done|apply Hst| |].
  - unfold poke. cbn [fst snd]. rewrite Hx. eexists _, _. split_and!; [done|apply Hst| |].
    + intros a Ha. by apply lookup_insert_ne.
    + intros a. rewrite lookup_insert_is_Some. destruct (decide (rc = a)) as [<-|]; [rewrite Hx; split; eauto|tauto].
Qed.

(** The words of the frame can be accessed. *)
Definition frame_mapped (m : gmap Z Z) (f n : Z) : Prop := forall k, 0 <= k < n / 4 -> is_Some (m !! (f + 4 * k)).
Lemma mapped_from m f n base os : frame_mapped m f n -> Forall (fun o => (base + o) mod 4 = 0 /\ 0 <= base + o < 4 * (n / 4)) os -> mapped m (f + base) os.
Proof.
  intros Hf Hos o Ho. rewrite Forall_forall in Hos. destruct (Hos o Ho) as [H1 H2]. replace (f + base + o) with (f + 4 * ((base + o) / 4)) by dm. apply Hf. dm.
Qed.
Lemma mapped_same m m' base os : (forall a, is_Some (m' !! a) <-> is_Some (m !! a)) -> mapped m base os -> mapped m' base os.
Proof. intros H Hm o Ho. apply H. by apply Hm. Qed.

Lemma setup_frame_ok usig ka set t m : let f := get_sigframe t ka (regs m) sizeof_sigframe in
  length (regs m) = 18%nat -> access_ok f sizeof_sigframe = true -> frame_mapped (mem m) f sizeof_sigframe ->
  exists r' um, setup_frame usig ka set t m = (false, r', um) /\ started (regs m) r' ka f usig /\
    framed um (f + 0) (f + 8) (f + sigframe_extramask) (regs m) set.
Proof.
  intros f Hr Hacc Hmap. unfold setup_frame. fold f. clearbody f. rewrite Hacc. cbn [negb]. unfold setup_sigcontext.
  assert (Hm1 : mapped (mem m) f (sigcontext_words m (sig0 set)).*1).
  { rewrite context_fst. replace f with (f + 0) by lia. eapply mapped_from; [exact Hmap|]. decide_now. }
  destruct (pokes_ok f (sigcontext_words m (sig0 set)) (mem m) false Hm1) as (um1 & -> & Hs1 & Ho1 & Hi1). specialize (Hi1 context_nodup).
  assert (Hx : is_Some (um1 !! (f + sigframe_extramask))) by (apply Hs1, (Hmap 21); by vm_compute).
  unfold poke. cbn [fst snd]. destruct Hx as [x Hx]. rewrite Hx. set (um2 := <[f + sigframe_extramask := sig1 set]> um1).
  destruct (setup_return_ok (regs m) ka (f + sigframe_retcode) f usig um2 Hr) as (r' & um3 & Hrun & Hst & Ho3 & _).
  { unfold um2. rewrite lookup_insert_ne by (unfold sigframe_retcode, sigframe_extramask; lia). apply Hs1, (Hmap 22). by vm_compute. }
  exists r', um3. split_and!; [done|done|]. unfold sigframe_retcode, sigframe_extramask, sizeof_sigcontext, sc_reg in *. constructor.
  - intros i Hi. rewrite Ho3 by (unfold sc_reg; lia). unfold um2. rewrite lookup_insert_ne by (unfold sc_reg; lia). rewrite Z.add_0_r. apply Hi1. by apply context_reg.
  - rewrite Ho3 by lia. unfold um2. rewrite lookup_insert_ne by lia. apply Hi1. apply context_mask.
  - rewrite Ho3 by lia. apply lookup_insert_eq.
Qed.

Lemma info_offsets i : Forall (fun o => (rt_info + o) mod 4 = 0 /\ 0 <= rt_info + o < 4 * (sizeof_rt_sigframe / 4) /\ 0 <= o < 128) (info_words i).*1.
Proof.
  unfold info_words. destruct (si_code i <? 0).
  - rewrite <- list_fmap_compose. apply Forall_fmap, Forall_seqZ. intros k Hk. unfold compose. cbn [fst]. unfold rt_info, sizeof_rt_sigframe, rt_retcode, rt_sigmask, rt_mcontext, rt_uc, sizeof_sigcontext. dm.
  - destruct (_ =? 3); [decide_now|]. destruct (_ =? 4); decide_now.
Qed.

Lemma started_more r r' ka f usig v1 v2 : length r = 18%nat -> started r r' ka f usig -> started r (set_at (set_at r' ARM_r1 v1) ARM_r2 v2) ka f usig.
Proof.
  intros Hr [H1 H2 H3 H4 H5]. assert (Hg : forall i, 0 <= i -> i <> 1 -> i <> 2 -> get (set_at (set_at r' ARM_r1 v1) ARM_r2 v2) i = get r' i).
  { intros i Hi Hn1 Hn2. unfold ARM_r1, ARM_r2. by do 2 rewrite get_set_ne by lia. }
  constructor; [unfold set_at; by rewrite !length_insert|by rewrite Hg|by rewrite Hg|by rewrite Hg|]. intros Hv. apply (valid_same r'); [by apply Hg|]. by rewrite H5.
Qed.

Lemma setup_rt_frame_ok usig ka info set t m : let f := get_sigframe t ka (regs m) sizeof_rt_sigframe in
  length (regs m) = 18%nat -> access_ok f sizeof_rt_sigframe = true -> frame_mapped (mem m) f sizeof_rt_sigframe ->
  exists r' um, setup_rt_frame usig ka info set t m = (false, r', um) /\ started (regs m) r' ka f usig /\
    framed um (f + rt_mcontext) (f + rt_sigmask) (f + (rt_sigmask + 4)) (regs m) set.
Proof.
  intros f Hr Hacc Hmap. unfold setup_rt_frame. fold f. clearbody f. rewrite Hacc. cbn [negb]. unfold setup_sigcontext.
  assert (H1 : mapped (mem m) f ([(0, f + rt_info); (4, f + rt_uc)].*1)) by (replace f with (f + 0) at 1 by lia; eapply mapped_from; [exact Hmap|]; repeat constructor; by vm_compute).
  destruct (pokes_ok f _ (mem m) false H1) as (u1 & -> & Hs1 & _).
  assert (H2 : mapped u1 (f + rt_info) (info_words info).*1).
  { eapply mapped_same; [exact Hs1|]. eapply mapped_from; [exact Hmap|]. eapply Forall_impl; [apply info_offsets|]. naive_solver. }
  destruct (pokes_ok _ _ u1 false H2) as (u2 & -> & Hs2 & _).
  assert (H3 : mapped u2 (f + rt_uc) ((fun i => (4 * i, 0)) <$> seqZ 0 5).*1).
  { eapply mapped_same; [exact Hs2|]. eapply mapped_same; [exact Hs1|]. eapply mapped_from; [exact Hmap|]. decide_now. }
  destruct (pokes_ok _ _ u2 false H3) as (u3 & -> & Hs3 & _).
  assert (H4 : mapped u3 (f + rt_mcontext) (sigcontext_words m (sig0 set)).*1).
  { eapply mapped_same; [exact Hs3|]. eapply mapped_same; [exact Hs2|]. eapply mapped_same; [exact Hs1|]. rewrite context_fst. eapply mapped_from; [exact Hmap|]. decide_now. }
  destruct (pokes_ok _ _ u3 false H4) as (u4 & -> & Hs4 & Ho4 & Hi4). specialize (Hi4 context_nodup).
  assert (H5 : mapped u4 (f + rt_sigmask) ([(0, sig0 set); (4, sig1 set)].*1)).
  { eapply mapped_same; [exact Hs4|]. eapply mapped_same; [exact Hs3|]. eapply mapped_same; [exact Hs2|]. eapply mapped_same; [exact Hs1|].
    eapply mapped_from; [exact Hmap|]. repeat constructor; by vm_compute. }
  destruct (pokes_ok _ _ u4 false H5) as (u5 & -> & Hs5 & Ho5 & Hi5).
  assert (Hnd : NoDup ([(0, sig0 set); (4, sig1 set)].*1)) by (repeat constructor; set_solver). specialize (Hi5 Hnd).
  destruct (setup_return_ok (regs m) ka (f + rt_retcode) f usig u5 Hr) as (r' & u6 & -> & Hst & Ho6 & _).
  { apply Hs5, Hs4, Hs3, Hs2, Hs1, (Hmap 62). by vm_compute. }
  eexists _, u6. split_and!; [done|by apply started_more|].
  unfold rt_retcode, rt_sigmask, rt_mcontext, rt_uc, sizeof_sigcontext, sc_reg in *. constructor.
  - intros i Hi. rewrite Ho6 by (unfold sc_reg; lia). rewrite Ho5; [apply Hi4; by apply context_reg|]. intros o Ho. cbn in Ho. unfold sc_reg. set_unfold. lia.
  - rewrite Ho6 by lia. rewrite <- (Z.add_0_r (f + _)). apply Hi5. by left.
  - rewrite Ho6 by lia. rewrite Z.add_assoc. apply Hi5. right. by left.
Qed.

(** ** The old system call for handlers *)

(** [struct old_sigaction]: handler, mask, flags and restorer. *)
Definition sys_sigaction (n : Z) (act : from (Z * Z * Z * Z)) (oact : to) : W (Z * option (Z * Z * Z * Z)) :=
  match act with
  | From_bad => mret (- EFAULT, None)
  | _ =>
    r ← do_sigaction n (match act with From (handler, mask, flags, restorer) => Some (Sigaction handler flags restorer (siginitset mask)) | _ => None end);
    match r with
    | (0, Some old) =>
        if negb (to_null oact) then copy_out oact (sa_handler old, sig0 (sa_mask old), sa_flags old, sa_restorer old) else mret (0, None)
    | (ret, _) => mret (ret, None)
    end
  end.
Lemma ok_old_sigaction n act oact w : Good w -> (forall t, stasks w !! current (sys w) = Some t -> sig t <> 0) ->
  wf_from (fun a => is_word (snd (fst (fst a)))) act -> ok (sys_sigaction n act oact) w.
Proof.
  intros Hg Hs Ha. unfold sys_sigaction. destruct act as [| |[[[h k] fl] re]]; [|by apply ok_ret|].
  all: apply ok_bind; [apply ok_sigaction; try done; intros x [= <-]; by split|].
  all: intros [[|r|r] [old|]] w' Hg' _; try (by apply ok_ret); destruct (negb _); [by apply ok_copy_out|by apply ok_ret].
Qed.

(** ** The handler's mask *)
Definition handler_mask (t : sigtask) (ka : sigaction) (n : Z) : sigset_t :=
  if truth (sa_flags ka .& SA_NODEFER) then blocked t else sigaddset (sigorsets (blocked t) (sa_mask ka)) n.
Lemma add_safe b n : safe_set b -> is_signal n -> n <> SIGKILL -> n <> SIGSTOP -> safe_set (sigaddset b n).
Proof.
  intros (Hw & H1 & H2) Hn H3 H4. split_and!; [by apply sigadd_wf| |]; rewrite member_add by (done || by split); apply orb_false_iff; split; try done; apply Z.eqb_neq; congruence.
Qed.

(** The kernel's part of [handle_signal] when the frame is set up. *)
Definition enter_handler (a n : Z) (ka : sigaction) (c : Z) : W unit :=
  _ ← when (truth (sa_flags ka .& SA_ONESHOT)) (set_action a n (ka <| sa_handler := SIG_DFL |>));
  when (negb (truth (sa_flags ka .& SA_NODEFER)))
    (_ ← set_stask c (fun t => t <| blocked := sigaddset (sigorsets (blocked t) (sa_mask ka)) n |>); recalc_sigpending c).

Lemma enter_ok w n t ka : Good w -> stasks w !! current (sys w) = Some t -> sig t <> 0 -> is_signal n -> n <> SIGKILL -> n <> SIGSTOP ->
  action_of w (sig t) n = Some ka ->
  exists w' t', enter_handler (sig t) n ka (current (sys w)) w = Ok (tt, w') /\ Good w' /\ current (sys w') = current (sys w) /\
    stasks w' !! current (sys w) = Some t' /\ blocked t' = handler_mask t ka n.
Proof.
  intros [qs I] Hp Hs Hn Hk1 Hk2 Hact. destruct (inv_action w qs _ t n I Hp Hs Hn) as (k & h & Hh & Hk & Hact'). rewrite Hact in Hact'. injection Hact' as <-.
  destruct (i_hands _ _ I _ _ Hh) as (_ & Hok & _). pose proof (action_mask _ _ _ Hok Hk) as Hmask.
  set (w1 := if truth (sa_flags ka .& SA_ONESHOT) then with_hands w (<[sig t := h <| action := <[Z.to_nat (n - 1) := ka <| sa_handler := SIG_DFL |>]> (action h) |>]> (hands w)) else w).
  assert (I1 : Inv w1 qs).
  { unfold w1. destruct (truth _); [|done]. eapply hands_Inv; [done|done|done|]. apply action_set_ok; [done|done|exact Hmask|done]. }
  assert (Hp1 : stasks w1 !! current (sys w) = Some t) by (unfold w1; by destruct (truth _)). assert (Hc1 : current (sys w1) = current (sys w)) by (unfold w1; by destruct (truth _)).
  unfold enter_handler. rewrite (bind_run _ _ w tt w1) by (unfold w1, when; destruct (truth _); [by apply set_action_run|done]).
  destruct (inv_here w1 qs _ t I1 Hp1) as (st & Hh1 & [Hb Hsee]). unfold when, handler_mask. destruct (truth (sa_flags ka .& SA_NODEFER)); cbn [negb].
  - exists w1, t. split_and!; [done|by exists qs|done|done|done].
  - set (f := fun t : sigtask => t <| blocked := sigaddset (sigorsets (blocked t) (sa_mask ka)) n |>).
    assert (Hd : does (_ ← set_stask (current (sys w)) f; recalc_sigpending (current (sys w))) w1 qs (current (sys w)) tt (seen (f t) st) (qs (current (sys w))) st).
    { eapply does_bind; [by apply does_set|]. intros w2 H2 _ _. by apply does_recalc. }
    destruct Hd as (s & Hrun & Hm & Hg). rewrite Hrun. eexists _, (seen (f t) st). split_and!; [done| |done|apply lookup_insert_eq|done].
    eexists. eapply put_Inv; [exact I1|exact Hp1|exact Hm|exact Hg|done|]. apply seen_ok. apply add_safe; [by apply or_safe|done..].
Qed.

(** Setting up a frame and returning from it; [sigreturn_restores] below says it in words. *)
Lemma handler_round usig n info oldset m t ka :
  Good (kw m) -> stasks (kw m) !! current (sys (kw m)) = Some t -> sig t <> 0 -> is_signal n -> n <> SIGKILL -> n <> SIGSTOP ->
  action_of (kw m) (sig t) n = Some ka -> length (regs m) = 18%nat -> fst (valid_user_regs (regs m)) = true -> safe_set oldset ->
  let rt := truth (sa_flags ka .& SA_SIGINFO) in
  let size := if rt then sizeof_rt_sigframe else sizeof_sigframe in
  let f := get_sigframe t ka (regs m) size in
  access_ok f size = true -> frame_mapped (mem m) f size ->
  exists m1 t1, handle_signal usig (sig t) n info oldset m = Ok m1 /\ started (regs m) (regs m1) ka f usig /\ f .& 7 = 0 /\ Good (kw m1) /\
    stasks (kw m1) !! current (sys (kw m)) = Some t1 /\ blocked t1 = handler_mask t ka n /\
    forall m2, Good (kw m2) -> length (regs m2) = 18%nat -> get (regs m2) ARM_sp = f ->
      (forall k, 0 <= k < size / 4 -> mem m2 !! (f + 4 * k) = mem m1 !! (f + 4 * k)) ->
      exists m3 t3, (if rt then sys_rt_sigreturn false m2 else sys_sigreturn false m2) = Ok (get (regs m) ARM_r0, m3) /\
        take 17 (regs m3) = take 17 (regs m) /\ Good (kw m3) /\
        stasks (kw m3) !! current (sys (kw m2)) = Some t3 /\ blocked t3 = oldset.
Proof.
  intros Hg Hp Hs Hn Hk1 Hk2 Hact Hr Hv Hsafe rt size f Hacc Hmap.
  destruct (enter_ok (kw m) n t ka Hg Hp Hs Hn Hk1 Hk2 Hact) as (w1 & t1 & Henter & Hg1 & _ & Hp1 & Hb1). unfold enter_handler in Henter.
  assert (Hset : exists r' um, (if rt then setup_rt_frame usig ka info oldset t m else setup_frame usig ka oldset t m) = (false, r', um) /\ started (regs m) r' ka f usig /\
    if rt then framed um (f + rt_mcontext) (f + rt_sigmask) (f + (rt_sigmask + 4)) (regs m) oldset else framed um (f + 0) (f + 8) (f + sigframe_extramask) (regs m) oldset).
  { unfold f, size in *. destruct rt; [by apply setup_rt_frame_ok|by apply setup_frame_ok]. }
  destruct Hset as (r' & um & Hset & Hst & Hfr).
  exists (Machine w1 um r' (trap_no m) (error_code m) (address m)), t1. split_and!; try done; [|apply frame_aligned|].
  { unfold handle_signal. rewrite (task_run _ _ _ Hp), (action_run _ _ _ _ Hact). fold rt. rewrite Hset, (st_valid _ _ _ _ _ Hst Hv). cbn [negb andb]. by rewrite Henter. }
  intros m2 Hg2 Hr2 Hsp Hsame. cbn [mem] in Hsame.
  assert (Hat : forall o, o mod 4 = 0 -> 0 <= o < 4 * (size / 4) -> mem m2 !! (f + o) = um !! (f + o)).
  { intros o Ho1 Ho2. replace o with (4 * (o / 4)) by dm. apply Hsame. dm. }
  pose proof (frame_aligned t ka (regs m) size) as Hal. fold f in Hal.
  destruct rt; [unfold sys_rt_sigreturn|unfold sys_sigreturn]; destruct Hfr as [F0 F1 F2].
  - destruct (return_ok sizeof_rt_sigframe rt_mcontext rt_sigmask (rt_sigmask + 4) m2 (regs m) oldset) as (m3 & H1 & H2 & H3 & t3 & H4 & H5); rewrite ?Hsp; try done.
    + constructor; [intros i Hi; rewrite <- F0 by done; rewrite <- Z.add_assoc; apply Hat; unfold sc_reg, rt_mcontext, rt_uc, size, sizeof_rt_sigframe, rt_retcode, rt_sigmask, rt_mcontext, rt_uc, sizeof_sigcontext; dm|
        rewrite <- F1; by apply Hat|rewrite <- F2; by apply Hat].
    + by exists m3, t3.
  - destruct (return_ok sizeof_sigframe 0 8 sigframe_extramask m2 (regs m) oldset) as (m3 & H1 & H2 & H3 & t3 & H4 & H5); rewrite ?Hsp; try done.
    + constructor; [intros i Hi; rewrite <- F0 by done; rewrite <- !Z.add_assoc; apply Hat; unfold sc_reg, size, sizeof_sigframe, sizeof_sigcontext; dm|
        rewrite <- F1; by apply Hat|rewrite <- F2; by apply Hat].
    + by exists m3, t3.
Qed.

(** C14. A handler returns to where it was called. Let a task be about to run a handler for a signal
    and the words of the new frame be accessible. Then [handle_signal] starts the handler with the
    number of the signal in r0, at its address, on an aligned stack, with the signals blocked that
    were blocked, those of the handler's mask and the signal itself (none is added with SA_NODEFER).
    Whatever the handler does, as long as it leaves its frame alone, [sys_sigreturn] (or
    [sys_rt_sigreturn], for a handler with SA_SIGINFO) restores r0 to r15 and CPSR and the mask
    exactly as they were, and returns the old r0. *)
Theorem sigreturn_restores usig n info oldset m t ka :
  Good (kw m) -> stasks (kw m) !! current (sys (kw m)) = Some t -> sig t <> 0 -> is_signal n -> n <> SIGKILL -> n <> SIGSTOP ->
  action_of (kw m) (sig t) n = Some ka -> length (regs m) = 18%nat -> fst (valid_user_regs (regs m)) = true -> safe_set oldset ->
  let rt := truth (sa_flags ka .& SA_SIGINFO) in
  let size := if rt then sizeof_rt_sigframe else sizeof_sigframe in
  let f := get_sigframe t ka (regs m) size in
  access_ok f size = true -> frame_mapped (mem m) f size ->
  exists m1 t1, handle_signal usig (sig t) n info oldset m = Ok m1 /\ started (regs m) (regs m1) ka f usig /\ f .& 7 = 0 /\ Good (kw m1) /\
    stasks (kw m1) !! current (sys (kw m)) = Some t1 /\ blocked t1 = handler_mask t ka n /\
    forall m2, Good (kw m2) -> length (regs m2) = 18%nat -> get (regs m2) ARM_sp = f ->
      (forall k, 0 <= k < size / 4 -> mem m2 !! (f + 4 * k) = mem m1 !! (f + 4 * k)) ->
      exists m3 t3, (if rt then sys_rt_sigreturn false m2 else sys_sigreturn false m2) = Ok (get (regs m) ARM_r0, m3) /\
        take 17 (regs m3) = take 17 (regs m) /\ Good (kw m3) /\
        stasks (kw m3) !! current (sys (kw m2)) = Some t3 /\ blocked t3 = oldset.
Proof. apply handler_round. Qed.

(** ** [do_signal] *)
Definition SIGQUIT : Z := 3.
Definition SIGILL : Z := 4.
Definition SIGABRT : Z := 6.
Definition SIGBUS : Z := 7.
Definition SIGFPE : Z := 8.
Definition SIGXCPU : Z := 24.
Definition SIGXFSZ : Z := 25.
Definition SIGSYS : Z := 31.
Definition SA_NOCLDSTOP : Z := 0x00000001.
Definition SA_RESTART : Z := 0x10000000.
Definition ERESTARTSYS : Z := 512.
Definition ERESTARTNOINTR : Z := 513.
Definition ERESTARTNOHAND : Z := 514.
Definition ARM_ORIG_r0 : Z := 17.

(** How it ends: the result of the function, or the code with which the task exits. *)
Inductive ending := Returns (ret : Z) | Exits (code : Z).
(** What the body of the loop does: the next round, or the end. *)
Inductive turn := Again (info : siginfo) (single : bool) (m : machine) | Stop (e : ending) (m : machine).

Definition in_world {A} (x : W A) (m : machine) : outcome (A * machine) :=
  match x (kw m) with Ok (a, w) => Ok (a, m <| kw := w |>) | Bug => Bug end.

(** [regs->ARM_r0 = regs->ARM_ORIG_r0; regs->ARM_pc -= 4;] *)
Definition restart (r : list Z) : list Z :=
  let r := set_at r ARM_r0 (get r ARM_ORIG_r0) in set_at r ARM_pc (u32 (get r ARM_pc - 4)).
(** The [switch] on the result of the interrupted system call, before a handler runs. *)
Definition restart_for (ka : sigaction) (r : list Z) : list Z :=
  let r0 := get r ARM_r0 in
  if r0 =? u32 (- ERESTARTNOHAND) then set_at r ARM_r0 (u32 (- EINTR))
  else if r0 =? u32 (- ERESTARTSYS) then
    if negb (truth (sa_flags ka .& SA_RESTART)) then set_at r ARM_r0 (u32 (- EINTR)) else restart r
  else if r0 =? u32 (- ERESTARTNOINTR) then restart r
  else r.
(** The same when no handler runs. *)
Definition restart_none (r : list Z) : list Z :=
  let r0 := get r ARM_r0 in
  if (r0 =? u32 (- ERESTARTNOHAND)) || (r0 =? u32 (- ERESTARTSYS)) || (r0 =? u32 (- ERESTARTNOINTR)) then restart r else r.

Section Deliver.
Context (call_notifier : Z -> Z -> bool).
(** [signal_invmap] of the task; breakpoints of a debugger; [schedule]; whether a group is orphaned
    and whether a core was dumped (kernel/exit.c, fs/exec.c); the loop over [sys_wait4]. *)
Context (invmap : Z -> Z) (ptrace_cancel_bpt : machine -> bool * machine) (ptrace_set_bpt : machine -> machine).
Context (schedule : W unit) (is_orphaned_pgrp : Z -> machine -> bool) (do_coredump : Z -> machine -> bool) (reap_children : W unit).

Definition finish (single : bool) (e : ending) (m : machine) : turn := Stop e (if single then ptrace_set_bpt m else m).

(** The part for a traced task: the debugger may change or cancel the signal. [stack]: what the local
    variable of [do_notify_parent] holds. *)
Definition trace_stop (stack : siginfo) (signr : Z) (info : siginfo) (single : bool) (m : machine)
    : outcome (option (Z * siginfo) * bool * machine) :=
  let c := current (sys (kw m)) in
  match in_world (_ ← set_stask c (fun t => t <| exit_code := signr |> <| tstate := TASK_STOPPED |>);
                  _ ← notify_parent stack c SIGCHLD; schedule : W unit) m with
  | Bug => Bug
  | Ok (_, m) =>
      let '(s, m) := ptrace_cancel_bpt m in
      let single := single || s in
      match in_world (the_task c) m with
      | Bug => Bug
      | Ok (t, m) =>
          let signr := exit_code t in
          if signr =? 0 then Ok (None, single, m)
          else
            match in_world (set_stask c (fun t => t <| exit_code := 0 |>)) m with
            | Bug => Bug
            | Ok (_, m) =>
                if signr =? SIGSTOP then Ok (None, single, m)
                else
                  let parent := p_pptr (task_at (sys (kw m)) c) in
                  let info := if negb (signr =? si_signo info) then fill_info signr SI_USER parent (uid (task_at (sys (kw m)) parent)) info else info in
                  if sigismember (blocked t) signr then
                    match in_world (send_sig_info signr (Info info) c) m with
                    | Bug => Bug
                    | Ok (_, m) => Ok (None, single, m)
                    end
                  else Ok (Some (signr, info), single, m)
            end
      end
  end.

(** The default action. *)
Definition default_action (stack : siginfo) (signr : Z) (info : siginfo) (single : bool) (m : machine) : outcome turn :=
  let c := current (sys (kw m)) in
  let group_stop (m : machine) : outcome turn :=
    match in_world (
      _ ← set_stask c (fun t => t <| tstate := TASK_STOPPED |> <| exit_code := signr |>);
      me ← creds c;
      parent ← the_task (p_pptr me);
      _ ← (if sig parent =? 0 then mret tt
           else k ← the_action (sig parent) SIGCHLD;
                when (negb (truth (sa_flags k .& SA_NOCLDSTOP))) (notify_parent stack c SIGCHLD));
      schedule) m with
    | Bug => Bug
    | Ok (_, m) => let '(s, m) := ptrace_cancel_bpt m in Ok (Again info (single || s) m)
    end in
  let fatal (code : Z) (m : machine) : outcome turn :=
    match in_world (
      l ← on_store (pending c);
      _ ← on_store (set_pending c (l <| signal := sigaddset (signal l) signr |>));
      _ ← recalc_sigpending c;
      set_stask c (fun t => t <| signaled := true |>)) m with
    | Bug => Bug
    | Ok (_, m) => Ok (Stop (Exits code) m)
    end in
  if c =? 1 then Ok (Again info single m)
  else if existsb (Z.eqb signr) [SIGCONT; SIGCHLD; SIGWINCH; SIGURG] then Ok (Again info single m)
  else if existsb (Z.eqb signr) [SIGTSTP; SIGTTIN; SIGTTOU] then
    if is_orphaned_pgrp (pgrp (task_at (sys (kw m)) c)) m then Ok (Again info single m) else group_stop m
  else if signr =? SIGSTOP then group_stop m
  else if existsb (Z.eqb signr) [SIGQUIT; SIGILL; SIGTRAP; SIGABRT; SIGFPE; SIGSEGV; SIGBUS; SIGSYS; SIGXCPU; SIGXFSZ] then
    fatal (if do_coredump signr m then signr .| 0x80 else signr) m
  else fatal signr m.

(** The body of the loop. [oldset]: a saved mask, or [None] for the current one. *)
Definition signal_turn (stack : siginfo) (oldset : option sigset_t) (syscall : bool) (info : siginfo) (single : bool) (m : machine) : outcome turn :=
  let c := current (sys (kw m)) in
  match in_world (t ← the_task c; dequeue_signal call_notifier (blocked t) info) m with
  | Bug => Bug
  | Ok ((signr, info), m) =>
      if signr =? 0 then
        Ok (finish single (Returns 0) (if syscall then m <| regs := restart_none (regs m) |> else m))
      else
        match in_world (the_task c) m with
        | Bug => Bug
        | Ok (t, m) =>
            match (if ptraced t && negb (signr =? SIGKILL) then trace_stop stack signr info single m else Ok (Some (signr, info), single, m)) with
            | Bug => Bug
            | Ok (None, single, m) => Ok (Again info single m)
            | Ok (Some (signr, info), single, m) =>
                match in_world (t ← the_task c; k ← the_action (sig t) signr; mret (t, k)) m with
                | Bug => Bug
                | Ok ((t, ka), m) =>
                    if sa_handler ka =? SIG_IGN then
                      if negb (signr =? SIGCHLD) then Ok (Again info single m)
                      else match in_world reap_children m with Ok (_, m) => Ok (Again info single m) | Bug => Bug end
                    else if sa_handler ka =? SIG_DFL then default_action stack signr info single m
                    else
                      let m := if syscall then m <| regs := restart_for ka (regs m) |> else m in
                      let usig := if signr <? 32 then invmap signr else signr in
                      match handle_signal usig (sig t) signr info (match oldset with Some s => s | None => blocked t end) m with
                      | Bug => Bug
                      | Ok m => Ok (finish single (Returns 1) m)
                      end
                end
            end
        end
  end.

Fixpoint signal_loop (fuel : nat) (stack : siginfo) (oldset : option sigset_t) (syscall : bool) (info : siginfo) (single : bool) (m : machine)
    : option (outcome (ending * machine)) :=
  match fuel with
  | O => None
  | S fuel =>
      match signal_turn stack oldset syscall info single m with
      | Bug => Some Bug
      | Ok (Stop e m) => Some (Ok (e, m))
      | Ok (Again info single m) => signal_loop fuel stack oldset syscall info single m
      end
  end.
(** [None]: the loop did not end within [fuel] rounds. *)
Definition do_signal (fuel : nat) (stack : siginfo) (oldset : option sigset_t) (syscall : bool) (info : siginfo) (m : machine)
    : option (outcome (ending * machine)) :=
  if negb (get (regs m) ARM_cpsr .& 0xf =? 0) then Some (Ok (Returns 0, m))
  else let '(single, m) := ptrace_cancel_bpt m in signal_loop fuel stack oldset syscall info single m.
End Deliver.

(** *** Fatal signals *)
Lemma good_add l set n : good l set -> is_signal n -> good l (sigaddset set n).
Proof.
  intros Hg Hn. eapply good_sub; [done|done|apply sigadd_wf, Hg|]. intros e He Hm. pose proof (g_info _ _ Hg) as Hi. rewrite Forall_forall in Hi.
  destruct (Hi e He) as [Hse _]. rewrite member_add, Hm by done. apply orb_true_r.
Qed.
Lemma does_mark n w qs p t l set : here w qs p t l set -> is_signal n ->
  does (l ← on_store (pending p); _ ← on_store (set_pending p (l <| signal := sigaddset (signal l) n |>)); _ ← recalc_sigpending p;
        set_stask p (fun t => t <| signaled := true |>)) w qs p tt ((seen t (sigaddset set n)) <| signaled := true |>) l (sigaddset set n).
Proof.
  intros H Hn. eapply does_read; [unfold on_store; rewrite (pending_ok _ _ _ (e_pending _ _ _ _ _ _ H)); by destruct w|].
  eapply does_bind.
  { pose proof (set_signal_moved (sq w) qs p (pd_of l set) (sigaddset set n) (e_queues _ _ _ _ _ _ H) (e_pending _ _ _ _ _ _ H)) as Hmv.
    rewrite (e_queue _ _ _ _ _ _ H) in Hmv. eapply does_store; [exact H|done|exact Hmv|]. apply good_add; [apply H|done]. }
  intros w1 H1 _ _. eapply does_bind; [by apply does_recalc|]. intros w2 H2 _ _. by apply (does_set (fun t => t <| signaled := true |>)).
Qed.

(** The state of a task that a signal kills. *)
Definition mark (c n : Z) : W unit :=
  l ← on_store (pending c); _ ← on_store (set_pending c (l <| signal := sigaddset (signal l) n |>)); _ ← recalc_sigpending c;
  set_stask c (fun t => t <| signaled := true |>).
Lemma mark_run n w qs c t : Inv w qs -> stasks w !! c = Some t -> is_signal n ->
  exists w' t', mark c n w = Ok (tt, w') /\ stasks w' !! c = Some t' /\ signaled t' = true /\ Good w'.
Proof.
  intros I Hp Hn. destruct (inv_here w _ c _ I Hp) as (st & Hh & [Hb _]). pose proof (does_mark n _ _ _ _ _ _ Hh Hn) as (s2 & Hrun & Hm2 & Hg2).
  eexists _, _. split_and!; [exact Hrun|apply lookup_insert_eq|done|]. eexists. eapply put_Inv; [exact I|exact Hp|exact Hm2|exact Hg2|done|].
  pose proof (seen_ok t (sigaddset st n) Hb) as [A B]. by constructor.
Qed.

(** A round that takes the signal [n]: what is left is its action. *)
Section Turn.
Context (cn : Z -> Z -> bool) (invmap : Z -> Z) (cancel : machine -> bool * machine) (set_bpt : machine -> machine).
Context (sch : W unit) (orph : Z -> machine -> bool) (core : Z -> machine -> bool) (reap : W unit).

(** The number that a handler is told. *)
Definition told (n : Z) : Z := if n <? 32 then invmap n else n.
Definition act_on (stack : siginfo) (oldset : sigset_t) (syscall : bool) (n : Z) (k : sigaction) (a : Z) (info : siginfo) (single : bool) (m : machine) : outcome turn :=
  if sa_handler k =? SIG_IGN then
    if negb (n =? SIGCHLD) then Ok (Again info single m)
    else match in_world reap m with Ok (_, m) => Ok (Again info single m) | Bug => Bug end
  else if sa_handler k =? SIG_DFL then default_action cancel sch orph core stack n info single m
  else
    match handle_signal (told n) a n info oldset (if syscall then m <| regs := restart_for k (regs m) |> else m) with
    | Bug => Bug
    | Ok m => Ok (finish set_bpt single (Returns 1) m)
    end.
Lemma turn_takes stack oldset syscall info single m t pd n k qs :
  Inv (kw m) qs -> stasks (kw m) !! current (sys (kw m)) = Some t -> pendings (sq (kw m)) !! current (sys (kw m)) = Some pd ->
  notifier t = 0 -> (ptraced t = false \/ n = SIGKILL) -> is_signal n -> is_next (signal pd) (blocked t) n -> action_of (kw m) (sig t) n = Some k ->
  exists w1 qs1 set info1, Inv w1 qs1 /\ current (sys w1) = current (sys (kw m)) /\ stasks w1 !! current (sys (kw m)) = Some (seen t set) /\
    action_of w1 (sig t) n = Some k /\ dequeue_signal cn (blocked t) info (kw m) = Ok ((n, info1), w1) /\
    signal_turn cn invmap cancel set_bpt sch orph core reap stack oldset syscall info single m =
      act_on stack (match oldset with Some s => s | None => blocked t end) syscall n k (sig t) info1 single (m <| kw := w1 |>).
Proof.
  intros I Hp Hpd Hnot Htr Hn Hnext Hk. unfold signal_turn. unfold in_world at 1. set (c := current (sys (kw m))) in *.
  rewrite (bind_run _ _ (kw m) t (kw m)) by (by apply task_run).
  destruct (dequeue_run cn (blocked t) info (kw m) qs t pd I Hp Hpd) as (r & inf' & t1 & l1 & set1 & s & Ht & Hr & Hm & I1). fold c in Ht, Hr, Hm, I1.
  pose proof (i_good _ _ I c pd Hpd) as Hg. rewrite <- (next_unique _ _ _ _ Hnext (next_signal_is_next _ _ (g_set _ _ Hg))) in Ht.
  unfold taken, held in Ht. assert (Hn0 : (n =? 0) = false) by (apply Z.eqb_neq; destruct Hn; lia). rewrite Hn0, Hnot in Ht. cbn [truth Z.eqb negb andb] in Ht.
  destruct (collected n (qs c) (signal pd) info) as [[i2 l2] set2]. injection Ht as <- <- <- <- <-. rewrite Hr, Hn0.
  set (w1 := put (kw m) c (seen t set2) s) in *. assert (Hp1 : stasks w1 !! c = Some (seen t set2)) by apply lookup_insert_eq.
  exists w1, (upd qs c l2), set2, i2. split_and!; [done|done|done|done|done|].
  unfold in_world at 1. change (kw (m <| kw := w1 |>)) with w1. rewrite (task_run _ _ _ Hp1).
  assert (Htr' : ptraced (seen t set2) && negb (n =? SIGKILL) = false) by (destruct Htr as [Htr| ->]; [change (ptraced (seen t set2)) with (ptraced t); by rewrite Htr|apply andb_false_r]).
  rewrite Htr'. unfold in_world at 1. change (kw (m <| kw := w1 |> <| kw := w1 |>)) with w1. rewrite (bind_run _ _ w1 (seen t set2) w1) by (by apply task_run).
  change (sig (seen t set2)) with (sig t). rewrite (bind_run _ _ w1 k w1) by (by apply action_run). cbv [mret W_ret]. cbv beta iota.
  by change (m <| kw := w1 |> <| kw := w1 |> <| kw := w1 |>) with (m <| kw := w1 |>).
Qed.
End Turn.

(** The signals whose default action does not end the task. *)
Definition harmless (n : Z) : bool :=
  existsb (Z.eqb n) [SIGCONT; SIGCHLD; SIGWINCH; SIGURG] || existsb (Z.eqb n) [SIGTSTP; SIGTTIN; SIGTTOU] || (n =? SIGSTOP).
Definition dumps (n : Z) : bool :=
  existsb (Z.eqb n) [SIGQUIT; SIGILL; SIGTRAP; SIGABRT; SIGFPE; SIGSEGV; SIGBUS; SIGSYS; SIGXCPU; SIGXFSZ].

Section Fatal.
Context (cn : Z -> Z -> bool) (invmap : Z -> Z) (cancel : machine -> bool * machine) (set_bpt : machine -> machine).
Context (sch : W unit) (orph : Z -> machine -> bool) (core : Z -> machine -> bool) (reap : W unit).
(** Breakpoints are in the user's memory: the kernel's state is not changed. *)
Context (Hcancel : forall m, kw (snd (cancel m)) = kw m).

(** C15. A fatal signal ends the task. When the lowest pending signal that a task does not block has
    its default action, and that action is neither to ignore nor to stop, then the next return to
    user mode ends the task, unless it is init, or traced and the signal is not SIGKILL, or has a
    notifier, which may refuse the signal: [do_signal] makes one round, takes the signal off the
    queue, marks the task as killed by a signal and exits with the number of the signal as the code,
    with the flag 0x80 exactly if the signal is one that dumps core and [do_coredump], called with the
    signal off the queue, says that one was written. [cancel], which takes the breakpoints of a debugger out of
    the user's memory, is any function that does not change the kernel's state. *)
Theorem do_signal_fatal fuel stack oldset syscall info m t pd n k qs :
  Inv (kw m) qs -> stasks (kw m) !! current (sys (kw m)) = Some t -> pendings (sq (kw m)) !! current (sys (kw m)) = Some pd ->
  notifier t = 0 -> current (sys (kw m)) <> 1 -> sig t <> 0 -> get (regs m) ARM_cpsr .& 0xf = 0 ->
  is_signal n -> is_next (signal pd) (blocked t) n -> action_of (kw m) (sig t) n = Some k -> sa_handler k = SIG_DFL ->
  harmless n = false -> (ptraced t = false \/ n = SIGKILL) ->
  exists w1 info1 m' t', dequeue_signal cn (blocked t) info (kw m) = Ok ((n, info1), w1) /\
    do_signal cn invmap cancel set_bpt sch orph core reap (S fuel) stack oldset syscall info m
      = Some (Ok (Exits (if dumps n && core n ((snd (cancel m)) <| kw := w1 |>) then n .| 0x80 else n), m')) /\
    stasks (kw m') !! current (sys (kw m)) = Some t' /\ signaled t' = true /\ Good (kw m').
Proof using Hcancel.
  intros I Hp Hpd Hnot Hc Hs Hmode Hn Hnext Hk Hdfl Hharm Htr. unfold do_signal. apply Z.eqb_eq in Hmode as ->. cbn [negb].
  destruct (cancel m) as [single m0] eqn:Ec. pose proof (Hcancel m) as Hkw. rewrite Ec in Hkw. cbn in Hkw. rewrite <- Hkw in *. cbn [signal_loop snd].
  destruct (turn_takes cn invmap cancel set_bpt sch orph core reap stack oldset syscall info single m0 t pd n k qs I Hp Hpd Hnot Htr Hn Hnext Hk)
    as (w1 & qs1 & set & info1 & I1 & Hc1 & Hp1 & _ & Hdeq & ->).
  set (c := current (sys (kw m0))) in *. set (m1 := m0 <| kw := w1 |>). assert (Hk1 : kw m1 = w1) by done.
  destruct (mark_run n w1 qs1 c _ I1 Hp1 Hn) as (w' & t' & Hrun & H1 & H2 & H3).
  exists w1, info1, (m1 <| kw := w' |>), t'. split_and!; [done| |done|done|done].
  unfold act_on. rewrite Hdfl. cbn [Z.eqb SIG_DFL SIG_IGN]. unfold default_action. rewrite Hk1, Hc1. apply Z.eqb_neq in Hc as ->. unfold harmless in Hharm.
  apply orb_false_iff in Hharm as [Hh1 Hh3]. apply orb_false_iff in Hh1 as [Hh1 Hh2]. rewrite Hh1, Hh2, Hh3. fold (dumps n). fold (mark c n).
  unfold in_world. rewrite Hk1, Hrun. by destruct (dumps n).
Qed.
End Fatal.

(** ** A small machine *)

(** Task 2 of [demo] with a handler for SIGUSR1, in user mode, with a stack. *)
Definition usr1 : sigaction := Sigaction 0x8000 0 0 sigemptyset.
Definition demo_handlers : signal_struct := demo_hands <| action := <[9%nat := usr1]> (action demo_hands) |>.
Definition demo_regs : list Z := seqZ 0 13 ++ [0x10000; 0x9000; 0x8500; USR_MODE; 0].
Definition demo_mem : gmap Z Z := list_to_map ((fun k => (65440 + 4 * k, 0)) <$> seqZ 0 23).
Definition demo_machine : machine := Machine (with_hands demo {[100 := demo_handlers]}) demo_mem demo_regs 0 0 0.

Lemma demo_machine_Inv : Inv (kw demo_machine) demo_queues.
Proof.
  replace (kw demo_machine) with (with_hands demo (<[100 := demo_handlers]> (hands demo))) by (cbn; by rewrite insert_singleton_eq).
  eapply (hands_Inv _ _ 100 demo_hands); [apply demo_Inv|done|done|]. apply (action_set_ok demo_hands 10 usr1); [|by split|by repeat split|by intros [|]].
  by destruct (i_hands _ _ demo_Inv 100 demo_hands eq_refl) as (_ & H & _).
Qed.
Lemma demo_mapped : frame_mapped demo_mem (get_sigframe (demo_task 2 true) usr1 demo_regs sizeof_sigframe) sizeof_sigframe.
Proof.
  intros k Hk. assert (H : all_below 23 (fun k => bool_decide (is_Some (demo_mem !! (get_sigframe (demo_task 2 true) usr1 demo_regs sizeof_sigframe + 4 * k)))) = true) by (by vm_compute).
  apply (all_below_spec _ _ k) in H; [by apply bool_decide_eq_true in H|done].
Qed.

Lemma sigreturn_restores_witness : exists m1 t1, handle_signal 10 100 10 blank sigemptyset demo_machine = Ok m1 /\
  started demo_regs (regs m1) usr1 65440 10 /\ 65440 .& 7 = 0 /\ Good (kw m1) /\ stasks (kw m1) !! 2 = Some t1 /\ blocked t1 = handler_mask (demo_task 2 true) usr1 10 /\
  forall m2, Good (kw m2) -> length (regs m2) = 18%nat -> get (regs m2) ARM_sp = 65440 ->
    (forall k, 0 <= k < sizeof_sigframe / 4 -> mem m2 !! (65440 + 4 * k) = mem m1 !! (65440 + 4 * k)) ->
    exists m3 t3, sys_sigreturn false m2 = Ok (0, m3) /\ take 17 (regs m3) = take 17 demo_regs /\ Good (kw m3) /\
      stasks (kw m3) !! current (sys (kw m2)) = Some t3 /\ blocked t3 = sigemptyset.
Proof.
  apply (sigreturn_restores 10 10 blank sigemptyset demo_machine (demo_task 2 true) usr1);
    [exists demo_queues; apply demo_machine_Inv|reflexivity|done|by split|done|done|reflexivity|reflexivity|reflexivity|by repeat split|reflexivity|apply demo_mapped].
Defined.

(** The task with SIGQUIT pending too; the core is written when the user's stack is where it should be. *)
Definition quit_machine : machine :=
  demo_machine <| kw := match mark 2 SIGQUIT (kw demo_machine) with Ok (_, w) => w | Bug => kw demo_machine end |>.
Definition dump_stack (n : Z) (m : machine) : bool := get (regs m) ARM_sp =? 0x10000.
Definition quit_set : sigset_t := sigaddset (sigaddset sigemptyset 40) SIGQUIT.
Lemma do_signal_fatal_witness : exists m' t', do_signal (fun _ _ => true) (fun x => x) (fun m => (false, m)) (fun m => m) (mret tt) (fun _ _ => false) dump_stack (mret tt)
    1 blank None false blank quit_machine = Some (Ok (Exits (SIGQUIT .| 0x80), m')) /\
  stasks (kw m') !! 2 = Some t' /\ signaled t' = true /\ Good (kw m').
Proof.
  destruct (mark_run SIGQUIT _ _ 2 (demo_task 2 true) demo_machine_Inv eq_refl) as (w & t & Hr & _ & _ & [qs I]); [by split|].
  destruct (do_signal_fatal (fun _ _ => true) (fun x => x) (fun m => (false, m)) (fun m => m) (mret tt) (fun _ _ => false) dump_stack (mret tt) (fun m => eq_refl)
    0 blank None false blank quit_machine ((demo_task 2 true) <| signaled := true |>) (Sigpending 500 (Next 500) quit_set) SIGQUIT (Sigaction SIG_DFL 0 0 sigemptyset) qs)
    as (w1 & info1 & m' & t' & _ & Hdo & Hrest);
    [unfold quit_machine; rewrite Hr; exact I|vm_compute; reflexivity|vm_compute; reflexivity|reflexivity|done|done|reflexivity|by split| |vm_compute; reflexivity|reflexivity|reflexivity|by left|].
  - apply (next_signal_is_next quit_set sigemptyset). by apply sigadd_wf, sigadd_wf, empty_wf.
  - exists m', t'. split; [exact Hdo|exact Hrest].
Defined.

(** ** What the code does against its documentation *)

(** include/asm-arm/signal.h says that SA_NODEFER "prevents the current signal from being masked in the
    handler"; the code then masks nothing, not even the signals of [sa_mask]. *)
Theorem nodefer_drops_sa_mask w n t ka : Good w -> stasks w !! current (sys w) = Some t -> sig t <> 0 -> is_signal n -> n <> SIGKILL -> n <> SIGSTOP ->
  action_of w (sig t) n = Some ka -> truth (sa_flags ka .& SA_NODEFER) = true ->
  exists w' t', enter_handler (sig t) n ka (current (sys w)) w = Ok (tt, w') /\ stasks w' !! current (sys w) = Some t' /\ blocked t' = blocked t.
Proof.
  intros Hg Hp Hs Hn H1 H2 Hk Hf. destruct (enter_ok w n t ka Hg Hp Hs Hn H1 H2 Hk) as (w' & t' & Hr & _ & _ & Hp' & Hb). exists w', t'.
  unfold handler_mask in Hb. by rewrite Hf in Hb.
Qed.
