(* ===== verification/SigSuspend.v ===== *)
(** Waiting for a signal: [sys_sigsuspend] and [sys_rt_sigsuspend] of arch/arm/kernel/signal.c.

    Both calls replace the mask of the task, sleep and deliver signals until a handler is to run; the
    handler's frame keeps the old mask. [schedule] and the other functions that [do_signal] calls are
    parameters, as in SigFrame. *)
From S2P Require Import Prelude Task SigQueue Signal SigFrame.

(** [_BLOCKABLE] *)
Definition BLOCKABLE : Z := not32 unblockable.

Section Suspend.
Context (call_notifier : Z -> Z -> bool) (invmap : Z -> Z) (ptrace_cancel_bpt : machine -> bool * machine) (ptrace_set_bpt : machine -> machine).
Context (schedule : W unit) (is_orphaned_pgrp : Z -> machine -> bool) (do_coredump : Z -> machine -> bool) (reap_children : W unit).

(** [current->state = TASK_INTERRUPTIBLE; schedule();] *)
Definition sleep (c : Z) : W unit := _ ← set_stask c (fun t => t <| tstate := TASK_INTERRUPTIBLE |>); schedule.

(** [while (1)]: [None] when it did not end within [fuel] rounds, or [do_signal] not within [n]. The
    task may also end in [do_signal]. *)
Fixpoint suspend_loop (fuel n : nat) (stack info : siginfo) (saveset : sigset_t) (m : machine) : option (outcome (ending * machine)) :=
  match fuel with
  | O => None
  | S fuel =>
      match in_world (sleep (current (sys (kw m)))) m with
      | Bug => Some Bug
      | Ok (_, m) =>
          match do_signal call_notifier invmap ptrace_cancel_bpt ptrace_set_bpt schedule is_orphaned_pgrp do_coredump reap_children
                  n stack (Some saveset) false info m with
          | Some (Ok (Returns r, m)) =>
              if truth r then Some (Ok (Returns (get (regs m) ARM_r0), m)) else suspend_loop fuel n stack info saveset m
          | r => r
          end
      end
  end.

(** The common part: swap in the mask and wait. *)
Definition suspend (fuel n : nat) (stack info : siginfo) (newset : sigset_t) (m : machine) : option (outcome (ending * machine)) :=
  let c := current (sys (kw m)) in
  match in_world (t ← the_task c;
                  _ ← set_stask c (fun t => t <| blocked := newset |>);
                  _ ← recalc_sigpending c;
                  mret (blocked t)) m with
  | Bug => Some Bug
  | Ok (saveset, m) => suspend_loop fuel n stack info saveset (m <| regs := set_at (regs m) ARM_r0 (u32 (- EINTR)) |>)
  end.

Definition sys_sigsuspend (fuel n : nat) (stack info : siginfo) (mask : Z) : machine -> option (outcome (ending * machine)) :=
  suspend fuel n stack info (siginitset (mask .& BLOCKABLE)).
Definition sys_rt_sigsuspend (fuel n : nat) (stack info : siginfo) (unewset : from sigset_t) (sigsetsize : Z) (m : machine)
    : option (outcome (ending * machine)) :=
  if negb (sigsetsize =? sizeof_sigset) then Some (Ok (Returns (- EINVAL), m))
  else
    match unewset with
    | From newset => suspend fuel n stack info (sigdelsetmask newset (not32 BLOCKABLE)) m
    | _ => Some (Ok (Returns (- EFAULT), m))
    end.
End Suspend.

(** ** Proofs *)
Lemma not_blockable : not32 BLOCKABLE = unblockable.
Proof. done. Qed.

(** The mask is swapped in, and the flag of the task computed for it. *)
Lemma swap_run w t b : Good w -> stasks w !! current (sys w) = Some t -> safe_set b ->
  exists w1 t1, (_ ← set_stask (current (sys w)) (fun t => t <| blocked := b |>); recalc_sigpending (current (sys w))) w = Ok (tt, w1) /\
    Good w1 /\ same w w1 /\ stasks w1 !! current (sys w) = Some t1 /\ blocked t1 = b.
Proof.
  intros [qs I] Hp Hb. destruct (inv_here _ _ _ _ I Hp) as (set & Hh & Hok). destruct (does_mask b _ _ _ _ _ _ Hh) as (s & Hr & Hm & Hg).
  eexists _, _. split_and!; [exact Hr| |by eapply same_put|apply lookup_insert_eq|done].
  eexists. eapply put_Inv; [done|done|exact Hm|done|done|by apply seen_ok].
Qed.
Lemma ok_state x w : Good w -> ok (set_stask (current (sys w)) (fun t => t <| tstate := x |>)) w.
Proof.
  intros [qs I]. destruct (i_current _ _ I) as [t Hp]. destruct (inv_here _ _ _ _ I Hp) as (set & Hh & Hok).
  eapply ok_does; [done|done|by apply does_set|done|]. by destruct Hok.
Qed.

(** A signal that the kernel forces on the task: it is unblocked, not ignored, and pending. *)
Lemma force_segv w qs c t : Inv w qs -> stasks w !! c = Some t -> sig t <> 0 ->
  exists w' t' pd', force_sig SIGSEGV c w = Ok (tt, w') /\ Good w' /\ stasks w' !! c = Some t' /\ blocked t' = sigdelset (blocked t) SIGSEGV /\
    pendings (sq w') !! c = Some pd' /\ sigismember (signal pd') SIGSEGV = true.
Proof.
  intros I Hp Hs. assert (Hn : is_signal SIGSEGV) by (by split).
  destruct (inv_action w qs c t SIGSEGV I Hp Hs Hn) as (k & h & Hh & Hk & Hact). destruct (i_hands _ _ I _ _ Hh) as (_ & Hok & _).
  set (h1 := h <| action := <[Z.to_nat (SIGSEGV - 1) := k <| sa_handler := SIG_DFL |>]> (action h) |>).
  set (w1 := if sa_handler k =? SIG_IGN then with_hands w (<[sig t := h1]> (hands w)) else w).
  assert (I1 : Inv w1 qs).
  { unfold w1. destruct (_ =? _); [|done]. eapply hands_Inv; [done|done|done|]. apply action_set_ok; [done|done|exact (action_mask _ _ _ Hok Hk)|done]. }
  assert (Hp1 : stasks w1 !! c = Some t) by (unfold w1; by destruct (_ =? _)).
  assert (Hact1 : exists k1, action_of w1 (sig t) SIGSEGV = Some k1 /\ (sa_handler k1 =? SIG_IGN) = false).
  { unfold w1. destruct (sa_handler k =? SIG_IGN) eqn:Ei; [|by exists k]. exists (k <| sa_handler := SIG_DFL |>). split; [|done].
    unfold action_of. cbn [hands with_hands]. rewrite lookup_insert_eq. cbn. apply list_lookup_insert_eq. by eapply lookup_lt_Some. }
  destruct Hact1 as (k1 & Hact1 & Hign). destruct (inv_here w1 qs c t I1 Hp1) as (set & Hhere & [Hb _]).
  set (t2 := seen (t <| blocked := sigdelset (blocked t) SIGSEGV |>) set).
  assert (Hd : does (_ ← set_stask c (fun t => t <| blocked := sigdelset (blocked t) SIGSEGV |>); recalc_sigpending c) w1 qs c tt t2 (qs c) set).
  { eapply does_bind; [by apply (does_set (fun t => t <| blocked := sigdelset (blocked t) SIGSEGV |>))|]. intros w2 H2 _ _. by apply does_recalc. }
  destruct Hd as (s & Hrun & Hm & Hg). set (w2 := put w1 c t2 s) in *.
  assert (I2 : Inv w2 (upd qs c (qs c))) by (eapply put_Inv; [exact I1|exact Hp1|exact Hm|exact Hg|done|]; apply seen_ok; by apply del_safe).
  assert (Hp2 : stasks w2 !! c = Some t2) by apply lookup_insert_eq.
  destruct (send_post w2 _ SIGSEGV Info_kernel c t2 I2 Hp2 Hn) as (k2 & q & r & t' & l' & st & st' & s' & Hk2 & _ & _ & Hpost & Hsend & Hm' & I' & Hb'); [done|done|done|].
  change (action_of w2 (sig t2) SIGSEGV) with (action_of w1 (sig t) SIGSEGV) in Hk2. rewrite Hact1 in Hk2. injection Hk2 as <-.
  eexists _, t', _. split_and!; [|by eexists|apply lookup_insert_eq|exact Hb'|by eapply moved_pending|].
  - unfold force_sig, force_sig_info. unfold mbind at 1, W_bind at 1. rewrite (bind_run _ _ w t w) by (by apply task_run). rewrite (proj2 (Z.eqb_neq _ _) Hs).
    rewrite (bind_run _ _ w k w) by (by apply action_run).
    rewrite (bind_run _ _ w tt w1) by (unfold w1, when; destruct (_ =? _); [by apply set_action_run|done]).
    rewrite (bind_assoc_run _ _ _ _ _ _ Hrun). fold w2. by rewrite Hsend.
  - cbn [signal pd_of]. unfold posted in Hpost.
    assert (Hni : ignores SIGSEGV k1 (stop_task SIGSEGV t2) = false).
    { unfold ignores. apply andb_false_iff. right. unfold handler_type. change SIG_IGN with 1 in Hign. rewrite Hign. by destruct (1 <? sa_handler k1). }
    rewrite Hni in Hpost. change (SIGSEGV <? SIGRTMIN) with true in Hpost. cbn [andb] in Hpost.
    destruct (sigismember (stop_set SIGSEGV st) SIGSEGV) eqn:Em; [by injection Hpost as <- <- <- <-|].
    unfold delivered, sent in Hpost. change (must_queue SIGSEGV Info_kernel) with false in Hpost.
    destruct q as [[b i]|]; injection Hpost as _ _ _ <-; by apply member_add_same.
Qed.

(** [handle_signal] when the stack of the task is outside of its address space. *)
Lemma bad_stack usig n info oldset m t ka : Good (kw m) -> stasks (kw m) !! current (sys (kw m)) = Some t -> sig t <> 0 -> is_signal n ->
  action_of (kw m) (sig t) n = Some ka -> fst (valid_user_regs (regs m)) = true ->
  let size := if truth (sa_flags ka .& SA_SIGINFO) then sizeof_rt_sigframe else sizeof_sigframe in
  access_ok (get_sigframe t ka (regs m) size) size = false ->
  exists m1 t1 pd1, handle_signal usig (sig t) n info oldset m = Ok m1 /\ regs m1 = regs m /\ mem m1 = mem m /\ Good (kw m1) /\
    stasks (kw m1) !! current (sys (kw m)) = Some t1 /\ blocked t1 = sigdelset (blocked t) SIGSEGV /\
    pendings (sq (kw m1)) !! current (sys (kw m)) = Some pd1 /\ sigismember (signal pd1) SIGSEGV = true.
Proof.
  intros [qs I] Hp Hs Hn Hact Hv size Hacc.
  destruct (inv_action _ qs _ t n I Hp Hs Hn) as (k & h & Hh & Hk & Hact'). rewrite Hact in Hact'. injection Hact' as <-. destruct (i_hands _ _ I _ _ Hh) as (_ & Hok & _).
  set (w1 := if n =? SIGSEGV then with_hands (kw m) (<[sig t := h <| action := <[Z.to_nat (n - 1) := ka <| sa_handler := SIG_DFL |>]> (action h) |>]> (hands (kw m))) else kw m).
  assert (I1 : Inv w1 qs).
  { unfold w1. destruct (_ =? _); [|done]. eapply hands_Inv; [done|done|done|]. apply action_set_ok; [done|done|exact (action_mask _ _ _ Hok Hk)|done]. }
  assert (Hp1 : stasks w1 !! current (sys (kw m)) = Some t) by (unfold w1; by destruct (_ =? _)).
  destruct (force_segv w1 qs _ t I1 Hp1 Hs) as (w' & t' & pd' & Hrun & Hg & Hp' & Hb & Hpd & Hm).
  exists (Machine w' (mem m) (regs m) (trap_no m) (error_code m) (address m)), t', pd'. split_and!; try done.
  unfold handle_signal. rewrite (task_run _ _ _ Hp), (action_run _ _ _ _ Hact).
  assert (Hset : (if truth (sa_flags ka .& SA_SIGINFO) then setup_rt_frame usig ka info oldset t m else setup_frame usig ka oldset t m) = (true, regs m, mem m)).
  { unfold size in Hacc. destruct (truth _); [unfold setup_rt_frame|unfold setup_frame]; by rewrite Hacc. }
  rewrite Hset. assert (Hvr : valid_user_regs (regs m) = (true, regs m)) by (unfold valid_user_regs in *; by destruct (_ && _)).
  rewrite Hvr. cbn [negb andb]. rewrite (bind_run _ _ (kw m) tt w1) by (unfold w1, when; destruct (_ =? _); [by apply set_action_run|done]). by rewrite Hrun.
Qed.

Section Waits.
Context (cn : Z -> Z -> bool) (invmap : Z -> Z) (cancel : machine -> bool * machine) (set_bpt : machine -> machine).
Context (sch : W unit) (orph : Z -> machine -> bool) (core : Z -> machine -> bool) (reap : W unit).
(** The task has no breakpoints. *)
Context (Hcancel : forall m, cancel m = (false, m)).

(** [do_signal] runs the handler of the next signal. *)
Lemma do_signal_handler fuel stack old info m t pd n k qs :
  Inv (kw m) qs -> stasks (kw m) !! current (sys (kw m)) = Some t -> pendings (sq (kw m)) !! current (sys (kw m)) = Some pd ->
  notifier t = 0 -> ptraced t = false -> get (regs m) ARM_cpsr .& 0xf = 0 ->
  is_signal n -> is_next (signal pd) (blocked t) n -> action_of (kw m) (sig t) n = Some k -> sa_handler k <> SIG_DFL -> sa_handler k <> SIG_IGN ->
  exists w1 set info1, Good w1 /\ current (sys w1) = current (sys (kw m)) /\ stasks w1 !! current (sys (kw m)) = Some (seen t set) /\
    action_of w1 (sig t) n = Some k /\
    do_signal cn invmap cancel set_bpt sch orph core reap (S fuel) stack (Some old) false info m =
      match handle_signal (told invmap n) (sig t) n info1 old (m <| kw := w1 |>) with Ok m1 => Some (Ok (Returns 1, m1)) | Bug => Some Bug end.
Proof using Hcancel.
  intros I Hp Hpd Hnot Htr Hmode Hn Hnext Hk Hdfl Hign. unfold do_signal. apply Z.eqb_eq in Hmode as ->. cbn [negb]. rewrite Hcancel. cbn [signal_loop].
  destruct (turn_takes cn invmap cancel set_bpt sch orph core reap stack (Some old) false info false m t pd n k qs) as (w1 & qs1 & set & info1 & I1 & Hc1 & Hp1 & Hk1 & _ & ->); try done; [by left|].
  exists w1, set, info1. split_and!; [by exists qs1|done|done|done|]. unfold act_on. apply Z.eqb_neq in Hdfl, Hign. rewrite Hdfl, Hign. by destruct (handle_signal _ _ _ _ _ _).
Qed.

(** What happens until the task runs again: the mask, the sleep. *)
Definition until_woken (c : Z) (newset : sigset_t) : W unit :=
  _ ← set_stask c (fun t => t <| blocked := newset |>); _ ← recalc_sigpending c; sleep sch c.
Definition interrupted (m : machine) : machine := m <| regs := set_at (regs m) ARM_r0 (u32 (- EINTR)) |>.

Lemma suspend_run fuel n stack info newset m t w2 : Good (kw m) -> stasks (kw m) !! current (sys (kw m)) = Some t -> safe_set newset ->
  until_woken (current (sys (kw m))) newset (kw m) = Ok (tt, w2) ->
  suspend cn invmap cancel set_bpt sch orph core reap (S fuel) n stack info newset m =
    match do_signal cn invmap cancel set_bpt sch orph core reap n stack (Some (blocked t)) false info ((interrupted m) <| kw := w2 |>) with
    | Some (Ok (Returns r, m)) =>
        if truth r then Some (Ok (Returns (get (regs m) ARM_r0), m)) else suspend_loop cn invmap cancel set_bpt sch orph core reap fuel n stack info (blocked t) m
    | r => r
    end.
Proof.
  intros Hg Hp Hb Hw. destruct (swap_run (kw m) t newset Hg Hp Hb) as (w1 & t1 & Hr & _ & Hsame & _). unfold until_woken in Hw.
  unfold suspend. unfold in_world at 1. rewrite (bind_run _ _ (kw m) t (kw m)) by (by apply task_run). rewrite (bind_assoc_run _ _ _ _ _ _ Hr). cbv [mret W_ret]. cbv beta iota.
  rewrite (bind_assoc_run _ _ _ _ _ _ Hr) in Hw. cbn [suspend_loop]. unfold in_world at 1.
  change (kw (m <| kw := w1 |> <| regs := set_at (regs (m <| kw := w1 |>)) ARM_r0 (u32 (- EINTR)) |>)) with w1.
  rewrite (s_current _ _ Hsame), Hw. done.
Qed.

(** C16. Waiting for a signal with another mask. [sys_rt_sigsuspend] refuses a wrong size with -EINVAL
    and an address that faults with -EFAULT, changing nothing; [sys_sigsuspend] is the same call with
    a mask of the first 32 signals. Otherwise it waits with the mask of the user, SIGKILL and SIGSTOP
    left out. What follows is for a task that is not traced, has no notifier and no breakpoints, has
    handlers, and called from user mode with interrupts on. Let it be woken, whatever ran meanwhile, and
    let the next signal that the mask lets through have a handler. If the words of the frame for the
    handler can be written, the call ends with the handler started on the stack, its signal
    blocked on top of the mask waited with (unless it has SA_NODEFER); and when the handler returns with the frame as it is, sigreturn
    restores all registers, with -EINTR as the result of the call, and the mask that the task had
    before it. If the frame is outside of the user's address space, the call ends with -EINTR, registers and memory as
    they were, and SIGSEGV pending; the mask stays the one waited with, less SIGSEGV. A frame
    inside the address space with some words that are not mapped is not covered. *)
Theorem sigsuspend_exact fuel k stack info new size m w2 t t2 pd n ka :
  let c := current (sys (kw m)) in
  (size <> sizeof_sigset -> sys_rt_sigsuspend cn invmap cancel set_bpt sch orph core reap fuel k stack info (From new) size m = Some (Ok (Returns (- EINVAL), m))) /\
  sys_rt_sigsuspend cn invmap cancel set_bpt sch orph core reap fuel k stack info From_bad sizeof_sigset m = Some (Ok (Returns (- EFAULT), m)) /\
  (forall mask, sys_sigsuspend cn invmap cancel set_bpt sch orph core reap fuel k stack info mask m =
     sys_rt_sigsuspend cn invmap cancel set_bpt sch orph core reap fuel k stack info (From (siginitset mask)) sizeof_sigset m) /\
  (Good (kw m) -> stasks (kw m) !! c = Some t -> wf_set new -> length (regs m) = 18%nat -> fst (valid_user_regs (regs m)) = true ->
   until_woken c (sigdelsetmask new unblockable) (kw m) = Ok (tt, w2) -> Good w2 -> current (sys w2) = c ->
   stasks w2 !! c = Some t2 -> pendings (sq w2) !! c = Some pd -> notifier t2 = 0 -> ptraced t2 = false -> sig t2 <> 0 ->
   is_signal n -> is_next (signal pd) (blocked t2) n -> action_of w2 (sig t2) n = Some ka -> sa_handler ka <> SIG_DFL -> sa_handler ka <> SIG_IGN ->
   let rt := truth (sa_flags ka .& SA_SIGINFO) in
   let size := if rt then sizeof_rt_sigframe else sizeof_sigframe in
   let f := get_sigframe t2 ka (regs m) size in
   (access_ok f size = false ->
    exists m1 t1 pd1, sys_rt_sigsuspend cn invmap cancel set_bpt sch orph core reap (S fuel) (S k) stack info (From new) sizeof_sigset m
        = Some (Ok (Returns (u32 (- EINTR)), m1)) /\
      regs m1 = regs (interrupted m) /\ mem m1 = mem m /\ Good (kw m1) /\
      stasks (kw m1) !! c = Some t1 /\ blocked t1 = sigdelset (blocked t2) SIGSEGV /\
      pendings (sq (kw m1)) !! c = Some pd1 /\ sigismember (signal pd1) SIGSEGV = true) /\
   (access_ok f size = true -> frame_mapped (mem m) f size ->
   exists m1 t1, sys_rt_sigsuspend cn invmap cancel set_bpt sch orph core reap (S fuel) (S k) stack info (From new) sizeof_sigset m
       = Some (Ok (Returns (get (regs m1) ARM_r0), m1)) /\
     started (regs (interrupted m)) (regs m1) ka f (told invmap n) /\
     stasks (kw m1) !! c = Some t1 /\ blocked t1 = handler_mask t2 ka n /\
     forall m2, Good (kw m2) -> length (regs m2) = 18%nat -> get (regs m2) ARM_sp = f ->
       (forall i, 0 <= i < size / 4 -> mem m2 !! (f + 4 * i) = mem m1 !! (f + 4 * i)) ->
       exists m3 t3, (if rt then sys_rt_sigreturn false m2 else sys_sigreturn false m2) = Ok (u32 (- EINTR), m3) /\
         take 17 (regs m3) = take 17 (regs (interrupted m)) /\ stasks (kw m3) !! current (sys (kw m2)) = Some t3 /\ blocked t3 = blocked t)).
Proof using Hcancel.
  intros c. split_and!; [intros Hsz; unfold sys_rt_sigsuspend; apply Z.eqb_neq in Hsz; by rewrite Hsz|done|done|].
  intros Hg Hp Hnew Hr Hv Hw [qs2 I2] Hc2 Hp2 Hpd Hnot Htr Hs Hn Hnext Hk Hdfl Hign rt sz f.
  destruct (good_current _ Hg) as (t' & Hp' & Hsafe). fold c in Hp'. rewrite Hp in Hp'. injection Hp' as <-.
  assert (Hnk : n <> SIGKILL /\ n <> SIGSTOP).
  { destruct (inv_action w2 qs2 c t2 n I2 Hp2 Hs Hn) as (k' & h & Hh & Hk' & Hact). rewrite Hk in Hact. injection Hact as <-.
    destruct (i_hands _ _ I2 _ _ Hh) as (_ & Hok & _). split; intros ->; apply Hdfl; [apply (h_default _ Hok SIGKILL _ ltac:(by left) Hk')|apply (h_default _ Hok SIGSTOP _ ltac:(by right) Hk')]. }
  set (mi := interrupted m). assert (Hri : length (regs mi) = 18%nat) by (unfold mi, interrupted, set_at; cbn; by rewrite length_insert).
  assert (Hget : forall i, 0 < i -> get (regs mi) i = get (regs m) i) by (intros i Hi; apply get_set_ne; unfold ARM_r0; lia).
  assert (Hvi : fst (valid_user_regs (regs mi)) = true) by (rewrite (valid_same (regs m)); [done|by apply Hget|done]).
  rewrite <- Hc2 in Hp2, Hpd.
  destruct (do_signal_handler k stack (blocked t) info (mi <| kw := w2 |>) t2 pd n ka qs2) as (w1 & set & info1 & Hg1 & Hc1 & Hp1 & Hk1 & Hdo); try done.
  { unfold valid_user_regs in Hvi. destruct (_ =? 0) eqn:E; [by apply Z.eqb_eq in E|done]. }
  change (kw (mi <| kw := w2 |>)) with w2 in Hc1, Hp1. rewrite Hc2 in Hc1, Hp1.
  change (mi <| kw := w2 |> <| kw := w1 |>) with (mi <| kw := w1 |>) in Hdo.
  assert (Ef : f = get_sigframe (seen t2 set) ka (regs mi) sz) by (unfold f, get_sigframe; by rewrite (Hget ARM_sp)).
  assert (Hr0 : get (regs mi) ARM_r0 = u32 (- EINTR)) by (apply get_set_eq; unfold len, ARM_r0; rewrite Hr; lia).
  split.
  { intros Hacc. pose proof (bad_stack (told invmap n) n info1 (blocked t) (mi <| kw := w1 |>) (seen t2 set) ka) as Hbad. cbv zeta in Hbad.
    change (kw (mi <| kw := w1 |>)) with w1 in Hbad. change (regs (mi <| kw := w1 |>)) with (regs mi) in Hbad. change (mem (mi <| kw := w1 |>)) with (mem m) in Hbad.
    change (sig (seen t2 set)) with (sig t2) in Hbad. fold rt sz in Hbad. rewrite <- Ef, Hc1 in Hbad.
    destruct Hbad as (m1 & t1 & pd1 & Hrun & H1 & H2 & H3 & H4 & H5 & H6 & H7); try done.
    exists m1, t1, pd1. split_and!; try done.
    unfold sys_rt_sigsuspend. rewrite Z.eqb_refl. cbn [negb]. rewrite not_blockable, (suspend_run _ _ _ _ _ _ t w2) by (done || by apply delmask_safe). fold mi. rewrite Hdo, Hrun.
    cbn [truth Z.eqb negb]. by rewrite H1, Hr0. }
  intros Hacc Hmap. pose proof (handler_round (told invmap n) n info1 (blocked t) (mi <| kw := w1 |>) (seen t2 set) ka) as Hround. cbv zeta in Hround.
  change (kw (mi <| kw := w1 |>)) with w1 in Hround. change (regs (mi <| kw := w1 |>)) with (regs mi) in Hround. change (mem (mi <| kw := w1 |>)) with (mem m) in Hround.
  change (sig (seen t2 set)) with (sig t2) in Hround. fold rt sz in Hround. rewrite <- Ef, Hc1 in Hround.
  destruct Hround as (m1 & t1 & Hrun & Hst & _ & _ & Hp3 & Hb3 & Hback); try done; [by destruct Hnk..|].
  exists m1, t1. split_and!; [|done|done|done|].
  - unfold sys_rt_sigsuspend. rewrite Z.eqb_refl. cbn [negb]. rewrite not_blockable, (suspend_run _ _ _ _ _ _ t w2) by (done || by apply delmask_safe). fold mi. by rewrite Hdo, Hrun.
  - intros m2 Hg2 Hr2 Hsp Hsame. destruct (Hback m2 Hg2 Hr2 Hsp Hsame) as (m3 & t3 & H1 & H2 & _ & H4 & H5). exists m3, t3. split_and!; try done.
    rewrite H1. do 2 f_equal. exact Hr0.
Qed.
End Waits.

(** ** A small machine *)

(** Task 2 of [demo], with a handler for the real-time signal that is pending; it sleeps no time. *)
Definition rt40 : sigaction := Sigaction 0x8000 0 0 sigemptyset.
Definition rt_handlers : signal_struct := demo_hands <| action := <[39%nat := rt40]> (action demo_hands) |>.
Definition rt_machine : machine := Machine (with_hands demo {[100 := rt_handlers]}) demo_mem demo_regs 0 0 0.
Definition rt_world : world :=
  match until_woken (mret tt) 2 (sigdelsetmask (siginitset 0x200) unblockable) (kw rt_machine) with Ok (_, w) => w | Bug => demo end.
Definition rt_task : sigtask := (demo_task 2 true) <| blocked := siginitset 0x200 |> <| tstate := TASK_INTERRUPTIBLE |>.

Lemma rt_machine_good : Good (kw rt_machine).
Proof.
  exists demo_queues. replace (kw rt_machine) with (with_hands demo (<[100 := rt_handlers]> (hands demo))) by (cbn; by rewrite insert_singleton_eq).
  eapply (hands_Inv _ _ 100 demo_hands); [apply demo_Inv|done|done|]. apply (action_set_ok demo_hands 40 rt40); [|by split|by repeat split|by intros [|]].
  by destruct (i_hands _ _ demo_Inv 100 demo_hands eq_refl) as (_ & H & _).
Qed.
Lemma rt_world_good : Good rt_world.
Proof.
  destruct (ok_mask_then (sigdelsetmask (siginitset 0x200) unblockable) (sleep (mret tt) 2) (kw rt_machine) rt_machine_good) as (a & w & Hr & Hg & _).
  - apply delmask_safe. by split.
  - intros w Hg Hs. apply ok_bind; [|intros; by apply ok_ret]. change 2 with (current (sys (kw rt_machine))). rewrite <- (s_current _ _ Hs). by apply ok_state.
  - unfold rt_world, until_woken. change 2 with (current (sys (kw rt_machine))) in *. by rewrite Hr.
Qed.

Lemma sigsuspend_exact_witness : exists m1 t1,
  sys_rt_sigsuspend (fun _ _ => true) (fun x => x) (fun m => (false, m)) (fun m => m) (mret tt) (fun _ _ => false) (fun _ _ => false) (mret tt)
    1 1 blank blank (From (siginitset 0x200)) sizeof_sigset rt_machine = Some (Ok (Returns (get (regs m1) ARM_r0), m1)) /\
  started (regs (interrupted rt_machine)) (regs m1) rt40 65440 40 /\ stasks (kw m1) !! 2 = Some t1 /\ blocked t1 = handler_mask rt_task rt40 40 /\
  forall m2, Good (kw m2) -> length (regs m2) = 18%nat -> get (regs m2) ARM_sp = 65440 ->
    (forall i, 0 <= i < sizeof_sigframe / 4 -> mem m2 !! (65440 + 4 * i) = mem m1 !! (65440 + 4 * i)) ->
    exists m3 t3, sys_sigreturn false m2 = Ok (u32 (- EINTR), m3) /\
      take 17 (regs m3) = take 17 (regs (interrupted rt_machine)) /\ stasks (kw m3) !! current (sys (kw m2)) = Some t3 /\ blocked t3 = sigemptyset.
Proof.
  refine (proj2 (proj2 (proj2 (proj2 (sigsuspend_exact (fun _ _ => true) (fun x => x) (fun m => (false, m)) (fun m => m) (mret tt) (fun _ _ => false) (fun _ _ => false) (mret tt) (fun m => eq_refl)
    0 0 blank blank (siginitset 0x200) sizeof_sigset rt_machine rt_world (demo_task 2 true) rt_task (Sigpending 500 (Next 500) (sigaddset sigemptyset 40)) 40 rt40)))
    _ _ _ _ _ _ _ _ _ _ _ _ _ _ _ _ _ _) _ _);
    [apply rt_machine_good|reflexivity|by split|reflexivity|reflexivity|vm_compute; reflexivity|apply rt_world_good|reflexivity|vm_compute; reflexivity|vm_compute; reflexivity|reflexivity|reflexivity|done|by split| |vm_compute; reflexivity|done|done|reflexivity|apply demo_mapped].
  apply (next_signal_is_next (sigaddset sigemptyset 40) (siginitset 0x200)). by apply sigadd_wf, empty_wf.
Defined.
